(* ===== verification/_CoqProject ===== *)
-Q . S2P
Prelude.v
KVBlock.v
FreeQueue.v
Request.v
SchedUtils.v
BlockHash.v
BlockPool.v
BlockPoolInv.v
BlockPoolSpec.v
BlockPoolCache.v
BlockPoolThms.v
EncoderCache.v
SchedEncoder.v
CacheHit.v
CacheHitThms.v
SlidingHit.v
SingleType.v
SingleTypeInv.v
SingleTypeAlloc.v
SingleTypeFree.v
KVCoordinator.v
KVManager.v
KVAlloc.v
KVAllocThms.v
KVSkip.v
KVLookup.v
KVHybrid.v
KVLifecycle.v
KVReach.v
NGram.v
RequestQueue.v
QueuePerm.v
Scheduler.v
SchedulerInv.v
SchedulerWait.v
SchedulerThms.v
SchedulerOutput.v
SchedulerLife.v
SchedulerLive.v
SchedulerReach.v
SchedulerUpdate.v
SchedulerMachine.v
SchedulerSession.v
KVSpec.v
KVGroups.v
KVPlan.v
KVModels.v
KVGroupsThms.v
KVGroupsTotal.v
KVLayout.v
KVDisjoint.v
KVFit.v
KVWorkers.v
KVGlm5.v
Offload.v
OffloadPolicy.v
OffloadArc.v
OffloadManager.v
OffloadStore.v
OffloadThms.v
