(* ===== verification/Prelude.v ===== *)
(** * The scheduling core of vLLM: KV-cache management, request state and scheduling

    vLLM serves language models: requests arrive, a scheduler decides in each step how many
    tokens of which request the model computes, and the keys and values of computed tokens
    live in fixed-size blocks of a cache that requests share by content.  This library
    models the Python code that makes those decisions and proves what makes it correct: no
    block is lost, freed twice or read by a request whose tokens it does not hold; an
    allocation gives a request all its slots or none; lookups find what the cache holds;
    limits are respected.  The tensors themselves, and everything that computes on them,
    are outside.

    ** The program's parts and how they interact

    - A request ([Request], src/vllm/v1/request.py) carries its tokens and the chained hashes
      of its full blocks, which identify its prefixes.
    - Every KV-cache block is a Python object ([KVCacheBlock]) with a reference count, the
      keys it is cached under, and the links of the free list.  The free list
      ([FreeKVCacheBlockQueue]), the pool with its prefix-cache map ([BlockPool]) and the block
      tables of all managers alias the same objects, so they are modelled over one store
      ([KVBlock.v]); a Python reference is a [ref].
    - Layers of one attention kind form a group with a single-type manager (its block table,
      allocation, caching, release and lookup).  A coordinator runs the managers over the one
      pool and reconciles their lookups; [KVCacheManager] is the scheduler's interface.
    - Before all that, planning turns the specs of the model's layers and the memory of every
      worker into the groups, the number of blocks and the place of every layer's pages in one
      allocation per worker ([get_kv_cache_configs]).
    - Blocks can be offloaded to CPU memory: a manager gives keys of blocks slots of a CPU pool,
      counts the transfers that use them and evicts by a pluggable policy.
    - The encoder cache holds outputs of multi-modal encoders under its own budget.
    - The scheduler queues requests by policy.  A step serves the running requests first and
      preempts the last (or the least urgent) when the cache has no room, then admits waiting
      ones; the worker's output is applied to the requests, which stop by the checks of
      core/sched/utils.py.  The n-gram proposer guesses tokens to verify.

    ** How code becomes definitions

    Operations that change state are programs of the monad [M S A], a function from the
    state to [outcome A * S]: [Ok] a value or [Raise] an exception class, and in both cases
    the state that was reached, because Python keeps the mutations made before a raise.
    [x ← m; k] is sequencing, [mfold]/[mfor] are loops over a list, [massert] is assert.
    Python ints are [Z]; dicts are [gmap] where their order is not observed and association
    lists where it is; lists are lists with Python's indexing written out ([pyget]).
    [wp], [wpe] and [runs] in this file are the three ways of stating what a program does:
    it returns with Q; it returns with Q or raises with E; it returns exactly this.

    ** Files, sources (under src/vllm/v1/) and what the theorems show

    - [Prelude]: monad, Python operations, list and integer lemmas, tactics, hints.
    - [KVBlock], [FreeQueue] (core/kv_cache_utils.py): the store of block objects and the
      doubly linked free list.  Refinement: from the constructor, any series of calls
      behaves as a sequence of block ids, and a rejected call changes nothing.
    - [Request] (request.py) and [SchedUtils] (core/sched/utils.py): request state, the
      repetition detector and the stop checks, on every branch.
    - [BlockHash] (core/kv_cache_utils.py): extra keys, chained hashes, packing with group ids,
      the coarse view.  For requests whose multi-modal features are in order and, all but the
      last, end within the prompt's full blocks, incremental hashing equals hashing from
      scratch, and equal hashes mean equal prefixes and extra keys when the hash function has
      no collisions (a hypothesis on the parameter); two places where the keys are not as
      unique as their comments say.
    - [BlockPool], [BlockPoolInv], [BlockPoolSpec], [BlockPoolCache], [BlockPoolThms]
      (core/block_pool.py): the pool.  Its invariant over every series of calls, returning
      or raising, and the exact effect of allocation, freeing, touching, caching, lookup and
      reset on the eviction order, the counts and the map.
    - [EncoderCache] (core/encoder_cache_manager.py) and [SchedEncoder]
      (core/sched/scheduler.py): both encoder-cache managers behind one interface class, the
      invariant of the cache, admission with eviction, and the scheduling of encoder inputs.
    - [CacheHit], [CacheHitThms], [SlidingHit] (core/single_type_kv_cache_manager.py): lookups.
      Full attention returns the longest aligned prefix the cache holds, sliding windows a
      hit whose window is held; the retention mask keeps exactly what later lookups need.
    - [SingleType], [SingleTypeInv], [SingleTypeAlloc], [SingleTypeFree]: the managers.  A
      block's count is the number of times tables and pending copies list it; the predicted
      number of blocks suffices for the allocation.
    - [KVCoordinator], [KVManager] (core/kv_cache_coordinator.py, core/kv_cache_manager.py):
      the coordinators and the manager, and their constructor from a configuration.
    - [KVAlloc], [KVAllocThms]: [allocate_slots] over any mix of groups is all or nothing.
    - [KVSkip]: blocks freed early are never attended to again; windowed requests stay
      within the admission cap.
    - [KVLookup], [KVHybrid]: the hybrid lookup's fixed-point loop ends, all groups agree on
      one length, and their blocks serve it (groups without EAGLE).
    - [KVLifecycle], [KVReach]: construction, release, lookup composed with allocation, and
      the invariant of the whole cache over every series of scheduler calls.
    - [NGram] (spec_decode/ngram_proposer.py): the draft is what followed the earliest earlier
      occurrence of the longest recurring suffix, for every request of a batch, whatever
      the reused buffers hold.
    - [RequestQueue], [QueuePerm] (core/sched/request_queue.py, with heapq): both queues refine
      a list in service order; whatever the contents, they keep their items.
    - [Scheduler], [SchedulerOutput], [SchedulerLife] (core/sched/scheduler.py and
      async_scheduler.py): the whole scheduler.  [Scheduler]: its state, preemption, blocked
      requests, the loops over the running and the waiting requests.  [SchedulerOutput]: what
      a step hands to the workers, and [schedule] itself.  [SchedulerLife]: constructor, adding
      and finishing requests, streaming sessions, [update_from_output], drafts, resets.
    - [SchedulerInv], [SchedulerWait], [SchedulerThms]: the loops of a step.  Token and
      slot budgets, the limit on running requests, conservation of requests, and a semantics
      of loops without fuel ([while_runs]) in which they end.
    - [SchedulerLive], [SchedulerReach], [SchedulerUpdate], [SchedulerMachine]: the scheduler as a
      state machine whose steps are the engine's calls that return, in any order, for requests
      that are not resumable.  In every state it reaches, each known request is in exactly one
      queue; a step that returns stays within its limits and loses no request; the assertions
      on the result of its two loops hold, and the loops end.
    - [KVSpec] (kv_cache_interface.py): the specs of the layers, of all classes: page sizes,
      padding, merging, what a request can need.  Code without state is in the error monad
      [outcome] alone.
    - [KVGroups] (core/kv_cache_utils.py): the grouping of layers, every path of
      [get_kv_cache_groups] with the functions it calls; [KVPlan]: strides, tensors, the
      GLM-5.3-Flash layout, memory checks, auto-fit, all workers.  [KVModels]: two small models
      for the examples.
    - [KVGroupsThms], [KVGroupsTotal]: the groups partition the layers, on every path; for plain
      models with the hybrid cache manager on, grouping does not fail.
    - [KVLayout], [KVDisjoint]: every layout's strides are a mixed-radix number system, so the
      cells of the planned tensors stay in the allocation, cells that share a byte are of the
      same block, and within a group none do.  [KVGlm5]: the same for the layout in which Mamba
      and MLA layers, and tails and indexers, share regions, and by how much the memory check
      underestimates a request when a draft model's layers live in the pool.
    - [KVFit]: a request's memory grows with its length, so the search for the maximum length
      finds the largest one that fits; auto-fit over all workers.  [KVWorkers]: the same number
      of blocks on every worker, within its memory and enough for one request (without the
      GLM-5.3-Flash layout), the layers of every worker, and why a worker without layers of a
      group with per-layer specs cannot allocate its cache.
    - [Offload] (kv_offload/base.py, cpu/manager.py and cpu/policies/): the interface of a cache
      policy, LRU, ARC (with its float arithmetic) and the offloading manager.
      [OffloadPolicy], [OffloadArc]: the laws the manager relies on, that LRU and ARC satisfy them, and
      what each evicts; ARC's loop in closed form.  [OffloadManager], [OffloadStore]: the invariant
      of the block pool and each call, over any policy with the laws.  [OffloadThms]: the
      manager as a state machine; no assertion of it can fail, blocks of transfers in flight
      stay where they are, stores are all or nothing; and exactly which stores ARC refuses.
    - [SchedulerSession]: a streaming session that continues keeps the block hash of tokens it
      no longer has; and runs in which a preempted session ends up in no queue and in which
      the assertion on LoRA adapters fails with several batches in flight.

    ** Interfaces

    [EncoderCacheOps] (in [SchedEncoder]) is what the scheduler uses of an encoder cache; both
    managers are instances.  [Query] and [Settled] (in [KVLookup]) state that a program only
    reads and what it settles on; the coordinator's lookup is proved against them.
    [st_ok] (a manager over the pool) and [kv_ok] (all managers over the pool) are the
    invariants through which allocation, release and lookup compose.  [Stable] (in
    [SchedulerWait]) is what a relation between scheduler states needs to hold of a whole loop
    once it holds of its steps; budgets, conservation and quiet fields are instances.
    [sched_ok] is the scheduler's invariant.  [CachePolicy] with [PolicyLaws] is what the offloading
    manager uses of a policy; [LRU_laws] and [ARC_laws] are its instances.

    ** Fuel and bounds

    [while] loops of the source carry fuel and end in [Raise OutOfFuel] without it; the
    theorems show that they do not.  The block hasher's loop gets one unit per token, the
    bisection one per element, the hybrid lookup's loop the maximum hit length plus two;
    the last is shown to be enough for any cache contents.  The n-gram search gets two
    rounds per token, heapq's loops one per item, the scheduler's loops one per request they
    may look at, and the preemption loop one per running request; all are shown to be
    enough, the scheduler's by a run of the loop without fuel that has no more rounds and the
    same result.  The binary search for the maximum length gets log2 of the limit plus one rounds,
    shown to be enough.  Group ids are packed in 32 bits, with the overflow error written out.
    The counts and ids of offloaded blocks are kept in 32 and 64 bits.

    ** Assumptions

    The hash function of block keys (sha256 over cbor or pickle bytes) is a parameter; only the theorem
    that equal hashes mean equal prefixes assumes it free of collisions.  The theorems on the KV cache take
    a configuration whose groups have positive block sizes, as the configuration code
    ensures.  Of the worker's results nothing is assumed: sampled tokens, drafts and the
    grammar's verdicts are arguments of the calls.  The theorems on reachable scheduler
    states are for series of calls that return, without a KV connector, and for requests that
    are not resumable (a streaming session breaks them, see [SchedulerSession]).
    The planning theorems take layers with positive block, head and page sizes ([placeable],
    [sized]; division by zero is not an error of the model) and a resolved cache layout, with
    heads outside blocks only if all layers have the same number of heads; that one request
    fits is shown for groups whose layers need equally many pages ([even_group]) and workers
    without the GLM-5.3-Flash layout.
    The offloading theorems take a pool of fewer than 2^63 blocks, fewer than 2^31 loads in
    flight, a tracker that may hold a key, and calls in the order of the protocol
    ([offload_allowed]): only keys that lookup reports as ready are loaded, only prepared
    loads are completed, and a store names a key once.

    ** Not modelled

    - Mamba and attention-sink managers: Mamba state copies live in worker tensors, and
      their block tables are tied to a step-by-step protocol with the worker.
    - KV and encoder-cache connectors (src/vllm/distributed/): they speak to other processes.
      Results of theirs enter as arguments (external computed tokens); the scheduler is
      modelled without a connector, so requests do not wait for remote blocks.
    - Of planning: kernel-block splitting and the torch views, the concurrency and capacity
      figures (floats that are only logged), and the choice of the layout by the backends.
    - Of offloading: the transfer workers, the shared memory region, secondary tiers and the
      loading of policies from other modules.
    - Metrics, event publication and logging: they only observe.
    - Workers, models, kernels, quantisation, platforms, compilation, the API servers, the
      engine's process management, csrc/ and rust/: numerical code, I/O and glue, whose
      correctness is not a matter of the state these files keep. *)
From stdpp Require Import base gmap list strings sets fin_maps.
From stdpp Require Export base gmap list strings sets fin_maps.
From Stdlib Require Import Strings.Byte.
From Stdlib Require Export ZArith Lia ZifyBool ZifyNat.

(** ** Python values and exceptions *)

(** The exception classes the modelled code raises.  [OutOfFuel] is not one of them: a
    definition with fuel ends with it when the fuel runs out, and the theorems on such
    definitions show that it does not. *)
Inductive exn :=
  | AssertionError
  | ValueError
  | RuntimeError
  | KeyError
  | IndexError
  | OverflowError
  | NotImplementedError
  | StopIteration
  | TypeError
  | OutOfFuel.

#[export] Instance exn_eq_dec : EqDecision exn.
Proof. solve_decision. Defined.

Inductive outcome (A : Type) :=
  | Ok (a : A)
  | Raise (e : exn).
Arguments Ok {A} _.
Arguments Raise {A} _.

#[export] Instance outcome_eq_dec {A} `{EqDecision A} : EqDecision (outcome A).
Proof. solve_decision. Defined.

(** A computation over a mutable state [S]: it returns a value or raises, and
    the state it leaves behind is kept in both cases, since Python does not
    roll back what was assigned before an exception. *)
Definition M (S A : Type) : Type := S -> outcome A * S.

#[export] Instance M_ret S : MRet (M S) := fun A a s => (Ok a, s).
#[export] Instance M_bind S : MBind (M S) := fun A B k m s =>
  match m s with
  | (Ok a, s') => k a s'
  | (Raise e, s') => (Raise e, s')
  end.

Definition raise {S A} (e : exn) : M S A := fun s => (Raise e, s).
Definition gets {S A} (f : S -> A) : M S A := fun s => (Ok (f s), s).
Definition modify {S} (f : S -> S) : M S unit := fun s => (Ok tt, f s).
(** [assert b] *)
Definition massert {S} (b : bool) : M S unit :=
  if b then mret tt else raise AssertionError.
(** Force an optional value, with the exception of the access it stands for. *)
Definition of_option {S A} (e : exn) (o : option A) : M S A :=
  match o with Some a => mret a | None => raise e end.
(** [if b: m] *)
Definition mwhen {S} (b : bool) (m : M S unit) : M S unit :=
  if b then m else mret tt.

(** [for x in l: f(x)] *)
Fixpoint mfor {S A} (l : list A) (f : A -> M S unit) : M S unit :=
  match l with
  | [] => mret tt
  | x :: l' => f x ;; mfor l' f
  end.

(** [for x in l: acc = f(acc, x)] *)
Fixpoint mfold {S A B} (f : B -> A -> M S B) (b : B) (l : list A) : M S B :=
  match l with
  | [] => mret b
  | x :: l' => b' ← f b x; mfold f b' l'
  end.

(** Run a computation on a component of a larger state. *)
Definition zoom {S T A} (get : S -> T) (put : T -> S -> S) (m : M T A) : M S A :=
  fun s => let '(o, t) := m (get s) in (o, put t s).

(** ** Total-correctness judgements *)

(** [wp m Q s]: from [s], [m] returns without raising, in a state and with a
    value that satisfy [Q]. *)
Definition wp {S A} (m : M S A) (Q : A -> S -> Prop) (s : S) : Prop :=
  match m s with
  | (Ok a, s') => Q a s'
  | (Raise _, _) => False
  end.

Section wp.
Context {S : Type}.

Lemma wp_ret {A} (a : A) Q (s : S) : wp (mret a) Q s <-> Q a s.
Proof. done. Qed.

Lemma wp_bind {A B} (m : M S A) (k : A -> M S B) Q s :
  wp (mbind k m) Q s <-> wp m (fun a s' => wp (k a) Q s') s.
Proof. unfold wp, mbind, M_bind. destruct (m s) as [[]]; done. Qed.

Lemma wp_gets {A} (f : S -> A) Q s : wp (gets f) Q s <-> Q (f s) s.
Proof. done. Qed.

Lemma wp_modify (f : S -> S) Q s : wp (modify f) Q s <-> Q tt (f s).
Proof. done. Qed.

Lemma wp_assert (b : bool) Q (s : S) :
  wp (massert b) Q s <-> b = true /\ Q tt s.
Proof. destruct b; unfold wp; simpl; naive_solver. Qed.

Lemma wp_of_option {A} e (o : option A) Q (s : S) :
  wp (of_option e o) Q s <-> exists a, o = Some a /\ Q a s.
Proof. destruct o; unfold wp; simpl; naive_solver. Qed.

Lemma wp_mono {A} (m : M S A) (Q R : A -> S -> Prop) s :
  wp m Q s -> (forall a s', Q a s' -> R a s') -> wp m R s.
Proof. unfold wp. destruct (m s) as [[]]; naive_solver. Qed.

Lemma wp_run {A} (m : M S A) Q s :
  wp m Q s <-> exists a s', m s = (Ok a, s') /\ Q a s'.
Proof. unfold wp. destruct (m s) as [[]]; naive_solver. Qed.

(** The loop rule: an invariant over the elements still to visit. *)
Lemma wp_for {A} (I : list A -> S -> Prop) (f : A -> M S unit) l Q s :
  I l s ->
  (forall x l' s, I (x :: l') s -> wp (f x) (fun _ => I l') s) ->
  (forall s, I [] s -> Q tt s) ->
  wp (mfor l f) Q s.
Proof.
  intros HI Hstep Hdone. revert s HI.
  induction l as [|x l IH]; intros s HI; [by apply Hdone|].
  simpl. rewrite wp_bind. eapply wp_mono; [by apply Hstep|]. naive_solver.
Qed.

Lemma wp_for_app {A} (f : A -> M S unit) l1 l2 Q s :
  wp (mfor (l1 ++ l2) f) Q s <-> wp (mfor l1 f) (fun _ s' => wp (mfor l2 f) Q s') s.
Proof.
  revert s. induction l1 as [|x l1 IH]; intros s; [done|]. simpl. rewrite !wp_bind.
  unfold wp at 1 3. destruct (f x s) as [[]]; [apply IH|done].
Qed.

Lemma wp_fold {A B} (I : list A -> B -> S -> Prop) (f : B -> A -> M S B)
    l b Q s :
  I l b s ->
  (forall x l' b s, I (x :: l') b s -> wp (f b x) (fun b' => I l' b') s) ->
  (forall b s, I [] b s -> Q b s) ->
  wp (mfold f b l) Q s.
Proof.
  intros HI Hstep Hdone. revert b s HI.
  induction l as [|x l IH]; intros b s HI; [by apply Hdone|].
  simpl. rewrite wp_bind. eapply wp_mono; [by apply Hstep|]. naive_solver.
Qed.

Lemma wp_zoom {T A} (get : S -> T) put (m : M T A) Q s :
  wp (zoom get put m) Q s <-> wp m (fun a t => Q a (put t s)) (get s).
Proof. unfold wp, zoom. by destruct (m (get s)) as [[]]. Qed.
End wp.

(** One step of symbolic execution of a [wp] goal. *)
Ltac wp_step :=
  first
    [ rewrite wp_bind | rewrite wp_ret | rewrite wp_gets | rewrite wp_modify
    | rewrite wp_assert | rewrite wp_of_option | rewrite wp_zoom ].
Ltac wp_steps := repeat (wp_step; simpl).

(** [wpe m Q E s]: [m] returns with [Q], or raises and leaves a state with [E]. *)
Definition wpe {S A} (m : M S A) (Q : A -> S -> Prop) (E : S -> Prop) (s : S) : Prop :=
  match m s with
  | (Ok a, s') => Q a s'
  | (Raise _, s') => E s'
  end.

Section wpe.
Context {S : Type} (E : S -> Prop).

Lemma wpe_bind {A B} (m : M S A) (k : A -> M S B) Q s :
  wpe (mbind k m) Q E s <-> wpe m (fun a s' => wpe (k a) Q E s') E s.
Proof. unfold wpe, mbind, M_bind. destruct (m s) as [[]]; done. Qed.

Lemma wpe_ret {A} (a : A) Q (s : S) : wpe (mret a) Q E s <-> Q a s.
Proof. done. Qed.

Lemma wpe_raise {A} e (Q : A -> S -> Prop) (s : S) : wpe (raise e) Q E s <-> E s.
Proof. done. Qed.

Lemma wpe_gets {A} (f : S -> A) Q s : wpe (gets f) Q E s <-> Q (f s) s.
Proof. done. Qed.

Lemma wpe_modify (f : S -> S) Q s : wpe (modify f) Q E s <-> Q tt (f s).
Proof. done. Qed.

Lemma wpe_mono {A} (m : M S A) (Q R : A -> S -> Prop) (F : S -> Prop) s :
  wpe m Q F s -> (forall a s', Q a s' -> R a s') -> (forall s', F s' -> E s') -> wpe m R E s.
Proof. unfold wpe. destruct (m s) as [[]]; naive_solver. Qed.

Lemma wpe_wp {A} (m : M S A) (Q : A -> S -> Prop) s : wp m Q s -> wpe m Q E s.
Proof. unfold wp, wpe. by destruct (m s) as [[]]. Qed.

Lemma wpe_assert (b : bool) Q (s : S) :
  E s -> (b = true -> Q tt s) -> wpe (massert b) Q E s.
Proof. destruct b; unfold wpe; simpl; naive_solver. Qed.

Lemma wpe_of_option {A} e (o : option A) Q (s : S) :
  E s -> (forall a, o = Some a -> Q a s) -> wpe (of_option e o) Q E s.
Proof. destruct o; unfold wpe; simpl; naive_solver. Qed.

(** A loop whose body keeps an invariant keeps it, raising or not. *)
Lemma wpe_for {A} (I : S -> Prop) (f : A -> M S unit) l s :
  I s -> (forall s, I s -> E s) -> (forall x s, x ∈ l -> I s -> wpe (f x) (fun _ => I) E s) ->
  wpe (mfor l f) (fun _ => I) E s.
Proof.
  intros HI HE Hf. revert s HI. induction l as [|x l IH]; intros s HI; [done|].
  simpl. rewrite wpe_bind. eapply wpe_mono; [apply Hf; set_solver| |done].
  intros a s' HI'. apply IH; set_solver.
Qed.

Lemma wpe_fold {A B} (I : S -> Prop) (f : B -> A -> M S B) b l s :
  I s -> (forall s, I s -> E s) -> (forall x b s, x ∈ l -> I s -> wpe (f b x) (fun _ => I) E s) ->
  wpe (mfold f b l) (fun _ => I) E s.
Proof.
  intros HI HE Hf. revert b s HI. induction l as [|x l IH]; intros b s HI; [done|].
  simpl. rewrite wpe_bind. eapply wpe_mono; [apply Hf; set_solver| |done].
  intros b' s' HI'. apply IH; set_solver.
Qed.
End wpe.

Lemma wpe_zoom {S T A} (get : S -> T) put (m : M T A) Q (E : S -> Prop) s :
  wpe (zoom get put m) Q E s <-> wpe m (fun a t => Q a (put t s)) (fun t => E (put t s)) (get s).
Proof. unfold wpe, zoom. by destruct (m (get s)) as [[]]. Qed.

(** A part of a computation that does not matter to the value it returns. *)
Lemma wpe_skip {S A B} (m : M S A) (k : A -> M S B) Q s :
  (forall a s', wpe (k a) Q (fun _ => True) s') -> wpe (mbind k m) Q (fun _ => True) s.
Proof. intros Hk. rewrite wpe_bind. unfold wpe at 1. destruct (m s) as [[]]; [apply Hk|done]. Qed.

Lemma wpe_both {S A} (m : M S A) (Q R : A -> S -> Prop) (E F : S -> Prop) s :
  wpe m Q E s -> wpe m R F s -> wpe m (fun a s' => Q a s' /\ R a s') E s.
Proof. unfold wpe. destruct (m s) as [[]]; done. Qed.

(** ** Bytes *)

Definition bytes : Type := list byte.

#[export] Instance byte_eq_dec' : EqDecision byte := Byte.byte_eq_dec.
#[export] Program Instance byte_countable : Countable byte :=
  inj_countable Byte.to_N Byte.of_N Byte.of_to_N.

Definition byte_val (b : byte) : Z := Z.of_N (Byte.to_N b).
Definition byte_of_val (z : Z) : byte :=
  default x00 (Byte.of_N (Z.to_N (z mod 256))).

(** [int.from_bytes(b, "big")] *)
Definition from_bytes_big (b : bytes) : Z :=
  foldl (fun acc x => (acc * 256 + byte_val x)%Z) 0%Z b.

(** [z.to_bytes(n, "big")] for a value that fits in [n] bytes *)
Fixpoint to_bytes_big (n : nat) (z : Z) : bytes :=
  match n with
  | O => []
  | S n => to_bytes_big n (z / 256) ++ [byte_of_val z]
  end.

Lemma byte_val_range b : (0 <= byte_val b < 256)%Z.
Proof. unfold byte_val. pose proof (Byte.to_N_bounded b). lia. Qed.

Lemma byte_val_of_val z : byte_val (byte_of_val z) = (z mod 256)%Z.
Proof.
  unfold byte_val, byte_of_val. pose proof (Z.mod_pos_bound z 256 ltac:(lia)).
  destruct (Byte.of_N (Z.to_N (z mod 256))) as [b|] eqn:E; simpl.
  - apply Byte.to_of_N in E. lia.
  - apply Byte.of_N_None_iff in E. lia.
Qed.

Lemma from_to_bytes_big n z :
  (0 <= z < 256 ^ Z.of_nat n)%Z -> from_bytes_big (to_bytes_big n z) = z.
Proof.
  revert z. induction n as [|n IH]; intros z Hz.
  - simpl in *. unfold from_bytes_big. simpl. lia.
  - rewrite Nat2Z.inj_succ, Z.pow_succ_r in Hz by lia.
    simpl. unfold from_bytes_big in *. rewrite foldl_app. simpl.
    rewrite IH, byte_val_of_val.
    + pose proof (Z.div_mod z 256). lia.
    + split; [apply Z.div_pos; lia|apply Z.div_lt_upper_bound; lia].
Qed.

Lemma length_to_bytes_big n z : length (to_bytes_big n z) = n.
Proof.
  revert z. induction n as [|n IH]; intros z; [done|].
  simpl. rewrite length_app, IH. simpl. lia.
Qed.

(** ** Records with a field-update notation *)

(** [eta] rebuilds a record from its projections; [r <| p := v |>] then
    replaces the projection [p] in it. *)
Class Eta (R : Type) := eta : R -> R.
Class Setter {R T : Type} (p : R -> T) := set_field : (T -> T) -> R -> R.

Ltac derive_setter :=
  lazymatch goal with
  | |- @Setter ?R ?T ?p =>
      let e := constr:(_ : Eta R) in
      let e := eval hnf in e in
      lazymatch eval pattern p in e with
      | ?ctx p => exact (fun (f : T -> T) (r : R) => ctx (fun r' : R => f (p r')) r)
      end
  end.
#[export] Hint Extern 0 (Setter _) => derive_setter : typeclass_instances.

#[warnings="-postfix-notation-not-level-1"]
Notation "r <| p := v |>" := (set_field (p := p) (fun _ => v) r)
  (at level 12, left associativity, v at level 200,
   format "r  <| p  :=  v |>").

(** ** Python lists *)

(** [l[a:b]] for non-negative bounds *)
Definition slice {A} (a b : Z) (l : list A) : list A :=
  take (Z.to_nat b - Z.to_nat a) (drop (Z.to_nat a) l).

(** [l[i]], where a negative index counts from the end *)
Definition pyget {A} (l : list A) (i : Z) : option A :=
  let i' := if (i <? 0)%Z then (Z.of_nat (length l) + i)%Z else i in
  if (i' <? 0)%Z then None else l !! Z.to_nat i'.

Definition zlen {A} (l : list A) : Z := Z.of_nat (length l).

(** [range(a, b)] *)
Definition zrange (a b : Z) : list Z :=
  (fun k => (a + Z.of_nat k)%Z) <$> seq 0 (Z.to_nat (b - a)).

(** [for x in l: if not f(x): return False], then [return True], where [f] may raise. *)
Fixpoint all_ok {A} (f : A -> outcome bool) (l : list A) : outcome bool :=
  match l with
  | [] => Ok true
  | x :: l' => match f x with Ok true => all_ok f l' | o => o end
  end.

Lemma elem_of_zrange a b z : z ∈ zrange a b <-> (a <= z < b)%Z.
Proof.
  unfold zrange. rewrite list_elem_of_fmap. setoid_rewrite elem_of_seq. split.
  - intros (k & -> & Hk). lia.
  - intros Hz. exists (Z.to_nat (z - a)). lia.
Qed.

Lemma zrange_nil a b : (b <= a)%Z -> zrange a b = [].
Proof. intros. unfold zrange. by replace (Z.to_nat (b - a)) with 0 by lia. Qed.

Lemma zrange_cons a b : (a < b)%Z -> zrange a b = a :: zrange (a + 1) b.
Proof.
  intros H. unfold zrange. replace (Z.to_nat (b - a)) with (S (Z.to_nat (b - (a + 1)))) by lia.
  simpl. f_equal; [lia|]. rewrite <- fmap_S_seq, <- list_fmap_compose.
  apply list_fmap_ext. intros i k _. unfold compose. lia.
Qed.

Lemma length_zrange a b : length (zrange a b) = Z.to_nat (b - a).
Proof. unfold zrange. by rewrite length_fmap, length_seq. Qed.

(** A loop whose body never raises computes the conjunction. *)
Lemma all_ok_spec {A} (f : A -> outcome bool) (g : A -> bool) l :
  (forall x, x ∈ l -> f x = Ok (g x)) -> all_ok f l = Ok (forallb g l).
Proof.
  induction l as [|x l IH]; intros Hf; [done|]. simpl.
  rewrite Hf by set_solver. destruct (g x); simpl; [apply IH; set_solver|done].
Qed.

Lemma pyget_nonneg {A} (l : list A) (i : nat) : pyget l (Z.of_nat i) = l !! i.
Proof.
  unfold pyget. replace (Z.of_nat i <? 0)%Z with false by lia.
  replace (Z.of_nat i <? 0)%Z with false by lia. by rewrite Nat2Z.id.
Qed.

Lemma pyget_neg {A} (l : list A) (k : nat) :
  0 < k <= length l -> pyget l (- Z.of_nat k) = l !! (length l - k).
Proof.
  intros Hk. unfold pyget. replace (- Z.of_nat k <? 0)%Z with true by lia.
  replace (_ <? 0)%Z with false by lia. f_equal. lia.
Qed.

(** ** Ordered dictionaries *)

(** A Python dict whose iteration order matters: pairs in insertion order. *)
Section odict.
Context {K V : Type} `{EqDecision K}.

Fixpoint odict_get (k : K) (d : list (K * V)) : option V :=
  match d with
  | [] => None
  | (k', v) :: d' => if decide (k' = k) then Some v else odict_get k d'
  end.

(** [d[k] = v]: an existing key keeps its position. *)
Fixpoint odict_set (k : K) (v : V) (d : list (K * V)) : list (K * V) :=
  match d with
  | [] => [(k, v)]
  | (k', v') :: d' => if decide (k' = k) then (k', v) :: d' else (k', v') :: odict_set k v d'
  end.

(** [d.pop(k, None)] leaves the rest in order. *)
Definition odict_del (k : K) (d : list (K * V)) : list (K * V) :=
  filter (fun kv => kv.1 <> k) d.

Lemma odict_set_new k v d : k ∉ d.*1 -> odict_set k v d = d ++ [(k, v)].
Proof.
  induction d as [|[k' v'] d IH]; intros Hk; [done|]. simpl in *.
  rewrite decide_False by set_solver. rewrite IH by set_solver. done.
Qed.

Lemma odict_get_elem k v d : odict_get k d = Some v -> (k, v) ∈ d.
Proof.
  induction d as [|[k' v'] d IH]; [done|]. simpl. case_decide; intros.
  - simplify_eq. set_solver.
  - set_solver.
Qed.

Lemma odict_get_nodup k v d : NoDup d.*1 -> (k, v) ∈ d -> odict_get k d = Some v.
Proof.
  induction d as [|[k' v'] d IH]; [set_solver|]. simpl.
  intros [Hk Hnd]%NoDup_cons [[= -> ->]|Hin]%elem_of_cons; [by rewrite decide_True|].
  rewrite decide_False; [by apply IH|]. intros ->. apply Hk.
  apply list_elem_of_fmap. by exists (k, v).
Qed.

Lemma odict_get_None k d : odict_get k d = None <-> k ∉ d.*1.
Proof.
  induction d as [|[k' v'] d IH]; [set_solver|]. simpl. case_decide; set_solver.
Qed.

Lemma odict_keys_del k d : (odict_del k d).*1 = filter (.≠ k) (d.*1).
Proof.
  unfold odict_del. induction d as [|[k' v'] d IH]; [done|]. csimpl.
  destruct (decide (k' = k)).
  - rewrite !filter_cons_False by (simpl; naive_solver). done.
  - rewrite !filter_cons_True by done. csimpl. by rewrite IH.
Qed.

Lemma elem_of_odict_del k d kv : kv ∈ odict_del k d <-> kv ∈ d /\ kv.1 <> k.
Proof. unfold odict_del. rewrite list_elem_of_filter. naive_solver. Qed.
End odict.

(** ** Generic lemmas *)

Lemma list_filter_all {A} (P : A -> Prop) `{!forall x, Decision (P x)} (l : list A) :
  (forall x, x ∈ l -> P x) -> filter P l = l.
Proof.
  induction l as [|x l IH]; intros Hall; [done|].
  rewrite filter_cons_True, IH by set_solver. done.
Qed.

Lemma list_filter_none {A} (P : A -> Prop) `{!forall x, Decision (P x)} (l : list A) :
  (forall x, x ∈ l -> ~ P x) -> filter P l = [].
Proof.
  induction l as [|x l IH]; intros Hall; [done|].
  rewrite filter_cons_False, IH by set_solver. done.
Qed.

Lemma slice_subseteq {A} a b (l : list A) x : x ∈ slice a b l -> x ∈ l.
Proof. intros Hx. unfold slice in Hx. by apply subseteq_take, subseteq_drop in Hx. Qed.
