(* ===== verification/KVBlock.v ===== *)
(** KV-cache block metadata ([KVCacheBlock] of vllm/v1/core/kv_cache_utils.py)
    and the object store that the free queue, the block pool and the managers
    share.  A Python reference to a block object is a [ref]; the two sentinel
    objects of the free list are [Head] and [Tail]. *)
From S2P Require Import Prelude.

(** Object identities: the fake head and tail of the free list, and the block
    created at index [i] of [BlockPool.blocks]. *)
Inductive ref :=
  | Head
  | Tail
  | Blk (i : nat).

#[export] Instance ref_eq_dec : EqDecision ref.
Proof. solve_decision. Defined.

#[export] Program Instance ref_countable : Countable ref :=
  inj_countable'
    (fun r => match r with Head => inl true | Tail => inl false | Blk i => inr i end)
    (fun x => match x with inl true => Head | inl false => Tail | inr i => Blk i end) _.
Next Obligation. by intros []. Qed.

#[export] Instance Blk_inj : Inj (=) (=) Blk.
Proof. congruence. Qed.

(** [BlockHashWithGroupId]: raw bytes. *)
Abbreviation key := bytes (only parsing).

(** The dataclass, field by field. *)
Record KVCacheBlock := {
  block_id : Z;
  ref_cnt : Z;
  block_hash : option key;
  block_hash_num_tokens : option Z;
  prev_free_block : option ref;
  next_free_block : option ref;
  is_null : bool;
}.

(** [KVCacheBlock(block_id)] with the dataclass defaults. *)
Definition new_block (i : Z) : KVCacheBlock :=
  {| block_id := i; ref_cnt := 0; block_hash := None;
     block_hash_num_tokens := None; prev_free_block := None;
     next_free_block := None; is_null := false |}.

#[export] Instance KVCacheBlock_inhabited : Inhabited KVCacheBlock :=
  populate (new_block (-1)).

Definition with_prev (p : option ref) (b : KVCacheBlock) : KVCacheBlock :=
  {| block_id := block_id b; ref_cnt := ref_cnt b; block_hash := block_hash b;
     block_hash_num_tokens := block_hash_num_tokens b; prev_free_block := p;
     next_free_block := next_free_block b; is_null := is_null b |}.

Definition with_next (n : option ref) (b : KVCacheBlock) : KVCacheBlock :=
  {| block_id := block_id b; ref_cnt := ref_cnt b; block_hash := block_hash b;
     block_hash_num_tokens := block_hash_num_tokens b;
     prev_free_block := prev_free_block b; next_free_block := n;
     is_null := is_null b |}.

Definition with_ref_cnt (c : Z) (b : KVCacheBlock) : KVCacheBlock :=
  {| block_id := block_id b; ref_cnt := c; block_hash := block_hash b;
     block_hash_num_tokens := block_hash_num_tokens b;
     prev_free_block := prev_free_block b; next_free_block := next_free_block b;
     is_null := is_null b |}.

Definition with_hash (h : option key) (n : option Z) (b : KVCacheBlock) : KVCacheBlock :=
  {| block_id := block_id b; ref_cnt := ref_cnt b; block_hash := h;
     block_hash_num_tokens := n; prev_free_block := prev_free_block b;
     next_free_block := next_free_block b; is_null := is_null b |}.

Definition with_null (v : bool) (b : KVCacheBlock) : KVCacheBlock :=
  {| block_id := block_id b; ref_cnt := ref_cnt b; block_hash := block_hash b;
     block_hash_num_tokens := block_hash_num_tokens b;
     prev_free_block := prev_free_block b; next_free_block := next_free_block b;
     is_null := v |}.

(** The store of block objects.  Reads are total (an object reference always
    denotes an object); a write replaces the object's attributes. *)
Abbreviation heap := (gmap ref KVCacheBlock).

Definition upd (f : KVCacheBlock -> KVCacheBlock) (r : ref) (m : heap) : heap :=
  <[r := f (m !!! r)]> m.

Definition set_prev (r : ref) (p : option ref) : heap -> heap := upd (with_prev p) r.
Definition set_next (r : ref) (n : option ref) : heap -> heap := upd (with_next n) r.

Definition next_of (m : heap) (r : ref) : option ref := next_free_block (m !!! r).
Definition prev_of (m : heap) (r : ref) : option ref := prev_free_block (m !!! r).

(** What of a block the free queue never touches. *)
Definition meta (b : KVCacheBlock) : Z * Z * option key * option Z * bool :=
  (block_id b, ref_cnt b, block_hash b, block_hash_num_tokens b, is_null b).

Definition same_meta (m m' : heap) : Prop :=
  forall r, meta (m' !!! r) = meta (m !!! r).

(** The links of a block, which only the free queue touches. *)
Definition same_links (m m' : heap) : Prop :=
  forall r, next_of m' r = next_of m r /\ prev_of m' r = prev_of m r.

Lemma upd_lookup f r r' (m : heap) :
  upd f r m !!! r' = if decide (r = r') then f (m !!! r) else m !!! r'.
Proof.
  unfold upd. destruct (decide (r = r')) as [->|].
  - by rewrite lookup_total_insert_eq.
  - by rewrite lookup_total_insert_ne.
Qed.

Lemma next_of_set_next r v m r' :
  next_of (set_next r v m) r' = if decide (r = r') then v else next_of m r'.
Proof. unfold next_of, set_next. rewrite upd_lookup. by case_decide. Qed.

Lemma next_of_set_prev r v m r' : next_of (set_prev r v m) r' = next_of m r'.
Proof. unfold next_of, set_prev. rewrite upd_lookup. case_decide; naive_solver. Qed.

Lemma prev_of_set_prev r v m r' :
  prev_of (set_prev r v m) r' = if decide (r = r') then v else prev_of m r'.
Proof. unfold prev_of, set_prev. rewrite upd_lookup. by case_decide. Qed.

Lemma prev_of_set_next r v m r' : prev_of (set_next r v m) r' = prev_of m r'.
Proof. unfold prev_of, set_next. rewrite upd_lookup. case_decide; naive_solver. Qed.

(** [heap_links] rewrites link reads through link writes. *)
Create Rewrite HintDb heap_links.
#[export] Hint Rewrite next_of_set_next next_of_set_prev
  prev_of_set_prev prev_of_set_next : heap_links.

Lemma meta_set_next r v m r' : meta (set_next r v m !!! r') = meta (m !!! r').
Proof. unfold set_next. rewrite upd_lookup. by case_decide; subst. Qed.

Lemma meta_set_prev r v m r' : meta (set_prev r v m !!! r') = meta (m !!! r').
Proof. unfold set_prev. rewrite upd_lookup. by case_decide; subst. Qed.

#[export] Hint Rewrite meta_set_next meta_set_prev : heap_links.

#[export] Instance same_meta_refl : Reflexive same_meta.
Proof. by intros m r. Qed.
#[export] Instance same_meta_trans : Transitive same_meta.
Proof. intros m1 m2 m3 H1 H2 r. by rewrite H2, H1. Qed.
#[export] Instance same_links_refl : Reflexive same_links.
Proof. by intros m r. Qed.
#[export] Instance same_links_trans : Transitive same_links.
Proof.
  intros m1 m2 m3 H1 H2 r. destruct (H1 r), (H2 r). split; congruence.
Qed.

(** A link write keeps the metadata; a metadata write keeps the links. *)
Lemma same_meta_set_next r v m : same_meta m (set_next r v m).
Proof. intros r'. by autorewrite with heap_links. Qed.
Lemma same_meta_set_prev r v m : same_meta m (set_prev r v m).
Proof. intros r'. by autorewrite with heap_links. Qed.

Lemma same_links_upd f r m :
  (forall b, next_free_block (f b) = next_free_block b) ->
  (forall b, prev_free_block (f b) = prev_free_block b) ->
  same_links m (upd f r m).
Proof.
  intros Hn Hp r'. unfold next_of, prev_of. rewrite upd_lookup.
  case_decide; subst; auto.
Qed.
