(* ===== verification/FreeQueue.v ===== *)
(** [FreeKVCacheBlockQueue] (vllm/v1/core/kv_cache_utils.py): the intrusive
    doubly linked list of free blocks.  The operations are the pointer
    manipulations of the source; [repr] relates a state to the sequence of
    block indices it stores, and each operation is shown to implement the
    operation on sequences that its docstring promises. *)
From S2P Require Import Prelude KVBlock.

(** ** State and operations *)

Record qstate := { mem : heap; num_free_blocks : Z }.

Definition with_mem (m : heap) (s : qstate) : qstate :=
  {| mem := m; num_free_blocks := num_free_blocks s |}.
Definition with_num (n : Z) (s : qstate) : qstate :=
  {| mem := mem s; num_free_blocks := n |}.

#[export] Instance ref_inhabited : Inhabited ref := populate Head.

Definition mget_next (r : ref) : M qstate (option ref) := gets (fun s => next_of (mem s) r).
Definition mget_prev (r : ref) : M qstate (option ref) := gets (fun s => prev_of (mem s) r).
Definition mset_next (r : ref) (v : option ref) : M qstate unit :=
  modify (fun s => with_mem (set_next r v (mem s)) s).
Definition mset_prev (r : ref) (v : option ref) : M qstate unit :=
  modify (fun s => with_mem (set_prev r v (mem s)) s).
Definition madd_num (d : Z) : M qstate unit :=
  modify (fun s => with_num (num_free_blocks s + d) s).

(** [__init__(blocks)] *)
Definition fq_init (blocks : list ref) : M qstate unit :=
  let n := length blocks in
  modify (with_num (Z.of_nat n)) ;;
  mfor (seq 0 n) (fun i =>
    mwhen (bool_decide (0 < i)) (mset_prev (blocks !!! i) (Some (blocks !!! (i - 1)))) ;;
    mwhen (bool_decide (i < n - 1)) (mset_next (blocks !!! i) (Some (blocks !!! (i + 1))))) ;;
  modify (fun s => with_mem (<[Head := new_block (-1)]> (mem s)) s) ;;
  modify (fun s => with_mem (<[Tail := new_block (-1)]> (mem s)) s) ;;
  if bool_decide (0 < n) then
    mset_next Head (Some (blocks !!! 0)) ;;
    mset_prev (blocks !!! 0) (Some Head) ;;
    mset_prev Tail (Some (blocks !!! (n - 1))) ;;
    mset_next (blocks !!! (n - 1)) (Some Tail)
  else
    mset_next Head (Some Tail) ;;
    mset_prev Tail (Some Head).

(** [popleft()] *)
Definition popleft : M qstate ref :=
  h ← mget_next Head;
  if bool_decide (h = Some Tail) || bool_decide (h = None) then
    n ← gets num_free_blocks;
    massert (n =? 0)%Z ;;
    raise ValueError
  else
    first_block ← of_option AssertionError h;
    nx ← mget_next first_block;
    match nx with
    | None => raise RuntimeError
    | Some nx =>
        mset_next Head (Some nx) ;;
        mset_prev nx (Some Head) ;;
        mset_prev first_block None ;;
        mset_next first_block None ;;
        madd_num (-1) ;;
        mret first_block
    end.

(** The body of the loop of [popleft_n]: [curr_block] and [ret] are its state. *)
Definition popleft_n_body (acc : option ref * list ref) (_ : nat)
    : M qstate (option ref * list ref) :=
  let '(curr_block, ret) := acc in
  last_block ← of_option AssertionError curr_block;
  nx ← mget_next last_block;
  mset_prev last_block None ;;
  mset_next last_block None ;;
  mret (nx, ret ++ [last_block]).

(** [popleft_n(n)] *)
Definition popleft_n (n : Z) : M qstate (list ref) :=
  if (n =? 0)%Z then mret [] else
  num ← gets num_free_blocks;
  massert (n <=? num)%Z ;;
  madd_num (- n) ;;
  curr_block ← mget_next Head;
  r ← mfold popleft_n_body (curr_block, []) (seq 0 (Z.to_nat n));
  match fst r with
  | Some curr_block =>
      mset_next Head (Some curr_block) ;;
      mset_prev curr_block (Some Head) ;;
      mret (snd r)
  | None => mret (snd r)
  end.

(** [remove(block)] *)
Definition fq_remove (block : ref) : M qstate unit :=
  p ← mget_prev block;
  n ← mget_next block;
  match p, n with
  | Some p, Some n =>
      mset_next p (Some n) ;;
      mset_prev n (Some p) ;;
      mset_prev block None ;;
      mset_next block None ;;
      madd_num (-1)
  | _, _ => raise RuntimeError
  end.

(** [append(block)] *)
Definition fq_append (block : ref) : M qstate unit :=
  l ← mget_prev Tail;
  match l with
  | None => raise RuntimeError
  | Some last_block =>
      mset_next last_block (Some block) ;;
      mset_prev block (Some last_block) ;;
      mset_next block (Some Tail) ;;
      mset_prev Tail (Some block) ;;
      madd_num 1
  end.

(** The shared loop body of [prepend_n] and [append_n]: link [block] after
    [prev_block] and make it the new [prev_block]. *)
Definition chain_body (prev_block : ref) (block : ref) : M qstate ref :=
  mset_prev block (Some prev_block) ;;
  mset_next prev_block (Some block) ;;
  mret block.

(** [prepend_n(blocks)] *)
Definition prepend_n (blocks : list ref) : M qstate unit :=
  if bool_decide (length blocks = 0) then mret tt else
  f ← mget_next Head;
  first_block ← of_option AssertionError f;
  prev_block ← mfold chain_body Head blocks;
  mset_next prev_block (Some first_block) ;;
  mset_prev first_block (Some prev_block) ;;
  madd_num (Z.of_nat (length blocks)).

(** [append_n(blocks)] *)
Definition append_n (blocks : list ref) : M qstate unit :=
  if bool_decide (length blocks = 0) then mret tt else
  l ← mget_prev Tail;
  last_block ← of_option AssertionError l;
  last_block ← mfold chain_body last_block blocks;
  mset_next last_block (Some Tail) ;;
  mset_prev Tail (Some last_block) ;;
  madd_num (Z.of_nat (length blocks)).

(** The while loop of [get_all_free_blocks]; [None] when the fuel runs out. *)
Fixpoint walk_free (fuel : nat) (m : heap) (curr_block : ref) : option (list ref) :=
  match fuel with
  | O => None
  | S fuel =>
      match next_of m curr_block with
      | None => Some []
      | Some nx => cons curr_block <$> walk_free fuel m nx
      end
  end.

(** [get_all_free_blocks()] *)
Definition get_all_free_blocks (fuel : nat) : M qstate (option (list ref)) :=
  h ← mget_next Head;
  curr_block ← of_option RuntimeError h;
  gets (fun s => walk_free fuel (mem s) curr_block).

(** The while loop of [iter_blocks_after]. *)
Fixpoint walk_after (fuel : nat) (m : heap) (curr_block : option ref) : option (list ref) :=
  match fuel with
  | O => None
  | S fuel =>
      match curr_block with
      | None => Some []
      | Some r =>
          if bool_decide (r = Tail) then Some []
          else cons r <$> walk_after fuel m (next_of m r)
      end
  end.

(** [iter_blocks_after(cursor)], consumed without intervening mutation. *)
Definition iter_blocks_after (fuel : nat) (cursor : option ref)
    : M qstate (option (list ref)) :=
  curr_block ← mget_next (default Head cursor);
  gets (fun s => walk_after fuel (mem s) curr_block).

(** ** Representation *)

(** [dseg m p l q]: from [p], following [next] visits [l] and then reaches
    [q], and the [prev] links run the same way back. *)
Fixpoint dseg (m : heap) (p : ref) (l : list nat) (q : ref) : Prop :=
  match l with
  | [] => next_of m p = Some q /\ prev_of m q = Some p
  | i :: l' =>
      next_of m p = Some (Blk i) /\ prev_of m (Blk i) = Some p /\ dseg m (Blk i) l' q
  end.

Record repr (s : qstate) (l : list nat) : Prop := {
  repr_dseg : dseg (mem s) Head l Tail;
  repr_nodup : NoDup l;
  repr_tail : next_of (mem s) Tail = None;
  repr_num : num_free_blocks s = Z.of_nat (length l);
  repr_out i : i ∉ l -> next_of (mem s) (Blk i) = None /\ prev_of (mem s) (Blk i) = None;
}.

Lemma dseg_app m p l1 i l2 q :
  dseg m p (l1 ++ i :: l2) q <-> dseg m p l1 (Blk i) /\ dseg m (Blk i) l2 q.
Proof. revert p. induction l1; intros p; simpl; naive_solver. Qed.

(** A segment depends only on the links of its own nodes. *)
Lemma dseg_frame m m' p l q :
  (forall r, r = p \/ r ∈ Blk <$> l -> next_of m' r = next_of m r) ->
  (forall r, r = q \/ r ∈ Blk <$> l -> prev_of m' r = prev_of m r) ->
  dseg m p l q -> dseg m' p l q.
Proof.
  revert p. induction l as [|i l IH]; intros p Hn Hp; simpl.
  - rewrite Hn, Hp by auto. done.
  - intros (H1 & H2 & H3). rewrite Hn, Hp by set_solver.
    repeat split; try done. apply IH; set_solver.
Qed.

Lemma dseg_head m p l q :
  dseg m p l q -> next_of m p = Some (default q (Blk <$> head l)).
Proof. destruct l; simpl; naive_solver. Qed.

Lemma dseg_last m p l q :
  dseg m p l q -> prev_of m q = Some (default p (Blk <$> last l)).
Proof.
  revert p. induction l as [|i l IH]; intros p; [naive_solver|].
  intros (_ & _ & H). apply IH in H. rewrite H, last_cons. by destruct (last l).
Qed.

(** [links] discharges the frame conditions: it rewrites link reads through
    writes and splits on which object is read. *)
Ltac links :=
  autorewrite with heap_links; repeat case_decide; simplify_eq;
  try done; try set_solver.

Ltac keep_meta := intros ?; simpl; by autorewrite with heap_links.

(** ** Each operation implements its sequence operation *)

(** The postcondition shared by the operations: the sequence is now [l'] and
    no metadata of any block changed. *)
Definition queue_post (s : qstate) (l' : list nat) (s' : qstate) : Prop :=
  repr s' l' /\ same_meta (mem s) (mem s').

(** The neighbours of a segment are its own blocks or the sentinels. *)
Lemma head_ne_out (q : ref) l i :
  i ∉ l -> q <> Blk i -> default q (Blk <$> head l) <> Blk i.
Proof. destruct l; simpl; [done|]. intros Hi _ [= ->]. set_solver. Qed.

Lemma last_ne_out (p : ref) l i :
  i ∉ l -> p <> Blk i -> default p (Blk <$> last l) <> Blk i.
Proof.
  intros Hi Hp. destruct (last l) eqn:E; simpl; [|done].
  apply last_Some_elem_of in E. congruence.
Qed.

Lemma default_last_cons (p : ref) j l :
  default p (Blk <$> last (j :: l)) = default (Blk j) (Blk <$> last l).
Proof. rewrite last_cons. by destruct (last l). Qed.

(** Unlinking a node joins the two halves of its segment. *)
Lemma dseg_unlink m P l1 i l2 Q :
  NoDup (l1 ++ i :: l2) -> P ∉ Blk <$> (l1 ++ i :: l2) ->
  Q ∉ Blk <$> (l1 ++ i :: l2) -> dseg m P (l1 ++ i :: l2) Q ->
  let p := default P (Blk <$> last l1) in
  let n := default Q (Blk <$> head l2) in
  dseg (set_prev n (Some p) (set_next p (Some n) m)) P (l1 ++ l2) Q.
Proof.
  simpl. revert P. induction l1 as [|j l1 IH]; intros P Hnd HP HQ Hd.
  - simpl in *. destruct Hd as (_ & _ & Hd). apply NoDup_cons in Hnd as [Hi Hnd].
    destruct l2 as [|j l2]; simpl in *; [by split; links|].
    destruct Hd as (? & ? & Hd). apply NoDup_cons in Hnd as [Hj Hnd].
    split_and!; [links..|]. eapply dseg_frame; [..|done]; intros r Hr; links.
  - rewrite default_last_cons. destruct Hd as (? & ? & Hd).
    simpl in Hnd. apply NoDup_cons in Hnd as [Hj Hnd].
    assert (default (Blk j) (Blk <$> last l1) <> P).
    { destruct (last l1) eqn:E; simpl; [apply last_Some_elem_of in E|]; set_solver. }
    assert (default Q (Blk <$> head l2) <> Blk j) by (apply head_ne_out; set_solver).
    simpl. split_and!; [links..|]. apply IH; try done; set_solver.
Qed.

(** The state after [i] was unlinked and its own links cleared. *)
Lemma repr_unlink s l1 i l2 :
  repr s (l1 ++ i :: l2) ->
  let p := default Head (Blk <$> last l1) in
  let n := default Tail (Blk <$> head l2) in
  repr {| mem := set_next (Blk i) None (set_prev (Blk i) None
                   (set_prev n (Some p) (set_next p (Some n) (mem s))));
          num_free_blocks := num_free_blocks s + -1 |} (l1 ++ l2).
Proof.
  intros [Hd Hnd Ht Hn Ho] p n. pose proof Hnd as Hnd'.
  apply NoDup_app in Hnd' as (H1 & H2 & H3). apply NoDup_cons in H3 as [H3 H4].
  assert (Hi : i ∉ l1) by (intros ?; apply (H2 i); set_solver).
  assert (p <> Blk i) by by apply last_ne_out.
  assert (n <> Blk i) by by apply head_ne_out.
  assert (p <> Tail /\ n <> Head) by by (subst p n; destruct (last l1), l2).
  constructor; simpl.
  - eapply dseg_frame; [..|apply (dseg_unlink (mem s) _ l1 i l2); try done; set_solver];
      intros r Hr; links.
  - apply NoDup_app; split_and!; set_solver.
  - links.
  - rewrite Hn, !length_app. simpl. lia.
  - intros j Hj. autorewrite with heap_links.
    destruct (decide (i = j)) as [->|Hij]; [by rewrite !decide_True by done|].
    assert (p <> Blk j) by (apply last_ne_out; set_solver).
    assert (n <> Blk j) by (apply head_ne_out; set_solver).
    rewrite !decide_False by naive_solver. apply Ho. set_solver.
Qed.

Lemma repr_neighbours s l1 i l2 :
  repr s (l1 ++ i :: l2) ->
  prev_of (mem s) (Blk i) = Some (default Head (Blk <$> last l1)) /\
  next_of (mem s) (Blk i) = Some (default Tail (Blk <$> head l2)).
Proof.
  intros [Hd _ _ _ _]. apply dseg_app in Hd as [H1 H2].
  split; [by apply dseg_last|by apply dseg_head].
Qed.

Ltac queue_unfold :=
  unfold popleft, popleft_n, fq_remove, fq_append, prepend_n, append_n,
    mget_next, mget_prev, mset_next, mset_prev, madd_num.

Lemma popleft_spec s i l :
  repr s (i :: l) -> wp popleft (fun r s' => r = Blk i /\ queue_post s l s') s.
Proof.
  intros Hr. destruct (repr_neighbours s [] i l Hr) as [_ Hn].
  pose proof (dseg_head _ _ _ _ (repr_dseg _ _ Hr)) as Hh.
  queue_unfold. wp_steps. rewrite Hh; simpl. wp_steps. rewrite Hn; simpl. wp_steps.
  split; [done|]. split; [|keep_meta]. apply (repr_unlink _ [] _ _ Hr).
Qed.

Lemma fq_remove_spec s l1 i l2 :
  repr s (l1 ++ i :: l2) ->
  wp (fq_remove (Blk i)) (fun _ => queue_post s (l1 ++ l2)) s.
Proof.
  intros Hr. destruct (repr_neighbours _ _ _ _ Hr) as [Hp Hn].
  queue_unfold. wp_steps. rewrite Hp, Hn; simpl. wp_steps.
  split; [|keep_meta]. apply (repr_unlink _ _ _ _ Hr).
Qed.

(** *** Linking a run of blocks *)

(** The heap after the loop of [prepend_n]/[append_n]. *)
Fixpoint chain (p : ref) (l : list nat) (m : heap) : heap :=
  match l with
  | [] => m
  | i :: l' => chain (Blk i) l' (set_next p (Some (Blk i)) (set_prev (Blk i) (Some p) m))
  end.

Lemma mfold_chain p l s :
  mfold chain_body p (Blk <$> l) s =
    (Ok (default p (Blk <$> last l)), with_mem (chain p l (mem s)) s).
Proof.
  revert p s. induction l as [|i l IH]; intros p s; [by destruct s|].
  rewrite default_last_cons. etransitivity; [exact (IH (Blk i) _)|done].
Qed.

Lemma chain_next p l m r :
  r <> p -> r ∉ Blk <$> l -> next_of (chain p l m) r = next_of m r.
Proof.
  revert p m. induction l as [|i l IH]; intros p m Hp Hl; [done|].
  simpl. rewrite IH by set_solver. links.
Qed.

Lemma chain_prev p l m r : r ∉ Blk <$> l -> prev_of (chain p l m) r = prev_of m r.
Proof.
  revert p m. induction l as [|i l IH]; intros p m Hl; [done|].
  simpl. rewrite IH by set_solver. links.
Qed.

Lemma chain_meta p l m : same_meta m (chain p l m).
Proof.
  revert p m. induction l as [|i l IH]; intros p m; [done|].
  simpl. etransitivity; [|apply IH]. keep_meta.
Qed.

(** The heap after the run was also linked to what follows it. *)
Definition link_run (p : ref) (l : list nat) (q : ref) (m : heap) : heap :=
  let e := default p (Blk <$> last l) in
  set_prev q (Some e) (set_next e (Some q) (chain p l m)).

Lemma link_run_cons p i l q m :
  link_run p (i :: l) q m =
    link_run (Blk i) l q (set_next p (Some (Blk i)) (set_prev (Blk i) (Some p) m)).
Proof. unfold link_run. by rewrite default_last_cons. Qed.

Lemma link_run_next p l q m r :
  r <> p -> r ∉ Blk <$> l -> next_of (link_run p l q m) r = next_of m r.
Proof.
  intros Hp Hl. unfold link_run. autorewrite with heap_links.
  rewrite decide_False, chain_next; [done..|].
  destruct (last l) eqn:E; simpl; [apply last_Some_elem_of in E|]; set_solver.
Qed.

Lemma link_run_prev p l q m r :
  r <> q -> r ∉ Blk <$> l -> prev_of (link_run p l q m) r = prev_of m r.
Proof.
  intros Hq Hl. unfold link_run. autorewrite with heap_links.
  by rewrite decide_False, chain_prev.
Qed.

Lemma link_run_meta p l q m : same_meta m (link_run p l q m).
Proof.
  unfold link_run. etransitivity; [apply (chain_meta p l)|]. keep_meta.
Qed.

Lemma link_run_dseg p l q m :
  NoDup l -> p ∉ Blk <$> l -> q ∉ Blk <$> l -> dseg (link_run p l q m) p l q.
Proof.
  revert p m. induction l as [|i l IH]; intros p m Hnd Hp Hq.
  - unfold link_run. simpl. split; links.
  - apply NoDup_cons in Hnd as [Hi Hnd]. rewrite link_run_cons. simpl. split_and!.
    + rewrite link_run_next by set_solver. links.
    + rewrite link_run_prev by set_solver. links.
    + apply IH; set_solver.
Qed.

Lemma link_run_left m la j l q :
  dseg m Head la (Blk j) -> NoDup (la ++ j :: l) -> q ∉ Blk <$> la ++ [j] ->
  dseg (link_run (Blk j) l q m) Head la (Blk j).
Proof.
  intros Hd (_ & Hj & [Hjl _]%NoDup_cons)%NoDup_app Hq.
  eapply dseg_frame; [..|exact Hd]; intros r Hr.
  - rewrite link_run_next; [done|set_solver..].
  - rewrite link_run_prev; [done|set_solver..].
Qed.

Lemma link_run_right m p l j lb :
  dseg m (Blk j) lb Tail -> NoDup (l ++ j :: lb) -> p ∉ Blk <$> j :: lb ->
  dseg (link_run p l (Blk j) m) (Blk j) lb Tail.
Proof.
  intros Hd (_ & Hl & [Hj _]%NoDup_cons)%NoDup_app Hp.
  eapply dseg_frame; [..|exact Hd]; intros r Hr.
  - rewrite link_run_next; [done|set_solver..].
  - rewrite link_run_prev; [done|set_solver..].
Qed.

(** A run linked between the two halves of a list. *)
Lemma link_run_insert m la l lb :
  dseg m Head (la ++ lb) Tail -> NoDup (la ++ l ++ lb) ->
  dseg (link_run (default Head (Blk <$> last la)) l (default Tail (Blk <$> head lb)) m)
    Head (la ++ l ++ lb) Tail.
Proof.
  intros Hd Hnd. pose proof Hnd as (Ha & Hab & Hlb)%NoDup_app.
  pose proof Hlb as (Hl & _ & _)%NoDup_app.
  set (p := default Head _). set (q := default Tail _).
  assert (Hp : p ∉ Blk <$> l ++ lb).
  { subst p. destruct (last la) eqn:E; simpl; [apply last_Some_elem_of in E|]; set_solver. }
  assert (Hq : q ∉ Blk <$> la ++ l).
  { subst q. clear Hp p Hd Hnd. destruct lb as [|j lb]; simpl; [set_solver|].
    apply NoDup_app in Hlb as (_ & ? & _). set_solver. }
  assert (Hmid : dseg (link_run p l q m) p l q).
  { apply link_run_dseg; [done|set_solver..]. }
  assert (Hrest : dseg (link_run p l q m) p (l ++ lb) Tail).
  { destruct lb as [|j lb]; [by rewrite app_nil_r|]. apply dseg_app. split; [done|].
    apply dseg_app in Hd as [_ Hd]. apply link_run_right; [done..|set_solver]. }
  destruct la as [|j la _] using rev_ind; [done|].
  subst p. rewrite last_snoc in *. rewrite <- app_assoc in *. simpl in *.
  apply dseg_app. split; [|done]. apply dseg_app in Hd as [Hd _].
  apply link_run_left; [done| |set_solver].
  apply NoDup_app in Hnd as (? & Hx & Hy). apply NoDup_app; split_and!; [done| |].
  - set_solver.
  - change (j :: l ++ lb) with ((j :: l) ++ lb) in Hy. by apply NoDup_app in Hy as [? _].
Qed.

(** Adding a run at either end keeps the representation. *)
Lemma repr_link_run s la l lb :
  repr s (la ++ lb) -> NoDup (la ++ l ++ lb) ->
  repr {| mem := link_run (default Head (Blk <$> last la)) l
                   (default Tail (Blk <$> head lb)) (mem s);
          num_free_blocks := num_free_blocks s + Z.of_nat (length l) |} (la ++ l ++ lb).
Proof.
  intros [Hd Hnd0 Ht Hn Ho] Hnd. constructor; simpl.
  - by apply link_run_insert.
  - done.
  - rewrite link_run_next; [done|destruct (last la)|set_solver]; done.
  - rewrite Hn, !length_app. lia.
  - intros i Hi. rewrite link_run_next, link_run_prev; [apply Ho| | | |]; try set_solver.
    + apply not_eq_sym, head_ne_out; set_solver.
    + apply not_eq_sym, last_ne_out; set_solver.
Qed.

Lemma set_next_set_prev r v r' w m :
  r <> r' -> set_next r v (set_prev r' w m) = set_prev r' w (set_next r v m).
Proof.
  intros Hne. unfold set_next, set_prev, upd.
  rewrite !lookup_total_insert_ne by done. by apply insert_insert_ne.
Qed.

Lemma prepend_n_spec s l l0 :
  repr s l0 -> NoDup (l ++ l0) ->
  wp (prepend_n (Blk <$> l)) (fun _ => queue_post s (l ++ l0)) s.
Proof.
  intros Hr Hnd. unfold prepend_n. rewrite length_fmap. case_bool_decide as Hl.
  - apply nil_length_inv in Hl as ->. by split.
  - queue_unfold. wp_steps. rewrite (dseg_head _ _ _ _ (repr_dseg _ _ Hr)). simpl.
    wp_steps. eexists; split; [done|]. wp_steps. unfold wp at 1.
    rewrite (mfold_chain Head l s). wp_steps.
    split; [|exact (link_run_meta Head l _ (mem s))].
    exact (repr_link_run s [] l l0 Hr Hnd).
Qed.

Lemma append_n_spec s l l0 :
  repr s l0 -> NoDup (l0 ++ l) ->
  wp (append_n (Blk <$> l)) (fun _ => queue_post s (l0 ++ l)) s.
Proof.
  intros Hr Hnd. unfold append_n. rewrite length_fmap. case_bool_decide as Hl.
  - apply nil_length_inv in Hl as ->. rewrite app_nil_r. by split.
  - queue_unfold. wp_steps. rewrite (dseg_last _ _ _ _ (repr_dseg _ _ Hr)). simpl.
    wp_steps. eexists; split; [done|]. wp_steps. unfold wp at 1.
    rewrite (mfold_chain _ l s). wp_steps.
    split; [|exact (link_run_meta _ l Tail (mem s))].
    rewrite <- (app_nil_r l). pose proof (repr_link_run s l0 l []) as H.
    rewrite !app_nil_r in *. by apply H.
Qed.

Lemma fq_append_spec s i l0 :
  repr s l0 -> i ∉ l0 -> wp (fq_append (Blk i)) (fun _ => queue_post s (l0 ++ [i])) s.
Proof.
  intros Hr Hi. pose proof (repr_link_run s l0 [i] []) as H.
  rewrite !app_nil_r in H. unfold queue_post.
  queue_unfold. wp_steps. rewrite (dseg_last _ _ _ _ (repr_dseg _ _ Hr)). simpl. wp_steps.
  split; [|keep_meta].
  rewrite <- (set_next_set_prev (default Head _)) by by apply last_ne_out.
  apply H; [done|]. apply NoDup_app. split_and!; [apply Hr|set_solver|apply NoDup_singleton].
Qed.

(** *** Popping a run *)

(** The part of a segment that does not involve its left neighbour. *)
Definition tailseg (m : heap) (l : list nat) (q : ref) : Prop :=
  match l with [] => True | j :: l' => dseg m (Blk j) l' q end.

(** The heap after the loop of [popleft_n]. *)
Fixpoint clear_run (l : list nat) (m : heap) : heap :=
  match l with
  | [] => m
  | i :: l' => clear_run l' (set_next (Blk i) None (set_prev (Blk i) None m))
  end.

Lemma clear_run_next l m r :
  next_of (clear_run l m) r = if decide (r ∈ Blk <$> l) then None else next_of m r.
Proof.
  revert m. induction l as [|i l IH]; intros m.
  - case_decide; [set_solver|done].
  - simpl clear_run. rewrite IH. links.
Qed.

Lemma clear_run_prev l m r :
  prev_of (clear_run l m) r = if decide (r ∈ Blk <$> l) then None else prev_of m r.
Proof.
  revert m. induction l as [|i l IH]; intros m.
  - case_decide; [set_solver|done].
  - simpl clear_run. rewrite IH. links.
Qed.

Lemma clear_run_meta l m : same_meta m (clear_run l m).
Proof.
  revert m. induction l as [|i l IH]; intros m; [done|].
  simpl. etransitivity; [|apply IH]. keep_meta.
Qed.

Lemma tailseg_cons m i l q :
  tailseg m (i :: l) q ->
  next_of m (Blk i) = Some (default q (Blk <$> head l)) /\ tailseg m l q.
Proof. intros H. split; [by apply dseg_head|]. destruct l; simpl in *; naive_solver. Qed.

Lemma popleft_n_loop l1 l2 k s ret :
  NoDup (l1 ++ l2) -> tailseg (mem s) (l1 ++ l2) Tail ->
  mfold popleft_n_body (Some (default Tail (Blk <$> head (l1 ++ l2))), ret)
      (seq k (length l1)) s =
    (Ok (Some (default Tail (Blk <$> head l2)), ret ++ (Blk <$> l1)),
     with_mem (clear_run l1 (mem s)) s).
Proof.
  revert k s ret. induction l1 as [|i l1 IH]; intros k s ret Hnd Hs.
  - rewrite app_nil_r. by destruct s.
  - simpl in Hnd. apply NoDup_cons in Hnd as [Hi Hnd].
    apply (tailseg_cons _ _ (l1 ++ l2)) in Hs as [Hnx Hs].
    set (s1 := with_mem (set_next (Blk i) None (set_prev (Blk i) None (mem s))) s).
    transitivity (mfold popleft_n_body (next_of (mem s) (Blk i), ret ++ [Blk i])
      (seq (S k) (length l1)) s1); [done|].
    rewrite Hnx, IH; [|done|].
    + by rewrite fmap_cons, <- app_assoc.
    + destruct (l1 ++ l2) as [|j l]; simpl; [done|].
      eapply dseg_frame; [..|exact Hs]; intros r Hr; links.
Qed.

Lemma popleft_n_spec s l1 l2 :
  repr s (l1 ++ l2) ->
  wp (popleft_n (Z.of_nat (length l1)))
    (fun rs s' => rs = Blk <$> l1 /\ queue_post s l2 s') s.
Proof.
  intros Hr. unfold popleft_n. destruct (decide (l1 = [])) as [->|Hne]; [by split|].
  assert (Hpos : 0 < length l1) by (destruct l1; simpl; [done|lia]).
  rewrite (proj2 (Z.eqb_neq _ _)) by lia.
  wp_steps. rewrite (repr_num _ _ Hr), length_app. wp_steps. split; [lia|].
  unfold madd_num, mget_next. wp_steps. rewrite Nat2Z.id.
  pose proof Hr as [Hd Hnd Ht Hn Ho]. rewrite (dseg_head _ _ _ _ Hd).
  unfold wp at 1. rewrite (popleft_n_loop l1 l2); simpl; [|done|].
  2: { destruct l1; simpl in *; naive_solver. }
  unfold mset_next, mset_prev. wp_steps. split; [done|].
  split; simpl; [|etransitivity; [apply (clear_run_meta l1)|keep_meta]].
  apply NoDup_app in Hnd as (H1 & H2 & H3).
  assert (Hts : tailseg (mem s) l2 Tail).
  { clear -Hd. generalize dependent Head. induction l1 as [|j l IH]; intros r Hd.
    - destruct l2; simpl in *; naive_solver.
    - simpl in Hd. naive_solver. }
  assert (Hh : forall i, i ∉ l2 -> default Tail (Blk <$> head l2) <> Blk i)
    by (intros; by apply head_ne_out).
  constructor; simpl.
  - destruct l2 as [|j l2]; simpl in *; [split; links|].
    apply NoDup_cons in H3 as [H3 H4]. split_and!; [links..|].
    eapply dseg_frame; [..|exact Hts]; intros r Hr'; autorewrite with heap_links;
      rewrite ?clear_run_next, ?clear_run_prev; links.
  - done.
  - autorewrite with heap_links. rewrite clear_run_next. links.
  - rewrite Hn, length_app. lia.
  - intros j Hj. autorewrite with heap_links. rewrite clear_run_next, clear_run_prev.
    rewrite (decide_False (P := Head = Blk j)), (decide_False (P := _ = Blk j)) by auto.
    case_decide; [done|]. apply Ho. set_solver.
Qed.

(** *** Initialisation *)

Lemma seq_refs_total n i : i < n -> (Blk <$> seq 0 n) !!! i = Blk i.
Proof.
  intros Hi. apply list_lookup_total_correct.
  by rewrite list_lookup_fmap, lookup_seq_lt.
Qed.

Lemma dseg_seq m p k n q :
  next_of m p = Some (if decide (n = 0) then q else Blk k) ->
  prev_of m q = Some (if decide (n = 0) then p else Blk (k + n - 1)) ->
  (forall i, k <= i < k + n ->
     next_of m (Blk i) = Some (if decide (S i = k + n) then q else Blk (S i)) /\
     prev_of m (Blk i) = Some (if decide (i = k) then p else Blk (i - 1))) ->
  dseg m p (seq k n) q.
Proof.
  revert p k. induction n as [|n IH]; intros p k Hn Hp Hi; [done|].
  simpl in *. split_and!; [done| |].
  - destruct (Hi k) as [_ ->]; [lia|]. by rewrite decide_True.
  - apply IH.
    + destruct (Hi k) as [-> _]; [lia|]. f_equal. repeat case_decide; done || lia.
    + rewrite Hp. f_equal. case_decide; [|f_equal; lia]. subst. f_equal. lia.
    + intros i Hik. destruct (Hi i) as [-> ->]; [lia|].
      split; f_equal; repeat case_decide; try done; try lia. subst. f_equal. lia.
Qed.

(** The links of the blocks after [k] iterations of the loop of [__init__]. *)
Definition linked_upto (n k : nat) (s : qstate) : Prop :=
  num_free_blocks s = Z.of_nat n /\
  forall i,
    next_of (mem s) (Blk i) = (if decide (i < k /\ i < n - 1) then Some (Blk (i + 1)) else None) /\
    prev_of (mem s) (Blk i) = (if decide (0 < i < k) then Some (Blk (i - 1)) else None).

Lemma fq_init_body n k s :
  linked_upto n k s -> k < n ->
  wp (mwhen (bool_decide (0 < k))
        (mset_prev ((Blk <$> seq 0 n) !!! k) (Some ((Blk <$> seq 0 n) !!! (k - 1)))) ;;
      mwhen (bool_decide (k < n - 1))
        (mset_next ((Blk <$> seq 0 n) !!! k) (Some ((Blk <$> seq 0 n) !!! (k + 1)))))
    (fun _ s' => linked_upto n (S k) s' /\ same_meta (mem s) (mem s')) s.
Proof.
  intros [Hnum Hl] Hk. rewrite !seq_refs_total by lia.
  unfold mwhen, mset_prev, mset_next. wp_steps.
  destruct (bool_decide_reflect (0 < k)), (bool_decide_reflect (k < n - 1));
    wp_steps; rewrite ?seq_refs_total by lia;
    (split; [split; [done|intros i; destruct (Hl i) as [H1 H2]]|keep_meta]);
    simpl; autorewrite with heap_links; rewrite ?H1, ?H2;
    split; repeat case_decide; simplify_eq; try done; try lia;
    try (exfalso; assert (i <> k) by congruence; lia); f_equal; f_equal; lia.
Qed.

Lemma next_of_new r z m r' :
  next_of (<[r := new_block z]> m) r' = if decide (r = r') then None else next_of m r'.
Proof.
  unfold next_of. case_decide; subst; by rewrite ?lookup_total_insert_eq, ?lookup_total_insert_ne.
Qed.

Lemma prev_of_new r z m r' :
  prev_of (<[r := new_block z]> m) r' = if decide (r = r') then None else prev_of m r'.
Proof.
  unfold prev_of. case_decide; subst; by rewrite ?lookup_total_insert_eq, ?lookup_total_insert_ne.
Qed.

Lemma meta_new_ne (r : ref) z (m : heap) (r' : ref) :
  r <> r' -> meta (<[r := new_block z]> m !!! r') = meta (m !!! r').
Proof. intros. by rewrite lookup_total_insert_ne. Qed.

#[local] Hint Rewrite next_of_new prev_of_new : heap_links.

(** The end of [__init__]: the sentinels close the list. *)
Lemma fq_init_sentinels n s0 s :
  linked_upto n n s -> same_meta s0 (mem s) ->
  wp (modify (fun s => with_mem (<[Head := new_block (-1)]> (mem s)) s) ;;
      modify (fun s => with_mem (<[Tail := new_block (-1)]> (mem s)) s) ;;
      if bool_decide (0 < n) then
        mset_next Head (Some ((Blk <$> seq 0 n) !!! 0)) ;;
        mset_prev ((Blk <$> seq 0 n) !!! 0) (Some Head) ;;
        mset_prev Tail (Some ((Blk <$> seq 0 n) !!! (n - 1))) ;;
        mset_next ((Blk <$> seq 0 n) !!! (n - 1)) (Some Tail)
      else
        mset_next Head (Some Tail) ;;
        mset_prev Tail (Some Head))
    (fun _ s' => repr s' (seq 0 n) /\
       forall i, meta (mem s' !!! Blk i) = meta (s0 !!! Blk i)) s.
Proof.
  intros [Hnum Hl] Hm. unfold mset_next, mset_prev. wp_steps.
  case_bool_decide as Hn; wp_steps; rewrite ?seq_refs_total by lia; simpl.
  all: split; [constructor; simpl|intros i; simpl; autorewrite with heap_links;
    by rewrite !meta_new_ne, Hm by done].
  all: try apply NoDup_seq; try (rewrite length_seq; done); try by links.
  - apply dseg_seq; [links; done || lia..|].
    intros i Hi. destruct (Hl i) as [H1 H2]. autorewrite with heap_links.
    rewrite H1, H2. split; repeat case_decide; simplify_eq; try done; try lia; f_equal.
    all: f_equal; try lia.
    all: exfalso; assert (i <> n - 1) by congruence; lia.
  - intros i Hi. destruct (Hl i) as [H1 H2]. rewrite elem_of_seq in Hi.
    autorewrite with heap_links. rewrite H1, H2.
    split; repeat case_decide; simplify_eq; done || lia.
  - assert (n = 0) as -> by lia. simpl. split; links.
  - intros i Hi. destruct (Hl i) as [H1 H2]. autorewrite with heap_links.
    rewrite H1, H2. split; repeat case_decide; simplify_eq; done || lia.
Qed.

(** [__init__] over fresh blocks puts them in the list in index order. *)
Lemma fq_init_spec s n :
  (forall i, next_of (mem s) (Blk i) = None /\ prev_of (mem s) (Blk i) = None) ->
  wp (fq_init (Blk <$> seq 0 n))
    (fun _ s' => repr s' (seq 0 n) /\
       forall i, meta (mem s' !!! Blk i) = meta (mem s !!! Blk i)) s.
Proof.
  intros H0. unfold fq_init. rewrite length_fmap, length_seq. rewrite wp_bind, wp_modify, wp_bind.
  eapply (wp_for (fun rest s' => exists k, k <= n /\ rest = seq k (n - k) /\
    linked_upto n k s' /\ same_meta (mem s) (mem s'))).
  - exists 0. rewrite Nat.sub_0_r. split_and!; [lia|done|split; [done|]|done].
    intros i. simpl. by destruct (H0 i) as [-> ->]; rewrite !decide_False by lia.
  - intros k rest s' (k' & Hk & Heq & Hl & Hm). destruct (n - k') as [|d] eqn:Hd; [done|].
    injection Heq as -> ->. eapply wp_mono; [apply fq_init_body; [done|lia]|].
    intros _ s2 [Hl2 Hm2]. exists (S k'). split_and!; [lia|f_equal; lia|done|].
    by etransitivity.
  - clear H0. intros s' (k & Hk & Heq & Hl & Hm).
    assert (k = n) as -> by (destruct (n - k) eqn:E; [lia|done]).
    by apply fq_init_sentinels.
Qed.

(** *** Traversals *)

Lemma walk_free_dseg m l p q fuel :
  dseg m p l q -> next_of m q = None -> length l < fuel ->
  walk_free fuel m (default q (Blk <$> head l)) = Some (Blk <$> l).
Proof.
  revert p fuel. induction l as [|i l IH]; intros p fuel Hd Hq Hf;
    (destruct fuel as [|fuel]; [simpl in *; lia|]); simpl.
  - by rewrite Hq.
  - destruct Hd as (_ & _ & Hd). rewrite (dseg_head _ _ _ _ Hd).
    by rewrite (IH _ _ Hd Hq) by (simpl in *; lia).
Qed.

Lemma walk_after_dseg m l p fuel :
  dseg m p l Tail -> length l < fuel -> walk_after fuel m (next_of m p) = Some (Blk <$> l).
Proof.
  revert p fuel. induction l as [|i l IH]; intros p fuel Hd Hf;
    rewrite (dseg_head _ _ _ _ Hd); (destruct fuel as [|fuel]; [simpl in *; lia|]); simpl.
  - done.
  - destruct Hd as (_ & _ & Hd). by rewrite (IH _ _ Hd) by (simpl in *; lia).
Qed.

Lemma get_all_free_blocks_spec s l fuel :
  repr s l -> length l < fuel ->
  get_all_free_blocks fuel s = (Ok (Some (Blk <$> l)), s).
Proof.
  intros Hr Hf. unfold get_all_free_blocks, mget_next, mbind, M_bind, gets.
  rewrite (dseg_head _ _ _ _ (repr_dseg _ _ Hr)). simpl.
  by rewrite (walk_free_dseg _ _ _ _ _ (repr_dseg _ _ Hr) (repr_tail _ _ Hr)).
Qed.

(** From a cursor inside the list the iterator yields what follows it, from
    [None] the whole list. *)
Lemma iter_blocks_after_spec s l1 i l2 fuel :
  repr s (l1 ++ i :: l2) -> length (l1 ++ i :: l2) < fuel ->
  iter_blocks_after fuel (Some (Blk i)) s = (Ok (Some (Blk <$> l2)), s) /\
  iter_blocks_after fuel None s = (Ok (Some (Blk <$> (l1 ++ i :: l2))), s).
Proof.
  intros Hr Hf. pose proof (repr_dseg _ _ Hr) as Hd.
  unfold iter_blocks_after, mget_next, mbind, M_bind, gets. simpl.
  rewrite (walk_after_dseg _ _ _ _ Hd) by done.
  apply dseg_app in Hd as [_ Hd]. rewrite length_app in Hf. simpl in Hf.
  rewrite (walk_after_dseg _ _ _ _ Hd) by lia. done.
Qed.

(** ** The contract as operations on sequences, and the refinement *)

Inductive qop :=
  | QPopleft
  | QPopleftN (n : Z)
  | QRemove (i : nat)
  | QAppend (i : nat)
  | QPrependN (l : list nat)
  | QAppendN (l : list nat).

(** What the docstrings promise, on the sequence of free blocks: the outcome
    and the new sequence; [None] where the caller breaks the contract by adding
    a block that is already free or asking for a negative number of blocks. *)
Definition spec_op (op : qop) (l : list nat) : option (outcome (list nat) * list nat) :=
  match op with
  | QPopleft =>
      Some match l with [] => (Raise ValueError, []) | i :: l' => (Ok [i], l') end
  | QPopleftN n =>
      if (n <? 0)%Z then None
      else if (Z.of_nat (length l) <? n)%Z then Some (Raise AssertionError, l)
      else Some (Ok (take (Z.to_nat n) l), drop (Z.to_nat n) l)
  | QRemove i =>
      Some (if decide (i ∈ l) then (Ok [], filter (.≠ i) l) else (Raise RuntimeError, l))
  | QAppend i => if decide (i ∈ l) then None else Some (Ok [], l ++ [i])
  | QPrependN k => if decide (NoDup (k ++ l)) then Some (Ok [], k ++ l) else None
  | QAppendN k => if decide (NoDup (l ++ k)) then Some (Ok [], l ++ k) else None
  end.

Definition impl_op (op : qop) : M qstate (list ref) :=
  match op with
  | QPopleft => r ← popleft; mret [r]
  | QPopleftN n => popleft_n n
  | QRemove i => fq_remove (Blk i) ;; mret []
  | QAppend i => fq_append (Blk i) ;; mret []
  | QPrependN l => prepend_n (Blk <$> l) ;; mret []
  | QAppendN l => append_n (Blk <$> l) ;; mret []
  end.

Definition to_refs (o : outcome (list nat)) : outcome (list ref) :=
  match o with Ok l => Ok (Blk <$> l) | Raise e => Raise e end.

Fixpoint spec_run (ops : list qop) (l : list nat)
    : option (list (outcome (list nat)) * list nat) :=
  match ops with
  | [] => Some ([], l)
  | op :: ops' =>
      '(o, l') ← spec_op op l;
      '(os, l'') ← spec_run ops' l';
      Some (o :: os, l'')
  end.

Fixpoint impl_run (ops : list qop) (s : qstate) : list (outcome (list ref)) * qstate :=
  match ops with
  | [] => ([], s)
  | op :: ops' =>
      let '(o, s') := impl_op op s in
      let '(os, s'') := impl_run ops' s' in
      (o :: os, s'')
  end.

Lemma filter_ne_split (l1 l2 : list nat) i :
  NoDup (l1 ++ i :: l2) -> filter (.≠ i) (l1 ++ i :: l2) = l1 ++ l2.
Proof.
  intros (_ & H1 & [H2 _]%NoDup_cons)%NoDup_app.
  rewrite filter_app, filter_cons_False by naive_solver.
  rewrite !list_filter_all by set_solver. done.
Qed.

Lemma run_of_wp s op rs l' :
  wp (impl_op op) (fun a s' => a = Blk <$> rs /\ queue_post s l' s') s ->
  exists s', impl_op op s = (to_refs (Ok rs), s') /\ queue_post s l' s'.
Proof. intros (a & s' & -> & -> & HQ)%wp_run. eauto. Qed.

Lemma queue_post_refl s l : repr s l -> queue_post s l s.
Proof. by split. Qed.

(** One call: the pointer code and the sequence agree on the outcome, on every
    branch including the raising ones, and block metadata is untouched. *)
Lemma impl_op_refines s l op o l' :
  repr s l -> spec_op op l = Some (o, l') ->
  exists s', impl_op op s = (to_refs o, s') /\ queue_post s l' s'.
Proof.
  intros Hr Hs. assert (Hh := dseg_head _ _ _ _ (repr_dseg _ _ Hr)).
  destruct op as [|n|i|i|k|k]; simpl in Hs.
  - destruct l as [|i l]; simplify_eq.
    + exists s. unfold impl_op, popleft, mget_next, mbind, M_bind, gets.
      rewrite Hh. simpl. rewrite (repr_num _ _ Hr). split; [done|by apply queue_post_refl].
    + apply run_of_wp. unfold impl_op. wp_steps.
      eapply wp_mono; [by apply popleft_spec|]. intros ? ? [-> ?]. by split.
  - destruct (Z.ltb_spec n 0); [done|]. destruct (Z.ltb_spec (Z.of_nat (length l)) n); simplify_eq.
    + exists s. unfold impl_op, popleft_n, mbind, M_bind, gets.
      rewrite (proj2 (Z.eqb_neq _ _)) by lia. simpl.
      rewrite (repr_num _ _ Hr), (proj2 (Z.leb_gt _ _)) by lia. split; [done|by apply queue_post_refl].
    + apply run_of_wp. simpl.
      replace n with (Z.of_nat (length (take (Z.to_nat n) l))) at 1
        by (rewrite length_take; lia).
      apply popleft_n_spec. by rewrite take_drop.
  - case_decide as Hi; simplify_eq.
    + apply run_of_wp. unfold impl_op. wp_steps.
      apply list_elem_of_split in Hi as (l1 & l2 & ->).
      rewrite filter_ne_split by apply Hr.
      eapply wp_mono; [by apply fq_remove_spec|]. by split.
    + exists s. unfold impl_op, fq_remove, mget_prev, mget_next, mbind, M_bind, gets.
      destruct (repr_out _ _ Hr i Hi) as [_ ->]. split; [done|by apply queue_post_refl].
  - case_decide; simplify_eq. apply run_of_wp. unfold impl_op. wp_steps.
    eapply wp_mono; [by apply fq_append_spec|]. by split.
  - case_decide; simplify_eq. apply run_of_wp. unfold impl_op. wp_steps.
    eapply wp_mono; [by apply prepend_n_spec|]. by split.
  - case_decide; simplify_eq. apply run_of_wp. unfold impl_op. wp_steps.
    eapply wp_mono; [by apply append_n_spec|]. by split.
Qed.

Lemma impl_run_refines ops s l os l' :
  repr s l -> spec_run ops l = Some (os, l') ->
  exists s', impl_run ops s = (to_refs <$> os, s') /\ queue_post s l' s'.
Proof.
  revert s l os. induction ops as [|op ops IH]; intros s l os Hr Hs; simpl in *.
  - simplify_eq. exists s. split; [done|by apply queue_post_refl].
  - destruct (spec_op op l) as [[o l1]|] eqn:E1; [|done].
    simpl in Hs. destruct (spec_run ops l1) as [[os1 l2]|] eqn:E2; simplify_eq/=.
    destruct (impl_op_refines _ _ _ _ _ Hr E1) as (s1 & -> & Hr1 & Hm1).
    destruct (IH _ _ _ Hr1 E2) as (s2 & -> & Hr2 & Hm2).
    exists s2. split; [done|]. split; [done|by etransitivity].
Qed.

(** The heap of [n] freshly created blocks. *)
Definition fresh_heap (n : nat) : heap :=
  list_to_map ((fun i => (Blk i, new_block (Z.of_nat i))) <$> seq 0 n).

Lemma fresh_heap_lookup n i :
  fresh_heap n !! Blk i = if decide (i < n) then Some (new_block (Z.of_nat i)) else None.
Proof.
  unfold fresh_heap. case_decide.
  - apply elem_of_list_to_map_1.
    + rewrite <- list_fmap_compose. apply (NoDup_fmap_2 Blk), NoDup_seq.
    + apply list_elem_of_fmap. exists i. split; [done|]. apply elem_of_seq. lia.
  - apply not_elem_of_list_to_map_1. rewrite <- list_fmap_compose.
    intros (j & [= ->] & Hj)%list_elem_of_fmap. apply elem_of_seq in Hj. lia.
Qed.

Lemma fresh_heap_total n i :
  exists z, fresh_heap n !!! Blk i = new_block z /\ (i < n -> z = Z.of_nat i).
Proof.
  rewrite lookup_total_alt, fresh_heap_lookup. case_decide; simpl; eauto.
  exists (-1)%Z. split; [done|lia].
Qed.

(** C6. [FreeKVCacheBlockQueue] implements a sequence: start from [__init__] over
    [n] fresh blocks and make any series of calls that respects the contract
    (no block is added twice).  Every call returns, or raises, exactly what the
    sequence operation says (first blocks popped, a block removed from the
    middle, blocks prepended or appended in order, ValueError on an empty list,
    RuntimeError on removing a block that is not free, AssertionError when too
    few blocks are left); [get_all_free_blocks] then terminates and lists
    the sequence, and [num_free_blocks] is its length. *)
Theorem free_queue_refines_sequence n ops os l' fuel :
  spec_run ops (seq 0 n) = Some (os, l') -> length l' < fuel ->
  exists s0 s,
    fq_init (Blk <$> seq 0 n) {| mem := fresh_heap n; num_free_blocks := 0 |} = (Ok tt, s0) /\
    impl_run ops s0 = (to_refs <$> os, s) /\
    get_all_free_blocks fuel s = (Ok (Some (Blk <$> l')), s) /\
    num_free_blocks s = Z.of_nat (length l').
Proof.
  intros Hs Hf.
  destruct (proj1 (wp_run _ _ _) (fq_init_spec
    {| mem := fresh_heap n; num_free_blocks := 0 |} n
    ltac:(intros i; unfold next_of, prev_of; simpl;
          destruct (fresh_heap_total n i) as (z & -> & _); done)))
    as ([] & s0 & H0 & Hr0 & _).
  destruct (impl_run_refines _ _ _ _ _ Hr0 Hs) as (s & Hrun & Hr & _).
  exists s0, s. split_and!; [done..|by apply get_all_free_blocks_spec|apply Hr].
Qed.

Lemma free_queue_refines_sequence_witness :
  exists s0 s,
    fq_init (Blk <$> seq 0 4) {| mem := fresh_heap 4; num_free_blocks := 0 |} = (Ok tt, s0) /\
    impl_run [QPopleft; QRemove 2; QRemove 0; QPopleftN 9; QAppendN [0]; QPrependN [2]] s0
      = ([Ok [Blk 0]; Ok []; Raise RuntimeError; Raise AssertionError; Ok []; Ok []], s) /\
    get_all_free_blocks 10 s = (Ok (Some [Blk 2; Blk 1; Blk 3; Blk 0]), s) /\
    num_free_blocks s = 4%Z.
Proof.
  apply (free_queue_refines_sequence 4
    [QPopleft; QRemove 2; QRemove 0; QPopleftN 9; QAppendN [0]; QPrependN [2]]
    [Ok [0]; Ok []; Raise RuntimeError; Raise AssertionError; Ok []; Ok []]
    [2; 1; 3; 0] 10).
  - vm_compute. reflexivity.
  - simpl. lia.
Defined.
