(* ===== verification/Request.v ===== *)
(** [Request], [RequestStatus] and [StreamingUpdate] (vllm/v1/request.py): the
    state of one request as the scheduler and the KV-cache managers see it, and
    the stop checks of vllm/v1/core/sched/utils.py that change its status. *)
From S2P Require Import Prelude.

(** ** Data *)

(** [PlaceholderRange] and [MultiModalFeatureSpec], as far as prefix hashing and
    encoder scheduling read them. *)
Record MMFeature := {
  identifier : string;
  mm_offset : Z;
  mm_length : Z;
  mm_is_embed : option (list bool);
}.

(** [mask.cumsum().tolist()] *)
Fixpoint cumsum (acc : Z) (mask : list bool) : list Z :=
  match mask with
  | [] => []
  | b :: mask' => let acc' := (acc + if b then 1 else 0)%Z in acc' :: cumsum acc' mask'
  end.

(** [PlaceholderRange.embeds_cumsum] *)
Definition embeds_cumsum (f : MMFeature) : option (list Z) := cumsum 0 <$> mm_is_embed f.

(** [PlaceholderRange.get_num_embeds()] *)
Definition mm_num_embeds (f : MMFeature) : Z :=
  match embeds_cumsum f with
  | None => mm_length f
  | Some c => default 0%Z (last c)
  end.

(** [PlaceholderRange.get_embeds_indices_in_range(start_idx, end_idx)] *)
Definition get_embeds_indices_in_range (f : MMFeature) (start_idx end_idx : Z) : outcome (Z * Z) :=
  match embeds_cumsum f with
  | None => Ok (start_idx, end_idx)
  | Some c =>
      match (if (0 <? start_idx)%Z then pyget c (start_idx - 1) else Some 0%Z),
            (if (0 <? end_idx)%Z then pyget c (end_idx - 1) else Some 0%Z) with
      | Some s, Some e => Ok (s, e)
      | _, _ => Raise IndexError
      end
  end.

Record LoRARequest := { lora_name : string; adapter_id : Z }.

Record RepetitionDetectionParams := {
  max_pattern_size : Z;
  min_pattern_size : Z;
  min_count : Z;
}.

Record SamplingParams := {
  sp_max_tokens : option Z;
  eos_token_id : option Z;
  stop_token_ids : option (list Z);
  min_tokens : Z;
  repetition_detection : option RepetitionDetectionParams;
  sp_skip_reading_prefix_cache : option bool;
  sp_structured_outputs : bool;
}.

Record PoolingParams := { pp_skip_reading_prefix_cache : option bool }.

(** [RequestStatus], in declaration order. *)
Inductive RequestStatus :=
  | WAITING
  | WAITING_FOR_STRUCTURED_OUTPUT_GRAMMAR
  | WAITING_FOR_REMOTE_KVS
  | WAITING_FOR_STREAMING_REQ
  | RUNNING
  | PREEMPTED
  | FINISHED_STOPPED
  | FINISHED_LENGTH_CAPPED
  | FINISHED_ABORTED
  | FINISHED_IGNORED
  | FINISHED_ERROR
  | FINISHED_REPETITION.

#[export] Instance RequestStatus_eq_dec : EqDecision RequestStatus.
Proof. solve_decision. Defined.

(** The [enum.auto()] values. *)
Definition status_value (s : RequestStatus) : Z :=
  match s with
  | WAITING => 1
  | WAITING_FOR_STRUCTURED_OUTPUT_GRAMMAR => 2
  | WAITING_FOR_REMOTE_KVS => 3
  | WAITING_FOR_STREAMING_REQ => 4
  | RUNNING => 5
  | PREEMPTED => 6
  | FINISHED_STOPPED => 7
  | FINISHED_LENGTH_CAPPED => 8
  | FINISHED_ABORTED => 9
  | FINISHED_IGNORED => 10
  | FINISHED_ERROR => 11
  | FINISHED_REPETITION => 12
  end.

Inductive FinishReason :=
  | STOP | LENGTH | ABORT | ERROR | REPETITION.

#[export] Instance FinishReason_eq_dec : EqDecision FinishReason.
Proof. solve_decision. Defined.

(** [RequestStatus.is_finished(status)] *)
Definition status_is_finished (s : RequestStatus) : bool :=
  (status_value PREEMPTED <? status_value s)%Z.

(** [_FINISHED_REASON_MAP.get(status)] *)
Definition get_finished_reason (s : RequestStatus) : option FinishReason :=
  match s with
  | FINISHED_STOPPED => Some STOP
  | FINISHED_LENGTH_CAPPED => Some LENGTH
  | FINISHED_ABORTED => Some ABORT
  | FINISHED_IGNORED => Some LENGTH
  | FINISHED_ERROR => Some ERROR
  | WAITING_FOR_STREAMING_REQ => Some STOP
  | FINISHED_REPETITION => Some REPETITION
  | _ => None
  end.

(** [stop_reason]: a token id or a string. *)
Inductive StopReason := StopToken (t : Z) | StopString (s : string).

(** The attributes of [Request] that the modelled code reads or writes.
    [arrival_time] is only compared, so an integer stands for the instant;
    [prompt_embeds] is the list of its rows, each as its bytes. *)
Record Request := {
  request_id : string;
  client_index : Z;
  priority : Z;
  sampling_params : option SamplingParams;
  pooling_params : option PoolingParams;
  lora_request : option LoRARequest;
  has_structured_output : bool;
  arrival_time : Z;
  status : RequestStatus;
  stop_reason : option StopReason;
  max_tokens : Z;
  prompt_token_ids : option (list Z);
  prompt_embeds : option (list bytes);
  prompt_is_token_ids : option (list bool);
  prompt_embeds_per_block_hashes : gmap (Z * Z) bytes;
  num_prompt_tokens : Z;
  output_token_ids : list Z;
  all_token_ids : list Z;
  num_output_placeholders : Z;
  num_stale_output_tokens : Z;
  drop_stale_output : bool;
  num_in_flight_tokens : Z;
  next_decode_eligible_step : Z;
  last_sched_seq : Z;
  spec_token_ids : list Z;
  num_computed_tokens : Z;
  cache_salt : option string;
  mm_features : list MMFeature;
  is_prefill_chunk : bool;
  shared_prefix_boundary : Z;
  num_preemptions : Z;
  block_hashes : list bytes;
  skip_reading_prefix_cache : bool;
  resumable : bool;
  abort_immediately : bool;
}.

#[export] Instance Request_eta : Eta Request := fun r =>
  Build_Request (request_id r) (client_index r) (priority r) (sampling_params r)
    (pooling_params r) (lora_request r) (has_structured_output r) (arrival_time r)
    (status r) (stop_reason r) (max_tokens r) (prompt_token_ids r) (prompt_embeds r)
    (prompt_is_token_ids r) (prompt_embeds_per_block_hashes r) (num_prompt_tokens r)
    (output_token_ids r) (all_token_ids r) (num_output_placeholders r)
    (num_stale_output_tokens r) (drop_stale_output r) (num_in_flight_tokens r)
    (next_decode_eligible_step r) (last_sched_seq r) (spec_token_ids r)
    (num_computed_tokens r) (cache_salt r) (mm_features r) (is_prefill_chunk r)
    (shared_prefix_boundary r) (num_preemptions r) (block_hashes r)
    (skip_reading_prefix_cache r) (resumable r) (abort_immediately r).

(** ** Operations of [Request] *)

Definition num_tokens (r : Request) : Z := zlen (all_token_ids r).
Definition num_tokens_with_spec (r : Request) : Z :=
  (zlen (all_token_ids r) + zlen (spec_token_ids r))%Z.
Definition num_output_tokens (r : Request) : Z := zlen (output_token_ids r).
Definition num_encoder_inputs (r : Request) : Z := zlen (mm_features r).
Definition has_encoder_inputs (r : Request) : bool := (0 <? num_encoder_inputs r)%Z.
Definition is_finished (r : Request) : bool := status_is_finished (status r).

(** [get_num_encoder_embeds(input_id)] for a non-negative index *)
Definition get_num_encoder_embeds (r : Request) (input_id : Z) : outcome Z :=
  if (input_id <? zlen (mm_features r))%Z then
    match pyget (mm_features r) input_id with
    | Some f => Ok (mm_num_embeds f)
    | None => Raise IndexError
    end
  else Raise AssertionError.

Definition get_skip_reading_prefix_cache
    (sp : option SamplingParams) (pp : option PoolingParams) : bool :=
  match sp ≫= sp_skip_reading_prefix_cache with
  | Some b => b
  | None => default false (pp ≫= pp_skip_reading_prefix_cache)
  end.

(** [length_from_prompt_token_ids_or_embeds] (vllm/utils): the lengths must agree
    when both are given. *)
Definition prompt_length (toks : option (list Z)) (embeds : option (list bytes))
    : outcome Z :=
  match toks, embeds with
  | Some t, Some e => if (zlen t =? zlen e)%Z then Ok (zlen t) else Raise ValueError
  | Some t, None => Ok (zlen t)
  | None, Some e => Ok (zlen e)
  | None, None => Raise ValueError
  end.

(** The token ids [__init__] starts with. *)
Definition initial_token_ids (toks : option (list Z)) (is_tok : option (list bool))
    (n : Z) : list Z :=
  match toks with
  | None => replicate (Z.to_nat n) 0%Z
  | Some t =>
      match is_tok with
      | None => t
      | Some m => zip_with (fun t (b : bool) => if b then t else 0%Z) t m
      end
  end.

(** A block hasher reads the request, may fill its cache of prompt-embedding
    hashes, and returns the hashes of the blocks not hashed yet. *)
Abbreviation block_hasher := (M Request (list bytes)).

(** [update_block_hashes()] *)
Definition update_block_hashes (hasher : option block_hasher) : M Request unit :=
  match hasher with
  | None => mret tt
  | Some h =>
      hs ← h;
      modify (fun r => r <| block_hashes := block_hashes r ++ hs |>)
  end.

(** [append_output_token_ids(token_ids)]; a single token is a one-element list. *)
Definition append_output_token_ids (hasher : option block_hasher) (token_ids : list Z)
    : M Request unit :=
  modify (fun r => r <| output_token_ids := output_token_ids r ++ token_ids |>) ;;
  modify (fun r => r <| all_token_ids := all_token_ids r ++ token_ids |>) ;;
  update_block_hashes hasher.

(** The arguments of [Request.__init__] the model keeps. *)
Record RequestArgs := {
  arg_request_id : string;
  arg_prompt_token_ids : option (list Z);
  arg_sampling_params : option SamplingParams;
  arg_pooling_params : option PoolingParams;
  arg_client_index : Z;
  arg_arrival_time : Z;
  arg_prompt_embeds : option (list bytes);
  arg_prompt_is_token_ids : option (list bool);
  arg_mm_features : list MMFeature;
  arg_lora_request : option LoRARequest;
  arg_cache_salt : option string;
  arg_priority : Z;
  arg_resumable : bool;
  arg_abort_immediately : bool;
}.

#[export] Instance RequestArgs_eta : Eta RequestArgs := fun a =>
  Build_RequestArgs (arg_request_id a) (arg_prompt_token_ids a) (arg_sampling_params a)
    (arg_pooling_params a) (arg_client_index a) (arg_arrival_time a) (arg_prompt_embeds a)
    (arg_prompt_is_token_ids a) (arg_mm_features a) (arg_lora_request a) (arg_cache_salt a)
    (arg_priority a) (arg_resumable a) (arg_abort_immediately a).

(** [max_tokens] and the initial status: a pooling request produces one token;
    a request with a grammar waits for it. *)
Definition init_limits (a : RequestArgs) : outcome (Z * RequestStatus) :=
  match arg_pooling_params a, arg_sampling_params a with
  | Some _, _ => Ok (1%Z, WAITING)
  | None, Some sp =>
      match sp_max_tokens sp with
      | None => Raise AssertionError
      | Some m =>
          Ok (m, if sp_structured_outputs sp then WAITING_FOR_STRUCTURED_OUTPUT_GRAMMAR
                 else WAITING)
      end
  | None, None => Raise ValueError
  end.

(** The attributes [__init__] assigns before it hashes the prompt. *)
Definition init_request (a : RequestArgs) (max_toks : Z) (st : RequestStatus) (n : Z) : Request :=
  {| request_id := arg_request_id a;
     client_index := arg_client_index a;
     priority := arg_priority a;
     sampling_params := arg_sampling_params a;
     pooling_params := arg_pooling_params a;
     lora_request := arg_lora_request a;
     has_structured_output :=
       match arg_sampling_params a with Some sp => sp_structured_outputs sp | None => false end;
     arrival_time := arg_arrival_time a;
     status := st;
     stop_reason := None;
     max_tokens := max_toks;
     prompt_token_ids := arg_prompt_token_ids a;
     prompt_embeds := arg_prompt_embeds a;
     prompt_is_token_ids := arg_prompt_is_token_ids a;
     prompt_embeds_per_block_hashes := ∅;
     num_prompt_tokens := n;
     output_token_ids := [];
     all_token_ids :=
       initial_token_ids (arg_prompt_token_ids a) (arg_prompt_is_token_ids a) n;
     num_output_placeholders := 0;
     num_stale_output_tokens := 0;
     drop_stale_output := false;
     num_in_flight_tokens := 0;
     next_decode_eligible_step := 0;
     last_sched_seq := 0;
     spec_token_ids := [];
     num_computed_tokens := 0;
     cache_salt := arg_cache_salt a;
     mm_features := arg_mm_features a;
     is_prefill_chunk := false;
     shared_prefix_boundary := 0;
     num_preemptions := 0;
     block_hashes := [];
     skip_reading_prefix_cache :=
       get_skip_reading_prefix_cache (arg_sampling_params a) (arg_pooling_params a);
     resumable := arg_resumable a;
     abort_immediately := arg_abort_immediately a |}.

(** [Request.__init__] *)
Definition Request_init (hasher : option block_hasher) (a : RequestArgs) : outcome Request :=
  match init_limits a with
  | Raise e => Raise e
  | Ok (max_toks, st) =>
      match prompt_length (arg_prompt_token_ids a) (arg_prompt_embeds a) with
      | Raise e => Raise e
      | Ok n =>
          match update_block_hashes hasher (init_request a max_toks st n) with
          | (Ok _, r) => Ok r
          | (Raise e, _) => Raise e
          end
      end
  end.

(** [__lt__(self, other)]: priority, then arrival time, then id; [same] is the
    comparison of object addresses that breaks a full tie. *)
Definition request_lt (same : bool) (a b : Request) : bool :=
  if negb (priority a =? priority b)%Z then (priority a <? priority b)%Z
  else if negb (arrival_time a =? arrival_time b)%Z then (arrival_time a <? arrival_time b)%Z
  else if negb (bool_decide (request_id a = request_id b))
  then String.ltb (request_id a) (request_id b)
  else same.

(** A plain text request, for concrete evaluations. *)
Definition default_sampling : SamplingParams :=
  {| sp_max_tokens := Some 16%Z; eos_token_id := Some 2%Z; stop_token_ids := None;
     min_tokens := 0; repetition_detection := None; sp_skip_reading_prefix_cache := None;
     sp_structured_outputs := false |}.

Definition text_args (id : string) (toks : list Z) : RequestArgs :=
  {| arg_request_id := id; arg_prompt_token_ids := Some toks;
     arg_sampling_params := Some default_sampling; arg_pooling_params := None;
     arg_client_index := 0; arg_arrival_time := 0; arg_prompt_embeds := None;
     arg_prompt_is_token_ids := None; arg_mm_features := []; arg_lora_request := None;
     arg_cache_salt := None; arg_priority := 0; arg_resumable := false;
     arg_abort_immediately := false |}.

Definition text_request (id : string) (toks : list Z) : Request :=
  init_request (text_args id toks) 16 WAITING (zlen toks).
