(* ===== verification/SchedUtils.v ===== *)
(** The stop checks and list helpers of vllm/v1/core/sched/utils.py. *)
From S2P Require Import Prelude Request.

(** ** Definitions *)

(** [_has_repeating_pattern(token_ids, pattern_len, repetition_min_count)] *)
Definition has_repeating_pattern (token_ids : list Z) (pattern_len repetition_min_count : Z)
    : outcome bool :=
  all_ok (fun n =>
    match pyget token_ids (- n) with
    | None => Raise IndexError
    | Some target_token =>
        all_ok (fun m =>
          match pyget token_ids (- (pattern_len * m + n)) with
          | None => Raise IndexError
          | Some t => Ok (t =? target_token)%Z
          end) (zrange 1 repetition_min_count)
    end) (zrange 1 (pattern_len + 1)).

(** The loop of [check_sequence_repetition] over the remaining pattern lengths. *)
Fixpoint repetition_loop (token_ids : list Z) (min_count : Z) (lens : list Z) : outcome bool :=
  match lens with
  | [] => Ok false
  | pattern_len :: lens' =>
      if (zlen token_ids <? pattern_len * min_count)%Z then Ok false
      else match has_repeating_pattern token_ids pattern_len min_count with
           | Ok true => Ok true
           | Ok false => repetition_loop token_ids min_count lens'
           | Raise e => Raise e
           end
  end.

(** [check_sequence_repetition(token_ids, params)] *)
Definition check_sequence_repetition (token_ids : list Z) (params : RepetitionDetectionParams)
    : outcome bool :=
  let max_p := max_pattern_size params in
  let min_p := if (min_pattern_size params <=? 0)%Z then 1%Z else min_pattern_size params in
  let cnt := min_count params in
  if (max_p <=? 0)%Z || (cnt <? 2)%Z || (max_p <? min_p)%Z then Ok false
  else repetition_loop token_ids cnt (zrange min_p (max_p + 1)).

(** [lst.remove(item)] with the ValueError suppressed: drop the first occurrence. *)
Fixpoint remove_first {A} `{EqDecision A} (x : A) (l : list A) : list A :=
  match l with
  | [] => []
  | y :: l' => if decide (y = x) then l' else y :: remove_first x l'
  end.

(** [remove_all(lst, items_to_remove)] *)
Definition remove_all {A} `{Countable A} (lst : list A) (items_to_remove : gset A) : list A :=
  match elements items_to_remove with
  | [] => lst
  | [item] => remove_first item lst
  | _ => filter (fun x => x ∉ items_to_remove) lst
  end.

(** [check_stop(request, max_model_len)] *)
Definition check_stop (max_model_len : Z) : M Request bool :=
  r ← gets id;
  massert (bool_decide (pooling_params r = None)) ;;
  sp ← of_option AssertionError (sampling_params r);
  last_token_id ← of_option IndexError (pyget (output_token_ids r) (-1));
  if bool_decide (eos_token_id sp = Some last_token_id) then
    modify (fun r => r <| status := FINISHED_STOPPED |>) ;; mret true
  else if bool_decide (last_token_id ∈ default [] (stop_token_ids sp)) then
    modify (fun r => r <| status := FINISHED_STOPPED |>
                       <| stop_reason := Some (StopToken last_token_id) |>) ;;
    mret true
  else if (max_model_len <=? num_tokens r)%Z || (max_tokens r <=? num_output_tokens r)%Z then
    modify (fun r => r <| status := FINISHED_LENGTH_CAPPED |>) ;; mret true
  else if (num_output_tokens r <? min_tokens sp)%Z then mret false
  else
    match repetition_detection sp with
    | None => mret false
    | Some p =>
        match check_sequence_repetition (output_token_ids r) p with
        | Raise e => raise e
        | Ok false => mret false
        | Ok true =>
            modify (fun r => r <| status := FINISHED_REPETITION |>
                               <| stop_reason := Some (StopString "repetition_detected") |>) ;;
            mret true
        end
    end.

(** ** Repetition detection *)

(** The last [k] repetitions of a word end the sequence. *)
Definition ends_with_repeats (l : list Z) (plen cnt : nat) : Prop :=
  exists pre w, length w = plen /\ l = pre ++ concat (replicate cnt w).

Lemma length_concat_replicate {A} (w : list A) c :
  length (concat (replicate c w)) = c * length w.
Proof. induction c as [|c IH]; simpl; [done|]. rewrite length_app, IH. done. Qed.

Lemma lookup_concat_replicate {A} (w : list A) c q r :
  r < length w -> q < c -> concat (replicate c w) !! (length w * q + r) = w !! r.
Proof.
  intros Hr. revert q. induction c as [|c IH]; intros q Hq; [lia|]. simpl.
  destruct q as [|q].
  - rewrite Nat.mul_0_r. simpl. by rewrite lookup_app_l.
  - rewrite lookup_app_r by lia. rewrite <- (IH q) by lia. f_equal. lia.
Qed.

Lemma ends_with_repeats_lookup l p c :
  0 < p -> 0 < c ->
  ends_with_repeats l p c <->
    c * p <= length l /\
    forall n m, 1 <= n <= p -> 1 <= m < c ->
      l !! (length l - (p * m + n)) = l !! (length l - n).
Proof.
  intros Hp Hc. split.
  - intros (pre & w & Hw & ->). rewrite length_app, length_concat_replicate, Hw.
    split; [lia|]. intros n m Hn Hm.
    assert (c * p = p * (c - 1 - m) + p * m + p) by nia.
    rewrite !lookup_app_r by nia.
    replace (length pre + c * p - (p * m + n) - length pre)
      with (length w * (c - 1 - m) + (p - n)) by nia.
    replace (length pre + c * p - n - length pre)
      with (length w * (c - 1) + (p - n)) by nia.
    rewrite !lookup_concat_replicate by lia. done.
  - intros [Hlen Hl]. set (w := drop (length l - p) l).
    assert (Hw : length w = p) by (subst w; rewrite length_drop; nia).
    exists (take (length l - c * p) l), w. split; [done|].
    rewrite <- (take_drop (length l - c * p) l) at 1. f_equal.
    apply list_eq_same_length with (n := c * p).
    { by rewrite length_concat_replicate, Hw. }
    { rewrite length_drop. lia. }
    intros j x y Hj. rewrite lookup_drop.
    pose proof (Nat.div_mod_eq j p) as Hjp. pose proof (Nat.mod_upper_bound j p ltac:(lia)).
    assert (Hq : j / p < c) by (apply Nat.Div0.div_lt_upper_bound; lia).
    set (q := j / p) in *. set (r := j mod p) in *. clearbody q r. subst j.
    replace (concat _ !! _) with (w !! r)
      by (rewrite <- (lookup_concat_replicate w c q r), Hw by lia; done).
    subst w. rewrite lookup_drop. intros Hx Hy.
    destruct (decide (q = c - 1)) as [->|Hne].
    + replace (length l - c * p + (p * (c - 1) + r)) with (length l - p + r) in Hx by nia.
      congruence.
    + specialize (Hl (p - r) (c - 1 - q)).
      replace (length l - (p * (c - 1 - q) + (p - r)))
        with (length l - c * p + (p * q + r)) in Hl by nia.
      replace (length l - (p - r)) with (length l - p + r) in Hl by nia.
      rewrite Hx, Hy in Hl. naive_solver lia.
Qed.

(** With enough tokens the pattern check never raises and decides
    [ends_with_repeats]. *)
Lemma has_repeating_pattern_spec l p c :
  0 < p -> 2 <= c -> c * p <= length l ->
  exists b, has_repeating_pattern l (Z.of_nat p) (Z.of_nat c) = Ok b /\
    (b = true <-> ends_with_repeats l p c).
Proof.
  intros Hp Hc Hlen. unfold has_repeating_pattern.
  set (g := fun n m => bool_decide
    (l !! (length l - (p * Z.to_nat m + Z.to_nat n)) = l !! (length l - Z.to_nat n))).
  assert (Hin : forall n, n ∈ zrange 1 (Z.of_nat p + 1) ->
    match pyget l (- n) with
    | None => Raise IndexError
    | Some t => all_ok (fun m =>
        match pyget l (- (Z.of_nat p * m + n)) with
        | None => Raise IndexError
        | Some t' => Ok (t' =? t)%Z
        end) (zrange 1 (Z.of_nat c))
    end = Ok (forallb (g n) (zrange 1 (Z.of_nat c)))).
  { intros n Hn%elem_of_zrange.
    replace n with (Z.of_nat (Z.to_nat n)) at 1 by lia.
    rewrite pyget_neg by nia.
    destruct (lookup_lt_is_Some_2 l (length l - Z.to_nat n)) as [t Ht]; [nia|].
    rewrite Ht. apply all_ok_spec. intros m Hm%elem_of_zrange.
    replace (Z.of_nat p * m + n)%Z with (Z.of_nat (p * Z.to_nat m + Z.to_nat n)) by lia.
    rewrite pyget_neg by nia. subst g. simpl. rewrite Ht.
    destruct (lookup_lt_is_Some_2 l (length l - (p * Z.to_nat m + Z.to_nat n)))
      as [t' ->]; [nia|].
    f_equal. destruct (Z.eqb_spec t' t); symmetry;
      [apply bool_decide_eq_true|apply bool_decide_eq_false]; congruence. }
  exists (forallb (fun n => forallb (g n) (zrange 1 (Z.of_nat c))) (zrange 1 (Z.of_nat p + 1))).
  split; [by apply all_ok_spec|].
  rewrite ends_with_repeats_lookup by lia. rewrite forallb_forall.
  setoid_rewrite forallb_forall. setoid_rewrite <- list_elem_of_In.
  setoid_rewrite elem_of_zrange. subst g. split.
  - intros H. split; [done|]. intros n m Hn Hm.
    specialize (H (Z.of_nat n) ltac:(lia) (Z.of_nat m) ltac:(lia)). simpl in H.
    by rewrite !Nat2Z.id, bool_decide_eq_true in H.
  - intros [_ H] n Hn m Hm. apply bool_decide_eq_true. apply H; lia.
Qed.

Lemma repetition_loop_spec l c a k :
  (0 < a)%Z -> 2 <= c ->
  exists b, repetition_loop l (Z.of_nat c) (zrange a (a + Z.of_nat k)) = Ok b /\
    (b = true <-> exists p, (a <= Z.of_nat p < a + Z.of_nat k)%Z /\ ends_with_repeats l p c).
Proof.
  revert a. induction k as [|k IH]; intros a Ha Hc.
  - rewrite zrange_nil by lia. exists false. split; [done|]. naive_solver lia.
  - rewrite zrange_cons by lia. simpl.
    destruct (Z.ltb_spec (zlen l) (a * Z.of_nat c)) as [Hlt|Hge].
    + exists false. split; [done|]. split; [done|]. intros (p & Hp & Hr).
      apply ends_with_repeats_lookup in Hr as [Hr _]; [|lia..]. unfold zlen in *. nia.
    + destruct (has_repeating_pattern_spec l (Z.to_nat a) c) as (b & Hb & Hbs);
        [lia|lia|unfold zlen in *; nia|].
      rewrite Z2Nat.id in Hb by lia. rewrite Hb.
      destruct b; [exists true; split; [done|]; split; [intros _|done]|].
      * exists (Z.to_nat a). split; [lia|]. by apply Hbs.
      * destruct (IH (a + 1)%Z ltac:(lia) Hc) as (b & Hl & Hs).
        replace (a + 1 + Z.of_nat k)%Z with (a + Z.of_nat (S k))%Z in * by lia.
        exists b. split; [done|]. rewrite Hs. split.
        -- intros (p & ? & ?). exists p. split; [lia|done].
        -- intros (p & ? & Hp). exists p. split; [|done].
           destruct (decide (p = Z.to_nat a)) as [->|]; [|lia]. apply Hbs in Hp. done.
Qed.

Lemma check_sequence_repetition_spec l params :
  exists b, check_sequence_repetition l params = Ok b /\
    (b = true <->
       (2 <= min_count params)%Z /\
       exists p, (Z.max 1 (min_pattern_size params) <= Z.of_nat p <= max_pattern_size params)%Z /\
         ends_with_repeats l p (Z.to_nat (min_count params))).
Proof.
  unfold check_sequence_repetition.
  set (min_p := if (min_pattern_size params <=? 0)%Z then _ else _).
  assert (Hmin : min_p = Z.max 1 (min_pattern_size params)).
  { subst min_p. destruct (Z.leb_spec (min_pattern_size params) 0); lia. }
  clearbody min_p. rewrite <- Hmin.
  destruct (_ || _) eqn:E.
  - exists false. split; [done|]. split; [done|]. intros (? & p & ? & _). lia.
  - destruct (repetition_loop_spec l (Z.to_nat (min_count params)) min_p
      (Z.to_nat (max_pattern_size params + 1 - min_p))) as (b & Hb & Hs); [lia..|].
    rewrite !Z2Nat.id in Hb by lia.
    replace (min_p + (max_pattern_size params + 1 - min_p))%Z
      with (max_pattern_size params + 1)%Z in Hb by lia.
    exists b. split; [done|]. rewrite Hs. split.
    + intros (p & ? & ?). split; [lia|]. exists p. split; [lia|done].
    + intros (_ & p & ? & ?). exists p. split; [lia|done].
Qed.

(** C30. [check_sequence_repetition] never raises, whatever the tokens and the
    parameters, and answers [True] exactly when the sequence ends in
    [min_count >= 2] copies of one word whose length lies between
    [max(min_pattern_size, 1)] and [max_pattern_size]. *)
Theorem check_sequence_repetition_correct l params :
  exists b, check_sequence_repetition l params = Ok b /\
    (b = true <->
       (2 <= min_count params)%Z /\
       exists p, (Z.max 1 (min_pattern_size params) <= Z.of_nat p <= max_pattern_size params)%Z /\
         ends_with_repeats l p (Z.to_nat (min_count params))).
Proof. apply check_sequence_repetition_spec. Qed.

(** ** [check_stop] *)

(** The limits a request must still be under to go on. *)
Definition may_continue (max_model_len : Z) (r : Request) (sp : SamplingParams) (t : Z) : Prop :=
  eos_token_id sp <> Some t /\ (t ∉ default [] (stop_token_ids sp)) /\
  (num_tokens r < max_model_len)%Z /\ (num_output_tokens r < max_tokens r)%Z /\
  ((min_tokens sp <= num_output_tokens r)%Z ->
    forall p, repetition_detection sp = Some p ->
      check_sequence_repetition (output_token_ids r) p = Ok false).

Definition stop_cause (max_model_len : Z) (r : Request) (sp : SamplingParams) (t : Z) : RequestStatus :=
  if bool_decide (eos_token_id sp = Some t) || bool_decide (t ∈ default [] (stop_token_ids sp))
  then FINISHED_STOPPED
  else if (max_model_len <=? num_tokens r)%Z || (max_tokens r <=? num_output_tokens r)%Z
  then FINISHED_LENGTH_CAPPED
  else FINISHED_REPETITION.

Lemma pyget_last {A} (l : list A) x : pyget (l ++ [x]) (-1) = Some x.
Proof.
  change (-1)%Z with (- Z.of_nat 1)%Z.
  rewrite pyget_neg by (rewrite length_app; simpl; lia).
  rewrite lookup_app_r by (rewrite length_app; simpl; lia).
  rewrite length_app. simpl. by replace (_ + 1 - 1 - _) with 0 by lia.
Qed.

(** C29. [check_stop] on a generative request that has produced at least one
    token never raises.  When it answers [False] the request is untouched and is
    under every limit (so generation is bounded by [max_model_len] and
    [max_tokens]); when it answers [True] the status is finished, and it is the
    one the precedence eos/stop token, then length cap, then repetition gives,
    where repetition only counts from [min_tokens] on. *)
Theorem check_stop_correct max_model_len r sp out t :
  pooling_params r = None -> sampling_params r = Some sp ->
  output_token_ids r = out ++ [t] ->
  exists b r', check_stop max_model_len r = (Ok b, r') /\
    (b = false -> r' = r /\ may_continue max_model_len r sp t) /\
    (b = true ->
       is_finished r' = true /\ status r' = stop_cause max_model_len r sp t /\
       ~ may_continue max_model_len r sp t /\
       output_token_ids r' = output_token_ids r /\
       num_computed_tokens r' = num_computed_tokens r).
Proof.
  intros Hpp Hsp Hout.
  unfold check_stop, massert, of_option, mbind, M_bind, gets. simpl.
  rewrite Hpp, Hsp. simpl. rewrite Hout, pyget_last. simpl.
  unfold may_continue, stop_cause. rewrite Hout.
  destruct (bool_decide_reflect (eos_token_id sp = Some t)) as [He|He]; simpl.
  { eexists true, _. split; [done|]. naive_solver. }
  destruct (bool_decide_reflect (t ∈ default [] (stop_token_ids sp))) as [Ht|Ht]; simpl.
  { eexists true, _. split; [done|]. naive_solver. }
  destruct (_ || _) eqn:Elen; simpl.
  { eexists true, _. split; [done|]. split; [done|]. intros _. split_and!; try done.
    intros (_ & _ & ? & ? & _). lia. }
  destruct (Z.ltb_spec (num_output_tokens r) (min_tokens sp)); simpl.
  { exists false, r. split; [done|]. split; [|done]. intros _. split_and!; try done; lia. }
  destruct (repetition_detection sp) as [p|] eqn:Erep.
  2: { exists false, r. split; [done|]. split; [|done]. intros _.
       split_and!; try done; try lia; naive_solver. }
  destruct (check_sequence_repetition_spec (out ++ [t]) p) as (b & Hb & _). rewrite Hb.
  exists b. destruct b.
  - eexists _. split; [done|]. split; [done|]. intros _. split_and!; try done.
    intros (_ & _ & _ & _ & Hrep). specialize (Hrep ltac:(lia) p eq_refl). congruence.
  - exists r. split; [done|]. split; [|done]. intros _.
    split_and!; try done; try lia. intros _ p' [= <-]. done.
Qed.

Lemma check_stop_correct_witness :
  exists b r', check_stop 100
      (text_request "a" [5; 6]%Z <| output_token_ids := [7; 2]%Z |>) = (Ok b, r') /\
    b = true /\ status r' = FINISHED_STOPPED.
Proof.
  destruct (check_stop_correct 100 (text_request "a" [5; 6]%Z <| output_token_ids := [7; 2]%Z |>)
    default_sampling [7]%Z 2) as (b & r' & H & Hf & Ht); [reflexivity..|].
  exists b, r'. split; [exact H|]. destruct b.
  - destruct (Ht eq_refl) as (_ & -> & _). split; reflexivity.
  - destruct (Hf eq_refl) as (_ & Hm & _). exfalso. apply Hm. reflexivity.
Defined.
