(* ===== verification/BlockHash.v ===== *)
(** Prefix-cache keys (vllm/v1/core/kv_cache_utils.py): packing of block hashes
    with group ids, extra keys, the chained hashes of a request's blocks and the
    coarser view of them ([BlockHashListWithBlockSize]).

    The hash function, the SHA-256 of prompt embeddings and the seed hash
    [NONE_HASH] are parameters. *)
From S2P Require Import Prelude Request.

(** ** Packing a hash with its group id *)

(** [make_block_hash_with_group_id(block_hash, group_id)]: [to_bytes(4, "big")]
    raises when the id does not fit. *)
Definition make_block_hash_with_group_id (block_hash : bytes) (group_id : Z) : outcome bytes :=
  if (group_id <? 0)%Z || (2 ^ 32 <=? group_id)%Z then Raise OverflowError
  else Ok (block_hash ++ to_bytes_big 4 group_id).

(** [key[:-4]] *)
Definition get_block_hash (key : bytes) : bytes := take (length key - 4) key.

(** [int.from_bytes(key[-4:], "big")] *)
Definition get_group_id (key : bytes) : Z := from_bytes_big (drop (length key - 4) key).

(** [ExternalBlockHash = bytes | int] *)
Inductive ExternalBlockHash := ExtBytes (b : bytes) | ExtInt (z : Z).

(** [maybe_convert_block_hash(hash_bytes)]; the argument is
    [envs.VLLM_KV_EVENTS_USE_INT_BLOCK_HASHES]. *)
Definition maybe_convert_block_hash (use_int : bool) (hash_bytes : bytes) : ExternalBlockHash :=
  if negb use_int then ExtBytes hash_bytes
  else ExtInt (Z.land (from_bytes_big hash_bytes) (Z.shiftl 1 64 - 1)).

(** ** Extra keys *)

(** The Python values an extra-keys tuple holds: strings (LoRA name, cache
    salt), pairs of a multi-modal identifier and an offset, byte strings. *)
Inductive extra_key :=
  | XStr (s : string)
  | XMM (id : string) (off : Z)
  | XBytes (b : bytes).

#[export] Instance extra_key_eq_dec : EqDecision extra_key.
Proof. solve_decision. Defined.

(** The while loop of [_gen_mm_extra_hash_keys] over the features from
    [curr_mm_idx] on. *)
Fixpoint mm_loop (start_token_idx end_token_idx : Z) (rest : list MMFeature) (curr_mm_idx : Z)
    : list extra_key * Z :=
  match rest with
  | [] => ([], curr_mm_idx)
  | f :: rest' =>
      let offset := mm_offset f in
      let length := mm_length f in
      if (offset <? end_token_idx)%Z then
        if (offset + length <=? start_token_idx)%Z then
          mm_loop start_token_idx end_token_idx rest' (curr_mm_idx + 1)
        else
          let k := XMM (identifier f) (offset - start_token_idx) in
          if (offset + length <=? end_token_idx)%Z then
            let '(ks, idx) := mm_loop start_token_idx end_token_idx rest' (curr_mm_idx + 1) in
            (k :: ks, idx)
          else ([k], curr_mm_idx)
      else ([], curr_mm_idx)
  end.

(** [_gen_mm_extra_hash_keys(request, start, end, start_mm_idx)] *)
Definition gen_mm_extra_hash_keys (features : list MMFeature)
    (start_token_idx end_token_idx start_mm_idx : Z) : outcome (list extra_key * Z) :=
  match last features with
  | None => Ok ([], start_mm_idx)
  | Some last_pos =>
      if (mm_offset last_pos + mm_length last_pos <=? start_token_idx)%Z
      then Ok ([], start_mm_idx)
      else if (start_mm_idx <? 0)%Z then
        if (- start_mm_idx <=? zlen features)%Z then
          let idx := (zlen features + start_mm_idx)%Z in
          Ok (mm_loop start_token_idx end_token_idx (drop (Z.to_nat idx) features) idx)
        else Raise AssertionError
      else Ok (mm_loop start_token_idx end_token_idx
                 (drop (Z.to_nat start_mm_idx) features) start_mm_idx)
  end.

(** [_gen_lora_extra_hash_keys(request)] *)
Definition gen_lora_extra_hash_keys (r : Request) : list extra_key :=
  match lora_request r with None => [] | Some l => [XStr (lora_name l)] end.

(** The cache-salt keys: only in the first block, only a non-empty salt. *)
Definition cache_salt_keys (r : Request) (start_token_idx : Z) : list extra_key :=
  if (start_token_idx =? 0)%Z then
    match cache_salt r with
    | Some s => if bool_decide (s = ""%string) then [] else [XStr s]
    | None => []
    end
  else [].

Section hashing.
(** [hashlib.sha256(...).digest()] *)
Context (sha256 : bytes -> bytes).

(** The bytes of the embedding rows of a block. *)
Definition embeds_bytes (rows : list bytes) (a b : Z) : bytes := concat (slice a b rows).

(** [_gen_prompt_embeds_extra_hash_keys(request, start, end)], with the cache it
    keeps on the request. *)
Definition gen_prompt_embeds_extra_hash_keys (start_token_idx end_token_idx : Z)
    : M Request (list extra_key) :=
  r ← gets id;
  match prompt_embeds r with
  | None => mret []
  | Some rows =>
      match prompt_embeds_per_block_hashes r !! (start_token_idx, end_token_idx) with
      | Some h => mret [XBytes h]
      | None =>
          let h := sha256 (embeds_bytes rows start_token_idx end_token_idx) in
          modify (fun r => r <| prompt_embeds_per_block_hashes :=
            <[(start_token_idx, end_token_idx) := h]> (prompt_embeds_per_block_hashes r) |>) ;;
          mret [XBytes h]
      end
  end.

(** [generate_block_hash_extra_keys(request, start, end, start_mm_idx)] *)
Definition generate_block_hash_extra_keys (start_token_idx end_token_idx start_mm_idx : Z)
    : M Request (option (list extra_key) * Z) :=
  r ← gets id;
  match gen_mm_extra_hash_keys (mm_features r) start_token_idx end_token_idx start_mm_idx with
  | Raise e => raise e
  | Ok (mm_extra_keys, new_start_mm_idx) =>
      prompt_embeds_keys ← gen_prompt_embeds_extra_hash_keys start_token_idx end_token_idx;
      let extra_keys := gen_lora_extra_hash_keys r ++ mm_extra_keys ++
        cache_salt_keys r start_token_idx ++ prompt_embeds_keys in
      mret (if bool_decide (extra_keys = []) then None else Some extra_keys, new_start_mm_idx)
  end.

(** What the hash function is applied to: a seed string, or the tuple
    (parent hash, token ids, extra keys). *)
Inductive hash_input :=
  | HSeed (s : string)
  | HBlock (parent : bytes) (toks : list Z) (extra : option (list extra_key)).

Context (hash_fn : hash_input -> bytes) (seed : string).

(** [init_none_hash(hash_fn)] *)
Definition NONE_HASH : bytes := hash_fn (HSeed seed).

(** [hash_block_tokens(hash_function, parent, tokens, extra_keys)]: an absent
    or empty parent hash is replaced by [NONE_HASH]. *)
Definition hash_block_tokens (parent_block_hash : option bytes) (toks : list Z)
    (extra_keys : option (list extra_key)) : bytes :=
  let parent := match parent_block_hash with
                | None | Some [] => NONE_HASH
                | Some h => h
                end in
  hash_fn (HBlock parent toks extra_keys).

(** The [while True] loop of the request block hasher; the fuel bounds the
    number of blocks and running out ends with [OutOfFuel]. *)
Fixpoint hasher_loop (fuel : nat) (hash_block_size start_token_idx curr_mm_idx : Z)
    (prev : option bytes) : M Request (list bytes) :=
  match fuel with
  | O => raise OutOfFuel
  | S fuel =>
      r ← gets id;
      let end_token_idx := (start_token_idx + hash_block_size)%Z in
      if (num_tokens r <? end_token_idx)%Z then mret []
      else
        '(extra_keys, curr_mm_idx) ←
          generate_block_hash_extra_keys start_token_idx end_token_idx curr_mm_idx;
        let h := hash_block_tokens prev
          (slice start_token_idx end_token_idx (all_token_ids r)) extra_keys in
        hs ← hasher_loop fuel hash_block_size end_token_idx curr_mm_idx (Some h);
        mret (h :: hs)
  end.

(** [get_request_block_hasher(hash_block_size, caching_hash_fn)] *)
Definition request_block_hasher (hash_block_size : Z) : M Request (list bytes) :=
  r ← gets id;
  let start_token_idx := (zlen (block_hashes r) * hash_block_size)%Z in
  if (num_tokens r <? start_token_idx + hash_block_size)%Z then mret []
  else
    let curr_mm_idx := if (0 <? start_token_idx)%Z then (-1)%Z else 0%Z in
    hasher_loop (S (length (all_token_ids r))) hash_block_size start_token_idx curr_mm_idx
      (last (block_hashes r)).

(** ** Reference: each block hashed from its whole prefix, from scratch *)

(** The multi-modal features that overlap [start, end). *)
Definition ref_mm_keys (features : list MMFeature) (s e : Z) : list extra_key :=
  (fun f => XMM (identifier f) (mm_offset f - s)) <$>
    filter (fun f => (mm_offset f < e /\ s < mm_offset f + mm_length f)%Z) features.

Definition ref_embeds_keys (r : Request) (s e : Z) : list extra_key :=
  match prompt_embeds r with
  | None => []
  | Some rows => [XBytes (sha256 (embeds_bytes rows s e))]
  end.

Definition ref_extra_keys (r : Request) (s e : Z) : option (list extra_key) :=
  let ks := gen_lora_extra_hash_keys r ++ ref_mm_keys (mm_features r) s e ++
    cache_salt_keys r s ++ ref_embeds_keys r s e in
  if bool_decide (ks = []) then None else Some ks.

Definition block_tokens (r : Request) (bs : Z) (i : nat) : list Z :=
  slice (Z.of_nat i * bs) (Z.of_nat (S i) * bs) (all_token_ids r).

Definition block_extra (r : Request) (bs : Z) (i : nat) : option (list extra_key) :=
  ref_extra_keys r (Z.of_nat i * bs) (Z.of_nat (S i) * bs).

(** The hash of the [i]-th block. *)
Fixpoint ref_hash (r : Request) (bs : Z) (i : nat) : bytes :=
  let parent := match i with O => None | S j => Some (ref_hash r bs j) end in
  hash_block_tokens parent (block_tokens r bs i) (block_extra r bs i).

Lemma ref_hash_unfold r bs i :
  ref_hash r bs i =
    hash_block_tokens (match i with O => None | S j => Some (ref_hash r bs j) end)
      (block_tokens r bs i) (block_extra r bs i).
Proof. by destruct i. Qed.

Definition ref_hashes (r : Request) (bs : Z) (n : nat) : list bytes :=
  ref_hash r bs <$> seq 0 n.

(** ** Correctness of the extra keys *)

(** Features in prompt order, not overlapping. *)
Definition mm_sorted (features : list MMFeature) : Prop :=
  forall i j f g, i < j -> features !! i = Some f -> features !! j = Some g ->
    (mm_offset f + mm_length f <= mm_offset g)%Z.

Definition mm_wf (features : list MMFeature) : Prop :=
  mm_sorted features /\ Forall (fun f => 0 <= mm_length f)%Z features.

Definition ended (s : Z) (f : MMFeature) : Prop := (mm_offset f + mm_length f <= s)%Z.

Definition norm_idx (features : list MMFeature) (idx : Z) : Z :=
  if (idx <? 0)%Z then (zlen features + idx)%Z else idx.

(** The loop index is sound at [s]: every feature before it has ended. *)
Definition idx_ok (features : list MMFeature) (s idx : Z) : Prop :=
  features = [] \/
  (0 <= norm_idx features idx)%Z /\
  Forall (ended s) (take (Z.to_nat (norm_idx features idx)) features).

Lemma mm_sorted_cons f l :
  mm_sorted (f :: l) ->
  mm_sorted l /\ Forall (fun g => mm_offset f + mm_length f <= mm_offset g)%Z l.
Proof.
  intros Hs. split.
  - intros i j g h Hij Hg Hh. apply (Hs (S i) (S j)); [lia|done..].
  - apply Forall_lookup. intros i g Hg. apply (Hs 0 (S i)); [lia|done..].
Qed.

Lemma ref_mm_keys_none l s e :
  Forall (fun f => ~ (mm_offset f < e /\ s < mm_offset f + mm_length f)%Z) l ->
  ref_mm_keys l s e = [].
Proof.
  unfold ref_mm_keys. induction 1; [done|]. by rewrite filter_cons_False.
Qed.

Lemma ref_mm_keys_app l1 l2 s e :
  ref_mm_keys (l1 ++ l2) s e = ref_mm_keys l1 s e ++ ref_mm_keys l2 s e.
Proof. unfold ref_mm_keys. by rewrite filter_app, fmap_app. Qed.

Lemma mm_loop_spec s e l idx :
  (s <= e)%Z -> mm_wf l ->
  exists k, mm_loop s e l idx = (ref_mm_keys l s e, idx + Z.of_nat k)%Z /\
    Forall (ended e) (take k l).
Proof.
  intros Hse. revert idx. induction l as [|f l IH]; intros idx [Hs Hl].
  - exists 0. split; [simpl; f_equal; lia|constructor].
  - apply mm_sorted_cons in Hs as [Hs Hf]. apply Forall_cons in Hl as [Hlf Hl].
    simpl. destruct (Z.ltb_spec (mm_offset f) e) as [Hoff|Hoff].
    2: { exists 0. split; [|constructor]. rewrite ref_mm_keys_none; [f_equal; lia|].
         apply Forall_cons. split; [lia|]. eapply Forall_impl; [exact Hf|].
         intros g Hg. simpl in *. lia. }
    destruct (Z.leb_spec (mm_offset f + mm_length f) s) as [Hend|Hend].
    + destruct (IH (idx + 1)%Z (conj Hs Hl)) as (k & -> & Hk). exists (S k). split.
      * unfold ref_mm_keys. rewrite filter_cons_False by lia. f_equal. lia.
      * simpl. constructor; [unfold ended; lia|done].
    + destruct (Z.leb_spec (mm_offset f + mm_length f) e) as [Hfe|Hfe].
      * destruct (IH (idx + 1)%Z (conj Hs Hl)) as (k & -> & Hk). exists (S k). split.
        -- unfold ref_mm_keys. rewrite filter_cons_True by lia. simpl. f_equal. lia.
        -- simpl. constructor; [done|done].
      * exists 0. split; [|constructor]. unfold ref_mm_keys. rewrite filter_cons_True by lia.
        rewrite fmap_cons. change (_ <$> filter _ l) with (ref_mm_keys l s e).
        rewrite ref_mm_keys_none; [f_equal; lia|].
        eapply Forall_impl; [exact Hf|]. intros g Hg. simpl in *. lia.
Qed.

Lemma mm_wf_drop l n : mm_wf l -> mm_wf (drop n l).
Proof.
  intros [Hs Hl]. split; [|by apply Forall_drop].
  intros i j f g Hij Hf Hg. rewrite lookup_drop in Hf, Hg. eapply (Hs (n + i) (n + j)); [lia|done..].
Qed.

(** All features have ended when the last one has. *)
Lemma last_ended_all l f s :
  mm_wf l -> last l = Some f -> ended s f -> Forall (ended s) l.
Proof.
  intros [Hs Hl] Hlast Hf. apply Forall_lookup. intros i g Hg.
  rewrite last_lookup in Hlast. pose proof (lookup_lt_Some _ _ _ Hg).
  destruct (decide (i = pred (length l))) as [->|]; [congruence|].
  assert (mm_offset g + mm_length g <= mm_offset f)%Z by (apply (Hs i (pred (length l))); [lia|done..]).
  rewrite Forall_forall in Hl. apply list_elem_of_lookup_2 in Hlast as Hin.
  specialize (Hl f Hin). unfold ended in *. simpl in *. lia.
Qed.

Lemma ended_no_keys l s e : Forall (ended s) l -> ref_mm_keys l s e = [].
Proof.
  intros H. apply ref_mm_keys_none. eapply Forall_impl; [exact H|].
  intros f Hf. unfold ended in Hf. lia.
Qed.

Lemma idx_ok_mono l s e idx : (s <= e)%Z -> idx_ok l s idx -> idx_ok l e idx.
Proof.
  intros Hse [->|[H0 H]]; [by left|right]. split; [done|].
  eapply Forall_impl; [exact H|]. unfold ended. intros; lia.
Qed.

(** The incremental scan finds exactly the features that overlap the block,
    and its next index stays sound. *)
Lemma gen_mm_extra_hash_keys_spec l s e idx :
  (s <= e)%Z -> mm_wf l -> idx_ok l s idx ->
  exists idx', gen_mm_extra_hash_keys l s e idx = Ok (ref_mm_keys l s e, idx') /\ idx_ok l e idx'.
Proof.
  intros Hse Hwf Hidx. unfold gen_mm_extra_hash_keys.
  destruct (last l) as [f|] eqn:Hlast.
  2: { apply last_None in Hlast as ->. eexists. split; [done|by left]. }
  destruct (Z.leb_spec (mm_offset f + mm_length f) s) as [Hend|Hend].
  { exists idx. rewrite (ended_no_keys l) by by eapply last_ended_all.
    split; [done|by eapply idx_ok_mono]. }
  destruct Hidx as [->|[H0 Hpre]]; [done|].
  set (i := norm_idx l idx) in *.
  assert (Hgen : (if (idx <? 0)%Z then
      if (- idx <=? zlen l)%Z then
        Ok (mm_loop s e (drop (Z.to_nat (zlen l + idx)) l) (zlen l + idx))
      else Raise AssertionError
    else Ok (mm_loop s e (drop (Z.to_nat idx) l) idx))
    = Ok (mm_loop s e (drop (Z.to_nat i) l) i)).
  { subst i. unfold norm_idx in *. destruct (Z.ltb_spec idx 0); [|done].
    by rewrite (proj2 (Z.leb_le _ _)) by lia. }
  simpl in Hgen |- *. rewrite Hgen.
  destruct (mm_loop_spec s e (drop (Z.to_nat i) l) i Hse (mm_wf_drop _ _ Hwf)) as (k & Hk & Hended).
  rewrite Hk. exists (i + Z.of_nat k)%Z. split.
  - rewrite <- (take_drop (Z.to_nat i) l) at 2. by rewrite ref_mm_keys_app, (ended_no_keys (take _ _)).
  - right. unfold norm_idx. rewrite (proj2 (Z.ltb_ge _ _)) by lia. split; [lia|].
    replace (Z.to_nat (i + Z.of_nat k)) with (Z.to_nat i + k) by lia.
    rewrite <- take_take_drop. apply Forall_app. split; [|done].
    eapply Forall_impl; [exact Hpre|]. unfold ended. intros; lia.
Qed.

(** The cache of embedding hashes only holds true hashes. *)
Definition memo_ok (r : Request) : Prop :=
  forall rows a b h, prompt_embeds r = Some rows ->
    prompt_embeds_per_block_hashes r !! (a, b) = Some h -> h = sha256 (embeds_bytes rows a b).

(** [r'] is [r] up to what hashing caches on it. *)
Definition same_but_memo (r r' : Request) : Prop :=
  r' = r <| prompt_embeds_per_block_hashes := prompt_embeds_per_block_hashes r' |> /\ memo_ok r'.

Lemma same_but_memo_refl r : memo_ok r -> same_but_memo r r.
Proof. by destruct r. Qed.

Lemma same_but_memo_trans r1 r2 r3 :
  same_but_memo r1 r2 -> same_but_memo r2 r3 -> same_but_memo r1 r3.
Proof. intros [H1 _] [H2 ?]. split; [|done]. rewrite H2, H1. done. Qed.

Lemma gen_prompt_embeds_spec r s e :
  memo_ok r ->
  exists r', gen_prompt_embeds_extra_hash_keys s e r = (Ok (ref_embeds_keys r s e), r') /\
    same_but_memo r r'.
Proof.
  intros Hm. unfold gen_prompt_embeds_extra_hash_keys, ref_embeds_keys, mbind, M_bind, gets. simpl.
  destruct (prompt_embeds r) as [rows|] eqn:He.
  2: { exists r. split; [done|by apply same_but_memo_refl]. }
  destruct (prompt_embeds_per_block_hashes r !! (s, e)) as [h|] eqn:Hh; simpl.
  - exists r. rewrite (Hm rows s e h He Hh). split; [done|by apply same_but_memo_refl].
  - eexists. split; [done|]. split; [done|]. intros rows' a b h' Hr' Hl. simpl in *.
    rewrite lookup_insert in Hl. case_decide as Hab; [|by eapply Hm]. by simplify_eq.
Qed.

Lemma generate_block_hash_extra_keys_spec r s e idx :
  (s <= e)%Z -> mm_wf (mm_features r) -> idx_ok (mm_features r) s idx -> memo_ok r ->
  exists r' idx', generate_block_hash_extra_keys s e idx r = (Ok (ref_extra_keys r s e, idx'), r') /\
    idx_ok (mm_features r) e idx' /\ same_but_memo r r'.
Proof.
  intros Hse Hwf Hidx Hm.
  destruct (gen_mm_extra_hash_keys_spec (mm_features r) s e idx Hse Hwf Hidx) as (idx' & Hmm & Hi').
  destruct (gen_prompt_embeds_spec r s e Hm) as (r' & He & Hr').
  exists r', idx'. split; [|done].
  unfold generate_block_hash_extra_keys, mbind, M_bind, gets. simpl. rewrite Hmm, He. done.
Qed.

(** ** The incremental hasher computes the reference hashes *)

Lemma block_bounds (bs : Z) i : (0 < bs)%Z -> (Z.of_nat i * bs <= Z.of_nat (S i) * bs)%Z.
Proof. nia. Qed.

(** The reference only reads what hashing never changes. *)
Lemma ref_hash_memo r r' bs i : same_but_memo r r' -> ref_hash r' bs i = ref_hash r bs i.
Proof. intros [-> _]. induction i as [|i IH]; simpl; [done|]. by rewrite IH. Qed.

(** The number of full blocks of a request. *)
Definition num_full (r : Request) (bs : Z) : nat := Z.to_nat (num_tokens r / bs).

Lemma hasher_loop_spec bs k fuel r idx n :
  (0 < bs)%Z -> mm_wf (mm_features r) -> memo_ok r ->
  idx_ok (mm_features r) (Z.of_nat k * bs) idx ->
  n = num_full r bs -> k <= n -> n - k < fuel ->
  exists r', hasher_loop fuel bs (Z.of_nat k * bs) idx
      (match k with O => None | S j => Some (ref_hash r bs j) end) r
    = (Ok (ref_hash r bs <$> seq k (n - k)), r') /\ same_but_memo r r'.
Proof.
  intros Hbs Hwf Hm Hidx Hn. revert k r idx Hwf Hm Hidx Hn.
  induction fuel as [|fuel IH]; intros k r idx Hwf Hm Hidx Hn Hk Hfuel; [lia|].
  assert (Hdiv : (Z.of_nat n = num_tokens r / bs)%Z).
  { subst n. unfold num_full. rewrite Z2Nat.id; [done|].
    apply Z.div_pos; [unfold num_tokens, zlen; lia|done]. }
  pose proof (Z.mod_pos_bound (num_tokens r) bs Hbs).
  pose proof (Z.div_mod (num_tokens r) bs ltac:(lia)).
  unfold hasher_loop; fold hasher_loop. unfold mbind at 1, M_bind at 1, gets, id.
  replace (Z.of_nat k * bs + bs)%Z with (Z.of_nat (S k) * bs)%Z by lia.
  destruct (Z.ltb_spec (num_tokens r) (Z.of_nat (S k) * bs)) as [Hlt|Hge].
  - assert (k = n) as -> by nia. rewrite Nat.sub_diag. exists r.
    split; [done|by apply same_but_memo_refl].
  - assert (k < n) by nia.
    destruct (generate_block_hash_extra_keys_spec r _ _ idx (block_bounds bs k Hbs) Hwf Hidx Hm)
      as (r1 & idx1 & Hgen & Hidx1 & Hr1).
    unfold mbind at 1, M_bind at 1. rewrite Hgen.
    set (h := hash_block_tokens _ _ _).
    assert (Hh : h = ref_hash r bs k) by by destruct k.
    assert (Heq : r1 = r <| prompt_embeds_per_block_hashes :=
      prompt_embeds_per_block_hashes r1 |>) by apply Hr1.
    destruct (IH (S k) r1 idx1) as (r2 & Hloop & Hr2); try (rewrite Heq; done).
    { apply Hr1. } { lia. } { lia. }
    exists r2. split; [|by eapply same_but_memo_trans].
    unfold mbind, M_bind. rewrite Hh, <- (ref_hash_memo r r1 bs k Hr1), Hloop.
    replace (n - k) with (S (n - S k)) by lia.
    rewrite (ref_hash_memo r r1 bs k Hr1). simpl seq. rewrite fmap_cons.
    unfold mret, M_ret. do 3 f_equal.
    apply list_fmap_ext. intros i x _. by apply ref_hash_memo.
Qed.

(** The hashes recorded on the request are the reference hashes of its full
    blocks. *)
Definition hashes_ok (r : Request) (bs : Z) : Prop :=
  memo_ok r /\ block_hashes r = ref_hashes r bs (num_full r bs).

(** Every feature but the last ends within the full blocks of the prompt. *)
Definition mm_tail_ok (features : list MMFeature) (s : Z) : Prop :=
  Forall (ended s) (take (length features - 1) features).

Lemma last_ref_hashes r bs n :
  last (ref_hashes r bs n) = match n with O => None | S j => Some (ref_hash r bs j) end.
Proof.
  unfold ref_hashes. destruct n; [done|]. rewrite seq_S, fmap_app. apply last_snoc.
Qed.

Lemma num_full_le r bs :
  (0 < bs)%Z -> (Z.of_nat (num_full r bs) * bs <= num_tokens r)%Z /\
  (num_tokens r < Z.of_nat (S (num_full r bs)) * bs)%Z.
Proof.
  intros Hbs. unfold num_full.
  pose proof (Z.mod_pos_bound (num_tokens r) bs Hbs).
  pose proof (Z.div_mod (num_tokens r) bs ltac:(lia)).
  assert (0 <= num_tokens r / bs)%Z by (apply Z.div_pos; unfold num_tokens, zlen; lia).
  nia.
Qed.

(** One run of the hasher from [k] recorded hashes completes the list. *)
Lemma request_block_hasher_spec bs k r :
  (0 < bs)%Z -> mm_wf (mm_features r) -> memo_ok r ->
  block_hashes r = ref_hashes r bs k -> k <= num_full r bs ->
  (k = 0 \/ mm_tail_ok (mm_features r) (Z.of_nat k * bs)) ->
  exists r', request_block_hasher bs r
    = (Ok (ref_hash r bs <$> seq k (num_full r bs - k)), r') /\ same_but_memo r r'.
Proof.
  intros Hbs Hwf Hm Hhs Hk Htail. destruct (num_full_le r bs Hbs) as [Hle Hlt].
  unfold request_block_hasher, mbind, M_bind, gets, id.
  assert (Hlen : zlen (block_hashes r) = Z.of_nat k).
  { unfold zlen. rewrite Hhs. unfold ref_hashes. by rewrite length_fmap, length_seq. }
  rewrite Hlen. destruct (Z.ltb_spec (num_tokens r) (Z.of_nat k * bs + bs)) as [Hn|Hn].
  - assert (num_full r bs = k) as -> by nia. rewrite Nat.sub_diag.
    exists r. split; [done|by apply same_but_memo_refl].
  - rewrite Hhs, last_ref_hashes.
    apply hasher_loop_spec; try done; [|unfold num_tokens, zlen in Hle; nia].
    destruct (mm_features r) as [|f l] eqn:Hfeat; [by left|right].
    unfold norm_idx. destruct (Z.ltb_spec 0 (Z.of_nat k * bs)) as [Hpos|Hpos]; simpl.
    + destruct Htail as [->|Htail]; [lia|].
      split; [unfold zlen; simpl; lia|].
      replace (Z.to_nat (zlen (f :: l) + -1)) with (length (f :: l) - 1)
        by (unfold zlen; simpl; lia). exact Htail.
    + split; [lia|constructor].
Qed.

Lemma slice_app_l {A} (l ext : list A) (a b : Z) :
  (b <= zlen l)%Z -> slice a b (l ++ ext) = slice a b l.
Proof.
  intros Hb. unfold slice, zlen in *.
  destruct (decide (Z.to_nat a <= length l)).
  - rewrite drop_app_le by lia. rewrite take_app_le; [done|]. rewrite length_drop. lia.
  - replace (Z.to_nat b - Z.to_nat a) with 0 by lia. done.
Qed.

(** The attributes, other than the tokens, that enter the hashes. *)
Definition same_context (r r' : Request) : Prop :=
  lora_request r' = lora_request r /\ mm_features r' = mm_features r /\
  cache_salt r' = cache_salt r /\ prompt_embeds r' = prompt_embeds r.

Lemma ref_hash_prefix r r' ext bs i :
  same_context r r' -> all_token_ids r' = all_token_ids r ++ ext -> (0 < bs)%Z ->
  (Z.of_nat (S i) * bs <= num_tokens r)%Z -> ref_hash r' bs i = ref_hash r bs i.
Proof.
  intros (Hl & Hmm & Hsalt & Hemb) Htok Hbs.
  assert (Hextra : forall j, block_extra r' bs j = block_extra r bs j).
  { intros j. unfold block_extra, ref_extra_keys, gen_lora_extra_hash_keys, cache_salt_keys,
      ref_embeds_keys. by rewrite Hl, Hmm, Hsalt, Hemb. }
  induction i as [|i IH]; intros Hi; simpl; rewrite Hextra; unfold block_tokens;
    rewrite Htok, slice_app_l by done; [done|]. by rewrite IH by lia.
Qed.

Lemma ref_hashes_prefix r r' ext bs n :
  same_context r r' -> all_token_ids r' = all_token_ids r ++ ext -> (0 < bs)%Z ->
  (Z.of_nat n * bs <= num_tokens r)%Z -> ref_hashes r' bs n = ref_hashes r bs n.
Proof.
  intros Hc Ht Hbs Hn. apply list_fmap_ext. intros i x Hx.
  apply lookup_seq in Hx as [-> Hi]. eapply ref_hash_prefix; [done..|nia].
Qed.

Lemma update_block_hashes_spec bs k r :
  (0 < bs)%Z -> mm_wf (mm_features r) -> memo_ok r ->
  block_hashes r = ref_hashes r bs k -> k <= num_full r bs ->
  (k = 0 \/ mm_tail_ok (mm_features r) (Z.of_nat k * bs)) ->
  exists r', update_block_hashes (Some (request_block_hasher bs)) r = (Ok tt, r') /\
    hashes_ok r' bs /\ same_context r r' /\ all_token_ids r' = all_token_ids r.
Proof.
  intros Hbs Hwf Hm Hhs Hk Htail.
  destruct (request_block_hasher_spec bs k r Hbs Hwf Hm Hhs Hk Htail) as (r1 & Hrun & Hr1 & Hm1).
  unfold update_block_hashes, mbind, M_bind, modify. rewrite Hrun.
  eexists. split; [done|]. split; [split; [exact Hm1|]|rewrite Hr1; done].
  assert (Hctx : forall hs, ref_hashes (r1 <| block_hashes := hs |>) bs (num_full r bs)
    = ref_hashes r bs (num_full r bs)).
  { intros hs. apply (ref_hashes_prefix r _ []); try (rewrite Hr1; done); [|done|].
    - rewrite Hr1, app_nil_r. done.
    - apply num_full_le; done. }
  assert (Hnf : forall hs, num_full (r1 <| block_hashes := hs |>) bs = num_full r bs)
    by (intros; rewrite Hr1; done).
  rewrite Hnf, Hctx. simpl.
  replace (block_hashes r1) with (block_hashes r) by (rewrite Hr1; done).
  rewrite Hhs. unfold ref_hashes. rewrite <- fmap_app, <- seq_app. do 2 f_equal. lia.
Qed.

(** What the request's features must satisfy for the "last feature only"
    shortcut of later hasher runs: they lie in the prompt, and all but the last
    end within its full blocks (or the prompt has no full block). *)
Definition mm_ready (features : list MMFeature) (bs n : Z) : Prop :=
  mm_wf features /\ Forall (ended n) features /\
  ((n < bs)%Z \/ mm_tail_ok features (n / bs * bs)).

Lemma mm_ready_tail features bs n k :
  (0 < bs)%Z -> (0 <= n)%Z -> mm_ready features bs n -> (n / bs <= Z.of_nat k)%Z ->
  k = 0 \/ mm_tail_ok features (Z.of_nat k * bs).
Proof.
  intros Hbs Hn (_ & Hend & Ht) Hk. destruct k as [|k]; [by left|right].
  unfold mm_tail_ok. destruct Ht as [Hlt|Ht].
  - apply Forall_take. eapply Forall_impl; [exact Hend|]. unfold ended. intros; nia.
  - eapply Forall_impl; [exact Ht|]. unfold ended. intros; nia.
Qed.

Lemma append_output_token_ids_spec bs n toks r :
  (0 < bs)%Z -> (0 <= n <= num_tokens r)%Z -> mm_ready (mm_features r) bs n -> hashes_ok r bs ->
  exists r', append_output_token_ids (Some (request_block_hasher bs)) toks r = (Ok tt, r') /\
    hashes_ok r' bs /\ mm_features r' = mm_features r /\
    all_token_ids r' = all_token_ids r ++ toks.
Proof.
  intros Hbs Hn Hready [Hm Hhs].
  unfold append_output_token_ids, modify. unfold mbind, M_bind.
  set (r1 := _ <| all_token_ids := _ |>).
  assert (Hle : num_full r bs <= num_full r1 bs).
  { unfold num_full. apply Z2Nat.inj_le; [..|apply Z.div_le_mono; [done|]];
      try (apply Z.div_pos; [unfold num_tokens, zlen; lia|done]).
    unfold num_tokens, zlen. subst r1. simpl. rewrite length_app. lia. }
  destruct (update_block_hashes_spec bs (num_full r bs) r1) as (r' & Hrun & Hok & Hc & Htok).
  - done.
  - apply Hready.
  - exact Hm.
  - subst r1. simpl. rewrite Hhs. symmetry. apply (ref_hashes_prefix r _ toks); try done.
    by apply num_full_le.
  - done.
  - subst r1. simpl. eapply mm_ready_tail; [done|apply Hn|done|].
    unfold num_full. rewrite Z2Nat.id by (apply Z.div_pos; lia). apply Z.div_le_mono; lia.
  - exists r'. split; [done|]. destruct Hc as (_ & Hmm & _). subst r1. by rewrite Hmm, Htok.
Qed.

Lemma append_many_spec bs n outs r :
  (0 < bs)%Z -> (0 <= n <= num_tokens r)%Z -> mm_ready (mm_features r) bs n -> hashes_ok r bs ->
  exists r', mfor outs (append_output_token_ids (Some (request_block_hasher bs))) r = (Ok tt, r') /\
    hashes_ok r' bs /\ all_token_ids r' = all_token_ids r ++ concat outs.
Proof.
  intros Hbs. revert r. induction outs as [|o outs IH]; intros r Hn Hready Hok; simpl.
  - exists r. by rewrite app_nil_r.
  - destruct (append_output_token_ids_spec bs n o r Hbs Hn Hready Hok)
      as (r1 & Hrun & Hok1 & Hmm & Htok).
    destruct (IH r1) as (r2 & Hrun2 & Hok2 & Htok2); [|by rewrite Hmm|done|].
    { unfold num_tokens, zlen in *. rewrite Htok, length_app. lia. }
    exists r2. unfold mbind, M_bind. rewrite Hrun. rewrite Htok2, Htok, app_assoc. done.
Qed.

(** The constructor hashes the prompt's full blocks. *)
Lemma Request_init_spec bs a max_toks st n :
  (0 < bs)%Z -> init_limits a = Ok (max_toks, st) ->
  prompt_length (arg_prompt_token_ids a) (arg_prompt_embeds a) = Ok n ->
  mm_wf (arg_mm_features a) ->
  exists r, Request_init (Some (request_block_hasher bs)) a = Ok r /\ hashes_ok r bs /\
    same_context (init_request a max_toks st n) r /\
    all_token_ids r = initial_token_ids (arg_prompt_token_ids a) (arg_prompt_is_token_ids a) n.
Proof.
  intros Hbs Hlim Hlen Hwf.
  destruct (update_block_hashes_spec bs 0 (init_request a max_toks st n))
    as (r & Hrun & Hok & Hc & Ht); [done|done|by intros ????|done|lia|by left|].
  exists r. unfold Request_init. by rewrite Hlim, Hlen, Hrun.
Qed.

(** A request after its constructor and any series of appends *)
Lemma hashes_from_scratch bs a max_toks st n outs :
  (0 < bs)%Z -> init_limits a = Ok (max_toks, st) ->
  prompt_length (arg_prompt_token_ids a) (arg_prompt_embeds a) = Ok n ->
  zlen (initial_token_ids (arg_prompt_token_ids a) (arg_prompt_is_token_ids a) n) = n ->
  mm_ready (arg_mm_features a) bs n ->
  exists r r',
    Request_init (Some (request_block_hasher bs)) a = Ok r /\
    mfor outs (append_output_token_ids (Some (request_block_hasher bs))) r = (Ok tt, r') /\
    all_token_ids r' =
      initial_token_ids (arg_prompt_token_ids a) (arg_prompt_is_token_ids a) n ++ concat outs /\
    block_hashes r' = ref_hashes r' bs (Z.to_nat (num_tokens r' / bs)).
Proof.
  intros Hbs Hlim Hlen Htok Hready.
  destruct (Request_init_spec bs a max_toks st n) as (r & Hinit & Hok & Hc & Ht);
    [done..|apply Hready|].
  assert (Hn0 : num_tokens r = n) by (unfold num_tokens; rewrite Ht; done).
  assert (Hnn : (0 <= n)%Z) by (rewrite <- Hn0; unfold num_tokens, zlen; lia).
  destruct (append_many_spec bs n outs r) as (r' & Hrun2 & [_ Hok2] & Ht2); [done|lia| |done|].
  { destruct Hc as (_ & -> & _). done. }
  exists r, r'. split_and!; [done..| |done]. by rewrite Ht2, Ht.
Qed.

(** C15. Block hashes are maintained incrementally, a few tokens at a time, and
    are always what hashing the whole sequence from scratch gives: after
    [Request.__init__] and any series of [append_output_token_ids] calls,
    [block_hashes] holds one hash per full block, each chained over its whole
    prefix with the keys of exactly the features that overlap the block (LoRA,
    salt and embedding keys included, the embedding-hash cache being
    transparent).  Neither the constructor nor the appends raise, and the
    hashing loop terminates.  This holds for multi-modal features that are in
    prompt order and of which all but the last end within the prompt's full
    blocks ([mm_ready]); without that, a block that decoding completes loses the
    key of an earlier feature ([tail_block_drops_earlier_feature]). *)
Theorem block_hashes_incremental bs a max_toks st n outs :
  (0 < bs)%Z -> init_limits a = Ok (max_toks, st) ->
  prompt_length (arg_prompt_token_ids a) (arg_prompt_embeds a) = Ok n ->
  zlen (initial_token_ids (arg_prompt_token_ids a) (arg_prompt_is_token_ids a) n) = n ->
  mm_ready (arg_mm_features a) bs n ->
  exists r r',
    Request_init (Some (request_block_hasher bs)) a = Ok r /\
    mfor outs (append_output_token_ids (Some (request_block_hasher bs))) r = (Ok tt, r') /\
    all_token_ids r' =
      initial_token_ids (arg_prompt_token_ids a) (arg_prompt_is_token_ids a) n ++ concat outs /\
    block_hashes r' = ref_hashes r' bs (Z.to_nat (num_tokens r' / bs)).
Proof. apply hashes_from_scratch. Qed.

(** ** What equal hashes say about the prefixes *)

Section collision_free.
(** The cryptographic assumption on the hash function: no collisions, and
    digests are not empty. *)
Context (hash_inj : forall x y, hash_fn x = hash_fn y -> x = y).
Context (hash_nonempty : forall x, hash_fn x <> []).

Lemma hash_block_tokens_inj p t e p' t' e' :
  (forall h, p = Some h -> h <> []) -> (forall h, p' = Some h -> h <> []) ->
  hash_block_tokens p t e = hash_block_tokens p' t' e' ->
  default NONE_HASH p = default NONE_HASH p' /\ t = t' /\ e = e'.
Proof.
  intros Hp Hp' H%hash_inj. injection H as H1 H2 H3. split; [|done].
  destruct p as [[|]|], p' as [[|]|]; simpl in *; naive_solver.
Qed.

Lemma ref_hash_inj r1 r2 bs i j :
  ref_hash r1 bs i = ref_hash r2 bs j ->
  i = j /\ forall k, k <= i ->
    block_tokens r1 bs k = block_tokens r2 bs k /\ block_extra r1 bs k = block_extra r2 bs k.
Proof.
  assert (Hne : forall r k, ref_hash r bs k <> []) by (intros r [|k]; apply hash_nonempty).
  assert (Hp : forall r k h, match k with O => None | S k' => Some (ref_hash r bs k') end = Some h
    -> h <> []) by (intros r [|k] h; [done|intros [= <-]; apply Hne]).
  assert (Hnone : forall r k, NONE_HASH <> ref_hash r bs k)
    by (intros r [|k] H; by apply hash_inj in H).
  revert j. induction i as [|i IH]; intros j H.
  - rewrite (ref_hash_unfold r1 bs 0), (ref_hash_unfold r2 bs j) in H.
    apply (hash_block_tokens_inj _ _ _ _ _ _ (Hp r1 0)) in H as (Hpar & Ht & He); [|apply (Hp r2 j)].
    destruct j as [|j]; [|by apply Hnone in Hpar].
    split; [done|]. intros k Hk. replace k with 0 by lia. done.
  - rewrite (ref_hash_unfold r1 bs (S i)), (ref_hash_unfold r2 bs j) in H.
    apply (hash_block_tokens_inj _ _ _ _ _ _ (Hp r1 (S i))) in H as (Hpar & Ht & He); [|apply (Hp r2 j)].
    destruct j as [|j]; [by symmetry in Hpar; apply Hnone in Hpar|].
    destruct (IH j Hpar) as [-> Hk]. split; [done|]. intros k Hle.
    destruct (decide (k = S j)) as [->|]; [done|]. apply Hk. lia.
Qed.
End collision_free.

Lemma slice_split {A} (l : list A) (a b c : Z) :
  (0 <= a <= b)%Z -> (b <= c)%Z -> slice a c l = slice a b l ++ slice b c l.
Proof.
  intros Hab Hbc. unfold slice.
  replace (drop (Z.to_nat b) l) with (drop (Z.to_nat b - Z.to_nat a) (drop (Z.to_nat a) l))
    by (rewrite drop_drop; f_equal; lia).
  rewrite take_take_drop. f_equal. lia.
Qed.

Lemma prefix_of_blocks r1 r2 bs n :
  (0 < bs)%Z -> (forall k, k < n -> block_tokens r1 bs k = block_tokens r2 bs k) ->
  slice 0 (Z.of_nat n * bs) (all_token_ids r1) = slice 0 (Z.of_nat n * bs) (all_token_ids r2).
Proof.
  intros Hbs. induction n as [|n IH]; intros Hk; [done|].
  rewrite !(slice_split _ 0 (Z.of_nat n * bs) (Z.of_nat (S n) * bs)) by nia.
  rewrite IH by (intros; apply Hk; lia). f_equal. apply (Hk n). lia.
Qed.

(** A request as the engine has it: made by the constructor from arguments whose features
    meet [mm_ready], with the outputs [outs] appended. *)
Definition built (bs : Z) (a : RequestArgs) (outs : list (list Z)) (r' : Request) : Prop :=
  exists max_toks st n r,
    init_limits a = Ok (max_toks, st) /\ prompt_length (arg_prompt_token_ids a) (arg_prompt_embeds a) = Ok n /\
    zlen (initial_token_ids (arg_prompt_token_ids a) (arg_prompt_is_token_ids a) n) = n /\ mm_ready (arg_mm_features a) bs n /\
    Request_init (Some (request_block_hasher bs)) a = Ok r /\
    mfor outs (append_output_token_ids (Some (request_block_hasher bs))) r = (Ok tt, r').

Lemma built_hash bs a outs r i h : (0 < bs)%Z -> built bs a outs r -> block_hashes r !! i = Some h ->
  h = ref_hash r bs i /\ (Z.of_nat (S i) * bs <= num_tokens r)%Z.
Proof.
  intros Hbs (mt & st & n & r0 & H1 & H2 & H3 & H4 & Hinit & Happ) Hi.
  destruct (hashes_from_scratch bs a mt st n outs Hbs H1 H2 H3 H4) as (r1 & r2 & G1 & G2 & _ & Hh). rewrite Hinit in G1. injection G1 as <-. rewrite Happ in G2. injection G2 as <-.
  rewrite Hh in Hi. unfold ref_hashes in Hi. apply list_lookup_fmap_Some in Hi as (j & -> & Hj). apply lookup_seq in Hj as [-> Hj]. split; [done|].
  pose proof (Z.mul_div_le (num_tokens r) bs Hbs). assert (Z.of_nat (S i) <= num_tokens r / bs)%Z by lia. nia.
Qed.

(** C14. Equal block hashes mean equal prefixes: with a collision-free hash function, if
    the [i]-th entry of one request's [block_hashes] equals the [j]-th of another's, then
    [i = j], both requests have that many full blocks, and they agree on all the tokens up to
    the end of that block and on the extra keys (LoRA, the multi-modal features that overlap
    the block, salt, embeddings) of every block of that prefix.  The requests are as the
    constructor and any series of appends leave them, with multi-modal features that meet
    [mm_ready]. *)
Theorem equal_hash_equal_prefix bs a1 outs1 r1 a2 outs2 r2 i j h :
  (forall x y, hash_fn x = hash_fn y -> x = y) -> (forall x, hash_fn x <> []) ->
  (0 < bs)%Z -> built bs a1 outs1 r1 -> built bs a2 outs2 r2 ->
  block_hashes r1 !! i = Some h -> block_hashes r2 !! j = Some h ->
  i = j /\ (Z.of_nat (S i) * bs <= num_tokens r1)%Z /\ (Z.of_nat (S i) * bs <= num_tokens r2)%Z /\
  slice 0 (Z.of_nat (S i) * bs) (all_token_ids r1) = slice 0 (Z.of_nat (S i) * bs) (all_token_ids r2) /\
  (forall k, k <= i -> block_extra r1 bs k = block_extra r2 bs k).
Proof.
  intros Hinj Hne Hbs B1 B2 H1 H2. destruct (built_hash _ _ _ _ _ _ Hbs B1 H1) as [E1 L1]. destruct (built_hash _ _ _ _ _ _ Hbs B2 H2) as [E2 L2].
  destruct (ref_hash_inj Hinj Hne r1 r2 bs i j) as [-> Hk]; [congruence|].
  split_and!; [done|done|done| |naive_solver]. apply prefix_of_blocks; [done|]. intros k Hlt. apply Hk. lia.
Qed.
End hashing.

(** ** A concrete collision-free hash, for evaluation *)

Fixpoint bytes_of_pos (p : positive) : bytes :=
  match p with
  | xH => [Byte.x02]
  | xO p => Byte.x00 :: bytes_of_pos p
  | xI p => Byte.x01 :: bytes_of_pos p
  end.

Lemma bytes_of_pos_inj p q : bytes_of_pos p = bytes_of_pos q -> p = q.
Proof. revert q. induction p; intros []; simpl; naive_solver. Qed.

#[export] Program Instance extra_key_countable : Countable extra_key :=
  inj_countable'
    (fun k => match k with XStr s => inl s | XMM s z => inr (inl (s, z)) | XBytes b => inr (inr b) end)
    (fun x => match x with inl s => XStr s | inr (inl (s, z)) => XMM s z | inr (inr b) => XBytes b end) _.
Next Obligation. by intros []. Qed.

#[export] Instance hash_input_eq_dec : EqDecision hash_input.
Proof. solve_decision. Defined.

#[export] Program Instance hash_input_countable : Countable hash_input :=
  inj_countable'
    (fun k => match k with HSeed s => inl s | HBlock p t e => inr (p, t, e) end)
    (fun x => match x with inl s => HSeed s | inr (p, t, e) => HBlock p t e end) _.
Next Obligation. by intros []. Qed.

Definition test_hash (x : hash_input) : bytes := bytes_of_pos (encode x).

Lemma test_hash_inj x y : test_hash x = test_hash y -> x = y.
Proof. intros H%bytes_of_pos_inj. by apply (inj encode). Qed.

Lemma test_hash_nonempty x : test_hash x <> [].
Proof. unfold test_hash. by destruct (encode x). Qed.

(** A text request with some output *)
Definition made (rid : string) (toks : list Z) (outs : list (list Z)) : Request :=
  let hasher := Some (request_block_hasher id test_hash "seed" 2) in
  match Request_init hasher (text_args rid toks) with
  | Ok r => (mfor outs (append_output_token_ids hasher) r).2
  | Raise _ => text_request rid toks
  end.

Lemma text_mm_ready bs n : mm_ready [] bs n.
Proof. split; [split; [intros i j f g _ Hf; discriminate Hf|constructor]|]. split; [constructor|right; constructor]. Qed.

Lemma equal_hash_equal_prefix_witness :
  let r1 := made "a" [1; 2; 3]%Z [[4]; [5]]%Z in let r2 := made "b" [1; 2; 3; 4]%Z [] in
  block_hashes r1 !! 1 = block_hashes r2 !! 1 /\
  slice 0 (Z.of_nat 2 * 2) (all_token_ids r1) = slice 0 (Z.of_nat 2 * 2) (all_token_ids r2).
Proof.
  cbv zeta. split; [vm_compute; reflexivity|].
  destruct (block_hashes (made "b" [1; 2; 3; 4]%Z []) !! 1) as [h|] eqn:E; [|vm_compute in E; discriminate E].
  apply (equal_hash_equal_prefix id test_hash "seed" 2 (text_args "a" [1; 2; 3]%Z) [[4]; [5]]%Z (made "a" [1; 2; 3]%Z [[4]; [5]]%Z)
    (text_args "b" [1; 2; 3; 4]%Z) [] (made "b" [1; 2; 3; 4]%Z []) 1 1 h test_hash_inj test_hash_nonempty eq_refl).
  - exists 16%Z, WAITING, 3%Z. eexists. split; [reflexivity|]. split; [reflexivity|]. split; [reflexivity|]. split; [apply text_mm_ready|]. split; vm_compute; reflexivity.
  - exists 16%Z, WAITING, 4%Z. eexists. split; [reflexivity|]. split; [reflexivity|]. split; [reflexivity|]. split; [apply text_mm_ready|]. split; vm_compute; reflexivity.
  - rewrite <- E. vm_compute. reflexivity.
  - exact E.
Defined.

Lemma block_hashes_incremental_witness :
  exists r r',
    Request_init (Some (request_block_hasher id test_hash "seed" 2)) (text_args "a" [1; 2; 3]%Z) = Ok r /\
    mfor [[4]; [5; 6]]%Z (append_output_token_ids (Some (request_block_hasher id test_hash "seed" 2))) r
      = (Ok tt, r') /\
    all_token_ids r' = [1; 2; 3; 4; 5; 6]%Z /\ length (block_hashes r') = 3.
Proof.
  destruct (block_hashes_incremental id test_hash "seed" 2 (text_args "a" [1; 2; 3]%Z)
    16 WAITING 3 [[4]; [5; 6]]%Z) as (r & r' & H1 & H2 & H3 & H4);
    [reflexivity..| |].
  - split; [split; [intros i j f g _ Hf; discriminate Hf|constructor]|].
    split; [constructor|right; constructor].
  - exists r, r'. split; [exact H1|]. split; [exact H2|]. split; [exact H3|].
    rewrite H4. unfold num_tokens. rewrite H3. reflexivity.
Defined.

(** ** Two ways equal hashes can hide different inputs *)

(** C35. LoRA names and cache salts share one key space: extra keys are plain
    strings in one tuple, so a request that runs under the LoRA adapter named [x]
    and one that runs on the base model with [cache_salt = x] get the same hash
    for their first block whenever its tokens agree, whatever the hash function. *)
Theorem lora_name_and_cache_salt_collide sha256 hash_fn seed bs x aid toks :
  (0 < bs)%Z -> (bs <= zlen toks)%Z -> x <> ""%string ->
  exists r1 r2 h,
    Request_init (Some (request_block_hasher sha256 hash_fn seed bs))
      (text_args "a" toks <| arg_lora_request := Some {| lora_name := x; adapter_id := aid |} |>)
      = Ok r1 /\
    Request_init (Some (request_block_hasher sha256 hash_fn seed bs))
      (text_args "b" toks <| arg_cache_salt := Some x |>) = Ok r2 /\
    head (block_hashes r1) = Some h /\ head (block_hashes r2) = Some h.
Proof.
  intros Hbs Hlen Hx.
  assert (Hnil : mm_wf []) by (split; [by intros ?????|constructor]).
  destruct (Request_init_spec sha256 hash_fn seed bs
    (text_args "a" toks <| arg_lora_request := Some {| lora_name := x; adapter_id := aid |} |>)
    16 WAITING (zlen toks)) as (r1 & H1 & [_ Hh1] & (L1 & M1 & S1 & E1) & T1);
    [done|reflexivity|reflexivity|exact Hnil|].
  destruct (Request_init_spec sha256 hash_fn seed bs
    (text_args "b" toks <| arg_cache_salt := Some x |>)
    16 WAITING (zlen toks)) as (r2 & H2 & [_ Hh2] & (L2 & M2 & S2 & E2) & T2);
    [done|reflexivity|reflexivity|exact Hnil|].
  simpl in *. exists r1, r2, (ref_hash sha256 hash_fn seed r1 bs 0).
  assert (Hnf : forall r, all_token_ids r = toks -> exists n, num_full r bs = S n).
  { intros r Hr. destruct (num_full_le r bs Hbs) as [_ Hlt]. unfold num_tokens in Hlt.
    rewrite Hr in Hlt. destruct (num_full r bs); [lia|eauto]. }
  destruct (Hnf r1 T1) as [n1 Hn1], (Hnf r2 T2) as [n2 Hn2].
  split_and!; [done..|by rewrite Hh1, Hn1|]. rewrite Hh2, Hn2. simpl. f_equal.
  unfold hash_block_tokens, block_tokens, block_extra, ref_extra_keys,
    gen_lora_extra_hash_keys, cache_salt_keys, ref_embeds_keys.
  rewrite T1, T2, L1, L2, M1, M2, S1, S2, E1, E2. simpl.
  by rewrite (bool_decide_eq_false_2 (x = ""%string)).
Qed.

Lemma lora_name_and_cache_salt_collide_witness :
  exists r1 r2 h,
    Request_init (Some (request_block_hasher id test_hash "seed" 2))
      (text_args "a" [7; 8; 9]%Z <| arg_lora_request := Some {| lora_name := "x"; adapter_id := 1 |} |>)
      = Ok r1 /\
    Request_init (Some (request_block_hasher id test_hash "seed" 2))
      (text_args "b" [7; 8; 9]%Z <| arg_cache_salt := Some "x"%string |>) = Ok r2 /\
    head (block_hashes r1) = Some h /\ head (block_hashes r2) = Some h.
Proof.
  apply (lora_name_and_cache_salt_collide id test_hash "seed" 2 "x" 1 [7; 8; 9]%Z);
    [reflexivity|discriminate|discriminate].
Defined.

(** A request whose prompt ends in a partly filled block that holds two
    features, [img] at token 4 and [last_img] at token 5. *)
Definition two_image_args (img last_img : string) : RequestArgs :=
  text_args "a" [1; 1; 1; 1; 9; 9]%Z <| arg_mm_features :=
    [{| identifier := img; mm_offset := 4; mm_length := 1; mm_is_embed := None |};
     {| identifier := last_img; mm_offset := 5; mm_length := 1; mm_is_embed := None |}] |>.

(** The hashes of such a request once decoding fills the block. *)
Definition hashes_after_decode sha256 hash_fn seed (a : RequestArgs) (out : list Z)
    : outcome (list bytes) :=
  let hasher := Some (request_block_hasher sha256 hash_fn seed 4) in
  match Request_init hasher a with
  | Raise e => Raise e
  | Ok r => match append_output_token_ids hasher out r with
            | (Ok _, r') => Ok (block_hashes r')
            | (Raise e, _) => Raise e
            end
  end.

(** When decoding completes a block, only the last multi-modal feature
    enters its hash.  If the prompt's last, partly filled block holds two
    features, the first one is left out of its key: whatever the image [img]
    and the hash function, the two block hashes are these two, which do not
    depend on [img]. *)
Theorem tail_block_drops_earlier_feature sha256 hash_fn seed img last_img :
  let h0 := hash_block_tokens hash_fn seed None [1; 1; 1; 1]%Z None in
  let h1 := hash_block_tokens hash_fn seed (Some h0) [9; 9; 7; 7]%Z (Some [XMM last_img 1]) in
  hashes_after_decode sha256 hash_fn seed (two_image_args img last_img) [7; 7]%Z = Ok [h0; h1].
Proof. vm_compute. reflexivity. Qed.

(** ** Packing round trip *)

Lemma make_block_hash_ok h g :
  (0 <= g < 2 ^ 32)%Z -> make_block_hash_with_group_id h g = Ok (h ++ to_bytes_big 4 g).
Proof.
  intros Hg. unfold make_block_hash_with_group_id. by replace (_ || _) with false by lia.
Qed.

Lemma get_block_hash_pack h g : get_block_hash (h ++ to_bytes_big 4 g) = h.
Proof.
  unfold get_block_hash. rewrite length_app, length_to_bytes_big.
  rewrite take_app_length' by lia. done.
Qed.

Lemma get_group_id_pack h g : (0 <= g < 2 ^ 32)%Z -> get_group_id (h ++ to_bytes_big 4 g) = g.
Proof.
  intros Hg. unfold get_group_id. rewrite length_app, length_to_bytes_big.
  rewrite drop_app_length' by lia. by apply from_to_bytes_big.
Qed.

(** Packing a block hash with a group id round-trips: the key is produced
    exactly for ids that fit in four bytes (otherwise OverflowError), both
    components are recovered from it, and no two (hash, id) pairs share a key. *)
Theorem block_hash_group_id_roundtrip h g :
  match make_block_hash_with_group_id h g with
  | Ok k =>
      (0 <= g < 2 ^ 32)%Z /\ get_block_hash k = h /\ get_group_id k = g /\
      forall h' g', make_block_hash_with_group_id h' g' = Ok k -> h' = h /\ g' = g
  | Raise e => e = OverflowError /\ ~ (0 <= g < 2 ^ 32)%Z
  end.
Proof.
  assert (Hcases : forall h g k, make_block_hash_with_group_id h g = Ok k ->
    (0 <= g < 2 ^ 32)%Z /\ k = h ++ to_bytes_big 4 g).
  { intros h0 g0 k. unfold make_block_hash_with_group_id.
    destruct (_ || _) eqn:E; [done|]. intros [= <-]. split; [lia|done]. }
  destruct (make_block_hash_with_group_id h g) as [k|e] eqn:E.
  - destruct (Hcases _ _ _ E) as [Hg ->].
    split_and!; [lia|lia|apply get_block_hash_pack|by apply get_group_id_pack|].
    intros h' g' E'. destruct (Hcases _ _ _ E') as [Hg' Heq].
    pose proof (f_equal get_block_hash Heq) as H1. pose proof (f_equal get_group_id Heq) as H2.
    rewrite !get_block_hash_pack in H1. rewrite !get_group_id_pack in H2 by done. done.
  - revert E. unfold make_block_hash_with_group_id. destruct (_ || _) eqn:E; [|done].
    intros [= <-]. split; [done|lia].
Qed.

(** ** Views at a coarser block size *)

(** [BlockHashList = list[BlockHash] | BlockHashListWithBlockSize] *)
Inductive BlockHashList :=
  | RawHashes (hs : list bytes)
  | HashesWithBlockSize (hs : list bytes) (scale_factor : Z).

(** [BlockHashListWithBlockSize.__init__] *)
Definition BlockHashListWithBlockSize (hs : list bytes) (hash_block_size target_block_size : Z)
    : outcome BlockHashList :=
  if (target_block_size mod hash_block_size =? 0)%Z
  then Ok (HashesWithBlockSize hs (target_block_size / hash_block_size))
  else Raise AssertionError.

(** [len(block_hashes)] *)
Definition bhl_len (l : BlockHashList) : Z :=
  match l with
  | RawHashes hs => zlen hs
  | HashesWithBlockSize hs scale_factor => (zlen hs / scale_factor)%Z
  end.

(** [block_hashes[idx]], where [__getitem__] of a view is [_get_value_at] *)
Definition bhl_get (l : BlockHashList) (idx : Z) : outcome bytes :=
  let o := match l with
           | RawHashes hs => pyget hs idx
           | HashesWithBlockSize hs scale_factor => pyget hs ((idx + 1) * scale_factor - 1)
           end in
  match o with Some h => Ok h | None => Raise IndexError end.

(** Collect outcomes in order, stopping at the first exception. *)
Fixpoint map_outcome {A B} (f : A -> outcome B) (l : list A) : outcome (list B) :=
  match l with
  | [] => Ok []
  | x :: l' =>
      match f x with
      | Raise e => Raise e
      | Ok y => match map_outcome f l' with Ok ys => Ok (y :: ys) | Raise e => Raise e end
      end
  end.

(** [block_hashes[start:]] for a non-negative start *)
Definition bhl_from (l : BlockHashList) (start : Z) : outcome (list bytes) :=
  map_outcome (bhl_get l) (zrange (Z.min start (bhl_len l)) (bhl_len l)).

(** [resolve_block_hashes(block_hashes, hash_block_size, block_size, ...)] *)
Definition resolve_block_hashes (l : BlockHashList) (hash_block_size block_size : Z)
    (supports_fine_grained_hash_lookup : bool) (alignment_tokens : option Z)
    : outcome BlockHashList :=
  if (block_size =? hash_block_size)%Z then Ok l
  else match l with
  | HashesWithBlockSize _ scale_factor =>
      if (scale_factor =? block_size / hash_block_size)%Z then Ok l else Raise AssertionError
  | RawHashes hs =>
      if supports_fine_grained_hash_lookup &&
         match alignment_tokens with
         | Some a => (a <? block_size)%Z && (block_size mod a =? 0)%Z
         | None => false
         end
      then Ok l
      else if (block_size mod hash_block_size =? 0)%Z
      then BlockHashListWithBlockSize hs hash_block_size block_size
      else Raise AssertionError
  end.

(** The list seen at [k] times the hash block size: every [k]-th hash. *)
Definition coarse {A} (k : nat) (hs : list A) (i : nat) : option A := hs !! ((i + 1) * k - 1).

(** The view of raw hashes at a multiple of their block size. *)
Lemma resolve_block_hashes_spec hs hbs (k : nat) :
  (0 < hbs)%Z -> 0 < k ->
  exists v, resolve_block_hashes (RawHashes hs) hbs (Z.of_nat k * hbs) false None = Ok v /\
    bhl_len v = Z.of_nat (length hs / k) /\
    forall i, i < length hs / k -> exists h, bhl_get v (Z.of_nat i) = Ok h /\ coarse k hs i = Some h.
Proof.
  intros Hh Hk. unfold resolve_block_hashes.
  assert (Hc : forall i, i < length hs / k -> exists h, coarse k hs i = Some h).
  { intros i Hi. pose proof (Nat.Div0.mul_div_le (length hs) k).
    apply lookup_lt_is_Some_2. nia. }
  destruct (Z.eqb_spec (Z.of_nat k * hbs) hbs) as [He|Hne].
  - assert (k = 1) as -> by nia. exists (RawHashes hs). rewrite Nat.div_1_r in *.
    split_and!; [done|done|]. intros i Hi. destruct (Hc i Hi) as [h Hh'].
    exists h. split; [|done]. unfold bhl_get. rewrite pyget_nonneg.
    unfold coarse in Hh'. replace ((i + 1) * 1 - 1) with i in Hh' by lia. by rewrite Hh'.
  - rewrite Z.mod_mul by lia. simpl. unfold BlockHashListWithBlockSize.
    rewrite Z.mod_mul, Z.div_mul by lia. simpl. eexists. split; [done|]. simpl.
    split; [unfold zlen; by rewrite Nat2Z.inj_div|]. intros i Hi.
    destruct (Hc i Hi) as [h Hh']. exists h. split; [|done]. unfold bhl_get.
    replace ((Z.of_nat i + 1) * Z.of_nat k - 1)%Z with (Z.of_nat ((i + 1) * k - 1)) by nia.
    rewrite pyget_nonneg. unfold coarse in Hh'. by rewrite Hh'.
Qed.

(** Seen at a coarser block size [k * hash_block_size], the [i]-th entry of a
    request's hash list is the hash of the prefix of [(i + 1) * block_size]
    tokens: with a collision-free hash, equal entries mean equal prefixes of
    that many tokens.  The view has one entry per full coarse block and indexing
    inside it never fails. *)
Theorem coarse_hashes_identify_prefixes sha256 hash_fn seed r1 r2 hbs (k : nat) n1 n2 i :
  (forall x y, hash_fn x = hash_fn y -> x = y) -> (forall x, hash_fn x <> []) ->
  (0 < hbs)%Z -> 0 < k -> i < n1 / k -> i < n2 / k ->
  exists v1 v2 h1 h2,
    resolve_block_hashes (RawHashes (ref_hashes sha256 hash_fn seed r1 hbs n1)) hbs
      (Z.of_nat k * hbs) false None = Ok v1 /\
    resolve_block_hashes (RawHashes (ref_hashes sha256 hash_fn seed r2 hbs n2)) hbs
      (Z.of_nat k * hbs) false None = Ok v2 /\
    bhl_get v1 (Z.of_nat i) = Ok h1 /\ bhl_get v2 (Z.of_nat i) = Ok h2 /\
    (h1 = h2 ->
       let m := (Z.of_nat (S i) * (Z.of_nat k * hbs))%Z in
       slice 0 m (all_token_ids r1) = slice 0 m (all_token_ids r2)).
Proof.
  intros Hinj Hne Hh Hk H1 H2.
  assert (Hlen : forall r n, length (ref_hashes sha256 hash_fn seed r hbs n) = n)
    by (intros; unfold ref_hashes; by rewrite length_fmap, length_seq).
  destruct (resolve_block_hashes_spec (ref_hashes sha256 hash_fn seed r1 hbs n1) hbs k Hh Hk)
    as (v1 & Hv1 & _ & Hg1).
  destruct (resolve_block_hashes_spec (ref_hashes sha256 hash_fn seed r2 hbs n2) hbs k Hh Hk)
    as (v2 & Hv2 & _ & Hg2).
  destruct (Hg1 i) as (h1 & Hi1 & Hc1); [by rewrite Hlen|].
  destruct (Hg2 i) as (h2 & Hi2 & Hc2); [by rewrite Hlen|].
  exists v1, v2, h1, h2. split_and!; [done..|]. intros <-.
  unfold coarse, ref_hashes in Hc1, Hc2.
  apply list_lookup_fmap_Some in Hc1 as (j1 & -> & Hj1), Hc2 as (j2 & Heq & Hj2).
  apply lookup_seq in Hj1 as [-> _], Hj2 as [-> _].
  destruct (ref_hash_inj _ _ _ Hinj Hne _ _ _ _ _ Heq) as [_ Hblk].
  replace (Z.of_nat (S i) * (Z.of_nat k * hbs))%Z
    with (Z.of_nat ((i + 1) * k) * hbs)%Z by lia.
  apply prefix_of_blocks; [done|]. intros j Hj. apply Hblk. lia.
Qed.

Lemma coarse_hashes_identify_prefixes_witness :
  exists v1 v2 h1 h2,
    resolve_block_hashes (RawHashes (ref_hashes id test_hash "s" (text_request "a" [1; 2; 3; 4; 5]%Z) 2 2)) 2
      4 false None = Ok v1 /\
    resolve_block_hashes (RawHashes (ref_hashes id test_hash "s" (text_request "b" [1; 2; 3; 4]%Z) 2 2)) 2
      4 false None = Ok v2 /\
    bhl_get v1 0 = Ok h1 /\ bhl_get v2 0 = Ok h2 /\
    (h1 = h2 -> slice 0 4 [1; 2; 3; 4; 5]%Z = slice 0 4 [1; 2; 3; 4]%Z).
Proof.
  apply (coarse_hashes_identify_prefixes id test_hash "s" (text_request "a" [1; 2; 3; 4; 5]%Z)
    (text_request "b" [1; 2; 3; 4]%Z) 2 2 2 2 0 test_hash_inj test_hash_nonempty);
    [reflexivity|lia|simpl; lia|simpl; lia].
Defined.
