(* ===== verification/BlockPool.v ===== *)
(** [BlockHashToBlockMap] and [BlockPool] (vllm/v1/core/block_pool.py): the
    reference-counted pool of KV-cache blocks with its free queue, its prefix
    cache and its event log.  The optional metrics collector only observes and is
    left out. *)
From S2P Require Import Prelude KVBlock FreeQueue Request BlockHash.

(** ** [BlockHashToBlockMap] *)

(** [KVCacheBlock | dict[int, KVCacheBlock]] *)
Inductive cached_blocks :=
  | OneBlock (b : ref)
  | ManyBlocks (d : list (Z * ref)).

Abbreviation block_map := (gmap bytes cached_blocks).

(** [get_one_block(key)]; the first value of an empty dict raises. *)
Definition get_one_block (c : block_map) (k : bytes) : outcome (option ref) :=
  match c !! k with
  | None => Ok None
  | Some (OneBlock b) => Ok (Some b)
  | Some (ManyBlocks ((_, b) :: _)) => Ok (Some b)
  | Some (ManyBlocks []) => Raise StopIteration
  end.

(** [contain(key, block_id)] *)
Definition map_contain (h : heap) (c : block_map) (k : bytes) (id : Z) : bool :=
  match c !! k with
  | None => false
  | Some (OneBlock b) => (block_id (h !!! b) =? id)%Z
  | Some (ManyBlocks d) => bool_decide (is_Some (odict_get id d))
  end.

(** [insert(key, block)] *)
Definition map_insert (h : heap) (c : block_map) (k : bytes) (block : ref) : block_map :=
  let id := block_id (h !!! block) in
  match c !! k with
  | None => <[k := OneBlock block]> c
  | Some (OneBlock b) =>
      <[k := ManyBlocks (odict_set id block [(block_id (h !!! b), b)])]> c
  | Some (ManyBlocks d) => <[k := ManyBlocks (odict_set id block d)]> c
  end.

(** [pop(key, block_id)] *)
Definition map_pop (h : heap) (c : block_map) (k : bytes) (id : Z) : option ref * block_map :=
  match c !! k with
  | None => (None, c)
  | Some (OneBlock b) =>
      if (block_id (h !!! b) =? id)%Z then (Some b, delete k c) else (None, c)
  | Some (ManyBlocks d) =>
      let d' := odict_del id d in
      (odict_get id d,
       if bool_decide (d' = []) then delete k c else <[k := ManyBlocks d']> c)
  end.

(** ** [BlockPool] *)

(** [KVCacheEvent] (vllm/distributed/kv_events.py), medium GPU. *)
Inductive KVCacheEvent :=
  | BlockStored (stored_hashes : list ExternalBlockHash) (parent_block_hash : option ExternalBlockHash)
      (stored_token_ids : list Z) (stored_block_size : Z) (stored_lora : option LoRARequest)
      (stored_extra_keys : option (list (option (list extra_key)))) (stored_group_idx : Z)
  | BlockRemoved (removed_hashes : list ExternalBlockHash) (removed_group_idx : Z)
  | AllBlocksCleared.

Record BlockPool := {
  num_gpu_blocks : Z;
  enable_caching : bool;
  hash_block_size : Z;
  free_block_queue : qstate;
  cached_block_hash_to_block : block_map;
  cached_block_hashes_by_block : gmap Z (gset bytes);
  null_block : ref;
  enable_kv_cache_events : bool;
  use_int_block_hashes : bool;
  kv_event_queue : list KVCacheEvent;
}.

#[export] Instance BlockPool_eta : Eta BlockPool := fun p =>
  Build_BlockPool (num_gpu_blocks p) (enable_caching p) (hash_block_size p) (free_block_queue p)
    (cached_block_hash_to_block p) (cached_block_hashes_by_block p) (null_block p)
    (enable_kv_cache_events p) (use_int_block_hashes p) (kv_event_queue p).

(** The block object behind a reference. *)
Definition blk (p : BlockPool) (r : ref) : KVCacheBlock := mem (free_block_queue p) !!! r.

Definition get_blk (r : ref) : M BlockPool KVCacheBlock := gets (fun p => blk p r).

Definition on_queue {A} (m : M qstate A) : M BlockPool A :=
  zoom free_block_queue (fun q p => p <| free_block_queue := q |>) m.

Definition upd_blk (f : KVCacheBlock -> KVCacheBlock) (r : ref) : M BlockPool unit :=
  on_queue (modify (fun q => with_mem (upd f r (mem q)) q)).

Definition lift_outcome {S A} (o : outcome A) : M S A :=
  match o with Ok a => mret a | Raise e => raise e end.

Definition push_event (e : KVCacheEvent) : M BlockPool unit :=
  modify (fun p => p <| kv_event_queue := kv_event_queue p ++ [e] |>).

(** The pool before its constructor body has run, with its blocks created. *)
Definition raw_pool (n : nat) (caching : bool) (hbs : Z) (events use_int : bool) : BlockPool :=
  {| num_gpu_blocks := Z.of_nat n; enable_caching := caching; hash_block_size := hbs;
     free_block_queue := {| mem := fresh_heap n; num_free_blocks := 0 |};
     cached_block_hash_to_block := ∅; cached_block_hashes_by_block := ∅;
     null_block := Head; enable_kv_cache_events := events; use_int_block_hashes := use_int;
     kv_event_queue := [] |}.

(** [__init__(num_gpu_blocks, enable_caching, hash_block_size, ...)] *)
Definition BlockPool_init (n : nat) (caching : bool) (hbs : Z) (events use_int : bool)
    : outcome unit * BlockPool :=
  (massert (bool_decide (0 < n)) ;;
   on_queue (fq_init (Blk <$> seq 0 n)) ;;
   b ← on_queue popleft;
   modify (fun p => p <| null_block := b |>) ;;
   upd_blk (with_null true) b) (raw_pool n caching hbs events use_int).

(** [get_cached_block(block_hash, kv_cache_group_ids)] *)
Fixpoint get_cached_block (block_hash : bytes) (kv_cache_group_ids : list Z)
    : M BlockPool (option (list ref)) :=
  match kv_cache_group_ids with
  | [] => mret (Some [])
  | group_id :: rest =>
      k ← lift_outcome (make_block_hash_with_group_id block_hash group_id);
      c ← gets cached_block_hash_to_block;
      block ← lift_outcome (get_one_block c k);
      match block with
      | None => mret None
      | Some b => bs ← get_cached_block block_hash rest; mret (cons b <$> bs)
      end
  end.

(** The pops of [_remove_cached_block_hashes]. *)
Fixpoint pop_hashes (id : Z) (hashes : list bytes) : M BlockPool (list bytes) :=
  match hashes with
  | [] => mret []
  | k :: rest =>
      o ← (fun p =>
        let '(o, c) := map_pop (mem (free_block_queue p)) (cached_block_hash_to_block p) k id in
        (Ok o, p <| cached_block_hash_to_block := c |>));
      ks ← pop_hashes id rest;
      mret (match o with Some _ => k :: ks | None => ks end)
  end.

(** [_remove_cached_block_hashes(block)]; the extra hashes of a block are a set,
    iterated in some order. *)
Definition remove_cached_block_hashes (block : ref) : M BlockPool (list bytes) :=
  b ← get_blk block;
  extra ← gets (fun p => default ∅ (cached_block_hashes_by_block p !! block_id b));
  modify (fun p => p <| cached_block_hashes_by_block :=
    delete (block_id b) (cached_block_hashes_by_block p) |>) ;;
  let hashes := option_list (block_hash b) ++ elements extra in
  if bool_decide (hashes = []) then mret []
  else
    removed ← pop_hashes (block_id b) hashes;
    upd_blk (with_hash None None) block ;;
    mret removed.

(** [_emit_block_removed_events(block_hashes)] *)
Definition emit_block_removed_events (hashes : list bytes) : M BlockPool unit :=
  p ← gets id;
  if negb (enable_kv_cache_events p) then mret tt
  else mfor hashes (fun k =>
    push_event (BlockRemoved
      [maybe_convert_block_hash (use_int_block_hashes p) (get_block_hash k)] (get_group_id k))).

(** [set_block_hash(block_hash, num_tokens)] of [KVCacheBlock] *)
Definition set_block_hash (block : ref) (k : bytes) (num_tokens : option Z) : M BlockPool unit :=
  b ← get_blk block;
  massert (bool_decide (block_hash b = None) && bool_decide (block_hash_num_tokens b = None)) ;;
  upd_blk (with_hash (Some k) num_tokens) block.

(** [_insert_block_hash(key, block, num_tokens)] *)
Definition insert_block_hash (k : bytes) (block : ref) (num_tokens : option Z) : M BlockPool unit :=
  b ← get_blk block;
  p ← gets id;
  if bool_decide (block_hash b = Some k) then mret tt
  else if map_contain (mem (free_block_queue p)) (cached_block_hash_to_block p) k (block_id b)
  then mret tt
  else
    match block_hash b with
    | None => set_block_hash block k num_tokens
    | Some _ =>
        modify (fun p => p <| cached_block_hashes_by_block :=
          <[block_id b := {[k]} ∪ default ∅ (cached_block_hashes_by_block p !! block_id b)]>
            (cached_block_hashes_by_block p) |>)
    end ;;
    modify (fun p => p <| cached_block_hash_to_block :=
      map_insert (mem (free_block_queue p)) (cached_block_hash_to_block p) k block |>).

(** [_build_block_stored_event(...)] *)
Definition build_block_stored_event (request : Request) (hashes : list ExternalBlockHash)
    (parent : option ExternalBlockHash) (start_token_idx end_token_idx bs gid : Z)
    (extra_keys_list : list (option (list extra_key))) : KVCacheEvent :=
  BlockStored hashes parent (slice start_token_idx end_token_idx (all_token_ids request)) bs
    (lora_request request)
    (if bool_decide (extra_keys_list = []) then None else Some extra_keys_list) gid.

Section with_sha256.
Context (sha256 : bytes -> bytes).

(** Generate the extra keys of one block, on the request's own cache. *)
Definition request_extra_keys (request : Request) (s e idx : Z)
    : M BlockPool (option (list extra_key) * Z * Request) :=
  let '(o, request') := generate_block_hash_extra_keys sha256 s e idx request in
  '(ks, idx') ← lift_outcome o;
  mret (ks, idx', request').

(** Whether position [i] of the new blocks is masked out. *)
Definition masked_out (block_mask : option (list bool)) (i : nat) : bool :=
  match block_mask with None => false | Some m => negb (default true (m !! i)) end.

(** One iteration of the caching loop of [cache_full_blocks]. *)
Definition cache_full_body (new_block_hashes : list bytes) (num_cached_blocks bs gid : Z)
    (block_mask : option (list bool)) (new_hashes : list ExternalBlockHash) (iblk : nat * ref)
    : M BlockPool (list ExternalBlockHash) :=
  let '(i, block) := iblk in
  b ← get_blk block;
  if is_null b || masked_out block_mask i then mret new_hashes
  else
    h ← of_option IndexError (new_block_hashes !! i);
    let num_hash_tokens := ((num_cached_blocks + Z.of_nat i + 1) * bs)%Z in
    k ← lift_outcome (make_block_hash_with_group_id h gid);
    mwhen (bool_decide (block_hash b <> None))
      (massert (match block_hash_num_tokens b with
                | Some t => (t <? num_hash_tokens)%Z
                | None => false
                end) ;;
       removed ← remove_cached_block_hashes block;
       emit_block_removed_events removed) ;;
    insert_block_hash k block (Some num_hash_tokens) ;;
    p ← gets id;
    mret (if enable_kv_cache_events p
          then new_hashes ++ [maybe_convert_block_hash (use_int_block_hashes p) h]
          else new_hashes).

(** One iteration of the extra-key loop of [cache_full_blocks]. *)
Definition extra_keys_body (blocks : list ref) (num_cached_blocks bs : Z)
    (block_mask : option (list bool))
    (acc : list (option (list extra_key)) * Z * Request) (i : Z)
    : M BlockPool (list (option (list extra_key)) * Z * Request) :=
  let '(keys, curr_mm_idx, request) := acc in
  block ← of_option IndexError (pyget blocks i);
  b ← get_blk block;
  if is_null b || masked_out block_mask (Z.to_nat (i - num_cached_blocks)) then mret acc
  else
    '(ks, idx, request) ← request_extra_keys request (i * bs) (i * bs + bs) curr_mm_idx;
    mret (keys ++ [ks], idx, request).

(** [cache_full_blocks(request, blocks, num_cached_blocks, num_full_blocks, block_size,
    kv_cache_group_id, block_mask)]; returns the request, whose cache of
    embedding hashes the event keys may fill. *)
Definition cache_full_blocks (request : Request) (blocks : list ref)
    (num_cached_blocks num_full_blocks bs gid : Z) (block_mask : option (list bool))
    : M BlockPool Request :=
  if (num_full_blocks <=? num_cached_blocks)%Z then mret request
  else
    let new_full_blocks := slice num_cached_blocks num_full_blocks blocks in
    massert (match block_mask with
             | None => true
             | Some m => bool_decide (length m = length new_full_blocks)
             end) ;;
    p ← gets id;
    hashes ← lift_outcome (resolve_block_hashes (RawHashes (block_hashes request))
                             (hash_block_size p) bs false None);
    new_block_hashes ← lift_outcome (bhl_from hashes num_cached_blocks);
    new_hashes ← mfold (cache_full_body new_block_hashes num_cached_blocks bs gid block_mask) []
      (imap pair new_full_blocks);
    if enable_kv_cache_events p then
      parent ← (if (num_cached_blocks =? 0)%Z then mret None
                else h ← lift_outcome (bhl_get hashes (num_cached_blocks - 1));
                     mret (Some (maybe_convert_block_hash (use_int_block_hashes p) h)));
      '(extra_keys_list, _, request) ←
        mfold (extra_keys_body blocks num_cached_blocks bs block_mask) ([], 0%Z, request)
          (zrange num_cached_blocks num_full_blocks);
      push_event (build_block_stored_event request new_hashes parent (num_cached_blocks * bs)
        (num_full_blocks * bs) bs gid extra_keys_list) ;;
      mret request
    else mret request.

(** One iteration of the loop of [emit_cached_block_events]. *)
Definition emit_cached_body (hashes : BlockHashList) (use_int : bool) (bs : Z)
    (acc : list ExternalBlockHash * list (option (list extra_key)) * Z * Request) (i : Z)
    : M BlockPool (list ExternalBlockHash * list (option (list extra_key)) * Z * Request) :=
  let '(cached, keys, curr_mm_idx, request) := acc in
  h ← lift_outcome (bhl_get hashes i);
  '(ks, idx, request) ← request_extra_keys request (i * bs) (i * bs + bs) curr_mm_idx;
  mret (cached ++ [maybe_convert_block_hash use_int h], keys ++ [ks], idx, request).

(** [emit_cached_block_events(request, num_cached_blocks, block_size, kv_cache_group_id)] *)
Definition emit_cached_block_events (request : Request) (num_cached_blocks bs gid : Z)
    : M BlockPool Request :=
  p ← gets id;
  if negb (enable_kv_cache_events p) || (num_cached_blocks =? 0)%Z then mret request
  else
    hashes ← lift_outcome (resolve_block_hashes (RawHashes (block_hashes request))
                             (hash_block_size p) bs false None);
    '(cached, keys, _, request) ←
      mfold (emit_cached_body hashes (use_int_block_hashes p) bs) ([], [], 0%Z, request)
        (zrange 0 num_cached_blocks);
    if bool_decide (cached = []) then mret request
    else
      push_event (build_block_stored_event request cached None 0 (num_cached_blocks * bs) bs gid keys) ;;
      mret request.

(** [_get_partial_block_hash(request, num_tokens)] *)
Definition get_partial_block_hash (request : Request) (num_tokens : Z) : M BlockPool bytes :=
  p ← gets id;
  massert (num_tokens mod hash_block_size p =? 0)%Z ;;
  let num_hash_blocks := (num_tokens / hash_block_size p)%Z in
  massert ((0 <? num_hash_blocks)%Z && (num_hash_blocks <=? zlen (block_hashes request))%Z) ;;
  of_option IndexError (pyget (block_hashes request) (num_hash_blocks - 1)).

(** [_get_partial_block_parent_hash_and_start(request, num_tokens)] *)
Definition get_partial_block_parent_hash_and_start (request : Request) (num_tokens : Z)
    : M BlockPool (option bytes * Z) :=
  p ← gets id;
  let num_hash_blocks := (num_tokens / hash_block_size p)%Z in
  parent ← (if (1 <? num_hash_blocks)%Z
            then h ← of_option IndexError (pyget (block_hashes request) (num_hash_blocks - 2));
                 mret (Some h)
            else mret None);
  mret (parent, ((num_hash_blocks - 1) * hash_block_size p)%Z).

(** The event of [cache_partial_block]. *)
Definition emit_partial_stored (request : Request) (h : bytes) (num_tokens gid : Z)
    : M BlockPool Request :=
  p ← gets id;
  '(parent, block_start) ← get_partial_block_parent_hash_and_start request num_tokens;
  let curr_mm_idx := if (0 <? block_start)%Z then (-1)%Z else 0%Z in
  '(ks, _, request) ← request_extra_keys request block_start num_tokens curr_mm_idx;
  push_event (BlockStored [maybe_convert_block_hash (use_int_block_hashes p) h]
    (maybe_convert_block_hash (use_int_block_hashes p) <$> parent)
    (slice block_start num_tokens (all_token_ids request)) (num_tokens - block_start)
    (lora_request request) (Some [ks]) gid) ;;
  mret request.

(** [cache_partial_block(request, block, num_tokens, kv_cache_group_id, block_size,
    replace_existing_hashes)] *)
Definition cache_partial_block (request : Request) (block : ref) (num_tokens gid bs : Z)
    (replace_existing_hashes : bool) : M BlockPool (option bytes * Request) :=
  b ← get_blk block;
  if is_null b then mret (None, request)
  else
    p ← gets id;
    massert (bs mod hash_block_size p =? 0)%Z ;;
    massert (replace_existing_hashes ||
      ((hash_block_size p <? bs)%Z && negb (num_tokens mod bs =? 0)%Z)) ;;
    h ← get_partial_block_hash request num_tokens;
    let n := (num_tokens / hash_block_size p * hash_block_size p)%Z in
    k ← lift_outcome (make_block_hash_with_group_id h gid);
    let cached := bool_decide (block_hash b = Some k) ||
      map_contain (mem (free_block_queue p)) (cached_block_hash_to_block p) k (block_id b) in
    already_cached ←
      (if replace_existing_hashes then
         removed ← remove_cached_block_hashes block;
         emit_block_removed_events removed ;;
         mret false
       else if negb cached && bool_decide (block_hash b <> None) &&
               match block_hash_num_tokens b with Some t => (t <? n)%Z | None => false end then
         removed ← remove_cached_block_hashes block;
         emit_block_removed_events removed ;;
         mret cached
       else mret cached);
    insert_block_hash k block (Some n) ;;
    request ← (if enable_kv_cache_events p && negb already_cached
               then emit_partial_stored request h num_tokens gid
               else mret request);
    mret (Some k, request).
End with_sha256.

(** [move_block_hashes(src_block, dst_block)] *)
Definition move_block_hashes (src_block dst_block : ref) : M BlockPool unit :=
  d ← get_blk dst_block;
  massert (bool_decide (block_hash d = None)) ;;
  p ← gets id;
  massert (bool_decide (cached_block_hashes_by_block p !! block_id d = None)) ;;
  s ← get_blk src_block;
  removed ← remove_cached_block_hashes src_block;
  mfor removed (fun k => insert_block_hash k dst_block (block_hash_num_tokens s)).

(** [_maybe_evict_cached_block(block)] *)
Definition maybe_evict_cached_block (block : ref) : M BlockPool bool :=
  evicted ← remove_cached_block_hashes block;
  if bool_decide (evicted = []) then mret false
  else emit_block_removed_events evicted ;; mret true.

Definition get_num_free_blocks (p : BlockPool) : Z := num_free_blocks (free_block_queue p).

(** [ref_cnt += d] *)
Definition add_ref (d : Z) (block : ref) : M BlockPool unit :=
  upd_blk (fun b => with_ref_cnt (ref_cnt b + d) b) block.

(** The loop body of [get_new_blocks]. *)
Definition claim_block (caching : bool) (block : ref) : M BlockPool unit :=
  mwhen caching (maybe_evict_cached_block block ;; mret tt) ;;
  b ← get_blk block;
  massert (ref_cnt b =? 0)%Z ;;
  add_ref 1 block.

(** [get_new_blocks(num_blocks)] *)
Definition get_new_blocks (num_blocks : Z) : M BlockPool (list ref) :=
  p ← gets id;
  if (get_num_free_blocks p <? num_blocks)%Z then raise ValueError
  else
    ret ← on_queue (popleft_n num_blocks);
    mfor ret (claim_block (enable_caching p)) ;;
    mret ret.

(** [touch(blocks)] *)
Definition touch (blocks : list ref) : M BlockPool unit :=
  mfor blocks (fun block =>
    b ← get_blk block;
    mwhen ((ref_cnt b =? 0)%Z && negb (is_null b)) (on_queue (fq_remove block)) ;;
    add_ref 1 block).

(** [is_block_writable(block)] *)
Definition is_block_writable (p : BlockPool) (block : ref) : bool :=
  negb (is_null (blk p block)) && (ref_cnt (blk p block) =? 1)%Z &&
  bool_decide (block_hash (blk p block) = None).

(** The loop body of [free_blocks]: (evict last, evict first). *)
Definition free_body (acc : list ref * list ref) (block : ref) : M BlockPool (list ref * list ref) :=
  let '(evict_last, evict_first) := acc in
  add_ref (-1) block ;;
  b ← get_blk block;
  p ← gets id;
  mret (if (ref_cnt b =? 0)%Z && negb (is_null b) then
          if bool_decide (block_hash b = None) || negb (enable_caching p)
          then (evict_last, evict_first ++ [block])
          else (evict_last ++ [block], evict_first)
        else acc).

(** [free_blocks(ordered_blocks)] *)
Definition free_blocks (ordered_blocks : list ref) : M BlockPool unit :=
  '(evict_last, evict_first) ← mfold free_body ([], []) ordered_blocks;
  on_queue (prepend_n evict_first) ;;
  on_queue (append_n evict_last).

(** [refresh_cached_free_blocks(entries)] *)
Definition refresh_cached_free_blocks (entries : list (ref * bytes)) : M BlockPool unit :=
  p ← gets id;
  if negb (enable_caching p) then mret tt
  else mfor entries (fun e =>
    b ← get_blk e.1;
    if negb (ref_cnt b =? 0)%Z || is_null b then mret tt
    else if bool_decide (block_hash b <> Some e.2) then mret tt
    else on_queue (fq_remove e.1) ;; on_queue (fq_append e.1)).

(** [evict_blocks(block_ids)] for non-negative ids *)
Definition evict_blocks (block_ids : list nat) : M BlockPool unit :=
  mfor block_ids (fun i =>
    p ← gets id;
    massert (Z.of_nat i <? num_gpu_blocks p)%Z ;;
    maybe_evict_cached_block (Blk i) ;; mret tt).

(** [reset_prefix_cache()] *)
Definition reset_prefix_cache : M BlockPool bool :=
  p ← gets id;
  if negb (num_gpu_blocks p - get_num_free_blocks p =? 1)%Z then mret false
  else
    modify (fun p => p <| cached_block_hash_to_block := ∅ |>) ;;
    modify (fun p => p <| cached_block_hashes_by_block := ∅ |>) ;;
    mfor (seq 0 (Z.to_nat (num_gpu_blocks p))) (fun i => upd_blk (with_hash None None) (Blk i)) ;;
    mwhen (enable_kv_cache_events p) (push_event AllBlocksCleared) ;;
    mret true.

(** [get_usage()] as the fraction used / total. *)
Definition get_usage (p : BlockPool) : Z * Z :=
  let total_gpu_blocks := (num_gpu_blocks p - 1)%Z in
  if (total_gpu_blocks =? 0)%Z then (0, 1)%Z
  else (total_gpu_blocks - get_num_free_blocks p, total_gpu_blocks)%Z.

(** [take_events()] *)
Definition take_events : M BlockPool (list KVCacheEvent) :=
  p ← gets id;
  if negb (enable_kv_cache_events p) then mret []
  else modify (fun p => p <| kv_event_queue := [] |>) ;; mret (kv_event_queue p).
