(* ===== verification/BlockPoolInv.v ===== *)
(** The invariant of the block pool and the effect of its operations on it:
    the free queue holds exactly the unreferenced blocks, the prefix-cache map
    and the per-block hash metadata describe the same relation, and the null
    block stays out of both. *)
From S2P Require Import Prelude KVBlock FreeQueue Request BlockHash BlockPool.

(** ** The hash map as a relation between keys and blocks *)

Definition holders (o : option cached_blocks) : list ref :=
  match o with
  | None => []
  | Some (OneBlock b) => [b]
  | Some (ManyBlocks d) => d.*2
  end.

Definition ids_ok (n : nat) (h : heap) : Prop :=
  forall i, i < n -> block_id (h !!! Blk i) = Z.of_nat i.

(** [map_ok n h c H]: the map [c] holds block [i] under key [k] exactly when
    [k] is in [H i]. *)
Record map_ok (n : nat) (h : heap) (c : block_map) (H : nat -> gset bytes) : Prop := {
  mo_rel k r : r ∈ holders (c !! k) <-> exists i, r = Blk i /\ i < n /\ k ∈ H i;
  mo_many k d : c !! k = Some (ManyBlocks d) ->
    d <> [] /\ NoDup d.*1 /\ forall z r, (z, r) ∈ d -> block_id (h !!! r) = z;
}.

Definition fupd (H : nat -> gset bytes) (i : nat) (S : gset bytes) : nat -> gset bytes :=
  fun j => if decide (j = i) then S else H j.

Lemma fupd_eq H i S : fupd H i S i = S.
Proof. unfold fupd. by rewrite decide_True. Qed.
Lemma fupd_ne H i S j : j <> i -> fupd H i S j = H j.
Proof. intros. unfold fupd. by rewrite decide_False. Qed.

Lemma map_ok_ext n h c H H' :
  (forall i, i < n -> H' i = H i) -> map_ok n h c H -> map_ok n h c H'.
Proof.
  intros Hext [Hrel Hmany]. split; [|done]. intros k r. rewrite Hrel.
  split; intros (i & ? & Hi & ?); exists i; (rewrite Hext || rewrite <- Hext); done.
Qed.

(** The map only looks at block ids. *)
Lemma map_ok_heap n h h' c H :
  (forall r, block_id (h' !!! r) = block_id (h !!! r)) -> map_ok n h c H -> map_ok n h' c H.
Proof.
  intros Hid [Hrel Hmany]. split; [done|]. intros k d Hk.
  destruct (Hmany k d Hk) as (? & ? & Hz). split_and!; [done..|].
  intros z r Hin. rewrite Hid. by apply Hz.
Qed.

Section map_ops.
Context (n : nat) (h : heap) (c : block_map) (H : nat -> gset bytes).
Context (Hids : ids_ok n h) (Hok : map_ok n h c H).

Lemma holder_block k r : r ∈ holders (c !! k) -> exists i, r = Blk i /\ i < n /\ k ∈ H i.
Proof using Hok. apply Hok. Qed.

Lemma many_id k d z r :
  c !! k = Some (ManyBlocks d) -> (z, r) ∈ d -> exists i, r = Blk i /\ i < n /\ z = Z.of_nat i.
Proof using Hids Hok.
  intros Hk Hin. destruct (mo_many _ _ _ _ Hok k d Hk) as (_ & _ & Hz).
  destruct (holder_block k r) as (i & -> & Hi & _).
  { rewrite Hk. simpl. apply list_elem_of_fmap. by exists (z, r). }
  exists i. split_and!; [done..|]. rewrite <- (Hz z (Blk i) Hin). by apply Hids.
Qed.

Lemma many_get k d i :
  c !! k = Some (ManyBlocks d) -> i < n ->
  odict_get (Z.of_nat i) d = if decide (k ∈ H i) then Some (Blk i) else None.
Proof using Hids Hok.
  intros Hk Hi. destruct (mo_many _ _ _ _ Hok k d Hk) as (_ & Hnd & Hz). case_decide as HkH.
  - apply odict_get_nodup; [done|].
    assert (Hin : Blk i ∈ holders (c !! k)) by (apply Hok; eauto).
    rewrite Hk in Hin. simpl in Hin. apply list_elem_of_fmap in Hin as ([z r] & Hr & Hin).
    simpl in Hr. subst r. by rewrite <- (Hids i Hi), (Hz _ _ Hin).
  - apply odict_get_None. intros ([z r] & Hz' & Hin)%list_elem_of_fmap. simpl in Hz'. subst z.
    destruct (many_id k d _ r Hk Hin) as (j & -> & Hj & Hij). assert (j = i) as -> by lia.
    destruct (holder_block k (Blk i)) as (j & [= <-] & _ & ?); [|done].
    rewrite Hk. simpl. apply list_elem_of_fmap. by exists (Z.of_nat i, Blk i).
Qed.

Lemma map_contain_spec k i :
  i < n -> map_contain h c k (Z.of_nat i) = bool_decide (k ∈ H i).
Proof using Hids Hok.
  intros Hi. unfold map_contain. destruct (c !! k) as [[b|d]|] eqn:Hk.
  - destruct (holder_block k b) as (j & -> & Hj & HkH); [rewrite Hk; simpl; set_solver|].
    rewrite (Hids j Hj). destruct (decide (j = i)) as [->|Hne].
    + by rewrite Z.eqb_refl, bool_decide_eq_true_2.
    + rewrite (proj2 (Z.eqb_neq _ _)) by lia. symmetry. apply bool_decide_eq_false_2.
      intros HkH'. assert (Hin : Blk i ∈ holders (c !! k)) by (apply Hok; eauto).
      rewrite Hk in Hin. simpl in Hin. apply list_elem_of_singleton in Hin. naive_solver.
  - rewrite (many_get k d i Hk Hi). case_decide.
    + by rewrite !bool_decide_eq_true_2.
    + by rewrite !bool_decide_eq_false_2 by (done || apply is_Some_None).
  - symmetry. apply bool_decide_eq_false_2. intros HkH.
    assert (Hin : Blk i ∈ holders (c !! k)) by (apply Hok; eauto).
    rewrite Hk in Hin. simpl in Hin. set_solver.
Qed.

(** Popping a key a block holds. *)
Lemma map_pop_spec k i :
  i < n -> k ∈ H i ->
  exists c', map_pop h c k (Z.of_nat i) = (Some (Blk i), c') /\
    map_ok n h c' (fupd H i (H i ∖ {[k]})).
Proof using Hids Hok.
  intros Hi HkH. assert (Hin : Blk i ∈ holders (c !! k)) by (apply Hok; eauto).
  assert (Hother : forall k' r, k' <> k ->
    r ∈ holders (c !! k') <-> exists j, r = Blk j /\ j < n /\ k' ∈ fupd H i (H i ∖ {[k]}) j).
  { intros k' r Hk'. rewrite (mo_rel _ _ _ _ Hok). unfold fupd.
    split; intros (j & -> & Hj & Hin'); exists j; split_and!; try done; case_decide; set_solver. }
  assert (Hsame : forall r, (exists j, r = Blk j /\ j < n /\ k ∈ fupd H i (H i ∖ {[k]}) j) <->
    r ∈ holders (c !! k) /\ r <> Blk i).
  { intros r. rewrite (mo_rel _ _ _ _ Hok). unfold fupd. split.
    - intros (j & -> & Hj & Hin'). case_decide; [set_solver|]. split; [eauto|congruence].
    - intros [(j & -> & Hj & Hin') Hne]. exists j. rewrite decide_False by congruence. done. }
  unfold map_pop. destruct (c !! k) as [[b|d]|] eqn:Hk; simpl in Hin; [..|set_solver].
  - apply list_elem_of_singleton in Hin as <-. rewrite (Hids i Hi), Z.eqb_refl.
    eexists. split; [done|]. split.
    + intros k' r. destruct (decide (k' = k)) as [->|]; [|rewrite lookup_delete_ne by done; by apply Hother].
      rewrite lookup_delete_eq, Hsame, ?Hk. simpl. set_solver.
    + intros k' d' Hd'. apply lookup_delete_Some in Hd' as [_ Hd']. by eapply Hok.
  - rewrite (many_get k d i Hk Hi), decide_True by done. eexists. split; [done|].
    destruct (mo_many _ _ _ _ Hok k d Hk) as (_ & Hnd & Hz).
    assert (Hdel : forall r, r ∈ (odict_del (Z.of_nat i) d).*2 <-> r ∈ d.*2 /\ r <> Blk i).
    { intros r. rewrite !list_elem_of_fmap. split.
      - intros ([z r'] & -> & [Hin' Hne]%elem_of_odict_del). simpl in *. split; [by exists (z, r')|].
        intros ->. apply Hne. rewrite <- (Hz _ _ Hin'). by apply Hids.
      - intros [([z r'] & -> & Hin') Hne]. exists (z, r'). split; [done|].
        apply elem_of_odict_del. split; [done|]. simpl in *. intros ->.
        destruct (many_id k d _ r' Hk Hin') as (j & -> & _ & Hij). apply Hne. f_equal. lia. }
    split.
    + intros k' r. destruct (decide (k' = k)) as [->|Hne].
      * rewrite Hsame, ?Hk. simpl. rewrite <- Hdel. case_bool_decide as He.
        -- by rewrite lookup_delete_eq, He.
        -- by rewrite lookup_insert_eq.
      * rewrite <- Hother by done. case_bool_decide; by rewrite ?lookup_delete_ne, ?lookup_insert_ne.
    + intros k' d' Hd'. case_bool_decide as He.
      * apply lookup_delete_Some in Hd' as [_ Hd']. by eapply Hok.
      * apply lookup_insert_Some in Hd' as [[<- [= <-]]|[_ Hd']]; [|by eapply Hok].
        split_and!; [done| |].
        -- rewrite odict_keys_del. by apply NoDup_filter.
        -- intros z r [Hin' _]%elem_of_odict_del. by apply Hz.
Qed.

(** Inserting a key a block does not hold yet. *)
Lemma map_insert_spec k i :
  i < n -> k ∉ H i ->
  map_ok n h (map_insert h c k (Blk i)) (fupd H i ({[k]} ∪ H i)).
Proof using Hids Hok.
  intros Hi HkH.
  assert (Hnot : Blk i ∉ holders (c !! k)).
  { intros (j & [= <-] & _ & ?)%holder_block. done. }
  assert (Hadd : forall k' r,
    (exists j, r = Blk j /\ j < n /\ k' ∈ fupd H i ({[k]} ∪ H i) j) <->
    r ∈ holders (c !! k') \/ (k' = k /\ r = Blk i)).
  { intros k' r. rewrite (mo_rel _ _ _ _ Hok). unfold fupd. split.
    - intros (j & -> & Hj & Hin). case_decide; subst; set_solver.
    - intros [(j & -> & Hj & Hin)|[-> ->]]; [exists j|exists i];
        split_and!; try done; case_decide; set_solver. }
  assert (Hset : forall v, (forall r, r ∈ holders (Some v) <-> r ∈ holders (c !! k) \/ r = Blk i) ->
    (forall d, v = ManyBlocks d ->
      d <> [] /\ NoDup d.*1 /\ forall z r, (z, r) ∈ d -> block_id (h !!! r) = z) ->
    map_ok n h (<[k := v]> c) (fupd H i ({[k]} ∪ H i))).
  { intros v Hv Hd. split.
    - intros k' r. rewrite Hadd. destruct (decide (k' = k)) as [->|].
      + rewrite lookup_insert_eq, Hv. naive_solver.
      + rewrite lookup_insert_ne by done. naive_solver.
    - intros k' d' [[<- [= Hv']]|[_ Hd']]%lookup_insert_Some; [eauto|by eapply Hok]. }
  unfold map_insert. rewrite (Hids i Hi). destruct (c !! k) as [[b|d]|] eqn:Hk.
  - destruct (holder_block k b) as (j & -> & Hj & Hkj); [rewrite Hk; simpl; set_solver|].
    assert (j <> i) by (intros ->; done). rewrite (Hids j Hj). simpl.
    rewrite decide_False by lia. apply Hset; simpl; [set_solver|].
    intros d [= <-]. split_and!; [done| |].
    + simpl. apply NoDup_cons. split; [|apply NoDup_singleton]. rewrite list_elem_of_singleton. lia.
    + intros z r. rewrite !elem_of_cons. intros [[= -> ->]|[[= -> ->]|?%elem_of_nil]]; by try apply Hids.
  - destruct (mo_many _ _ _ _ Hok k d Hk) as (Hne & Hnd & Hz).
    assert (Hnone : Z.of_nat i ∉ d.*1).
    { apply odict_get_None. by rewrite (many_get k d i Hk Hi), decide_False. }
    rewrite odict_set_new by done. apply Hset; simpl.
    + intros r. rewrite fmap_app. simpl. set_solver.
    + intros d' [= <-]. split_and!; [by destruct d| |].
      * rewrite fmap_app. simpl. apply NoDup_app. split_and!; [done|set_solver|apply NoDup_singleton].
      * intros z r. rewrite elem_of_app, list_elem_of_singleton. intros [?|[= -> ->]]; [by apply Hz|by apply Hids].
  - apply Hset; simpl; [set_solver|done].
Qed.

(** A lookup returns some block that holds the key, and finds one when there is one. *)
Lemma get_one_block_spec k :
  (exists i, get_one_block c k = Ok (Some (Blk i)) /\ i < n /\ k ∈ H i) \/
  (get_one_block c k = Ok None /\ forall i, i < n -> k ∉ H i).
Proof using Hids Hok.
  unfold get_one_block. pose proof (fun r => mo_rel _ _ _ _ Hok k r) as Hrel.
  destruct (c !! k) as [[b|d]|] eqn:Hk; simpl in Hrel.
  - left. destruct (proj1 (Hrel b)) as (i & -> & ? & ?); [set_solver|]. eauto.
  - left. destruct (mo_many _ _ _ _ Hok k d Hk) as (Hne & _). destruct d as [|[z r] d]; [done|].
    destruct (proj1 (Hrel r)) as (i & -> & ? & ?); [set_solver|]. eauto.
  - right. split; [done|]. intros i Hi HkH.
    assert (Hin : Blk i ∈ @nil ref) by (apply Hrel; eauto). by apply elem_of_nil in Hin.
Qed.
End map_ops.

(** ** The pool invariant *)

Definition opt_set (o : option bytes) : gset bytes :=
  match o with None => ∅ | Some k => {[k]} end.

(** All keys block [i] is registered under: its own hash and the extra ones. *)
Definition hashes_of (p : BlockPool) (i : nat) : gset bytes :=
  opt_set (block_hash (blk p (Blk i))) ∪
  default ∅ (cached_block_hashes_by_block p !! Z.of_nat i).

Abbreviation pool_mem p := (mem (free_block_queue p)).

(** The prefix cache: the map lists exactly the keys the blocks carry, extra
    keys only sit on top of a block's own hash, the null block carries none. *)
Record cache_ok (n : nat) (p : BlockPool) : Prop := {
  co_ids : ids_ok n (pool_mem p);
  co_map : map_ok n (pool_mem p) (cached_block_hash_to_block p) (hashes_of p);
  co_extra z S : cached_block_hashes_by_block p !! z = Some S ->
    exists i k, z = Z.of_nat i /\ i < n /\ block_hash (blk p (Blk i)) = Some k /\ k ∉ S;
  co_null : block_hash (blk p (Blk 0)) = None;
  co_tokens i : i < n -> block_hash (blk p (Blk i)) = None ->
    block_hash_num_tokens (blk p (Blk i)) = None;
}.

(** The free queue: exactly the unreferenced blocks, in eviction order [fl];
    [pend] lists the unreferenced blocks an operation holds off the queue. *)
Record free_ok (n : nat) (p : BlockPool) (fl pend : list nat) : Prop := {
  fo_repr : repr (free_block_queue p) fl;
  fo_nodup : NoDup (fl ++ pend);
  fo_free i : i ∈ fl ++ pend <-> 0 < i < n /\ ref_cnt (blk p (Blk i)) = 0%Z;
  fo_ref i : 0 < i < n -> (0 <= ref_cnt (blk p (Blk i)))%Z;
  fo_null i : i < n -> is_null (blk p (Blk i)) = bool_decide (i = 0);
  fo_null_ref : null_block p = Blk 0;
  fo_num : num_gpu_blocks p = Z.of_nat n;
  fo_pos : 0 < n;
}.

Definition pool_ok (n : nat) (p : BlockPool) (fl : list nat) : Prop :=
  cache_ok n p /\ free_ok n p fl [].

(** *** Frames *)

Definition same_config (p p' : BlockPool) : Prop :=
  num_gpu_blocks p' = num_gpu_blocks p /\ enable_caching p' = enable_caching p /\
  hash_block_size p' = hash_block_size p /\ null_block p' = null_block p /\
  enable_kv_cache_events p' = enable_kv_cache_events p /\
  use_int_block_hashes p' = use_int_block_hashes p.

(** What the prefix-cache operations leave alone. *)
Record cache_step (p p' : BlockPool) : Prop := {
  cs_config : same_config p p';
  cs_num : num_free_blocks (free_block_queue p') = num_free_blocks (free_block_queue p);
  cs_links : same_links (pool_mem p) (pool_mem p');
  cs_id r : block_id (blk p' r) = block_id (blk p r);
  cs_ref r : ref_cnt (blk p' r) = ref_cnt (blk p r);
  cs_null r : is_null (blk p' r) = is_null (blk p r);
}.

(** What the free-queue and reference-count operations leave alone. *)
Record queue_step (p p' : BlockPool) : Prop := {
  qs_config : same_config p p';
  qs_cache : cached_block_hash_to_block p' = cached_block_hash_to_block p;
  qs_extra : cached_block_hashes_by_block p' = cached_block_hashes_by_block p;
  qs_id r : block_id (blk p' r) = block_id (blk p r);
  qs_hash r : block_hash (blk p' r) = block_hash (blk p r);
  qs_tok r : block_hash_num_tokens (blk p' r) = block_hash_num_tokens (blk p r);
  qs_null r : is_null (blk p' r) = is_null (blk p r);
}.

#[export] Instance same_config_refl : Reflexive same_config.
Proof. done. Qed.
#[export] Instance same_config_trans : Transitive same_config.
Proof. unfold same_config. intros p1 p2 p3. naive_solver congruence. Qed.
#[export] Instance cache_step_refl : Reflexive cache_step.
Proof. done. Qed.
#[export] Instance cache_step_trans : Transitive cache_step.
Proof.
  intros p1 p2 p3 [] []. split; intros; try congruence; etrans; eassumption.
Qed.
#[export] Instance queue_step_refl : Reflexive queue_step.
Proof. done. Qed.
#[export] Instance queue_step_trans : Transitive queue_step.
Proof.
  intros p1 p2 p3 [] []. split; intros; try congruence; etrans; eassumption.
Qed.

Lemma repr_same_links s s' l :
  same_links (mem s) (mem s') -> num_free_blocks s' = num_free_blocks s -> repr s l -> repr s' l.
Proof.
  intros Hl Hn [Hd Hnd Ht Hnum Hout]. split; [|done| |congruence|].
  - eapply dseg_frame; [..|exact Hd]; intros; apply Hl.
  - by rewrite (proj1 (Hl _)).
  - intros i Hi. destruct (Hl (Blk i)) as [-> ->]. auto.
Qed.

Lemma free_ok_cache_step n p p' fl pend :
  cache_step p p' -> free_ok n p fl pend -> free_ok n p' fl pend.
Proof.
  intros [(? & ? & ? & ? & ? & ?) ? ? ? Hr Hn] []. split; intros; rewrite ?Hr, ?Hn; auto; try congruence.
  by eapply repr_same_links.
Qed.

Lemma hashes_of_queue_step p p' i : queue_step p p' -> hashes_of p' i = hashes_of p i.
Proof. intros []. unfold hashes_of. congruence. Qed.

Lemma cache_ok_queue_step n p p' : queue_step p p' -> cache_ok n p -> cache_ok n p'.
Proof.
  intros Hs [Hi Hm He Hn Ht]. pose proof Hs as [_ Hc Hx Hid Hh Htok _]. split.
  - intros i Hi'. rewrite <- (Hi i Hi'). apply (Hid (Blk i)).
  - rewrite Hc. eapply map_ok_heap; [exact Hid|]. eapply map_ok_ext; [|exact Hm].
    intros. by apply hashes_of_queue_step.
  - intros z S. rewrite Hx. intros (i & k & ?)%He. exists i, k. by rewrite Hh.
  - by rewrite Hh.
  - intros i Hi'. rewrite Hh, Htok. by apply Ht.
Qed.

(** ** Prefix-cache operations *)

Definition pool_upd (f : KVCacheBlock -> KVCacheBlock) (r : ref) (p : BlockPool) : BlockPool :=
  p <| free_block_queue := with_mem (upd f r (pool_mem p)) (free_block_queue p) |>.

Lemma wp_upd_blk f r Q p : wp (upd_blk f r) Q p <-> Q tt (pool_upd f r p).
Proof. done. Qed.

Lemma wp_get_blk r Q p : wp (get_blk r) Q p <-> Q (blk p r) p.
Proof. done. Qed.

Lemma wp_lift_outcome {S A} (o : outcome A) Q (s : S) :
  wp (lift_outcome o) Q s <-> exists a, o = Ok a /\ Q a s.
Proof. destruct o; unfold wp; simpl; naive_solver. Qed.

Ltac pool_step :=
  first [rewrite wp_upd_blk | rewrite wp_get_blk | wp_step | rewrite wp_lift_outcome].
Ltac pool_steps := repeat (pool_step; cbv beta).

Lemma blk_pool_upd f r p r' :
  blk (pool_upd f r p) r' = if decide (r = r') then f (blk p r) else blk p r'.
Proof. apply upd_lookup. Qed.

Lemma fupd_fupd_minus H i A B j :
  fupd (fupd H i (H i ∖ A)) i (fupd H i (H i ∖ A) i ∖ B) j = fupd H i (H i ∖ (A ∪ B)) j.
Proof. unfold fupd. repeat case_decide; try done. set_solver. Qed.

Lemma pop_hashes_spec n i ks H p :
  i < n -> ids_ok n (pool_mem p) ->
  map_ok n (pool_mem p) (cached_block_hash_to_block p) H ->
  NoDup ks -> (forall k, k ∈ ks -> k ∈ H i) ->
  wp (pop_hashes (Z.of_nat i) ks) (fun r p' => r = ks /\
    exists c', p' = p <| cached_block_hash_to_block := c' |> /\
      map_ok n (pool_mem p) c' (fupd H i (H i ∖ list_to_set ks))) p.
Proof.
  revert H p. induction ks as [|k ks IH]; intros H p Hi Hids Hok Hnd Hin.
  - simpl. rewrite wp_ret. split; [done|]. exists (cached_block_hash_to_block p).
    split; [by destruct p|]. eapply map_ok_ext; [|exact Hok].
    intros j _. unfold fupd. case_decide; set_solver.
  - apply NoDup_cons in Hnd as [Hk Hnd].
    destruct (map_pop_spec n (pool_mem p) _ H Hids Hok k i Hi) as (c' & Hpop & Hok'); [set_solver|].
    simpl. rewrite wp_bind. unfold wp at 1. rewrite Hpop. rewrite wp_bind.
    eapply wp_mono.
    { apply (IH (fupd H i (H i ∖ {[k]}))); [done..|].
      intros k' Hk'. rewrite fupd_eq. set_solver. }
    intros r p' (-> & c'' & -> & Hok''). rewrite wp_ret. split; [done|].
    exists c''. split; [by destruct p|]. eapply map_ok_ext; [|exact Hok''].
    intros j _. by rewrite fupd_fupd_minus.
Qed.

(** What the cache operations establish: the new key sets, and nothing else moved. *)
Definition cache_post (n : nat) (p : BlockPool) (H : nat -> gset bytes) (p' : BlockPool) : Prop :=
  cache_step p p' /\ cache_ok n p' /\ forall i, i < n -> hashes_of p' i = H i.

Lemma cache_step_pool_upd f r p :
  (forall b, meta (f b) = (block_id b, ref_cnt b, (meta (f b)).1.1.2, (meta (f b)).1.2, is_null b)) ->
  (forall b, next_free_block (f b) = next_free_block b) ->
  (forall b, prev_free_block (f b) = prev_free_block b) ->
  cache_step p (pool_upd f r p).
Proof.
  intros Hm Hn Hp. split; try done.
  - by apply same_links_upd.
  - intros r'. rewrite blk_pool_upd. case_decide; [subst|done]. specialize (Hm (blk p r')). by injection Hm.
  - intros r'. rewrite blk_pool_upd. case_decide; [subst|done]. specialize (Hm (blk p r')). by injection Hm.
  - intros r'. rewrite blk_pool_upd. case_decide; [subst|done]. specialize (Hm (blk p r')). by injection Hm.
Qed.

Lemma cache_step_with_hash k t r p : cache_step p (pool_upd (with_hash k t) r p).
Proof. by apply cache_step_pool_upd. Qed.

Lemma cache_step_maps p c e :
  cache_step p (p <| cached_block_hash_to_block := c |> <| cached_block_hashes_by_block := e |>).
Proof. done. Qed.

(** The keys of a block in the order they are removed. *)
Definition keys_of (p : BlockPool) (i : nat) : list bytes :=
  option_list (block_hash (blk p (Blk i))) ++
  elements (default ∅ (cached_block_hashes_by_block p !! Z.of_nat i)).

Lemma keys_of_set p i : list_to_set (keys_of p i) = hashes_of p i.
Proof.
  unfold keys_of, hashes_of, opt_set. rewrite list_to_set_app_L, list_to_set_elements_L.
  f_equal. destruct (block_hash _); simpl; set_solver.
Qed.

Lemma elem_of_keys_of p i k : k ∈ keys_of p i <-> k ∈ hashes_of p i.
Proof. rewrite <- keys_of_set. by rewrite elem_of_list_to_set. Qed.

Lemma keys_of_nodup n p i : cache_ok n p -> NoDup (keys_of p i).
Proof.
  intros Hok. apply NoDup_app. split_and!; [|..|apply NoDup_elements].
  - destruct (block_hash _); simpl; [apply NoDup_singleton|apply NoDup_nil_2].
  - intros k Hk Hin. apply elem_of_elements in Hin.
    destruct (cached_block_hashes_by_block p !! _) as [S|] eqn:HS; simpl in Hin; [|set_solver].
    destruct (co_extra _ _ Hok _ _ HS) as (j & k' & Hij & _ & Hb & Hk').
    assert (j = i) as -> by lia. rewrite Hb in Hk. simpl in Hk. set_solver.
Qed.

(** A change confined to the keys of block [i]. *)
Lemma cache_ok_change n p p' i :
  i < n -> cache_ok n p -> cache_step p p' ->
  (forall r, r <> Blk i -> blk p' r = blk p r) ->
  (forall z, z <> Z.of_nat i ->
    cached_block_hashes_by_block p' !! z = cached_block_hashes_by_block p !! z) ->
  map_ok n (pool_mem p) (cached_block_hash_to_block p') (fupd (hashes_of p) i (hashes_of p' i)) ->
  (forall S, cached_block_hashes_by_block p' !! Z.of_nat i = Some S ->
    exists k, block_hash (blk p' (Blk i)) = Some k /\ k ∉ S) ->
  (block_hash (blk p' (Blk i)) = None -> block_hash_num_tokens (blk p' (Blk i)) = None) ->
  (i = 0 -> block_hash (blk p' (Blk i)) = None) ->
  cache_post n p (fupd (hashes_of p) i (hashes_of p' i)) p'.
Proof.
  intros Hi [Hids Hm Hx Hnull Htok] Hs Hblk Hext Hm' HS Ht H0.
  assert (HH : forall j, j < n -> hashes_of p' j = fupd (hashes_of p) i (hashes_of p' i) j).
  { intros j _. unfold fupd. case_decide; [by subst|]. unfold hashes_of.
    rewrite Hblk by congruence. rewrite Hext by lia. done. }
  split; [done|]. split; [split|done].
  - intros j Hj. rewrite <- (Hids j Hj). apply (cs_id _ _ Hs (Blk j)).
  - eapply map_ok_ext; [apply HH|]. eapply map_ok_heap; [apply (cs_id _ _ Hs)|done].
  - intros z S Hz. destruct (decide (z = Z.of_nat i)) as [->|Hne].
    + destruct (HS S Hz) as (k & ? & ?). by exists i, k.
    + rewrite Hext in Hz by done. destruct (Hx z S Hz) as (j & k & -> & ? & ? & ?).
      exists j, k. rewrite Hblk by (intros [= ->]; done). done.
  - destruct (decide (i = 0)) as [->|]; [by apply H0|]. rewrite Hblk by congruence. done.
  - intros j Hj. destruct (decide (j = i)) as [->|]; [done|].
    rewrite Hblk by congruence. by apply Htok.
Qed.

Lemma blk_id n p i : cache_ok n p -> i < n -> block_id (blk p (Blk i)) = Z.of_nat i.
Proof. intros Hok Hi. by apply (co_ids _ _ Hok). Qed.

(** What removal leaves: block [i] without keys, every other block untouched. *)
Definition unhashed (n i : nat) (p p' : BlockPool) : Prop :=
  cache_post n p (fupd (hashes_of p) i ∅) p' /\
  (forall r, r <> Blk i -> blk p' r = blk p r) /\
  block_hash (blk p' (Blk i)) = None /\
  kv_event_queue p' = kv_event_queue p.

Lemma remove_cached_block_hashes_spec n p i :
  cache_ok n p -> i < n ->
  wp (remove_cached_block_hashes (Blk i))
    (fun removed p' => removed = keys_of p i /\ unhashed n i p p') p.
Proof.
  intros Hok Hi. unfold remove_cached_block_hashes. pool_steps.
  rewrite (blk_id n p i Hok Hi). fold (keys_of p i).
  set (p1 := p <| cached_block_hashes_by_block := _ |>).
  assert (Hpost : forall p', cache_step p p' -> (forall r, r <> Blk i -> blk p' r = blk p r) ->
    block_hash (blk p' (Blk i)) = None -> block_hash_num_tokens (blk p' (Blk i)) = None ->
    cached_block_hashes_by_block p' = cached_block_hashes_by_block p1 ->
    map_ok n (pool_mem p) (cached_block_hash_to_block p') (fupd (hashes_of p) i ∅) ->
    kv_event_queue p' = kv_event_queue p -> unhashed n i p p').
  { intros p' Hs Hblk Hn Ht Hx Hm Hev.
    assert (He : hashes_of p' i = ∅).
    { unfold hashes_of. rewrite Hn, Hx. simpl. rewrite lookup_delete_eq. simpl. set_solver. }
    split_and!; [|done..]. rewrite <- He. apply cache_ok_change; try done.
    - intros z Hz. rewrite Hx. simpl. by rewrite lookup_delete_ne.
    - by rewrite He.
    - intros S. rewrite Hx. simpl. by rewrite lookup_delete_eq. }
  case_bool_decide as Hnil.
  - rewrite wp_ret. split; [done|].
    assert (He : hashes_of p i = ∅) by (rewrite <- keys_of_set, Hnil; done).
    assert (Hn : block_hash (blk p (Blk i)) = None).
    { destruct (block_hash _) eqn:E; [|done]. unfold keys_of in Hnil. by rewrite E in Hnil. }
    apply Hpost; try done; [by apply (co_tokens n p Hok)|].
    eapply map_ok_ext; [|apply Hok]. intros j _. unfold fupd. case_decide; congruence.
  - rewrite wp_bind. eapply wp_mono.
    { apply (pop_hashes_spec n i _ (hashes_of p)); try apply Hok; try done.
      - by eapply keys_of_nodup.
      - intros k. by rewrite elem_of_keys_of. }
    intros r p2 (-> & c' & -> & Hm). pool_steps. split; [done|].
    rewrite keys_of_set in Hm. apply Hpost; try done.
    + eapply cache_step_trans; [|apply cache_step_with_hash]. done.
    + intros r Hr. rewrite blk_pool_upd, decide_False by done. done.
    + by rewrite blk_pool_upd, decide_True.
    + by rewrite blk_pool_upd, decide_True.
    + eapply map_ok_ext; [|exact Hm]. intros j _. unfold fupd. case_decide; set_solver.
Qed.

(** What insertion leaves: block [i] with [k] added, every other block untouched. *)
Definition hashed (n i : nat) (k : bytes) (p p' : BlockPool) : Prop :=
  cache_post n p (fupd (hashes_of p) i ({[k]} ∪ hashes_of p i)) p' /\
  (forall r, r <> Blk i -> blk p' r = blk p r) /\
  block_hash (blk p' (Blk i)) = Some (default k (block_hash (blk p (Blk i)))) /\
  kv_event_queue p' = kv_event_queue p.

Lemma co_extra_at n p i S :
  cache_ok n p -> cached_block_hashes_by_block p !! Z.of_nat i = Some S ->
  exists k, block_hash (blk p (Blk i)) = Some k /\ k ∉ S.
Proof.
  intros Hok HS. destruct (co_extra _ _ Hok _ _ HS) as (j & k & Hij & _ & ?).
  assert (j = i) as -> by lia. eauto.
Qed.

Lemma extras_unhashed n p i :
  cache_ok n p -> block_hash (blk p (Blk i)) = None ->
  cached_block_hashes_by_block p !! Z.of_nat i = None.
Proof.
  intros Hok Hb. destruct (_ !! _) as [S|] eqn:HS; [|done].
  destruct (co_extra_at _ _ _ _ Hok HS) as (k & ? & _). congruence.
Qed.

(** The branch of [_insert_block_hash] for a block that already has a hash. *)
Lemma insert_extra_spec n p i k k0 :
  cache_ok n p -> 0 < i < n -> k ∉ hashes_of p i -> block_hash (blk p (Blk i)) = Some k0 ->
  hashed n i k p
    (p <| cached_block_hashes_by_block := <[Z.of_nat i :=
           {[k]} ∪ default ∅ (cached_block_hashes_by_block p !! Z.of_nat i)]>
             (cached_block_hashes_by_block p) |>
       <| cached_block_hash_to_block :=
           map_insert (pool_mem p) (cached_block_hash_to_block p) k (Blk i) |>).
Proof.
  intros Hok Hi Hk Hb0. set (e := {[k]} ∪ _). set (p' := _ <| cached_block_hash_to_block := _ |>).
  assert (Hblk : forall r, blk p' r = blk p r) by done.
  assert (HH : hashes_of p' i = {[k]} ∪ hashes_of p i).
  { unfold hashes_of. rewrite Hblk, Hb0. simpl. rewrite lookup_insert_eq. simpl.
    subst e. set_solver. }
  split_and!; [|done|by rewrite Hblk, Hb0|done].
  rewrite <- HH. apply cache_ok_change; rewrite ?Hblk; try done; try lia.
  - intros z Hz. simpl. by rewrite lookup_insert_ne.
  - rewrite HH. apply map_insert_spec; try apply Hok; (done || lia).
  - intros S. simpl. rewrite lookup_insert_eq. intros [= <-].
    exists k0. split; [done|]. unfold hashes_of in Hk. rewrite Hb0 in Hk. simpl in Hk.
    intros [Hk0%elem_of_singleton|Hk0]%elem_of_union; [set_solver|].
    destruct (_ !! _) as [S|] eqn:HS; simpl in Hk0; [|set_solver].
    destruct (co_extra_at _ _ _ _ Hok HS) as (k' & ? & ?). congruence.
  - congruence.
Qed.

(** The branch for a block without a hash. *)
Lemma insert_primary_spec n p i k t :
  cache_ok n p -> 0 < i < n -> block_hash (blk p (Blk i)) = None ->
  let p1 := pool_upd (with_hash (Some k) t) (Blk i) p in
  hashed n i k p
    (p1 <| cached_block_hash_to_block :=
           map_insert (pool_mem p1) (cached_block_hash_to_block p1) k (Blk i) |>).
Proof.
  intros Hok Hi Hb0 p1. set (p' := _ <| cached_block_hash_to_block := _ |>).
  pose proof (extras_unhashed _ _ _ Hok Hb0) as Hx.
  assert (Hblk : forall r, blk p' r = blk p1 r) by done.
  assert (Hbi : blk p' (Blk i) = with_hash (Some k) t (blk p (Blk i)))
    by by rewrite Hblk; unfold p1; rewrite blk_pool_upd, decide_True.
  assert (HH : hashes_of p' i = {[k]} ∪ hashes_of p i).
  { unfold hashes_of. rewrite Hbi, Hb0. simpl. rewrite Hx. simpl. set_solver. }
  assert (Hne : forall r, r <> Blk i -> blk p' r = blk p r).
  { intros r Hr. rewrite Hblk. unfold p1. by rewrite blk_pool_upd, decide_False. }
  split_and!; [|done|by rewrite Hbi, Hb0|done].
  pose proof (cache_step_with_hash (Some k) t (Blk i) p) as Hs.
  rewrite <- HH. apply cache_ok_change; rewrite ?Hbi; try done; try lia.
  - eapply cache_step_trans; [exact Hs|done].
  - rewrite HH.
    assert (He : cached_block_hash_to_block p' =
              map_insert (pool_mem p) (cached_block_hash_to_block p) k (Blk i)).
    { simpl. unfold map_insert. pose proof (cs_id _ _ Hs) as Hid.
      unfold blk, pool_upd in Hid. simpl in Hid. simpl. rewrite Hid.
      destruct (_ !! k) as [[]|]; rewrite ?Hid; done. }
    rewrite He. apply map_insert_spec; try apply Hok; [lia|].
    unfold hashes_of. rewrite Hb0, Hx. simpl. set_solver.
  - intros S. simpl. by rewrite Hx.
Qed.

Lemma insert_block_hash_spec n p i k t :
  cache_ok n p -> 0 < i < n ->
  wp (insert_block_hash k (Blk i) t) (fun _ p' => hashed n i k p p') p.
Proof.
  intros Hok Hi. unfold insert_block_hash. pool_steps. rewrite (blk_id n p i Hok) by lia.
  assert (Hkeep : k ∈ hashes_of p i -> hashed n i k p p).
  { intros Hk. split_and!; [|done| |done].
    - split; [done|]. split; [done|]. intros j _. unfold fupd. case_decide; [subst; set_solver|done].
    - destruct (block_hash (blk p (Blk i))) eqn:Hb; [done|]. exfalso. revert Hk.
      unfold hashes_of. rewrite Hb, (extras_unhashed n) by done. simpl. set_solver. }
  case_bool_decide as Hb.
  { rewrite wp_ret. apply Hkeep. unfold hashes_of. rewrite Hb. set_solver. }
  rewrite (map_contain_spec n _ _ (hashes_of p)) by (apply Hok || lia).
  case_bool_decide as Hk; [rewrite wp_ret; auto|].
  rewrite wp_bind. destruct (block_hash (blk p (Blk i))) as [k0|] eqn:Hb0.
  - pool_steps. exact (insert_extra_spec n p i k k0 Hok Hi Hk Hb0).
  - unfold set_block_hash. pool_steps. rewrite Hb0, (co_tokens n p Hok) by (done || lia).
    split; [done|]. pool_steps. exact (insert_primary_spec n p i k t Hok Hi Hb0).
Qed.

(** *** Events *)

Definition removed_events (p : BlockPool) (ks : list bytes) : list KVCacheEvent :=
  if enable_kv_cache_events p then
    (fun k => BlockRemoved [maybe_convert_block_hash (use_int_block_hashes p) (get_block_hash k)]
                (get_group_id k)) <$> ks
  else [].

Lemma removed_events_config p p' ks : same_config p p' -> removed_events p' ks = removed_events p ks.
Proof. intros (_ & _ & _ & _ & He & Hu). unfold removed_events. by rewrite He, Hu. Qed.

Lemma removed_events_app p ks ks' :
  removed_events p (ks ++ ks') = removed_events p ks ++ removed_events p ks'.
Proof. unfold removed_events. destruct (enable_kv_cache_events p); [apply fmap_app|done]. Qed.

Lemma mfor_push_event {A} (f : A -> KVCacheEvent) l p :
  mfor l (fun x => push_event (f x)) p = (Ok tt, p <| kv_event_queue := kv_event_queue p ++ (f <$> l) |>).
Proof.
  revert p. induction l as [|x l IH]; intros p.
  - simpl. rewrite app_nil_r. by destruct p.
  - simpl. unfold mbind, M_bind, push_event at 1, modify. rewrite IH. simpl.
    by rewrite <- app_assoc.
Qed.

Lemma emit_block_removed_events_eq ks p :
  emit_block_removed_events ks p =
    (Ok tt, p <| kv_event_queue := kv_event_queue p ++ removed_events p ks |>).
Proof.
  unfold emit_block_removed_events, removed_events, mbind, M_bind. simpl.
  destruct (enable_kv_cache_events p); simpl.
  - apply (mfor_push_event (fun k => BlockRemoved
      [maybe_convert_block_hash (use_int_block_hashes p) (get_block_hash k)] (get_group_id k))).
  - rewrite app_nil_r. by destruct p.
Qed.

Lemma wp_emit_removed ks Q p :
  wp (emit_block_removed_events ks) Q p <->
  Q tt (p <| kv_event_queue := kv_event_queue p ++ removed_events p ks |>).
Proof. unfold wp. by rewrite emit_block_removed_events_eq. Qed.

Lemma cache_step_events p e : cache_step p (p <| kv_event_queue := e |>).
Proof. done. Qed.

Lemma queue_step_events p e : queue_step p (p <| kv_event_queue := e |>).
Proof. done. Qed.

Lemma cache_post_trans n p1 H1 p2 H2 p3 :
  cache_post n p1 H1 p2 -> cache_post n p2 H2 p3 -> cache_post n p1 H2 p3.
Proof. intros (? & _ & _) (? & ? & ?). split_and!; [by etrans|done..]. Qed.

Lemma cache_post_events n p H p' e :
  cache_post n p H p' -> cache_post n p H (p' <| kv_event_queue := e |>).
Proof.
  intros (Hs & Hok & HH). split_and!.
  - etrans; [exact Hs|apply cache_step_events].
  - eapply cache_ok_queue_step; [apply queue_step_events|done].
  - exact HH.
Qed.

(** What an eviction leaves: block [i] without keys, one removal event per key. *)
Definition evicted (n i : nat) (p p' : BlockPool) : Prop :=
  cache_post n p (fupd (hashes_of p) i ∅) p' /\
  (forall r, r <> Blk i -> blk p' r = blk p r) /\
  block_hash (blk p' (Blk i)) = None /\
  kv_event_queue p' = kv_event_queue p ++ removed_events p (keys_of p i).

(** Removing the keys of a block and announcing it. *)
Lemma remove_and_emit_spec n p i Q :
  cache_ok n p -> i < n ->
  (forall p', evicted n i p p' -> Q tt p') ->
  wp (removed ← remove_cached_block_hashes (Blk i); emit_block_removed_events removed) Q p.
Proof.
  intros Hok Hi HQ. rewrite wp_bind. eapply wp_mono; [by apply (remove_cached_block_hashes_spec n)|].
  intros r p' (-> & Hpost & Hblk & Hn & Hev). rewrite wp_emit_removed. apply HQ. split_and!; try done.
  - by apply cache_post_events.
  - simpl. by rewrite Hev, (removed_events_config p p') by apply Hpost.
Qed.

Lemma maybe_evict_spec n p i :
  cache_ok n p -> i < n ->
  wp (maybe_evict_cached_block (Blk i))
    (fun b p' => b = bool_decide (keys_of p i <> []) /\ evicted n i p p') p.
Proof.
  intros Hok Hi. unfold maybe_evict_cached_block. rewrite wp_bind.
  eapply wp_mono; [by apply (remove_cached_block_hashes_spec n)|].
  intros r p' (-> & Hpost & Hblk & Hn & Hev). case_bool_decide as Hk.
  - rewrite wp_ret, Hk. split; [done|]. split_and!; try done.
    rewrite Hev, Hk. unfold removed_events. by destruct (enable_kv_cache_events p); rewrite app_nil_r.
  - rewrite wp_bind, wp_emit_removed, wp_ret. split; [by rewrite bool_decide_true|].
    split_and!; try done; [by apply cache_post_events|].
    simpl. by rewrite Hev, (removed_events_config p p') by apply Hpost.
Qed.
