(* ===== verification/BlockPoolSpec.v ===== *)
(** What each operation of [BlockPool] (vllm/v1/core/block_pool.py) does to an
    abstract pool: the eviction order of the free blocks, the reference counts,
    the keys each block is cached under and the events announced. *)
From S2P Require Import Prelude KVBlock FreeQueue Request BlockHash BlockPool BlockPoolInv.

(** ** Queue and reference-count steps *)

Abbreviation refs p i := (ref_cnt (blk p (Blk i))).

Lemma queue_post_step p l' s' :
  queue_post (free_block_queue p) l' s' ->
  queue_step p (p <| free_block_queue := s' |>) /\
  (forall i, refs (p <| free_block_queue := s' |>) i = refs p i).
Proof.
  intros [_ Hm]. unfold blk, same_meta, meta in *.
  split; [split; try done|]; intros r; simpl; specialize (Hm r) || specialize (Hm (Blk r));
    by injection Hm.
Qed.

Lemma wp_on_queue {A} (m : M qstate A) (R : A -> Prop) l' Q p :
  wp m (fun a s' => R a /\ queue_post (free_block_queue p) l' s') (free_block_queue p) ->
  (forall a p', R a -> queue_step p p' -> (forall i, refs p' i = refs p i) ->
     kv_event_queue p' = kv_event_queue p -> repr (free_block_queue p') l' -> Q a p') ->
  wp (on_queue m) Q p.
Proof.
  intros Hm HQ. unfold on_queue. rewrite wp_zoom. eapply wp_mono; [exact Hm|].
  intros a s' [HR Hq]. destruct (queue_post_step _ _ _ Hq). apply HQ; try done. apply Hq.
Qed.

Lemma add_ref_step d r p :
  let p' := pool_upd (fun b => with_ref_cnt (ref_cnt b + d) b) r p in
  queue_step p p' /\
  (forall i, refs p' i = if decide (r = Blk i) then (refs p i + d)%Z else refs p i) /\
  (forall l, repr (free_block_queue p) l -> repr (free_block_queue p') l).
Proof.
  intros p'. split_and!.
  - split; try done; intros r'; unfold p'; rewrite blk_pool_upd; case_decide; subst; done.
  - intros i. unfold p'. rewrite blk_pool_upd. case_decide; subst; done.
  - intros l. apply repr_same_links; [|done]. by apply same_links_upd.
Qed.

(** ** [get_new_blocks] *)

(** Effect of claiming the blocks [l]. *)
Record claimed (n : nat) (caching : bool) (l : list nat) (p p' : BlockPool) : Prop := {
  cl_config : same_config p p';
  cl_ref i : refs p' i = if decide (i ∈ l) then 1%Z else refs p i;
  cl_hash i : i < n ->
    hashes_of p' i = if decide (i ∈ l) then if caching then ∅ else hashes_of p i else hashes_of p i;
  cl_keys i : i < n -> i ∉ l -> keys_of p' i = keys_of p i;
  cl_events : kv_event_queue p' = kv_event_queue p ++
    removed_events p (if caching then concat (keys_of p <$> l) else []);
}.

Lemma keys_of_other n p p' i j :
  cache_ok n p -> cache_ok n p' -> i < n -> j <> i ->
  (forall r, r <> Blk i -> blk p' r = blk p r) ->
  hashes_of p' j = hashes_of p j -> keys_of p' j = keys_of p j.
Proof.
  intros Hok Hok' Hi Hj Hblk HH. unfold keys_of, hashes_of in *. rewrite Hblk in * by congruence.
  f_equal. f_equal.
  destruct (block_hash (blk p (Blk j))) as [k|] eqn:Hb.
  - simpl in HH.
    assert (Hno : forall q, cache_ok n q -> block_hash (blk q (Blk j)) = Some k ->
      k ∉ default ∅ (cached_block_hashes_by_block q !! Z.of_nat j)).
    { intros q Hq Hqb. destruct (cached_block_hashes_by_block q !! Z.of_nat j) as [S|] eqn:HS; simpl; [|set_solver].
      destruct (co_extra_at _ _ _ _ Hq HS) as (k' & ? & ?). congruence. }
    pose proof (Hno p Hok Hb). pose proof (Hno p' Hok') as Hn'.
    rewrite Hblk in Hn' by congruence. specialize (Hn' Hb). clear - HH H Hn'. set_solver.
  - rewrite (extras_unhashed n p) by done.
    rewrite (extras_unhashed n p'); [done..|]. by rewrite Hblk by congruence.
Qed.

Lemma claim_block_spec n p i fl pend :
  cache_ok n p -> free_ok n p fl (i :: pend) ->
  wp (claim_block (enable_caching p) (Blk i)) (fun _ p' =>
    cache_ok n p' /\ free_ok n p' fl pend /\ claimed n (enable_caching p) [i] p p') p.
Proof.
  intros Hok Hf.
  assert (Hi : 0 < i < n /\ refs p i = 0%Z) by (apply Hf; set_solver).
  unfold claim_block. rewrite wp_bind. unfold mwhen.
  set (Q := fun _ : unit => _).
  assert (Hgo : forall p1, cache_step p p1 -> cache_ok n p1 ->
    (forall j, j < n -> hashes_of p1 j = if decide (j ∈ [i]) then if enable_caching p then ∅
       else hashes_of p j else hashes_of p j) ->
    (forall j, j < n -> j <> i -> keys_of p1 j = keys_of p j) ->
    kv_event_queue p1 = kv_event_queue p ++
      removed_events p (if enable_caching p then concat (keys_of p <$> [i]) else []) ->
    Q tt p1).
  { intros p1 Hs Hok1 HH Hk Hev. unfold Q, add_ref. pool_steps.
    rewrite (cs_ref _ _ Hs). destruct Hi as [Hi Hz]. rewrite Hz. split; [done|]. pool_steps.
    destruct (add_ref_step 1 (Blk i) p1) as (Hq & Hr & Hrep). split_and!.
    - by eapply cache_ok_queue_step.
    - apply (free_ok_cache_step _ _ _ _ _ Hs) in Hf. destruct Hf as [Hrep1 Hnd Hfree Href Hnull Hn1 Hn2 Hn3].
      split; try done.
      + by apply Hrep.
      + apply NoDup_app in Hnd as (? & ? & [??]%NoDup_cons). apply NoDup_app. set_solver.
      + intros j. rewrite Hr. specialize (Hfree j). case_decide as E.
        * injection E as <-. rewrite (cs_ref _ _ Hs), Hz. split; [|lia]. intros Hin.
          apply NoDup_app in Hnd as (_ & Hd & [Hd' _]%NoDup_cons). set_solver.
        * rewrite <- Hfree. set_solver.
      + intros j Hj. rewrite Hr. case_decide; [|by apply Href]. specialize (Href j Hj). lia.
      + intros j Hj. rewrite (qs_null _ _ Hq). by apply Hnull.
    - split.
      + etrans; [apply Hs|apply Hq].
      + intros j. rewrite Hr. destruct (decide (i = j)) as [->|].
        * rewrite !decide_True by set_solver. rewrite (cs_ref _ _ Hs). lia.
        * rewrite !decide_False by set_solver. apply Hs.
      + intros j Hj. rewrite (hashes_of_queue_step p1) by done. by apply HH.
      + intros j Hj Hji. rewrite <- (Hk j) by set_solver. unfold keys_of.
        by rewrite (qs_extra _ _ Hq), (qs_hash _ _ Hq).
      + exact Hev. }
  destruct (enable_caching p) eqn:Hc.
  - rewrite wp_bind. eapply wp_mono; [apply (maybe_evict_spec n); [done|lia]|].
    intros _ p1 (_ & (Hs & Hok1 & HH) & Hblk & _ & Hev). rewrite wp_ret. apply Hgo; try done.
    + intros j Hj. rewrite HH by done. unfold fupd. repeat case_decide; set_solver.
    + intros j Hj Hji. apply (keys_of_other n p p1 i); try done; try lia. by rewrite HH, fupd_ne.
    + rewrite Hev. simpl. by rewrite app_nil_r.
  - rewrite wp_ret. apply Hgo; try done.
    + intros j Hj. by case_decide.
    + unfold removed_events. destruct (enable_kv_cache_events p); by rewrite app_nil_r.
Qed.

Lemma claimed_cons n c i l p1 p2 p3 :
  i ∉ l -> (forall j, j ∈ i :: l -> j < n) ->
  claimed n c [i] p1 p2 -> claimed n c l p2 p3 -> claimed n c (i :: l) p1 p3.
Proof.
  intros Hi Hl [Hc1 Hr1 Hh1 Hk1 He1] [Hc2 Hr2 Hh2 Hk2 He2]. split.
  - by etrans.
  - intros j. rewrite Hr2, Hr1. repeat case_decide; set_solver.
  - intros j Hj. rewrite Hh2, Hh1 by done. repeat case_decide; set_solver.
  - intros j Hj Hji. rewrite Hk2, Hk1 by set_solver. done.
  - rewrite He2, He1, <- app_assoc. f_equal. rewrite (removed_events_config p1 p2) by done.
    destruct c.
    + simpl. rewrite app_nil_r, removed_events_app. do 3 f_equal.
      apply list_fmap_ext. intros ? j Hj%list_elem_of_lookup_2. apply Hk1; set_solver.
    + rewrite <- removed_events_app. done.
Qed.

Lemma claim_all n l fl p :
  cache_ok n p -> free_ok n p fl l ->
  wp (mfor (Blk <$> l) (claim_block (enable_caching p))) (fun _ p' =>
    pool_ok n p' fl /\ claimed n (enable_caching p) l p p') p.
Proof.
  revert p. induction l as [|i l IH]; intros p Hok Hf.
  - csimpl. rewrite wp_ret. split; [done|]. split; try done.
    unfold removed_events.
      destruct (enable_caching p), (enable_kv_cache_events p); by rewrite app_nil_r.
  - assert (Hin : forall j, j ∈ i :: l -> j < n).
    { intros j Hj. assert (Hj' : j ∈ fl ++ i :: l) by set_solver.
      apply (fo_free _ _ _ _ Hf) in Hj'. lia. }
    assert (Hil : i ∉ l).
    { pose proof (fo_nodup _ _ _ _ Hf) as Hnd.
      apply NoDup_app in Hnd as (_ & _ & [? _]%NoDup_cons). done. }
    csimpl. rewrite wp_bind. eapply wp_mono; [by apply (claim_block_spec n p i fl l)|].
    intros _ p1 (Hok1 & Hf1 & Hcl1).
    assert (Hc : enable_caching p1 = enable_caching p) by apply Hcl1.
    specialize (IH p1 Hok1 Hf1). rewrite Hc in IH. eapply wp_mono; [exact IH|].
    intros _ p2 [Hok2 Hcl2]. split; [done|]. by eapply claimed_cons.
Qed.

(** Taking the blocks [l1] off the front of the queue [l1 ++ l2]. *)
Lemma get_new_blocks_spec n p l1 l2 :
  pool_ok n p (l1 ++ l2) ->
  wp (get_new_blocks (zlen l1)) (fun r p' =>
    r = Blk <$> l1 /\ pool_ok n p' l2 /\ claimed n (enable_caching p) l1 p p') p.
Proof.
  intros [Hok Hf]. unfold get_new_blocks. pool_steps. unfold get_num_free_blocks, id.
  rewrite (repr_num _ _ (fo_repr _ _ _ _ Hf)), length_app, (proj2 (Z.ltb_ge _ _))
    by (unfold zlen; simpl; lia).
  rewrite wp_bind. eapply wp_on_queue.
  { apply (popleft_n_spec _ l1 l2), Hf. }
  intros r p1 -> Hq Hr Hev Hrep. rewrite wp_bind.
  assert (Hok1 : cache_ok n p1) by (by eapply cache_ok_queue_step).
  assert (Hf1 : free_ok n p1 l2 l1).
  { pose proof (qs_config _ _ Hq) as (? & ? & ? & ? & ? & ?). destruct Hf as [? Hnd Hfree ? ? ? ? ?]. split; try congruence.
    - rewrite app_nil_r in Hnd. by rewrite (Permutation_app_comm l2 l1).
    - intros i. rewrite Hr, <- Hfree, app_nil_r. set_solver.
    - intros i. rewrite Hr. auto.
    - intros i Hi. rewrite (qs_null _ _ Hq). auto. }
  assert (Hc : enable_caching p1 = enable_caching p) by apply Hq.
  pose proof (claim_all n l1 l2 p1 Hok1 Hf1) as Hcl. rewrite Hc in Hcl.
  eapply wp_mono; [exact Hcl|]. intros _ p2 [Hok2 [Hc1 Hr1 Hh1 Hk1 He1]]. rewrite wp_ret.
  assert (Hkeys : forall i, keys_of p1 i = keys_of p i).
  { intros i. unfold keys_of. by rewrite (qs_extra _ _ Hq), (qs_hash _ _ Hq). }
  split_and!; [done..|]. split.
  - etrans; [apply Hq|done].
  - intros i. by rewrite Hr1, Hr.
  - intros i Hi. by rewrite Hh1, (hashes_of_queue_step p p1).
  - intros i Hi Hin. by rewrite Hk1, Hkeys.
  - rewrite He1, Hev, (removed_events_config p p1) by apply Hq. do 3 f_equal.
    destruct (enable_caching p); [|done]. f_equal. apply list_fmap_ext. auto.
Qed.

Lemma get_new_blocks_error n p k fl :
  pool_ok n p fl -> (zlen fl < k)%Z -> get_new_blocks k p = (Raise ValueError, p).
Proof.
  intros [Hok Hf] Hk. unfold get_new_blocks, mbind, M_bind, get_num_free_blocks. simpl.
  rewrite (repr_num _ _ (fo_repr _ _ _ _ Hf)). by rewrite (proj2 (Z.ltb_lt _ _)).
Qed.

(** ** [__init__] *)

Lemma BlockPool_init_spec n caching hbs events use_int :
  0 < n ->
  exists p, BlockPool_init n caching hbs events use_int = (Ok tt, p) /\
    pool_ok n p (seq 1 (n - 1)) /\ (forall i, i < n -> refs p i = 0%Z) /\
    (forall i, hashes_of p i = ∅) /\
    enable_caching p = caching /\ hash_block_size p = hbs /\ kv_event_queue p = [].
Proof.
  intros Hn. destruct n as [|n']; [lia|]. replace (S n' - 1) with n' by lia.
  unfold BlockPool_init. set (p0 := raw_pool _ _ _ _ _).
  match goal with |- exists p, ?m p0 = _ /\ _ =>
    set (Q := fun (_ : unit) p => pool_ok (S n') p (seq 1 n') /\ (forall i, i < S n' -> refs p i = 0%Z) /\
      (forall i, hashes_of p i = ∅) /\
      enable_caching p = caching /\ hash_block_size p = hbs /\ kv_event_queue p = []);
    cut (wp m Q p0); [intros ([] & p & ? & ?)%wp_run; by exists p|] end.
  rewrite bool_decide_true by done. unfold on_queue. wp_step. wp_step. split; [done|].
  wp_step. wp_step.
  eapply wp_mono.
  { apply fq_init_spec. intros i. unfold next_of, prev_of. simpl.
    destruct (fresh_heap_total (S n') i) as (z & -> & _). done. }
  intros _ s1 [Hr1 Hm1]. wp_step. wp_step.
  simpl seq in Hr1.
  eapply wp_mono; [by apply popleft_spec|]. intros r s2 (-> & Hr2 & Hm2).
  pool_steps. set (p2 := pool_upd _ _ _).
  assert (Hb : forall i, exists z, (i < S n' -> z = Z.of_nat i) /\
    meta (blk p2 (Blk i)) = (z, 0%Z, None, None, bool_decide (i = 0))).
  { intros i. destruct (fresh_heap_total (S n') i) as (z & Hz & Hzi). exists z. split; [done|].
    assert (Hmi : meta (mem s2 !!! Blk i) = (z, 0%Z, None, None, false))
      by by rewrite Hm2, Hm1; simpl; rewrite Hz.
    unfold p2. rewrite blk_pool_upd. unfold blk. simpl. revert Hmi. unfold meta.
    destruct (decide (Blk 0 = Blk i)) as [[= <-]|Hne]; intros Hmi; injection Hmi as ? ? ? ? ?.
    - simpl. congruence.
    - rewrite bool_decide_false by congruence. congruence. }
  assert (Hh : forall i, hashes_of p2 i = ∅).
  { intros i. destruct (Hb i) as (z & _ & [= _ _ Hh _ _]). unfold hashes_of. rewrite Hh. simpl.
    rewrite lookup_empty. simpl. set_solver. }
  split_and!; try done; [split|].
  - split.
    + intros i Hi. destruct (Hb i) as (z & Hz & [= Hid _ _ _ _]). rewrite <- Hz by done. exact Hid.
    + split; [|done]. intros k r. simpl. rewrite lookup_empty. simpl. setoid_rewrite Hh. set_solver.
    + simpl. intros z S. by rewrite lookup_empty.
    + by destruct (Hb 0) as (z & _ & [= _ _ -> _ _]).
    + intros i _ _. by destruct (Hb i) as (z & _ & [= _ _ _ -> _]).
  - split; try done; try lia.
    + eapply repr_same_links; [..|exact Hr2]; [|done]. by apply same_links_upd.
    + rewrite app_nil_r. apply NoDup_seq.
    + intros i. rewrite app_nil_r, elem_of_seq. destruct (Hb i) as (z & _ & [= _ -> _ _ _]). lia.
    + intros i _. by destruct (Hb i) as (z & _ & [= _ -> _ _ _]).
    + intros i _. by destruct (Hb i) as (z & _ & [= _ _ _ _ ->]).
  - intros i _. by destruct (Hb i) as (z & _ & [= _ -> _ _ _]).
Qed.

(** ** [touch] and [free_blocks] *)

Definition occurs (i : nat) (l : list nat) : Z := zlen (filter (.= i) l).

Lemma occurs_cons i j l : occurs i (j :: l) = ((if decide (j = i) then 1 else 0) + occurs i l)%Z.
Proof.
  unfold occurs, zlen. case_decide as E.
  - rewrite filter_cons_True by done. simpl. lia.
  - rewrite filter_cons_False by done. lia.
Qed.

Lemma occurs_pos i l : (0 < occurs i l)%Z <-> i ∈ l.
Proof.
  induction l as [|j l IH]; [unfold occurs, zlen; simpl; split; [lia|set_solver]|].
  rewrite occurs_cons, elem_of_cons. case_decide; subst.
  - split; [by left|]. intros _. unfold occurs, zlen. lia.
  - rewrite Z.add_0_l, IH. naive_solver.
Qed.

Lemma occurs_nonneg i l : (0 <= occurs i l)%Z.
Proof. unfold occurs, zlen. lia. Qed.

(** Effect of a queue operation: [fl] free blocks, [d i] more references to [i]. *)
Record requeued (d : nat -> Z) (p p' : BlockPool) : Prop := {
  rq_step : queue_step p p';
  rq_ref i : refs p' i = (refs p i + d i)%Z;
  rq_events : kv_event_queue p' = kv_event_queue p;
}.

Lemma requeued_trans d1 d2 d p1 p2 p3 :
  requeued d1 p1 p2 -> requeued d2 p2 p3 -> (forall i, d i = (d1 i + d2 i)%Z) -> requeued d p1 p3.
Proof.
  intros [H1 R1 E1] [H2 R2 E2] Hd. split; [by etrans| |congruence].
  intros i. rewrite R2, R1, Hd. lia.
Qed.

Lemma filter_ne_elem (i : nat) l :
  NoDup l -> i ∈ l -> exists l1 l2, l = l1 ++ i :: l2 /\ filter (.≠ i) l = l1 ++ l2.
Proof.
  intros Hnd (l1 & l2 & ->)%list_elem_of_split. exists l1, l2.
  split; [done|by apply filter_ne_split].
Qed.

(** [free_ok] after references to one block changed. *)
Lemma free_ok_refs n p p' fl pend fl' pend' :
  queue_step p p' -> free_ok n p fl pend -> repr (free_block_queue p') fl' -> NoDup (fl' ++ pend') ->
  (forall i, 0 < i < n -> (0 <= refs p' i)%Z) ->
  (forall i, i ∈ fl' ++ pend' <-> 0 < i < n /\ refs p' i = 0%Z) ->
  free_ok n p' fl' pend'.
Proof.
  intros Hq Hf Hrep Hnd Hpos Hfree. pose proof (qs_config _ _ Hq) as (? & ? & ? & ? & ? & ?).
  destruct Hf. split; try congruence; try done.
  intros i Hi. rewrite (qs_null _ _ Hq). auto.
Qed.

Lemma add_ref_spec d i p :
  wp (add_ref d (Blk i)) (fun _ p' =>
    requeued (fun j => if decide (j = i) then d else 0%Z) p p' /\
    forall l, repr (free_block_queue p) l -> repr (free_block_queue p') l) p.
Proof.
  unfold add_ref. rewrite wp_upd_blk. destruct (add_ref_step d (Blk i) p) as (Hq & Hr & Hl).
  split; [|done]. split; [done| |done]. intros j. rewrite Hr. repeat case_decide; naive_solver lia.
Qed.

Lemma touch_one_spec n p fl i :
  free_ok n p fl [] -> i < n ->
  wp (b ← get_blk (Blk i);
      mwhen ((ref_cnt b =? 0)%Z && negb (is_null b)) (on_queue (fq_remove (Blk i))) ;;
      add_ref 1 (Blk i)) (fun _ p' =>
    free_ok n p' (filter (.≠ i) fl) [] /\
    requeued (fun j => if decide (j = i) then 1 else 0)%Z p p') p.
Proof.
  intros Hf Hi. pool_steps. rewrite (fo_null _ _ _ _ Hf) by done.
  assert (Hfin : forall p1, queue_step p p1 -> (forall j, refs p1 j = refs p j) ->
    kv_event_queue p1 = kv_event_queue p -> repr (free_block_queue p1) (filter (.≠ i) fl) ->
    wp (add_ref 1 (Blk i)) (fun _ p' => free_ok n p' (filter (.≠ i) fl) [] /\
      requeued (fun j => if decide (j = i) then 1 else 0)%Z p p') p1).
  { intros p1 Hq Hr Hev Hrep. eapply wp_mono; [apply add_ref_spec|]. intros _ p2 [Hrq Hkeep].
    assert (Hrq2 : requeued (fun j => if decide (j = i) then 1 else 0)%Z p p2).
    { eapply (requeued_trans (fun _ => 0%Z)); [|exact Hrq|intros; cbv beta; case_decide; lia].
      split; [done| |done]. intros j. rewrite Hr. lia. }
    split; [|done]. eapply free_ok_refs; [apply Hrq2|done|by apply Hkeep|..].
    - rewrite app_nil_r. apply NoDup_filter. apply (repr_nodup _ _ (fo_repr _ _ _ _ Hf)).
    - intros j Hj. rewrite (rq_ref _ _ _ Hrq2). pose proof (fo_ref _ _ _ _ Hf j Hj). case_decide; lia.
    - intros j. rewrite app_nil_r, list_elem_of_filter, (rq_ref _ _ _ Hrq2).
      pose proof (fo_free _ _ _ _ Hf j) as Hj. rewrite app_nil_r in Hj. rewrite Hj.
      pose proof (fo_ref _ _ _ _ Hf j). case_decide; lia. }
  pose proof (fo_free _ _ _ _ Hf i) as Hin. rewrite app_nil_r in Hin.
  destruct (_ && _) eqn:Hb; unfold mwhen.
  - apply andb_prop in Hb as [Hz%Z.eqb_eq Hn]. destruct (decide (i = 0)); [by subst|].
    destruct (filter_ne_elem i fl) as (l1 & l2 & Hfl & Hfil).
    { apply (repr_nodup _ _ (fo_repr _ _ _ _ Hf)). }
    { apply Hin. lia. }
    eapply (wp_on_queue _ (fun _ => True) (l1 ++ l2)).
    { eapply wp_mono; [apply (fq_remove_spec _ l1 i l2)|by intros].
      rewrite <- Hfl. apply Hf. }
    intros _ p1 _ ? ? ? ?. apply Hfin; try done. by rewrite Hfil.
  - rewrite wp_ret. apply Hfin; try done.
    rewrite list_filter_all; [apply Hf|]. intros j Hj ->. apply Hin in Hj as [? Hz].
    rewrite Hz, bool_decide_false in Hb by lia. done.
Qed.

Lemma touch_spec n l fl p :
  free_ok n p fl [] -> (forall i, i ∈ l -> i < n) ->
  wp (touch (Blk <$> l)) (fun _ p' =>
    free_ok n p' (filter (.∉ l) fl) [] /\ requeued (fun i => occurs i l) p p') p.
Proof.
  unfold touch. revert fl p. induction l as [|i l IH]; intros fl p Hf Hl.
  - csimpl. rewrite wp_ret. rewrite list_filter_all by set_solver. split; [done|].
    split; try done. intros i. unfold occurs, zlen. simpl. lia.
  - csimpl. rewrite wp_bind. eapply wp_mono; [apply (touch_one_spec n p fl i); set_solver|].
    intros _ p1 [Hf1 Hrq1]. eapply wp_mono; [apply (IH (filter (.≠ i) fl)); set_solver|].
    intros _ p2 [Hf2 Hrq2]. split.
    + rewrite list_filter_filter in Hf2. rewrite (list_filter_iff _ (fun x => (x ∉ l) /\ x <> i)); [done|].
      set_solver.
    + eapply requeued_trans; [exact Hrq1|exact Hrq2|]. intros j. rewrite occurs_cons.
      repeat case_decide; naive_solver.
Qed.

(** The blocks whose last reference goes, in order, when one reference to each
    element of [l] is dropped from counts [r]. *)
Fixpoint freed (r : nat -> Z) (l : list nat) : list nat :=
  match l with
  | [] => []
  | i :: l' =>
      (if decide (i <> 0 /\ r i = 1%Z) then [i] else []) ++
      freed (fun j => if decide (j = i) then (r j - 1)%Z else r j) l'
  end.

Lemma freed_ext r r' l : (forall i, r i = r' i) -> freed r l = freed r' l.
Proof.
  revert r r'. induction l as [|i l IH]; intros r r' Hr; [done|]. simpl. rewrite Hr. f_equal.
  apply IH. intros j. by rewrite Hr.
Qed.

(** The count of every listed block reaches zero exactly when all its references are listed. *)
Lemma elem_of_freed r l i :
  (forall j, j <> 0 -> (occurs j l <= r j)%Z) ->
  i ∈ freed r l <-> i <> 0 /\ i ∈ l /\ r i = occurs i l.
Proof.
  revert r. induction l as [|j l IH]; intros r Hr; [set_solver|]. simpl.
  rewrite elem_of_app, IH.
  - pose proof (Hr i) as Hri. rewrite occurs_cons in *. rewrite elem_of_cons.
    pose proof (occurs_pos i l) as Hp. pose proof (occurs_nonneg i l).
    repeat case_decide; subst; rewrite ?list_elem_of_singleton, ?elem_of_nil; naive_solver lia.
  - intros k Hk. specialize (Hr k Hk). rewrite occurs_cons in Hr. repeat case_decide; naive_solver lia.
Qed.

(** Without repetitions, the freed blocks are those with one reference left. *)
Lemma freed_nodup r l : NoDup l -> freed r l = filter (fun i => i <> 0 /\ r i = 1%Z) l.
Proof.
  revert r. induction l as [|i l IH]; intros r Hnd; [done|].
  apply NoDup_cons in Hnd as [Hi Hnd]. simpl. rewrite IH by done. rewrite filter_cons.
  assert (He : filter (fun j => j <> 0 /\ (if decide (j = i) then (r j - 1)%Z else r j) = 1%Z) l =
               filter (fun j => j <> 0 /\ r j = 1%Z) l).
  { clear IH Hnd. induction l as [|j l IH]; [done|]. rewrite !filter_cons, IH by set_solver.
    rewrite (decide_False (P := j = i)) by set_solver. done. }
  rewrite He. by case_decide.
Qed.

Definition evict_first (p : BlockPool) (i : nat) : bool :=
  bool_decide (block_hash (blk p (Blk i)) = None) || negb (enable_caching p).

Lemma evict_first_step p p' i : queue_step p p' -> evict_first p' i = evict_first p i.
Proof.
  intros Hq. unfold evict_first. rewrite (qs_hash _ _ Hq).
  by destruct (qs_config _ _ Hq) as (_ & -> & _).
Qed.

Lemma free_body_spec n p fl el ef i :
  free_ok n p fl (el ++ ef) -> i < n -> (i <> 0 -> (1 <= refs p i)%Z) ->
  wp (free_body (Blk <$> el, Blk <$> ef) (Blk i)) (fun acc p' =>
    exists el' ef', acc = (Blk <$> el', Blk <$> ef') /\
    el' = el ++ filter (fun j => evict_first p j = false) (freed (fun i => refs p i) [i]) /\
    ef' = ef ++ filter (fun j => evict_first p j = true) (freed (fun i => refs p i) [i]) /\
    free_ok n p' fl (el' ++ ef') /\
    requeued (fun j => if decide (j = i) then -1 else 0)%Z p p') p.
Proof.
  intros Hf Hi Hpos. unfold free_body. rewrite wp_bind. eapply wp_mono; [apply add_ref_spec|].
  intros _ p1 [Hrq Hkeep]. pool_steps. unfold id. pose proof (rq_step _ _ _ Hrq) as Hq.
  rewrite (rq_ref _ _ _ Hrq i), decide_True, (qs_null _ _ Hq), (fo_null _ _ _ _ Hf) by done.
  fold (evict_first p1 i). rewrite (evict_first_step p p1) by done.
  assert (Hnew : forall el' ef', Permutation (el' ++ ef') (el ++ ef ++ freed (fun i => refs p i) [i]) ->
    free_ok n p1 fl (el' ++ ef')).
  { intros el' ef' Hperm. eapply free_ok_refs; [exact Hq|exact Hf|apply Hkeep, Hf|..].
    - rewrite Hperm, (app_assoc el), (app_assoc fl).
      apply NoDup_app. split_and!; [apply (fo_nodup _ _ _ _ Hf)| |].
      + intros j Hj Hin. apply (fo_free _ _ _ _ Hf) in Hj.
        simpl in Hin. rewrite app_nil_r in Hin. case_decide; [|set_solver].
        apply list_elem_of_singleton in Hin. subst. lia.
      + simpl. rewrite app_nil_r. case_decide; [apply NoDup_singleton|apply NoDup_nil_2].
    - intros j Hj. rewrite (rq_ref _ _ _ Hrq). pose proof (fo_ref _ _ _ _ Hf j Hj).
      case_decide; [subst; specialize (Hpos ltac:(lia))|]; lia.
    - intros j. rewrite Hperm, (app_assoc el), (app_assoc fl), (rq_ref _ _ _ Hrq).
      rewrite elem_of_app, (fo_free _ _ _ _ Hf). simpl. rewrite app_nil_r.
      case_decide; case_decide; subst; rewrite ?list_elem_of_singleton, ?elem_of_nil;
        try naive_solver lia. }
  assert (Hs : (refs p i + -1 =? 0)%Z && negb (bool_decide (i = 0)) =
    bool_decide (i <> 0 /\ refs p i = 1%Z)).
  { destruct (decide (i = 0)) as [->|].
    - rewrite (bool_decide_true (0 = 0)) by done. rewrite andb_false_r, bool_decide_false; naive_solver.
    - rewrite (bool_decide_false (i = 0)) by done. rewrite andb_true_r.
      destruct (Z.eqb_spec (refs p i + -1) 0); [rewrite bool_decide_true|rewrite bool_decide_false]; lia. }
  rewrite Hs. simpl freed in *. rewrite app_nil_r in *. case_decide as Hd.
  - rewrite bool_decide_true by done. destruct (evict_first p i) eqn:He.
    + exists el, (ef ++ [i]). rewrite fmap_app. split_and!; try done.
      * rewrite filter_cons_False by congruence. by rewrite app_nil_r.
      * rewrite filter_cons_True by done. done.
      * by apply Hnew.
    + exists (el ++ [i]), ef. rewrite fmap_app. split_and!; try done.
      * rewrite filter_cons_True by done. done.
      * rewrite filter_cons_False by congruence. by rewrite app_nil_r.
      * apply Hnew. rewrite <- app_assoc. apply Permutation_app_head, Permutation_app_comm.
  - rewrite bool_decide_false by done. exists el, ef. simpl. rewrite !app_nil_r in *.
    split_and!; try done. by apply Hnew.
Qed.

(** The free list after dropping the references [l]: blocks without reusable
    content first, then the old free list, then the cached ones. *)
Definition freed_order (p : BlockPool) (l fl : list nat) : list nat :=
  let fr := freed (fun i => refs p i) l in
  filter (fun j => evict_first p j = true) fr ++ fl ++ filter (fun j => evict_first p j = false) fr.

Lemma filter_evict_step p p' v (l : list nat) :
  queue_step p p' -> filter (fun j => evict_first p' j = v) l = filter (fun j => evict_first p j = v) l.
Proof. intros Hq. apply list_filter_iff. intros j. by rewrite (evict_first_step p p'). Qed.

Lemma free_fold_spec n l fl p el ef :
  free_ok n p fl (el ++ ef) -> (forall i, i ∈ l -> i < n) ->
  (forall i, i ∈ l -> i <> 0 -> (occurs i l <= refs p i)%Z) ->
  wp (mfold free_body (Blk <$> el, Blk <$> ef) (Blk <$> l)) (fun acc p' =>
    exists el' ef', acc = (Blk <$> el', Blk <$> ef') /\
    el' = el ++ filter (fun j => evict_first p j = false) (freed (fun i => refs p i) l) /\
    ef' = ef ++ filter (fun j => evict_first p j = true) (freed (fun i => refs p i) l) /\
    free_ok n p' fl (el' ++ ef') /\ requeued (fun j => - occurs j l)%Z p p') p.
Proof.
  revert p el ef. induction l as [|i l IH]; intros p el ef Hf Hl Hocc.
  - csimpl. rewrite wp_ret. exists el, ef. rewrite !app_nil_r. split_and!; try done.
    split; try done. intros i. unfold occurs, zlen. simpl. lia.
  - rewrite fmap_cons. cbn [mfold]. rewrite wp_bind. eapply wp_mono.
    { apply (free_body_spec n p fl el ef i); [done|set_solver|]. intros Hi. specialize (Hocc i ltac:(set_solver) Hi).
      rewrite occurs_cons, decide_True in Hocc by done. pose proof (occurs_nonneg i l). lia. }
    intros acc p1 (el1 & ef1 & -> & Hel & Hef & Hf1 & Hrq). pose proof (rq_step _ _ _ Hrq) as Hq.
    eapply wp_mono.
    { apply (IH p1 el1 ef1); [done|set_solver|]. intros j Hin Hj. rewrite (rq_ref _ _ _ Hrq).
      specialize (Hocc j ltac:(set_solver) Hj). rewrite occurs_cons in Hocc. repeat case_decide; naive_solver lia. }
    intros acc p2 (el2 & ef2 & -> & Hel2 & Hef2 & Hf2 & Hrq2). exists el2, ef2.
    rewrite !(filter_evict_step p p1) in * by done.
    assert (Hfr : freed (fun j => refs p j) (i :: l) =
      freed (fun j => refs p j) [i] ++ freed (fun j => refs p1 j) l).
    { simpl. rewrite app_nil_r. f_equal. apply freed_ext. intros j. rewrite (rq_ref _ _ _ Hrq).
      case_decide; lia. }
    split_and!; [done| | |done|].
    + by rewrite Hfr, filter_app, Hel2, Hel, <- app_assoc.
    + by rewrite Hfr, filter_app, Hef2, Hef, <- app_assoc.
    + eapply requeued_trans; [exact Hrq|exact Hrq2|]. intros j. rewrite occurs_cons.
      repeat case_decide; naive_solver lia.
Qed.

Lemma free_blocks_spec n l fl p :
  free_ok n p fl [] -> (forall i, i ∈ l -> i < n) ->
  (forall i, i ∈ l -> i <> 0 -> (occurs i l <= refs p i)%Z) ->
  wp (free_blocks (Blk <$> l)) (fun _ p' =>
    free_ok n p' (freed_order p l fl) [] /\ requeued (fun i => - occurs i l)%Z p p') p.
Proof.
  intros Hf Hl Hocc. unfold free_blocks. rewrite wp_bind.
  eapply wp_mono; [by apply (free_fold_spec n l fl p [] [])|].
  intros acc p1 (el & ef & -> & Hel & Hef & Hf1 & Hrq). simpl in Hel, Hef.
  pose proof (fo_nodup _ _ _ _ Hf1) as Hnd. pose proof (fo_repr _ _ _ _ Hf1) as Hr1.
  rewrite wp_bind. eapply (wp_on_queue _ (fun _ => True) (ef ++ fl)).
  { eapply wp_mono; [apply (prepend_n_spec _ ef fl Hr1)|by intros].
    rewrite (Permutation_app_comm ef fl). rewrite (Permutation_app_comm el ef), app_assoc in Hnd.
    by apply NoDup_app in Hnd as [? _]. }
  intros _ p2 _ Hq2 Hr2 Hev2 Hrep2.
  assert (Hperm : Permutation (fl ++ el ++ ef) ((ef ++ fl) ++ el)).
  { rewrite <- app_assoc, (Permutation_app_comm ef). by rewrite app_assoc. }
  eapply (wp_on_queue _ (fun _ => True) ((ef ++ fl) ++ el)).
  { eapply wp_mono; [apply (append_n_spec _ el (ef ++ fl) Hrep2)|by intros]. by rewrite <- Hperm. }
  intros _ p3 _ Hq3 Hr3 Hev3 Hrep3.
  assert (Hrq3 : requeued (fun i => - occurs i l)%Z p p3).
  { split; [|intros i; by rewrite Hr3, Hr2, (rq_ref _ _ _ Hrq)|by rewrite Hev3, Hev2, (rq_events _ _ _ Hrq)].
    etrans; [apply Hrq|]. by etrans. }
  split; [|done]. unfold freed_order. rewrite <- Hel, <- Hef, app_assoc.
  eapply free_ok_refs; [|exact Hf1|exact Hrep3|..].
  - by etrans.
  - rewrite app_nil_r. by rewrite <- Hperm.
  - intros i Hi. rewrite Hr3, Hr2. by apply (fo_ref _ _ _ _ Hf1).
  - intros i. rewrite app_nil_r, <- Hperm, Hr3, Hr2. apply (fo_free _ _ _ _ Hf1).
Qed.
