(* ===== verification/BlockPoolCache.v ===== *)
(** The prefix-cache side of [BlockPool] (vllm/v1/core/block_pool.py): caching full and
    partial blocks, moving and evicting keys.  These operations may raise; whether
    they return or raise, the pool invariant survives. *)
From S2P Require Import Prelude KVBlock FreeQueue Request BlockHash BlockPool BlockPoolInv BlockPoolSpec.

#[local] Arguments to_bytes_big : simpl never.

(** ** Caching, moving and evicting keys *)

(** The prefix cache is intact and only it changed. *)
Definition kept (n : nat) (p p' : BlockPool) : Prop := cache_ok n p' /\ cache_step p p'.

Lemma kept_refl n p : cache_ok n p -> kept n p p.
Proof. done. Qed.

Lemma kept_post n p p1 H p2 : kept n p p1 -> cache_post n p1 H p2 -> kept n p p2.
Proof. intros [_ Hs] (Hs' & Hok & _). split; [done|by etrans]. Qed.

Lemma kept_events n p p1 e : kept n p p1 -> kept n p (p1 <| kv_event_queue := e |>).
Proof.
  intros [Hok Hs]. split.
  - eapply cache_ok_queue_step; [apply queue_step_events|done].
  - etrans; [exact Hs|apply cache_step_events].
Qed.

Lemma kept_pool_ok n p p' fl : pool_ok n p fl -> kept n p p' -> pool_ok n p' fl.
Proof. intros [_ Hf] [Hok Hs]. split; [done|]. by eapply free_ok_cache_step. Qed.

Lemma wpe_lift_outcome {S A} (E : S -> Prop) (o : outcome A) Q s :
  E s -> (forall a, o = Ok a -> Q a s) -> wpe (lift_outcome o) Q E s.
Proof. destruct o; unfold wpe; simpl; naive_solver. Qed.

Lemma wpe_get_blk (E : BlockPool -> Prop) r Q p : wpe (get_blk r) Q E p <-> Q (blk p r) p.
Proof. done. Qed.

Section kept.
Context (n : nat) (p0 : BlockPool).
Abbreviation K := (kept n p0).

Lemma kept_remove i p :
  i < n -> K p -> wpe (remove_cached_block_hashes (Blk i)) (fun _ => K) K p.
Proof.
  intros Hi HK. apply wpe_wp. eapply wp_mono; [apply (remove_cached_block_hashes_spec n); [apply HK|done]|].
  intros r p' (_ & Hpost & _). by eapply kept_post.
Qed.

Lemma kept_emit ks p : K p -> wpe (emit_block_removed_events ks) (fun _ => K) K p.
Proof. intros HK. apply wpe_wp. rewrite wp_emit_removed. by apply kept_events. Qed.

Lemma kept_push e p : K p -> wpe (push_event e) (fun _ => K) K p.
Proof. intros HK. unfold push_event. rewrite wpe_modify. by apply kept_events. Qed.

Lemma kept_insert k i t p :
  0 < i < n -> K p -> wpe (insert_block_hash k (Blk i) t) (fun _ => K) K p.
Proof.
  intros Hi HK. apply wpe_wp. eapply wp_mono; [apply (insert_block_hash_spec n); [apply HK|done]|].
  intros _ p' (Hpost & _). by eapply kept_post.
Qed.
End kept.

(** One step of symbolic execution of an invariant-keeping goal. *)
Ltac kept_intro := let H := fresh "HK" in intros ? ? H; cbv beta in H.
Ltac kept_step :=
  first
    [ progress (repeat first [rewrite wpe_bind | rewrite wpe_ret | rewrite wpe_raise
        | rewrite wpe_gets | rewrite wpe_get_blk]); cbv beta
    | eapply wpe_mono; [apply kept_remove; [|eassumption]; lia| |done]; kept_intro
    | eapply wpe_mono; [apply kept_emit; eassumption| |done]; kept_intro
    | eapply wpe_mono; [apply kept_push; eassumption| |done]; kept_intro
    | eapply wpe_mono; [apply kept_insert; [|eassumption]; lia| |done]; kept_intro
    | apply wpe_assert; [assumption|intros ?]
    | apply wpe_of_option; [assumption|intros ? ?]
    | apply wpe_lift_outcome; [assumption|intros ? ?] ].
Ltac kept_steps := repeat kept_step.

Lemma K_null n p0 p fl pend i :
  free_ok n p0 fl pend -> kept n p0 p -> i < n -> is_null (blk p (Blk i)) = bool_decide (i = 0).
Proof. intros Hf [_ Hs] Hi. rewrite (cs_null _ _ Hs). by apply (fo_null _ _ _ _ Hf). Qed.

Section caching_keeps.
Context (sha256 : bytes -> bytes) (n : nat) (p0 : BlockPool) (fl : list nat).
Context (Hf : free_ok n p0 fl []).
Abbreviation K := (kept n p0).

Lemma kept_extra_keys r s e idx p :
  K p -> wpe (request_extra_keys sha256 r s e idx) (fun _ => K) K p.
Proof using.
  intros HK. unfold request_extra_keys.
  destruct (generate_block_hash_extra_keys sha256 s e idx r) as [o r']. kept_steps.
  destruct a. by kept_steps.
Qed.

Lemma kept_cache_full_body nbh nc bs gid mask acc i j p :
  j < n -> K p -> wpe (cache_full_body nbh nc bs gid mask acc (i, Blk j)) (fun _ => K) K p.
Proof using sha256 Hf.
  intros Hj HK. unfold cache_full_body. kept_steps.
  rewrite (K_null n p0 p fl [] j) by done. destruct (decide (j = 0)) as [->|Hj0].
  { rewrite bool_decide_true by done. by kept_steps. }
  rewrite bool_decide_false by done. simpl. destruct (masked_out mask i); [by kept_steps|].
  kept_steps. unfold mwhen. case_bool_decide; kept_steps; done.
Qed.

Lemma kept_cache_full_blocks r bl nc nf bs gid mask p :
  (forall j, j ∈ bl -> j < n) -> K p ->
  wpe (cache_full_blocks sha256 r (Blk <$> bl) nc nf bs gid mask) (fun _ => K) K p.
Proof using sha256 Hf.
  intros Hbl HK. unfold cache_full_blocks. destruct (nf <=? nc)%Z; [by kept_steps|]. kept_steps.
  eapply wpe_mono; [apply (wpe_fold K K)| |done]; [done|done| |].
  { intros [i r'] acc p' Hin HK'. apply elem_of_lookup_imap in Hin as (i' & r2 & [= -> ->] & Hr).
    apply list_elem_of_lookup_2, slice_subseteq, list_elem_of_fmap in Hr as (j & -> & Hj).
    apply kept_cache_full_body; auto. }
  intros nh p1 HK1. cbv beta. destruct (enable_kv_cache_events (id p)); [|by kept_steps].
  kept_steps.
  assert (Hrest : forall parent p2, K p2 ->
    wpe ('(extra_keys_list, _, request) ←
        mfold (extra_keys_body sha256 (Blk <$> bl) nc bs mask) ([], 0%Z, r) (zrange nc nf);
      push_event (build_block_stored_event request nh parent (nc * bs) (nf * bs) bs gid extra_keys_list) ;;
      mret request) (fun _ => K) K p2).
  { intros parent p2 HK2. rewrite wpe_bind. eapply wpe_mono; [apply (wpe_fold K K)| |done]; [done|done| |].
    - intros i [[keys idx] rq] p3 _ HK3. unfold extra_keys_body. kept_steps.
      destruct (_ || _); [by kept_steps|]. rewrite wpe_bind.
      eapply wpe_mono; [by apply kept_extra_keys| |done]. intros [[ks idx'] rq'] p4 HK4. by kept_steps.
    - intros [[keys idx] rq] p3 HK3. kept_steps. done. }
  destruct (nc =? 0)%Z; kept_steps; apply wpe_bind; by apply Hrest.
Qed.

Lemma kept_emit_cached r nc bs gid p :
  K p -> wpe (emit_cached_block_events sha256 r nc bs gid) (fun _ => K) K p.
Proof using sha256.
  intros HK. unfold emit_cached_block_events. kept_steps. destruct (_ || _); [by kept_steps|]. kept_steps.
  eapply wpe_mono; [apply (wpe_fold K K)| |done]; [done|done| |].
  - intros i [[[cached keys] idx] rq] p3 _ HK3. unfold emit_cached_body. kept_steps.
    eapply wpe_mono; [by apply kept_extra_keys| |done]. intros [[ks idx'] rq'] p4 HK4. by kept_steps.
  - intros [[[cached keys] idx] rq] p3 HK3. cbv beta in HK3. simpl. case_bool_decide; by kept_steps.
Qed.

Lemma kept_cache_partial_block r j nt gid bs replace p :
  j < n -> K p -> wpe (cache_partial_block sha256 r (Blk j) nt gid bs replace) (fun _ => K) K p.
Proof using sha256 Hf.
  intros Hj HK. unfold cache_partial_block. kept_steps.
  rewrite (K_null n p0 p fl [] j) by done. case_bool_decide; [by kept_steps|].
  unfold get_partial_block_hash. kept_steps.
  set (k := fun already_cached : bool => _).
  assert (Hk : forall b p', K p' -> k b p').
  { intros b p' HK'. unfold k. cbv beta. kept_steps. destruct (enable_kv_cache_events (id p) && negb b); [|by kept_steps].
    unfold emit_partial_stored, get_partial_block_parent_hash_and_start. kept_steps.
    destruct (1 <? _)%Z; kept_steps;
      (eapply wpe_mono; [by apply kept_extra_keys| |done]);
      intros [[ks idx'] rq'] p4 HK4; cbv beta in HK4; by kept_steps. }
  destruct replace; [kept_steps; by apply Hk|].
  destruct (negb _ && _ && _); kept_steps; by apply Hk.
Qed.

Lemma kept_maybe_evict j p :
  j < n -> K p -> wpe (maybe_evict_cached_block (Blk j)) (fun _ => K) K p.
Proof using.
  intros Hj HK. unfold maybe_evict_cached_block. kept_steps. case_bool_decide; by kept_steps.
Qed.

Lemma kept_evict_blocks ids p : K p -> wpe (evict_blocks ids) (fun _ => K) K p.
Proof using Hf.
  intros HK. unfold evict_blocks. eapply wpe_mono; [apply (wpe_for K K)| |done]; try done.
  intros i p1 _ HK1. kept_steps. unfold id in *.
  assert (Hi : i < n).
  { pose proof (cs_config _ _ (proj2 HK1)) as (Hnum & _). rewrite Hnum, (fo_num _ _ _ _ Hf) in H. lia. }
  eapply wpe_mono; [by apply kept_maybe_evict| |done]. intros b p2 HK2. by kept_steps.
Qed.

Lemma kept_move_block_hashes i j p :
  i < n -> 0 < j < n -> K p -> wpe (move_block_hashes (Blk i) (Blk j)) (fun _ => K) K p.
Proof using.
  intros Hi Hj HK. unfold move_block_hashes. kept_steps.
  eapply wpe_mono; [apply (wpe_for K K)| |done]; try done.
  intros k p1 _ HK1. by apply kept_insert.
Qed.
End caching_keeps.

(** ** [refresh_cached_free_blocks] *)

(** Move a free block that still carries the key to the back of the queue. *)
Definition refresh_one (p : BlockPool) (fl : list nat) (e : nat * bytes) : list nat :=
  if decide (e.1 ∈ fl /\ block_hash (blk p (Blk e.1)) = Some e.2)
  then filter (.≠ e.1) fl ++ [e.1] else fl.

Lemma refresh_one_spec n p fl e :
  free_ok n p fl [] -> e.1 < n ->
  wp (b ← get_blk (Blk e.1);
      if negb (ref_cnt b =? 0)%Z || is_null b then mret tt
      else if bool_decide (block_hash b <> Some e.2) then mret tt
      else on_queue (fq_remove (Blk e.1)) ;; on_queue (fq_append (Blk e.1))) (fun _ p' =>
    free_ok n p' (refresh_one p fl e) [] /\ requeued (fun _ => 0%Z) p p') p.
Proof.
  intros Hf Hi. destruct e as [i k]. simpl in *. pool_steps. unfold refresh_one. simpl.
  assert (Hid : requeued (fun _ => 0%Z) p p) by (split; try done; intros; lia).
  pose proof (fo_free _ _ _ _ Hf i) as Hin. rewrite app_nil_r in Hin.
  rewrite (fo_null _ _ _ _ Hf) by done.
  assert (Hb : negb (refs p i =? 0)%Z || bool_decide (i = 0) = bool_decide (i ∉ fl)).
  { symmetry. destruct (decide (i ∈ fl)) as [Hx|Hx].
    - rewrite bool_decide_false by naive_solver. apply Hin in Hx as [? ->].
      by rewrite bool_decide_false by lia.
    - rewrite bool_decide_true by done. destruct (decide (i = 0)); [rewrite (bool_decide_true (i = 0)) by done; lia|].
      rewrite (bool_decide_false (i = 0)) by done. rewrite orb_false_r.
      destruct (Z.eqb_spec (refs p i) 0); [|done]. destruct Hx. apply Hin. lia. }
  rewrite Hb. clear Hb. case_bool_decide as Hfl.
  { rewrite wp_ret, decide_False by naive_solver. done. }
  case_bool_decide as Hk.
  { rewrite wp_ret, decide_False by naive_solver. done. }
  rewrite decide_True by done.
  pose proof (repr_nodup _ _ (fo_repr _ _ _ _ Hf)) as Hnd.
  destruct (filter_ne_elem i fl Hnd Hfl) as (l1 & l2 & Hsp & Hfil).
  rewrite wp_bind. eapply (wp_on_queue _ (fun _ => True) (l1 ++ l2)).
  { eapply wp_mono; [apply (fq_remove_spec _ l1 i l2)|by intros]. rewrite <- Hsp. apply Hf. }
  intros _ p1 _ Hq1 Hr1 He1 Hrep1. rewrite <- Hfil in Hrep1.
  eapply (wp_on_queue _ (fun _ => True) (filter (.≠ i) fl ++ [i])).
  { eapply wp_mono; [apply (fq_append_spec _ i (filter (.≠ i) fl)); [done|]|by intros].
    rewrite list_elem_of_filter. naive_solver. }
  intros _ p2 _ Hq2 Hr2 He2 Hrep2.
  assert (Hperm : forall j, j ∈ filter (.≠ i) fl ++ [i] <-> j ∈ fl).
  { intros j. rewrite elem_of_app, list_elem_of_filter, list_elem_of_singleton.
    destruct (decide (j = i)); naive_solver. }
  split; [|split; [by etrans|intros j; rewrite Hr2, Hr1; lia|congruence]].
  eapply free_ok_refs; [|exact Hf|exact Hrep2|..].
  - by etrans.
  - rewrite app_nil_r. apply (repr_nodup _ _ Hrep2).
  - intros j Hj. rewrite Hr2, Hr1. by apply (fo_ref _ _ _ _ Hf).
  - intros j. rewrite app_nil_r, Hperm, Hr2, Hr1.
    pose proof (fo_free _ _ _ _ Hf j) as Hj. by rewrite app_nil_r in Hj.
Qed.

Lemma refresh_spec n entries fl p :
  enable_caching p = true -> free_ok n p fl [] -> (forall e, e ∈ entries -> e.1 < n) ->
  wp (refresh_cached_free_blocks (prod_map Blk id <$> entries)) (fun _ p' =>
    free_ok n p' (foldl (refresh_one p) fl entries) [] /\ requeued (fun _ => 0%Z) p p') p.
Proof.
  intros Hc. unfold refresh_cached_free_blocks. rewrite wp_bind, wp_gets. unfold id at 1. rewrite Hc. simpl.
  clear Hc. revert fl p. induction entries as [|[i k] es IH]; intros fl p Hf He.
  - csimpl. rewrite wp_ret. split; [done|]. split; try done. intros i. lia.
  - rewrite fmap_cons. cbn [mfor]. rewrite wp_bind.
    eapply wp_mono; [apply (refresh_one_spec n p fl (i, k)); set_solver|].
    intros _ p1 [Hf1 Hrq1]. eapply wp_mono; [apply (IH (refresh_one p fl (i, k))); set_solver|].
    intros _ p2 [Hf2 Hrq2].
    assert (Hext : forall es' l, foldl (refresh_one p1) l es' = foldl (refresh_one p) l es').
    { intros es'. induction es' as [|e es' IH']; intros l; [done|]. simpl. rewrite IH'. f_equal.
      unfold refresh_one. by rewrite (qs_hash _ _ (rq_step _ _ _ Hrq1)). }
    split; [simpl; by rewrite <- Hext|]. eapply requeued_trans; [exact Hrq1|exact Hrq2|done].
Qed.

(** ** [reset_prefix_cache] *)

Lemma reset_blocks_spec l p :
  wp (mfor l (fun i => upd_blk (with_hash None None) (Blk i))) (fun _ p' =>
    cache_step p p' /\
    cached_block_hash_to_block p' = cached_block_hash_to_block p /\
    cached_block_hashes_by_block p' = cached_block_hashes_by_block p /\
    kv_event_queue p' = kv_event_queue p /\
    (forall i, i ∈ l -> block_hash (blk p' (Blk i)) = None /\
                        block_hash_num_tokens (blk p' (Blk i)) = None) /\
    (forall i, block_hash (blk p (Blk i)) = None /\ block_hash_num_tokens (blk p (Blk i)) = None ->
       block_hash (blk p' (Blk i)) = None /\ block_hash_num_tokens (blk p' (Blk i)) = None)) p.
Proof.
  revert p. induction l as [|i l IH]; intros p; csimpl.
  - rewrite wp_ret. split_and!; try done. set_solver.
  - rewrite wp_bind, wp_upd_blk. eapply wp_mono; [apply IH|].
    intros _ p' (Hs & Hc & Hx & He & Hl & Hk). split_and!; try done.
    + etrans; [apply (cache_step_with_hash None None (Blk i))|done].
    + intros j [->|Hj]%elem_of_cons; [|by apply Hl].
      apply Hk. by rewrite blk_pool_upd, decide_True.
    + intros j Hj. apply Hk. rewrite blk_pool_upd. by case_decide.
Qed.

Lemma reset_prefix_cache_spec n fl p :
  pool_ok n p fl ->
  wp reset_prefix_cache (fun b p' =>
    b = bool_decide (length fl = n - 1) /\
    if b then pool_ok n p' fl /\ cache_step p p' /\ (forall i, i < n -> hashes_of p' i = ∅) /\
      kv_event_queue p' = kv_event_queue p ++
        (if enable_kv_cache_events p then [AllBlocksCleared] else [])
    else p' = p) p.
Proof.
  intros [Hok Hf]. unfold reset_prefix_cache. pool_steps. unfold id, get_num_free_blocks.
  pose proof (fo_num _ _ _ _ Hf) as Hn. pose proof (fo_pos _ _ _ _ Hf).
  rewrite Hn, (repr_num _ _ (fo_repr _ _ _ _ Hf)).
  destruct (Z.eqb_spec (Z.of_nat n - Z.of_nat (length fl)) 1) as [Hz|Hz]; simpl.
  2: { rewrite wp_ret, bool_decide_false by lia. done. }
  rewrite bool_decide_true by lia. pool_steps. rewrite Nat2Z.id.
  eapply wp_mono; [apply reset_blocks_spec|]. intros _ p1 (Hs & Hc & Hx & He & Hl & _).
  simpl in Hc, Hx, He.
  assert (Hl' : forall i, i < n -> block_hash (blk p1 (Blk i)) = None /\
    block_hash_num_tokens (blk p1 (Blk i)) = None) by (intros; apply Hl, elem_of_seq; lia).
  assert (HH : forall i, i < n -> hashes_of p1 i = ∅).
  { intros i Hi. unfold hashes_of. rewrite (proj1 (Hl' i Hi)), Hx, lookup_empty. simpl. set_solver. }
  assert (Hs1 : cache_step p p1) by (destruct Hs; split; done).
  assert (HK : kept n p p1).
  { split; [|done]. split.
    - intros i Hi. rewrite <- (co_ids _ _ Hok i Hi). apply (cs_id _ _ Hs1 (Blk i)).
    - rewrite Hc. split; [|intros k d; by rewrite lookup_empty].
      intros k r. rewrite lookup_empty. simpl. split; [set_solver|].
      intros (i & -> & Hi & Hk). rewrite HH in Hk by done. set_solver.
    - intros z S. by rewrite Hx, lookup_empty.
    - apply Hl'. lia.
    - intros i Hi _. by apply Hl'. }
  unfold mwhen. destruct (enable_kv_cache_events p); pool_steps.
  - unfold push_event. pool_steps. apply (kept_events _ _ _ (kv_event_queue p1 ++ [AllBlocksCleared])) in HK.
    split; [done|]. split_and!; [by eapply kept_pool_ok|apply HK|done|]. simpl. by rewrite He.
  - split; [done|]. split_and!; [by eapply kept_pool_ok|done|done|]. by rewrite app_nil_r.
Qed.

(** ** [get_cached_block] *)

(** A lookup over several groups returns, per group, a block cached under that
    group's key, and returns nothing exactly when some group has none. *)
Lemma get_cached_block_spec n p h gids :
  cache_ok n p -> (forall g, g ∈ gids -> (0 <= g < 2 ^ 32)%Z) ->
  exists o, get_cached_block h gids p = (Ok o, p) /\
    match o with
    | Some bs => Forall2 (fun g r => exists i, r = Blk i /\ 0 < i < n /\
                   h ++ to_bytes_big 4 g ∈ hashes_of p i) gids bs
    | None => exists g, g ∈ gids /\ forall i, i < n -> h ++ to_bytes_big 4 g ∉ hashes_of p i
    end.
Proof.
  intros Hok. induction gids as [|g gids IH]; intros Hg; [by exists (Some [])|].
  destruct (IH ltac:(set_solver)) as (o & Ho & Hspec).
  simpl. rewrite make_block_hash_ok by (apply Hg; set_solver).
  unfold mbind, M_bind, lift_outcome, gets. simpl.
  destruct (get_one_block_spec n _ _ _ (co_ids _ _ Hok) (co_map _ _ Hok) (h ++ to_bytes_big 4 g))
    as [(i & -> & Hi & Hk)|[-> Hno]]; simpl.
  - rewrite Ho. simpl. exists (cons (Blk i) <$> o). split; [done|].
    destruct o as [bs|]; simpl.
    + constructor; [|done]. exists i. split_and!; [done| |done|done].
      destruct i; [|lia]. exfalso. revert Hk. unfold hashes_of.
      rewrite (co_null _ _ Hok), (extras_unhashed n p 0) by (done || apply Hok). simpl. set_solver.
    + destruct Hspec as (g' & ? & ?). exists g'. set_solver.
  - exists None. split; [done|]. exists g. set_solver.
Qed.

(** ** What [cache_full_blocks] caches *)

Lemma map_outcome_lookup {A B} (f : A -> outcome B) l :
  (forall x, x ∈ l -> exists y, f x = Ok y) ->
  exists ys, map_outcome f l = Ok ys /\ forall i x, l !! i = Some x -> exists y, f x = Ok y /\ ys !! i = Some y.
Proof.
  induction l as [|x l IH]; intros Hl; [by exists []|].
  destruct (Hl x) as [y Hy]; [set_solver|]. destruct IH as (ys & Hys & Hi); [set_solver|].
  exists (y :: ys). simpl. rewrite Hy, Hys. split; [done|]. intros [|i] x' Hx; simplify_eq/=; eauto.
Qed.

Lemma bhl_from_spec hs hbs (k a : nat) :
  (0 < hbs)%Z -> 0 < k ->
  exists v l, resolve_block_hashes (RawHashes hs) hbs (Z.of_nat k * hbs) false None = Ok v /\
    bhl_from v (Z.of_nat a) = Ok l /\
    forall i, a + i < length hs / k -> l !! i = coarse k hs (a + i) /\ is_Some (coarse k hs (a + i)).
Proof.
  intros Hh Hk. destruct (resolve_block_hashes_spec hs hbs k Hh Hk) as (v & Hv & Hlen & Hget).
  exists v. unfold bhl_from. rewrite Hlen.
  destruct (map_outcome_lookup (bhl_get v)
    (zrange (Z.min (Z.of_nat a) (Z.of_nat (length hs / k))) (Z.of_nat (length hs / k)))) as (ys & Hys & Hi).
  { intros x Hx%elem_of_zrange. destruct (Hget (Z.to_nat x)) as (h & Hx' & _); [lia|].
    rewrite Z2Nat.id in Hx' by lia. eauto. }
  exists ys. split_and!; [done..|]. intros i Hai.
  destruct (Hi i (Z.of_nat (a + i))) as (y & Hy & Hys').
  { unfold zrange. rewrite list_lookup_fmap, lookup_seq_lt by lia. simpl. f_equal. lia. }
  destruct (Hget (a + i) Hai) as (h & Hh' & Hc). rewrite Hys', Hc.
  split; [congruence|eauto].
Qed.

(** A block that may take the key of [t] tokens: not cached yet, or cached for fewer. *)
Definition cacheable (p : BlockPool) (j : nat) (t : Z) : Prop :=
  block_hash (blk p (Blk j)) = None \/
  exists t', block_hash_num_tokens (blk p (Blk j)) = Some t' /\ (t' < t)%Z.

Section cache_full.
Context (n : nat) (nbh : list bytes) (nc bs gid : Z) (mask : option (list bool)).
Context (Hg : (0 <= gid < 2 ^ 32)%Z).

Abbreviation pos_tokens i := ((nc + Z.of_nat i + 1) * bs)%Z.

Lemma cache_full_body_spec p acc i j h :
  cache_ok n p -> 0 < j < n -> is_null (blk p (Blk j)) = false -> masked_out mask i = false ->
  nbh !! i = Some h -> cacheable p j (pos_tokens i) ->
  wp (cache_full_body nbh nc bs gid mask acc (i, Blk j)) (fun _ p' =>
    cache_post n p (fupd (hashes_of p) j {[h ++ to_bytes_big 4 gid]}) p' /\
    forall r, r <> Blk j -> blk p' r = blk p r) p.
Proof using Hg.
  intros Hok Hj Hn Hm Hh Hc. unfold cache_full_body. pool_steps. rewrite Hn, Hm. simpl.
  pool_steps. exists h. split; [done|]. pool_steps. rewrite make_block_hash_ok by done.
  eexists. split; [done|]. set (k := h ++ _). pool_steps.
  match goal with |- wp _ ?Q0 _ => set (Q := Q0) end.
  assert (Hins : forall p1, cache_ok n p1 -> cache_step p p1 -> hashes_of p1 j = ∅ ->
    (forall i, i < n -> i <> j -> hashes_of p1 i = hashes_of p i) ->
    (forall r, r <> Blk j -> blk p1 r = blk p r) -> Q tt p1).
  { intros p1 Hok1 Hs1 He Hsame Hblk. unfold Q. pool_steps.
    eapply wp_mono; [by apply (insert_block_hash_spec n)|].
    intros _ p2 ((Hs2 & Hok2 & HH2) & Hblk2 & _). pool_steps. split.
    - split_and!; [by etrans|done|]. intros i' Hi'. rewrite HH2 by done. unfold fupd.
      case_decide; [rewrite He; set_solver|by apply Hsame].
    - intros r Hr. rewrite Hblk2, Hblk by done. done. }
  unfold mwhen. destruct Hc as [Hc|(t' & Ht & Hlt)].
  - rewrite Hc, bool_decide_false by naive_solver. rewrite wp_ret. apply Hins; try done.
    unfold hashes_of. rewrite Hc, (extras_unhashed n) by done. simpl. set_solver.
  - case_bool_decide as Hb.
    + pool_steps. rewrite Ht. split; [lia|].
      refine (proj1 (wp_bind _ _ _ _) (remove_and_emit_spec n p j Q Hok ltac:(lia) _)).
      intros p1 ((Hs1 & Hok1 & HH1) & Hblk & _). apply Hins; try done.
      * by rewrite HH1, fupd_eq by lia.
      * intros i' Hi' Hne. by rewrite HH1, fupd_ne.
    + rewrite wp_ret. apply Hins; try done.
      unfold hashes_of. rewrite Hb, (extras_unhashed n) by done. simpl. set_solver.
Qed.

(** Whether position [i], holding block [j], gets cached. *)
Definition takes_key (i j : nat) : Prop := j <> 0 /\ masked_out mask i = false.
#[local] Instance takes_key_dec i j : Decision (takes_key i j) := _.

Lemma cache_full_skip p acc i j :
  is_null (blk p (Blk j)) = bool_decide (j = 0) -> ~ takes_key i j ->
  cache_full_body nbh nc bs gid mask acc (i, Blk j) p = (Ok acc, p).
Proof using Hg.
  intros Hn Ht. unfold cache_full_body, mbind, M_bind, get_blk, gets. simpl. rewrite Hn.
  destruct (decide (j = 0)).
  - by rewrite bool_decide_true.
  - rewrite bool_decide_false by done. unfold takes_key in Ht. simpl.
    by destruct (masked_out mask i) eqn:E; [|naive_solver].
Qed.

Lemma cache_full_loop ps p acc :
  cache_ok n p -> NoDup (filter (.≠ 0) ps.*2) ->
  (forall i j, (i, j) ∈ ps -> j < n /\ is_null (blk p (Blk j)) = bool_decide (j = 0)) ->
  (forall i j, (i, j) ∈ ps -> takes_key i j ->
    is_Some (nbh !! i) /\ cacheable p j (pos_tokens i)) ->
  wp (mfold (cache_full_body nbh nc bs gid mask) acc (prod_map id Blk <$> ps)) (fun _ p' =>
    kept n p p' /\
    (forall i j h, (i, j) ∈ ps -> takes_key i j -> nbh !! i = Some h ->
      hashes_of p' j = {[h ++ to_bytes_big 4 gid]}) /\
    (forall j, j < n -> (forall i, (i, j) ∈ ps -> ~ takes_key i j) -> hashes_of p' j = hashes_of p j)) p.
Proof using Hg.
  revert p acc. induction ps as [|[i j] ps IH]; intros p acc Hok Hnd Hin Htk.
  { csimpl. rewrite wp_ret. split_and!; [done|set_solver|done]. }
  rewrite fmap_cons. cbn [mfold]. rewrite wp_bind.
  destruct (Hin i j) as [Hj Hnull]; [set_solver|]. change (prod_map id Blk (i, j)) with (i, Blk j).
  destruct (decide (takes_key i j)) as [Ht|Ht].
  - destruct (Htk i j) as [[h Hh] Hc]; [set_solver|done|].
    assert (Hj0 : j <> 0) by apply Ht.
    simpl in Hnd. rewrite filter_cons_True in Hnd by done. apply NoDup_cons in Hnd as [Hni Hnd].
    assert (Hne : forall i' j', (i', j') ∈ ps -> j' <> 0 -> j' <> j).
    { intros i' j' Hps Hj' ->. apply Hni, list_elem_of_filter. split; [done|].
      apply list_elem_of_fmap. by exists (i', j). }
    eapply wp_mono.
    { apply (cache_full_body_spec p acc i j h); try done; [lia| |apply Ht].
      by rewrite Hnull, bool_decide_false. }
    intros acc' p1 [(Hs1 & Hok1 & HH1) Hblk]. eapply wp_mono.
    { apply (IH p1 acc' Hok1 Hnd).
      - intros i' j' Hps. rewrite (cs_null _ _ Hs1). apply (Hin i' j'). set_solver.
      - intros i' j' Hps Ht'. destruct (Htk i' j') as [? Hc']; [set_solver|done|]. split; [done|].
        unfold cacheable in *. rewrite Hblk; [done|]. intros [= ->]. by eapply Hne; [..|apply Ht'|]. }
    intros _ p2 ([Hok2 Hs2] & Hnew & Hold). split_and!; [split; [done|by etrans]| |].
    + intros i' j' h' [[= -> ->]|Hps]%elem_of_cons Ht' Hh'; [|by eapply Hnew].
      rewrite Hold, HH1, fupd_eq; [by assert (Some h = Some h') as [= ->] by (rewrite <- Hh; exact Hh')|done|done|].
      intros i2 Hps _. eapply Hne; [exact Hps|done|done].
    + intros j' Hj' Hnone. rewrite Hold, HH1, fupd_ne; [done| |done|done|].
      * intros ->. eapply (Hnone i); [set_solver|done].
      * intros i2 Hps. apply Hnone. set_solver.
  - unfold wp at 1. rewrite cache_full_skip by done. eapply wp_mono.
    { apply (IH p acc Hok); [|set_solver..].
      simpl in Hnd. rewrite filter_cons in Hnd. case_decide; [|done]. by apply NoDup_cons in Hnd as []. }
    intros _ p2 (HK & Hnew & Hold). split_and!; [done| |].
    + intros i' j' h' [[= -> ->]|Hps]%elem_of_cons Ht' Hh'; [done|by eapply Hnew].
    + intros j' Hj' Hnone. apply Hold; [done|]. set_solver.
Qed.
End cache_full.

Lemma lookup_slice {A} (l : list A) (a b i : nat) :
  slice (Z.of_nat a) (Z.of_nat b) l !! i = if decide (a + i < b) then l !! (a + i) else None.
Proof.
  unfold slice. rewrite !Nat2Z.id. case_decide.
  - rewrite lookup_take_lt by lia. apply lookup_drop.
  - apply lookup_take_ge. lia.
Qed.

(** Preconditions of the functional specification of [cache_full_blocks]: blocks
    [a..b) of the request are full and hashed, and each position to cache holds
    a block of its own that is not cached for as many tokens yet. *)
Record cache_full_pre (n : nat) (p : BlockPool) (r : Request) (bl : list nat) (k a b : nat)
    (gid : Z) (mask : option (list bool)) : Prop := {
  cf_hbs : (0 < hash_block_size p)%Z;
  cf_k : 0 < k;
  cf_gid : (0 <= gid < 2 ^ 32)%Z;
  cf_range : a <= b <= length (block_hashes r) / k;
  cf_blocks : b <= length bl;
  cf_mask : match mask with None => True | Some m => length m = b - a end;
  cf_bl j : j ∈ bl -> j < n;
  cf_nodup : NoDup (filter (.≠ 0) (slice (Z.of_nat a) (Z.of_nat b) bl));
  cf_cacheable i j : a + i < b -> bl !! (a + i) = Some j -> takes_key mask i j ->
    cacheable p j ((Z.of_nat (a + i) + 1) * (Z.of_nat k * hash_block_size p))%Z;
}.

(** The keys after it: one key per cached position, every other block as before. *)
Definition cache_full_keys (n : nat) (p : BlockPool) (r : Request) (bl : list nat) (k a b : nat)
    (gid : Z) (mask : option (list bool)) (p' : BlockPool) : Prop :=
  (forall i j, a + i < b -> bl !! (a + i) = Some j -> takes_key mask i j ->
    exists h, coarse k (block_hashes r) (a + i) = Some h /\
      hashes_of p' j = {[h ++ to_bytes_big 4 gid]}) /\
  (forall j, j < n ->
    (forall i, a + i < b -> bl !! (a + i) = Some j -> ~ takes_key mask i j) ->
    hashes_of p' j = hashes_of p j).

Lemma imap_pair_fmap (f : nat -> ref) (l : list nat) :
  imap pair (f <$> l) = prod_map id f <$> imap pair l.
Proof.
  apply list_eq. intros i. rewrite list_lookup_fmap, !list_lookup_imap, list_lookup_fmap.
  by destruct (l !! i).
Qed.

(** ** The stored event *)

(** Only the request's cache of embedding hashes may have changed. *)
Definition only_memo (r r' : Request) : Prop := r' = r <| prompt_embeds_per_block_hashes := prompt_embeds_per_block_hashes r' |>.

Lemma only_memo_refl r : only_memo r r.
Proof. by destruct r. Qed.

Lemma only_memo_trans r1 r2 r3 : only_memo r1 r2 -> only_memo r2 r3 -> only_memo r1 r3.
Proof. unfold only_memo. intros H1 H2. rewrite H2, H1. done. Qed.

Lemma mm_loop_idx s e l i : (i <= (mm_loop s e l i).2)%Z.
Proof.
  revert i. induction l as [|f l IH]; intros i; simpl; [lia|]. pose proof (IH (i + 1)%Z). repeat case_match; simpl in *; lia.
Qed.

(** From a non-negative index, the extra keys of a block are found without an error. *)
Lemma request_extra_keys_ok sha256 r s e idx (p : BlockPool) : (0 <= idx)%Z ->
  wp (request_extra_keys sha256 r s e idx) (fun x p' => p' = p /\ (0 <= x.1.2)%Z /\ only_memo r x.2) p.
Proof.
  intros Hi. unfold request_extra_keys. destruct (generate_block_hash_extra_keys sha256 s e idx r) as [o r'] eqn:E.
  assert (exists ks idx', o = Ok (ks, idx') /\ (0 <= idx')%Z /\ only_memo r r') as (ks & idx' & -> & Hidx & Hr).
  { unfold generate_block_hash_extra_keys, gen_mm_extra_hash_keys, gen_prompt_embeds_extra_hash_keys, mbind, M_bind, gets, id in E. simpl in E.
    destruct (idx <? 0)%Z eqn:En; [apply Z.ltb_lt in En; lia|].
    pose proof (mm_loop_idx s e (drop (Z.to_nat idx) (mm_features r)) idx) as Hm.
    destruct (last (mm_features r)) as [lp|]; [destruct (_ <=? s)%Z|].
    2: destruct (mm_loop s e (drop (Z.to_nat idx) (mm_features r)) idx) as [mk mi]; simpl in Hm.
    all: destruct (prompt_embeds r) as [rows|]; [destruct (prompt_embeds_per_block_hashes r !! (s, e))|]; simpl in E; injection E as <- <-;
      eexists _, _; (split; [done|]); (split; [lia|]); first [apply only_memo_refl|done]. }
  unfold wp. simpl. done.
Qed.

Lemma extra_keys_loop_ok sha256 bl nc bs mask acc l (p : BlockPool) : (0 <= acc.1.2)%Z -> Forall (fun i => 0 <= i < zlen bl)%Z l ->
  wp (mfold (extra_keys_body sha256 bl nc bs mask) acc l) (fun x p' => p' = p /\ only_memo acc.2 x.2) p.
Proof.
  revert acc. induction l as [|i l IH]; intros [[ks idx] r] Hi Hl; simpl; [wp_steps; split; [done|apply only_memo_refl]|]. simpl in Hi. apply Forall_cons in Hl as [Hil Hl].
  wp_steps. destruct (lookup_lt_is_Some_2 bl (Z.to_nat i)) as [x Hx]; [unfold zlen in Hil; lia|]. exists x. split; [unfold pyget; by rewrite !(proj2 (Z.ltb_ge i 0)) by lia|].
  unfold get_blk. wp_steps. destruct (_ || _); wp_steps; [by apply (IH (ks, idx, r))|]. eapply wp_mono; [by apply request_extra_keys_ok|].
  intros [[k2 i2] r2] p' (-> & H2 & Hr). wp_steps. eapply wp_mono; [by apply (IH (ks ++ [k2], i2, r2))|]. intros y p'' [-> Hy]. split; [done|]. by eapply only_memo_trans.
Qed.

Lemma cache_full_blocks_spec sha256 n p fl r bl k a b gid mask :
  pool_ok n p fl -> cache_full_pre n p r bl k a b gid mask ->
  wp (cache_full_blocks sha256 r (Blk <$> bl) (Z.of_nat a) (Z.of_nat b)
        (Z.of_nat k * hash_block_size p) gid mask) (fun r' p' =>
    only_memo r r' /\ (enable_kv_cache_events p = false -> r' = r) /\ kept n p p' /\ cache_full_keys n p r bl k a b gid mask p') p.
Proof.
  intros [Hok Hf] [Hhbs Hk Hgid Hrange Hblk Hmask Hbl Hnd Hcac]. unfold cache_full_blocks.
  destruct (Z.leb_spec (Z.of_nat b) (Z.of_nat a)).
  { rewrite wp_ret. split_and!; [apply only_memo_refl|done..|]. split; [intros i j ?; lia|done]. }
  assert (Hsl : slice (Z.of_nat a) (Z.of_nat b) (Blk <$> bl) =
    Blk <$> slice (Z.of_nat a) (Z.of_nat b) bl).
  { unfold slice. by rewrite fmap_take, fmap_drop. }
  rewrite Hsl. pool_steps. split.
  { destruct mask as [m|]; [|done]. apply bool_decide_eq_true_2. rewrite Hmask, length_fmap.
    unfold slice. rewrite length_take, length_drop. lia. }
  pool_steps. unfold id.
  destruct (bhl_from_spec (block_hashes r) (hash_block_size p) k a Hhbs Hk) as (v & l & Hv & Hl & Hget).
  exists v. split; [done|]. pool_steps. exists l. split; [done|]. pool_steps.
  rewrite (imap_pair_fmap Blk).
  assert (Hin : forall i j, (i, j) ∈ imap pair (slice (Z.of_nat a) (Z.of_nat b) bl) <->
    a + i < b /\ bl !! (a + i) = Some j).
  { intros i j. rewrite elem_of_lookup_imap. split.
    - intros (i' & j' & [= <- <-] & Hx). rewrite lookup_slice in Hx. by case_decide.
    - intros [? Hx]. exists i, j. split; [done|]. rewrite lookup_slice. by case_decide. }
  assert (Hl' : forall i j, a + i < b -> bl !! (a + i) = Some j -> j < n)
    by (intros i j _ Hx; eapply Hbl, list_elem_of_lookup_2, Hx).
  eapply wp_mono.
  { apply (cache_full_loop n l (Z.of_nat a) (Z.of_nat k * hash_block_size p) gid mask Hgid _ p []); [done|..].
    - replace ((imap pair (slice (Z.of_nat a) (Z.of_nat b) bl)).*2) with (slice (Z.of_nat a) (Z.of_nat b) bl);
        [done|]. apply list_eq. intros i. rewrite list_lookup_fmap, list_lookup_imap. by destruct (_ !! i).
    - intros i j [? Hx]%Hin. assert (j < n) by eauto. split; [done|]. by apply (fo_null _ _ _ _ Hf).
    - intros i j [? Hx]%Hin Ht. destruct (Hget i) as [-> ?]; [lia|]. split; [done|].
      rewrite <- Nat2Z.inj_add. by apply Hcac. }
  intros nh p' (HK & Hnew & Hold).
  enough (cache_full_keys n p r bl k a b gid mask p') as Hkeys.
  { destruct (enable_kv_cache_events p); pool_steps; [|split_and!; [apply only_memo_refl|done..]].
    assert (wp (if (Z.of_nat a =? 0)%Z then mret None else h ← lift_outcome (bhl_get v (Z.of_nat a - 1)); mret (Some (maybe_convert_block_hash (use_int_block_hashes p) h)))
      (fun _ q => q = p') p') as Hpar.
    { destruct (Z.eqb_spec (Z.of_nat a) 0); [done|]. destruct (resolve_block_hashes_spec (block_hashes r) (hash_block_size p) k Hhbs Hk) as (v' & Hv' & _ & Hg).
      rewrite Hv in Hv'. injection Hv' as <-. destruct (Hg (a - 1)) as (h & Hh & _); [lia|]. replace (Z.of_nat a - 1)%Z with (Z.of_nat (a - 1)) by lia. unfold wp, mbind, M_bind. by rewrite Hh. }
    eapply wp_mono; [exact Hpar|]. intros parent q ->. pool_steps. eapply wp_mono; [apply extra_keys_loop_ok; [simpl; lia|]|].
    { apply Forall_forall. intros x Hx%elem_of_zrange. unfold zlen. rewrite length_fmap. lia. }
    intros [[ks idx] r2] q [-> Hr2]. unfold push_event. pool_steps. split_and!; [exact Hr2|done|by apply kept_events|exact Hkeys]. }
  split.
  - intros i j Hi Hx Ht. destruct (Hget i) as [Hli [h Hh]]; [lia|]. exists h. split; [done|].
    apply (Hnew i j h); [by apply Hin|done|]. exact (eq_trans Hli Hh).
  - intros j Hj Hno. apply Hold; [done|]. intros i [? ?]%Hin. by apply Hno.
Qed.
