(* ===== verification/BlockPoolThms.v ===== *)
(** The guarantees of [BlockPool] (vllm/v1/core/block_pool.py): its invariant over
    every sequence of calls, and the functional behaviour of allocation, freeing,
    caching, lookup and reset. *)
From S2P Require Import Prelude KVBlock FreeQueue Request BlockHash BlockPool BlockPoolInv BlockPoolSpec BlockPoolCache.

#[local] Arguments to_bytes_big : simpl never.

(** ** Calls on a pool and the states they reach *)

Inductive pool_call :=
  | CGet (num_blocks : Z)
  | CTouch (blocks : list nat)
  | CFree (ordered_blocks : list nat)
  | CCacheFull (r : Request) (blocks : list nat) (num_cached num_full bs gid : Z)
      (block_mask : option (list bool))
  | CCachePartial (r : Request) (block : nat) (num_tokens gid bs : Z) (replace_existing : bool)
  | CEmitCached (r : Request) (num_cached bs gid : Z)
  | CMove (src dst : nat)
  | CEvict (block_ids : list nat)
  | CRefresh (entries : list (nat * bytes))
  | CReset
  | CTakeEvents.

Section calls.
Context (sha256 : bytes -> bytes).

Definition void {S A} (m : M S A) : M S unit := m ;; mret tt.

Definition run_call (c : pool_call) : M BlockPool unit :=
  match c with
  | CGet k => void (get_new_blocks k)
  | CTouch l => touch (Blk <$> l)
  | CFree l => free_blocks (Blk <$> l)
  | CCacheFull r bl nc nf bs gid mask => void (cache_full_blocks sha256 r (Blk <$> bl) nc nf bs gid mask)
  | CCachePartial r j nt gid bs rep => void (cache_partial_block sha256 r (Blk j) nt gid bs rep)
  | CEmitCached r nc bs gid => void (emit_cached_block_events sha256 r nc bs gid)
  | CMove i j => move_block_hashes (Blk i) (Blk j)
  | CEvict ids => evict_blocks ids
  | CRefresh es => refresh_cached_free_blocks (prod_map Blk id <$> es)
  | CReset => void reset_prefix_cache
  | CTakeEvents => void take_events
  end.

(** What a caller must respect: blocks of this pool, no more references dropped
    than held, and no hashes moved onto the null block. *)
Definition allowed (n : nat) (p : BlockPool) (c : pool_call) : Prop :=
  match c with
  | CGet k => (0 <= k)%Z
  | CTouch l => forall i, i ∈ l -> i < n
  | CFree l => (forall i, i ∈ l -> i < n) /\ forall i, i ∈ l -> i <> 0 -> (occurs i l <= refs p i)%Z
  | CCacheFull _ bl _ _ _ _ _ => forall i, i ∈ bl -> i < n
  | CCachePartial _ j _ _ _ _ => j < n
  | CMove i j => i < n /\ 0 < j < n
  | CRefresh es => forall e, e ∈ es -> e.1 < n
  | CEmitCached _ _ _ _ | CEvict _ | CReset | CTakeEvents => True
  end.

Inductive pool_reach (n : nat) (caching : bool) (hbs : Z) (events use_int : bool) : BlockPool -> Prop :=
  | reach_init p :
      BlockPool_init n caching hbs events use_int = (Ok tt, p) ->
      pool_reach n caching hbs events use_int p
  | reach_call p c o p' :
      pool_reach n caching hbs events use_int p -> allowed n p c -> run_call c p = (o, p') ->
      pool_reach n caching hbs events use_int p'.

Definition any_ok (n : nat) (p : BlockPool) : Prop := exists fl, pool_ok n p fl.

Lemma wpe_void {S A} (E : S -> Prop) (m : M S A) Q s :
  wpe m (fun _ => Q tt) E s -> wpe (void m) Q E s.
Proof. unfold void. by rewrite wpe_bind. Qed.

Lemma kept_any_ok {A} n p fl (m : M BlockPool A) :
  pool_ok n p fl -> wpe m (fun _ => kept n p) (kept n p) p ->
  wpe m (fun _ => any_ok n) (any_ok n) p.
Proof.
  intros Hok Hm. eapply wpe_mono; [exact Hm|..]; intros; exists fl; by eapply kept_pool_ok.
Qed.

Lemma requeued_any_ok n d p p' fl fl' :
  pool_ok n p fl -> free_ok n p' fl' [] -> requeued d p p' -> any_ok n p'.
Proof.
  intros [Hok _] Hf [Hq _ _]. exists fl'. split; [|done]. by eapply cache_ok_queue_step.
Qed.

Lemma run_call_ok n p c :
  any_ok n p -> allowed n p c -> wpe (run_call c) (fun _ => any_ok n) (any_ok n) p.
Proof.
  intros [fl Hpok] Hc. pose proof Hpok as [Hok Hf]. destruct c; simpl in *; try apply wpe_void.
  - destruct (decide (num_blocks <= zlen fl)%Z) as [Hk|Hk].
    + apply wpe_wp.
      replace num_blocks with (zlen (take (Z.to_nat num_blocks) fl))
        by (unfold zlen in *; rewrite length_take; lia).
      rewrite <- (take_drop (Z.to_nat num_blocks) fl) in Hpok.
      eapply wp_mono; [by apply get_new_blocks_spec|]. intros ? p' (_ & ? & _). by eexists.
    + unfold wpe. rewrite (get_new_blocks_error n p _ fl) by (done || lia). by exists fl.
  - apply wpe_wp. eapply wp_mono; [by apply (touch_spec n)|]. intros _ p' [? ?]. by eapply requeued_any_ok.
  - apply wpe_wp. eapply wp_mono; [apply (free_blocks_spec n ordered_blocks fl); [done|apply Hc..]|].
    intros _ p' [? ?]. by eapply requeued_any_ok.
  - apply (kept_any_ok n p fl); [done|]. by apply (kept_cache_full_blocks sha256 n p fl).
  - apply (kept_any_ok n p fl); [done|]. by apply (kept_cache_partial_block sha256 n p fl).
  - apply (kept_any_ok n p fl); [done|]. by apply (kept_emit_cached sha256 n p).
  - apply (kept_any_ok n p fl); [done|]. apply kept_move_block_hashes; [apply Hc|apply Hc|done].
  - apply (kept_any_ok n p fl); [done|]. by apply (kept_evict_blocks n p fl).
  - apply wpe_wp. destruct (enable_caching p) eqn:He.
    + eapply wp_mono; [by apply (refresh_spec n entries fl p)|]. intros _ p' [? ?]. by eapply requeued_any_ok.
    + unfold refresh_cached_free_blocks. rewrite wp_bind, wp_gets. unfold id at 1. rewrite He. by exists fl.
  - apply wpe_wp. eapply wp_mono; [by apply reset_prefix_cache_spec|].
    intros b p' [_ Hb]. destruct b; [exists fl; apply Hb|]. subst. by exists fl.
  - unfold take_events. rewrite wpe_bind, wpe_gets. destruct (negb _); [by exists fl|].
    rewrite wpe_bind, wpe_modify, wpe_ret. exists fl. by eapply kept_pool_ok, kept_events.
Qed.

Lemma pool_reach_ok n caching hbs events use_int p :
  0 < n -> pool_reach n caching hbs events use_int p -> any_ok n p.
Proof.
  intros Hn Hr. induction Hr as [p Hi|p c o p' Hr IH Hc Hrun].
  - destruct (BlockPool_init_spec n caching hbs events use_int Hn) as (q & Hq & ? & _).
    exists (seq 1 (n - 1)). congruence.
  - pose proof (run_call_ok n p c IH Hc) as Hw. unfold wpe in Hw. rewrite Hrun in Hw. by destruct o.
Qed.
End calls.

(** The blocks somebody holds a reference to. *)
Definition referenced (n : nat) (p : BlockPool) : list nat :=
  filter (fun i => refs p i <> 0%Z) (seq 1 (n - 1)).

Lemma length_filter_split {A} (P : A -> Prop) `{!forall x, Decision (P x)} (l : list A) :
  length (filter P l) + length (filter (fun x => ~ P x) l) = length l.
Proof.
  induction l as [|x l IH]; [done|]. rewrite !filter_cons. repeat case_decide; simpl; naive_solver lia.
Qed.

Lemma pool_conservation n p fl :
  free_ok n p fl [] -> (get_num_free_blocks p + zlen (referenced n p) = Z.of_nat n - 1)%Z.
Proof.
  intros Hf. unfold get_num_free_blocks. rewrite (repr_num _ _ (fo_repr _ _ _ _ Hf)).
  assert (Hp : Permutation fl (filter (fun i => refs p i = 0%Z) (seq 1 (n - 1)))).
  { apply NoDup_Permutation.
    - apply (repr_nodup _ _ (fo_repr _ _ _ _ Hf)).
    - apply NoDup_filter, NoDup_seq.
    - intros i. pose proof (fo_free _ _ _ _ Hf i) as Hi. rewrite app_nil_r in Hi.
      rewrite Hi, list_elem_of_filter, elem_of_seq. lia. }
  rewrite Hp. pose proof (length_filter_split (fun i => refs p i = 0%Z) (seq 1 (n - 1))) as Hs.
  rewrite length_seq in Hs. unfold referenced, zlen. pose proof (fo_pos _ _ _ _ Hf). lia.
Qed.

(** ** Concrete pools *)

(** Five blocks, two of them allocated, the first cached under the key [x01]. *)
Definition demo_pool : BlockPool := (BlockPool_init 5 true 2 false false).2.
Definition demo_pool2 : BlockPool := (get_new_blocks 2 demo_pool).2.
Definition demo_request : Request :=
  text_request "a" [1; 2; 3; 4]%Z <| block_hashes := [[Byte.x01]; [Byte.x02]] |>.
Definition demo_pool3 : BlockPool :=
  (cache_full_blocks id demo_request [Blk 1; Blk 2] 0 1 2 0 None demo_pool2).2.

Lemma demo_pool_ok : pool_ok 5 demo_pool [1; 2; 3; 4].
Proof.
  destruct (BlockPool_init_spec 5 true 2 false false) as (p & Hp & Hok & _); [lia|].
  unfold demo_pool. rewrite Hp. exact Hok.
Qed.

Lemma demo_pool2_ok : pool_ok 5 demo_pool2 [3; 4].
Proof.
  destruct (proj1 (wp_run _ _ _) (get_new_blocks_spec 5 demo_pool [1; 2] [3; 4] demo_pool_ok))
    as (r & p & Hp & _ & Hok & _).
  unfold demo_pool2. change (zlen [1; 2]) with 2%Z in Hp. rewrite Hp. exact Hok.
Qed.

Lemma demo_cache_pre : cache_full_pre 5 demo_pool2 demo_request [1; 2] 1 0 1 0 None.
Proof.
  split; try (vm_compute; done); try (vm_compute; lia).
  - simpl. intros j Hj. set_solver by lia.
  - vm_compute. apply (NoDup_singleton 1).
  - intros i j Hi Hj _. left. destruct i; [|lia]. injection Hj as <-. vm_compute. done.
Qed.

Lemma demo_pool3_ok : pool_ok 5 demo_pool3 [3; 4].
Proof.
  destruct (proj1 (wp_run _ _ _) (cache_full_blocks_spec id 5 demo_pool2 [3; 4] demo_request [1; 2] 1 0 1 0
    None demo_pool2_ok demo_cache_pre)) as (r & p & Hp & _ & _ & HK & _).
  assert (Hd : demo_pool3 = p).
  { unfold demo_pool3. change [Blk 1; Blk 2] with (Blk <$> [1; 2]).
    change 2%Z with (Z.of_nat 1 * hash_block_size demo_pool2)%Z. change 0%Z with (Z.of_nat 0) at 1.
    change 1%Z with (Z.of_nat 1). by rewrite Hp. }
  rewrite Hd. eapply kept_pool_ok; [exact demo_pool2_ok|exact HK].
Qed.

(** ** The properties *)

(** C7. The block pool's invariant.  Start from [__init__] over [n] blocks and make
    any series of calls, of any length, that touches only blocks of the pool and
    drops only references that are held; calls may return or raise.  Then the free
    queue lists exactly the unreferenced non-null blocks, once each, the map of
    cached hashes and the hashes stored on the blocks agree key by key, the null
    block is in neither, and no block is lost: free plus referenced blocks are
    all blocks but the null block. *)
Theorem pool_invariant sha256 n caching hbs events use_int p :
  0 < n -> pool_reach sha256 n caching hbs events use_int p ->
  exists fl, pool_ok n p fl /\ get_num_free_blocks p = zlen fl /\
    (get_num_free_blocks p + zlen (referenced n p) = Z.of_nat n - 1)%Z.
Proof.
  intros Hn Hr. destruct (pool_reach_ok _ _ _ _ _ _ _ Hn Hr) as [fl [Hok Hf]].
  exists fl. split; [done|]. split; [apply (fo_repr _ _ _ _ Hf)|by eapply pool_conservation].
Qed.

Lemma pool_invariant_witness :
  exists fl, pool_ok 5 demo_pool3 fl /\ get_num_free_blocks demo_pool3 = zlen fl /\
    (get_num_free_blocks demo_pool3 + zlen (referenced 5 demo_pool3) = 4)%Z.
Proof.
  apply (pool_invariant id 5 true 2 false false); [lia|].
  apply (reach_call id 5 true 2 false false demo_pool2
    (CCacheFull demo_request [1; 2] 0 1 2 0 None) (Ok tt)).
  - apply (reach_call id 5 true 2 false false demo_pool (CGet 2) (Ok tt)).
    + apply reach_init. vm_compute. reflexivity.
    + simpl. lia.
    + vm_compute. reflexivity.
  - simpl. intros i Hi. set_solver by lia.
  - vm_compute. reflexivity.
Defined.

(** Allocation.  With at least [num_blocks] free blocks, [get_new_blocks] returns
    the [num_blocks] least recently freed ones in eviction order, each with one
    reference; with caching on they lose every hash they were cached under, and
    one removal event per lost hash is queued; all other blocks keep their
    references and hashes.  With too few free blocks it raises [ValueError] and
    changes nothing. *)
Theorem get_new_blocks_correct n p fl k :
  pool_ok n p fl ->
  if decide (k <= length fl)
  then exists p', get_new_blocks (Z.of_nat k) p = (Ok (Blk <$> take k fl), p') /\
    pool_ok n p' (drop k fl) /\ claimed n (enable_caching p) (take k fl) p p'
  else get_new_blocks (Z.of_nat k) p = (Raise ValueError, p).
Proof.
  intros Hok. case_decide as Hk.
  - rewrite <- (take_drop k fl) in Hok.
    destruct (proj1 (wp_run _ _ _) (get_new_blocks_spec n p _ _ Hok)) as (r & p' & Hp & -> & Hok' & Hcl).
    exists p'. split_and!; [|done..]. unfold zlen in Hp. rewrite length_take, Nat.min_l in Hp by lia. done.
  - apply (get_new_blocks_error n p _ fl); [done|]. unfold zlen. lia.
Qed.

Lemma get_new_blocks_correct_witness :
  exists p', get_new_blocks 1 demo_pool3 = (Ok [Blk 3], p') /\
    pool_ok 5 p' [4] /\ claimed 5 true [3] demo_pool3 p'.
Proof. exact (get_new_blocks_correct 5 demo_pool3 [3; 4] 1 demo_pool3_ok). Defined.

(** Freeing.  Dropping one reference per listed block, never more than held,
    always succeeds; the blocks whose count reaches zero join the free queue, in
    the order given: those without reusable content ahead of every free block, the
    cached ones behind every free block.  Hashes and events stay as they are. *)
Theorem free_blocks_correct n p fl l :
  pool_ok n p fl -> (forall i, i ∈ l -> i < n) -> (forall i, i ∈ l -> i <> 0 -> (occurs i l <= refs p i)%Z) ->
  exists p', free_blocks (Blk <$> l) p = (Ok tt, p') /\
    pool_ok n p' (freed_order p l fl) /\
    (forall i, refs p' i = (refs p i - occurs i l)%Z) /\
    (forall i, hashes_of p' i = hashes_of p i) /\ kv_event_queue p' = kv_event_queue p.
Proof.
  intros [Hok Hf] Hl Hocc.
  destruct (proj1 (wp_run _ _ _) (free_blocks_spec n l fl p Hf Hl Hocc)) as ([] & p' & Hp & Hf' & [Hq Hr He]).
  exists p'. split_and!; [done|split; [by eapply cache_ok_queue_step|done]| |..|done].
  - intros i. rewrite Hr. lia.
  - intros i. by apply hashes_of_queue_step.
Qed.

Lemma free_blocks_correct_witness :
  exists p', free_blocks [Blk 2; Blk 1; Blk 0] demo_pool3 = (Ok tt, p') /\ pool_ok 5 p' [2; 3; 4; 1].
Proof.
  destruct (free_blocks_correct 5 demo_pool3 [3; 4] [2; 1; 0] demo_pool3_ok) as (p' & Hp & Hok & _).
  - intros i Hi. set_solver by lia.
  - intros i. rewrite !elem_of_cons, elem_of_nil.
    intros [->|[->|[->|[]]]] ?; vm_compute; done.
  - exists p'. split; [exact Hp|exact Hok].
Defined.

(** Least-recently-used order.  With caching on, a request that hits the cached
    free blocks [l] and later releases them leaves every reference count as it
    was and moves exactly those blocks, in the order released, to the end of the
    eviction order: [touch] takes them off the queue, [free_blocks] puts them back
    last. *)
Theorem touch_free_moves_to_lru_end n p fl l :
  pool_ok n p fl -> enable_caching p = true -> NoDup l ->
  (forall i, i ∈ l -> i ∈ fl /\ block_hash (blk p (Blk i)) <> None) ->
  exists p1 p2,
    touch (Blk <$> l) p = (Ok tt, p1) /\ free_blocks (Blk <$> l) p1 = (Ok tt, p2) /\
    pool_ok n p1 (filter (.∉ l) fl) /\ pool_ok n p2 (filter (.∉ l) fl ++ l) /\
    forall i, refs p2 i = refs p i.
Proof.
  intros [Hok Hf] Hc Hnd Hl.
  assert (Hin : forall i, i ∈ l -> 0 < i < n /\ refs p i = 0%Z).
  { intros i Hi. apply (fo_free _ _ _ _ Hf). rewrite app_nil_r. by apply Hl. }
  destruct (proj1 (wp_run _ _ _) (touch_spec n l fl p Hf ltac:(intros i Hi; apply Hin in Hi; lia)))
    as ([] & p1 & Hp1 & Hf1 & Hrq1).
  assert (Hocc : forall i, i ∈ l -> occurs i l = 1%Z).
  { clear -Hnd. induction Hnd as [|j l Hj Hnd IH]; [set_solver|]. intros i Hi. rewrite occurs_cons.
    case_decide; subst.
    - pose proof (occurs_nonneg i l). assert (~ (0 < occurs i l)%Z) by by rewrite occurs_pos. lia.
    - rewrite IH; [done|set_solver]. }
  destruct (proj1 (wp_run _ _ _) (free_blocks_spec n l _ p1 Hf1
    ltac:(intros i Hi; apply Hin in Hi; lia)
    ltac:(intros i Hi _; rewrite (rq_ref _ _ _ Hrq1), (proj2 (Hin i Hi)); lia)))
    as ([] & p2 & Hp2 & Hf2 & Hrq2).
  pose proof (rq_step _ _ _ Hrq1) as Hq1. pose proof (rq_step _ _ _ Hrq2) as Hq2.
  assert (Hfr : freed_order p1 l (filter (.∉ l) fl) = filter (.∉ l) fl ++ l).
  { unfold freed_order.
    assert (Hall : freed (fun i => refs p1 i) l = l).
    { rewrite freed_nodup by done. apply list_filter_all. intros i Hi.
      rewrite (rq_ref _ _ _ Hrq1), Hocc by done. destruct (Hin i Hi) as [? ->]. lia. }
    assert (Hev : forall i, i ∈ l -> evict_first p1 i = false).
    { intros i Hi. rewrite (evict_first_step p p1) by done. unfold evict_first. rewrite Hc.
      rewrite bool_decide_false by (apply Hl, Hi). done. }
    rewrite Hall. rewrite (list_filter_all (fun j => evict_first p1 j = false) l) by done.
    replace (filter (fun j => evict_first p1 j = true) l) with (@nil nat); [done|].
    clear -Hev. induction l as [|i l IH]; [done|].
    rewrite filter_cons_False by (rewrite Hev by set_solver; done). apply IH. set_solver. }
  rewrite Hfr in Hf2. exists p1, p2. split_and!; [done|done| | |].
  - split; [|done]. by eapply cache_ok_queue_step.
  - split; [|done]. eapply cache_ok_queue_step; [exact Hq2|]. by eapply cache_ok_queue_step.
  - intros i. rewrite (rq_ref _ _ _ Hrq2), (rq_ref _ _ _ Hrq1). lia.
Qed.

Definition demo_pool4 : BlockPool := (free_blocks [Blk 1; Blk 2] demo_pool3).2.

Lemma demo_pool4_ok : pool_ok 5 demo_pool4 [2; 3; 4; 1].
Proof.
  destruct demo_pool3_ok as [Hok Hf].
  destruct (proj1 (wp_run _ _ _) (free_blocks_spec 5 [1; 2] [3; 4] demo_pool3 Hf
    ltac:(set_solver by lia)
    ltac:(intros i; rewrite !elem_of_cons, elem_of_nil; intros [->|[->|[]]] _; vm_compute; done)))
    as ([] & p & Hp & Hf' & [Hq _ _]).
  assert (Hd : demo_pool4 = p).
  { unfold demo_pool4. change [Blk 1; Blk 2] with (Blk <$> [1; 2]). by rewrite Hp. }
  rewrite Hd. split; [by eapply cache_ok_queue_step|exact Hf'].
Qed.

Lemma touch_free_moves_to_lru_end_witness :
  exists p1 p2,
    touch [Blk 1] demo_pool4 = (Ok tt, p1) /\ free_blocks [Blk 1] p1 = (Ok tt, p2) /\
    pool_ok 5 p1 [2; 3; 4] /\ pool_ok 5 p2 [2; 3; 4; 1] /\ forall i, refs p2 i = refs demo_pool4 i.
Proof.
  apply (touch_free_moves_to_lru_end 5 demo_pool4 [2; 3; 4; 1] [1] demo_pool4_ok).
  - vm_compute. reflexivity.
  - apply NoDup_singleton.
  - intros i ->%list_elem_of_singleton. split; [set_solver|]. vm_compute. discriminate.
Defined.

(** Lookup.  [get_cached_block] never raises on valid group ids and never
    changes the pool.  It returns one block per group, each of them a non-null
    block of the pool cached under that group's key; it returns nothing only when
    some group has no block cached under its key. *)
Theorem get_cached_block_correct n p fl h gids :
  pool_ok n p fl -> (forall g, g ∈ gids -> (0 <= g < 2 ^ 32)%Z) ->
  exists o, get_cached_block h gids p = (Ok o, p) /\
    match o with
    | Some bs => Forall2 (fun g r => exists i, r = Blk i /\ 0 < i < n /\
                   h ++ to_bytes_big 4 g ∈ hashes_of p i) gids bs
    | None => exists g, g ∈ gids /\ forall i, i < n -> h ++ to_bytes_big 4 g ∉ hashes_of p i
    end.
Proof. intros [Hok _]. by apply get_cached_block_spec. Qed.

Lemma get_cached_block_correct_witness :
  exists o, get_cached_block [Byte.x01] [0%Z] demo_pool4 = (Ok o, demo_pool4) /\
    match o with
    | Some bs => Forall2 (fun g r => exists i, r = Blk i /\ 0 < i < 5 /\
                   [Byte.x01] ++ to_bytes_big 4 g ∈ hashes_of demo_pool4 i) [0%Z] bs
    | None => exists g, g ∈ [0%Z] /\
        forall i, i < 5 -> [Byte.x01] ++ to_bytes_big 4 g ∉ hashes_of demo_pool4 i
    end.
Proof.
  apply (get_cached_block_correct 5 demo_pool4 [2; 3; 4; 1] [Byte.x01] [0%Z] demo_pool4_ok).
  intros g ->%list_elem_of_singleton. lia.
Defined.

(** C31. Insert and lookup.  [cache_full_blocks] over blocks [a..b) of a request, at any
    multiple [k] of the hash block size and under any mask, returns, leaves the
    free queue alone, and registers each unmasked non-null block under exactly one
    key: the hash of the request's prefix up to the end of that block, with the
    group id.  Every other block keeps its keys.  From then on a lookup of that
    hash in that group succeeds, with a block cached under that very key.  The blocks are
    full and hashed, and each cached position has a block of its own that is not cached for
    as many tokens yet ([cache_full_pre]).  KV-cache events may be on: then the stored
    event may fill the request's cache of embedding hashes, and nothing else of it changes. *)
Theorem cache_full_blocks_then_lookup sha256 n p fl r bl k a b gid mask :
  pool_ok n p fl -> cache_full_pre n p r bl k a b gid mask ->
  exists r' p',
    cache_full_blocks sha256 r (Blk <$> bl) (Z.of_nat a) (Z.of_nat b)
      (Z.of_nat k * hash_block_size p) gid mask p = (Ok r', p') /\
    only_memo r r' /\ (enable_kv_cache_events p = false -> r' = r) /\
    pool_ok n p' fl /\ cache_full_keys n p r bl k a b gid mask p' /\
    forall i j, a + i < b -> bl !! (a + i) = Some j -> takes_key mask i j ->
      exists h j', coarse k (block_hashes r) (a + i) = Some h /\
        get_cached_block h [gid] p' = (Ok (Some [Blk j']), p') /\
        0 < j' < n /\ h ++ to_bytes_big 4 gid ∈ hashes_of p' j'.
Proof.
  intros Hok Hpre.
  destruct (proj1 (wp_run _ _ _) (cache_full_blocks_spec sha256 n p fl r bl k a b gid mask Hok Hpre))
    as (r' & p' & Hp & Hmemo & Hoff & HK & Hkeys).
  pose proof (kept_pool_ok n p p' fl Hok HK) as Hok'.
  exists r', p'. split_and!; [done..|]. intros i j Hi Hj Ht.
  destruct (proj1 Hkeys i j Hi Hj Ht) as (h & Hh & HH). exists h.
  destruct (get_cached_block_spec n p' h [gid] (proj1 Hok')) as (o & Ho & Hspec).
  { intros g ->%list_elem_of_singleton. apply Hpre. }
  destruct o as [bs|].
  - apply Forall2_cons_inv_l in Hspec as (x & l & (j' & -> & Hj' & Hk) & Hnil & ->).
    apply Forall2_nil_inv_l in Hnil as ->. by exists j'.
  - destruct Hspec as (g & ->%list_elem_of_singleton & Hno). exfalso. apply (Hno j).
    + eapply (cf_bl _ _ _ _ _ _ _ _ _ Hpre), list_elem_of_lookup_2, Hj.
    + rewrite HH. set_solver.
Qed.

Lemma cache_full_blocks_then_lookup_witness :
  exists p',
    cache_full_blocks id demo_request [Blk 1; Blk 2] 0 1 2 0 None demo_pool2 = (Ok demo_request, p') /\
    exists h j', h = [Byte.x01] /\ get_cached_block h [0%Z] p' = (Ok (Some [Blk j']), p').
Proof.
  destruct (cache_full_blocks_then_lookup id 5 demo_pool2 [3; 4] demo_request [1; 2] 1 0 1 0 None
    demo_pool2_ok demo_cache_pre) as (r' & p' & Hp & _ & Hoff & _ & _ & Hl).
  rewrite (Hoff eq_refl) in Hp. exists p'. split; [exact Hp|].
  destruct (Hl 0 1 ltac:(lia) eq_refl) as (h & j' & Hh & Hget & _); [by split|].
  exists h, j'. split; [by injection Hh|exact Hget].
Defined.

(** Reset.  [reset_prefix_cache] returns [True] exactly when every block but the
    null block is free.  It then empties the cache: no block keeps a hash and one
    cleared event is queued, while the free queue and its order stay.  Otherwise
    it returns [False] and changes nothing. *)
Theorem reset_prefix_cache_correct n p fl :
  pool_ok n p fl ->
  exists p', reset_prefix_cache p = (Ok (bool_decide (length fl = n - 1)), p') /\
    if decide (length fl = n - 1)
    then pool_ok n p' fl /\ (forall i, i < n -> hashes_of p' i = ∅) /\
      (forall i, refs p' i = refs p i) /\
      kv_event_queue p' = kv_event_queue p ++ (if enable_kv_cache_events p then [AllBlocksCleared] else [])
    else p' = p.
Proof.
  intros Hok. destruct (proj1 (wp_run _ _ _) (reset_prefix_cache_spec n fl p Hok)) as (b & p' & Hp & Hb & Hspec).
  exists p'. rewrite <- Hb. split; [done|]. case_decide as Hd.
  - rewrite bool_decide_true in Hb by done. subst b. destruct Hspec as (? & Hs & ? & ?).
    split_and!; try done. intros i. apply Hs.
  - rewrite bool_decide_false in Hb by done. by subst b.
Qed.

Lemma reset_prefix_cache_correct_witness :
  exists p', reset_prefix_cache demo_pool4 = (Ok true, p') /\
    pool_ok 5 p' [2; 3; 4; 1] /\ (forall i, i < 5 -> hashes_of p' i = ∅) /\
    (forall i, refs p' i = refs demo_pool4 i) /\ kv_event_queue p' = [].
Proof. exact (reset_prefix_cache_correct 5 demo_pool4 [2; 3; 4; 1] demo_pool4_ok). Defined.
