(* ===== verification/EncoderCache.v ===== *)
(** [EncoderCacheManager] and [EncoderDecoderCacheManager]
    (vllm/v1/core/encoder_cache_manager.py): the bookkeeping of cached encoder
    outputs, shared between requests by content hash and evicted oldest first when
    space is needed. *)
From S2P Require Import Prelude Request.

Record EncoderCacheManager := {
  cache_size : Z;
  num_free_slots : Z;
  num_freeable_slots : Z;
  cached : gmap string (gset string);
  request_cached_ids : gmap string (gset nat);
  freeable : list (string * Z);
  freed : list string;
}.

#[export] Instance EncoderCacheManager_eta : Eta EncoderCacheManager := fun m =>
  Build_EncoderCacheManager (cache_size m) (num_free_slots m) (num_freeable_slots m) (cached m)
    (request_cached_ids m) (freeable m) (freed m).

(** [__init__(cache_size)] *)
Definition EncoderCacheManager_init (size : Z) : EncoderCacheManager :=
  {| cache_size := size; num_free_slots := size; num_freeable_slots := size; cached := ∅;
     request_cached_ids := ∅; freeable := []; freed := [] |}.

(** [reset()] *)
Definition ec_reset (m : EncoderCacheManager) : EncoderCacheManager :=
  m <| cached := ∅ |> <| request_cached_ids := ∅ |> <| freeable := [] |> <| freed := [] |>
    <| num_free_slots := cache_size m |> <| num_freeable_slots := cache_size m |>.

(** [request.mm_features[input_id]] *)
Definition mm_feature (request : Request) (input_id : nat) : M EncoderCacheManager MMFeature :=
  of_option IndexError (mm_features request !! input_id).

(** [request.get_num_encoder_embeds(input_id)] *)
Definition num_embeds_of (request : Request) (input_id : nat) : M EncoderCacheManager Z :=
  match get_num_encoder_embeds request (Z.of_nat input_id) with
  | Ok n => mret n
  | Raise e => raise e
  end.

(** [request_cached_ids.setdefault(request_id, set()).add(input_id)] *)
Definition add_request_id (rid : string) (input_id : nat) (m : EncoderCacheManager)
    : EncoderCacheManager :=
  m <| request_cached_ids :=
    <[rid := {[input_id]} ∪ default ∅ (request_cached_ids m !! rid)]> (request_cached_ids m) |>.

(** [cached[mm_hash].add(request_id)] for a cached hash *)
Definition add_ref_id (mm_hash rid : string) (m : EncoderCacheManager) : EncoderCacheManager :=
  m <| cached := <[mm_hash := {[rid]} ∪ default ∅ (cached m !! mm_hash)]> (cached m) |>.

(** [check_and_update_cache(request, input_id)] *)
Definition check_and_update_cache (request : Request) (input_id : nat) : M EncoderCacheManager bool :=
  f ← mm_feature request input_id;
  let mm_hash := identifier f in
  m ← gets id;
  match cached m !! mm_hash with
  | None => mret false
  | Some rids =>
      mwhen (bool_decide (rids = ∅))
        (n ← of_option KeyError (odict_get mm_hash (freeable m));
         modify (fun m => m <| freeable := odict_del mm_hash (freeable m) |>
                            <| num_freeable_slots := num_freeable_slots m - n |>)%Z) ;;
      modify (add_ref_id mm_hash (request_id request)) ;;
      modify (add_request_id (request_id request) input_id) ;;
      mret true
  end.

(** The eviction loop of [can_allocate]; each round pops the oldest entry, and
    popping an empty dict raises. *)
Fixpoint evict_loop (num_embeds : Z) (entries : list (string * Z)) (m : EncoderCacheManager)
    : outcome unit * EncoderCacheManager :=
  if (num_embeds <=? num_free_slots m)%Z then (Ok tt, m)
  else match entries with
  | [] => (Raise KeyError, m)
  | (mm_hash, num_free_embeds) :: rest =>
      let m := m <| freeable := rest |> in
      match cached m !! mm_hash with
      | None => (Raise KeyError, m)
      | Some _ =>
          evict_loop num_embeds rest
            (m <| cached := delete mm_hash (cached m) |>
               <| freed := freed m ++ [mm_hash] |>
               <| num_free_slots := (num_free_slots m + num_free_embeds)%Z |>)
      end
  end.

(** [can_allocate(request, input_id, encoder_compute_budget, num_embeds_to_schedule)] *)
Definition can_allocate (request : Request) (input_id : nat)
    (encoder_compute_budget num_embeds_to_schedule : Z) : M EncoderCacheManager bool :=
  n ← num_embeds_of request input_id;
  if (encoder_compute_budget <? n)%Z then mret false
  else
    let n := (n + num_embeds_to_schedule)%Z in
    m ← gets id;
    if (n <=? num_free_slots m)%Z then mret true
    else if (num_freeable_slots m <? n)%Z then mret false
    else evict_loop n (freeable m) ;; mret true.

(** [allocate(request, input_id)] *)
Definition allocate (request : Request) (input_id : nat) : M EncoderCacheManager unit :=
  f ← mm_feature request input_id;
  let mm_hash := identifier f in
  modify (fun m => if bool_decide (cached m !! mm_hash = None)
                   then m <| cached := <[mm_hash := ∅]> (cached m) |> else m) ;;
  n ← num_embeds_of request input_id;
  m ← gets id;
  massert (n <=? num_free_slots m)%Z ;;
  massert (n <=? num_freeable_slots m)%Z ;;
  modify (add_ref_id mm_hash (request_id request)) ;;
  modify (add_request_id (request_id request) input_id) ;;
  modify (fun m => m <| num_free_slots := (num_free_slots m - n)%Z |>
                     <| num_freeable_slots := (num_freeable_slots m - n)%Z |>).

(** [get_cached_input_ids(request)] *)
Definition get_cached_input_ids (request : Request) (m : EncoderCacheManager) : gset nat :=
  default ∅ (request_cached_ids m !! request_id request).

(** Drop [input_id] from the request's ids, and the ids when none is left. *)
Definition discard_request_id (rid : string) (input_id : nat) (m : EncoderCacheManager)
    : EncoderCacheManager :=
  match request_cached_ids m !! rid with
  | None => m
  | Some ids =>
      let ids' := ids ∖ {[input_id]} in
      m <| request_cached_ids :=
        if bool_decide (ids' = ∅) then delete rid (request_cached_ids m)
        else <[rid := ids']> (request_cached_ids m) |>
  end.

(** Whether one of the ids is another occurrence of [mm_hash] in the request;
    indexing a feature that does not exist raises. *)
Fixpoint any_occurrence (request : Request) (mm_hash : string) (ids : list nat)
    : M EncoderCacheManager bool :=
  match ids with
  | [] => mret false
  | other_id :: rest =>
      f ← mm_feature request other_id;
      if bool_decide (identifier f = mm_hash) then mret true else any_occurrence request mm_hash rest
  end.

(** [free_encoder_input(request, input_id)] *)
Definition free_encoder_input (request : Request) (input_id : nat) : M EncoderCacheManager unit :=
  f ← mm_feature request input_id;
  let mm_hash := identifier f in
  let req_id := request_id request in
  modify (discard_request_id req_id input_id) ;;
  m ← gets id;
  match cached m !! mm_hash with
  | None => mret tt
  | Some rids =>
      if bool_decide (rids = ∅) then mret tt
      else
        more ← any_occurrence request mm_hash (elements (get_cached_input_ids request m));
        if more : bool then mret tt
        else
          let rids' := rids ∖ {[req_id]} in
          modify (fun m => m <| cached := <[mm_hash := rids']> (cached m) |>) ;;
          if bool_decide (rids' = ∅) then
            n ← num_embeds_of request input_id;
            modify (fun m => m <| freeable := odict_set mm_hash n (freeable m) |>
                               <| num_freeable_slots := (num_freeable_slots m + n)%Z |>)
          else mret tt
  end.

(** [free(request)] *)
Definition ec_free (request : Request) : M EncoderCacheManager unit :=
  m ← gets id;
  mfor (elements (get_cached_input_ids request m)) (free_encoder_input request).

(** [get_freed_mm_hashes()] *)
Definition get_freed_mm_hashes : M EncoderCacheManager (list string) :=
  m ← gets id;
  modify (fun m => m <| freed := [] |>) ;;
  mret (filter (fun h => cached m !! h = None) (freed m)).

(** [compute_mm_encoder_budget(scheduler_config, mm_max_toks_per_item)] *)
Definition compute_mm_encoder_budget (disable_chunked_mm_input : bool)
    (max_num_batched_tokens max_num_encoder_input_tokens encoder_cache_size : Z)
    (mm_max_toks_per_item : list (string * Z)) : outcome (Z * Z) :=
  match mm_max_toks_per_item.*2 with
  | [] => Ok (0, 0)%Z
  | t :: ts =>
      let max_tokens_per_mm_item := foldl Z.max t ts in
      if disable_chunked_mm_input && (max_num_batched_tokens <? max_tokens_per_mm_item)%Z
      then Raise ValueError
      else Ok (Z.max max_num_encoder_input_tokens max_tokens_per_mm_item,
               Z.max encoder_cache_size max_tokens_per_mm_item)
  end.

(** ** [EncoderDecoderCacheManager] *)

Record EncoderDecoderCacheManager := {
  ed_cache_size : Z;
  ed_num_free_slots : Z;
  allocated : list string;
  to_free : list string;
}.

#[export] Instance EncoderDecoderCacheManager_eta : Eta EncoderDecoderCacheManager := fun m =>
  Build_EncoderDecoderCacheManager (ed_cache_size m) (ed_num_free_slots m) (allocated m) (to_free m).

(** [__init__(cache_size)] *)
Definition EncoderDecoder_init (size : Z) : EncoderDecoderCacheManager :=
  {| ed_cache_size := size; ed_num_free_slots := size; allocated := []; to_free := [] |}.

(** [reset()] *)
Definition ed_reset (m : EncoderDecoderCacheManager) : EncoderDecoderCacheManager :=
  m <| ed_num_free_slots := ed_cache_size m |> <| allocated := [] |> <| to_free := [] |>.

(** [can_allocate(...)] *)
Definition ed_can_allocate (request : Request) (input_id : nat)
    (encoder_compute_budget num_embeds_to_schedule : Z) (m : EncoderDecoderCacheManager)
    : outcome bool :=
  match get_num_encoder_embeds request (Z.of_nat input_id) with
  | Raise e => Raise e
  | Ok n =>
      Ok (if (encoder_compute_budget <? n)%Z then false
          else (n + num_embeds_to_schedule <=? ed_num_free_slots m)%Z)
  end.

(** [allocate(request, input_id)] *)
Definition ed_allocate (request : Request) (input_id : nat) : M EncoderDecoderCacheManager unit :=
  n ← match get_num_encoder_embeds request (Z.of_nat input_id) with Ok n => mret n | Raise e => raise e end;
  modify (fun m => m <| ed_num_free_slots := (ed_num_free_slots m - n)%Z |>) ;;
  f ← of_option IndexError (mm_features request !! input_id);
  modify (fun m => m <| allocated := allocated m ++ [identifier f] |>).

(** [free_encoder_input(request, input_id)] *)
Definition ed_free_encoder_input (request : Request) (input_id : nat)
    : M EncoderDecoderCacheManager unit :=
  n ← match get_num_encoder_embeds request (Z.of_nat input_id) with Ok n => mret n | Raise e => raise e end;
  modify (fun m => m <| ed_num_free_slots := (ed_num_free_slots m + n)%Z |>).

(** [free(request)] *)
Definition ed_free (request : Request) : M EncoderDecoderCacheManager unit :=
  mfor (seq 0 (length (mm_features request))) (ed_free_encoder_input request).

(** [get_cached_input_ids(request)] *)
Definition ed_get_cached_input_ids (request : Request) : list nat :=
  seq 0 (length (mm_features request)).

(** [get_freed_mm_hashes()]: the entries allocated before the previous call. *)
Definition ed_get_freed_mm_hashes : M EncoderDecoderCacheManager (list string) :=
  m ← gets id;
  modify (fun m => m <| to_free := allocated m |> <| allocated := [] |>) ;;
  mret (to_free m).

(** ** Invariant *)

Section invariant.
(** The features of each request, and the size of each cached item: a content
    hash determines the encoder output and so the number of its embeddings. *)
Context (feats : string -> list MMFeature) (size : string -> Z).
Context (Hsize : forall h, (0 <= size h)%Z).

(** A request the manager may be called with. *)
Definition known (request : Request) : Prop :=
  mm_features request = feats (request_id request) /\
  forall f, f ∈ mm_features request -> mm_num_embeds f = size (identifier f).

Definition occupied (c : gmap string (gset string)) : Z :=
  map_fold (fun h _ acc => (size h + acc)%Z) 0%Z c.

Definition total (l : list (string * Z)) : Z := foldr (fun hn acc => (hn.2 + acc)%Z) 0%Z l.

(** Request [r] uses content [h] at input [id]. *)
Definition uses (m : EncoderCacheManager) (r : string) (id : nat) (h : string) : Prop :=
  id ∈ default ∅ (request_cached_ids m !! r) /\ exists f, feats r !! id = Some f /\ identifier f = h.

Record ec_ok (m : EncoderCacheManager) : Prop := {
  eo_free : num_free_slots m = (cache_size m - occupied (cached m))%Z;
  eo_freeable : num_freeable_slots m = (num_free_slots m + total (freeable m))%Z;
  eo_nonneg : (0 <= num_free_slots m)%Z;
  eo_keys h : h ∈ (freeable m).*1 <-> cached m !! h = Some ∅;
  eo_nodup : NoDup (freeable m).*1;
  eo_size h n : (h, n) ∈ freeable m -> n = size h;
  eo_refs r h : r ∈ default ∅ (cached m !! h) <-> exists id, uses m r id h;
  eo_ids r ids : request_cached_ids m !! r = Some ids -> ids <> ∅;
  eo_feats r id : id ∈ default ∅ (request_cached_ids m !! r) -> id < length (feats r);
}.

Lemma occupied_insert h x c : c !! h = None -> occupied (<[h := x]> c) = (size h + occupied c)%Z.
Proof. intros Hc. unfold occupied. rewrite map_fold_insert_L; [done| |done]. intros. lia. Qed.

Lemma occupied_delete h x c : c !! h = Some x -> occupied c = (size h + occupied (delete h c))%Z.
Proof. intros Hc. unfold occupied. apply (map_fold_delete_L (fun h _ acc => (size h + acc)%Z) _ _ x); [|done].
  intros. lia. Qed.

Lemma occupied_update h x y c : c !! h = Some x -> occupied (<[h := y]> c) = occupied c.
Proof.
  intros Hc. rewrite (occupied_delete h x c Hc), <- insert_delete_eq.
  by rewrite occupied_insert by apply lookup_delete_eq.
Qed.

Lemma total_del h n l : NoDup l.*1 -> (h, n) ∈ l -> total l = (n + total (odict_del h l))%Z.
Proof.
  induction l as [|[h' n'] l IH]; [set_solver|]. simpl.
  intros [Hh Hnd]%NoDup_cons [[= -> ->]|Hin]%elem_of_cons; unfold odict_del in *.
  - rewrite filter_cons_False by (simpl; naive_solver). rewrite list_filter_all; [done|].
    intros [h1 n1] Hin Heq. simpl in Heq. subst. apply Hh, list_elem_of_fmap. by exists (h', n1).
  - rewrite filter_cons_True.
    + simpl. rewrite IH by done. lia.
    + simpl. intros ->. apply Hh, list_elem_of_fmap. by exists (h, n).
Qed.

Lemma total_app l1 l2 : total (l1 ++ l2) = (total l1 + total l2)%Z.
Proof. induction l1 as [|[h n] l1 IH]; [done|]. simpl. rewrite IH. lia. Qed.

Lemma init_ok n : (0 <= n)%Z -> ec_ok (EncoderCacheManager_init n).
Proof.
  intros Hn. split; simpl; try done; try set_solver.
  - unfold occupied. rewrite map_fold_empty. lia.
  - unfold total. simpl. lia.
  - apply NoDup_nil_2.
  - intros r h. rewrite lookup_empty. simpl. split; [set_solver|].
    intros (id & Hu & _). simpl in Hu. rewrite lookup_empty in Hu. simpl in Hu. set_solver.
Qed.

Lemma mm_feature_ok request id f (m : EncoderCacheManager) :
  known request -> mm_features request !! id = Some f ->
  mm_feature request id m = (Ok f, m) /\ num_embeds_of request id m = (Ok (size (identifier f)), m) /\
  feats (request_id request) !! id = Some f.
Proof.
  intros [Hfeats Hknown] Hf. unfold mm_feature, num_embeds_of, get_num_encoder_embeds. rewrite Hf.
  pose proof (lookup_lt_Some _ _ _ Hf). unfold zlen.
  rewrite (proj2 (Z.ltb_lt _ _)) by lia. rewrite pyget_nonneg, Hf. split; [done|].
  rewrite (Hknown f) by by eapply list_elem_of_lookup_2. split; [done|congruence].
Qed.

(** The set of uses after an id is recorded. *)
Lemma uses_add r id f m r' id' h' :
  feats r !! id = Some f ->
  uses (add_request_id r id m) r' id' h' <->
  uses m r' id' h' \/ (r' = r /\ id' = id /\ h' = identifier f).
Proof.
  intros Hf. unfold uses, add_request_id. simpl. destruct (decide (r' = r)) as [->|].
  - rewrite lookup_insert_eq. simpl. split.
    + intros [Hid (f' & Hf' & <-)]. destruct (decide (id' = id)) as [->|].
      * right. split_and!; try done. congruence.
      * left. split; [set_solver|eauto].
    + intros [[Hid ?]|(_ & -> & ->)]; (split; [set_solver|eauto]).
  - rewrite lookup_insert_ne by done. naive_solver.
Qed.

(** *** Adding a reference *)

Lemma add_use_ok r inp f m m' :
  feats r !! inp = Some f -> ec_ok m ->
  let h := identifier f in
  cached m' = <[h := {[r]} ∪ default ∅ (cached m !! h)]> (cached m) ->
  request_cached_ids m' = request_cached_ids (add_request_id r inp m) ->
  num_free_slots m' = (cache_size m' - occupied (cached m'))%Z ->
  num_freeable_slots m' = (num_free_slots m' + total (freeable m'))%Z ->
  (0 <= num_free_slots m')%Z ->
  (forall h', h' ∈ (freeable m').*1 <-> cached m !! h' = Some ∅ /\ h' <> h) ->
  NoDup (freeable m').*1 -> (forall h' n, (h', n) ∈ freeable m' -> n = size h') ->
  ec_ok m' /\ uses m' r inp h.
Proof.
  intros Hfe Hok h Hc Hids Hfree Hfreeable Hpos Hkeys Hnd Hsz.
  assert (Huses : forall r' id' h', uses m' r' id' h' <-> uses m r' id' h' \/ (r' = r /\ id' = inp /\ h' = h)).
  { intros r' id' h'. pose proof (uses_add r inp f m r' id' h' Hfe) as Hu.
    unfold uses in *. rewrite Hids. exact Hu. }
  split; [|apply Huses; by right]. destruct Hok as [_ _ _ _ _ _ Hrefs Hne Hlt]. split; try done.
  - intros h'. rewrite Hkeys, Hc. destruct (decide (h' = h)) as [->|].
    + rewrite lookup_insert_eq. split; [naive_solver|]. intros [= He]. set_solver.
    + rewrite lookup_insert_ne by done. naive_solver.
  - intros r' h'. setoid_rewrite Huses. rewrite Hc.
    transitivity (r' ∈ default ∅ (cached m !! h') \/ (r' = r /\ h' = h)).
    + destruct (decide (h' = h)) as [->|].
      * rewrite lookup_insert_eq. simpl. set_solver.
      * rewrite lookup_insert_ne by done. naive_solver.
    + rewrite Hrefs. naive_solver.
  - intros r' ids. rewrite Hids. simpl.
    intros [[<- <-]|[_ ?]]%lookup_insert_Some; [set_solver|eauto].
  - intros r' id'. rewrite Hids. simpl. destruct (decide (r' = r)) as [->|].
    + rewrite lookup_insert_eq. simpl. intros [->%elem_of_singleton|?]%elem_of_union; [|eauto].
      by eapply lookup_lt_Some.
    + rewrite lookup_insert_ne by done. eauto.
Qed.

(** *** Looking up *)

Lemma check_and_update_cache_spec request inp f m :
  known request -> mm_features request !! inp = Some f -> ec_ok m ->
  wp (check_and_update_cache request inp) (fun b m' =>
    b = bool_decide (is_Some (cached m !! identifier f)) /\ ec_ok m' /\
    (b = false -> m' = m) /\ (b = true -> uses m' (request_id request) inp (identifier f)) /\
    (b = true -> request_cached_ids m' = request_cached_ids (add_request_id (request_id request) inp m)) /\
    num_free_slots m' = num_free_slots m /\ cache_size m' = cache_size m /\
    dom (cached m') = dom (cached m)) m.
Proof.
  intros Hk Hf Hok. destruct (mm_feature_ok request inp f m Hk Hf) as (Hmm & _ & Hfe).
  set (h := identifier f). set (r := request_id request).
  unfold check_and_update_cache. rewrite wp_bind. unfold wp at 1. rewrite Hmm. wp_steps. fold h.
  destruct (cached m !! h) as [rids|] eqn:Hc.
  2: { rewrite wp_ret, bool_decide_false by apply is_Some_None. by split_and!. }
  rewrite (bool_decide_true (is_Some (Some rids))) by done.
  assert (Hocc : forall x, occupied (<[h := x]> (cached m)) = occupied (cached m))
    by (intros; by apply (occupied_update h rids)).
  assert (Hdom : dom (<[h := {[r]} ∪ default ∅ (cached m !! h)]> (cached m)) = dom (cached m)).
  { rewrite dom_insert_L. assert (h ∈ dom (cached m)) by (by apply elem_of_dom). set_solver. }
  case_bool_decide as Hr; unfold mwhen.
  - subst rids. assert (Hin : h ∈ (freeable m).*1) by by apply Hok.
    apply list_elem_of_fmap in Hin as ([h' n] & Hh' & Hin). simpl in Hh'. subst h'.
    wp_steps. exists n. split; [by apply odict_get_nodup; [apply Hok|]|]. wp_steps.
    match goal with |- _ /\ ec_ok ?m' /\ _ => destruct (add_use_ok r inp f m m' Hfe Hok) as [H1 H2] end;
      simpl; rewrite ?Hocc; try done; try apply Hok.
    + rewrite (eo_freeable _ Hok), (total_del h n) by (done || apply Hok). lia.
    + intros h'. rewrite odict_keys_del, list_elem_of_filter, (eo_keys _ Hok). naive_solver.
    + rewrite odict_keys_del. apply NoDup_filter, Hok.
    + intros h' n' [??]%elem_of_odict_del. by apply Hok.
  - wp_steps.
    match goal with |- _ /\ ec_ok ?m' /\ _ => destruct (add_use_ok r inp f m m' Hfe Hok) as [H1 H2] end;
      simpl; rewrite ?Hocc; try done; try apply Hok.
    intros h'. rewrite (eo_keys _ Hok). fold h. split; [|tauto]. intros Hh'. split; [done|].
    intros ->. congruence.
Qed.

(** *** Making room *)

(** State after evicting the entries [l1] of [freeable = l1 ++ l2]. *)
Definition evict_prefix (l1 l2 : list (string * Z)) (m : EncoderCacheManager) : EncoderCacheManager :=
  m <| freeable := l2 |>
    <| cached := foldl (fun c h => delete h c) (cached m) l1.*1 |>
    <| freed := freed m ++ l1.*1 |>
    <| num_free_slots := (num_free_slots m + total l1)%Z |>.

Lemma ec_ext m m' :
  cache_size m = cache_size m' -> num_free_slots m = num_free_slots m' ->
  num_freeable_slots m = num_freeable_slots m' -> cached m = cached m' ->
  request_cached_ids m = request_cached_ids m' -> freeable m = freeable m' -> freed m = freed m' -> m = m'.
Proof. destruct m, m'. simpl. by intros -> -> -> -> -> -> ->. Qed.

Lemma evict_prefix_nil m : evict_prefix [] (freeable m) m = m.
Proof. apply ec_ext; try done; simpl; [unfold total; simpl; lia|apply app_nil_r]. Qed.

Lemma evict_prefix_cons e l1 l2 m :
  evict_prefix (e :: l1) l2 m = evict_prefix l1 l2 (evict_prefix [e] (l1 ++ l2) m).
Proof. apply ec_ext; try done; csimpl; [lia|by rewrite <- app_assoc]. Qed.

Lemma evict_one_ok h n l2 m :
  freeable m = (h, n) :: l2 -> ec_ok m -> ec_ok (evict_prefix [(h, n)] l2 m).
Proof using Hsize.
  intros Hfl [Hfree Hfreeable Hpos Hkeys Hnd Hsz Hrefs Hids Hfe]. rewrite Hfl in *.
  assert (Hc : cached m !! h = Some ∅) by (apply Hkeys; set_solver).
  assert (n = size h) as -> by (apply Hsz; set_solver).
  csimpl in Hnd. apply NoDup_cons in Hnd as [Hh Hnd]. pose proof (Hsize h).
  unfold evict_prefix. split; csimpl; try done; try lia.
  - rewrite Hfree, (occupied_delete h ∅ (cached m)) by done. lia.
  - rewrite Hfreeable. simpl. lia.
  - intros h'. destruct (decide (h' = h)) as [->|].
    + rewrite lookup_delete_eq. naive_solver.
    + rewrite lookup_delete_ne by done. rewrite <- Hkeys. set_solver.
  - intros h' n' Hin. apply Hsz. set_solver.
  - intros r h'. rewrite <- (Hrefs r h'). destruct (decide (h' = h)) as [->|].
    + by rewrite lookup_delete_eq, Hc.
    + by rewrite lookup_delete_ne.
Qed.

Lemma evict_loop_spec num entries m :
  ec_ok m -> freeable m = entries -> (num <= num_free_slots m + total entries)%Z ->
  exists l1 l2, entries = l1 ++ l2 /\ evict_loop num entries m = (Ok tt, evict_prefix l1 l2 m) /\
    (num <= num_free_slots m + total l1)%Z /\ ec_ok (evict_prefix l1 l2 m) /\
    forall l e l', l1 = l ++ e :: l' -> (num_free_slots m + total l < num)%Z.
Proof using Hsize.
  revert m. induction entries as [|[h n] entries IH]; intros m Hok Hfl Hnum; simpl.
  - exists [], []. pose proof (evict_prefix_nil m) as He. rewrite Hfl in He. rewrite He, (proj2 (Z.leb_le _ _)).
    + split_and!; try done. intros l e l' Hl. by destruct l.
    + unfold total in Hnum. simpl in Hnum. lia.
  - destruct (Z.leb_spec num (num_free_slots m)).
    { exists [], ((h, n) :: entries). pose proof (evict_prefix_nil m) as He. rewrite Hfl in He. rewrite He.
      split_and!; try done; [unfold total; simpl; lia|]. intros l e l' Hl. by destruct l. }
    assert (Hc : cached m !! h = Some ∅) by (apply Hok; rewrite Hfl; set_solver). rewrite Hc.
    pose proof (evict_one_ok h n entries m Hfl Hok) as Hok1.
    assert (Heq : m <| freeable := entries |> <| cached := delete h (cached m) |>
        <| freed := freed m ++ [h] |> <| num_free_slots := (num_free_slots m + n)%Z |> =
      evict_prefix [(h, n)] entries m).
    { unfold evict_prefix, total. simpl. by rewrite Z.add_0_r. }
    simpl in Heq |- *. rewrite Heq.
    destruct (IH (evict_prefix [(h, n)] entries m) Hok1 eq_refl) as (l1 & l2 & -> & Hrun & Hle & Hok2 & Hmin).
    { simpl in Hnum |- *. lia. }
    exists ((h, n) :: l1), l2. rewrite (evict_prefix_cons (h, n) l1 l2). simpl in Hle |- *.
    split_and!; try done; [lia|]. intros [|e0 l] e l' Hl; simpl in *.
    + lia.
    + injection Hl as <- Hl. specialize (Hmin l e l' Hl). simpl in *. lia.
Qed.

Lemma total_nonneg m : ec_ok m -> (0 <= total (freeable m))%Z.
Proof using Hsize.
  intros Hok. pose proof (eo_size _ Hok) as Hs. clear -Hs Hsize.
  induction (freeable m) as [|[h n] l IH]; [done|]. simpl. rewrite (Hs h n) by set_solver.
  pose proof (Hsize h). enough (0 <= total l)%Z by lia. apply IH. set_solver.
Qed.

(** Eviction takes the shortest sufficient run of the oldest unreferenced entries;
    it happens exactly when the item fits in the reclaimable space and not in the
    free space. *)
Lemma can_allocate_spec request inp f budget sched m :
  known request -> mm_features request !! inp = Some f -> ec_ok m ->
  let need := (size (identifier f) + sched)%Z in
  exists l1 l2, freeable m = l1 ++ l2 /\
    can_allocate request inp budget sched m =
      (Ok ((size (identifier f) <=? budget)%Z && (need <=? num_freeable_slots m)%Z), evict_prefix l1 l2 m) /\
    ec_ok (evict_prefix l1 l2 m) /\
    ((size (identifier f) <= budget)%Z -> (need <= num_freeable_slots m)%Z ->
      (need <= num_free_slots (evict_prefix l1 l2 m))%Z) /\
    (forall l e l', l1 = l ++ e :: l' ->
      (size (identifier f) <= budget)%Z /\ (need <= num_freeable_slots m)%Z /\
      (num_free_slots m + total l < need)%Z).
Proof using Hsize.
  intros Hk Hf Hok need. destruct (mm_feature_ok request inp f m Hk Hf) as (_ & Hn & _).
  unfold can_allocate, mbind, M_bind, gets, id. rewrite Hn.
  pose proof (total_nonneg m Hok) as Htot.
  pose proof (eo_freeable _ Hok) as Hfre.
  assert (Hkeep : forall b : bool,
    b = (size (identifier f) <=? budget)%Z && (need <=? num_freeable_slots m)%Z ->
    (b = true -> (need <= num_free_slots m)%Z) ->
    exists l1 l2, freeable m = l1 ++ l2 /\
      (Ok b, m) = (Ok ((size (identifier f) <=? budget)%Z && (need <=? num_freeable_slots m)%Z),
        evict_prefix l1 l2 m) /\ ec_ok (evict_prefix l1 l2 m) /\
      ((size (identifier f) <= budget)%Z -> (need <= num_freeable_slots m)%Z ->
        (need <= num_free_slots (evict_prefix l1 l2 m))%Z) /\
      (forall l e l', l1 = l ++ e :: l' ->
        (size (identifier f) <= budget)%Z /\ (need <= num_freeable_slots m)%Z /\
        (num_free_slots m + total l < need)%Z)).
  { intros b Hb Hroom. exists [], (freeable m). rewrite evict_prefix_nil. subst b. split_and!; try done.
    - intros. apply Hroom. lia.
    - intros l e l' Hl. by destruct l. }
  destruct (Z.ltb_spec budget (size (identifier f))); [apply Hkeep; lia|].
  fold need. destruct (Z.leb_spec need (num_free_slots m)); [apply Hkeep; lia|].
  destruct (Z.ltb_spec (num_freeable_slots m) need); [apply Hkeep; lia|].
  destruct (evict_loop_spec need (freeable m) m Hok eq_refl) as (l1 & l2 & Hfl & Hrun & Hle & Hok2 & Hmin); [lia|].
  exists l1, l2. rewrite Hrun. split_and!; try done.
  - simpl. unfold mret, M_ret. do 2 f_equal. lia.
  - intros l e l' Hl. split_and!; try lia. by eapply Hmin.
Qed.

(** *** Allocating *)

Lemma allocate_spec request inp f m :
  known request -> mm_features request !! inp = Some f -> ec_ok m ->
  cached m !! identifier f = None -> (size (identifier f) <= num_free_slots m)%Z ->
  wp (allocate request inp) (fun _ m' => ec_ok m' /\ uses m' (request_id request) inp (identifier f) /\
    num_free_slots m' = (num_free_slots m - size (identifier f))%Z /\ cache_size m' = cache_size m /\
    freeable m' = freeable m /\ dom (cached m') = {[identifier f]} ∪ dom (cached m) /\
    request_cached_ids m' = request_cached_ids (add_request_id (request_id request) inp m)) m.
Proof using Hsize.
  intros Hk Hf Hok Hc Hroom. destruct (mm_feature_ok request inp f m Hk Hf) as (Hmm & _ & Hfe).
  set (h := identifier f) in *.
  unfold allocate. rewrite wp_bind. unfold wp at 1. rewrite Hmm. wp_steps.
  fold h. rewrite bool_decide_true by done. set (m1 := m <| cached := _ |>).
  destruct (mm_feature_ok request inp f m1 Hk Hf) as (_ & Hn & _).
  unfold wp at 1. rewrite Hn. wp_steps. fold h.
  pose proof (total_nonneg m Hok) as Htot.
  pose proof (eo_freeable _ Hok) as Hfre. split; [lia|]. wp_steps. split; [lia|]. wp_steps.
  assert (Hins : <[h := {[request_id request]} ∪ default ∅ (<[h := ∅]> (cached m) !! h)]> (<[h := ∅]> (cached m)) =
    <[h := {[request_id request]} ∪ default ∅ (cached m !! h)]> (cached m)).
  { rewrite lookup_insert_eq, Hc, insert_insert_eq. done. }
  match goal with |- ec_ok ?m' /\ _ => destruct (add_use_ok (request_id request) inp f m m' Hfe Hok) as [H1 H2] end;
    simpl; try done; try apply Hok.
  - rewrite Hins, occupied_insert by done. rewrite (eo_free _ Hok). fold h. lia.
  - lia.
  - lia.
  - intros h'. rewrite (eo_keys _ Hok). fold h. naive_solver.
  - split_and!; try done. rewrite Hins. apply dom_insert_L.
Qed.

(** *** Dropping references *)

Lemma discard_ids r inp m r' :
  default ∅ (request_cached_ids (discard_request_id r inp m) !! r') =
  (if decide (r' = r) then default ∅ (request_cached_ids m !! r') ∖ {[inp]}
   else default ∅ (request_cached_ids m !! r')) :> gset nat.
Proof.
  unfold discard_request_id. destruct (request_cached_ids m !! r) as [ids|] eqn:Hr.
  - simpl. case_bool_decide as He; destruct (decide (r' = r)) as [->|].
    + rewrite lookup_delete_eq, Hr. simpl. set_solver.
    + by rewrite lookup_delete_ne.
    + by rewrite lookup_insert_eq, Hr.
    + by rewrite lookup_insert_ne.
  - case_decide; [subst; rewrite Hr; simpl; set_solver|done].
Qed.

Lemma discard_nonempty r inp m :
  (forall r' ids, request_cached_ids m !! r' = Some ids -> ids <> ∅) ->
  forall r' ids, request_cached_ids (discard_request_id r inp m) !! r' = Some ids -> ids <> ∅.
Proof.
  intros Hm r' ids. unfold discard_request_id.
  destruct (request_cached_ids m !! r) as [ids0|] eqn:Hr; [|apply Hm]. simpl. case_bool_decide.
  - intros [_ ?]%lookup_delete_Some. eauto.
  - intros [[<- <-]|[_ ?]]%lookup_insert_Some; eauto.
Qed.

Lemma uses_discard r inp m r' id' h' m' :
  request_cached_ids m' = request_cached_ids (discard_request_id r inp m) ->
  uses m' r' id' h' <-> uses m r' id' h' /\ ~ (r' = r /\ id' = inp).
Proof.
  intros Hids. unfold uses. rewrite Hids, discard_ids. case_decide; set_solver.
Qed.

(** Changing ids and references consistently, with the slots of [h] following. *)
Lemma drop_use_ok r inp f m m' :
  feats r !! inp = Some f -> ec_ok m ->
  let h := identifier f in
  request_cached_ids m' = request_cached_ids (discard_request_id r inp m) ->
  cache_size m' = cache_size m -> num_free_slots m' = num_free_slots m ->
  (exists rids, default ∅ (cached m' !! h) = rids /\
     cached m' = (if decide (is_Some (cached m !! h)) then <[h := rids]> (cached m) else cached m) /\
     (forall r', r' ∈ rids <-> exists id', uses m' r' id' h) /\
     if decide (cached m !! h <> Some ∅ /\ cached m' !! h = Some ∅)
     then freeable m' = odict_set h (size h) (freeable m) /\
          num_freeable_slots m' = (num_freeable_slots m + size h)%Z
     else freeable m' = freeable m /\ num_freeable_slots m' = num_freeable_slots m /\
          (cached m' !! h = Some ∅ <-> cached m !! h = Some ∅)) ->
  ec_ok m' /\ dom (cached m') = dom (cached m).
Proof.
  intros Hfe Hok h Hids Hcs Hfree (rids & Hrids & Hc & Hiff & Hfl).
  destruct Hok as [Hf Hfr Hpos Hkeys Hnd Hsz Hrefs Hne Hlt].
  assert (Hc' : forall h', h' <> h -> cached m' !! h' = cached m !! h').
  { intros h' Hh'. rewrite Hc. destruct (decide (is_Some (cached m !! h))); [by rewrite lookup_insert_ne|done]. }
  assert (Hocc : occupied (cached m') = occupied (cached m)).
  { rewrite Hc. destruct (decide (is_Some (cached m !! h))) as [[x Hx]|]; [|done]. by apply (occupied_update h x). }
  split.
  - assert (Hboth : num_freeable_slots m' = (num_free_slots m' + total (freeable m'))%Z /\
      (forall h', h' ∈ (freeable m').*1 <-> cached m' !! h' = Some ∅) /\ NoDup (freeable m').*1 /\
      (forall h' n, (h', n) ∈ freeable m' -> n = size h')).
    { destruct (decide (cached m !! h <> Some ∅ /\ cached m' !! h = Some ∅)) as [Hd|Hd].
      - destruct Hd as [Hd1 Hd2], Hfl as [-> ->].
        assert (Hni : h ∉ (freeable m).*1) by (rewrite Hkeys; done).
        rewrite odict_set_new by done. rewrite fmap_app, total_app. simpl. split_and!.
        + rewrite Hfree, Hfr. lia.
        + intros h'. rewrite elem_of_app, list_elem_of_singleton, Hkeys.
          destruct (decide (h' = h)) as [->|]; [naive_solver|]. rewrite Hc' by done. naive_solver.
        + apply NoDup_app. split_and!; [done|set_solver|apply NoDup_singleton].
        + intros h' n. rewrite elem_of_app, list_elem_of_singleton. intros [?|[= -> ->]]; [eauto|done].
      - destruct Hfl as (-> & -> & Hsame). split_and!; try done; [congruence|].
        intros h'. rewrite Hkeys. destruct (decide (h' = h)) as [->|]; [done|]. by rewrite Hc'. }
    destruct Hboth as (? & ? & ? & ?). split; try done; try congruence.
    + intros r' h'. destruct (decide (h' = h)) as [->|Hh'].
      * by rewrite Hrids.
      * rewrite Hc', Hrefs by done. setoid_rewrite (fun r' id' h' => uses_discard r inp m r' id' h' m' Hids).
        split; [|naive_solver]. intros (id' & Hu). exists id'. split; [done|]. intros [-> ->].
        destruct Hu as (_ & f' & Hf' & <-). apply Hh'. unfold h. congruence.
    + rewrite Hids. by apply discard_nonempty.
    + intros r' id'. rewrite Hids, discard_ids. intros Hin. apply Hlt. case_decide; set_solver.
  - rewrite Hc. destruct (decide (is_Some (cached m !! h))); [|done]. rewrite dom_insert_L.
    assert (h ∈ dom (cached m)) by (by apply elem_of_dom). set_solver.
Qed.

Lemma any_occurrence_spec request h ids m :
  (forall i, i ∈ ids -> i < length (mm_features request)) ->
  any_occurrence request h ids m =
    (Ok (bool_decide (Exists (fun i => (identifier <$> mm_features request !! i) = Some h) ids)), m).
Proof.
  induction ids as [|i ids IH]; intros Hi; [done|]. cbn [any_occurrence].
  destruct (lookup_lt_is_Some_2 (mm_features request) i) as [f Hf]; [apply Hi; set_solver|].
  unfold mm_feature, mbind, M_bind. rewrite Hf. cbn [of_option]. unfold mret at 1, M_ret at 1.
  destruct (decide (identifier f = h)) as [Hh|Hh].
  - rewrite !bool_decide_true; [done| |done]. constructor. rewrite Hf. simpl. congruence.
  - rewrite (bool_decide_false (identifier f = h)), IH by set_solver. do 2 f_equal.
    apply bool_decide_ext. rewrite Exists_cons, Hf. simpl. naive_solver.
Qed.

Lemma discard_same r inp m :
  let m1 := discard_request_id r inp m in
  cached m1 = cached m /\ cache_size m1 = cache_size m /\ num_free_slots m1 = num_free_slots m /\
  freeable m1 = freeable m /\ num_freeable_slots m1 = num_freeable_slots m.
Proof. unfold discard_request_id. by destruct (request_cached_ids m !! r). Qed.

(** Forgetting an id alone, when the reference it stood for remains or was never there. *)
Lemma discard_ok r inp f m :
  feats r !! inp = Some f -> ec_ok m ->
  let m1 := discard_request_id r inp m in
  (cached m !! identifier f = None \/ cached m !! identifier f = Some ∅ \/
   exists id', uses m1 r id' (identifier f)) ->
  ec_ok m1 /\ dom (cached m1) = dom (cached m).
Proof.
  intros Hfe Hok m1 Hwhy. set (h := identifier f) in *.
  destruct (discard_same r inp m) as (Hc1 & Hcs1 & Hnf1 & Hfl1 & Hnfr1). fold m1 in Hc1, Hcs1, Hnf1, Hfl1, Hnfr1.
  assert (Hu1 : forall r' id', uses m1 r' id' h <-> uses m r' id' h /\ ~ (r' = r /\ id' = inp))
    by (intros; by apply uses_discard).
  apply (drop_use_ok r inp f); try done. exists (default ∅ (cached m !! h)).
  fold h. rewrite Hc1. split_and!; try done.
  - case_decide as Hs; [|done]. destruct Hs as [x Hx]. rewrite Hx. simpl. by rewrite insert_id.
  - intros r'. rewrite (eo_refs _ Hok). setoid_rewrite Hu1. split; [|naive_solver].
    intros Hex. pose proof Hex as Hin. apply (eo_refs _ Hok) in Hin.
    destruct Hwhy as [Hn|[Hn|[id0 Hid0]]]; [rewrite Hn in Hin; simpl in Hin; set_solver..|].
    destruct (decide (r' = r)) as [->|]; [|naive_solver]. exists id0. by apply Hu1.
  - rewrite decide_False by tauto. done.
Qed.

Lemma any_other_occurrence request inp h m :
  known request -> ec_ok m ->
  let m1 := discard_request_id (request_id request) inp m in
  any_occurrence request h (elements (get_cached_input_ids request m1)) m1 =
    (Ok (bool_decide (Exists (fun i => (identifier <$> mm_features request !! i) = Some h)
       (elements (get_cached_input_ids request m1)))), m1) /\
  (Exists (fun i => (identifier <$> mm_features request !! i) = Some h)
     (elements (get_cached_input_ids request m1)) <-> exists id', uses m1 (request_id request) id' h).
Proof.
  intros [Hkf _] Hok m1. split.
  - apply any_occurrence_spec. intros i Hi. apply elem_of_elements in Hi. revert Hi.
    unfold get_cached_input_ids, m1. rewrite discard_ids, decide_True by done.
    intros [Hi _]%elem_of_difference. rewrite Hkf. by apply (eo_feats _ Hok).
  - rewrite Exists_exists. unfold uses. rewrite <- Hkf.
    setoid_rewrite elem_of_elements. unfold get_cached_input_ids.
    split; intros (i & Hi & Hfi); exists i; split; try done.
    + apply fmap_Some in Hfi as (f' & ? & ->). eauto.
    + destruct Hfi as (f' & -> & <-). done.
Qed.

(** The references to [h] once the last occurrence in request [r] is gone. *)
Lemma remaining_refs r inp f rids m m' :
  feats r !! inp = Some f -> ec_ok m -> cached m !! identifier f = Some rids ->
  request_cached_ids m' = request_cached_ids (discard_request_id r inp m) ->
  ~ (exists id', uses (discard_request_id r inp m) r id' (identifier f)) ->
  forall r', r' ∈ rids ∖ {[r]} <-> exists id', uses m' r' id' (identifier f).
Proof.
  intros Hfe Hok Hch Hm' Hany r'.
  setoid_rewrite (fun id' => uses_discard r inp m r' id' (identifier f) m' Hm').
  rewrite elem_of_difference, elem_of_singleton.
  assert (Hr' : r' ∈ rids <-> exists id', uses m r' id' (identifier f))
    by (rewrite <- (eo_refs _ Hok), Hch; done).
  rewrite Hr'. split.
  - intros [[id' Hu] Hne]. exists id'. naive_solver.
  - intros (id' & Hu & Hn). split; [eauto|]. intros ->. apply Hany. exists id'. by apply (uses_discard r inp m).
Qed.

Lemma free_encoder_input_spec request inp f m :
  known request -> mm_features request !! inp = Some f -> ec_ok m ->
  wp (free_encoder_input request inp) (fun _ m' => ec_ok m' /\
    request_cached_ids m' = request_cached_ids (discard_request_id (request_id request) inp m) /\
    cache_size m' = cache_size m /\ num_free_slots m' = num_free_slots m /\
    dom (cached m') = dom (cached m)) m.
Proof.
  intros Hk Hf Hok. destruct (mm_feature_ok request inp f m Hk Hf) as (Hmm & _ & Hfe).
  destruct (any_other_occurrence request inp (identifier f) m Hk Hok) as [Hany Hocc].
  set (h := identifier f) in *. set (r := request_id request) in *.
  unfold free_encoder_input. rewrite wp_bind. unfold wp at 1. rewrite Hmm. wp_steps.
  fold h r. unfold id. pose proof (discard_ok r inp f m Hfe Hok) as Hkeep. fold h in Hkeep.
  destruct (discard_same r inp m) as (Hc1 & Hcs1 & Hnf1 & Hfl1 & Hnfr1).
  set (m1 := discard_request_id r inp m) in *. simpl in Hkeep.
  destruct (cached m1 !! h) as [rids|] eqn:Hch; rewrite Hc1 in Hch.
  2: { rewrite wp_ret. destruct Hkeep as [? ?]; [by left|done]. }
  destruct (decide (rids = ∅)) as [->|Hr0].
  { rewrite bool_decide_true by done. rewrite wp_ret. destruct Hkeep as [? ?]; [by right; left|done]. }
  rewrite bool_decide_false by done.
  rewrite wp_bind. unfold wp at 1. rewrite Hany. clear Hany. case_bool_decide as Hex; rewrite Hocc in Hex.
  { rewrite wp_ret. destruct Hkeep as [? ?]; [by right; right|done]. }
  wp_steps. rewrite Hc1. case_bool_decide as He.
  - rewrite wp_bind. unfold wp at 1.
    match goal with |- context [num_embeds_of _ _ ?m2] =>
      destruct (mm_feature_ok request inp f m2 Hk Hf) as (_ & -> & _) end. fold h. rewrite wp_modify.
    match goal with |- ec_ok ?m' /\ _ =>
      destruct (drop_use_ok r inp f m m') as [? Hdom]; try done; simpl end.
    exists (rids ∖ {[r]}). fold h. rewrite lookup_insert_eq, Hch, Hfl1, Hnfr1. split_and!; try done.
    + by apply (remaining_refs r inp f rids m).
    + rewrite decide_True by (split; [congruence|by rewrite He]). done.
  - rewrite wp_ret.
    match goal with |- ec_ok ?m' /\ _ =>
      destruct (drop_use_ok r inp f m m') as [? Hdom]; try done; simpl end.
    exists (rids ∖ {[r]}). fold h. rewrite lookup_insert_eq, Hch, Hfl1, Hnfr1. split_and!; try done.
    + by apply (remaining_refs r inp f rids m).
    + rewrite decide_False by (intros [_ [=]]; done). split_and!; try done. naive_solver.
Qed.

Lemma ec_free_loop request ids m :
  known request -> ec_ok m -> (forall i, i ∈ ids -> i < length (mm_features request)) ->
  wp (mfor ids (free_encoder_input request)) (fun _ m' => ec_ok m' /\
    get_cached_input_ids request m' = get_cached_input_ids request m ∖ list_to_set ids /\
    cache_size m' = cache_size m /\ num_free_slots m' = num_free_slots m /\
    dom (cached m') = dom (cached m)) m.
Proof.
  intros Hk. revert m. induction ids as [|i ids IH]; intros m Hok Hids; simpl.
  - rewrite wp_ret. split_and!; try done. set_solver.
  - destruct (lookup_lt_is_Some_2 (mm_features request) i) as [f Hf]; [apply Hids; set_solver|].
    rewrite wp_bind. eapply wp_mono; [by apply (free_encoder_input_spec request i f)|].
    intros _ m1 (Hok1 & Hids1 & Hcs1 & Hnf1 & Hd1). eapply wp_mono; [apply (IH m1); set_solver|].
    intros _ m2 (Hok2 & Hids2 & Hcs2 & Hnf2 & Hd2). split_and!; try congruence.
    rewrite Hids2. unfold get_cached_input_ids. rewrite Hids1, discard_ids, decide_True by done. set_solver.
Qed.

(** Releasing a request drops all its references and keeps every entry. *)
Lemma ec_free_spec request m :
  known request -> ec_ok m ->
  wp (ec_free request) (fun _ m' => ec_ok m' /\
    (forall h, request_id request ∉ default ∅ (cached m' !! h)) /\
    cache_size m' = cache_size m /\ num_free_slots m' = num_free_slots m /\
    dom (cached m') = dom (cached m)) m.
Proof.
  intros Hk Hok. unfold ec_free. wp_steps. unfold id.
  eapply wp_mono; [apply ec_free_loop; try done|].
  - intros i Hi%elem_of_elements. destruct Hk as [-> _]. by apply (eo_feats _ Hok).
  - intros _ m' (Hok' & Hids & Hrest). split_and!; try done; try apply Hrest.
    intros h (id' & Hu & _)%(eo_refs _ Hok'). unfold get_cached_input_ids in Hids.
    rewrite Hids, list_to_set_elements_L in Hu. set_solver.
Qed.

Lemma total_le_occupied l c :
  NoDup l.*1 -> (forall h n, (h, n) ∈ l -> n = size h) -> (forall h, h ∈ l.*1 -> is_Some (c !! h)) ->
  (total l <= occupied c)%Z.
Proof using Hsize feats.
  revert c. induction l as [|[h n] l IH]; intros c Hnd Hsz Hin.
  - unfold total. simpl. clear Hnd Hsz Hin. induction c as [|h x c Hc IHc] using map_ind.
    + unfold occupied. by rewrite map_fold_empty.
    + rewrite occupied_insert by done. pose proof (Hsize h). lia.
  - csimpl in Hnd. apply NoDup_cons in Hnd as [Hh Hnd].
    destruct (Hin h) as [x Hx]; [csimpl; set_solver|].
    rewrite (occupied_delete h x c Hx). simpl. rewrite (Hsz h n) by set_solver.
    enough (total l <= occupied (delete h c))%Z by lia. apply IH; [done|set_solver|].
    intros h' Hh'. rewrite lookup_delete_ne by (intros ->; done). apply Hin. csimpl. set_solver.
Qed.

(** The slots in use never exceed the cache, nor the free ones the reclaimable ones. *)
Lemma ec_bounds m :
  ec_ok m ->
  (0 <= num_free_slots m <= num_freeable_slots m)%Z /\ (num_freeable_slots m <= cache_size m)%Z.
Proof using Hsize.
  intros Hok. pose proof (total_nonneg m Hok). destruct Hok as [Hf Hfr Hpos Hkeys Hnd Hsz _ _ _].
  assert (total (freeable m) <= occupied (cached m))%Z; [|lia].
  apply total_le_occupied; [done..|]. intros h Hh%Hkeys. eauto.
Qed.

(** *** Reachable states *)

Inductive ec_op :=
  | OpCheck (request : Request) (input_id : nat)
  | OpCanAllocate (request : Request) (input_id : nat) (budget num_embeds_to_schedule : Z)
  | OpAllocate (request : Request) (input_id : nat)
  | OpFreeInput (request : Request) (input_id : nat)
  | OpFree (request : Request)
  | OpTakeFreed
  | OpReset.

Definition run_op (op : ec_op) : M EncoderCacheManager unit :=
  match op with
  | OpCheck r i => check_and_update_cache r i ;; mret tt
  | OpCanAllocate r i b n => can_allocate r i b n ;; mret tt
  | OpAllocate r i => allocate r i
  | OpFreeInput r i => free_encoder_input r i
  | OpFree r => ec_free r
  | OpTakeFreed => get_freed_mm_hashes ;; mret tt
  | OpReset => modify ec_reset
  end.

(** What the scheduler respects: inputs of known requests, and room made for an
    item that is not cached before it is allocated. *)
Definition op_allowed (m : EncoderCacheManager) (op : ec_op) : Prop :=
  match op with
  | OpCheck r i | OpCanAllocate r i _ _ | OpFreeInput r i => known r /\ i < length (mm_features r)
  | OpAllocate r i => known r /\ exists f, mm_features r !! i = Some f /\
      cached m !! identifier f = None /\ (size (identifier f) <= num_free_slots m)%Z
  | OpFree r => known r
  | OpTakeFreed | OpReset => True
  end.

Inductive ec_reach (n : Z) : EncoderCacheManager -> Prop :=
  | ec_reach_init : ec_reach n (EncoderCacheManager_init n)
  | ec_reach_step m op o m' : ec_reach n m -> op_allowed m op -> run_op op m = (o, m') -> ec_reach n m'.

Lemma run_op_ok m op :
  (0 <= cache_size m)%Z -> ec_ok m -> op_allowed m op ->
  wp (run_op op) (fun _ m' => ec_ok m' /\ cache_size m' = cache_size m) m.
Proof using Hsize.
  intros Hcs Hok Hop. destruct op; simpl in *; rewrite ?wp_bind;
    try (lazymatch type of Hop with _ /\ _ < _ =>
      destruct Hop as [Hk Hi]; apply lookup_lt_is_Some_2 in Hi as [f Hf] end).
  - eapply wp_mono; [by apply (check_and_update_cache_spec request input_id f)|].
    intros b m' (_ & ? & _ & _ & _ & _ & ? & _). by rewrite wp_ret.
  - destruct (can_allocate_spec request input_id f budget num_embeds_to_schedule m Hk Hf Hok)
      as (l1 & l2 & _ & Hrun & Hok' & _). unfold wp at 1. rewrite Hrun. by rewrite wp_ret.
  - destruct Hop as (Hk & f & Hf & Hc & Hroom).
    eapply wp_mono; [by apply (allocate_spec request input_id f)|]. naive_solver.
  - eapply wp_mono; [by apply (free_encoder_input_spec request input_id f)|]. naive_solver.
  - eapply wp_mono; [by apply ec_free_spec|]. naive_solver.
  - unfold get_freed_mm_hashes. wp_steps. split; [|done]. by destruct Hok.
  - wp_steps. split; [|done]. destruct (init_ok (cache_size m) Hcs). by split.
Qed.

Lemma ec_reach_ok n m : (0 <= n)%Z -> ec_reach n m -> ec_ok m /\ cache_size m = n.
Proof using Hsize.
  intros Hn Hr. induction Hr as [|m op o m' Hr [IH Hcs] Hop Hrun]; [by split; [apply init_ok|]|].
  pose proof (run_op_ok m op ltac:(lia) IH Hop) as Hw. unfold wp in Hw. rewrite Hrun in Hw.
  destruct o; [|done]. destruct Hw. split; [done|congruence].
Qed.
End invariant.

(** ** Properties *)

(** C26. Encoder-cache accounting.  From [__init__] through any series of lookups,
    admissions, allocations, releases and resets that respects the scheduler's
    protocol, no call raises; the free slots are the cache size minus the sizes of
    all cached items, the reclaimable slots add the sizes of the unreferenced ones,
    [0 <= free <= reclaimable <= cache size]; [freeable] lists exactly the cached
    items without references; and a request is referenced by an item exactly when
    one of its recorded inputs has that content hash. *)
Theorem encoder_cache_invariant feats size n m :
  (forall h, (0 <= size h)%Z) -> (0 <= n)%Z -> ec_reach feats size n m ->
  ec_ok feats size m /\ cache_size m = n /\
  (0 <= num_free_slots m <= num_freeable_slots m)%Z /\ (num_freeable_slots m <= n)%Z /\
  forall op, op_allowed feats size m op -> exists m', run_op op m = (Ok tt, m').
Proof.
  intros Hsize Hn Hr. destruct (ec_reach_ok feats size Hsize n m Hn Hr) as [Hok Hcs].
  destruct (ec_bounds feats size Hsize m Hok) as [? ?]. split_and!; try done; try lia.
  intros op Hop. pose proof (run_op_ok feats size Hsize m op ltac:(lia) Hok Hop) as Hw.
  apply wp_run in Hw as ([] & m' & ? & _). eauto.
Qed.

(** Two requests that carry the same image of three embeddings. *)
Definition demo_image : MMFeature :=
  {| identifier := "img"; mm_offset := 0; mm_length := 3; mm_is_embed := None |}.
Definition demo_mm_request (rid : string) : Request :=
  text_request rid [7; 7; 7; 1]%Z <| mm_features := [demo_image] |>.

Lemma demo_known rid :
  known (fun _ => [demo_image]) (fun _ => 3%Z) (demo_mm_request rid).
Proof. split; [done|]. by intros f ->%list_elem_of_singleton. Qed.

(** The first request's image allocated, then released. *)
Definition demo_ec1 : EncoderCacheManager :=
  (run_op (OpAllocate (demo_mm_request "a") 0) (EncoderCacheManager_init 4)).2.
Definition demo_ec2 : EncoderCacheManager := (run_op (OpFree (demo_mm_request "a")) demo_ec1).2.

Lemma encoder_cache_invariant_witness :
  ec_ok (fun _ => [demo_image]) (fun _ => 3%Z) demo_ec2 /\
  exists m', run_op (OpCheck (demo_mm_request "b") 0) demo_ec2 = (Ok tt, m').
Proof.
  destruct (encoder_cache_invariant (fun _ => [demo_image]) (fun _ => 3%Z) 4 demo_ec2)
    as (Hok & _ & _ & _ & Hops).
  - intros h. lia.
  - lia.
  - apply (ec_reach_step _ _ 4 demo_ec1 (OpFree (demo_mm_request "a")) (Ok tt));
      [|apply demo_known|vm_compute; reflexivity].
    apply (ec_reach_step _ _ 4 (EncoderCacheManager_init 4) (OpAllocate (demo_mm_request "a") 0) (Ok tt));
      [apply ec_reach_init| |vm_compute; reflexivity].
    split; [apply demo_known|]. exists demo_image. split_and!; [done..|]. simpl. lia.
  - split; [exact Hok|]. apply Hops. split; [apply demo_known|]. simpl. lia.
Defined.

(** Admission.  [can_allocate] never raises.  It answers [True] exactly when the
    item fits the compute budget and, with what is already scheduled, the free and
    reclaimable space together.  It evicts the shortest run of oldest unreferenced
    items that makes the room, none at all when the answer is [False] or the free
    space already suffices, and afterwards the room is free. *)
Theorem can_allocate_correct feats size request inp f budget sched m :
  (forall h, (0 <= size h)%Z) -> known feats size request -> mm_features request !! inp = Some f ->
  ec_ok feats size m ->
  let need := (size (identifier f) + sched)%Z in
  exists l1 l2, freeable m = l1 ++ l2 /\
    can_allocate request inp budget sched m =
      (Ok ((size (identifier f) <=? budget)%Z && (need <=? num_freeable_slots m)%Z), evict_prefix l1 l2 m) /\
    ec_ok feats size (evict_prefix l1 l2 m) /\
    ((size (identifier f) <= budget)%Z -> (need <= num_freeable_slots m)%Z ->
      (need <= num_free_slots (evict_prefix l1 l2 m))%Z) /\
    (forall l e l', l1 = l ++ e :: l' ->
      (size (identifier f) <= budget)%Z /\ (need <= num_freeable_slots m)%Z /\
      (num_free_slots m + total l < need)%Z).
Proof. intros Hsize ? ? ?. by apply can_allocate_spec. Qed.

Lemma can_allocate_correct_witness :
  exists l1 l2 m', freeable (EncoderCacheManager_init 4) = l1 ++ l2 /\
    can_allocate (demo_mm_request "a") 0 9 1 (EncoderCacheManager_init 4) = (Ok true, m').
Proof.
  destruct (can_allocate_correct (fun _ => [demo_image]) (fun _ => 3%Z) (demo_mm_request "a") 0 demo_image 9 1
    (EncoderCacheManager_init 4)) as (l1 & l2 & Hfl & Hrun & _).
  - intros h. lia.
  - apply demo_known.
  - reflexivity.
  - apply init_ok; [intros h|]; lia.
  - exists l1, l2, (evict_prefix l1 l2 (EncoderCacheManager_init 4)). split; [exact Hfl|exact Hrun].
Defined.
