(* ===== verification/SchedEncoder.v ===== *)
(** Scheduling of encoder inputs: [Scheduler._try_schedule_encoder_inputs] and the
    allocation that follows it (vllm/v1/core/sched/scheduler.py), with the feature
    window of vllm/multimodal/utils.py, against the interface the two encoder-cache
    managers share. *)
From S2P Require Import Prelude Request EncoderCache.

(** ** The interface of an encoder-cache manager *)

Class EncoderCacheOps (S : Type) := {
  op_check_and_update_cache : Request -> nat -> M S bool;
  op_can_allocate : Request -> nat -> Z -> Z -> M S bool;
  op_allocate : Request -> nat -> M S unit;
}.

#[export] Instance EncoderCacheManager_ops : EncoderCacheOps EncoderCacheManager := {|
  op_check_and_update_cache := check_and_update_cache;
  op_can_allocate := can_allocate;
  op_allocate := allocate;
|}.

(** The encoder-decoder manager never reports a cached input. *)
#[export] Instance EncoderDecoder_ops : EncoderCacheOps EncoderDecoderCacheManager := {|
  op_check_and_update_cache _ _ := mret false;
  op_can_allocate r i b n := fun m => (ed_can_allocate r i b n m, m);
  op_allocate := ed_allocate;
|}.

(** ** [get_mm_features_in_window] *)

(** [bisect.bisect_left(l, x, key=key)] on the range [lo, hi); the range shrinks in
    every round, so [hi - lo] rounds are enough. *)
Fixpoint bisect_loop {A} (fuel : nat) (key : A -> Z) (l : list A) (x : Z) (lo hi : nat) : nat :=
  match fuel with
  | O => lo
  | S fuel =>
      if bool_decide (lo < hi) then
        let mid := (lo + hi) / 2 in
        match l !! mid with
        | Some a => if (key a <? x)%Z then bisect_loop fuel key l x (mid + 1) hi
                    else bisect_loop fuel key l x lo mid
        | None => lo
        end
      else lo
  end.

Definition bisect_left {A} (key : A -> Z) (l : list A) (x : Z) : nat :=
  bisect_loop (length l) key l x 0 (length l).

(** [get_mm_features_in_window(mm_features, start, end)] *)
Definition get_mm_features_in_window (fs : list MMFeature) (start stop : Z) : nat * nat :=
  (bisect_left (fun f => mm_offset f + mm_length f)%Z fs (start + 1),
   bisect_left mm_offset fs stop).

(** ** [_try_schedule_encoder_inputs] *)

Record enc_acc := {
  encoder_inputs_to_schedule : list nat;
  external_load_encoder_input : list nat;
  mm_hashes_to_schedule : gset string;
  num_embeds_to_schedule : Z;
  num_new_tokens : Z;
  encoder_compute_budget : Z;
}.

#[export] Instance enc_acc_eta : Eta enc_acc := fun a =>
  Build_enc_acc (encoder_inputs_to_schedule a) (external_load_encoder_input a)
    (mm_hashes_to_schedule a) (num_embeds_to_schedule a) (num_new_tokens a) (encoder_compute_budget a).

Section schedule.
Context {S : Type} `{EncoderCacheOps S}.
(** Scheduler attributes: the model kind, the chunking option and the remote
    encoder cache, when there is one. *)
Context (is_encoder_decoder disable_chunked_mm_input : bool) (ec_connector : option (string -> bool)).

(** One iteration for input [i]: whether to leave the loop, and the trackers. *)
Definition enc_body (request : Request) (num_computed_tokens shift_computed_tokens encoder_window_end : Z)
    (acc : enc_acc) (i : nat) : M S (bool * enc_acc) :=
  f ← of_option IndexError (mm_features request !! i);
  let start_pos := mm_offset f in
  let num_encoder_tokens := mm_length f in
  if is_encoder_decoder && (0 <? num_computed_tokens)%Z then
    massert (start_pos =? 0)%Z ;; mret (false, acc)
  else if negb is_encoder_decoder && bool_decide (identifier f ∈ mm_hashes_to_schedule acc) then
    mret (false, acc)
  else
    cached ← (if is_encoder_decoder then mret false else op_check_and_update_cache request i);
    if cached : bool then mret (false, acc)
    else if disable_chunked_mm_input && (num_computed_tokens <? start_pos)%Z &&
            (num_computed_tokens + num_new_tokens acc <? start_pos + num_encoder_tokens)%Z then
      mret (true, acc <| num_new_tokens :=
        Z.max 0 (start_pos - (num_computed_tokens + shift_computed_tokens)) |>)
    else
      ok ← op_can_allocate request i (encoder_compute_budget acc) (num_embeds_to_schedule acc);
      if negb ok then
        mret (true, acc <| num_new_tokens :=
          if (num_computed_tokens + shift_computed_tokens <? start_pos)%Z
          then (start_pos - (num_computed_tokens + shift_computed_tokens))%Z else 0%Z |>)
      else
        let start_idx_rel := Z.max 0 (num_computed_tokens - start_pos) in
        let end_idx_rel := Z.min num_encoder_tokens (encoder_window_end - start_pos) in
        match get_embeds_indices_in_range f start_idx_rel end_idx_rel with
        | Raise e => raise e
        | Ok (curr_embeds_start, curr_embeds_end) =>
            if (curr_embeds_end - curr_embeds_start =? 0)%Z then mret (false, acc)
            else if match ec_connector with Some has_cache_item => has_cache_item (identifier f)
                    | None => false end then
              mret (false, acc <| mm_hashes_to_schedule := {[identifier f]} ∪ mm_hashes_to_schedule acc |>
                <| external_load_encoder_input := external_load_encoder_input acc ++ [i] |>
                <| num_embeds_to_schedule := (num_embeds_to_schedule acc + mm_num_embeds f)%Z |>)
            else
              mret (false, acc <| num_embeds_to_schedule := (num_embeds_to_schedule acc + mm_num_embeds f)%Z |>
                <| encoder_compute_budget := (encoder_compute_budget acc - mm_num_embeds f)%Z |>
                <| mm_hashes_to_schedule := {[identifier f]} ∪ mm_hashes_to_schedule acc |>
                <| encoder_inputs_to_schedule := encoder_inputs_to_schedule acc ++ [i] |>)
        end.

(** The [for] loop with its [break]s. *)
Fixpoint enc_loop (request : Request) (nc shift window_end : Z) (inputs : list nat) (acc : enc_acc)
    : M S enc_acc :=
  match inputs with
  | [] => mret acc
  | i :: rest =>
      '(stop, acc) ← enc_body request nc shift window_end acc i;
      if stop : bool then mret acc else enc_loop request nc shift window_end rest acc
  end.

(** [_try_schedule_encoder_inputs(request, num_computed_tokens, num_new_tokens,
    encoder_compute_budget, shift_computed_tokens)] *)
Definition try_schedule_encoder_inputs (request : Request)
    (num_computed_tokens new_tokens budget shift_computed_tokens : Z)
    : M S (list nat * Z * Z * list nat) :=
  if (new_tokens =? 0)%Z || negb (has_encoder_inputs request)
  then mret ([], new_tokens, budget, [])
  else
    massert (0 <? zlen (mm_features request))%Z ;;
    let encoder_window_end := (num_computed_tokens + new_tokens + shift_computed_tokens)%Z in
    let '(lo, hi) := get_mm_features_in_window (mm_features request) num_computed_tokens encoder_window_end in
    let lo := if is_encoder_decoder then 0 else lo in
    acc ← enc_loop request num_computed_tokens shift_computed_tokens encoder_window_end
            (seq lo (hi - lo))
            {| encoder_inputs_to_schedule := []; external_load_encoder_input := [];
               mm_hashes_to_schedule := ∅; num_embeds_to_schedule := 0;
               num_new_tokens := new_tokens; encoder_compute_budget := budget |};
    mret (encoder_inputs_to_schedule acc, num_new_tokens acc, encoder_compute_budget acc,
          external_load_encoder_input acc).

(** The allocation of what was scheduled, then of what is loaded externally. *)
Definition allocate_encoder_inputs (request : Request) (scheduled external : list nat) : M S unit :=
  mfor scheduled (op_allocate request) ;;
  mfor external (op_allocate request).
End schedule.

(** ** Bisection *)

Definition keys_sorted {A} (key : A -> Z) (l : list A) : Prop :=
  forall i j a b, i <= j -> l !! i = Some a -> l !! j = Some b -> (key a <= key b)%Z.

(** On sorted keys the answer splits the list into keys below and not below [x]. *)
Lemma bisect_loop_spec {A} (key : A -> Z) (l : list A) x fuel lo hi :
  keys_sorted key l -> lo <= hi <= length l -> hi - lo <= fuel ->
  (forall i a, i < lo -> l !! i = Some a -> (key a < x)%Z) ->
  (forall i a, hi <= i -> l !! i = Some a -> (x <= key a)%Z) ->
  let b := bisect_loop fuel key l x lo hi in
  b <= length l /\ (forall i a, l !! i = Some a -> i < b <-> (key a < x)%Z).
Proof.
  intros Hs. revert lo hi. induction fuel as [|fuel IH]; intros lo hi Hle Hfuel Hlo Hhi; cbn [bisect_loop].
  - assert (lo = hi) as -> by lia. split; [lia|]. intros i a Hi. split; [eauto|].
    intros Hx. destruct (decide (i < hi)); [done|]. pose proof (Hhi i a ltac:(lia) Hi). lia.
  - case_bool_decide as Hlt.
    + assert (Hmid : lo <= (lo + hi) / 2 < hi).
      { split; [apply Nat.div_le_lower_bound|apply Nat.Div0.div_lt_upper_bound]; lia. }
      destruct (lookup_lt_is_Some_2 l ((lo + hi) / 2)) as [a Ha]; [lia|]. rewrite Ha.
      destruct (Z.ltb_spec (key a) x).
      * apply IH; [lia|lia| |done]. intros i b Hi Hb.
        pose proof (Hs i ((lo + hi) / 2) b a ltac:(lia) Hb Ha). lia.
      * apply IH; [lia|lia|done|]. intros i b Hi Hb.
        pose proof (Hs ((lo + hi) / 2) i a b ltac:(lia) Ha Hb). lia.
    + split; [lia|]. intros i a Hi. split; [intros; by eapply Hlo|].
      intros Hx. destruct (decide (i < lo)); [done|]. pose proof (Hhi i a ltac:(lia) Hi). lia.
Qed.

Lemma bisect_left_spec {A} (key : A -> Z) (l : list A) x :
  keys_sorted key l ->
  bisect_left key l x <= length l /\
  forall i a, l !! i = Some a -> i < bisect_left key l x <-> (key a < x)%Z.
Proof.
  intros Hs. apply bisect_loop_spec; try done; try lia.
  intros i a Hi Ha. apply lookup_lt_Some in Ha. lia.
Qed.

(** ** Features in order *)

(** Placeholders as the input processor lays them out: in order, disjoint, with one
    mask entry per position. *)
Record features_wf (fs : list MMFeature) : Prop := {
  fw_len i f : fs !! i = Some f -> (0 <= mm_length f)%Z;
  fw_disjoint i j f g : i < j -> fs !! i = Some f -> fs !! j = Some g ->
    (mm_offset f + mm_length f <= mm_offset g)%Z;
  fw_mask i f l : fs !! i = Some f -> mm_is_embed f = Some l -> zlen l = mm_length f;
}.

Lemma features_sorted fs : features_wf fs -> keys_sorted mm_offset fs.
Proof.
  intros [Hlen Hd _] i j f g Hij Hf Hg. destruct (decide (i = j)) as [->|].
  - replace g with f by congruence. lia.
  - pose proof (Hd i j f g ltac:(lia) Hf Hg). pose proof (Hlen i f Hf). lia.
Qed.

Lemma features_ends_sorted fs : features_wf fs -> keys_sorted (fun f => mm_offset f + mm_length f)%Z fs.
Proof.
  intros [Hlen Hd _] i j f g Hij Hf Hg. destruct (decide (i = j)) as [->|].
  - replace g with f by congruence. lia.
  - pose proof (Hd i j f g ltac:(lia) Hf Hg). pose proof (Hlen j g Hg). lia.
Qed.

(** The window holds exactly the features that overlap [start, stop). *)
Lemma features_window fs start stop :
  features_wf fs ->
  let '(lo, hi) := get_mm_features_in_window fs start stop in
  lo <= length fs /\ hi <= length fs /\
  forall i f, fs !! i = Some f ->
    (lo <= i < hi <-> (mm_offset f < stop)%Z /\ (start < mm_offset f + mm_length f)%Z).
Proof.
  intros Hwf. unfold get_mm_features_in_window.
  destruct (bisect_left_spec _ fs (start + 1) (features_ends_sorted fs Hwf)) as [Hl1 Hlo].
  destruct (bisect_left_spec _ fs stop (features_sorted fs Hwf)) as [Hl2 Hhi].
  split_and!; [done..|]. intros i f Hf. specialize (Hlo i f Hf). specialize (Hhi i f Hf). lia.
Qed.

Lemma length_cumsum acc l : length (cumsum acc l) = length l.
Proof. revert acc. induction l as [|b l IH]; intros acc; [done|]. simpl. by rewrite IH. Qed.

(** Indexing the mask of a placeholder inside its bounds never raises. *)
Lemma embeds_in_range_ok f s e :
  (forall l, mm_is_embed f = Some l -> zlen l = mm_length f) ->
  (0 <= s)%Z -> (s <= mm_length f)%Z -> (e <= mm_length f)%Z ->
  exists a b, get_embeds_indices_in_range f s e = Ok (a, b).
Proof.
  intros Hm Hs0 Hs He. unfold get_embeds_indices_in_range, embeds_cumsum.
  destruct (mm_is_embed f) as [l|]; simpl; [|eauto]. specialize (Hm l eq_refl). unfold zlen in Hm.
  assert (Hget : forall k, (k <= mm_length f)%Z ->
    exists v, (if (0 <? k)%Z then pyget (cumsum 0 l) (k - 1) else Some 0%Z) = Some v).
  { intros k Hk. destruct (Z.ltb_spec 0 k); [|eauto].
    destruct (lookup_lt_is_Some_2 (cumsum 0 l) (Z.to_nat (k - 1))) as [v Hv]; [rewrite length_cumsum; lia|].
    exists v. rewrite <- Hv, <- (pyget_nonneg (cumsum 0 l)). f_equal. lia. }
  destruct (Hget s Hs) as [a ->], (Hget e He) as [b ->]. eauto.
Qed.

(** ** The loop *)

Section loop.
Context (feats : string -> list MMFeature) (size : string -> Z).
Context (Hsize : forall h, (0 <= size h)%Z).
Context (request : Request) (Hknown : known feats size request).
Context (Hwf : features_wf (mm_features request)).
Context (disable_chunked : bool) (ec_connector : option (string -> bool)).
Context (nc shift nn budget0 : Z).

Abbreviation wend := (nc + nn + shift)%Z.
Abbreviation fs := (mm_features request).
Abbreviation r := (request_id request).
Abbreviation ok := (ec_ok feats size).
Abbreviation used m i h := (uses feats m r i h).

Definition ident (i : nat) : string := default "" (identifier <$> fs !! i).
Definition sum_embeds (l : list nat) : Z := foldr (fun i acc => (size (ident i) + acc)%Z) 0%Z l.
Definition scheduled (acc : enc_acc) : list nat :=
  encoder_inputs_to_schedule acc ++ external_load_encoder_input acc.

(** None of the feature's embeddings fall into the window. *)
Definition no_embeds (f : MMFeature) : Prop :=
  exists a, get_embeds_indices_in_range f (Z.max 0 (nc - mm_offset f))
              (Z.min (mm_length f) (wend - mm_offset f)) = Ok (a, a).

Record loop_inv (done : list nat) (acc : enc_acc) (m : EncoderCacheManager) : Prop := {
  li_ok : ok m;
  li_some i : i ∈ scheduled acc -> is_Some (fs !! i);
  li_nodup : NoDup (ident <$> scheduled acc);
  li_hashes h : h ∈ mm_hashes_to_schedule acc <-> h ∈ ident <$> scheduled acc;
  li_fresh h : h ∈ mm_hashes_to_schedule acc -> cached m !! h = None;
  li_embeds : num_embeds_to_schedule acc = sum_embeds (scheduled acc);
  li_room : (num_embeds_to_schedule acc <= num_free_slots m)%Z;
  li_budget : encoder_compute_budget acc = (budget0 - sum_embeds (encoder_inputs_to_schedule acc))%Z;
  li_budget_pos : (0 <= budget0 -> 0 <= encoder_compute_budget acc)%Z;
  li_new : num_new_tokens acc = nn;
  li_done i f : i ∈ done -> fs !! i = Some f ->
    used m i (identifier f) \/ identifier f ∈ mm_hashes_to_schedule acc \/ no_embeds f;
}.

Lemma sum_embeds_app l1 l2 : sum_embeds (l1 ++ l2) = (sum_embeds l1 + sum_embeds l2)%Z.
Proof. induction l1 as [|i l1 IH]; [done|]. simpl. rewrite IH. lia. Qed.

Lemma total_prefix_nonneg m l1 l2 : ok m -> freeable m = l1 ++ l2 -> (0 <= total l1)%Z.
Proof using Hsize.
  intros Hok Hfl. pose proof (eo_size _ _ _ Hok) as Hs. rewrite Hfl in Hs. clear -Hs Hsize.
  induction l1 as [|[h n] l1 IH]; [done|]. simpl. rewrite (Hs h n) by set_solver.
  pose proof (Hsize h). enough (0 <= total l1)%Z by lia. apply IH. set_solver.
Qed.

Lemma evict_prefix_cached l1 l2 m h :
  cached m !! h = None -> cached (evict_prefix l1 l2 m) !! h = None.
Proof.
  unfold evict_prefix. simpl. generalize (cached m) as c. induction l1.*1 as [|h' l IH]; intros c Hc; [done|].
  simpl. apply IH. apply lookup_delete_None. by right.
Qed.

(** The trackers do not change; the cache may only gain uses and room. *)
Lemma loop_inv_cache done done' acc m m' :
  loop_inv done acc m -> ok m' ->
  (forall h, cached m !! h = None -> cached m' !! h = None) ->
  (num_free_slots m <= num_free_slots m')%Z ->
  (forall i h, used m i h -> used m' i h) ->
  (forall i f, i ∈ done' -> fs !! i = Some f ->
    i ∈ done \/ used m' i (identifier f) \/ identifier f ∈ mm_hashes_to_schedule acc \/ no_embeds f) ->
  loop_inv done' acc m'.
Proof.
  intros [] Hok Hc Hfree Hu Hd. split; try done; eauto; try lia.
  intros i f Hi Hf. destruct (Hd i f Hi Hf) as [Hi'|H1]; [|done].
  destruct (li_done0 i f Hi' Hf) as [H1|H1]; [left; by apply Hu|by right].
Qed.

(** Recording input [i] as scheduled, after admission made the room. *)
Lemma loop_inv_schedule done acc acc' m i f :
  loop_inv done acc m -> fs !! i = Some f ->
  identifier f ∉ mm_hashes_to_schedule acc -> cached m !! identifier f = None ->
  (size (identifier f) + num_embeds_to_schedule acc <= num_free_slots m)%Z ->
  Permutation (scheduled acc') (i :: scheduled acc) ->
  mm_hashes_to_schedule acc' = {[identifier f]} ∪ mm_hashes_to_schedule acc ->
  num_embeds_to_schedule acc' = (num_embeds_to_schedule acc + size (identifier f))%Z ->
  encoder_compute_budget acc' = (budget0 - sum_embeds (encoder_inputs_to_schedule acc'))%Z ->
  (0 <= budget0 -> 0 <= encoder_compute_budget acc')%Z ->
  num_new_tokens acc' = num_new_tokens acc ->
  loop_inv (done ++ [i]) acc' m.
Proof.
  intros [] Hf Hnew Hc Hroom Hperm Hh He Hb Hb0 Hn.
  assert (Hid : ident i = identifier f) by (unfold ident; by rewrite Hf).
  assert (Hsum : forall l l', Permutation l l' -> sum_embeds l = sum_embeds l').
  { induction 1; simpl in *; lia. }
  split; try done; try congruence.
  - intros j. rewrite Hperm, elem_of_cons. intros [->|?]; eauto.
  - rewrite Hperm. csimpl. apply NoDup_cons. split; [|done]. rewrite Hid. by rewrite <- li_hashes0.
  - intros h. rewrite Hperm, Hh. csimpl. rewrite elem_of_cons, elem_of_union, elem_of_singleton, li_hashes0, Hid.
    done.
  - intros h. rewrite Hh, elem_of_union, elem_of_singleton. intros [->|?]; eauto.
  - rewrite He, (Hsum _ _ Hperm). simpl. rewrite Hid. lia.
  - lia.
  - intros j g. rewrite elem_of_app, list_elem_of_singleton, Hh. intros [Hj| ->] Hg.
    + destruct (li_done0 j g Hj Hg) as [H1|[H1|H1]]; [by left|right; left; set_solver|by right; right].
    + right. left. replace g with f by congruence. set_solver.
Qed.

(** What one iteration leaves: a break keeps the trackers and cuts the tokens to
    end before the feature, or to none. *)
Definition body_post (done : list nat) (i : nat) (f : MMFeature) (acc : enc_acc)
    (res : bool * enc_acc) (m' : EncoderCacheManager) : Prop :=
  if res.1 then
    exists n', res.2 = acc <| num_new_tokens := n' |> /\ loop_inv done acc m' /\
      (n' = 0 \/ 0 < n' /\ n' = mm_offset f - (nc + shift))%Z
  else loop_inv (done ++ [i]) res.2 m'.

Lemma done_snoc (done : list nat) i j : j ∈ done ++ [i] <-> j ∈ done \/ j = i.
Proof. by rewrite elem_of_app, list_elem_of_singleton. Qed.

Lemma enc_body_spec done acc m i f :
  loop_inv done acc m -> fs !! i = Some f ->
  (mm_offset f < wend)%Z -> (nc < mm_offset f + mm_length f)%Z ->
  wp (enc_body (S := EncoderCacheManager) false disable_chunked ec_connector request nc shift wend acc i)
    (body_post done i f acc) m.
Proof using Hsize Hknown Hwf.
  intros Hinv Hf Hlt Hgt. pose proof Hinv as [Hok _ _ _ Hfresh _ Hroom Hbud Hbpos Hnew _].
  unfold enc_body. rewrite wp_bind, wp_of_option. exists f. split; [done|]. simpl.
  case_bool_decide as Hin.
  { rewrite wp_ret. simpl. eapply loop_inv_cache; try done.
    intros j g Hj Hg. apply done_snoc in Hj as [?|Hj]; [by left|]. subst j.
    replace g with f by congruence. by right; right; left. }
  rewrite wp_bind.
  eapply wp_mono; [by apply (check_and_update_cache_spec feats size Hsize request i f)|].
  intros b m1 (Hb & Hok1 & Hsame & Huse & Hids & Hfree1 & _ & Hdom). destruct b.
  { rewrite wp_ret. simpl. eapply loop_inv_cache; try done; try lia.
    - intros h. rewrite <- !not_elem_of_dom. by rewrite Hdom.
    - intros j h Hu. destruct (mm_feature_ok feats size request i f m Hknown Hf) as (_ & _ & Hfe).
      pose proof (uses_add feats size Hsize r i f m r j h Hfe) as Hadd. unfold uses in *. rewrite Hids by done. tauto.
    - intros j g Hj Hg. apply done_snoc in Hj as [?|Hj]; [by left|]. subst j.
      replace g with f by congruence. right; left. by apply Huse. }
  rewrite (Hsame eq_refl) in *. clear m1 Hok1 Hsame Huse Hids Hfree1 Hdom.
  assert (Hnc : cached m !! identifier f = None).
  { symmetry in Hb. apply bool_decide_eq_false in Hb. by apply eq_None_not_Some. }
  destruct (disable_chunked && _ && _) eqn:Hdc.
  { rewrite wp_ret. simpl. eexists. split; [done|]. split; [done|]. lia. }
  rewrite wp_bind.
  destruct (can_allocate_spec feats size Hsize request i f (encoder_compute_budget acc)
    (num_embeds_to_schedule acc) m Hknown Hf Hok) as (l1 & l2 & Hfl & Hrun & Hok2 & Hneed & _).
  unfold wp at 1. rewrite Hrun. set (m2 := evict_prefix l1 l2 m) in *.
  pose proof (total_prefix_nonneg m l1 l2 Hok Hfl) as Htot.
  assert (Hfree2 : num_free_slots m2 = (num_free_slots m + total l1)%Z) by done.
  assert (Hinv2 : forall done', (forall j g, j ∈ done' -> fs !! j = Some g ->
      j ∈ done \/ used m2 j (identifier g) \/ identifier g ∈ mm_hashes_to_schedule acc \/ no_embeds g) ->
    loop_inv done' acc m2).
  { intros done' Hd. eapply loop_inv_cache; try done; [|lia]. apply evict_prefix_cached. }
  destruct ((size (identifier f) <=? encoder_compute_budget acc)%Z && _) eqn:Hacc; simpl.
  2: { rewrite wp_ret. simpl. eexists. split; [done|]. split; [apply Hinv2; by left|].
       destruct (Z.ltb_spec (nc + shift) (mm_offset f)); lia. }
  destruct (embeds_in_range_ok f (Z.max 0 (nc - mm_offset f)) (Z.min (mm_length f) (wend - mm_offset f)))
    as (a & e & Hr); [intros l; by apply (fw_mask _ Hwf i f)|lia|..].
  { pose proof (fw_len _ Hwf i f Hf). lia. }
  { lia. }
  rewrite Hr. destruct (Z.eqb_spec (e - a) 0) as [He|He].
  { rewrite wp_ret. simpl. apply Hinv2. intros j g Hj Hg. apply done_snoc in Hj as [?|Hj]; [by left|]. subst j.
    replace g with f by congruence. right; right; right. exists a. rewrite Hr. do 2 f_equal. lia. }
  assert (Hsz : mm_num_embeds f = size (identifier f)).
  { apply (proj2 Hknown). by eapply list_elem_of_lookup_2. }
  assert (Hid : ident i = identifier f) by (unfold ident; by rewrite Hf).
  assert (Hroom2 : (size (identifier f) + num_embeds_to_schedule acc <= num_free_slots m2)%Z)
    by (apply Hneed; lia).
  assert (Hnc2 : cached m2 !! identifier f = None) by by apply evict_prefix_cached.
  destruct (match ec_connector with Some g => g (identifier f) | None => false end);
    rewrite wp_ret; (eapply loop_inv_schedule; [apply (Hinv2 done); by left|exact Hf|..]);
    try done; simpl; try (rewrite Hsz; lia).
  - unfold scheduled. simpl. rewrite app_assoc. by rewrite Permutation_app_comm.
  - unfold scheduled. simpl. rewrite <- app_assoc. symmetry. apply Permutation_middle.
  - rewrite sum_embeds_app. simpl. rewrite Hid, Hsz. lia.
Qed.

Lemma enc_loop_spec inputs done acc m :
  loop_inv done acc m ->
  (forall i, i ∈ inputs -> exists f, fs !! i = Some f /\ (mm_offset f < wend)%Z /\
     (nc < mm_offset f + mm_length f)%Z) ->
  wp (enc_loop (S := EncoderCacheManager) false disable_chunked ec_connector request nc shift wend inputs acc)
    (fun acc' m' => exists acc0 pre rest, loop_inv (done ++ pre) acc0 m' /\ inputs = pre ++ rest /\
       acc' = acc0 <| num_new_tokens := num_new_tokens acc' |> /\
       match rest with
       | [] => num_new_tokens acc' = nn
       | i :: _ => exists f, fs !! i = Some f /\
           (num_new_tokens acc' = 0 \/ 0 < num_new_tokens acc' /\
            num_new_tokens acc' = mm_offset f - (nc + shift))%Z
       end) m.
Proof using Hsize Hknown Hwf.
  revert done acc m. induction inputs as [|i inputs IH]; intros done acc m Hinv Hin; cbn [enc_loop].
  - rewrite wp_ret. exists acc, [], []. rewrite app_nil_r. split_and!; try done; [by destruct acc|].
    apply (li_new _ _ _ Hinv).
  - destruct (Hin i) as (f & Hf & Hlt & Hgt); [set_solver|]. rewrite wp_bind.
    eapply wp_mono; [by apply (enc_body_spec done acc m i f)|]. intros [[] acc1] m1 Hpost; unfold body_post in Hpost; simpl in Hpost.
    + destruct Hpost as (n' & -> & Hinv1 & Hn). rewrite wp_ret.
      exists acc, [], (i :: inputs). rewrite app_nil_r. split_and!; try done. eauto.
    + eapply wp_mono; [apply (IH (done ++ [i]) acc1 m1 Hpost); set_solver|].
      intros acc' m' (acc0 & pre & rest & Hinv' & -> & Hacc & Hrest).
      exists acc0, (i :: pre), rest. rewrite <- app_assoc in Hinv'. done.
Qed.

(** Allocating inputs of distinct uncached contents that fit together. *)
Lemma allocate_all_spec l m :
  ok m -> (forall i, i ∈ l -> is_Some (fs !! i)) -> NoDup (ident <$> l) ->
  (forall i, i ∈ l -> cached m !! ident i = None) -> (sum_embeds l <= num_free_slots m)%Z ->
  wp (mfor l (allocate request)) (fun _ m' => ok m' /\
    (forall i, i ∈ l -> used m' i (ident i)) /\ (forall i h, used m i h -> used m' i h)) m.
Proof using Hsize Hknown Hwf.
  revert m. induction l as [|i l IH]; intros m Hok Hsome Hnd Hc Hroom.
  - simpl. rewrite wp_ret. split_and!; try done. set_solver.
  - csimpl in Hnd. apply NoDup_cons in Hnd as [Hi Hnd].
    destruct (Hsome i) as [f Hf]; [set_solver|]. assert (Hid : ident i = identifier f) by (unfold ident; by rewrite Hf).
    assert (Hsum : forall l', (0 <= sum_embeds l')%Z).
    { intros l'. induction l' as [|j l' IHl]; [done|]. simpl. pose proof (Hsize (ident j)). lia. }
    simpl in Hroom |- *. pose proof (Hsum l). rewrite wp_bind. eapply wp_mono.
    { apply (allocate_spec feats size Hsize request i f); try done; rewrite <- Hid; [apply Hc; set_solver|lia]. }
    intros _ m1 (Hok1 & Huse & Hfree & _ & _ & Hdom & Hids).
    destruct (mm_feature_ok feats size request i f m Hknown Hf) as (_ & _ & Hfe).
    assert (Hkeep : forall j h, used m j h -> used m1 j h).
    { intros j h Hu. pose proof (uses_add feats size Hsize r i f m r j h Hfe) as Hadd.
      unfold uses in *. rewrite Hids. tauto. }
    eapply wp_mono; [apply (IH m1 Hok1)|].
    + set_solver.
    + done.
    + intros j Hj. apply not_elem_of_dom. rewrite Hdom, <- Hid, not_elem_of_union, not_elem_of_singleton.
      split; [|apply not_elem_of_dom, Hc; set_solver]. intros He. apply Hi. rewrite <- He.
      by apply list_elem_of_fmap_2.
    + rewrite Hfree, <- Hid. lia.
    + intros _ m2 (Hok2 & Hl2 & Hk2). split_and!; try done; [|naive_solver].
      intros j [->|Hj]%elem_of_cons; [|by apply Hl2]. rewrite Hid. by apply Hk2.
Qed.

Lemma allocate_encoder_inputs_spec acc m :
  ok m -> (forall i, i ∈ scheduled acc -> is_Some (fs !! i)) -> NoDup (ident <$> scheduled acc) ->
  (forall i, i ∈ scheduled acc -> cached m !! ident i = None) ->
  (sum_embeds (scheduled acc) <= num_free_slots m)%Z ->
  wp (allocate_encoder_inputs request (encoder_inputs_to_schedule acc) (external_load_encoder_input acc))
    (fun _ m' => ok m' /\ (forall i, i ∈ scheduled acc -> used m' i (ident i)) /\
       (forall i h, used m i h -> used m' i h)) m.
Proof using Hsize Hknown Hwf.
  intros. unfold allocate_encoder_inputs. rewrite wp_bind. simpl. rewrite <- wp_for_app.
  by apply allocate_all_spec.
Qed.
End loop.

(** Splitting a range: what is behind [j] is at least [j]. *)
Lemma seq_suffix_le a n pre j rest i : seq a n = pre ++ j :: rest -> i ∈ j :: rest -> j <= i.
Proof.
  intros Hsplit Hir. apply list_elem_of_lookup_1 in Hir as (k & Hk).
  assert (Hj : seq a n !! length pre = Some j) by (rewrite Hsplit; by apply list_lookup_middle).
  assert (Hi : seq a n !! (length pre + k) = Some i)
    by (rewrite Hsplit, lookup_app_r by lia; by replace (length pre + k - length pre) with k by lia).
  apply lookup_seq in Hj, Hi. lia.
Qed.

(** ** Property *)

(** Encoder scheduling.  For a decoder-only model and placeholders in order,
    [_try_schedule_encoder_inputs] never raises, whatever the cache holds, with or
    without a remote cache and with or without chunking.  It never schedules more
    tokens than asked, and takes from the compute budget exactly the embeddings of
    the inputs it schedules, never overdrawing it.  All the allocations that follow
    pass their assertions.  After them, every multi-modal input that overlaps the
    tokens finally scheduled either has no embedding in the window or is in the
    encoder cache, referenced by this request: the model runner finds every encoder
    output it needs, and no other request can have it evicted. *)
Theorem encoder_inputs_available feats size request disable_chunked ec_connector nc nn budget shift m :
  (forall h, (0 <= size h)%Z) -> known feats size request -> features_wf (mm_features request) ->
  ec_ok feats size m -> (0 <= nn)%Z -> (0 <= budget)%Z ->
  exists sched n' b' ext m1 m2,
    try_schedule_encoder_inputs false disable_chunked ec_connector request nc nn budget shift m
      = (Ok (sched, n', b', ext), m1) /\
    (0 <= n' <= nn)%Z /\ (0 <= b')%Z /\ b' = (budget - sum_embeds size request sched)%Z /\
    allocate_encoder_inputs request sched ext m1 = (Ok tt, m2) /\ ec_ok feats size m2 /\
    forall i f, mm_features request !! i = Some f -> (0 < n')%Z ->
      (mm_offset f < nc + n' + shift)%Z -> (nc < mm_offset f + mm_length f)%Z ->
      no_embeds nc shift nn f \/ request_id request ∈ default ∅ (cached m2 !! identifier f).
Proof.
  intros Hsize Hk Hwf Hok Hnn Hb. unfold try_schedule_encoder_inputs.
  destruct ((nn =? 0)%Z || negb (has_encoder_inputs request)) eqn:Hz.
  { exists [], nn, budget, [], m, m. split_and!; try done; try (simpl; lia). intros i f Hf Hpos.
    unfold has_encoder_inputs, num_encoder_inputs, zlen in Hz. apply lookup_lt_Some in Hf. lia. }
  unfold has_encoder_inputs, num_encoder_inputs in Hz.
  pose proof (features_window (mm_features request) nc (nc + nn + shift) Hwf) as Hwin.
  destruct (get_mm_features_in_window (mm_features request) nc (nc + nn + shift)) as [lo hi].
  destruct Hwin as (_ & Hhi & Hwin).
  set (acc0 := {| encoder_inputs_to_schedule := [] |}).
  assert (Hinv : loop_inv feats size request nc shift nn budget [] acc0 m).
  { split; simpl; try done; try lia.
    - intros i Hi. by apply elem_of_nil in Hi.
    - apply NoDup_nil_2.
    - intros h. split; intros Hh; [by apply elem_of_empty in Hh|by apply elem_of_nil in Hh].
    - apply (eo_nonneg _ _ _ Hok).
    - intros i f Hi. by apply elem_of_nil in Hi. }
  assert (Hlo : forall i, i ∈ seq lo (hi - lo) -> lo <= i < hi) by (intros i Hi%elem_of_seq; lia).
  destruct (proj1 (wp_run _ _ _) (enc_loop_spec feats size Hsize request Hk Hwf disable_chunked ec_connector
    nc shift nn budget (seq lo (hi - lo)) [] acc0 m Hinv
    ltac:(intros i Hi; destruct (lookup_lt_is_Some_2 (mm_features request) i) as [f Hf];
          [apply Hlo in Hi; lia|]; exists f; split; [done|]; by apply (Hwin i f Hf), Hlo)))
    as (acc & m1 & Hrun & acc1 & pre & rest & Hinv1 & Hsplit & Hacc & Hrest).
  simpl in Hinv1. set (n' := num_new_tokens acc) in *.
  destruct Hinv1 as [Hok1 Hsome Hnd Hhs Hfresh Hemb Hroom Hbud Hbpos Hnew Hdone].
  destruct (proj1 (wp_run _ _ _) (allocate_encoder_inputs_spec feats size Hsize request Hk Hwf acc1 m1 Hok1 Hsome Hnd
    ltac:(intros i Hi; apply Hfresh, Hhs; by apply list_elem_of_fmap_2) ltac:(lia)))
    as ([] & m2 & Hall & Hok2 & Hused & Hkeep).
  exists (encoder_inputs_to_schedule acc1), n', (encoder_compute_budget acc1),
    (external_load_encoder_input acc1), m1, m2.
  assert (Hn' : (0 <= n' <= nn)%Z).
  { destruct rest as [|i rest]; [lia|]. destruct Hrest as (f & Hf & Hn).
    assert (lo <= i < hi) as Hi%(Hwin i f Hf) by (apply Hlo; rewrite Hsplit; set_solver). lia. }
  split_and!; try done; try lia.
  - unfold mbind, M_bind, massert. rewrite (proj2 (Z.ltb_lt _ _)) by lia. simpl. rewrite Hrun.
    rewrite Hacc. done.
  - intros i f Hf Hpos Hlt Hgt.
    assert (Hin : i ∈ pre).
    { assert (Hi : lo <= i < hi) by (apply (Hwin i f Hf); lia).
      assert (Hi' : i ∈ seq lo (hi - lo)) by (apply elem_of_seq; lia).
      rewrite Hsplit in Hi'. apply elem_of_app in Hi' as [?|Hir]; [done|]. exfalso.
      destruct rest as [|j rest]; [by apply elem_of_nil in Hir|]. destruct Hrest as (g & Hg & Hn).
      pose proof (seq_suffix_le _ _ _ _ _ i Hsplit Hir) as Hji.
      pose proof (features_sorted _ Hwf j i g f Hji Hg Hf). lia. }
    assert (Hid : ident request i = identifier f) by (unfold ident; by rewrite Hf).
    destruct (Hdone i f Hin Hf) as [Hu|[Hh|Hno]]; [..|by left]; right.
    + apply (eo_refs _ _ _ Hok2). eauto.
    + apply Hhs, list_elem_of_fmap in Hh as (j & -> & Hj). apply (eo_refs _ _ _ Hok2). eauto.
Qed.

Lemma encoder_inputs_available_witness :
  exists n' b' m1 m2,
    try_schedule_encoder_inputs false true None (demo_mm_request "a") 0 4 9 0 (EncoderCacheManager_init 4)
      = (Ok ([0], n', b', []), m1) /\
    allocate_encoder_inputs (demo_mm_request "a") [0] [] m1 = (Ok tt, m2) /\
    "a"%string ∈ default ∅ (cached m2 !! "img"%string).
Proof.
  destruct (encoder_inputs_available (fun _ => [demo_image]) (fun _ => 3%Z) (demo_mm_request "a") true None
    0 4 9 0 (EncoderCacheManager_init 4)) as (sched & n' & b' & ext & m1 & m2 & Hrun & _ & _ & _ & Hall & _ & Hav).
  - intros h. lia.
  - apply demo_known.
  - split.
    + intros [|i] f Hf; [injection Hf as <-; simpl; lia|discriminate Hf].
    + intros i j f g Hij _ Hg%lookup_lt_Some. simpl in Hg. lia.
    + intros [|i] f l Hf; [injection Hf as <-; discriminate|discriminate Hf].
  - apply init_ok; [intros h|]; lia.
  - lia.
  - lia.
  - assert (Hc : try_schedule_encoder_inputs false true None (demo_mm_request "a") 0 4 9 0 (EncoderCacheManager_init 4)
      = (Ok ([0], 4%Z, 6%Z, []), EncoderCacheManager_init 4)) by (vm_compute; reflexivity).
    rewrite Hc in Hrun. injection Hrun as <- <- <- <- <-.
    exists 4%Z, 6%Z, (EncoderCacheManager_init 4), m2. split; [exact Hc|]. split; [exact Hall|].
    destruct (Hav 0 demo_image eq_refl) as [[a Ha]|Hin]; [lia|simpl; lia|simpl; lia|vm_compute in Ha; congruence|exact Hin].
Defined.
