(* ===== verification/CacheHit.v ===== *)
(** Prefix-cache lookup of the single-type managers
    (vllm/v1/core/single_type_kv_cache_manager.py): [find_longest_cache_hit] of the
    full-attention, sliding-window, chunked-local, ring and cross-attention managers,
    and the retention mask of the sliding window. *)
From S2P Require Import Prelude KVBlock FreeQueue Request BlockHash BlockPool BlockPoolInv BlockPoolSpec BlockPoolCache.

(** [cdiv(a, b)] of vllm/utils/math_utils.py *)
Definition cdiv (a b : Z) : Z := (- (a / (- b)))%Z.

(** The manager classes with the attributes their specs give them;
    [KpoolTailManager] is a [CircularBuffer]. *)
Inductive manager_kind :=
  | FullAttention
  | RSWA (rswa_window : Z)
  | SlidingWindow (sliding_window extra_retained_tokens : Z)
  | DFlashRing (sliding_window extra_retained_tokens : Z)
  | CircularBuffer
  | ChunkedLocal (attention_chunk_size : Z)
  | CrossAttention.

(** [block_pool.get_cached_block(...)] used as a truth value: an empty list is a miss. *)
Definition probe (h : bytes) (gids : list Z) : M BlockPool (option (list ref)) :=
  o ← get_cached_block h gids;
  mret (match o with Some [] => None | _ => o end).

(** [for computed, cached in zip(computed_blocks, cached_block): computed.append(cached)] *)
Definition append_each (computed : list (list ref)) (blocks : list ref) : list (list ref) :=
  zip_with (fun l b => l ++ [b]) computed blocks ++ drop (length blocks) computed.

(** [len(computed_blocks[0])] *)
Definition first_len (computed : list (list ref)) : outcome Z :=
  match computed with [] => Raise IndexError | l :: _ => Ok (zlen l) end.

(** ** Full attention *)

(** Phase 1: append hits of [idxs] until the first miss. *)
Fixpoint hit_run (hashes : BlockHashList) (gids : list Z) (idxs : list Z)
    (computed : list (list ref)) : M BlockPool (list (list ref)) :=
  match idxs with
  | [] => mret computed
  | i :: rest =>
      h ← lift_outcome (bhl_get hashes i);
      o ← probe h gids;
      match o with
      | None => mret computed
      | Some bs => hit_run hashes gids rest (append_each computed bs)
      end
  end.

(** Phase 2: the first hit of the fine boundaries, tried from the longest. *)
Fixpoint fine_probe (hashes : list bytes) (gids : list Z) (idxs : list Z)
    : M BlockPool (option (Z * list ref)) :=
  match idxs with
  | [] => mret None
  | i :: rest =>
      h ← of_option IndexError (pyget hashes i);
      o ← probe h gids;
      match o with
      | None => fine_probe hashes gids rest
      | Some bs => mret (Some (i, bs))
      end
  end.

(** [range(hi - 1, lo - 1, -1)] *)
Definition zrange_down (lo hi : Z) : list Z := reverse (zrange lo hi).

(** The two phases of [FullAttentionManager.find_longest_cache_hit]: the blocks found
    and the length they cover. *)
Definition full_search (block_hashes : BlockHashList) (max_length : Z) (gids : list Z)
    (block_size alignment_tokens : Z) : M BlockPool (list (list ref) * Z) :=
  p ← gets id;
  block_hashes ← lift_outcome (resolve_block_hashes block_hashes (hash_block_size p) block_size true
                                 (Some alignment_tokens));
  let fine_grained := (alignment_tokens <? block_size)%Z && (block_size mod alignment_tokens =? 0)%Z in
  full_block_hashes ←
    (if fine_grained then
       match block_hashes with
       | RawHashes hs => lift_outcome (BlockHashListWithBlockSize hs alignment_tokens block_size)
       | HashesWithBlockSize _ _ => raise AssertionError
       end
     else mret block_hashes);
  computed ← hit_run full_block_hashes gids
    (zrange 0 (Z.min (max_length / block_size) (bhl_len full_block_hashes)))
    (replicate (length gids) []);
  n ← lift_outcome (first_len computed);
  let hit_length := (n * block_size)%Z in
  if fine_grained then
    match block_hashes with
    | RawHashes hs =>
        let scale_factor := (block_size / alignment_tokens)%Z in
        let first_partial_idx := (n * scale_factor)%Z in
        let max_partial_idx :=
          Z.min (first_partial_idx + scale_factor - 1)
            (Z.min (max_length / alignment_tokens) (zlen hs)) in
        o ← fine_probe hs gids (zrange_down first_partial_idx max_partial_idx);
        match o with
        | None => mret (computed, hit_length)
        | Some (fine_idx, bs) => mret (append_each computed bs, ((fine_idx + 1) * alignment_tokens)%Z)
        end
    | HashesWithBlockSize _ _ => raise AssertionError
    end
  else mret (computed, hit_length).

(** [FullAttentionManager.find_longest_cache_hit] *)
Definition full_find_longest_cache_hit (block_hashes : BlockHashList) (max_length : Z)
    (gids : list Z) (spec_block_size : Z) (drop_eagle_block : bool) (alignment_tokens : Z)
    (dcp_world_size : Z) : M BlockPool (list (list ref) * Z) :=
  let block_size := if (1 <? dcp_world_size)%Z then (spec_block_size * dcp_world_size)%Z else spec_block_size in
  '(computed, hit_length) ← full_search block_hashes max_length gids block_size alignment_tokens;
  let hit_length := if drop_eagle_block && (0 <? hit_length)%Z
                    then (hit_length - Z.min alignment_tokens block_size)%Z else hit_length in
  let hit_length := (hit_length - hit_length mod alignment_tokens)%Z in
  let num_blocks := cdiv hit_length block_size in
  mret (take (Z.to_nat num_blocks) <$> computed, hit_length).

(** ** Sliding window *)

(** [_contiguous_blocks_for_hit(window_size, block_size, use_eagle)] *)
Definition contiguous_blocks_for_hit (window_size block_size : Z) (use_eagle : bool) : Z :=
  let blocks := cdiv (window_size - 1) block_size in
  if use_eagle then (blocks + 1)%Z else blocks.

(** [for computed, cached in zip(...): computed[i] = cached] *)
Definition set_each (i : Z) (computed : list (list ref)) (blocks : list ref) : list (list ref) :=
  zip_with (fun l b => <[Z.to_nat i := b]> l) computed blocks ++ drop (length blocks) computed.

(** The search from right to left: [(computed, num_contiguous_blocks, match_found)]. *)
Fixpoint swa_search (hashes : BlockHashList) (gids : list Z) (block_size alignment_tokens need : Z)
    (drop_eagle_block : bool) (idxs : list Z) (computed : list (list ref)) (num_contiguous : Z)
    : M BlockPool (list (list ref) * Z * bool) :=
  match idxs with
  | [] => mret (computed, num_contiguous, false)
  | i :: rest =>
      h ← lift_outcome (bhl_get hashes i);
      o ← probe h gids;
      match o with
      | None => swa_search hashes gids block_size alignment_tokens need drop_eagle_block rest computed 0
      | Some bs =>
          let post_pop_blocks := if drop_eagle_block then i else (i + 1)%Z in
          if (num_contiguous =? 0)%Z && negb (block_size =? alignment_tokens)%Z &&
             negb ((post_pop_blocks * block_size) mod alignment_tokens =? 0)%Z
          then swa_search hashes gids block_size alignment_tokens need drop_eagle_block rest computed
                 num_contiguous
          else
            let computed := set_each i computed bs in
            let num_contiguous := (num_contiguous + 1)%Z in
            if (need <=? num_contiguous)%Z
            then mret (take (Z.to_nat (i + num_contiguous)) <$> computed, num_contiguous, true)
            else swa_search hashes gids block_size alignment_tokens need drop_eagle_block rest computed
                   num_contiguous
      end
  end.

(** The number of blocks left after popping until the length is aligned; the empty
    list is aligned, so the loop stops. *)
Fixpoint realign (block_size alignment_tokens : Z) (n : nat) : nat :=
  match n with
  | O => O
  | S n' =>
      if negb (block_size =? alignment_tokens)%Z &&
         negb ((Z.of_nat n * block_size) mod alignment_tokens =? 0)%Z
      then realign block_size alignment_tokens n' else n
  end.

Definition realign_each (block_size alignment_tokens : Z) (computed : list (list ref))
    : outcome (list (list ref)) :=
  match first_len computed with
  | Raise e => Raise e
  | Ok n => Ok (take (realign block_size alignment_tokens (Z.to_nat n)) <$> computed)
  end.

(** [SlidingWindowManager.find_longest_cache_hit] *)
Definition swa_find_longest_cache_hit (block_hashes : BlockHashList) (max_length : Z) (gids : list Z)
    (block_size sliding_window : Z) (drop_eagle_block : bool) (alignment_tokens : Z)
    (dcp_world_size pcp_world_size : Z) : M BlockPool (list (list ref) * Z) :=
  massert (dcp_world_size =? 1)%Z ;;
  massert (pcp_world_size =? 1)%Z ;;
  massert (alignment_tokens mod block_size =? 0)%Z ;;
  p ← gets id;
  hashes ← lift_outcome (resolve_block_hashes block_hashes (hash_block_size p) block_size false
                           (Some alignment_tokens));
  let need := contiguous_blocks_for_hit sliding_window block_size drop_eagle_block in
  let max_num_blocks := (max_length / block_size)%Z in
  '(computed, num_contiguous, match_found) ←
    swa_search hashes gids block_size alignment_tokens need drop_eagle_block
      (zrange_down 0 max_num_blocks)
      (replicate (length gids) (replicate (Z.to_nat max_num_blocks) (null_block p))) 0;
  computed ←
    (if match_found : bool then mret computed
     else lift_outcome (realign_each block_size alignment_tokens
                          (take (Z.to_nat num_contiguous) <$> computed)));
  n ← lift_outcome (first_len computed);
  computed ←
    (if drop_eagle_block && negb (n =? 0)%Z
     then lift_outcome (realign_each block_size alignment_tokens (take (Z.to_nat (n - 1)) <$> computed))
     else mret computed);
  n ← lift_outcome (first_len computed);
  mret (computed, (n * block_size)%Z).

(** [SlidingWindowManager.reachable_block_mask]; positions are offsets from [start_block]. *)
Definition swa_reachable_block_mask (start_block end_block : Z) (alignment_tokens : option Z)
    (block_size sliding_window : Z) (use_eagle : bool) (retention_interval : option Z)
    (reachable_boundaries : list Z) : outcome (option (list bool)) :=
  match alignment_tokens with
  | None => Ok None
  | Some alignment_tokens =>
      if negb (alignment_tokens mod block_size =? 0)%Z then Raise AssertionError
      else
        let need := contiguous_blocks_for_hit sliding_window block_size use_eagle in
        let shift := if use_eagle then 1%Z else 0%Z in
        let segment_tokens :=
          match retention_interval with
          | None => Some alignment_tokens
          | Some r => if (r =? 0)%Z then None else Some r
          end in
        let in_boundary i := match retention_interval with
          | None => false
          | Some _ => existsb (fun boundary_tokens =>
              let aligned := (boundary_tokens / alignment_tokens * alignment_tokens)%Z in
              let stop := (aligned / block_size + shift)%Z in
              (Z.max start_block (stop - need) <=? i)%Z && (i <? Z.min end_block stop)%Z)
              reachable_boundaries
          end in
        match segment_tokens with
        | None => Ok (Some (in_boundary <$> zrange start_block end_block))
        | Some segment_tokens =>
            let per_segment := (segment_tokens / block_size)%Z in
            if (per_segment <=? need)%Z then Ok None
            else Ok (Some ((fun i =>
              ((shift <=? i)%Z && (per_segment - need <=? (i - shift) mod per_segment)%Z) || in_boundary i)
              <$> zrange start_block end_block))
        end
  end.

(** ** Chunked local attention *)

(** [ChunkedLocalAttentionManager.find_longest_cache_hit] *)
Definition chunked_find_longest_cache_hit (block_hashes : BlockHashList) (max_length : Z) (gids : list Z)
    (block_size attention_chunk_size : Z) (drop_eagle_block : bool) (alignment_tokens : Z)
    (dcp_world_size pcp_world_size : Z) : M BlockPool (list (list ref) * Z) :=
  massert (negb drop_eagle_block) ;;
  massert (dcp_world_size =? 1)%Z ;;
  massert (pcp_world_size =? 1)%Z ;;
  massert (block_size =? alignment_tokens)%Z ;;
  p ← gets id;
  hashes ← lift_outcome (resolve_block_hashes block_hashes (hash_block_size p) block_size false
                           (Some alignment_tokens));
  let max_num_blocks := (max_length / block_size)%Z in
  let local_attention_start_idx :=
    if (0 <? max_length)%Z then (max_length / attention_chunk_size * attention_chunk_size)%Z else 0%Z in
  let start_block := (local_attention_start_idx / block_size)%Z in
  computed ← hit_run hashes gids (zrange start_block max_num_blocks)
    (replicate (length gids) (replicate (Z.to_nat start_block) (null_block p)));
  n ← lift_outcome (first_len computed);
  mret (computed, (n * block_size)%Z).

(** ** Dispatch on the manager class *)

Definition find_longest_cache_hit (k : manager_kind) (block_hashes : BlockHashList) (max_length : Z)
    (gids : list Z) (spec_block_size : Z) (drop_eagle_block : bool) (alignment_tokens : Z)
    (dcp_world_size pcp_world_size : Z) : M BlockPool (list (list ref) * Z) :=
  match k with
  | FullAttention | RSWA _ =>
      full_find_longest_cache_hit block_hashes max_length gids spec_block_size drop_eagle_block
        alignment_tokens dcp_world_size
  | SlidingWindow w _ =>
      swa_find_longest_cache_hit block_hashes max_length gids spec_block_size w drop_eagle_block
        alignment_tokens dcp_world_size pcp_world_size
  | ChunkedLocal c =>
      chunked_find_longest_cache_hit block_hashes max_length gids spec_block_size c drop_eagle_block
        alignment_tokens dcp_world_size pcp_world_size
  | DFlashRing _ _ | CircularBuffer => mret (replicate (length gids) [], 0%Z)
  | CrossAttention => raise NotImplementedError
  end.

(** ** What a lookup finds *)

Lemma cdiv_spec a b : (0 < b)%Z -> ((cdiv a b - 1) * b < a <= cdiv a b * b)%Z.
Proof.
  intros Hb. unfold cdiv. pose proof (Z.div_mod a (- b) ltac:(lia)).
  pose proof (Z.mod_neg_bound a (- b) ltac:(lia)). nia.
Qed.

Lemma cdiv_unique a b q : (0 < b)%Z -> ((q - 1) * b < a <= q * b)%Z -> cdiv a b = q.
Proof. intros Hb Hq. pose proof (cdiv_spec a b Hb). nia. Qed.

Lemma cdiv_nonneg a b : (0 < b)%Z -> (0 <= a)%Z -> (0 <= cdiv a b)%Z.
Proof. intros Hb Ha. pose proof (cdiv_spec a b Hb). apply Z.le_ngt. intros ?. nia. Qed.

Lemma cdiv_mul a b : (0 < b)%Z -> cdiv (a * b) b = a.
Proof. intros Hb. pose proof (cdiv_spec (a * b) b Hb). nia. Qed.

(** Block [r] is cached under hash [h] for group [g]. *)
Definition holds (n : nat) (p : BlockPool) (h : bytes) (g : Z) (r : ref) : Prop :=
  exists i, r = Blk i /\ 0 < i < n /\ h ++ to_bytes_big 4 g ∈ hashes_of p i.

(** Every group has some block cached under [h]. *)
Definition cached_at (n : nat) (p : BlockPool) (gids : list Z) (h : bytes) : Prop :=
  forall g, g ∈ gids -> exists r, holds n p h g r.

(** One hit: a block per group. *)
Definition hit_col (n : nat) (p : BlockPool) (gids : list Z) (h : bytes) (col : list ref) : Prop :=
  Forall2 (fun g r => holds n p h g r) gids col.

Section lookup.
Context (n : nat) (p : BlockPool) (gids : list Z).
Context (Hok : cache_ok n p) (Hgids : forall g, g ∈ gids -> (0 <= g < 2 ^ 32)%Z) (Hne : gids <> []).

Lemma hit_col_cached h col : hit_col n p gids h col -> cached_at n p gids h.
Proof using.
  intros Hc g Hg. apply list_elem_of_lookup_1 in Hg as [k Hk].
  destruct (Forall2_lookup_l _ _ _ _ _ Hc Hk) as (r & _ & Hr). eauto.
Qed.

(** A probe hits exactly when every group has the hash. *)
Lemma probe_spec h :
  exists o, probe h gids p = (Ok o, p) /\
    match o with
    | Some col => hit_col n p gids h col
    | None => ~ cached_at n p gids h
    end.
Proof using Hok Hgids Hne.
  destruct (get_cached_block_spec n p h gids Hok Hgids) as (o & Ho & Hspec).
  unfold probe, mbind, M_bind. rewrite Ho. destruct o as [bs|].
  - destruct bs as [|b bs].
    + apply Forall2_nil_inv_r in Hspec. done.
    + exists (Some (b :: bs)). split; [done|]. exact Hspec.
  - exists None. split; [done|]. intros Hc. destruct Hspec as (g & Hg & Hno).
    destruct (Hc g Hg) as (r & i & -> & Hi & Hin). apply (Hno i); [lia|done].
Qed.

Definition append_cols (computed cols : list (list ref)) : list (list ref) :=
  foldl append_each computed cols.

(** Phase 1 stops at the first miss: the hits [cols] line up with the indices. *)
Lemma hit_run_spec hashes idxs computed :
  (forall i, i ∈ idxs -> exists h, bhl_get hashes i = Ok h) ->
  exists cols, hit_run hashes gids idxs computed p = (Ok (append_cols computed cols), p) /\
    length cols <= length idxs /\
    (forall j i col, idxs !! j = Some i -> cols !! j = Some col ->
      exists h, bhl_get hashes i = Ok h /\ hit_col n p gids h col) /\
    (forall i, idxs !! length cols = Some i ->
      exists h, bhl_get hashes i = Ok h /\ ~ cached_at n p gids h).
Proof using Hok Hgids Hne.
  revert computed. induction idxs as [|i idxs IH]; intros computed Hget.
  - exists []. done.
  - destruct (Hget i) as [h Hh]; [set_solver|]. destruct (probe_spec h) as (o & Ho & Hspec).
    cbn [hit_run]. unfold mbind, M_bind. rewrite Hh. simpl. unfold mbind in Ho. rewrite Ho.
    destruct o as [col|].
    + destruct (IH (append_each computed col)) as (cols & Hrun & Hlen & Hcols & Hmiss); [set_solver|].
      exists (col :: cols). split; [exact Hrun|]. simpl. split; [lia|]. split; [|exact Hmiss].
      intros [|j] i' col' Hi Hc; simplify_eq/=; eauto.
    + exists []. split; [done|]. simpl. split; [lia|]. split; [done|]. intros i' [= <-]. eauto.
Qed.

Lemma fine_probe_spec hs idxs :
  (forall i, i ∈ idxs -> is_Some (pyget hs i)) ->
  exists o, fine_probe hs gids idxs p = (Ok o, p) /\
    match o with
    | Some (i, col) => exists k h, idxs !! k = Some i /\ pyget hs i = Some h /\ hit_col n p gids h col /\
        (forall k' i' h', k' < k -> idxs !! k' = Some i' -> pyget hs i' = Some h' -> ~ cached_at n p gids h')
    | None => forall i h, i ∈ idxs -> pyget hs i = Some h -> ~ cached_at n p gids h
    end.
Proof using Hok Hgids Hne.
  induction idxs as [|i idxs IH]; intros Hget.
  - exists None. split; [done|]. intros i h Hi. by apply elem_of_nil in Hi.
  - destruct (Hget i) as [h Hh]; [set_solver|]. destruct (probe_spec h) as (o & Ho & Hspec).
    cbn [fine_probe]. unfold mbind, M_bind. rewrite Hh. simpl. rewrite Ho. destruct o as [col|].
    + exists (Some (i, col)). split; [done|]. exists 0, h. split_and!; try done. intros k'. lia.
    + destruct IH as (o & Hrun & Hrest); [set_solver|]. exists o. split; [exact Hrun|].
      destruct o as [[i' col]|].
      * destruct Hrest as (k & h' & Hk & Hh' & Hcol & Hbefore). exists (S k), h'. split_and!; try done.
        intros [|k'] i2 h2 Hk' Hi2 Hh2; simplify_eq/=; [done|]. eapply Hbefore; [|done..]. lia.
      * intros i' h' [->|Hi']%elem_of_cons Hh'; [by simplify_eq|eauto].
Qed.
End lookup.

(** ** Columns and rows *)

Lemma append_each_spec computed col :
  length col = length computed ->
  length (append_each computed col) = length computed /\
  forall gi l r, computed !! gi = Some l -> col !! gi = Some r ->
    append_each computed col !! gi = Some (l ++ [r]).
Proof.
  intros Hlen. unfold append_each. rewrite Hlen, drop_all, app_nil_r. split.
  - rewrite length_zip_with. lia.
  - intros gi l r Hl Hr. by rewrite lookup_zip_with, Hl, Hr.
Qed.

Lemma append_cols_spec computed cols :
  (forall col, col ∈ cols -> length col = length computed) ->
  length (append_cols computed cols) = length computed /\
  forall gi l, computed !! gi = Some l ->
    append_cols computed cols !! gi = Some (l ++ ((fun col => col !!! gi) <$> cols)).
Proof.
  revert computed. induction cols as [|col cols IH]; intros computed Hlen.
  - split; [done|]. intros gi l Hl. simpl. by rewrite app_nil_r.
  - destruct (append_each_spec computed col) as [Hl1 Ha]; [apply Hlen; set_solver|].
    destruct (IH (append_each computed col)) as [Hl2 Hb].
    { intros c Hc. rewrite Hl1. apply Hlen. set_solver. }
    simpl. split; [unfold append_cols in *; simpl; lia|]. intros gi l Hl.
    destruct (lookup_lt_is_Some_2 col gi) as [r Hr].
    { rewrite Hlen by set_solver. by eapply lookup_lt_Some. }
    unfold append_cols in *. simpl. rewrite (Hb gi (l ++ [r])) by (by apply Ha).
    rewrite <- app_assoc. simpl. do 3 f_equal. symmetry. by apply list_lookup_total_correct.
Qed.
