(* ===== verification/CacheHitThms.v ===== *)
(** What [find_longest_cache_hit] returns: blocks that hold exactly the request's
    prefix, and no shorter a prefix than the cache allows. *)
From S2P Require Import Prelude KVBlock FreeQueue Request BlockHash BlockPool BlockPoolInv BlockPoolSpec BlockPoolCache BlockPoolThms CacheHit.

(** The hash of the first [t] tokens, [t] a positive multiple of the hash block size. *)
Definition prefix_hash (hbs : Z) (hs : list bytes) (t : Z) : option bytes :=
  hs !! Z.to_nat (t / hbs - 1).

(** Every group has a block cached for the prefix of [t] tokens. *)
Definition prefix_cached (n : nat) (p : BlockPool) (gids : list Z) (hs : list bytes) (t : Z) : Prop :=
  exists h, prefix_hash (hash_block_size p) hs t = Some h /\ cached_at n p gids h.

(** [v] is the view of [hs] at [bs] tokens per entry. *)
Definition view_ok (hbs bs : Z) (hs : list bytes) (v : BlockHashList) : Prop :=
  bhl_len v = (zlen hs / (bs / hbs))%Z /\
  forall i, (0 <= i < bhl_len v)%Z ->
    exists h, bhl_get v i = Ok h /\ prefix_hash hbs hs ((i + 1) * bs) = Some h.

Lemma prefix_hash_lookup hbs hs j :
  (0 < hbs)%Z -> (0 <= j)%Z -> prefix_hash hbs hs ((j + 1) * hbs) = hs !! Z.to_nat j.
Proof. intros. unfold prefix_hash. rewrite Z.div_mul by lia. f_equal. lia. Qed.

Lemma view_scaled hbs k hs :
  (0 < hbs)%Z -> (0 < k)%Z -> view_ok hbs (k * hbs) hs (HashesWithBlockSize hs k).
Proof.
  intros Hh Hk. unfold view_ok. rewrite Z.div_mul by lia. split; [done|]. simpl. intros i Hi.
  assert (((i + 1) * k <= zlen hs)%Z) as Hle.
  { pose proof (Z.mul_div_le (zlen hs) k Hk). nia. }
  unfold zlen in *. destruct (lookup_lt_is_Some_2 hs (Z.to_nat ((i + 1) * k - 1))) as [h Hl]; [nia|].
  exists h. unfold bhl_get.
  replace ((i + 1) * k - 1)%Z with (Z.of_nat (Z.to_nat ((i + 1) * k - 1))) at 1 by nia.
  rewrite pyget_nonneg, Hl. split; [done|].
  replace ((i + 1) * (k * hbs))%Z with ((((i + 1) * k - 1) + 1) * hbs)%Z by lia.
  rewrite prefix_hash_lookup by nia. done.
Qed.

Lemma view_raw hbs hs : (0 < hbs)%Z -> view_ok hbs hbs hs (RawHashes hs).
Proof.
  intros Hh. unfold view_ok. rewrite Z.div_same, Z.div_1_r by lia. split; [done|]. simpl. intros i Hi.
  unfold zlen in *. destruct (lookup_lt_is_Some_2 hs (Z.to_nat i)) as [h Hl]; [lia|].
  exists h. unfold bhl_get. replace i with (Z.of_nat (Z.to_nat i)) at 1 by lia.
  rewrite pyget_nonneg, Hl, prefix_hash_lookup by lia. done.
Qed.

(** Fine-grained mode: the alignment is a proper divisor of the block size. *)
Definition fine_mode (bs al : Z) : bool := (al <? bs)%Z && (bs mod al =? 0)%Z.

(** A lookup that is not fine-grained gets the view at its block size. *)
Lemma resolve_coarse hbs k hs supports al :
  (0 < hbs)%Z -> (0 < k)%Z -> supports && fine_mode (k * hbs) al = false ->
  exists v, resolve_block_hashes (RawHashes hs) hbs (k * hbs) supports (Some al) = Ok v /\
    view_ok hbs (k * hbs) hs v.
Proof.
  intros Hh Hk Hf. unfold resolve_block_hashes. destruct (Z.eqb_spec (k * hbs) hbs) as [He|Hne].
  - exists (RawHashes hs). split; [done|]. rewrite He. by apply view_raw.
  - unfold fine_mode in Hf. rewrite Hf, Z.mod_mul by lia. simpl. unfold BlockHashListWithBlockSize.
    rewrite Z.mod_mul, Z.div_mul by lia. simpl. eexists. split; [done|]. by apply view_scaled.
Qed.

Section full.
Context (n : nat) (p : BlockPool) (gids : list Z).
Context (Hok : cache_ok n p) (Hgids : forall g, g ∈ gids -> (0 <= g < 2 ^ 32)%Z) (Hne : gids <> []).
Context (hs : list bytes) (max_length k : Z).
Local Abbreviation hbs := (hash_block_size p).
Local Abbreviation bs := (k * hash_block_size p)%Z.
Context (Hh : (0 < hash_block_size p)%Z) (Hk : (0 < k)%Z) (Hmax : (0 <= max_length)%Z).

(** The columns [cols] hold the prefix of [H] tokens, block by block. *)
Definition covers (H : Z) (cols : list (list ref)) : Prop :=
  zlen cols = cdiv H bs /\ (0 <= H <= max_length)%Z /\
  forall i col, cols !! i = Some col -> exists h,
    prefix_hash hbs hs (Z.min H ((Z.of_nat i + 1) * bs)) = Some h /\ hit_col n p gids h col.

(** Every prefix of whole blocks up to [L], and [L] itself, is cached. *)
Definition all_cached (L : Z) : Prop :=
  (forall i, (0 <= i)%Z -> ((i + 1) * bs <= L)%Z -> prefix_cached n p gids hs ((i + 1) * bs)) /\
  ((L mod bs)%Z <> 0%Z -> prefix_cached n p gids hs L).

Lemma hit_col_length h col : hit_col n p gids h col -> length col = length gids.
Proof using. intros Hc. by apply Forall2_length in Hc. Qed.

(** The rows of a search that appended the columns [cols]. *)
Lemma rows_of_cols cols :
  (forall col, col ∈ cols -> length col = length gids) ->
  first_len (append_cols (replicate (length gids) []) cols) = Ok (zlen cols) /\
  length (append_cols (replicate (length gids) []) cols) = length gids /\
  forall gi, gi < length gids ->
    append_cols (replicate (length gids) []) cols !! gi = Some ((fun col => col !!! gi) <$> cols).
Proof using Hne.
  intros Hlen. destruct (append_cols_spec (replicate (length gids) []) cols) as [Hl Hr].
  { intros col Hc. rewrite length_replicate. auto. }
  rewrite length_replicate in Hl.
  assert (Hrow : forall gi, gi < length gids ->
    append_cols (replicate (length gids) []) cols !! gi = Some ((fun col => col !!! gi) <$> cols)).
  { intros gi Hgi. rewrite (Hr gi []); [done|]. by apply lookup_replicate_2. }
  split_and!; [|done|done].
  assert (0 < length gids) as H0 by (clear -Hne; destruct gids; [done|simpl; lia]).
  specialize (Hrow 0 H0). destruct (append_cols _ _) as [|l rest]; [done|].
  simpl in *. simplify_eq. unfold zlen. by rewrite length_fmap.
Qed.

(** Phase 1 finds the whole cached blocks from the start, and all of them. *)
Lemma phase1_spec v :
  view_ok hbs bs hs v ->
  exists cols,
    hit_run v gids (zrange 0 (Z.min (max_length / bs) (bhl_len v))) (replicate (length gids) []) p
      = (Ok (append_cols (replicate (length gids) []) cols), p) /\
    (zlen cols * bs <= max_length)%Z /\ (zlen cols <= zlen hs / k)%Z /\
    (forall i col, cols !! i = Some col -> exists h,
      prefix_hash hbs hs ((Z.of_nat i + 1) * bs) = Some h /\ hit_col n p gids h col) /\
    (forall L, (0 <= L <= max_length)%Z -> all_cached L -> (L / bs <= zlen cols)%Z).
Proof using Hok Hgids Hne Hh Hk Hmax.
  intros [Hlen Hget]. rewrite Z.div_mul in Hlen by lia.
  set (m := Z.min (max_length / bs) (bhl_len v)).
  assert (Hm0 : (0 <= m)%Z).
  { pose proof (Z.div_pos max_length bs ltac:(lia) ltac:(nia)).
    pose proof (Z.div_pos (zlen hs) k ltac:(unfold zlen; lia) ltac:(lia)). lia. }
  destruct (hit_run_spec n p gids Hok Hgids Hne v (zrange 0 m) (replicate (length gids) []))
    as (cols & Hrun & Hcl & Hcols & Hmiss).
  { intros i Hi%elem_of_zrange. destruct (Hget i) as (h & Hg & _); [lia|]. eauto. }
  rewrite length_zrange in Hcl.
  assert (Hidx : forall j, j < Z.to_nat m -> zrange 0 m !! j = Some (Z.of_nat j)).
  { intros j Hj. unfold zrange. rewrite list_lookup_fmap, lookup_seq_lt by lia. done. }
  exists cols. split; [exact Hrun|]. unfold zlen in *.
  assert (Hmb : (m * bs <= max_length)%Z) by (pose proof (Z.mul_div_le max_length bs ltac:(nia)); nia).
  split_and!; [nia|lia| |].
  - intros i col Hi. assert (i < length cols) by (by eapply lookup_lt_Some).
    destruct (Hcols i (Z.of_nat i) col) as (h & Hg & Hc); [apply Hidx; lia|done|].
    destruct (Hget (Z.of_nat i)) as (h' & Hg' & Hp); [lia|].
    exists h'. replace h with h' in Hc by congruence. done.
  - intros L HL [Hfull _]. apply Z.le_ngt. intros Hlt.
    assert (Hpc : prefix_cached n p gids hs ((Z.of_nat (length cols) + 1) * bs)).
    { apply Hfull; [lia|]. pose proof (Z.mul_div_le L bs ltac:(nia)). nia. }
    destruct Hpc as (h & Hp & Hc).
    assert (Z.of_nat (length cols) < m)%Z as Hlm.
    { subst m. pose proof (Z.div_le_mono L max_length bs ltac:(nia) ltac:(lia)).
      apply Z.min_glb_lt; [lia|].
      rewrite Hlen. unfold prefix_hash in Hp. apply lookup_lt_Some in Hp.
      replace ((Z.of_nat (length cols) + 1) * bs / hbs)%Z with ((Z.of_nat (length cols) + 1) * k)%Z in Hp.
      2:{ rewrite Z.mul_assoc, Z.div_mul by lia. done. }
      pose proof (Z.div_le_lower_bound (Z.of_nat (length hs)) k (Z.of_nat (length cols) + 1) Hk). nia. }
    destruct (Hmiss (Z.of_nat (length cols))) as (h' & Hg & Hno); [apply Hidx; lia|].
    destruct (Hget (Z.of_nat (length cols))) as (h2 & Hg2 & Hp2); [lia|].
    apply Hno. by replace h' with h by congruence.
Qed.

(** Both phases together: the unit of a hit is a block, or a hash block when
    fine-grained. *)
Definition search_result (unit : Z) (cols : list (list ref)) (H : Z) : Prop :=
  covers H cols /\ (H mod unit = 0)%Z /\
  forall L, (0 <= L <= max_length)%Z -> (L mod unit = 0)%Z -> all_cached L -> (L <= H)%Z.

Lemma cols_length (Q : nat -> bytes -> Prop) (cols : list (list ref)) :
  (forall i col, cols !! i = Some col -> exists h, Q i h /\ hit_col n p gids h col) ->
  forall col, col ∈ cols -> length col = length gids.
Proof using.
  intros Hc col [i Hi]%list_elem_of_lookup_1. destruct (Hc i col Hi) as (h & _ & Hh').
  by eapply hit_col_length.
Qed.

(** The run of whole blocks that phase 1 leaves. *)
Definition run_of (cols : list (list ref)) : Prop :=
  (zlen cols * bs <= max_length)%Z /\
  forall i col, cols !! i = Some col -> exists h,
    prefix_hash hbs hs ((Z.of_nat i + 1) * bs) = Some h /\ hit_col n p gids h col.

Lemma covers_run cols : run_of cols -> covers (zlen cols * bs) cols.
Proof using Hh Hk Hmax.
  intros [Hm Hcols]. split_and!; [by rewrite cdiv_mul by nia|unfold zlen; nia|exact Hm|]. intros i col Hi.
  assert (i < length cols) by (by eapply lookup_lt_Some). unfold zlen. rewrite Z.min_r by nia. eauto.
Qed.

(** A run extended by a partly filled block. *)
Lemma covers_tail cols col H h :
  run_of cols -> (zlen cols * bs < H < (zlen cols + 1) * bs)%Z -> (H <= max_length)%Z ->
  prefix_hash hbs hs H = Some h -> hit_col n p gids h col -> covers H (cols ++ [col]).
Proof using Hh Hk Hmax.
  intros [Hm Hcols] HH Hle Hp Hc. unfold zlen in *. split_and!; [|nia|done|].
  - symmetry. unfold zlen. rewrite length_app. apply cdiv_unique; simpl; nia.
  - intros j col' Hj. apply lookup_app_Some in Hj as [Hj|[Hj1 Hj2]].
    + assert (j < length cols) by (by eapply lookup_lt_Some). rewrite Z.min_r by nia. eauto.
    + apply list_lookup_singleton_Some in Hj2 as [Hj2 <-]. exists h. rewrite Z.min_l by nia. done.
Qed.

Lemma full_search_coarse al :
  (0 < al)%Z -> (al mod bs = 0)%Z ->
  exists cols H,
    full_search (RawHashes hs) max_length gids bs al p
      = (Ok (append_cols (replicate (length gids) []) cols, H), p) /\ search_result bs cols H.
Proof using Hok Hgids Hne Hh Hk Hmax.
  intros Hal Hmod. apply Z.mod_divide in Hmod as [a ->]; [|nia].
  assert (Hbs : (0 < bs)%Z) by nia. assert (Ha : (0 < a)%Z) by nia.
  assert (Hf : fine_mode bs (a * bs) = false) by (unfold fine_mode; destruct (Z.ltb_spec (a * bs) bs); [nia|done]).
  destruct (resolve_coarse hbs k hs true (a * bs) Hh Hk Hf) as (v & Hv & Hview).
  destruct (phase1_spec v Hview) as (cols & Hrun & Hm & _ & Hcols & Hbest).
  destruct (rows_of_cols cols) as (Hfl & _ & _); [exact (cols_length (fun i h => prefix_hash hbs hs ((Z.of_nat i + 1) * bs) = Some h) cols Hcols)|].
  exists cols, (zlen cols * bs)%Z. split.
  - unfold full_search, mbind, M_bind. simpl. rewrite Hv. simpl.
    unfold fine_mode in Hf. rewrite Hf. cbn. rewrite Hrun, Hfl. done.
  - split_and!; [|apply Z.mod_mul; nia|].
    + by apply covers_run.
    + intros L HL HLm Hall. specialize (Hbest L HL Hall).
      apply Z.mod_divide in HLm as [q ->]; [|nia]. rewrite Z.div_mul in Hbest by nia. nia.
Qed.

Lemma zrange_down_lookup lo hi j :
  (lo <= hi)%Z -> j < Z.to_nat (hi - lo) -> zrange_down lo hi !! j = Some (hi - 1 - Z.of_nat j)%Z.
Proof using.
  intros Hle Hj. unfold zrange_down. rewrite reverse_lookup by (rewrite length_zrange; lia).
  rewrite length_zrange. unfold zrange. rewrite list_lookup_fmap, lookup_seq_lt by lia.
  simpl. f_equal. lia.
Qed.

Lemma elem_of_zrange_down lo hi z : z ∈ zrange_down lo hi <-> (lo <= z < hi)%Z.
Proof using. unfold zrange_down. by rewrite elem_of_reverse, elem_of_zrange. Qed.

(** Phase 2 extends a run of [m] whole blocks by the longest cached part of the next. *)
Lemma phase2_spec m :
  (0 <= m)%Z -> (m * bs <= max_length)%Z ->
  let hi := Z.min (m * k + k - 1) (Z.min (max_length / hbs) (zlen hs)) in
  exists o, fine_probe hs gids (zrange_down (m * k) hi) p = (Ok o, p) /\
    match o with
    | Some (i, col) => (m * k <= i < hi)%Z /\
        (exists h, prefix_hash hbs hs ((i + 1) * hbs) = Some h /\ hit_col n p gids h col) /\
        (forall i', (i < i' < hi)%Z -> ~ prefix_cached n p gids hs ((i' + 1) * hbs))
    | None => forall i', (m * k <= i' < hi)%Z -> ~ prefix_cached n p gids hs ((i' + 1) * hbs)
    end.
Proof using Hok Hgids Hne Hh Hk Hmax.
  intros Hm Hmb hi.
  assert (Hpy : forall i, (m * k <= i < hi)%Z -> pyget hs i = hs !! Z.to_nat i).
  { intros i Hi. replace i with (Z.of_nat (Z.to_nat i)) at 1 by nia. apply pyget_nonneg. }
  assert (Hpc : forall i, (m * k <= i < hi)%Z -> prefix_cached n p gids hs ((i + 1) * hbs) ->
    exists h, pyget hs i = Some h /\ cached_at n p gids h).
  { intros i Hi (h & Hp & Hc). rewrite prefix_hash_lookup in Hp by nia. exists h. by rewrite Hpy. }
  destruct (fine_probe_spec n p gids Hok Hgids Hne hs (zrange_down (m * k) hi)) as (o & Ho & Hspec).
  { intros i Hi%elem_of_zrange_down. rewrite Hpy by done. apply lookup_lt_is_Some_2. unfold hi, zlen in Hi. nia. }
  exists o. split; [exact Ho|]. destruct o as [[i col]|].
  - destruct Hspec as (j & h & Hj & Hh' & Hc & Hbefore).
    assert (Hin : (m * k <= i < hi)%Z) by (apply elem_of_zrange_down; by eapply list_elem_of_lookup_2).
    assert (j < Z.to_nat (hi - m * k)) as Hjl.
    { apply lookup_lt_Some in Hj. unfold zrange_down in Hj. by rewrite length_reverse, length_zrange in Hj. }
    rewrite zrange_down_lookup in Hj by lia. injection Hj as Hj. split_and!; [lia|lia| |].
    + exists h. rewrite prefix_hash_lookup by nia. rewrite Hpy in Hh' by lia. done.
    + intros i' Hi' Hcc. destruct (Hpc i') as (h' & Hpg & Hca); [lia|done|].
      apply (Hbefore (Z.to_nat (hi - 1 - i')) i' h'); [lia| |done|done].
      rewrite zrange_down_lookup by lia. f_equal. lia.
  - intros i' Hi' Hcc. destruct (Hpc i' Hi' Hcc) as (h' & Hpg & Hca).
    eapply Hspec; [by apply elem_of_zrange_down|done|done].
Qed.

(** A fully cached length beyond the whole blocks ends inside the next block. *)
Lemma beyond_run m L :
  (0 <= m)%Z -> (m * bs < L <= max_length)%Z -> (L / bs <= m)%Z -> (L mod hbs = 0)%Z -> all_cached L ->
  let i := (L / hbs - 1)%Z in
  L = ((i + 1) * hbs)%Z /\
  (m * k <= i < Z.min (m * k + k - 1) (Z.min (max_length / hbs) (zlen hs)))%Z /\
  prefix_cached n p gids hs L.
Proof using Hh Hk Hmax.
  intros Hm HL Hq Hmod [_ Htail] i. assert (Hbs : (0 < bs)%Z) by nia.
  pose proof (Z.div_mod L hbs ltac:(lia)) as Hd. pose proof (Z.div_mod L bs ltac:(lia)) as Hb.
  pose proof (Z.mod_pos_bound L bs Hbs) as Hbb.
  assert (HLe : L = ((i + 1) * hbs)%Z) by (unfold i; lia).
  assert (Hrem : (L mod bs)%Z <> 0%Z) by nia. specialize (Htail Hrem).
  assert (HLu : (L < (m + 1) * bs)%Z) by nia.
  split_and!; [done|nia| |done]. apply Z.min_glb_lt; [nia|]. apply Z.min_glb_lt.
  - pose proof (Z.div_le_mono L max_length hbs Hh ltac:(lia)). unfold i. lia.
  - destruct Htail as (h & Hp & _). unfold prefix_hash in Hp. apply lookup_lt_Some in Hp. unfold zlen, i. lia.
Qed.

Lemma full_search_fine :
  (1 < k)%Z ->
  exists cols H,
    full_search (RawHashes hs) max_length gids bs hbs p
      = (Ok (append_cols (replicate (length gids) []) cols, H), p) /\ search_result hbs cols H.
Proof using Hok Hgids Hne Hh Hk Hmax.
  intros Hk1. assert (Hbs : (0 < bs)%Z) by nia.
  assert (Hf : fine_mode bs hbs = true).
  { unfold fine_mode. rewrite Z.mod_mul by lia. destruct (Z.ltb_spec hbs bs); [done|nia]. }
  assert (Hres : resolve_block_hashes (RawHashes hs) hbs bs true (Some hbs) = Ok (RawHashes hs)).
  { unfold resolve_block_hashes. unfold fine_mode in Hf. rewrite Hf. by case_match. }
  destruct (phase1_spec _ (view_scaled hbs k hs Hh Hk)) as (cols & Hrun & Hm & Hmh & Hcols & Hbest).
  destruct (rows_of_cols cols) as (Hfl & _ & _);
    [exact (cols_length (fun i h => prefix_hash hbs hs ((Z.of_nat i + 1) * bs) = Some h) cols Hcols)|].
  assert (H0 : (0 <= zlen cols)%Z) by (unfold zlen; lia).
  destruct (phase2_spec (zlen cols) H0 Hm) as (o & Ho & Hspec).
  assert (Hprog : full_search (RawHashes hs) max_length gids bs hbs p =
    (Ok match o with
        | None => (append_cols (replicate (length gids) []) cols, (zlen cols * bs)%Z)
        | Some (i, col) => (append_cols (replicate (length gids) []) (cols ++ [col]), ((i + 1) * hbs)%Z)
        end, p)).
  { unfold full_search, mbind, M_bind. simpl. rewrite Hres. simpl. unfold fine_mode in Hf. rewrite Hf.
    cbn. unfold BlockHashListWithBlockSize. rewrite Z.mod_mul, Z.div_mul by lia. cbn.
    cbn [bhl_len] in Hrun. rewrite Hrun, Hfl. cbn. rewrite Ho. destruct o as [[i col]|]; [|done].
    unfold append_cols. by rewrite foldl_app. }
  destruct o as [[i col]|].
  - destruct Hspec as (Hi & (h & Hp & Hc) & Hlast). exists (cols ++ [col]), ((i + 1) * hbs)%Z.
    split; [exact Hprog|]. assert (Hle : ((i + 1) * hbs <= max_length)%Z).
    { pose proof (Z.mul_div_le max_length hbs Hh). nia. }
    split_and!; [|apply Z.mod_mul; lia|].
    + eapply covers_tail; [by split|nia|done|done|done].
    + intros L HL HLm Hall. apply Z.le_ngt. intros Hlt.
      destruct (beyond_run (zlen cols) L) as (HLe & Hr & Hpc); [done|nia|by apply Hbest|done|done|].
      rewrite HLe in Hpc. apply (Hlast (L / hbs - 1)%Z); [nia|done].
  - exists cols, (zlen cols * bs)%Z. split; [exact Hprog|]. split_and!.
    + by apply covers_run.
    + rewrite Z.mul_assoc. apply Z.mod_mul. lia.
    + intros L HL HLm Hall. apply Z.le_ngt. intros Hlt.
      destruct (beyond_run (zlen cols) L) as (HLe & Hr & Hpc); [done|lia|by apply Hbest|done|done|].
      rewrite HLe in Hpc. apply (Hspec (L / hbs - 1)%Z); [nia|done].
Qed.

(** Trimming the rows to a shorter hit [hit <= H] keeps a block per position. *)
Lemma rows_trimmed H cols hit gi g row :
  covers H cols -> (0 <= hit <= H)%Z ->
  (take (Z.to_nat (cdiv hit bs)) <$> append_cols (replicate (length gids) []) cols) !! gi = Some row ->
  gids !! gi = Some g ->
  zlen row = cdiv hit bs /\
  forall i r, row !! i = Some r -> exists t h,
    (Z.min hit ((Z.of_nat i + 1) * bs) <= t <= Z.min max_length ((Z.of_nat i + 1) * bs))%Z /\
    prefix_hash hbs hs t = Some h /\ holds n p h g r.
Proof using Hh Hk Hmax Hne.
  intros (Hlen & HH & Hcols) Hhit Hrow Hg. assert (Hbs : (0 < bs)%Z) by nia.
  destruct (rows_of_cols cols) as (_ & _ & Hrows);
    [exact (cols_length (fun i h => prefix_hash hbs hs (Z.min H ((Z.of_nat i + 1) * bs)) = Some h) cols Hcols)|].
  apply list_lookup_fmap_Some in Hrow as (l & -> & Hl).
  rewrite Hrows in Hl by (by eapply lookup_lt_Some). injection Hl as <-.
  pose proof (cdiv_spec hit bs Hbs) as Hc1. pose proof (cdiv_spec H bs Hbs) as Hc2. unfold zlen in *. split.
  - rewrite length_take, length_fmap. nia.
  - intros i r [Hr _]%lookup_take_Some. apply list_lookup_fmap_Some in Hr as (col & -> & Hi).
    destruct (Hcols i col Hi) as (h & Hp & Hcol). eexists _, h. split; [|split; [exact Hp|]]; [lia|].
    destruct (Forall2_lookup_l _ _ _ _ _ Hcol Hg) as (r' & Hr' & Hold).
    by rewrite (list_lookup_total_correct _ _ _ Hr').
Qed.

(** Dropping the EAGLE unit and rounding down to the alignment. *)
Lemma trimmed_length unit al H (drop : bool) :
  (0 < unit)%Z -> (0 < al)%Z -> (al mod unit = 0)%Z -> (0 <= H)%Z -> (H mod unit = 0)%Z ->
  let H1 := (if drop && (0 <? H) then H - unit else H)%Z in
  let hit := (H1 - H1 mod al)%Z in
  (0 <= hit <= H)%Z /\ (hit mod al = 0)%Z /\
  forall L, (L mod al = 0)%Z -> (L <= H)%Z -> (L <= hit + if drop then al else 0)%Z.
Proof using.
  intros Hu Ha Hau H0 Hmod H1 hit.
  apply Z.mod_divide in Hau as [a ->]; [|lia]. apply Z.mod_divide in Hmod as [q ->]; [|lia].
  assert (Hq : (q * unit - unit <= H1 <= q * unit)%Z /\ (0 <= H1)%Z /\ (drop = false -> H1 = q * unit)%Z).
  { unfold H1. destruct drop; simpl; [|lia]. destruct (Z.ltb_spec 0 (q * unit)).
    - assert (0 < q)%Z by nia. split_and!; [lia|lia|nia|done].
    - split_and!; [lia|lia|lia|done]. }
  pose proof (Z.mod_pos_bound H1 (a * unit) Ha) as Hb. pose proof (Z.div_mod H1 (a * unit) ltac:(lia)) as Hd.
  assert (Hhit : hit = (H1 / (a * unit) * (a * unit))%Z) by (unfold hit; lia).
  split_and!; [|unfold hit; lia| |].
  - rewrite Hhit. pose proof (Z.div_pos H1 (a * unit) ltac:(lia) Ha). nia.
  - rewrite Hhit. apply Z.mod_mul. lia.
  - intros L HL HLH. apply Z.mod_divide in HL as [l ->]; [|lia].
    assert (Hl : (l < H1 / (a * unit) + (if drop then 2 else 1))%Z).
    { assert (0 < a)%Z by nia. assert (unit <= a * unit)%Z by nia.
      apply (Z.mul_lt_mono_pos_r (a * unit)); [lia|]. rewrite Z.mul_add_distr_r.
      destruct drop; [lia|]. destruct Hq as (_ & _ & Hq). specialize (Hq eq_refl). lia. }
    rewrite Hhit. set (A := (a * unit)%Z) in *. destruct drop; nia.
Qed.
End full.

(** The phases in both modes: a hit is counted in blocks, or in hash blocks when the
    alignment is the hash block size. *)
Lemma full_search_spec n p gids hs max_length k al :
  cache_ok n p -> (forall g, g ∈ gids -> (0 <= g < 2 ^ 32)%Z) -> gids <> [] ->
  (0 < hash_block_size p)%Z -> (0 < k)%Z -> (0 <= max_length)%Z ->
  (0 < al /\ al mod (k * hash_block_size p) = 0)%Z \/ al = hash_block_size p ->
  let unit := Z.min al (k * hash_block_size p) in
  (al mod unit = 0)%Z /\
  exists cols H,
    full_search (RawHashes hs) max_length gids (k * hash_block_size p) al p
      = (Ok (append_cols (replicate (length gids) []) cols, H), p) /\
    search_result n p gids hs max_length k unit cols H.
Proof.
  intros Hok Hg Hne Hh Hk Hmax Hal unit. set (bs := (k * hash_block_size p)%Z) in *.
  assert (Hbs : (0 < bs)%Z) by nia. destruct (decide (al = hash_block_size p /\ 1 < k)%Z) as [[-> Hk1]|Hno].
  - assert (unit = hash_block_size p) as -> by nia. split; [apply Z.mod_same; lia|].
    by apply full_search_fine.
  - assert (0 < al /\ al mod bs = 0)%Z as [Ha Hm].
    { destruct Hal as [|Hal]; [done|]. assert (k = 1)%Z by lia. subst k al.
      unfold bs. rewrite Z.mul_1_l, Z.mod_same; lia. }
    assert (unit = bs) as ->.
    { apply Z.mod_divide in Hm as [a Ha']; [|lia]. assert (0 < a)%Z by nia. unfold unit. nia. }
    split; [done|]. by apply full_search_coarse.
Qed.

(** The lookup as a whole. *)
Lemma full_hit_spec n p fl gids hs max_length spec_bs dcp al drop_eagle k :
  pool_ok n p fl -> (forall g, g ∈ gids -> (0 <= g < 2 ^ 32)%Z) -> gids <> [] ->
  (0 < hash_block_size p)%Z -> (0 < k)%Z -> (0 <= max_length)%Z ->
  (if 1 <? dcp then spec_bs * dcp else spec_bs)%Z = (k * hash_block_size p)%Z ->
  (0 < al /\ al mod (k * hash_block_size p) = 0)%Z \/ al = hash_block_size p ->
  exists rows hit,
    full_find_longest_cache_hit (RawHashes hs) max_length gids spec_bs drop_eagle al dcp p
      = (Ok (rows, hit), p) /\ length rows = length gids /\
    (0 <= hit <= max_length)%Z /\ (hit mod al = 0)%Z /\
    (forall gi g row, gids !! gi = Some g -> rows !! gi = Some row ->
       zlen row = cdiv hit (k * hash_block_size p) /\
       forall i r, row !! i = Some r -> exists t h,
         (Z.min hit ((Z.of_nat i + 1) * (k * hash_block_size p)) <= t <=
          Z.min max_length ((Z.of_nat i + 1) * (k * hash_block_size p)))%Z /\
         prefix_hash (hash_block_size p) hs t = Some h /\ holds n p h g r) /\
    (forall L, (0 <= L <= max_length)%Z -> (L mod al = 0)%Z -> all_cached n p gids hs k L ->
       (L <= hit + if drop_eagle then al else 0)%Z).
Proof.
  intros [Hok _] Hg Hne Hh Hk Hmax Hbs Hal.
  destruct (full_search_spec n p gids hs max_length k al Hok Hg Hne Hh Hk Hmax Hal)
    as (Hau & cols & H & Hrun & Hcov & HHm & Hbest).
  assert (Ha : (0 < al)%Z) by (destruct Hal; lia). assert (Hu : (0 < Z.min al (k * hash_block_size p))%Z)
    by (apply Z.min_glb_lt; [done|by apply Z.mul_pos_pos]).
  destruct (trimmed_length _ al H drop_eagle Hu Ha Hau (proj1 (proj1 (proj2 Hcov))) HHm) as (Hhit & Hmod & Hlong).
  eexists _, _. split_and!.
  - unfold full_find_longest_cache_hit, mbind, M_bind. rewrite Hbs, Hrun. done.
  - rewrite length_fmap. destruct (append_cols_spec (replicate (length gids) []) cols) as [Hl _];
      [|by rewrite Hl, length_replicate].
    intros col [i Hi]%list_elem_of_lookup_1. destruct Hcov as (_ & _ & Hc). destruct (Hc i col Hi) as (h & _ & Hcol).
    by rewrite length_replicate, (hit_col_length n p gids h col Hcol).
  - apply Hhit.
  - destruct Hcov as (_ & HH & _). lia.
  - exact Hmod.
  - intros gi g row Hgi Hrow. eapply rows_trimmed; done.
  - intros L HL HLm Hall. apply Hlong; [done|]. apply Hbest; [done| |done].
    apply Z.mod_divide; [lia|]. apply Z.mod_divide in HLm; [|lia]. apply Z.mod_divide in Hau; [|lia].
    by etransitivity.
Qed.

(** C22. Full attention's [find_longest_cache_hit], for any number of groups, with or
    without decode-context parallelism, block-aligned or fine-grained.  The lookup
    returns, changes nothing, and finds a hit that is within [max_length] and
    aligned.  Each group's row has exactly one block per started block of the hit,
    and block [i] is held by that group under the hash of a prefix of the request
    that reaches the end of the block or of the hit.  The hit is the longest: any
    aligned length whose blocks are all cached is at most the hit, or at most one
    alignment unit more when the EAGLE block is dropped. *)
Theorem full_attention_hit_correct n p fl gids hs max_length spec_bs dcp al drop_eagle k :
  pool_ok n p fl -> (forall g, g ∈ gids -> (0 <= g < 2 ^ 32)%Z) -> gids <> [] ->
  (0 < hash_block_size p)%Z -> (0 < k)%Z -> (0 <= max_length)%Z ->
  (if 1 <? dcp then spec_bs * dcp else spec_bs)%Z = (k * hash_block_size p)%Z ->
  (0 < al /\ al mod (k * hash_block_size p) = 0)%Z \/ al = hash_block_size p ->
  exists rows hit,
    full_find_longest_cache_hit (RawHashes hs) max_length gids spec_bs drop_eagle al dcp p
      = (Ok (rows, hit), p) /\
    (0 <= hit <= max_length)%Z /\ (hit mod al = 0)%Z /\
    (forall gi g row, gids !! gi = Some g -> rows !! gi = Some row ->
       zlen row = cdiv hit (k * hash_block_size p) /\
       forall i r, row !! i = Some r -> exists t h,
         (Z.min hit ((Z.of_nat i + 1) * (k * hash_block_size p)) <= t <=
          Z.min max_length ((Z.of_nat i + 1) * (k * hash_block_size p)))%Z /\
         prefix_hash (hash_block_size p) hs t = Some h /\ holds n p h g r) /\
    (forall L, (0 <= L <= max_length)%Z -> (L mod al = 0)%Z -> all_cached n p gids hs k L ->
       (L <= hit + if drop_eagle then al else 0)%Z).
Proof.
  intros Hok Hg Hne Hh Hk Hmax Hbs Hal.
  destruct (full_hit_spec n p fl gids hs max_length spec_bs dcp al drop_eagle k) as (rows & hit & Hrun & _ & H); try done.
  exists rows, hit. split; [exact Hrun|exact H].
Qed.

Lemma full_attention_hit_correct_witness :
  exists rows,
    full_find_longest_cache_hit (RawHashes [[Byte.x01]; [Byte.x02]]) 3 [0%Z] 2 false 2 1 demo_pool3
      = (Ok (rows, 2%Z), demo_pool3) /\ rows = [[Blk 1]].
Proof.
  destruct (full_attention_hit_correct 5 demo_pool3 [3; 4] [0%Z] [[Byte.x01]; [Byte.x02]] 3 2 1 2 false 1
    demo_pool3_ok) as (rows & hit & Hrun & _).
  1: intros g ->%list_elem_of_singleton; lia.
  1-5: vm_compute; done.
  1: right; vm_compute; reflexivity.
  pose proof (f_equal fst Hrun) as Hres. vm_compute in Hres. injection Hres as <- <-.
  eexists. split; [exact Hrun|reflexivity].
Defined.
