(* ===== verification/SlidingHit.v ===== *)
(** What the sliding-window lookup returns: a hit whose attention window is cached,
    and the longest such hit; and which blocks the retention mask keeps for it. *)
From S2P Require Import Prelude KVBlock FreeQueue Request BlockHash BlockPool BlockPoolInv BlockPoolSpec BlockPoolCache BlockPoolThms CacheHit CacheHitThms.

(** ** Realignment *)

Lemma realign_le bs al m : realign bs al m <= m.
Proof. induction m as [|m IH]; [done|]. cbn [realign]. destruct (negb _ && negb _); lia. Qed.

Lemma realign_aligned bs al m :
  ((Z.of_nat (realign bs al m) * bs) mod al = 0)%Z.
Proof.
  induction m as [|m IH]; [done|]. cbn [realign].
  destruct (Z.eqb_spec bs al) as [->|]; cbn [negb andb]; [apply Z_mod_mult|].
  destruct (Z.eqb_spec ((Z.of_nat (S m) * bs) mod al) 0); cbn [negb]; [done|exact IH].
Qed.

Lemma realign_id bs al m : ((Z.of_nat m * bs) mod al = 0)%Z -> realign bs al m = m.
Proof. destruct m as [|m]; [done|]. intros Hm. cbn [realign]. by rewrite Hm, andb_false_r. Qed.

Lemma first_len_fmap f (rows : list (list ref)) l :
  rows !! 0 = Some l -> first_len (f <$> rows) = Ok (zlen (f l)).
Proof. destruct rows; [done|]. intros [= ->]. done. Qed.

Section search.
Context (n : nat) (p : BlockPool) (gids : list Z).
Context (Hok : cache_ok n p) (Hgids : forall g, g ∈ gids -> (0 <= g < 2 ^ 32)%Z) (Hne : gids <> []).
Context (hashes : BlockHashList) (bs al need : Z) (drop : bool) (M : nat).
Context (Hget : forall i, i < M -> exists h, bhl_get hashes (Z.of_nat i) = Ok h).

(** Block [i] is cached for every group, or [r] is the block of group [g] for it. *)
Definition block_cached (i : nat) : Prop :=
  exists h, bhl_get hashes (Z.of_nat i) = Ok h /\ cached_at n p gids h.
Definition block_of (g : Z) (i : nat) (r : ref) : Prop :=
  exists h, bhl_get hashes (Z.of_nat i) = Ok h /\ holds n p h g r.

(** A run may end at block [e]: the hit it gives is aligned. *)
Definition edge_ok (e : nat) : Prop :=
  (((if drop then Z.of_nat e else Z.of_nat e + 1) * bs) mod al = 0)%Z.

(** [e] ends a run long enough for a hit, or one that starts at block 0. *)
Definition candidate (e : nat) : Prop :=
  edge_ok e /\ e < M /\ forall i, (Z.of_nat e - need < Z.of_nat i)%Z -> i <= e -> block_cached i.

(** The rows after the run [[j, j + c)] was written. *)
Definition run_written (j c : nat) (rows : list (list ref)) : Prop :=
  length rows = length gids /\
  forall gi g row, gids !! gi = Some g -> rows !! gi = Some row ->
    length row = M /\
    (forall i r, row !! i = Some r -> r = null_block p \/ block_of g i r) /\
    (forall i, j <= i < j + c -> exists r, row !! i = Some r /\ block_of g i r).

Lemma run_written_drop j' j c rows : run_written j c rows -> run_written j' 0 rows.
Proof using.
  intros [Hl Hr]. split; [done|]. intros gi g row Hg Hrow.
  destruct (Hr gi g row Hg Hrow) as (? & ? & _). split_and!; [done|done|]. lia.
Qed.

(** Writing the hit of block [j] extends the run to the left. *)
Lemma set_each_run j c rows h col :
  j < M -> bhl_get hashes (Z.of_nat j) = Ok h -> hit_col n p gids h col ->
  run_written (S j) c rows -> run_written j (S c) (set_each (Z.of_nat j) rows col).
Proof using.
  intros Hj Hh Hcol [Hl Hr]. pose proof (Forall2_length _ _ _ Hcol) as Hcl.
  unfold set_each. rewrite drop_ge, app_nil_r, Nat2Z.id by lia.
  split; [rewrite length_zip_with; lia|]. intros gi g row Hg Hrow.
  rewrite lookup_zip_with in Hrow. destruct (rows !! gi) as [l|] eqn:El; [|done].
  destruct (col !! gi) as [b|] eqn:Eb; [|done]. simpl in Hrow. injection Hrow as <-.
  destruct (Hr gi g l Hg El) as (HM & Hent & Hrun).
  destruct (Forall2_lookup_l _ _ _ _ _ Hcol Hg) as (b' & Hb' & Hold).
  rewrite Eb in Hb'. injection Hb' as <-.
  assert (Hbj : block_of g j b) by (by exists h). split_and!.
  - by rewrite length_insert.
  - intros i r Hi. destruct (decide (i = j)) as [->|Hij].
    + rewrite list_lookup_insert_eq in Hi by lia. injection Hi as <-. by right.
    + rewrite list_lookup_insert_ne in Hi by done. eauto.
  - intros i Hi. destruct (decide (i = j)) as [->|Hij].
    + exists b. by rewrite list_lookup_insert_eq by lia.
    + rewrite list_lookup_insert_ne by done. apply Hrun. lia.
Qed.

Lemma zrange_down_0 (j : nat) : zrange_down 0 (Z.of_nat j) = Z.of_nat <$> reverse (seq 0 j).
Proof using.
  unfold zrange_down, zrange. rewrite fmap_reverse. f_equal.
  replace (Z.to_nat (Z.of_nat j - 0)) with j by lia. apply list_fmap_ext. intros. lia.
Qed.

(** What the search leaves: the run [[i0, i0 + c)], and no candidate further right. *)
Definition search_post (i0 c : nat) (rows : list (list ref)) : Prop :=
  run_written i0 c rows /\ i0 + c <= M /\ (0 < c -> edge_ok (i0 + c - 1)) /\
  forall e, i0 + c <= e -> ~ candidate e.

Lemma skip_edge j c (b : bool) :
  b = (Z.of_nat c =? 0)%Z && negb (bs =? al)%Z &&
      negb (((if drop then Z.of_nat j else Z.of_nat j + 1) * bs) mod al =? 0)%Z ->
  if b then c = 0 /\ ~ edge_ok j else c = 0 -> edge_ok j.
Proof using.
  unfold edge_ok. destruct (Z.eqb_spec (Z.of_nat c) 0); simpl; [|intros ->; lia].
  destruct (Z.eqb_spec bs al) as [->|]; simpl; [intros -> _; apply Z_mod_mult|].
  destruct (Z.eqb_spec (((if drop then Z.of_nat j else Z.of_nat j + 1) * bs) mod al) 0);
    simpl; intros ->; [done|]. split; [lia|done].
Qed.

Lemma zrange_down_S (j : nat) :
  zrange_down 0 (Z.of_nat (S j)) = Z.of_nat j :: zrange_down 0 (Z.of_nat j).
Proof using. by rewrite !zrange_down_0, seq_S, reverse_app. Qed.

Lemma swa_search_spec j c rows :
  (0 < need)%Z -> (Z.of_nat c < need)%Z -> search_post j c rows ->
  exists i0 c' found rows',
    swa_search hashes gids bs al need drop (zrange_down 0 (Z.of_nat j)) rows (Z.of_nat c) p
      = (Ok (if found : bool then take (i0 + c') <$> rows' else rows', Z.of_nat c', found), p) /\
    search_post i0 c' rows' /\
    (if found then (need <= Z.of_nat c')%Z else i0 = 0).
Proof using Hok Hgids Hne Hget.
  intros Hneed. revert c rows. induction j as [|j IH]; intros c rows Hc (Hrun & HM & Hedge & Hno).
  { exists 0, c, false, rows. done. }
  rewrite zrange_down_S. cbn [swa_search]. destruct (Hget j) as [h Hh]; [lia|].
  destruct (probe_spec n p gids Hok Hgids Hne h) as (o & Ho & Hspec).
  unfold mbind, M_bind. rewrite Hh. simpl. rewrite Ho. destruct o as [col|].
  - destruct (_ && _) eqn:Eskip; symmetry in Eskip; apply skip_edge in Eskip.
    + destruct Eskip as [-> Hne']. apply (IH 0 rows Hc). split_and!; [|lia|lia|].
      * by eapply run_written_drop.
      * intros e He. destruct (decide (e = j)) as [->|]; [by intros [? _]|]. apply Hno. lia.
    + assert (Hpost : search_post j (S c) (set_each (Z.of_nat j) rows col)).
      { split_and!; [eapply set_each_run; [lia|done..]|lia| |intros e He; apply Hno; lia]. intros _.
        destruct c as [|c]; [by replace (j + 1 - 1) with j by lia; apply Eskip|].
        replace (j + S (S c) - 1) with (S j + S c - 1) by lia. apply Hedge. lia. }
      destruct (Z.leb_spec need (Z.of_nat c + 1)) as [Hle|Hlt].
      * exists j, (S c), true, (set_each (Z.of_nat j) rows col). split_and!; [|apply Hpost..|lia].
        unfold mret, M_ret. do 4 f_equal; [|lia]. f_equal. f_equal. lia.
      * destruct (IH (S c) (set_each (Z.of_nat j) rows col)) as (i0 & c' & found & rows' & Hr & Hrest);
          [lia|done|]. exists i0, c', found, rows'. split; [|done]. rewrite <- Hr. f_equal. lia.
  - apply (IH 0 rows Hneed). split_and!; [|lia|lia|].
    + by eapply run_written_drop.
    + intros e He (He1 & He2 & Hall). destruct (decide (S j + c <= e)); [by eapply Hno|].
      destruct (Hall j) as (h' & Hh' & Hca); [lia|lia|]. apply Hspec. by replace h with h' by congruence.
Qed.
End search.

(** ** The lookup *)

Lemma take_rows a b (rows : list (list ref)) :
  take a <$> (take b <$> rows) = take (Nat.min a b) <$> rows.
Proof. rewrite <- list_fmap_compose. apply list_fmap_ext. intros i l _. apply take_take. Qed.

(** The number of blocks the lookup keeps of a run that ends at [i0 + c]. *)
Definition swa_kept (bs al : Z) (drop found : bool) (i0 c : nat) : nat :=
  let m0 := if found then i0 + c else realign bs al c in
  if drop then realign bs al (m0 - 1) else m0.

Section lookup.
Context (n : nat) (p : BlockPool) (gids : list Z).
Context (Hok : cache_ok n p) (Hgids : forall g, g ∈ gids -> (0 <= g < 2 ^ 32)%Z) (Hne : gids <> []).
Context (bs al w : Z) (drop : bool).
Local Abbreviation need := (contiguous_blocks_for_hit w bs drop).

(** The rest of the lookup cuts the rows of the search to [swa_kept] blocks. *)
Lemma realign_each_rows m M (rows : list (list ref)) l :
  rows !! 0 = Some l -> length l = M -> m <= M ->
  realign_each bs al (take m <$> rows) = Ok (take (realign bs al m) <$> rows).
Proof using.
  intros H0 Hl Hm. unfold realign_each. rewrite (first_len_fmap _ _ _ H0). unfold zlen.
  rewrite length_take, Nat2Z.id, take_rows. do 3 f_equal. pose proof (realign_le bs al m).
  rewrite (Nat.min_l m) by lia. lia.
Qed.

Lemma swa_find_run l hashes max_length :
  (0 < bs)%Z -> (1 < w)%Z -> (0 <= max_length)%Z -> (al mod bs = 0)%Z ->
  resolve_block_hashes l (hash_block_size p) bs false (Some al) = Ok hashes ->
  (forall i, (0 <= i < max_length / bs)%Z -> exists h, bhl_get hashes i = Ok h) ->
  exists i0 c found rows,
    swa_find_longest_cache_hit l max_length gids bs w drop al 1 1 p =
      (Ok (take (swa_kept bs al drop found i0 c) <$> rows,
           Z.of_nat (swa_kept bs al drop found i0 c) * bs), p)%Z /\
    search_post n p gids hashes bs al need drop (Z.to_nat (max_length / bs)) i0 c rows /\
    (if found then (need <= Z.of_nat c)%Z else i0 = 0).
Proof using Hok Hgids Hne.
  intros Hbs Hw Hmax Hal Hres Hget. set (M := Z.to_nat (max_length / bs)).
  pose proof (Z.div_pos max_length bs Hmax Hbs) as HM0.
  assert (Hneed : (0 < need)%Z).
  { unfold contiguous_blocks_for_hit. pose proof (cdiv_spec (w - 1) bs Hbs). destruct drop; nia. }
  destruct (swa_search_spec n p gids Hok Hgids Hne hashes bs al need drop M) with (j := M) (c := 0)
    (rows := replicate (length gids) (replicate M (null_block p)))
    as (i0 & c & found & rows & Hrun & Hpost & Hfound); [|done|done| |].
  { intros i Hi. apply Hget. lia. }
  { split_and!; [|lia|lia|intros e He [_ [? _]]; lia]. split; [by rewrite length_replicate|].
    intros gi g row _ Hrow. apply lookup_replicate in Hrow as [-> _]. rewrite length_replicate.
    split_and!; [done| |lia]. intros i r [-> _]%lookup_replicate. by left. }
  exists i0, c, found, rows. split; [|done].
  destruct Hpost as ((Hl & Hrows) & HMc & _).
  assert (exists l0, rows !! 0 = Some l0 /\ length l0 = M) as (l0 & Hl0 & Hl0M).
  { destruct gids as [|g0 gs]; [done|]. destruct rows as [|l0 rest]; [done|]. exists l0.
    split; [done|]. by destruct (Hrows 0 g0 l0) as [? _]. }
  replace (Z.of_nat M) with (max_length / bs)%Z in Hrun by lia.
  unfold swa_find_longest_cache_hit, mbind, M_bind. rewrite Hal. simpl. rewrite Hres. simpl.
  fold M. change (Z.of_nat 0) with 0%Z in Hrun. rewrite Hrun.
  assert (Hcut : exists m0, m0 <= M /\ m0 = (if found then i0 + c else realign bs al c) /\
    (if found then mret (if found then take (i0 + c) <$> rows else rows)
     else lift_outcome (realign_each bs al (take (Z.to_nat (Z.of_nat c)) <$>
            (if found then take (i0 + c) <$> rows else rows)))) p = (Ok (take m0 <$> rows), p)).
  { destruct found; eexists; (split_and!; [|done|]); [lia|done| |].
    - pose proof (realign_le bs al c). lia.
    - rewrite Nat2Z.id, (realign_each_rows _ M _ l0) by (done || lia). done. }
  destruct Hcut as (m0 & Hm0 & Hm0e & Hcut). rewrite Hcut. cbn.
  rewrite (first_len_fmap _ _ _ Hl0). unfold zlen. rewrite length_take, Hl0M, Nat.min_l by done. cbn.
  unfold swa_kept. rewrite <- Hm0e. destruct drop; cbn.
  - destruct (Z.eqb_spec (Z.of_nat m0) 0) as [Hz|Hz]; cbn.
    + assert (m0 = 0) as -> by lia. rewrite (first_len_fmap _ _ _ Hl0). done.
    + rewrite take_rows. replace (Nat.min (Z.to_nat (Z.of_nat m0 - 1)) m0) with (m0 - 1) by lia.
      rewrite (realign_each_rows _ M _ l0) by (done || lia). cbn.
      rewrite (first_len_fmap _ _ _ Hl0). unfold zlen. rewrite length_take, Hl0M. cbn.
      pose proof (realign_le bs al (m0 - 1)). rewrite Nat.min_l by lia. done.
  - rewrite (first_len_fmap _ _ _ Hl0). unfold zlen. rewrite length_take, Hl0M, Nat.min_l by done. done.
Qed.
End lookup.

(** The run a lookup keeps covers the attention window, block by block. *)
Lemma swa_kept_spec n p gids hashes bs al need0 (drop found : bool) M i0 c rows :
  (0 < bs)%Z ->
  let need := (if drop then need0 + 1 else need0)%Z in
  search_post n p gids hashes bs al need drop M i0 c rows ->
  (if found : bool then (need <= Z.of_nat c)%Z /\ 0 < c else i0 = 0) ->
  let m := swa_kept bs al drop found i0 c in
  m <= i0 + c /\ (Z.of_nat m * bs mod al = 0)%Z /\
  (forall i, (Z.of_nat m - need0 <= Z.of_nat i)%Z -> i < m -> i0 <= i) /\
  (drop = false -> m = i0 + c).
Proof.
  intros Hbs need (_ & HM & Hedge & _) Hfound m. unfold m, swa_kept, edge_ok, need in *.
  destruct found.
  - destruct Hfound as [Hnc Hc]. specialize (Hedge Hc). destruct drop.
    + rewrite realign_id by done. split_and!; [lia|done|lia|done].
    + replace (Z.of_nat (i0 + c - 1) + 1)%Z with (Z.of_nat (i0 + c)) in Hedge by lia.
      split_and!; [lia|done|lia|done].
  - subst i0. pose proof (realign_le bs al c). destruct drop.
    + pose proof (realign_le bs al (realign bs al c - 1)). split_and!; [lia|apply realign_aligned|lia|done].
    + split_and!; [lia|apply realign_aligned|lia|]. intros _. simpl. apply realign_id.
      destruct (decide (c = 0)) as [->|Hc]; [done|].
      replace (Z.of_nat c) with (Z.of_nat (0 + c - 1) + 1)%Z by lia. apply Hedge. lia.
Qed.

(** The block of a token inside the window is among the blocks a hit needs. *)
Lemma window_block bs w t m :
  (0 < bs)%Z -> (0 <= t)%Z -> (m * bs - (w - 1) <= t < m * bs)%Z ->
  (0 <= t / bs < m)%Z /\ (m - cdiv (w - 1) bs <= t / bs)%Z.
Proof.
  intros Hbs Ht0 Ht. pose proof (Z.div_mod t bs ltac:(lia)). pose proof (Z.mod_pos_bound t bs Hbs).
  pose proof (Z.div_pos t bs Ht0 Hbs). pose proof (cdiv_spec (w - 1) bs Hbs). nia.
Qed.

Lemma div_chain max_length hbs k len :
  (0 < hbs)%Z -> (0 < k)%Z -> (max_length < (len + 1) * hbs)%Z -> (max_length / (k * hbs) <= len / k)%Z.
Proof.
  intros Hh Hk Hm. rewrite Z.mul_comm, <- Z.div_div by lia. apply Z.div_le_mono; [done|].
  pose proof (Z.div_lt_upper_bound max_length hbs (len + 1) Hh). nia.
Qed.

(** The view gives the prefix hashes of the first [M] blocks. *)
Definition view_upto (hbs bs : Z) (hs : list bytes) (v : BlockHashList) (M : nat) : Prop :=
  forall i, i < M -> exists h,
    bhl_get v (Z.of_nat i) = Ok h /\ prefix_hash hbs hs ((Z.of_nat i + 1) * bs) = Some h.

Lemma view_block_of n p hbs bs hs v M g :
  view_upto hbs bs hs v M -> forall i r, i < M -> block_of n p v g i r -> exists h,
    prefix_hash hbs hs ((Z.of_nat i + 1) * bs) = Some h /\ holds n p h g r.
Proof.
  intros Hview i r Hi (h & Hh & Hold). destruct (Hview i Hi) as (h2 & Hh2 & Hp2).
  assert (h2 = h) as -> by congruence. by exists h.
Qed.

(** The lookup as a whole. *)
Lemma swa_hit_spec n p fl gids hs max_length k w al (drop : bool) :
  pool_ok n p fl -> (forall g, g ∈ gids -> (0 <= g < 2 ^ 32)%Z) -> gids <> [] ->
  (0 < hash_block_size p)%Z -> (0 < k)%Z -> (1 < w)%Z -> (0 < al)%Z ->
  (al mod (k * hash_block_size p) = 0)%Z ->
  (0 <= max_length < (zlen hs + 1) * hash_block_size p)%Z ->
  let bs := (k * hash_block_size p)%Z in
  exists rows m,
    swa_find_longest_cache_hit (RawHashes hs) max_length gids bs w drop al 1 1 p
      = (Ok (rows, Z.of_nat m * bs)%Z, p) /\ length rows = length gids /\
    (Z.of_nat m * bs <= max_length)%Z /\ (Z.of_nat m * bs mod al = 0)%Z /\
    (forall gi g row, gids !! gi = Some g -> rows !! gi = Some row ->
       length row = m /\
       (forall i r, row !! i = Some r -> r = null_block p \/ exists h,
          prefix_hash (hash_block_size p) hs ((Z.of_nat i + 1) * bs) = Some h /\ holds n p h g r) /\
       (forall t, (Z.of_nat m * bs - (w - 1) <= t < Z.of_nat m * bs)%Z -> (0 <= t)%Z -> exists h r,
          prefix_hash (hash_block_size p) hs ((t / bs + 1) * bs) = Some h /\
          row !! Z.to_nat (t / bs) = Some r /\ holds n p h g r)) /\
    (drop = false -> forall m', (Z.of_nat m' * bs <= max_length)%Z -> (Z.of_nat m' * bs mod al = 0)%Z ->
       (forall i, (Z.of_nat m' - cdiv (w - 1) bs <= Z.of_nat i)%Z -> i < m' ->
          prefix_cached n p gids hs ((Z.of_nat i + 1) * bs)) -> m' <= m).
Proof.
  intros [Hok _] Hg Hne Hh Hk Hw Ha Hal Hmax bs. assert (Hbs : (0 < bs)%Z) by (unfold bs; nia).
  destruct (resolve_coarse (hash_block_size p) k hs false al Hh Hk eq_refl) as (v & Hv & Hlen & Hview).
  fold bs in Hv, Hlen, Hview. pose proof (div_chain max_length _ k (zlen hs) Hh Hk (proj2 Hmax)) as Hdiv. fold bs in Hdiv.
  unfold bs in Hlen at 1. rewrite Z.div_mul in Hlen by lia.
  set (M := Z.to_nat (max_length / bs)) in *.
  assert (Hview' : view_upto (hash_block_size p) bs hs v M) by (intros i Hi; apply Hview; lia).
  destruct (swa_find_run n p gids Hok Hg Hne bs al w drop (RawHashes hs) v max_length Hbs Hw (proj1 Hmax) Hal Hv)
    as (i0 & c & found & rows & Hrun & Hpost & Hfound).
  { intros i Hi. destruct (Hview i) as (h & Hh' & _); [lia|]. eauto. }
  fold M in Hpost.
  pose proof (cdiv_spec (w - 1) bs Hbs) as Hcd.
  destruct (swa_kept_spec n p gids v bs al (cdiv (w - 1) bs) drop found M i0 c rows Hbs) as (Hle & Hmod & Hwin & Hno);
    [exact Hpost| |].
  { destruct found; [|done]. split; [done|]. unfold contiguous_blocks_for_hit in Hfound. destruct drop; nia. }
  set (m := swa_kept bs al drop found i0 c) in *. destruct Hpost as ((Hl & Hrows) & HM & Hedge & Hbest).
  assert (HMz : Z.of_nat M = (max_length / bs)%Z) by (apply Z2Nat.id, Z.div_pos; lia).
  pose proof (Z.mul_div_le max_length bs Hbs) as Hmb. rewrite <- HMz in *.
  clearbody bs M m. clear Hdiv Hmax Hh Hk Hal Ha Hlen.
  exists (take m <$> rows), m. split_and!; [exact Hrun|by rewrite length_fmap|nia|exact Hmod| |].
  - intros gi g row Hgi Hrow. apply list_lookup_fmap_Some in Hrow as (l & -> & Hrow).
    destruct (Hrows gi g l Hgi Hrow) as (HlM & Hent & Hwr).
    assert (Hof := view_block_of n p (hash_block_size p) bs hs v M g Hview').
    split_and!.
    + rewrite length_take. lia.
    + intros i r [Hr Him]%lookup_take_Some. destruct (Hent i r Hr) as [->|Hb]; [by left|]. right.
      apply Hof; [lia|done].
    + intros t Ht Ht0. destruct (window_block bs w t (Z.of_nat m) Hbs Ht0 Ht) as [Htm Htw].
      assert (i0 <= Z.to_nat (t / bs)) by (apply Hwin; lia).
      destruct (Hwr (Z.to_nat (t / bs))) as (r & Hr & Hbo); [lia|].
      destruct (Hof (Z.to_nat (t / bs)) r ltac:(lia) Hbo) as (h & Hp & Hold). rewrite Z2Nat.id in Hp by lia.
      exists h, r. split_and!; [done| |done]. rewrite lookup_take_lt by lia. done.
  - intros -> m' Hm' Ham' Hall. rewrite (Hno eq_refl). destruct (decide (m' <= i0 + c)); [done|]. exfalso.
    assert (Hm'M : m' <= M).
    { pose proof (Z.div_le_lower_bound max_length bs (Z.of_nat m') Hbs ltac:(lia)). lia. }
    apply (Hbest (m' - 1)); [lia|]. split_and!; [|lia|].
    + unfold edge_ok. by replace (Z.of_nat (m' - 1) + 1)%Z with (Z.of_nat m') by lia.
    + intros i Hi1 Hi2. unfold contiguous_blocks_for_hit in Hi1. destruct (Hall i) as (h & Hp & Hc); [lia|lia|].
      destruct (Hview' i) as (h2 & Hh2 & Hp2); [lia|]. exists h2. split; [done|].
      by replace h2 with h by congruence.
Qed.

(** C23. The sliding-window [find_longest_cache_hit].  For a window of more than one
    token the lookup returns, changes nothing, and its hit is aligned and within
    [max_length].  Each group's row has one entry per block of the hit: every entry
    is the null block or a block that holds the hash of that block's prefix, and for
    every token inside the attention window of the first uncached token the entry is
    a held block.  Without EAGLE the hit is the longest: any aligned number of
    blocks whose window is cached is at most it. *)
Theorem sliding_window_hit_correct n p fl gids hs max_length k w al (drop : bool) :
  pool_ok n p fl -> (forall g, g ∈ gids -> (0 <= g < 2 ^ 32)%Z) -> gids <> [] ->
  (0 < hash_block_size p)%Z -> (0 < k)%Z -> (1 < w)%Z -> (0 < al)%Z ->
  (al mod (k * hash_block_size p) = 0)%Z ->
  (0 <= max_length < (zlen hs + 1) * hash_block_size p)%Z ->
  let bs := (k * hash_block_size p)%Z in
  exists rows m,
    swa_find_longest_cache_hit (RawHashes hs) max_length gids bs w drop al 1 1 p
      = (Ok (rows, Z.of_nat m * bs)%Z, p) /\
    (Z.of_nat m * bs <= max_length)%Z /\ (Z.of_nat m * bs mod al = 0)%Z /\
    (forall gi g row, gids !! gi = Some g -> rows !! gi = Some row ->
       length row = m /\
       (forall i r, row !! i = Some r -> r = null_block p \/ exists h,
          prefix_hash (hash_block_size p) hs ((Z.of_nat i + 1) * bs) = Some h /\ holds n p h g r) /\
       (forall t, (Z.of_nat m * bs - (w - 1) <= t < Z.of_nat m * bs)%Z -> (0 <= t)%Z -> exists h r,
          prefix_hash (hash_block_size p) hs ((t / bs + 1) * bs) = Some h /\
          row !! Z.to_nat (t / bs) = Some r /\ holds n p h g r)) /\
    (drop = false -> forall m', (Z.of_nat m' * bs <= max_length)%Z -> (Z.of_nat m' * bs mod al = 0)%Z ->
       (forall i, (Z.of_nat m' - cdiv (w - 1) bs <= Z.of_nat i)%Z -> i < m' ->
          prefix_cached n p gids hs ((Z.of_nat i + 1) * bs)) -> m' <= m).
Proof.
  intros Hok Hg Hne Hh Hk Hw Ha Hal Hmax bs.
  destruct (swa_hit_spec n p fl gids hs max_length k w al drop) as (rows & m & Hrun & _ & H); try done.
  exists rows, m. split; [exact Hrun|exact H].
Qed.

Lemma sliding_window_hit_correct_witness :
  (swa_find_longest_cache_hit (RawHashes [[Byte.x01]; [Byte.x02]]) 3 [0%Z] 2 3 false 2 1 1 demo_pool3).1
    = Ok ([[Blk 1]], 2%Z) /\
  exists rows m,
    swa_find_longest_cache_hit (RawHashes [[Byte.x01]; [Byte.x02]]) 3 [0%Z] 2 3 false 2 1 1 demo_pool3
      = (Ok (rows, (Z.of_nat m * 2)%Z), demo_pool3) /\ (Z.of_nat m * 2 <= 3)%Z.
Proof.
  split; [vm_compute; reflexivity|].
  destruct (sliding_window_hit_correct 5 demo_pool3 [3; 4] [0%Z] [[Byte.x01]; [Byte.x02]] 3 1 3 2 false
    demo_pool3_ok) as (rows & m & Hrun & Hle & _).
  1: intros g ->%list_elem_of_singleton; lia.
  1-7: vm_compute; done.
  exists rows, m. split; [exact Hrun|exact Hle].
Defined.

(** ** The retention mask *)

(** A block boundary that a later lookup may hit: a segment end, or a boundary the
    caller names (only under an explicit retention interval). *)
Definition retained_boundary (bs al : Z) (retention : option Z) (reachable : list Z) (B : Z) : Prop :=
  match retention with
  | None => exists q, (1 <= q)%Z /\ B = (q * (al / bs))%Z
  | Some r => (r <> 0%Z /\ exists q, (1 <= q)%Z /\ B = (q * (r / bs))%Z) \/
              exists t, t ∈ reachable /\ B = (t / al * al / bs)%Z
  end.

Lemma segment_tail per need shift i :
  (0 < need < per)%Z ->
  ((shift <=? i) && (per - need <=? (i - shift) mod per) = true <->
   exists q, 1 <= q /\ q * per + shift - need <= i < q * per + shift)%Z.
Proof.
  intros Hn. rewrite andb_true_iff, !Z.leb_le. split.
  - intros [Hi Hm]. exists ((i - shift) / per + 1)%Z.
    pose proof (Z.div_mod (i - shift) per ltac:(lia)). pose proof (Z.mod_pos_bound (i - shift) per ltac:(lia)).
    pose proof (Z.div_pos (i - shift) per ltac:(lia) ltac:(lia)). nia.
  - intros (q & Hq & Hi). split; [nia|].
    rewrite <- (Z.mod_unique (i - shift) per (q - 1) (i - shift - (q - 1) * per)); nia.
Qed.

(** The retention mask is exact.  [reachable_block_mask] either keeps every block
    of the range or gives one flag per block, and then block [i] is flagged exactly
    when it is one of the [need] blocks that a lookup reads for a hit ending at some
    retained boundary (one further right under EAGLE): every such tail is kept
    whole, and nothing else is. *)
Theorem retention_mask_exact start_block end_block al bs w use_eagle retention reachable mask :
  (0 < bs)%Z -> (1 < w)%Z -> (al mod bs = 0)%Z -> (start_block <= end_block)%Z ->
  swa_reachable_block_mask start_block end_block (Some al) bs w use_eagle retention reachable = Ok (Some mask) ->
  zlen mask = (end_block - start_block)%Z /\
  forall i, (start_block <= i < end_block)%Z ->
    (mask !! Z.to_nat (i - start_block) = Some true <->
     exists B, retained_boundary bs al retention reachable B /\
       (B + (if use_eagle then 1 else 0) - contiguous_blocks_for_hit w bs use_eagle <= i
        < B + (if use_eagle then 1 else 0))%Z).
Proof.
  intros Hbs Hw Hal Hse. unfold swa_reachable_block_mask. rewrite Hal. change (negb (0 =? 0)%Z) with false.
  cbv iota.
  set (need := contiguous_blocks_for_hit w bs use_eagle). set (shift := if use_eagle then 1%Z else 0%Z).
  assert (Hneed : (0 < need)%Z).
  { unfold need, contiguous_blocks_for_hit. pose proof (cdiv_spec (w - 1) bs Hbs). destruct use_eagle; nia. }
  set (inb := fun i => match retention with None => false | Some _ => _ end).
  assert (Hinb : forall i, (start_block <= i < end_block)%Z -> inb i = true <-> retention <> None /\
    exists t, t ∈ reachable /\ (t / al * al / bs + shift - need <= i < t / al * al / bs + shift)%Z).
  { intros i Hi. unfold inb. destruct retention as [r|]; [|naive_solver]. rewrite existsb_exists.
    setoid_rewrite <- list_elem_of_In. setoid_rewrite andb_true_iff. setoid_rewrite Z.leb_le.
    setoid_rewrite Z.ltb_lt. split; [intros (t & Ht & Hr); split; [done|]|intros [_ (t & Ht & Hr)]];
      exists t; (split; [done|]); lia. }
  intros Hres.
  assert (exists f, mask = f <$> zrange start_block end_block /\ forall i, (start_block <= i < end_block)%Z ->
    f i = true <-> exists B, retained_boundary bs al retention reachable B /\ (B + shift - need <= i < B + shift)%Z)
    as (f & -> & Hf).
  { destruct (match retention with None => Some al | Some r => if (r =? 0)%Z then None else Some r end)
      as [seg|] eqn:Eseg.
    - destruct (Z.leb_spec (seg / bs) need) as [|Hper]; [done|]. injection Hres as <-. eexists. split; [done|].
      intros i Hi. change ((fun b => b = true) ((shift <=? i) && (seg / bs - need <=? (i - shift) mod (seg / bs)) || inb i)%Z <->
        exists B, retained_boundary bs al retention reachable B /\ (B + shift - need <= i < B + shift)%Z).
      cbv beta. rewrite orb_true_iff, segment_tail, Hinb by lia. unfold retained_boundary.
      destruct retention as [r|]; [destruct (Z.eqb_spec r 0); [done|]|]; injection Eseg as <-; naive_solver.
    - destruct retention as [r|]; [|done]. destruct (Z.eqb_spec r 0) as [->|]; [|done]. injection Hres as <-.
      eexists. split; [done|]. intros i Hi. cbv beta. fold (inb i). rewrite Hinb by done. unfold retained_boundary. split.
      + intros (_ & t & Ht & Hr). eexists. split; [right; by exists t|done].
      + intros (B & [[? _]|(t & Ht & ->)] & Hr); [done|]. split; [done|]. by exists t. }
  unfold zlen. rewrite length_fmap, length_zrange. split; [lia|]. intros i Hi. rewrite <- Hf by done.
  unfold zrange. rewrite !list_lookup_fmap, lookup_seq_lt by lia. simpl.
  replace (start_block + Z.of_nat (Z.to_nat (i - start_block)))%Z with i by lia. split; [by intros [= ->]|by intros ->].
Qed.

Lemma retention_mask_exact_witness :
  let mask := [false; false; true; true; false; false; true; true] in
  swa_reachable_block_mask 0 8 (Some 8%Z) 2 4 false None [] = Ok (Some mask) /\ zlen mask = 8%Z.
Proof.
  split; [reflexivity|].
  apply (retention_mask_exact 0 8 8 2 4 false None []); first [lia | reflexivity].
Defined.

(** A window whose cached run starts at the first block loses a whole alignment unit
    under EAGLE when the block size is finer than the alignment: two of the three cached
    blocks are an aligned hit with the EAGLE block still cached behind them, and a run
    that fills the window keeps them, yet the lookup returns nothing. *)
Definition eagle_request : Request :=
  text_request "e" [1; 2; 3; 4; 5; 6]%Z <| block_hashes := [[Byte.x01]; [Byte.x02]; [Byte.x03]] |>.
Definition eagle_pool : BlockPool :=
  (cache_full_blocks id eagle_request [Blk 1; Blk 2; Blk 3] 0 3 2 0 None
     (get_new_blocks 3 (BlockPool_init 5 true 2 false false).2).2).2.

Example eagle_short_run_loses_alignment_unit :
  (swa_find_longest_cache_hit (RawHashes (block_hashes eagle_request)) 6 [0%Z] 2 16 true 4 1 1 eagle_pool).1
    = Ok ([[]], 0%Z) /\
  (swa_find_longest_cache_hit (RawHashes (block_hashes eagle_request)) 6 [0%Z] 2 4 true 4 1 1 eagle_pool).1
    = Ok ([[Blk 1; Blk 2]], 4%Z).
Proof. split; vm_compute; reflexivity. Qed.
