(* ===== verification/SingleType.v ===== *)
(** [SingleTypeKVCacheManager] and its subclasses
    (vllm/v1/core/single_type_kv_cache_manager.py): which blocks of the shared pool each
    request of one KV-cache group holds.  The base class is modelled once; a subclass
    override is a case on [st_kind].  [MambaManager] and the sink manager are not
    modelled here. *)
From S2P Require Import Prelude KVBlock FreeQueue Request BlockHash BlockPool CacheHit.

(** ** State *)

Record STManager := {
  st_kind : manager_kind;
  spec_block_size : Z;
  prefix_cacheable : bool;
  cache_hit_alignment_tokens : Z;
  st_block_size : Z;
  st_dcp_world_size : Z;
  st_pcp_world_size : Z;
  st_enable_caching : bool;
  max_admission_blocks_per_request : option Z;
  record_new_block_ids : bool;
  new_block_ids : list Z;
  req_to_blocks : gmap string (list ref);
  num_cached_block : gmap string Z;
  kv_cache_group_id : Z;
  st_null_block : ref;
  use_eagle : bool;
  partial_hit_reqs : gmap string (Z * ref);
  pending_cow_copies : list (ref * ref);
}.

#[export] Instance STManager_eta : Eta STManager := fun m =>
  Build_STManager (st_kind m) (spec_block_size m) (prefix_cacheable m) (cache_hit_alignment_tokens m)
    (st_block_size m) (st_dcp_world_size m) (st_pcp_world_size m) (st_enable_caching m) (max_admission_blocks_per_request m)
    (record_new_block_ids m) (new_block_ids m) (req_to_blocks m) (num_cached_block m)
    (kv_cache_group_id m) (st_null_block m) (use_eagle m) (partial_hit_reqs m) (pending_cow_copies m).

(** The manager beside the pool object it shares with the other groups. *)
Record STState := { mgr : STManager; pool : BlockPool }.

#[export] Instance STState_eta : Eta STState := fun s => Build_STState (mgr s) (pool s).

Definition on_pool {A} (m : M BlockPool A) : M STState A :=
  zoom pool (fun p s => s <| pool := p |>) m.
Definition modify_mgr (f : STManager -> STManager) : M STState unit :=
  modify (fun s => s <| mgr := f (mgr s) |>).
Definition get_mgr {A} (f : STManager -> A) : M STState A := gets (fun s => f (mgr s)).

(** [__init__]: the fields a fresh manager starts with; [zeroed_spec] says whether the
    spec is an attention spec other than a ring buffer. *)
Definition STManager_init (k : manager_kind) (spec_bs : Z) (cacheable : bool) (p : BlockPool)
    (caching : bool) (gid scheduler_block_size dcp_world_size pcp_world_size : Z) (needs_zeroing zeroed_spec : bool)
    (cap : option Z) : STManager :=
  {| st_kind := k; spec_block_size := spec_bs; prefix_cacheable := cacheable;
     cache_hit_alignment_tokens := scheduler_block_size;
     st_block_size := if (1 <? dcp_world_size)%Z then (spec_bs * dcp_world_size)%Z else spec_bs;
     st_dcp_world_size := dcp_world_size; st_pcp_world_size := pcp_world_size;
     st_enable_caching := caching; max_admission_blocks_per_request := cap;
     record_new_block_ids := needs_zeroing && zeroed_spec;
     new_block_ids := []; req_to_blocks := ∅; num_cached_block := ∅; kv_cache_group_id := gid;
     st_null_block := null_block p; use_eagle := false; partial_hit_reqs := ∅;
     pending_cow_copies := [] |}.

(** ** Helpers of the base class *)

(** [self.req_to_blocks[request_id]] of a [defaultdict(list)]: reading a missing key
    stores an empty list. *)
Definition req_blocks (rid : string) : M STState (list ref) :=
  o ← get_mgr (fun m => req_to_blocks m !! rid);
  match o with
  | Some l => mret l
  | None => modify_mgr (fun m => m <| req_to_blocks := <[rid := []]> (req_to_blocks m) |>) ;; mret []
  end.

(** A change of the list object stored under [rid]. *)
Definition set_req_blocks (rid : string) (l : list ref) : M STState unit :=
  modify_mgr (fun m => m <| req_to_blocks := <[rid := l]> (req_to_blocks m) |>).

(** [_get_num_evictable_blocks(blocks)] *)
Definition get_num_evictable_blocks (p : BlockPool) (blocks : list ref) : Z :=
  zlen (filter (fun r => ref_cnt (blk p r) = 0%Z /\ is_null (blk p r) = false) blocks).

(** [_has_partial_local_hit(new_computed_blocks, num_local_computed_tokens)] *)
Definition has_partial_local_hit (m : STManager) (new_computed_blocks : list ref)
    (num_local_computed_tokens : Z) : bool :=
  (0 <? zlen new_computed_blocks)%Z && negb (num_local_computed_tokens mod st_block_size m =? 0)%Z.

(** [get_num_skipped_tokens(num_computed_tokens)] *)
Definition get_num_skipped_tokens (m : STManager) (num_computed_tokens : Z) : Z :=
  match st_kind m with
  | SlidingWindow w extra | DFlashRing w extra => Z.max 0 (num_computed_tokens - w + 1 - extra)
  | ChunkedLocal chunk => (num_computed_tokens / chunk * chunk)%Z
  | FullAttention | RSWA _ | CircularBuffer | CrossAttention => 0
  end.

(** ** Capacity *)

(** The base [get_num_blocks_to_allocate] *)
Definition base_num_blocks_to_allocate (m : STManager) (p : BlockPool) (rid : string) (num_tokens : Z)
    (new_computed_blocks : list ref) (total_computed_tokens num_local_computed_tokens : Z)
    (apply_admission_cap : bool) : outcome Z :=
  let num_required_blocks := cdiv num_tokens (st_block_size m) in
  let num_required_blocks :=
    match max_admission_blocks_per_request m with
    | Some cap => if apply_admission_cap then Z.min num_required_blocks cap else num_required_blocks
    | None => num_required_blocks
    end in
  let num_req_blocks := zlen (default [] (req_to_blocks m !! rid)) in
  if bool_decide (is_Some (num_cached_block m !! rid)) then
    if negb (zlen new_computed_blocks =? 0)%Z then Raise AssertionError
    else Ok (Z.max (num_required_blocks - num_req_blocks) 0)
  else
    let num_skipped_tokens := get_num_skipped_tokens m total_computed_tokens in
    let num_local_computed_blocks := (zlen new_computed_blocks + num_req_blocks)%Z in
    let num_skipped_blocks := (num_skipped_tokens / st_block_size m)%Z in
    let num_new_blocks :=
      Z.max (num_required_blocks - Z.max num_skipped_blocks num_local_computed_blocks) 0 in
    let num_skipped_new_computed_blocks := Z.max 0 (num_skipped_blocks - num_req_blocks) in
    let num_evictable_blocks :=
      get_num_evictable_blocks p (drop (Z.to_nat num_skipped_new_computed_blocks) new_computed_blocks) in
    let num_new_blocks :=
      if has_partial_local_hit m new_computed_blocks num_local_computed_tokens
      then (num_new_blocks + 1)%Z else num_new_blocks in
    Ok (num_new_blocks + num_evictable_blocks)%Z.

(** [get_num_blocks_to_allocate(...)] of every class *)
Definition get_num_blocks_to_allocate (m : STManager) (p : BlockPool) (rid : string) (num_tokens : Z)
    (new_computed_blocks : list ref) (total_computed_tokens num_local_computed_tokens : Z)
    (apply_admission_cap : bool) : outcome Z :=
  match st_kind m with
  | DFlashRing _ _ => Ok 0%Z
  | CircularBuffer =>
      Ok (if bool_decide (default [] (req_to_blocks m !! rid) = []) then 1%Z else 0%Z)
  | _ => base_num_blocks_to_allocate m p rid num_tokens new_computed_blocks total_computed_tokens
           num_local_computed_tokens apply_admission_cap
  end.

(** ** Allocation *)

(** Touch the computed blocks; without prefix caching there must be none. *)
Definition touch_computed (new_computed_blocks : list ref) : M STState unit :=
  caching ← get_mgr st_enable_caching;
  if caching : bool then on_pool (touch new_computed_blocks)
  else massert (bool_decide (new_computed_blocks = [])).

(** The base [add_local_computed_blocks] *)
Definition base_add_local_computed_blocks (rid : string) (new_computed_blocks : list ref)
    (num_local_computed_tokens num_external_computed_tokens : Z) : M STState unit :=
  blocks ← req_blocks rid;
  massert (zlen blocks =? 0)%Z ;;
  m ← get_mgr id;
  let num_total_computed_tokens := (num_local_computed_tokens + num_external_computed_tokens)%Z in
  let num_skipped_blocks :=
    (get_num_skipped_tokens m num_total_computed_tokens / st_block_size m)%Z in
  let new_computed_blocks :=
    if (0 <? num_skipped_blocks)%Z then drop (Z.to_nat num_skipped_blocks) new_computed_blocks
    else new_computed_blocks in
  touch_computed new_computed_blocks ;;
  let blocks := replicate (Z.to_nat num_skipped_blocks) (st_null_block m) ++ new_computed_blocks in
  set_req_blocks rid blocks ;;
  modify_mgr (fun m => m <| num_cached_block := <[rid := zlen blocks]> (num_cached_block m) |>) ;;
  if has_partial_local_hit m new_computed_blocks num_local_computed_tokens then
    let block_idx := (num_local_computed_tokens / st_block_size m)%Z in
    tail ← of_option IndexError (last new_computed_blocks);
    modify_mgr (fun m => m <| partial_hit_reqs := <[rid := (block_idx, tail)]> (partial_hit_reqs m) |>) ;;
    modify_mgr (fun m => m <| num_cached_block := <[rid := block_idx]> (num_cached_block m) |>)
  else mret tt.

(** [add_local_computed_blocks(...)] of every class *)
Definition add_local_computed_blocks (rid : string) (new_computed_blocks : list ref)
    (num_local_computed_tokens num_external_computed_tokens : Z) : M STState unit :=
  k ← get_mgr st_kind;
  match k with
  | DFlashRing _ _ =>
      massert (bool_decide (new_computed_blocks = [])) ;;
      massert (num_external_computed_tokens =? 0)%Z ;;
      _ ← req_blocks rid;
      modify_mgr (fun m => m <| num_cached_block := <[rid := 0%Z]> (num_cached_block m) |>)
  | CircularBuffer => mret tt
  | CrossAttention => massert (zlen new_computed_blocks =? 0)%Z
  | _ => base_add_local_computed_blocks rid new_computed_blocks num_local_computed_tokens
           num_external_computed_tokens
  end.

(** [self.new_block_ids.extend(b.block_id for b in blocks)] when they are recorded *)
Definition note_new_blocks (blocks : list ref) : M STState unit :=
  s ← gets id;
  mwhen (record_new_block_ids (mgr s))
    (modify_mgr (fun m => m <| new_block_ids :=
       new_block_ids m ++ ((fun r => block_id (blk (pool s) r)) <$> blocks) |>)).

(** Claim [num_new_blocks] blocks and append them to the request's list. *)
Definition extend_req_blocks (rid : string) (blocks : list ref) (num_new_blocks : Z)
    : M STState (list ref) :=
  new_blocks ← on_pool (get_new_blocks num_new_blocks);
  set_req_blocks rid (blocks ++ new_blocks) ;;
  note_new_blocks new_blocks ;;
  mret new_blocks.

(** [_claim_ring_block(request_id)] *)
Definition claim_ring_block (rid : string) : M STState (list ref) :=
  blocks ← req_blocks rid;
  if negb (bool_decide (blocks = [])) then mret []
  else extend_req_blocks rid blocks 1.

(** The base [allocate_external_computed_blocks] *)
Definition base_allocate_external_computed_blocks (rid : string)
    (num_local_computed_tokens num_external_computed_tokens : Z) : M STState unit :=
  m ← get_mgr id;
  let num_total_computed_tokens := (num_local_computed_tokens + num_external_computed_tokens)%Z in
  let num_skipped_tokens := get_num_skipped_tokens m num_total_computed_tokens in
  let num_external_computed_tokens :=
    if (0 <? num_skipped_tokens)%Z
    then Z.min (num_total_computed_tokens - num_skipped_tokens) num_external_computed_tokens
    else num_external_computed_tokens in
  if (num_external_computed_tokens <=? 0)%Z then mret tt
  else
    blocks ← req_blocks rid;
    let num_new_blocks :=
      Z.max 0 (cdiv num_total_computed_tokens (st_block_size m) - zlen blocks) in
    extend_req_blocks rid blocks num_new_blocks ;; mret tt.

(** [allocate_external_computed_blocks(...)] of every class *)
Definition allocate_external_computed_blocks (rid : string)
    (num_local_computed_tokens num_external_computed_tokens : Z) : M STState unit :=
  k ← get_mgr st_kind;
  match k with
  | DFlashRing _ _ => massert (num_external_computed_tokens =? 0)%Z
  | CircularBuffer => claim_ring_block rid ;; mret tt
  | CrossAttention => mret tt
  | _ => base_allocate_external_computed_blocks rid num_local_computed_tokens num_external_computed_tokens
  end.

(** [_apply_cow(request_id, block_idx, source_block, cow_block)] *)
Definition apply_cow (rid : string) (block_idx : Z) (source_block cow_block : ref) : M STState unit :=
  blocks ← req_blocks rid;
  massert (block_idx <? zlen blocks)%Z ;;
  b ← of_option IndexError (pyget blocks block_idx);
  massert (bool_decide (b = source_block)) ;;
  s ← gets id;
  massert (negb (is_null (blk (pool s) source_block)) && (0 <? ref_cnt (blk (pool s) source_block))%Z) ;;
  set_req_blocks rid (<[Z.to_nat block_idx := cow_block]> blocks) ;;
  modify_mgr (fun m => m <| pending_cow_copies := pending_cow_copies m ++ [(source_block, cow_block)] |>) ;;
  on_pool (add_ref 1 cow_block).

(** The copy-on-write part of [allocate_new_blocks]: redirect the shared tail of a
    partial hit to a private block. *)
Definition redirect_partial_hit (rid : string) : M STState (list ref) :=
  o ← get_mgr (fun m => partial_hit_reqs m !! rid);
  match o with
  | None => mret []
  | Some (block_idx, source_block) =>
      modify_mgr (fun m => m <| partial_hit_reqs := delete rid (partial_hit_reqs m) |>) ;;
      bs ← on_pool (get_new_blocks 1);
      cow_block ← of_option IndexError (head bs);
      apply_cow rid block_idx source_block cow_block ;;
      s ← gets id;
      modify_mgr (fun m => m <| new_block_ids := new_block_ids m ++ [block_id (blk (pool s) cow_block)] |>) ;;
      mret [cow_block]
  end.

(** The base [allocate_new_blocks] *)
Definition base_allocate_new_blocks (rid : string) (num_tokens : Z) : M STState (list ref) :=
  cow_blocks ← redirect_partial_hit rid;
  blocks ← req_blocks rid;
  bs ← get_mgr st_block_size;
  let num_new_blocks := (cdiv num_tokens bs - zlen blocks)%Z in
  if (num_new_blocks <=? 0)%Z then mret cow_blocks
  else
    new_blocks ← extend_req_blocks rid blocks num_new_blocks;
    mret (cow_blocks ++ new_blocks).

(** [allocate_new_blocks(...)] of every class *)
Definition allocate_new_blocks (rid : string) (num_tokens : Z) : M STState (list ref) :=
  k ← get_mgr st_kind;
  match k with
  | DFlashRing _ _ => req_blocks rid ;; mret []
  | CircularBuffer => claim_ring_block rid
  | _ => base_allocate_new_blocks rid num_tokens
  end.

(** [take_new_block_ids()] *)
Definition take_new_block_ids : M STState (list Z) :=
  ids ← get_mgr new_block_ids;
  modify_mgr (fun m => m <| new_block_ids := [] |>) ;;
  mret ids.

(** [take_pending_cow_copies()] *)
Definition take_pending_cow_copies : M STState (list (ref * ref)) :=
  l ← get_mgr pending_cow_copies;
  modify_mgr (fun m => m <| pending_cow_copies := [] |>) ;;
  mret l.

(** ** Caching *)

(** [reachable_block_mask(...)]: the base class keeps every block. *)
Definition reachable_block_mask (m : STManager) (start_block end_block : Z)
    (retention_interval : option Z) (reachable_boundaries : list Z) : outcome (option (list bool)) :=
  match st_kind m with
  | SlidingWindow w _ | DFlashRing w _ =>
      swa_reachable_block_mask start_block end_block (Some (cache_hit_alignment_tokens m))
        (spec_block_size m) w (use_eagle m) retention_interval reachable_boundaries
  | _ => Ok None
  end.

Section with_sha256.
Context (sha256 : bytes -> bytes).

(** The base [cache_blocks]; returns the request, as [cache_full_blocks] does. *)
Definition base_cache_blocks (request : Request) (num_tokens : Z) (retention_interval : option Z)
    (replay_boundary : Z) : M STState Request :=
  m ← get_mgr id;
  if negb (prefix_cacheable m) then mret request
  else
    let rid := request_id request in
    let num_cached_blocks := default 0%Z (num_cached_block m !! rid) in
    let num_full_blocks := (num_tokens / st_block_size m)%Z in
    if (num_full_blocks <=? num_cached_blocks)%Z then mret request
    else
      let reachable_boundaries :=
        replay_boundary :: (if (shared_prefix_boundary request =? 0)%Z then []
                            else [shared_prefix_boundary request]) in
      block_mask ← lift_outcome
        (reachable_block_mask m num_cached_blocks num_full_blocks retention_interval reachable_boundaries);
      blocks ← req_blocks rid;
      request ← on_pool (cache_full_blocks sha256 request blocks num_cached_blocks num_full_blocks
        (st_block_size m) (kv_cache_group_id m) block_mask);
      modify_mgr (fun m => m <| num_cached_block := <[rid := num_full_blocks]> (num_cached_block m) |>) ;;
      mret request.

(** [FullAttentionManager._cache_partial_tail_block(request, num_tokens)] *)
Definition cache_partial_tail_block (request : Request) (num_tokens : Z) : M STState Request :=
  s ← gets id;
  let hbs := hash_block_size (pool s) in
  let boundary_tokens := (num_prompt_tokens request / hbs * hbs)%Z in
  if (boundary_tokens =? 0)%Z || (num_tokens <? boundary_tokens)%Z then mret request
  else if (boundary_tokens mod st_block_size (mgr s) =? 0)%Z then mret request
  else
    blocks ← req_blocks (request_id request);
    let block_idx := (boundary_tokens / st_block_size (mgr s))%Z in
    if (zlen blocks <=? block_idx)%Z then mret request
    else
      b ← of_option IndexError (pyget blocks block_idx);
      '(_, request) ← on_pool (cache_partial_block sha256 request b boundary_tokens
        (kv_cache_group_id (mgr s)) (st_block_size (mgr s)) false);
      mret request.

(** [cache_blocks(...)] of every class *)
Definition cache_blocks (request : Request) (num_tokens : Z) (retention_interval : option Z)
    (replay_boundary : Z) : M STState Request :=
  k ← get_mgr st_kind;
  match k with
  | CircularBuffer => mret request
  | CrossAttention => raise ValueError
  | FullAttention | RSWA _ =>
      request ← base_cache_blocks request num_tokens retention_interval replay_boundary;
      s ← gets id;
      if (st_block_size (mgr s) =? hash_block_size (pool s))%Z then mret request
      else cache_partial_tail_block request num_tokens
  | _ => base_cache_blocks request num_tokens retention_interval replay_boundary
  end.
End with_sha256.

(** ** Release *)

(** [pop_blocks_for_free(request_id)] *)
Definition pop_blocks_for_free (rid : string) : M STState (list ref) :=
  l ← get_mgr (fun m => default [] (req_to_blocks m !! rid));
  modify_mgr (fun m => m <| req_to_blocks := delete rid (req_to_blocks m) |>) ;;
  modify_mgr (fun m => m <| num_cached_block := delete rid (num_cached_block m) |>) ;;
  modify_mgr (fun m => m <| partial_hit_reqs := delete rid (partial_hit_reqs m) |>) ;;
  mret l.

(** [free(request_id)] *)
Definition st_free (rid : string) : M STState unit :=
  l ← pop_blocks_for_free rid;
  on_pool (free_blocks (reverse l)).

(** The backward loop of [_remove_blocks_in_range], up to the first null block:
    (freed, blocks). *)
Fixpoint null_range (null : ref) (idxs : list Z) (freed blocks : list ref) : list ref * list ref :=
  match idxs with
  | [] => (freed, blocks)
  | i :: rest =>
      match blocks !! Z.to_nat i with
      | Some b => if bool_decide (b = null) then (freed, blocks)
                  else null_range null rest (freed ++ [b]) (<[Z.to_nat i := null]> blocks)
      | None => (freed, blocks)
      end
  end.

(** [_remove_blocks_in_range(request_id, first_block, last_block)] for [0 <= first_block];
    the index stays below the length, so the read does not fail. *)
Definition remove_blocks_in_range (rid : string) (first_block last_block : Z) : M STState unit :=
  m ← get_mgr id;
  match req_to_blocks m !! rid with
  | None => mret tt
  | Some blocks =>
      if (last_block <=? first_block)%Z then mret tt
      else
        let last_block := Z.min last_block (zlen blocks) in
        let '(freed, blocks) :=
          null_range (st_null_block m) (zrange_down first_block last_block) [] blocks in
        set_req_blocks rid blocks ;;
        mwhen (negb (bool_decide (freed = []))) (on_pool (free_blocks freed))
  end.

(** The base [remove_skipped_blocks] *)
Definition base_remove_skipped_blocks (rid : string) (processed_computed_tokens : Z) : M STState unit :=
  m ← get_mgr id;
  let num_skipped_tokens := get_num_skipped_tokens m processed_computed_tokens in
  if (num_skipped_tokens <=? 0)%Z then mret tt
  else
    blocks ← req_blocks rid;
    let num_skipped_blocks := Z.min (num_skipped_tokens / st_block_size m) (zlen blocks) in
    remove_blocks_in_range rid 0 num_skipped_blocks.

(** [remove_skipped_blocks(...)] of every class *)
Definition remove_skipped_blocks (rid : string) (processed_computed_tokens : Z)
    (num_prompt : option Z) : M STState unit :=
  m ← get_mgr id;
  match st_kind m, num_prompt with
  | (DFlashRing _ _ | CircularBuffer), _ => mret tt
  | RSWA window, Some num_prompt =>
      let first_gap_block := cdiv num_prompt (st_block_size m) in
      let window_start := Z.max num_prompt (processed_computed_tokens - window) in
      remove_blocks_in_range rid first_gap_block (window_start / st_block_size m)
  | _, _ => base_remove_skipped_blocks rid processed_computed_tokens
  end.

(** The counting loop of [FullAttentionManager.get_num_common_prefix_blocks] *)
Fixpoint count_common (p : BlockPool) (num_reqs : Z) (blocks : list ref) : Z :=
  match blocks with
  | [] => 0
  | b :: rest => if (ref_cnt (blk p b) =? num_reqs)%Z then (1 + count_common p num_reqs rest)%Z else 0
  end.

(** [get_num_common_prefix_blocks(running_request_id)] of every class *)
Definition st_num_common_prefix_blocks (rid : string) : M STState Z :=
  k ← get_mgr st_kind;
  match k with
  | FullAttention | RSWA _ =>
      blocks ← req_blocks rid;
      s ← gets id;
      mret (count_common (pool s) (Z.of_nat (size (req_to_blocks (mgr s)))) blocks)
  | _ => mret 0%Z
  end.
