(* ===== verification/SingleTypeInv.v ===== *)
(** Who holds which block: a block's reference count is the number of times the
    managers' request lists and pending copies mention it, plus the references held
    outside.  Every manager operation keeps that. *)
From S2P Require Import Prelude KVBlock FreeQueue Request BlockHash BlockPool BlockPoolInv BlockPoolSpec BlockPoolCache BlockPoolThms CacheHit SingleType.

(** ** Counting references *)

(** How often block [i] occurs in a list of references. *)
Definition cnt (i : nat) (l : list ref) : Z := zlen (filter (.= Blk i) l).

Lemma cnt_nil i : cnt i [] = 0%Z.
Proof. done. Qed.

Lemma cnt_cons i r l : cnt i (r :: l) = ((if decide (r = Blk i) then 1 else 0) + cnt i l)%Z.
Proof.
  unfold cnt, zlen. case_decide; [rewrite filter_cons_True by done|rewrite filter_cons_False by done];
    simpl; lia.
Qed.

Lemma cnt_app i l1 l2 : cnt i (l1 ++ l2) = (cnt i l1 + cnt i l2)%Z.
Proof. unfold cnt, zlen. rewrite filter_app, length_app. lia. Qed.

Lemma cnt_nonneg i l : (0 <= cnt i l)%Z.
Proof. unfold cnt, zlen. lia. Qed.

#[export] Instance cnt_proper i : Proper (Permutation ==> eq) (cnt i).
Proof. intros l l' Hp. unfold cnt, zlen. by rewrite Hp. Qed.

Lemma cnt_blk i l : cnt i (Blk <$> l) = occurs i l.
Proof.
  induction l as [|j l IH]; [done|]. csimpl. rewrite cnt_cons, occurs_cons, IH.
  repeat case_decide; naive_solver.
Qed.

Lemma cnt_replicate i k r : r <> Blk i -> cnt i (replicate k r) = 0%Z.
Proof. intros Hr. induction k as [|k IH]; [done|]. simpl. rewrite cnt_cons, IH. by case_decide. Qed.

Lemma cnt_insert i l k b c :
  l !! k = Some b ->
  cnt i (<[k := c]> l) =
    (cnt i l - (if decide (b = Blk i) then 1 else 0) + (if decide (c = Blk i) then 1 else 0))%Z.
Proof.
  revert k. induction l as [|x l IH]; intros [|k] Hk; [done|done| |]; simpl in *.
  - injection Hk as ->. rewrite !cnt_cons. lia.
  - rewrite !cnt_cons, (IH k) by done. lia.
Qed.

Lemma cnt_pos i l : (0 < cnt i l)%Z <-> Blk i ∈ l.
Proof.
  induction l as [|r l IH]; [rewrite cnt_nil; split; [lia|set_solver]|].
  rewrite cnt_cons, elem_of_cons.
  pose proof (cnt_nonneg i l). case_decide as E; [split; [by left|lia]|].
  rewrite Z.add_0_l, IH. split; [by right|intros [Hr|?]; [congruence|done]].
Qed.

(** Lists of references to blocks of the pool. *)
Definition blocks_ok (n : nat) (l : list ref) : Prop := Forall (fun r => exists i, r = Blk i /\ i < n) l.

Lemma blocks_ok_list n l : blocks_ok n l -> exists l', l = Blk <$> l' /\ forall i, i ∈ l' -> i < n.
Proof.
  induction 1 as [|r l (i & -> & Hi) _ (l' & -> & Hl')].
  { exists []. split; [done|]. intros i Hi. by apply elem_of_nil in Hi. }
  exists (i :: l'). split; [done|]. intros j [->|Hj]%elem_of_cons; auto.
Qed.

Lemma blocks_ok_blk n l : blocks_ok n (Blk <$> l) <-> forall i, i ∈ l -> i < n.
Proof.
  unfold blocks_ok. rewrite Forall_fmap, Forall_forall. unfold compose. simpl. naive_solver.
Qed.

(** ** The references of a manager *)

Definition req_refs (R : gmap string (list ref)) (i : nat) : Z :=
  map_fold (fun _ l acc => (cnt i l + acc)%Z) 0%Z R.

Definition cow_refs (l : list (ref * ref)) (i : nat) : Z := cnt i (concat ((fun ab => [ab.1; ab.2]) <$> l)).

Definition owned (m : STManager) (i : nat) : Z :=
  (req_refs (req_to_blocks m) i + cow_refs (pending_cow_copies m) i)%Z.

Lemma req_refs_fresh R i rid l : R !! rid = None -> req_refs (<[rid := l]> R) i = (cnt i l + req_refs R i)%Z.
Proof. intros HR. unfold req_refs. rewrite map_fold_insert_L; [done| |done]. intros. lia. Qed.

Lemma req_refs_delete R i rid :
  req_refs (delete rid R) i = (req_refs R i - cnt i (default [] (R !! rid)))%Z.
Proof.
  destruct (R !! rid) as [l|] eqn:HR; simpl.
  - rewrite <- (insert_delete_id R rid l HR) at 2.
    rewrite req_refs_fresh by (by rewrite lookup_delete_eq). lia.
  - rewrite delete_id by done. rewrite cnt_nil. lia.
Qed.

Lemma req_refs_set R i rid l :
  req_refs (<[rid := l]> R) i = (req_refs R i - cnt i (default [] (R !! rid)) + cnt i l)%Z.
Proof.
  rewrite <- insert_delete_eq. rewrite req_refs_fresh by (by rewrite lookup_delete_eq).
  rewrite req_refs_delete. lia.
Qed.

Lemma req_refs_ge R i rid l : R !! rid = Some l -> (cnt i l <= req_refs R i)%Z.
Proof.
  intros HR. pose proof (req_refs_delete R i rid) as Hd. rewrite HR in Hd. simpl in Hd.
  assert (0 <= req_refs (delete rid R) i)%Z; [|lia].
  unfold req_refs. apply (map_fold_weak_ind (fun r _ => (0 <= r)%Z)); [lia|].
  intros k l' R' r _ Hr. pose proof (cnt_nonneg i l'). lia.
Qed.

Lemma cow_refs_app l1 l2 i : cow_refs (l1 ++ l2) i = (cow_refs l1 i + cow_refs l2 i)%Z.
Proof. unfold cow_refs. rewrite fmap_app, concat_app. apply cnt_app. Qed.

Lemma cow_refs_nonneg l i : (0 <= cow_refs l i)%Z.
Proof. apply cnt_nonneg. Qed.

(** ** The invariant *)

Record st_wf (n : nat) (m : STManager) : Prop := {
  wf_null : st_null_block m = Blk 0;
  wf_bs : (0 < st_block_size m)%Z;
  wf_blocks rid l : req_to_blocks m !! rid = Some l -> blocks_ok n l;
  wf_partial rid idx src : partial_hit_reqs m !! rid = Some (idx, src) ->
    exists l i, req_to_blocks m !! rid = Some l /\ (0 <= idx)%Z /\
      l !! Z.to_nat idx = Some src /\ src = Blk i /\ 0 < i < n;
}.

(** The pool is well-formed with free list [fl], and every reference count is the
    manager's own references plus [ext], those held by others. *)
Record st_ok (n : nat) (ext : nat -> Z) (fl : list nat) (s : STState) : Prop := {
  so_pool : pool_ok n (pool s) fl;
  so_wf : st_wf n (mgr s);
  so_refs i : 0 < i < n -> refs (pool s) i = (owned (mgr s) i + ext i)%Z;
  so_ext i : (0 <= ext i)%Z;
}.

Lemma st_ok_upd n ext fl fl' s s' (d : nat -> Z) :
  st_ok n ext fl s -> pool_ok n (pool s') fl' -> st_wf n (mgr s') ->
  (forall i, 0 < i < n -> refs (pool s') i = (refs (pool s) i + d i)%Z) ->
  (forall i, 0 < i < n -> owned (mgr s') i = (owned (mgr s) i + d i)%Z) ->
  st_ok n ext fl' s'.
Proof.
  intros Hs Hp Hw Hr Ho. split; [done|done| |apply Hs].
  intros i Hi. rewrite Hr, Ho, (so_refs _ _ _ _ Hs) by done. lia.
Qed.

(** A manager whose lists did not change, over the same pool. *)
Lemma st_ok_same n ext fl s m :
  st_ok n ext fl s -> req_to_blocks m = req_to_blocks (mgr s) ->
  pending_cow_copies m = pending_cow_copies (mgr s) -> partial_hit_reqs m = partial_hit_reqs (mgr s) ->
  st_null_block m = st_null_block (mgr s) -> st_block_size m = st_block_size (mgr s) ->
  st_ok n ext fl (s <| mgr := m |>).
Proof.
  intros Hs Hr Hc Hp Hn Hb. split; simpl; [apply Hs| | |apply Hs].
  - destruct (so_wf _ _ _ _ Hs). split; rewrite ?Hr, ?Hp, ?Hn, ?Hb; done.
  - intros i Hi. unfold owned. rewrite Hr, Hc. by apply Hs.
Qed.

(** ** Changing one request's list *)

(** The list of [rid] as a reader sees it. *)
Definition blocks_of (m : STManager) (rid : string) : list ref := default [] (req_to_blocks m !! rid).

Definition with_blocks (rid : string) (l : list ref) (m : STManager) : STManager :=
  m <| req_to_blocks := <[rid := l]> (req_to_blocks m) |>.

Lemma with_blocks_same rid l m : req_to_blocks m !! rid = Some l -> with_blocks rid l m = m.
Proof. intros Hl. unfold with_blocks. rewrite insert_id by done. by destruct m. Qed.

Lemma owned_with_blocks rid l m i :
  owned (with_blocks rid l m) i = (owned m i - cnt i (blocks_of m rid) + cnt i l)%Z.
Proof. unfold owned, with_blocks, blocks_of. simpl. rewrite req_refs_set. lia. Qed.

(** The new list keeps the block that a pending redirect of [rid] points at. *)
Lemma st_wf_with_blocks n rid l m :
  st_wf n m -> blocks_ok n l ->
  (forall idx src, partial_hit_reqs m !! rid = Some (idx, src) -> l !! Z.to_nat idx = Some src) ->
  st_wf n (with_blocks rid l m).
Proof.
  intros Hw Hl Hp. destruct Hw as [Hn Hb Hbl Hpart]. split; simpl; [done|done| |].
  - intros rid' l'. destruct (decide (rid = rid')) as [->|Hne].
    + rewrite lookup_insert_eq. by intros [= <-].
    + rewrite lookup_insert_ne by done. apply Hbl.
  - intros rid' idx src Hps. destruct (Hpart rid' idx src Hps) as (l0 & i & Hl0 & Hidx & Hsrc & Hi).
    destruct (decide (rid = rid')) as [->|Hne].
    + exists l, i. rewrite lookup_insert_eq. split_and!; [done|done|by apply Hp|apply Hi..].
    + exists l0, i. rewrite lookup_insert_ne by done. done.
Qed.

Lemma blocks_of_ok n m rid : st_wf n m -> blocks_ok n (blocks_of m rid).
Proof.
  intros Hw. unfold blocks_of. destruct (req_to_blocks m !! rid) as [l|] eqn:E; simpl; [by eapply Hw|].
  apply Forall_nil_2.
Qed.

Lemma blocks_of_partial n m rid idx src :
  st_wf n m -> partial_hit_reqs m !! rid = Some (idx, src) -> blocks_of m rid !! Z.to_nat idx = Some src.
Proof.
  intros Hw Hp. destruct (wf_partial _ _ Hw _ _ _ Hp) as (l & i & Hl & _ & Hi & _).
  unfold blocks_of. by rewrite Hl.
Qed.

Lemma wp_req_blocks n ext fl s rid (Q : list ref -> STState -> Prop) :
  st_ok n ext fl s ->
  (forall s', s' = s <| mgr := with_blocks rid (blocks_of (mgr s) rid) (mgr s) |> -> st_ok n ext fl s' ->
    Q (blocks_of (mgr s) rid) s') ->
  wp (req_blocks rid) Q s.
Proof.
  intros Hs HQ.
  assert (Hs' : st_ok n ext fl (s <| mgr := with_blocks rid (blocks_of (mgr s) rid) (mgr s) |>)).
  { eapply (st_ok_upd _ _ _ _ _ _ (fun _ => 0%Z) Hs); [apply Hs| |intros; simpl; lia|].
    - apply st_wf_with_blocks; [apply Hs|apply blocks_of_ok, Hs|]. intros idx src. apply (blocks_of_partial n), Hs.
    - intros i _. simpl. rewrite owned_with_blocks. lia. }
  specialize (HQ _ eq_refl Hs'). unfold req_blocks, get_mgr, modify_mgr. wp_steps. unfold blocks_of in *.
  destruct (req_to_blocks (mgr s) !! rid) as [l|] eqn:E; simpl in *.
  - rewrite with_blocks_same in HQ by done. replace (s <| mgr := mgr s |>) with s in HQ by (by destruct s). done.
  - wp_steps. exact HQ.
Qed.

(** Reading a list that is stored already. *)
Lemma wp_req_blocks_known s rid l Q :
  req_to_blocks (mgr s) !! rid = Some l -> Q l s -> wp (req_blocks rid) Q s.
Proof. intros Hl HQ. unfold req_blocks, get_mgr. wp_steps. rewrite Hl. done. Qed.

(** The new ids a manager may have noted do not matter to the invariant. *)
Definition noted (m m' : STManager) : Prop := exists ids, m' = m <| new_block_ids := ids |>.

Lemma noted_refl m : noted m m.
Proof. exists (new_block_ids m). by destruct m. Qed.

Lemma noted_trans m1 m2 m3 : noted m1 m2 -> noted m2 m3 -> noted m1 m3.
Proof. intros [i1 ->] [i2 ->]. by exists i2. Qed.

Lemma st_ok_noted n ext fl s m' :
  noted (mgr s) m' -> st_ok n ext fl s -> st_ok n ext fl (s <| mgr := m' |>).
Proof. intros [ids ->] Hs. by eapply st_ok_same. Qed.

Lemma claimed_refs n p p' c l i :
  NoDup l -> (forall j, j ∈ l -> refs p j = 0%Z) -> claimed n c l p p' ->
  refs p' i = (refs p i + occurs i l)%Z.
Proof.
  intros Hnd H0 Hc. rewrite (cl_ref _ _ _ _ _ Hc). case_decide as Hi.
  - rewrite H0 by done. unfold occurs. assert (filter (.= i) l = [i]) as ->; [|done].
    clear -Hnd Hi. induction Hnd as [|x l Hx Hnd IH]; [set_solver|].
    destruct (decide (x = i)) as [->|Hne].
    + rewrite filter_cons_True by done. f_equal. apply list_filter_none. set_solver.
    + rewrite filter_cons_False by done. apply IH. set_solver.
  - assert (occurs i l = 0)%Z; [|lia]. pose proof (occurs_nonneg i l).
    destruct (decide (0 < occurs i l)%Z) as [Hp|]; [by apply occurs_pos in Hp|lia].
Qed.

Lemma wp_extend n ext l1 l2 s rid blocks Q :
  st_ok n ext (l1 ++ l2) s -> req_to_blocks (mgr s) !! rid = Some blocks ->
  (forall s', st_ok n ext l2 s' -> noted (with_blocks rid (blocks ++ (Blk <$> l1)) (mgr s)) (mgr s') ->
     claimed n (enable_caching (pool s)) l1 (pool s) (pool s') -> Q (Blk <$> l1) s') ->
  wp (extend_req_blocks rid blocks (zlen l1)) Q s.
Proof.
  intros Hs Hl HQ. unfold extend_req_blocks, on_pool. wp_steps.
  eapply wp_mono; [exact (get_new_blocks_spec n _ l1 l2 (so_pool _ _ _ _ Hs))|].
  intros r p' (-> & Hp' & Hc). set (s1 := s <| pool := p' |>).
  set (m1 := with_blocks rid (blocks ++ (Blk <$> l1)) (mgr s)).
  assert (Hfree : NoDup l1 /\ forall j, j ∈ l1 -> 0 < j < n /\ refs (pool s) j = 0%Z).
  { destruct (so_pool _ _ _ _ Hs) as [_ Hf]. pose proof (fo_nodup _ _ _ _ Hf) as Hnd.
    rewrite app_nil_r in Hnd. apply NoDup_app in Hnd as [Hnd _]. split; [done|].
    intros j Hj. apply (fo_free _ _ _ _ Hf). set_solver. }
  assert (Hs1 : st_ok n ext l2 (s1 <| mgr := m1 |>)).
  { eapply (st_ok_upd _ _ _ _ _ _ (fun i => occurs i l1) Hs); [exact Hp'| | |].
    - apply st_wf_with_blocks; [apply Hs| |].
      + apply Forall_app. split; [by eapply Hs|]. apply blocks_ok_blk. intros i Hi. by apply Hfree.
      + intros idx src Hp. apply lookup_app_l_Some. pose proof (blocks_of_partial n _ _ _ _ (so_wf _ _ _ _ Hs) Hp) as Hb.
        unfold blocks_of in Hb. by rewrite Hl in Hb.
    - intros i _. simpl. eapply claimed_refs; [apply Hfree| |exact Hc]. intros j Hj. by apply Hfree.
    - intros i _. simpl. unfold m1. rewrite owned_with_blocks. unfold blocks_of. rewrite Hl. simpl.
      rewrite cnt_app, cnt_blk. lia. }
  unfold set_req_blocks, modify_mgr, note_new_blocks. wp_steps. unfold mwhen.
  destruct (record_new_block_ids (mgr s)); wp_steps.
  - unfold modify_mgr. wp_steps. apply HQ; [|eexists; reflexivity|done].
    eapply st_ok_same; [exact Hs1|done..].
  - apply HQ; [exact Hs1|apply noted_refl|done].
Qed.
