(* ===== verification/SingleTypeAlloc.v ===== *)
(** Allocation by one manager: the predicted number of blocks suffices, so that no
    step of an allocation that passed the capacity check raises. *)
From S2P Require Import Prelude KVBlock FreeQueue Request BlockHash BlockPool BlockPoolInv BlockPoolSpec BlockPoolCache BlockPoolThms CacheHit SingleType SingleTypeInv.

(** ** What an operation on [rid] leaves alone *)

Definition st_config (m : STManager) :=
  (st_kind m, spec_block_size m, prefix_cacheable m, cache_hit_alignment_tokens m, st_block_size m,
   st_dcp_world_size m, st_pcp_world_size m,
   st_enable_caching m, max_admission_blocks_per_request m, record_new_block_ids m,
   kv_cache_group_id m, st_null_block m, use_eagle m).

Record st_frame (rid : string) (m m' : STManager) : Prop := {
  fr_config : st_config m' = st_config m;
  fr_blocks rid' : rid' <> rid -> req_to_blocks m' !! rid' = req_to_blocks m !! rid';
  fr_cached rid' : rid' <> rid -> num_cached_block m' !! rid' = num_cached_block m !! rid';
  fr_partial rid' : rid' <> rid -> partial_hit_reqs m' !! rid' = partial_hit_reqs m !! rid';
}.

Lemma st_frame_refl rid m : st_frame rid m m.
Proof. done. Qed.

Lemma st_frame_trans rid m1 m2 m3 : st_frame rid m1 m2 -> st_frame rid m2 m3 -> st_frame rid m1 m3.
Proof.
  intros [C1 B1 N1 P1] [C2 B2 N2 P2]. split; [congruence|..]; intros rid' Hr.
  - by rewrite B2, B1.
  - by rewrite N2, N1.
  - by rewrite P2, P1.
Qed.

Lemma st_frame_blocks rid l m : st_frame rid m (with_blocks rid l m).
Proof. split; [done| |done|done]. intros rid' Hr. simpl. by rewrite lookup_insert_ne. Qed.

Lemma st_frame_noted rid m m' : noted m m' -> st_frame rid m m'.
Proof. intros [ids ->]. done. Qed.

Lemma st_config_bs m m' : st_config m' = st_config m -> st_block_size m' = st_block_size m.
Proof. unfold st_config. congruence. Qed.

Lemma st_config_kind m m' : st_config m' = st_config m -> st_kind m' = st_kind m.
Proof. unfold st_config. congruence. Qed.

Lemma st_config_caching m m' : st_config m' = st_config m -> st_enable_caching m' = st_enable_caching m.
Proof. unfold st_config. congruence. Qed.

(** ** Demand *)

(** The blocks an allocation up to [num_tokens] still has to claim. *)
Definition demand (m : STManager) (rid : string) (num_tokens : Z) : Z :=
  match st_kind m with
  | DFlashRing _ _ => 0
  | CircularBuffer => if bool_decide (blocks_of m rid = []) then 1 else 0
  | _ => Z.max 0 (cdiv num_tokens (st_block_size m) - zlen (blocks_of m rid)) +
         (if bool_decide (is_Some (partial_hit_reqs m !! rid)) then 1 else 0)
  end%Z.

Lemma demand_nonneg m rid t : (0 <= demand m rid t)%Z.
Proof. unfold demand. case_match; try case_bool_decide; lia. Qed.

(** What holds after an allocation step: it claimed exactly the demand it removed. *)
Record alloc_step (n : nat) (ext : nat -> Z) (rid : string) (t : Z) (fl : list nat) (s : STState)
    (fl' : list nat) (s' : STState) : Prop := {
  as_ok : st_ok n ext fl' s';
  as_frame : st_frame rid (mgr s) (mgr s');
  as_len : zlen fl' = (zlen fl - demand (mgr s) rid t + demand (mgr s') rid t)%Z;
  as_sub i : i ∈ fl' -> i ∈ fl;
  as_config : same_config (pool s) (pool s');
}.

Lemma alloc_step_trans n ext rid t fl1 s1 fl2 s2 fl3 s3 :
  alloc_step n ext rid t fl1 s1 fl2 s2 -> alloc_step n ext rid t fl2 s2 fl3 s3 ->
  alloc_step n ext rid t fl1 s1 fl3 s3.
Proof.
  intros [O1 F1 L1 S1 C1] [O2 F2 L2 S2 C2]. split; [done|by eapply st_frame_trans|lia|auto|by etrans].
Qed.

(** Claim [k] of the free blocks for [rid]. *)
Lemma extend_step n ext fl s rid blocks k Q :
  st_ok n ext fl s -> req_to_blocks (mgr s) !! rid = Some blocks -> (0 <= k <= zlen fl)%Z ->
  (forall l1 l2 s', fl = l1 ++ l2 -> zlen l1 = k -> st_ok n ext l2 s' ->
     noted (with_blocks rid (blocks ++ (Blk <$> l1)) (mgr s)) (mgr s') ->
     same_config (pool s) (pool s') -> Q (Blk <$> l1) s') ->
  wp (extend_req_blocks rid blocks k) Q s.
Proof.
  intros Hs Hl Hk HQ. unfold zlen in *.
  rewrite <- (take_drop (Z.to_nat k) fl) in Hs.
  assert (Hlen : zlen (take (Z.to_nat k) fl) = k) by (unfold zlen; rewrite length_take; lia).
  rewrite <- Hlen. eapply wp_extend; [exact Hs|done|]. intros s' Hs' Hn Hc.
  eapply HQ; [by rewrite take_drop|done|done|done|apply Hc].
Qed.

Lemma demand_noted m m' rid t : noted m m' -> demand m' rid t = demand m rid t.
Proof. by intros [ids ->]. Qed.

Lemma blocks_of_with rid l m : blocks_of (with_blocks rid l m) rid = l.
Proof. unfold blocks_of, with_blocks. simpl. by rewrite lookup_insert_eq. Qed.

Lemma noted_blocks m m' rid : noted m m' -> blocks_of m' rid = blocks_of m rid.
Proof. by intros [ids ->]. Qed.

(** Classes that use the base class's allocation. *)
Definition base_kind (k : manager_kind) : bool :=
  match k with DFlashRing _ _ | CircularBuffer => false | _ => true end.

Lemma demand_base m rid t :
  base_kind (st_kind m) = true ->
  demand m rid t = (Z.max 0 (cdiv t (st_block_size m) - zlen (blocks_of m rid)) +
    (if bool_decide (is_Some (partial_hit_reqs m !! rid)) then 1 else 0))%Z.
Proof. unfold demand, base_kind. by case_match. Qed.

Lemma extend_demand m m' rid t l k :
  base_kind (st_kind m) = true -> noted (with_blocks rid (blocks_of m rid ++ l) m) m' -> zlen l = k ->
  (0 <= k)%Z -> (k <= Z.max 0 (cdiv t (st_block_size m) - zlen (blocks_of m rid)))%Z ->
  demand m' rid t = (demand m rid t - k)%Z.
Proof.
  intros Hb Hn Hl Hk Hle. rewrite (demand_noted _ _ _ _ Hn), !demand_base by done.
  rewrite blocks_of_with. simpl. unfold zlen in *. rewrite length_app. lia.
Qed.

(** ** Allocation steps *)

(** Extending the list of [rid] by [k] blocks is an allocation step. *)
Lemma extend_alloc n ext fl s rid t k Q :
  st_ok n ext fl s -> base_kind (st_kind (mgr s)) = true ->
  req_to_blocks (mgr s) !! rid = Some (blocks_of (mgr s) rid) ->
  (0 <= k <= zlen fl)%Z ->
  (k <= Z.max 0 (cdiv t (st_block_size (mgr s)) - zlen (blocks_of (mgr s) rid)))%Z ->
  (forall fl' s' l, alloc_step n ext rid t fl s fl' s' -> zlen l = k ->
     blocks_of (mgr s') rid = blocks_of (mgr s) rid ++ l ->
     partial_hit_reqs (mgr s') = partial_hit_reqs (mgr s) ->
     num_cached_block (mgr s') = num_cached_block (mgr s) -> Q l s') ->
  wp (extend_req_blocks rid (blocks_of (mgr s) rid) k) Q s.
Proof.
  intros Hs Hb Hl Hk Hd HQ. eapply extend_step; [done|done|done|].
  intros l1 l2 s' -> Hlen Hs' Hn Hc.
  assert (Hz : zlen (Blk <$> l1) = k) by (unfold zlen in *; by rewrite length_fmap).
  eapply (HQ l2); [|exact Hz|by rewrite (noted_blocks _ _ _ Hn), blocks_of_with|by destruct Hn as [ids ->]..].
  split; [done| | |set_solver|done].
  - eapply st_frame_trans; [apply st_frame_blocks|by apply st_frame_noted].
  - rewrite (extend_demand (mgr s) (mgr s') rid t (Blk <$> l1) k) by (done || lia).
    unfold zlen in *. rewrite length_app. lia.
Qed.

(** Reading the list of [rid] changes neither the invariant nor the demand. *)
Lemma stored_blocks_step n ext fl s rid t :
  st_ok n ext fl s ->
  st_ok n ext fl (s <| mgr := with_blocks rid (blocks_of (mgr s) rid) (mgr s) |>) ->
  alloc_step n ext rid t fl s fl (s <| mgr := with_blocks rid (blocks_of (mgr s) rid) (mgr s) |>).
Proof.
  intros Hs Hs'. split; [done|apply st_frame_blocks| |done|done].
  assert (demand (with_blocks rid (blocks_of (mgr s) rid) (mgr s)) rid t = demand (mgr s) rid t) as Hd.
  { unfold demand. simpl. by rewrite blocks_of_with. }
  simpl. lia.
Qed.

Lemma alloc_step_refl n ext rid t fl s : st_ok n ext fl s -> alloc_step n ext rid t fl s fl s.
Proof. intros Hs. split; [done|done|lia|done|done]. Qed.

Lemma cdiv_le a b c : (0 < c)%Z -> (a <= b)%Z -> (cdiv a c <= cdiv b c)%Z.
Proof. intros Hc Hab. pose proof (cdiv_spec a c Hc). pose proof (cdiv_spec b c Hc). nia. Qed.

Lemma external_spec n ext fl s rid local external t :
  st_ok n ext fl s -> base_kind (st_kind (mgr s)) = true ->
  (local + external <= t)%Z -> (demand (mgr s) rid t <= zlen fl)%Z ->
  wp (base_allocate_external_computed_blocks rid local external) (fun _ s' =>
    exists fl', alloc_step n ext rid t fl s fl' s' /\
      partial_hit_reqs (mgr s') = partial_hit_reqs (mgr s) /\
      num_cached_block (mgr s') = num_cached_block (mgr s)) s.
Proof.
  intros Hs Hb Ht Hd. unfold base_allocate_external_computed_blocks, get_mgr. wp_steps. unfold id.
  destruct (_ <=? 0)%Z; [wp_steps; exists fl; split; [by apply alloc_step_refl|done]|].
  wp_steps. eapply wp_req_blocks; [exact Hs|]. intros s1 -> Hs1.
  pose proof (stored_blocks_step n ext fl s rid t Hs Hs1) as Hst.
  set (s1 := s <| mgr := _ |>) in *. wp_steps.
  assert (Hbo : blocks_of (mgr s) rid = blocks_of (mgr s1) rid) by (symmetry; apply blocks_of_with).
  rewrite Hbo.
  pose proof (as_len _ _ _ _ _ _ _ _ Hst) as Hlen.
  assert (Hd1 : (demand (mgr s1) rid t <= zlen fl)%Z) by lia. rewrite demand_base in Hd1 by done.
  pose proof (wf_bs _ _ (so_wf _ _ _ _ Hs)) as Hbs.
  pose proof (cdiv_le _ _ _ Hbs Ht) as Hcd. change (st_block_size (mgr s1)) with (st_block_size (mgr s)) in *.
  eapply (extend_alloc n ext fl s1 rid t); [done|done| | | |].
  - unfold s1. simpl. rewrite lookup_insert_eq. by rewrite blocks_of_with.
  - case_bool_decide; lia.
  - change (st_block_size (mgr s1)) with (st_block_size (mgr s)). lia.
  - intros fl' s' l Hstep _ _ Hp Hn. wp_steps. exists fl'. split; [by eapply alloc_step_trans|].
    rewrite Hp, Hn. done.
Qed.

(** ** Copy on write *)

Lemma st_wf_drop_partial n m rid :
  st_wf n m -> st_wf n (m <| partial_hit_reqs := delete rid (partial_hit_reqs m) |>).
Proof.
  intros [Hn Hb Hbl Hp]. split; simpl; [done..|]. intros rid' idx src.
  destruct (decide (rid = rid')) as [->|Hne]; [by rewrite lookup_delete_eq|].
  rewrite lookup_delete_ne by done. apply Hp.
Qed.

(** The pool after claiming one block and referencing it once more. *)
Lemma claim_for_copy n p i fl :
  pool_ok n p (i :: fl) ->
  exists p1 p2, get_new_blocks 1 p = (Ok [Blk i], p1) /\ add_ref 1 (Blk i) p1 = (Ok tt, p2) /\
    pool_ok n p2 fl /\ same_config p p2 /\ 0 < i < n /\ refs p i = 0%Z /\
    pool_ok n p1 fl /\
    (forall j, refs p1 j = (refs p j + if decide (j = i) then 1 else 0)%Z) /\
    (forall j, refs p2 j = (refs p j + if decide (j = i) then 2 else 0)%Z).
Proof.
  intros Hok. change (i :: fl) with ([i] ++ fl) in Hok.
  destruct (proj1 (wp_run _ _ _) (get_new_blocks_spec n p [i] fl Hok)) as (r & p1 & H1 & -> & Hok1 & Hc).
  assert (Hi : 0 < i < n /\ refs p i = 0%Z) by (apply (fo_free _ _ _ _ (proj2 Hok)); set_solver).
  destruct (proj1 (wp_run _ _ _) (add_ref_spec 1 i p1)) as ([] & p2 & H2 & Hq & Hrep).
  assert (Hr1 : forall j, refs p1 j = (refs p j + if decide (j = i) then 1 else 0)%Z).
  { intros j. rewrite (cl_ref _ _ _ _ _ Hc). destruct (decide (j = i)) as [->|Hj].
    - rewrite decide_True by set_solver. lia.
    - rewrite decide_False by set_solver. lia. }
  exists p1, p2. split_and!; [exact H1|exact H2| | |apply Hi..| |exact Hr1|].
  - destruct Hok1 as [Hc1 Hf1]. split; [eapply cache_ok_queue_step; [apply Hq|done]|].
    eapply free_ok_refs; [apply Hq|exact Hf1|apply Hrep, Hf1|apply Hf1| |].
    + intros j Hj. rewrite (rq_ref _ _ _ Hq). pose proof (fo_ref _ _ _ _ Hf1 j Hj). case_decide; lia.
    + intros j. rewrite (fo_free _ _ _ _ Hf1), (rq_ref _ _ _ Hq).
      case_decide as Hj; [|by rewrite Z.add_0_r]. subst j.
      rewrite Hr1, decide_True, (proj2 Hi) by done. naive_solver lia.
  - etrans; [apply Hc|apply Hq].
  - done.
  - intros j. rewrite (rq_ref _ _ _ Hq), Hr1. case_decide; lia.
Qed.

(** The manager after the redirect of [rid] from [src] to [cow]. *)
Definition redirected (rid : string) (idx : Z) (src cow : ref) (ids : list Z) (m : STManager) : STManager :=
  m <| partial_hit_reqs := delete rid (partial_hit_reqs m) |>
    <| req_to_blocks := <[rid := <[Z.to_nat idx := cow]> (blocks_of m rid)]> (req_to_blocks m) |>
    <| pending_cow_copies := pending_cow_copies m ++ [(src, cow)] |>
    <| new_block_ids := ids |>.

(** The redirect keeps every reference accounted for: the source moves from the
    request's list to the pending copies, the private block is in both. *)
Lemma redirected_owned rid idx src j ids m i :
  blocks_of m rid !! Z.to_nat idx = Some src ->
  owned (redirected rid idx src (Blk j) ids m) i = (owned m i + if decide (i = j) then 2 else 0)%Z.
Proof.
  intros Hsrc. unfold owned. simpl. rewrite req_refs_set, cow_refs_app. fold (blocks_of m rid).
  rewrite (cnt_insert _ _ _ _ _ Hsrc). unfold cow_refs at 2. simpl. rewrite !cnt_cons, cnt_nil.
  destruct (decide (i = j)) as [->|Hij].
  - rewrite (decide_True (P := Blk j = Blk j)) by done. lia.
  - rewrite (decide_False (P := Blk j = Blk i)) by congruence. lia.
Qed.

Lemma redirected_wf n rid idx src j ids m :
  st_wf n m -> j < n -> st_wf n (redirected rid idx src (Blk j) ids m).
Proof.
  intros Hw Hj.
  pose proof (st_wf_with_blocks n rid (<[Z.to_nat idx := Blk j]> (blocks_of m rid)) _
    (st_wf_drop_partial n _ rid Hw)) as [W1 W2 W3 W4].
  - apply Forall_insert; [by apply blocks_of_ok|]. by exists j.
  - simpl. by rewrite lookup_delete_eq.
  - split; [done|done|exact W3|exact W4].
Qed.

Lemma redirected_step n ext rid t idx src j fl s ids p2 :
  st_ok n ext (j :: fl) s -> base_kind (st_kind (mgr s)) = true ->
  partial_hit_reqs (mgr s) !! rid = Some (idx, src) -> j < n -> pool_ok n p2 fl ->
  same_config (pool s) p2 ->
  (forall i, refs p2 i = (refs (pool s) i + if decide (i = j) then 2 else 0)%Z) ->
  alloc_step n ext rid t (j :: fl) s fl {| mgr := redirected rid idx src (Blk j) ids (mgr s); pool := p2 |}.
Proof.
  intros Hs Hb Hp Hj Hok Hcfg Hr. pose proof (blocks_of_partial n _ _ _ _ (so_wf _ _ _ _ Hs) Hp) as Hsrc.
  split; [| | |set_solver|done].
  - eapply (st_ok_upd _ _ _ _ _ _ (fun k => if decide (k = j) then 2 else 0)%Z Hs); simpl.
    + exact Hok.
    + apply redirected_wf; [apply Hs|done].
    + intros i _. apply Hr.
    + intros i _. by apply redirected_owned.
  - split; [done|..]; intros rid' Hne; simpl; [by rewrite lookup_insert_ne|done|by rewrite lookup_delete_ne].
  - rewrite !demand_base by done. rewrite Hp, bool_decide_true by eauto. simpl.
    rewrite lookup_delete_eq, bool_decide_false by (by intros []).
    unfold redirected, blocks_of, zlen. simpl. rewrite lookup_insert_eq. simpl. rewrite length_insert.
    fold (blocks_of (mgr s) rid). lia.
Qed.

Lemma partial_ref_held n ext fl s rid idx src :
  st_ok n ext fl s -> partial_hit_reqs (mgr s) !! rid = Some (idx, src) ->
  exists i, src = Blk i /\ 0 < i < n /\ (0 < refs (pool s) i)%Z /\ (0 <= idx)%Z /\
    Z.to_nat idx < length (blocks_of (mgr s) rid) /\ req_to_blocks (mgr s) !! rid = Some (blocks_of (mgr s) rid).
Proof.
  intros Hs Hp. destruct (wf_partial _ _ (so_wf _ _ _ _ Hs) rid idx src Hp) as (l & i & Hl & Hidx & Hsrc & -> & Hi).
  assert (Hbo : blocks_of (mgr s) rid = l) by (unfold blocks_of; by rewrite Hl).
  exists i. rewrite Hbo. split_and!; [done|lia|lia| |done|by eapply lookup_lt_Some|done].
  rewrite (so_refs _ _ _ _ Hs i Hi). pose proof (so_ext _ _ _ _ Hs i).
  pose proof (cow_refs_nonneg (pending_cow_copies (mgr s)) i).
  pose proof (req_refs_ge (req_to_blocks (mgr s)) i rid l Hl). unfold owned.
  assert (0 < cnt i l)%Z; [|lia]. apply cnt_pos. by eapply list_elem_of_lookup_2.
Qed.

Lemma redirect_spec n ext fl s rid t :
  st_ok n ext fl s -> base_kind (st_kind (mgr s)) = true -> (demand (mgr s) rid t <= zlen fl)%Z ->
  wp (redirect_partial_hit rid) (fun l s' =>
    exists fl', alloc_step n ext rid t fl s fl' s' /\ partial_hit_reqs (mgr s') !! rid = None /\
      num_cached_block (mgr s') = num_cached_block (mgr s)) s.
Proof.
  intros Hs Hb Hd. unfold redirect_partial_hit, get_mgr. wp_steps.
  destruct (partial_hit_reqs (mgr s) !! rid) as [[idx src]|] eqn:Hp.
  2:{ wp_steps. exists fl. split; [by apply alloc_step_refl|done]. }
  rewrite demand_base, Hp, bool_decide_true in Hd by (done || eauto).
  destruct fl as [|j fl]; [unfold zlen in *; simpl in *; lia|].
  pose proof (blocks_of_partial n _ _ _ _ (so_wf _ _ _ _ Hs) Hp) as Hsrc.
  destruct (partial_ref_held n ext _ s rid idx src Hs Hp) as (i & -> & Hi & Hri & Hidx & Hlt & Hl).
  destruct (claim_for_copy n (pool s) j fl (so_pool _ _ _ _ Hs))
    as (p1 & p2 & H1 & H2 & Hok2 & Hcfg & Hj & Hj0 & Hok1 & Hr1 & Hr2).
  unfold modify_mgr, on_pool. wp_steps. unfold wp at 1. rewrite H1. cbn [head].
  wp_steps. unfold apply_cow. wp_steps. eapply wp_req_blocks_known; [exact Hl|]. wp_steps.
  split; [unfold zlen; lia|]. exists (Blk i).
  split; [by rewrite <- (Z2Nat.id idx), pyget_nonneg by lia|]. wp_steps. split; [by rewrite bool_decide_true|].
  wp_steps. unfold id. simpl. rewrite (fo_null _ _ _ _ (proj2 Hok1)), (bool_decide_false (i = 0)) by lia.
  split; [rewrite Hr1; case_decide; lia|].
  unfold set_req_blocks, modify_mgr, on_pool. wp_steps. apply wp_run. exists tt, p2. split; [exact H2|]. wp_steps.
  exists fl. split; [|split; [simpl; by rewrite lookup_delete_eq|done]].
  eapply (redirected_step n ext rid t idx (Blk i) j fl s _ p2); try done. apply Hj.
Qed.

Lemma stored_lookup s rid :
  let s1 := s <| mgr := with_blocks rid (blocks_of (mgr s) rid) (mgr s) |> in
  req_to_blocks (mgr s1) !! rid = Some (blocks_of (mgr s1) rid) /\
  blocks_of (mgr s1) rid = blocks_of (mgr s) rid.
Proof. simpl. rewrite lookup_insert_eq, blocks_of_with. done. Qed.

Lemma base_allocate_new_spec n ext fl s rid t :
  st_ok n ext fl s -> base_kind (st_kind (mgr s)) = true -> (demand (mgr s) rid t <= zlen fl)%Z ->
  wp (base_allocate_new_blocks rid t) (fun _ s' =>
    exists fl', alloc_step n ext rid t fl s fl' s' /\ demand (mgr s') rid t = 0%Z /\
      partial_hit_reqs (mgr s') !! rid = None /\
      num_cached_block (mgr s') = num_cached_block (mgr s)) s.
Proof.
  intros Hs Hb Hd. unfold base_allocate_new_blocks, get_mgr. wp_steps.
  eapply wp_mono; [by eapply redirect_spec|]. intros cow s1 (fl1 & H1 & Hp1 & Hn1).
  assert (Hb1 : base_kind (st_kind (mgr s1)) = true)
    by (by rewrite (st_config_kind _ _ (fr_config _ _ _ (as_frame _ _ _ _ _ _ _ _ H1)))).
  wp_steps. eapply wp_req_blocks; [apply H1|]. intros s2 -> Hs2.
  pose proof (stored_blocks_step n ext fl1 s1 rid t (as_ok _ _ _ _ _ _ _ _ H1) Hs2) as H2.
  destruct (stored_lookup s1 rid) as [Hl2 Hbo2]. set (s2 := s1 <| mgr := _ |>) in *.
  pose proof (alloc_step_trans _ _ _ _ _ _ _ _ _ _ H1 H2) as H12.
  pose proof (as_len _ _ _ _ _ _ _ _ H12) as Hlen. wp_steps. rewrite <- Hbo2.
  change (st_block_size (mgr s1)) with (st_block_size (mgr s2)).
  assert (Hd2 : demand (mgr s2) rid t =
    Z.max 0 (cdiv t (st_block_size (mgr s2)) - zlen (blocks_of (mgr s2) rid))).
  { rewrite demand_base by done. rewrite bool_decide_false; [lia|]. simpl. rewrite Hp1. by intros []. }
  destruct (Z.leb_spec (cdiv t (st_block_size (mgr s2)) - zlen (blocks_of (mgr s2) rid)) 0).
  - wp_steps. exists fl1. split_and!; [done|etrans; [exact Hd2|lia]|done|done].
  - rewrite wp_bind. eapply (extend_alloc n ext fl1 s2 rid t); [done|done|done|lia|lia|].
    intros fl' s' l H3 Hz Hbo Hp Hn. wp_steps. exists fl'.
    pose proof (alloc_step_trans _ _ _ _ _ _ _ _ _ _ H12 H3) as H13.
    split_and!; [done| |by rewrite Hp|by rewrite Hn].
    assert (Hcfg : st_config (mgr s') = st_config (mgr s2)) by apply H3.
    rewrite demand_base by (by rewrite (st_config_kind _ _ Hcfg)).
    rewrite (st_config_bs _ _ Hcfg), Hbo, bool_decide_false by (rewrite Hp; simpl; rewrite Hp1; by intros []).
    unfold zlen in *. rewrite length_app. lia.
Qed.

(** The one block of a ring. *)
Lemma claim_ring_spec n ext fl s rid t :
  st_ok n ext fl s -> st_kind (mgr s) = CircularBuffer -> (demand (mgr s) rid t <= zlen fl)%Z ->
  wp (claim_ring_block rid) (fun _ s' =>
    exists fl', alloc_step n ext rid t fl s fl' s' /\ demand (mgr s') rid t = 0%Z /\
      partial_hit_reqs (mgr s') = partial_hit_reqs (mgr s) /\
      num_cached_block (mgr s') = num_cached_block (mgr s)) s.
Proof.
  intros Hs Hk Hd. unfold claim_ring_block. wp_steps. eapply wp_req_blocks; [done|]. intros s1 -> Hs1.
  pose proof (stored_blocks_step n ext fl s rid t Hs Hs1) as H1.
  destruct (stored_lookup s rid) as [Hl1 Hbo1]. set (s1 := s <| mgr := _ |>) in *.
  pose proof (as_len _ _ _ _ _ _ _ _ H1) as Hlen.
  assert (Hk1 : st_kind (mgr s1) = CircularBuffer) by done.
  rewrite <- Hbo1. case_bool_decide as Hnil; cbn [negb].
  - assert (Hd1 : demand (mgr s1) rid t = 1%Z) by (unfold demand; by rewrite Hk1, bool_decide_true).
    eapply extend_step; [exact Hs1|exact Hl1|lia|]. intros l1 l2 s' -> Hz Hs' Hn Hc. exists l2.
    assert (Hk' : st_kind (mgr s') = CircularBuffer) by (by destruct Hn as [ids ->]).
    assert (Hd' : demand (mgr s') rid t = 0%Z).
    { unfold demand. rewrite Hk', (noted_blocks _ _ _ Hn), blocks_of_with, Hnil. destruct l1; [done|].
      by rewrite bool_decide_false. }
    split_and!; [|done|by destruct Hn as [ids ->]..]. eapply alloc_step_trans; [exact H1|]. split; try done.
    + eapply st_frame_trans; [apply st_frame_blocks|by apply st_frame_noted].
    + unfold zlen in *. rewrite length_app. lia.
    + set_solver.
  - wp_steps. exists fl. split_and!; [done| |done|done].
    change (demand (mgr s1) rid t = 0%Z). unfold demand. by rewrite Hk1, bool_decide_false.
Qed.

(** [allocate_new_blocks] of every class meets the demand, if the pool can. *)
Lemma allocate_new_spec n ext fl s rid t :
  st_ok n ext fl s -> (demand (mgr s) rid t <= zlen fl)%Z ->
  wp (allocate_new_blocks rid t) (fun _ s' =>
    exists fl', alloc_step n ext rid t fl s fl' s' /\ demand (mgr s') rid t = 0%Z /\
      num_cached_block (mgr s') = num_cached_block (mgr s)) s.
Proof.
  intros Hs Hd. unfold allocate_new_blocks, get_mgr. wp_steps.
  destruct (st_kind (mgr s)) eqn:Hk; cbn [base_kind];
    try (eapply wp_mono; [eapply base_allocate_new_spec; [done|by rewrite Hk|done]|];
         intros ? s' (fl' & ? & ? & _ & ?); by exists fl').
  - wp_steps. eapply wp_req_blocks; [done|]. intros s1 -> Hs1. wp_steps. exists fl.
    split_and!; [by apply stored_blocks_step| |done]. unfold demand. simpl. by rewrite Hk.
  - eapply wp_mono; [by eapply claim_ring_spec|]. intros ? s' (fl' & ? & ? & _ & ?). by exists fl'.
Qed.

(** [allocate_external_computed_blocks] of every class but the worker-owned rings. *)
Lemma allocate_external_spec n ext fl s rid local external t :
  st_ok n ext fl s -> (forall w e, st_kind (mgr s) <> DFlashRing w e) ->
  (local + external <= t)%Z -> (demand (mgr s) rid t <= zlen fl)%Z ->
  wp (allocate_external_computed_blocks rid local external) (fun _ s' =>
    exists fl', alloc_step n ext rid t fl s fl' s' /\
      num_cached_block (mgr s') = num_cached_block (mgr s)) s.
Proof.
  intros Hs Hk' Ht Hd. unfold allocate_external_computed_blocks, get_mgr. wp_steps.
  destruct (st_kind (mgr s)) eqn:Hk; cbn [base_kind];
    try (eapply wp_mono; [eapply (external_spec _ _ _ _ _ _ _ t); [done|by rewrite Hk|done|done]|];
         intros ? s' (fl' & ? & _ & ?); by exists fl').
  - by edestruct Hk'.
  - wp_steps. eapply wp_mono; [by eapply (claim_ring_spec _ _ _ _ _ t)|].
    intros ? s' (fl' & ? & _ & _ & ?). wp_steps. by exists fl'.
  - wp_steps. exists fl. split; [by apply alloc_step_refl|done].
Qed.

(** ** Prefix hits *)

(** Touching the hit blocks takes at most the counted evictable blocks off the free list. *)
Lemma evictable_bound n p fl l :
  free_ok n p fl [] -> (forall i, i ∈ l -> i < n) ->
  (zlen fl - zlen (filter (.∉ l) fl) <= get_num_evictable_blocks p (Blk <$> l))%Z.
Proof.
  intros Hf Hl. pose proof (fo_nodup _ _ _ _ Hf) as Hnd. rewrite app_nil_r in Hnd.
  assert (Hsplit : length fl = length (filter (.∈ l) fl) + length (filter (.∉ l) fl)).
  { clear. induction fl as [|x fl IH]; [done|]. rewrite !filter_cons. repeat case_decide; simpl; try lia; done. }
  assert (Hsub : filter (.∈ l) fl ⊆+ filter (fun i => refs p i = 0%Z /\ i <> 0) l).
  { apply NoDup_submseteq; [by apply NoDup_filter|]. intros i [Hi Hifl]%list_elem_of_filter.
    apply list_elem_of_filter. split; [|done].
    assert (0 < i < n /\ refs p i = 0%Z) by (apply (fo_free _ _ _ _ Hf); by rewrite app_nil_r). lia. }
  apply submseteq_length in Hsub. unfold get_num_evictable_blocks, zlen.
  assert (He : length (filter (fun r => ref_cnt (blk p r) = 0%Z /\ is_null (blk p r) = false) (Blk <$> l)) =
    length (filter (fun i => refs p i = 0%Z /\ i <> 0) l)); [|lia].
  clear Hsub Hsplit. induction l as [|i l IH]; [done|]. csimpl.
  assert (Hn : is_null (blk p (Blk i)) = bool_decide (i = 0)) by (apply (fo_null _ _ _ _ Hf), Hl; set_solver).
  destruct (decide (refs p i = 0%Z /\ i <> 0)) as [Hc|Hc].
  - rewrite (filter_cons_True _ (Blk i)), filter_cons_True by (done || (rewrite Hn, bool_decide_false; naive_solver)).
    simpl. rewrite IH by set_solver. done.
  - rewrite (filter_cons_False _ (Blk i)), filter_cons_False by
      (done || (rewrite Hn; intros [? ?%bool_decide_eq_false_1]; naive_solver)). apply IH. set_solver.
Qed.

(** A lookup result for a hit of [local] tokens: blocks of the pool, and when the hit
    ends inside a block, one (non-null) block per started block. *)
Definition hit_ok (n : nat) (m : STManager) (ncb : list ref) (local : Z) : Prop :=
  blocks_ok n ncb /\ (0 <= local)%Z /\
  (ncb <> [] -> (local mod st_block_size m <> 0)%Z ->
     zlen ncb = cdiv local (st_block_size m) /\ last ncb <> Some (Blk 0)).

(** The number of blocks padded with the null block. *)
Definition skip_blocks (m : STManager) (total : Z) : Z := (get_num_skipped_tokens m total / st_block_size m)%Z.

Definition kept_blocks (m : STManager) (ncb : list ref) (total : Z) : list ref :=
  if (0 <? skip_blocks m total)%Z then drop (Z.to_nat (skip_blocks m total)) ncb else ncb.

Definition padded_blocks (m : STManager) (ncb : list ref) (total : Z) : list ref :=
  replicate (Z.to_nat (skip_blocks m total)) (st_null_block m) ++ kept_blocks m ncb total.

Lemma kept_blocks_drop m ncb total : kept_blocks m ncb total = drop (Z.to_nat (Z.max 0 (skip_blocks m total))) ncb.
Proof.
  unfold kept_blocks. destruct (Z.ltb_spec 0 (skip_blocks m total)) as [Hs|Hs].
  - by rewrite Z.max_r by lia.
  - by rewrite Z.max_l by lia.
Qed.

Lemma padded_length m ncb total :
  zlen (padded_blocks m ncb total) = Z.max (Z.max 0 (skip_blocks m total)) (zlen ncb).
Proof.
  unfold padded_blocks, zlen. rewrite kept_blocks_drop, length_app, length_replicate, length_drop. lia.
Qed.

Lemma last_drop_lt {A} (l : list A) k : k < length l -> last (drop k l) = last l.
Proof. intros Hk. rewrite !last_lookup, length_drop, lookup_drop. f_equal. lia. Qed.

(** A hit that ends inside a block leaves its tail at that block's index. *)
Lemma partial_tail_index n m ncb total local :
  (0 < st_block_size m)%Z -> hit_ok n m ncb local ->
  has_partial_local_hit m (kept_blocks m ncb total) local = true ->
  exists i, last (kept_blocks m ncb total) = Some (Blk i) /\ 0 < i < n /\
    (0 <= local / st_block_size m)%Z /\
    padded_blocks m ncb total !! Z.to_nat (local / st_block_size m) = Some (Blk i).
Proof.
  intros Hbs (Hok & Hl0 & Htail) Hp. unfold has_partial_local_hit in Hp.
  apply andb_true_iff in Hp as [Hlen Hmod%negb_true_iff%Z.eqb_neq]. apply Z.ltb_lt in Hlen.
  set (sk := Z.to_nat (Z.max 0 (skip_blocks m total))).
  assert (Hk : kept_blocks m ncb total = drop sk ncb) by apply kept_blocks_drop.
  rewrite Hk in *. unfold zlen in Hlen. rewrite length_drop in Hlen.
  assert (ncb <> []) as Hne by (intros ->; simpl in *; lia). destruct (Htail Hne Hmod) as [Hcd Hlast].
  rewrite last_drop_lt by lia. destruct (last ncb) as [r|] eqn:Hr; [|by apply last_None in Hr].
  assert (Hin : r ∈ ncb) by (by apply last_Some_elem_of).
  destruct (proj1 (Forall_forall _ _) Hok r Hin) as (i & -> & Hi). exists i.
  assert (i <> 0) by congruence.
  pose proof (Z.div_pos local _ Hl0 Hbs). split_and!; [done|lia|lia|done|].
  assert (Hidx : Z.to_nat (local / st_block_size m) = length ncb - 1).
  { pose proof (Z.div_mod local (st_block_size m) ltac:(lia)). pose proof (Z.mod_pos_bound local _ Hbs).
    assert (cdiv local (st_block_size m) = local / st_block_size m + 1)%Z as He by (apply cdiv_unique; nia).
    unfold zlen in Hcd. lia. }
  unfold padded_blocks. rewrite Hk, Hidx, lookup_app_r by (rewrite length_replicate; lia).
  rewrite length_replicate, lookup_drop. rewrite last_lookup in Hr. rewrite <- Hr. f_equal. lia.
Qed.

Lemma fresh_no_partial n m rid : st_wf n m -> blocks_of m rid = [] -> partial_hit_reqs m !! rid = None.
Proof.
  intros Hw Hb. destruct (partial_hit_reqs m !! rid) as [[idx src]|] eqn:Hp; [|done].
  pose proof (blocks_of_partial n _ _ _ _ Hw Hp) as Hl. by rewrite Hb in Hl.
Qed.

(** What adding a lookup result to a fresh request leaves. *)
Record added (n : nat) (ext : nat -> Z) (rid : string) (ncb : list ref) (local total : Z)
    (fl : list nat) (s : STState) (fl' : list nat) (s' : STState) : Prop := {
  ad_ok : st_ok n ext fl' s';
  ad_frame : st_frame rid (mgr s) (mgr s');
  ad_blocks : blocks_of (mgr s') rid = padded_blocks (mgr s) ncb total;
  ad_cached : is_Some (num_cached_block (mgr s') !! rid);
  ad_partial : is_Some (partial_hit_reqs (mgr s') !! rid) <->
    has_partial_local_hit (mgr s) (kept_blocks (mgr s) ncb total) local = true;
  ad_free : (zlen fl - zlen fl' <= get_num_evictable_blocks (pool s) (kept_blocks (mgr s) ncb total))%Z;
  ad_sub i : i ∈ fl' -> i ∈ fl;
  ad_refs i : (refs (pool s) i <= refs (pool s') i)%Z;
  ad_config : same_config (pool s) (pool s');
}.

(** The manager after the base [add_local_computed_blocks]. *)
Definition added_mgr (rid : string) (ncb : list ref) (local total : Z) (m : STManager) (tail : ref) : STManager :=
  let m' := with_blocks rid (padded_blocks m ncb total) m in
  if has_partial_local_hit m (kept_blocks m ncb total) local then
    m' <| num_cached_block := <[rid := (local / st_block_size m)%Z]> (num_cached_block m) |>
       <| partial_hit_reqs := <[rid := ((local / st_block_size m)%Z, tail)]> (partial_hit_reqs m) |>
  else m' <| num_cached_block := <[rid := zlen (padded_blocks m ncb total)]> (num_cached_block m) |>.

Lemma padded_ok n m ncb total local :
  0 < n -> st_wf n m -> hit_ok n m ncb local -> blocks_ok n (padded_blocks m ncb total).
Proof.
  intros Hn Hw [Hok _]. unfold padded_blocks. rewrite (wf_null _ _ Hw), kept_blocks_drop. apply Forall_app. split.
  - apply Forall_replicate. by exists 0.
  - by apply Forall_drop.
Qed.

Lemma added_mgr_wf n rid ncb local total m tail :
  0 < n -> st_wf n m -> blocks_of m rid = [] -> hit_ok n m ncb local ->
  (has_partial_local_hit m (kept_blocks m ncb total) local = true ->
     last (kept_blocks m ncb total) = Some tail) ->
  st_wf n (added_mgr rid ncb local total m tail).
Proof.
  intros Hn Hw Hb Hhit Htail. pose proof (fresh_no_partial n m rid Hw Hb) as Hnp.
  destruct (st_wf_with_blocks n rid (padded_blocks m ncb total) m Hw) as [W1 W2 W3 W4];
    [by eapply padded_ok|by rewrite Hnp|]. unfold added_mgr.
  destruct (has_partial_local_hit _ _ _) eqn:Hp; [|split; [exact W1|exact W2|exact W3|exact W4]].
  split; [exact W1|exact W2|exact W3|]. simpl. intros rid' idx src.
  destruct (decide (rid = rid')) as [<-|Hne].
  - rewrite lookup_insert_eq. intros [= <- <-].
    destruct (partial_tail_index n m ncb total local (wf_bs _ _ Hw) Hhit Hp) as (i & Hl & Hi & Hidx & Hlook).
    rewrite (Htail eq_refl) in Hl. injection Hl as ->. exists (padded_blocks m ncb total), i.
    rewrite lookup_insert_eq. done.
  - rewrite lookup_insert_ne by done. apply W4.
Qed.

Lemma added_mgr_owned n rid ncb local total m tail i :
  st_wf n m -> blocks_of m rid = [] -> 0 < i ->
  owned (added_mgr rid ncb local total m tail) i = (owned m i + cnt i (kept_blocks m ncb total))%Z.
Proof.
  intros Hw Hb Hi.
  assert (owned (with_blocks rid (padded_blocks m ncb total) m) i =
    (owned m i + cnt i (kept_blocks m ncb total))%Z) as Ho.
  { rewrite owned_with_blocks, Hb, cnt_nil. unfold padded_blocks. rewrite cnt_app, cnt_replicate; [lia|].
    rewrite (wf_null _ _ Hw). intros [= <-]. lia. }
  unfold added_mgr. by destruct (has_partial_local_hit _ _ _).
Qed.

Lemma added_mgr_facts n rid ncb local total m tail :
  st_wf n m -> blocks_of m rid = [] ->
  let m' := added_mgr rid ncb local total m tail in
  st_frame rid m m' /\ blocks_of m' rid = padded_blocks m ncb total /\ is_Some (num_cached_block m' !! rid) /\
  (is_Some (partial_hit_reqs m' !! rid) <-> has_partial_local_hit m (kept_blocks m ncb total) local = true).
Proof.
  intros Hw Hb m'. pose proof (fresh_no_partial n m rid Hw Hb) as Hnp.
  unfold m', added_mgr, blocks_of. destruct (has_partial_local_hit _ _ _); simpl; rewrite !lookup_insert_eq;
    (split_and!; [split; [done|..]; intros rid' Hr; simpl; by rewrite ?lookup_insert_ne by done|done|eauto|]).
  - split; eauto.
  - rewrite Hnp. split; [by intros []|done].
Qed.

(** Touching the hits of a fresh request. *)
Lemma touch_computed_spec n fl s l :
  pool_ok n (pool s) fl -> (forall i, i ∈ l -> i < n) -> (st_enable_caching (mgr s) = true \/ l = []) ->
  wp (touch_computed (Blk <$> l)) (fun _ s' => exists p', s' = s <| pool := p' |> /\
    pool_ok n p' (filter (.∉ l) fl) /\ requeued (fun i => occurs i l) (pool s) p') s.
Proof.
  intros [Hc Hf] Hl Hca. unfold touch_computed, get_mgr, on_pool. wp_steps.
  destruct (st_enable_caching (mgr s)) eqn:Ec.
  - wp_steps. eapply wp_mono; [by apply (touch_spec n l fl)|]. intros [] p' [Hf' Hq]. exists p'.
    split_and!; [done| |done]. split; [|done]. eapply cache_ok_queue_step; [apply Hq|done].
  - destruct Hca as [?| ->]; [done|]. wp_steps. split; [done|]. exists (pool s).
    split; [by destruct s|]. rewrite list_filter_all by set_solver. split; [done|]. split; [done| |done].
    intros i. unfold occurs, zlen. simpl. lia.
Qed.

Lemma base_add_local_spec n ext fl s rid ncb local external :
  st_ok n ext fl s -> blocks_of (mgr s) rid = [] -> hit_ok n (mgr s) ncb local ->
  (st_enable_caching (mgr s) = true \/ ncb = []) ->
  wp (base_add_local_computed_blocks rid ncb local external) (fun _ s' =>
    exists fl', added n ext rid ncb local (local + external) fl s fl' s') s.
Proof.
  intros Hs Hb Hhit Hca. unfold base_add_local_computed_blocks, get_mgr. set (total := (local + external)%Z).
  wp_steps. eapply wp_req_blocks; [exact Hs|]. intros s1 -> Hs1. rewrite Hb in *. wp_steps. unfold id. wp_steps.
  change (get_num_skipped_tokens (with_blocks rid [] (mgr s)) total / st_block_size (mgr s))%Z
    with (skip_blocks (mgr s) total).
  change (if (0 <? skip_blocks (mgr s) total)%Z then drop (Z.to_nat (skip_blocks (mgr s) total)) ncb else ncb)
    with (kept_blocks (mgr s) ncb total).
  change (replicate (Z.to_nat (skip_blocks (mgr s) total)) (st_null_block (mgr s)) ++ kept_blocks (mgr s) ncb total)
    with (padded_blocks (mgr s) ncb total).
  change (has_partial_local_hit (with_blocks rid [] (mgr s))) with (has_partial_local_hit (mgr s)).
  assert (Hkok : blocks_ok n (kept_blocks (mgr s) ncb total)).
  { rewrite kept_blocks_drop. apply Forall_drop, Hhit. }
  destruct (blocks_ok_list _ _ Hkok) as (l & Hl & Hln). rewrite Hl at 1.
  eapply wp_mono; [apply (touch_computed_spec n fl _ l (so_pool _ _ _ _ Hs1) Hln)|].
  { destruct Hca as [Hca| ->]; [by left|right]. rewrite kept_blocks_drop, drop_nil in Hl. by destruct l. }
  intros [] s2 (p' & -> & Hp' & Hq). change (pool (s <| mgr := _ |>)) with (pool s) in Hq.
  unfold set_req_blocks, modify_mgr. wp_steps.
  pose proof (fo_pos _ _ _ _ (proj2 Hp')) as Hn.
  assert (Hpost : forall tail s',
    (has_partial_local_hit (mgr s) (kept_blocks (mgr s) ncb total) local = true ->
      last (kept_blocks (mgr s) ncb total) = Some tail) ->
    mgr s' = added_mgr rid ncb local total (mgr s) tail -> pool s' = p' ->
    added n ext rid ncb local total fl s (filter (.∉ l) fl) s').
  { intros tail s' Htail Hm' Hps'. split.
    - eapply (st_ok_upd _ _ _ _ _ _ (fun i => occurs i l) Hs).
      + by rewrite Hps'.
      + rewrite Hm'. apply added_mgr_wf; [done|apply Hs|done..].
      + intros i _. rewrite Hps'. apply Hq.
      + intros i Hi. rewrite Hm', (added_mgr_owned n _ _ _ _ _ _ _ (so_wf _ _ _ _ Hs) Hb (proj1 Hi)). by rewrite Hl, cnt_blk.
    - rewrite Hm'. apply (added_mgr_facts n); [apply Hs|done].
    - rewrite Hm'. apply (added_mgr_facts n); [apply Hs|done].
    - rewrite Hm'. apply (added_mgr_facts n); [apply Hs|done].
    - rewrite Hm'. apply (added_mgr_facts n); [apply Hs|done].
    - rewrite Hl. apply (evictable_bound n); [apply Hs|done].
    - intros i Hi. by apply list_elem_of_filter in Hi as [_ ?].
    - intros i. rewrite Hps', (rq_ref _ _ _ Hq). pose proof (occurs_nonneg i l). lia.
    - rewrite Hps'. apply Hq. }
  destruct (has_partial_local_hit (mgr s) (kept_blocks (mgr s) ncb total) local) eqn:Hp.
  - destruct (partial_tail_index n (mgr s) ncb total local (wf_bs _ _ (so_wf _ _ _ _ Hs)) Hhit Hp)
      as (i & Hlast & _). rewrite Hlast. wp_steps. eexists. apply (Hpost (Blk i)); [done| |done].
    simpl. unfold added_mgr. rewrite Hp. unfold with_blocks. cbn. by rewrite !insert_insert_eq.
  - wp_steps. eexists. apply (Hpost Head); [done| |done].
    simpl. unfold added_mgr. rewrite Hp. unfold with_blocks. cbn. by rewrite !insert_insert_eq.
Qed.

(** ** The prediction *)

(** A request the pool check treats as continuing: no hits to add, no redirect pending,
    and blocks for all the tokens its window has moved past. *)
Definition continuing (m : STManager) (rid : string) (total : Z) : Prop :=
  partial_hit_reqs m !! rid = None /\
  (is_Some (num_cached_block m !! rid) \/ (skip_blocks m total <= zlen (blocks_of m rid))%Z).

Lemma cap_off (o : option Z) a :
  match o with Some cap => if false then Z.min a cap else a | None => a end = a.
Proof. by destruct o. Qed.

Lemma predicts_continuing m p rid t total local :
  continuing m rid total ->
  get_num_blocks_to_allocate m p rid t [] total local false = Ok (demand m rid t).
Proof.
  intros [Hp Hc]. unfold get_num_blocks_to_allocate.
  assert (Hbase : base_kind (st_kind m) = true ->
    base_num_blocks_to_allocate m p rid t [] total local false = Ok (demand m rid t)).
  { intros Hb. unfold base_num_blocks_to_allocate. rewrite demand_base, Hp by done.
    fold (blocks_of m rid) (skip_blocks m total). rewrite (bool_decide_false (is_Some None)) by (by intros []).
    rewrite cap_off.
    case_bool_decide as Hcb; [simpl; f_equal; lia|]. destruct Hc as [?|Hc]; [done|].
    rewrite drop_nil. unfold get_num_evictable_blocks, has_partial_local_hit, zlen in *. simpl. f_equal. lia. }
  unfold demand in *. destruct (st_kind m) eqn:Hk; try (by apply Hbase); [done|].
  fold (blocks_of m rid). by case_bool_decide.
Qed.

(** Adding the hits and then meeting the rest of the demand takes at most the predicted
    number of blocks. *)
Lemma predicts_added n ext rid ncb local external t fl s fl' s' k :
  base_kind (st_kind (mgr s)) = true -> blocks_of (mgr s) rid = [] ->
  num_cached_block (mgr s) !! rid = None ->
  base_num_blocks_to_allocate (mgr s) (pool s) rid t ncb (local + external) local false = Ok k ->
  added n ext rid ncb local (local + external) fl s fl' s' ->
  (demand (mgr s') rid t + (zlen fl - zlen fl') <= k)%Z.
Proof.
  intros Hb Hbo Hnc Hk Ha. unfold base_num_blocks_to_allocate in Hk.
  fold (blocks_of (mgr s) rid) (skip_blocks (mgr s) (local + external)) in Hk.
  rewrite Hnc, Hbo, (bool_decide_false (is_Some None)) in Hk by (by intros []).
  rewrite cap_off in Hk.
  pose proof (fr_config _ _ _ (ad_frame _ _ _ _ _ _ _ _ _ _ Ha)) as Hcfg.
  rewrite demand_base by (by rewrite (st_config_kind _ _ Hcfg)).
  rewrite (st_config_bs _ _ Hcfg), (ad_blocks _ _ _ _ _ _ _ _ _ _ Ha), padded_length.
  pose proof (ad_free _ _ _ _ _ _ _ _ _ _ Ha) as Hfree. rewrite kept_blocks_drop in Hfree.
  change (zlen []) with 0%Z in Hk. rewrite Z.sub_0_r, Z.add_0_r in Hk.
  pose proof (ad_partial _ _ _ _ _ _ _ _ _ _ Ha) as Hpart.
  assert (Hmono : has_partial_local_hit (mgr s) (kept_blocks (mgr s) ncb (local + external)) local = true ->
    has_partial_local_hit (mgr s) ncb local = true).
  { unfold has_partial_local_hit. rewrite kept_blocks_drop, !andb_true_iff. intros [Hl Hm]. split; [|done].
    unfold zlen in *. rewrite length_drop in Hl. lia. }
  injection Hk as <-. case_bool_decide as Hs.
  - apply Hpart, Hmono in Hs. rewrite Hs. lia.
  - destruct (has_partial_local_hit _ ncb local); lia.
Qed.
