(* ===== verification/SingleTypeFree.v ===== *)
(** Release and caching by one manager: [free], [remove_skipped_blocks] and
    [cache_blocks] keep every reference accounted for. *)
From S2P Require Import Prelude KVBlock FreeQueue Request BlockHash BlockPool BlockPoolInv BlockPoolSpec BlockPoolCache BlockPoolThms CacheHit SingleType SingleTypeInv SingleTypeAlloc.

(** ** Returning blocks to the pool *)

(** Dropping the references [l], all of which the manager accounts for. *)
Lemma free_spec n fl p l :
  pool_ok n p fl -> (forall i, i ∈ l -> i < n) -> (forall i, 0 < i < n -> (occurs i l <= refs p i)%Z) ->
  wp (free_blocks (Blk <$> l)) (fun _ p' =>
    pool_ok n p' (freed_order p l fl) /\ requeued (fun i => - occurs i l)%Z p p') p.
Proof.
  intros [Hc Hf] Hl Hocc. eapply wp_mono; [apply (free_blocks_spec n l fl p Hf Hl)|].
  - intros i Hi Hi0. apply Hocc. split; [lia|auto].
  - intros [] p' [Hf' Hq]. split; [|done]. split; [eapply cache_ok_queue_step; [apply Hq|done]|done].
Qed.

Lemma owned_ge m rid i : (cnt i (blocks_of m rid) <= owned m i)%Z.
Proof.
  unfold owned, blocks_of. pose proof (cow_refs_nonneg (pending_cow_copies m) i).
  destruct (req_to_blocks m !! rid) as [l|] eqn:E; simpl.
  - pose proof (req_refs_ge _ i _ _ E). lia.
  - rewrite cnt_nil. pose proof (req_refs_set (req_to_blocks m) i rid []) as Hs. rewrite E in Hs. simpl in Hs.
    pose proof (req_refs_ge (<[rid := []]> (req_to_blocks m)) i rid []) as Hge.
    rewrite lookup_insert_eq in Hge. specialize (Hge eq_refl). rewrite !cnt_nil in *. lia.
Qed.

(** The manager without the request. *)
Definition without (rid : string) (m : STManager) : STManager :=
  m <| req_to_blocks := delete rid (req_to_blocks m) |>
    <| num_cached_block := delete rid (num_cached_block m) |>
    <| partial_hit_reqs := delete rid (partial_hit_reqs m) |>.

Lemma without_wf n rid m : st_wf n m -> st_wf n (without rid m).
Proof.
  intros [Hn Hb Hbl Hp]. split; simpl; [done|done| |].
  - intros rid' l. destruct (decide (rid = rid')) as [->|Hne]; [by rewrite lookup_delete_eq|].
    rewrite lookup_delete_ne by done. apply Hbl.
  - intros rid' idx src. destruct (decide (rid = rid')) as [->|Hne]; [by rewrite lookup_delete_eq|].
    rewrite !lookup_delete_ne by done. apply Hp.
Qed.

Lemma without_owned rid m i : owned (without rid m) i = (owned m i - cnt i (blocks_of m rid))%Z.
Proof. unfold owned, without, blocks_of. simpl. rewrite req_refs_delete. lia. Qed.

Lemma st_free_spec n ext fl s rid :
  st_ok n ext fl s ->
  wp (st_free rid) (fun _ s' => mgr s' = without rid (mgr s) /\
    exists l, blocks_of (mgr s) rid = Blk <$> l /\
      st_ok n ext (freed_order (pool s) (reverse l) fl) s' /\
      requeued (fun i => - occurs i l)%Z (pool s) (pool s')) s.
Proof.
  intros Hs. unfold st_free, pop_blocks_for_free, get_mgr, modify_mgr, on_pool. wp_steps.
  fold (blocks_of (mgr s) rid). destruct (blocks_ok_list _ _ (blocks_of_ok n _ rid (so_wf _ _ _ _ Hs))) as (l & Hl & Hln).
  rewrite Hl, <- fmap_reverse.
  assert (Hrev : forall i, occurs i (reverse l) = occurs i l).
  { intros i. unfold occurs, zlen. by rewrite (reverse_Permutation l). }
  eapply wp_mono; [apply (free_spec n fl (pool s) (reverse l) (so_pool _ _ _ _ Hs))|].
  - intros i Hi. apply Hln. by apply elem_of_reverse.
  - intros i Hi. rewrite Hrev, (so_refs _ _ _ _ Hs i Hi), <- cnt_blk, <- Hl.
    pose proof (owned_ge (mgr s) rid i). pose proof (so_ext _ _ _ _ Hs i). lia.
  - intros [] p' [Hp' Hq]. split; [done|]. exists l. split_and!; [done| |].
    + eapply (st_ok_upd _ _ _ _ _ _ (fun i => - occurs i l)%Z Hs); [exact Hp'| | |].
      * apply (without_wf n rid), Hs.
      * intros i _. simpl. by rewrite (rq_ref _ _ _ Hq), Hrev.
      * intros i _. simpl. change (owned (without rid (mgr s)) i = (owned (mgr s) i - occurs i l)%Z).
        by rewrite without_owned, Hl, cnt_blk.
    + destruct Hq as [Hst Hr He]. split; [done| |done]. intros i. by rewrite Hr, Hrev.
Qed.

(** ** Skipped blocks *)

(** The backward loop frees a run of blocks and puts the null block in their place. *)
Lemma null_range_spec null idxs freed blocks freed' blocks' :
  NoDup idxs -> (forall i, i ∈ idxs -> (0 <= i < zlen blocks)%Z) ->
  null_range null idxs freed blocks = (freed', blocks') ->
  exists fr, freed' = freed ++ fr /\ length blocks' = length blocks /\ (null ∉ fr) /\
    (forall r, r ∈ fr -> r ∈ blocks) /\
    (forall i, Blk i <> null -> (cnt i blocks' + cnt i fr = cnt i blocks)%Z) /\
    (forall j b, blocks !! j = Some b ->
       blocks' !! j = Some b \/ (blocks' !! j = Some null /\ b <> null /\ Z.of_nat j ∈ idxs)).
Proof.
  revert freed blocks. induction idxs as [|i idxs IH]; intros freed blocks Hnd Hin Hrun.
  { injection Hrun as <- <-. exists []. rewrite app_nil_r. split_and!; [done|done|apply not_elem_of_nil|set_solver| |by left].
    intros i _. rewrite cnt_nil. lia. }
  apply NoDup_cons in Hnd as [Hi Hnd]. simpl in Hrun.
  assert (Hir : (0 <= i < zlen blocks)%Z) by (apply Hin; set_solver).
  destruct (blocks !! Z.to_nat i) as [b|] eqn:Eb.
  2:{ apply lookup_ge_None in Eb. unfold zlen in Hir. lia. }
  case_bool_decide as Hbn.
  { injection Hrun as <- <-. exists []. rewrite app_nil_r. split_and!; [done|done|apply not_elem_of_nil|set_solver| |by left].
    intros j _. rewrite cnt_nil. lia. }
  destruct (IH (freed ++ [b]) (<[Z.to_nat i := null]> blocks)) as (fr & -> & Hlen & Hnull & Hsub & Hcnt & Hlook);
    [done| |done|].
  { intros j Hj. unfold zlen. rewrite length_insert. apply Hin. set_solver. }
  exists (b :: fr). rewrite length_insert in Hlen. split_and!; [by rewrite <- app_assoc|done|set_solver| | |].
  - intros r [->|Hr]%elem_of_cons; [by eapply list_elem_of_lookup_2|].
    destruct (list_elem_of_lookup_1 _ _ (Hsub r Hr)) as [j Hj].
    destruct (decide (j = Z.to_nat i)) as [->|Hji].
    + rewrite list_lookup_insert_eq in Hj by (unfold zlen in Hir; lia). injection Hj as <-. done.
    + rewrite list_lookup_insert_ne in Hj by done. by eapply list_elem_of_lookup_2.
  - intros j Hj. specialize (Hcnt j Hj). rewrite (cnt_insert _ _ _ _ _ Eb) in Hcnt. rewrite cnt_cons.
    rewrite (decide_False (P := null = Blk j)) in Hcnt by congruence. lia.
  - intros j b' Hj. destruct (decide (j = Z.to_nat i)) as [->|Hji].
    + rewrite Eb in Hj. injection Hj as <-. right.
      destruct (Hlook (Z.to_nat i) null) as [Hl|[Hl [? _]]]; [|split_and!; [done|done|]|done].
      * rewrite list_lookup_insert_eq by (unfold zlen in Hir; lia). done.
      * rewrite Z2Nat.id by lia. set_solver.
    + destruct (Hlook j b') as [Hl|(Hl & Hb' & Hin')]; [by rewrite list_lookup_insert_ne|by left|right].
      split_and!; [done|done|set_solver].
Qed.

(** What removing blocks of [rid] in [[first, last)] leaves. *)
Record trimmed (n : nat) (ext : nat -> Z) (rid : string) (first_block last_block : Z) (fl : list nat)
    (s : STState) (fl' : list nat) (s' : STState) : Prop := {
  tr_ok : st_ok n ext fl' s';
  tr_frame : st_frame rid (mgr s) (mgr s');
  tr_cached : num_cached_block (mgr s') = num_cached_block (mgr s);
  tr_partial : partial_hit_reqs (mgr s') = partial_hit_reqs (mgr s);
  tr_len : length (blocks_of (mgr s') rid) = length (blocks_of (mgr s) rid);
  tr_lookup j b : blocks_of (mgr s) rid !! j = Some b ->
    blocks_of (mgr s') rid !! j = Some b \/
    (blocks_of (mgr s') rid !! j = Some (Blk 0) /\ (first_block <= Z.of_nat j < last_block)%Z);
  tr_refs i : (refs (pool s') i <= refs (pool s) i)%Z;
  tr_free i : i ∈ fl -> i ∈ fl';
  tr_config : same_config (pool s) (pool s');
}.

Lemma trimmed_refl n ext rid a b fl s : st_ok n ext fl s -> trimmed n ext rid a b fl s fl s.
Proof. intros Hs. split; try done. by left. Qed.

Lemma freed_order_sub p l fl i : i ∈ fl -> i ∈ freed_order p l fl.
Proof. intros Hi. unfold freed_order. set_solver. Qed.

Lemma remove_range_spec n ext fl s rid a b :
  st_ok n ext fl s -> partial_hit_reqs (mgr s) !! rid = None -> (0 <= a)%Z ->
  wp (remove_blocks_in_range rid a b) (fun _ s' => exists fl', trimmed n ext rid a b fl s fl' s') s.
Proof.
  intros Hs Hp Ha. unfold remove_blocks_in_range, get_mgr. wp_steps. unfold id.
  destruct (req_to_blocks (mgr s) !! rid) as [blocks|] eqn:Hr; [|wp_steps; exists fl; by apply trimmed_refl].
  destruct (Z.leb_spec b a); [wp_steps; exists fl; by apply trimmed_refl|].
  assert (Hbo : blocks_of (mgr s) rid = blocks) by (unfold blocks_of; by rewrite Hr).
  destruct (null_range _ _ _ _) as [freed blocks'] eqn:En.
  eapply null_range_spec in En as (fr & -> & Hlen & Hnull & Hsub & Hcnt & Hlook).
  2:{ unfold zrange_down. rewrite (reverse_Permutation (zrange _ _)). unfold zrange.
      apply NoDup_fmap_2; [intros x y; lia|apply NoDup_seq]. }
  2:{ intros i Hi. unfold zrange_down in Hi. rewrite elem_of_reverse, elem_of_zrange in Hi. lia. }
  rewrite (wf_null _ _ (so_wf _ _ _ _ Hs)) in *. rewrite app_nil_l.
  assert (Hbok : blocks_ok n blocks) by (by eapply Hs).
  assert (Hfok : blocks_ok n fr).
  { apply Forall_forall. intros r Hrf. by apply (proj1 (Forall_forall _ _) Hbok), Hsub. }
  destruct (blocks_ok_list _ _ Hfok) as (l & Hl & Hln).
  assert (Hbok' : blocks_ok n blocks').
  { apply Forall_lookup. intros j r Hj. destruct (lookup_lt_is_Some_2 blocks j) as [r0 Hr0].
    { rewrite <- Hlen. by eapply lookup_lt_Some. }
    destruct (Hlook j r0 Hr0) as [He|(He & _ & _)]; rewrite He in Hj; injection Hj as <-.
    - by eapply (Forall_lookup_1 _ _ _ _ Hbok).
    - exists 0. split; [done|]. apply (fo_pos _ _ _ _ (proj2 (so_pool _ _ _ _ Hs))). }
  unfold set_req_blocks, modify_mgr. wp_steps.
  change (mgr s <| req_to_blocks := <[rid:=blocks']> (req_to_blocks (mgr s)) |>) with (with_blocks rid blocks' (mgr s)).
  assert (Hdone : forall p' fl', pool_ok n p' fl' -> requeued (fun i => - occurs i l)%Z (pool s) p' ->
    (forall i, i ∈ fl -> i ∈ fl') ->
    trimmed n ext rid a b fl s fl' (s <| mgr := with_blocks rid blocks' (mgr s) |> <| pool := p' |>)).
  { intros p' fl' Hp' Hq Hfl. split; simpl; [|apply st_frame_blocks|done|done| | | |done|apply Hq].
    - eapply (st_ok_upd _ _ _ _ _ _ (fun i => - occurs i l)%Z Hs); [exact Hp'| |intros i _; apply Hq|].
      + apply st_wf_with_blocks; [apply Hs|done|by rewrite Hp].
      + intros i Hi. simpl. rewrite owned_with_blocks, Hbo.
        assert (Blk i <> Blk 0) as Hi0 by (intros [=]; lia). specialize (Hcnt i Hi0).
        rewrite Hl, cnt_blk in Hcnt. lia.
    - by rewrite blocks_of_with, Hbo.
    - intros j r Hj. rewrite Hbo in Hj. rewrite blocks_of_with.
      destruct (Hlook j r Hj) as [He|(He & _ & Hj')]; [by left|right]. split; [done|].
      unfold zrange_down in Hj'. rewrite elem_of_reverse, elem_of_zrange in Hj'. lia.
    - intros i. rewrite (rq_ref _ _ _ Hq). pose proof (occurs_nonneg i l). lia. }
  unfold mwhen. case_bool_decide as Hfr; cbn [negb].
  - wp_steps. exists fl. replace (s <| mgr := with_blocks rid blocks' (mgr s) |>) with
      (s <| mgr := with_blocks rid blocks' (mgr s) |> <| pool := pool s |>) by (by destruct s).
    apply Hdone; [apply Hs| |done]. assert (l = []) as -> by (rewrite Hl in Hfr; by destruct l).
    split; [done| |done]. intros i. unfold occurs, zlen. simpl. lia.
  - unfold on_pool. wp_steps. rewrite Hl. eapply wp_mono; [apply (free_spec n fl (pool s) l (so_pool _ _ _ _ Hs) Hln)|].
    + intros i Hi. rewrite (so_refs _ _ _ _ Hs i Hi), <- cnt_blk, <- Hl.
      pose proof (owned_ge (mgr s) rid i) as Hge. rewrite Hbo in Hge. pose proof (so_ext _ _ _ _ Hs i).
      assert (Blk i <> Blk 0) as Hi0 by (intros [=]; lia). specialize (Hcnt i Hi0).
      pose proof (cnt_nonneg i blocks'). lia.
    + intros [] p' [Hp' Hq]. eexists. apply Hdone; [exact Hp'|done|]. intros i. apply freed_order_sub.
Qed.

(** The blocks of [rid] that [remove_skipped_blocks] may drop: an interval that only
    holds tokens no later token attends to. *)
Definition skip_range (m : STManager) (P : Z) (num_prompt : option Z) : Z * Z :=
  match st_kind m, num_prompt with
  | RSWA window, Some np =>
      (cdiv np (st_block_size m), Z.max np (P - window) / st_block_size m)%Z
  | _, _ => (0, skip_blocks m P)%Z
  end.

Lemma trimmed_weaken n ext rid a b b' fl s fl' s' :
  (b <= b')%Z -> trimmed n ext rid a b fl s fl' s' -> trimmed n ext rid a b' fl s fl' s'.
Proof.
  intros Hb [? ? ? ? ? Hl ? ? ?]. split; try done. intros j r Hj.
  destruct (Hl j r Hj) as [?|[? ?]]; [by left|right; split; [done|lia]].
Qed.

Lemma base_remove_spec n ext fl s rid P :
  st_ok n ext fl s -> partial_hit_reqs (mgr s) !! rid = None ->
  wp (base_remove_skipped_blocks rid P) (fun _ s' =>
    exists fl', trimmed n ext rid 0 (skip_blocks (mgr s) P) fl s fl' s') s.
Proof.
  intros Hs Hp. unfold base_remove_skipped_blocks, get_mgr. wp_steps. unfold id.
  destruct (_ <=? 0)%Z; [wp_steps; exists fl; by apply trimmed_refl|]. wp_steps.
  eapply wp_req_blocks; [exact Hs|]. intros s1 -> Hs1. fold (skip_blocks (mgr s) P).
  eapply wp_mono; [apply (remove_range_spec n ext fl _ rid 0 _ Hs1); [done|lia]|].
  intros [] s' (fl' & Htr). exists fl'. apply (trimmed_weaken _ _ _ _ _ (skip_blocks (mgr s) P)) in Htr; [|lia].
  destruct Htr as [H1 H2 H3 H4 H5 H6 H7 H8 H9]. simpl in *. rewrite blocks_of_with in H5.
  split; [done|by eapply st_frame_trans; [apply st_frame_blocks|]|done|done|done| |done|done|done].
  intros j r Hj. apply H6. by rewrite blocks_of_with.
Qed.

Lemma remove_skipped_spec n ext fl s rid P np :
  st_ok n ext fl s -> partial_hit_reqs (mgr s) !! rid = None ->
  (forall x, np = Some x -> (0 <= x)%Z) ->
  wp (remove_skipped_blocks rid P np) (fun _ s' => exists fl',
    trimmed n ext rid (skip_range (mgr s) P np).1 (skip_range (mgr s) P np).2 fl s fl' s') s.
Proof.
  intros Hs Hp Hnp. unfold remove_skipped_blocks, skip_range, get_mgr. wp_steps. unfold id.
  destruct (st_kind (mgr s)) eqn:Hk; try (by apply base_remove_spec);
    try (wp_steps; exists fl; by apply trimmed_refl).
  destruct np as [np|]; [|by apply base_remove_spec].
  apply remove_range_spec; [done|done|]. pose proof (wf_bs _ _ (so_wf _ _ _ _ Hs)) as Hbs.
  apply cdiv_nonneg; [done|by apply Hnp].
Qed.

(** ** Caching *)

(** What caching the blocks of [rid] leaves, even when it raises. *)
Record cached_step (n : nat) (ext : nat -> Z) (rid : string) (fl : list nat) (s s' : STState) : Prop := {
  ca_ok : st_ok n ext fl s';
  ca_frame : st_frame rid (mgr s) (mgr s');
  ca_blocks : blocks_of (mgr s') rid = blocks_of (mgr s) rid;
  ca_partial : partial_hit_reqs (mgr s') = partial_hit_reqs (mgr s);
  ca_pool : cache_step (pool s) (pool s');
}.

(** *** A caching call returns the same request *)

(** Only the memo of embedding hashes may have grown. *)
Definition same_request (r r' : Request) : Prop :=
  r' = r <| prompt_embeds_per_block_hashes := prompt_embeds_per_block_hashes r' |>.

Lemma same_request_refl r : same_request r r.
Proof. by destruct r. Qed.

Lemma same_request_trans r1 r2 r3 : same_request r1 r2 -> same_request r2 r3 -> same_request r1 r3.
Proof. unfold same_request. intros H1 H2. rewrite H2. rewrite H1 at 1. done. Qed.

Lemma same_request_id r r' : same_request r r' -> request_id r' = request_id r.
Proof. intros ->. done. Qed.
#[export] Hint Resolve same_request_refl : core.

Lemma extra_keys_id sha256 a b i r : same_request r (generate_block_hash_extra_keys sha256 a b i r).2.
Proof.
  unfold generate_block_hash_extra_keys, gen_prompt_embeds_extra_hash_keys, mbind, M_bind. simpl.
  destruct (gen_mm_extra_hash_keys _ _ _ _) as [[mk ni]|e]; [|done]. simpl.
  destruct (prompt_embeds r) as [rows|]; simpl; [|done].
  destruct (prompt_embeds_per_block_hashes r !! (a, b)); done.
Qed.

Lemma request_extra_keys_id sha256 r a b i p :
  wpe (request_extra_keys sha256 r a b i) (fun x _ => same_request r x.2) (fun _ => True) p.
Proof.
  unfold request_extra_keys. pose proof (extra_keys_id sha256 a b i r) as Hid.
  destruct (generate_block_hash_extra_keys sha256 a b i r) as [o r']. simpl in Hid.
  destruct o as [[ks idx]|e]; [|done]. done.
Qed.

Lemma cache_full_blocks_id sha256 r bl nc nf bs gid mask p :
  wpe (cache_full_blocks sha256 r bl nc nf bs gid mask) (fun r' _ => same_request r r') (fun _ => True) p.
Proof.
  unfold cache_full_blocks. destruct (_ <=? _)%Z; [apply same_request_refl|]. apply wpe_skip. intros _ s1. apply wpe_skip. intros q s2.
  apply wpe_skip. intros hs s3. apply wpe_skip. intros nbh s4. apply wpe_skip. intros nh s5.
  destruct (enable_kv_cache_events q); [|apply same_request_refl]. apply wpe_skip. intros parent s6. rewrite wpe_bind.
  assert (Hfold : forall l acc s, same_request r acc.2 ->
    wpe (mfold (extra_keys_body sha256 bl nc bs mask) acc l) (fun x _ => same_request r x.2) (fun _ => True) s).
  { induction l as [|i l IH]; intros acc s Hacc; [done|]. simpl. rewrite wpe_bind.
    eapply wpe_mono; [|intros acc' s' Hacc'; apply IH, Hacc'|done].
    destruct acc as [[keys idx] rq]. unfold extra_keys_body. apply wpe_skip. intros b s'. apply wpe_skip. intros blk' s''.
    destruct (_ || _); [done|]. rewrite wpe_bind.
    eapply wpe_mono; [apply request_extra_keys_id| |done]. intros [[ks idx'] rq'] s3' Hid. simpl in *.
    unfold wpe. simpl. by eapply same_request_trans. }
  eapply wpe_mono; [apply Hfold, same_request_refl| |done]. intros [[keys idx] rq] s' Hid. apply wpe_skip. intros _ s''. done.
Qed.

Lemma cache_partial_block_id sha256 r b t gid bs rep p :
  wpe (cache_partial_block sha256 r b t gid bs rep) (fun x _ => same_request r x.2) (fun _ => True) p.
Proof.
  unfold cache_partial_block. apply wpe_skip. intros blk' s1. destruct (is_null blk'); [apply same_request_refl|].
  apply wpe_skip. intros q s2. do 2 (apply wpe_skip; intros [] ?). apply wpe_skip. intros h s3. apply wpe_skip.
  intros k s4. apply wpe_skip. intros already s5. apply wpe_skip. intros [] s6. rewrite wpe_bind.
  destruct (_ && _); [|apply same_request_refl]. unfold emit_partial_stored. apply wpe_skip. intros q' s7. apply wpe_skip.
  intros [parent start] s8. rewrite wpe_bind.
  eapply wpe_mono; [apply request_extra_keys_id| |done]. intros [[ks idx] r'] s9 Hid. apply wpe_skip. intros [] s10. done.
Qed.

Section caching.
Context (sha256 : bytes -> bytes) (n : nat) (ext : nat -> Z) (rid : string) (fl : list nat) (s0 : STState).
Abbreviation C := (cached_step n ext rid fl s0).

Lemma cached_pool s p' : C s -> kept n (pool s) p' -> C (s <| pool := p' |>).
Proof using.
  intros [Hs Hf Hb Hp Hc] HK. split; simpl; [|done|done|done|by etrans; [|apply HK]].
  eapply (st_ok_upd _ _ _ _ _ _ (fun _ => 0%Z) Hs); simpl.
  - by eapply kept_pool_ok; [apply Hs|].
  - apply Hs.
  - intros i _. rewrite (cs_ref _ _ (proj2 HK)). lia.
  - intros i _. lia.
Qed.

Lemma cached_count s c : C s -> C (s <| mgr := mgr s <| num_cached_block := <[rid := c]> (num_cached_block (mgr s)) |> |>).
Proof using.
  intros [Hs Hf Hb Hp Hc]. split; simpl; [by eapply st_ok_same| |done|done|done].
  eapply st_frame_trans; [exact Hf|]. split; [done|done| |done]. intros rid' Hr. simpl. by rewrite lookup_insert_ne.
Qed.

Lemma wpe_cached_blocks s (Q : list ref -> STState -> Prop) :
  C s -> (forall s', C s' -> pool s' = pool s -> Q (blocks_of (mgr s0) rid) s') -> wpe (req_blocks rid) Q C s.
Proof using.
  intros [Hs Hf Hb Hp Hc] HQ. apply wpe_wp. eapply wp_req_blocks; [exact Hs|]. intros s' -> Hs'. rewrite Hb in *.
  apply HQ; [|done]. split; simpl; [done| |by rewrite blocks_of_with|done|done].
  eapply st_frame_trans; [exact Hf|apply st_frame_blocks].
Qed.

Lemma base_cache_keeps r t ret rb s :
  request_id r = rid -> C s -> wpe (base_cache_blocks sha256 r t ret rb) (fun r' s' => request_id r' = rid /\ C s') C s.
Proof using.
  intros Hrid HC. unfold base_cache_blocks, get_mgr, modify_mgr. rewrite wpe_bind, wpe_gets. unfold id.
  destruct (negb _); [done|]. destruct (_ <=? _)%Z; [done|]. rewrite wpe_bind.
  unfold lift_outcome. destruct (reachable_block_mask _ _ _ _ _) as [mask|e]; [|exact HC].
  rewrite wpe_ret, wpe_bind, Hrid. apply wpe_cached_blocks; [done|]. intros s1 HC1 Hps1.
  destruct (blocks_ok_list n (blocks_of (mgr s0) rid)) as (l & -> & Hln).
  { rewrite <- (ca_blocks _ _ _ _ _ _ HC1). apply blocks_of_ok, HC1. }
  unfold on_pool. rewrite wpe_bind, wpe_zoom.
  destruct (so_pool _ _ _ _ (ca_ok _ _ _ _ _ _ HC1)) as [Hc1 Hf1].
  eapply wpe_mono; [eapply wpe_both; [apply (kept_cache_full_blocks sha256 n (pool s1) fl Hf1); [done|by apply kept_refl]
    |apply cache_full_blocks_id]| |].
  - intros r' p' [HK Hid]. rewrite wpe_bind, wpe_modify, wpe_ret. split; [apply same_request_id in Hid; congruence|]. simpl.
    exact (cached_count (s1 <| pool := p' |>) _ (cached_pool _ _ HC1 HK)).
  - intros p' HK. by apply cached_pool.
Qed.

Lemma partial_tail_keeps r t s :
  request_id r = rid -> C s -> wpe (cache_partial_tail_block sha256 r t) (fun r' s' => request_id r' = rid /\ C s') C s.
Proof using.
  intros Hrid HC. unfold cache_partial_tail_block. rewrite wpe_bind, wpe_gets. unfold id.
  destruct (_ || _); [done|]. destruct (_ =? 0)%Z; [done|]. rewrite wpe_bind, Hrid.
  apply wpe_cached_blocks; [done|]. intros s1 HC1 Hps1. destruct (_ <=? _)%Z; [done|]. rewrite wpe_bind.
  apply wpe_of_option; [done|]. intros b Hb.
  assert (Hbo : blocks_ok n (blocks_of (mgr s0) rid)).
  { rewrite <- (ca_blocks _ _ _ _ _ _ HC1). apply blocks_of_ok, HC1. }
  assert (exists i, b = Blk i /\ i < n) as (i & -> & Hi).
  { unfold pyget in Hb. case_match; [done|]. by eapply (Forall_lookup_1 _ _ _ _ Hbo). }
  unfold on_pool. rewrite wpe_bind, wpe_zoom.
  destruct (so_pool _ _ _ _ (ca_ok _ _ _ _ _ _ HC1)) as [Hc1 Hf1].
  eapply wpe_mono; [eapply wpe_both; [apply (kept_cache_partial_block sha256 n (pool s1) fl Hf1); [done|by apply kept_refl]
    |apply cache_partial_block_id]| |].
  - intros [o r'] p' [HK Hid]. rewrite wpe_ret. split; [apply same_request_id in Hid; simpl in Hid; congruence|].
    by apply cached_pool.
  - intros p' HK. by apply cached_pool.
Qed.

Lemma cache_blocks_keeps r t ret rb s :
  request_id r = rid -> C s -> wpe (cache_blocks sha256 r t ret rb) (fun r' s' => request_id r' = rid /\ C s') C s.
Proof using.
  intros Hrid HC. unfold cache_blocks, get_mgr. rewrite wpe_bind, wpe_gets.
  assert (Hbase : wpe (base_cache_blocks sha256 r t ret rb) (fun r' s' => request_id r' = rid /\ C s') C s).
  { by apply base_cache_keeps. }
  assert (Hfull : wpe (request ← base_cache_blocks sha256 r t ret rb; s1 ← gets id;
      if (st_block_size (mgr s1) =? hash_block_size (pool s1))%Z then mret request
      else cache_partial_tail_block sha256 request t) (fun r' s' => request_id r' = rid /\ C s') C s).
  { rewrite wpe_bind. eapply wpe_mono; [by apply base_cache_keeps| |done]. intros r' s1 [Hid HC1].
    rewrite wpe_bind, wpe_gets. destruct (_ =? _)%Z; [done|]. by apply partial_tail_keeps. }
  destruct (st_kind (mgr s)); try done; by apply wpe_raise.
Qed.
End caching.
