(* ===== verification/KVCoordinator.v ===== *)
(** The coordinator of the KV-cache groups (vllm/v1/core/kv_cache_coordinator.py): one
    single-type manager per group over one shared block pool, and the prefix-cache
    lookup that reconciles the groups.  The three coordinator classes are the cases of
    [coordinator_kind]. *)
From S2P Require Import Prelude KVBlock FreeQueue Request BlockHash BlockPool CacheHit SingleType.

(** ** Configuration *)

(** [KVCacheSpec] of one group: its class with the attributes the managers read, and
    [spec_layout], which stands for the attributes that are only compared. *)
Record KVCacheSpec := {
  spec_kind : manager_kind;
  kvs_block_size : Z;
  spec_prefix_cacheable : bool;
  spec_zeroed : bool;
  spec_kpool_tail : bool;
  spec_layout : Z;
}.

#[export] Instance manager_kind_eq_dec : EqDecision manager_kind.
Proof. solve_decision. Defined.
#[export] Instance KVCacheSpec_eq_dec : EqDecision KVCacheSpec.
Proof. solve_decision. Defined.

Record KVCacheGroupSpec := { group_spec : KVCacheSpec; is_eagle_group : bool }.

Record KVCacheConfig := {
  num_blocks : nat;
  kv_cache_groups : list KVCacheGroupSpec;
  prefix_cache_retention_interval : option Z;
  needs_kv_cache_zeroing : bool;
}.

(** [isinstance(spec, FullAttentionSpec)] *)
Definition is_full (k : manager_kind) : bool :=
  match k with FullAttention | RSWA _ => true | _ => false end.

(** [manager_cls.supports_fine_grained_hash_lookup] *)
Definition supports_fine_grained (k : manager_kind) : bool := is_full k.

(** [SpecGroup] *)
Record SpecGroup := {
  sg_spec : KVCacheSpec;
  group_ids : list nat;
  sg_use_eagle : bool;
}.

Inductive coordinator_kind :=
  | NoPrefixCache
  | Unitary
  | Hybrid (enable_partial_hash_hits : bool) (attention_groups : list SpecGroup).

Record KVCache := {
  coord : coordinator_kind;
  managers : list STManager;
  kv_pool : BlockPool;
  scheduler_block_size : Z;
  num_reprefillable_tokens : Z;
  draft_replay_reserve : Z;
  use_eagle_block_drop : bool;
  eagle_group_ids : gset nat;
  retention_interval : option Z;
  max_model_len : Z;
  kv_enable_caching : bool;
  watermark_blocks : Z;
}.

#[export] Instance KVCache_eta : Eta KVCache := fun c =>
  Build_KVCache (coord c) (managers c) (kv_pool c) (scheduler_block_size c) (num_reprefillable_tokens c)
    (draft_replay_reserve c) (use_eagle_block_drop c) (eagle_group_ids c) (retention_interval c)
    (max_model_len c) (kv_enable_caching c) (watermark_blocks c).

(** Run an operation of manager [i] on its state and the shared pool. *)
Definition on_mgr {A} (i : nat) (m : M STState A) : M KVCache A := fun c =>
  match managers c !! i with
  | None => (Raise IndexError, c)
  | Some mg =>
      let '(o, s) := m {| mgr := mg; pool := kv_pool c |} in
      (o, c <| managers := <[i := mgr s]> (managers c) |> <| kv_pool := pool s |>)
  end.

Definition on_kv_pool {A} (m : M BlockPool A) : M KVCache A :=
  zoom kv_pool (fun p c => c <| kv_pool := p |>) m.

(** [[f(i, manager) for i, manager in enumerate(managers)]] *)
Fixpoint mmap {S A B} (f : A -> M S B) (l : list A) : M S (list B) :=
  match l with
  | [] => mret []
  | x :: l' => y ← f x; ys ← mmap f l'; mret (y :: ys)
  end.

Definition manager_ids (c : KVCache) : list nat := seq 0 (length (managers c)).

(** ** Construction *)

(** [dcp_world_size_for_kv_cache_spec(spec, dcp_world_size)].  The scheduler's groups have one
    spec each ([generate_scheduler_kv_cache_config] has replaced a UniformTypeKVCacheSpecs by
    its first spec), so the unwrapping at the start of the function has nothing to do. *)
Definition dcp_world_size_for_kv_cache_spec (spec : KVCacheSpec) (dcp_world_size : Z) : Z :=
  if (dcp_world_size <=? 1)%Z then 1
  else if is_full (spec_kind spec) then dcp_world_size else 1.

(** [spec.max_admission_blocks_per_request(max_in_flight_tokens, max_model_len)], [None] for
    the specs that [get_manager_for_kv_cache_spec] does not cap. *)
Definition spec_admission_cap (spec : KVCacheSpec) (max_in_flight_tokens max_model_len : Z) : option Z :=
  if spec_kpool_tail spec then Some 1%Z
  else match spec_kind spec with
  | SlidingWindow w extra | DFlashRing w extra =>
      Some (cdiv (Z.min (w - 1 + extra + max_in_flight_tokens) max_model_len) (kvs_block_size spec) + 1)%Z
  | ChunkedLocal chunk =>
      Some (cdiv (Z.min (chunk + max_in_flight_tokens) max_model_len) (kvs_block_size spec))
  | _ => None
  end.

(** [get_manager_for_kv_cache_spec(...)] *)
Definition get_manager_for_kv_cache_spec (spec : KVCacheSpec) (max_in_flight_tokens max_model_len : Z)
    (p : BlockPool) (caching : bool) (gid scheduler_block_size dcp_world_size pcp_world_size : Z)
    (needs_zeroing : bool) : STManager :=
  STManager_init (spec_kind spec) (kvs_block_size spec) (spec_prefix_cacheable spec) p caching gid
    scheduler_block_size dcp_world_size pcp_world_size needs_zeroing (spec_zeroed spec)
    (spec_admission_cap spec max_in_flight_tokens max_model_len).

(** [_validate_prefix_cache_retention_interval(...)] *)
Definition validate_retention_interval (retention : option Z) (scheduler_block_size : Z)
    (groups : list KVCacheGroupSpec) : outcome unit :=
  match retention with
  | None => Ok tt
  | Some r =>
      if negb (existsb (fun g => match spec_kind (group_spec g) with
                                 | SlidingWindow _ _ | DFlashRing _ _ => true
                                 | CircularBuffer => spec_kpool_tail (group_spec g)
                                 | _ => false
                                 end) groups)
      then if (r =? 0)%Z then Ok tt else Raise ValueError
      else if (r <? 0)%Z || negb (r mod scheduler_block_size =? 0)%Z then Raise ValueError
      else Ok tt
  end.

(** One step of [verify_and_split_kv_cache_groups]: join the group of an equal spec. *)
Fixpoint add_to_groups (spec : KVCacheSpec) (i : nat) (eagle : bool) (groups : list SpecGroup)
    : list SpecGroup :=
  match groups with
  | [] => [{| sg_spec := spec; group_ids := [i]; sg_use_eagle := eagle |}]
  | g :: rest =>
      if decide (sg_spec g = spec)
      then {| sg_spec := sg_spec g; group_ids := group_ids g ++ [i];
              sg_use_eagle := sg_use_eagle g || eagle |} :: rest
      else g :: add_to_groups spec i eagle rest
  end.

(** [self.attention_groups] after [verify_and_split_kv_cache_groups], full attention first
    ([list.sort] is stable). *)
Definition split_kv_cache_groups (groups : list KVCacheGroupSpec) (eagle_ids : gset nat) : list SpecGroup :=
  let gs := foldl (fun acc ig =>
    if spec_prefix_cacheable (group_spec ig.2)
    then add_to_groups (group_spec ig.2) ig.1 (bool_decide (ig.1 ∈ eagle_ids)) acc
    else acc) [] (imap pair groups) in
  filter (fun g => is_full (spec_kind (sg_spec g)) = true) gs ++
  filter (fun g => is_full (spec_kind (sg_spec g)) = false) gs.

(** [self.eagle_group_ids] *)
Definition resolve_eagle_group_ids (groups : list KVCacheGroupSpec) (use_eagle : bool) : gset nat :=
  if use_eagle then
    let flagged : gset nat :=
      list_to_set (omap (fun ig => if is_eagle_group ig.2 then Some ig.1 else None) (imap pair groups)) in
    if decide (flagged = ∅) then list_to_set (seq 0 (length groups)) else flagged
  else ∅.

(** ** Operations shared by the coordinators *)

(** [get_num_blocks_to_allocate(...)] *)
Fixpoint sum_blocks_to_allocate (ms : list STManager) (p : BlockPool) (rid : string) (num_tokens : Z)
    (new_computed_blocks : list (list ref)) (num_encoder_tokens total local : Z) (cap : bool) : outcome Z :=
  match ms with
  | [] => Ok 0%Z
  | m :: ms' =>
      match (match st_kind m with
             | CrossAttention => get_num_blocks_to_allocate m p rid num_encoder_tokens [] 0 0 cap
             | _ => match head new_computed_blocks with
                    | Some ncb => get_num_blocks_to_allocate m p rid num_tokens ncb total local cap
                    | None => Raise IndexError
                    end
             end) with
      | Raise e => Raise e
      | Ok k =>
          match sum_blocks_to_allocate ms' p rid num_tokens (tail new_computed_blocks) num_encoder_tokens
                  total local cap with
          | Raise e => Raise e
          | Ok k' => Ok (k + k')%Z
          end
      end
  end.

Definition coord_num_blocks_to_allocate (rid : string) (num_tokens : Z) (new_computed_blocks : list (list ref))
    (num_encoder_tokens total_computed_tokens num_local_computed_tokens : Z) (apply_admission_cap : bool)
    : M KVCache Z :=
  c ← gets id;
  lift_outcome (sum_blocks_to_allocate (managers c) (kv_pool c) rid num_tokens new_computed_blocks
    num_encoder_tokens total_computed_tokens num_local_computed_tokens apply_admission_cap).

(** [allocate_new_computed_blocks(...)] *)
Definition allocate_new_computed_blocks (rid : string) (new_computed_blocks : list (list ref))
    (num_local_computed_tokens num_external_computed_tokens : Z) : M KVCache unit :=
  c ← gets id;
  if existsb (fun m => bool_decide (is_Some (num_cached_block m !! rid))) (managers c)
  then massert (forallb (fun bs => bool_decide (bs = [])) new_computed_blocks)
  else
    mfor (manager_ids c) (fun i =>
      ncb ← of_option IndexError (new_computed_blocks !! i);
      on_mgr i (add_local_computed_blocks rid ncb num_local_computed_tokens num_external_computed_tokens)) ;;
    mwhen (0 <? num_external_computed_tokens)%Z
      (mfor (manager_ids c) (fun i =>
         on_mgr i (allocate_external_computed_blocks rid num_local_computed_tokens
                     num_external_computed_tokens))).

(** [allocate_new_blocks(...)] *)
Definition coord_allocate_new_blocks (rid : string) (num_tokens num_encoder_tokens : Z)
    : M KVCache (list (list ref)) :=
  c ← gets id;
  mmap (fun i =>
    on_mgr i (k ← get_mgr st_kind;
              allocate_new_blocks rid (match k with CrossAttention => num_encoder_tokens | _ => num_tokens end)))
    (manager_ids c).

(** [get_draft_replay_boundary(num_prompt_tokens, draft_replay_reserve, scheduler_block_size)] *)
Definition get_draft_replay_boundary (num_prompt reserve sched_bs : Z) : Z :=
  (Z.max (num_prompt - 1 - reserve) 0 / sched_bs * sched_bs)%Z.

(** [get_replay_boundary(request)] *)
Definition get_replay_boundary (c : KVCache) (r : Request) : Z :=
  if negb (draft_replay_reserve c =? 0)%Z
  then get_draft_replay_boundary (num_prompt_tokens r) (draft_replay_reserve c) (scheduler_block_size c)
  else if negb (use_eagle_block_drop c) then (num_prompt_tokens r - 1)%Z
  else
    let aligned := (num_prompt_tokens r / scheduler_block_size c * scheduler_block_size c)%Z in
    Z.max (aligned - scheduler_block_size c) 0.

(** [HybridKVCacheCoordinator._align_cacheable(num_tokens)] *)
Definition align_cacheable (c : KVCache) (num_tokens : Z) : Z :=
  match coord c with
  | Hybrid true _ => num_tokens
  | _ => (num_tokens / scheduler_block_size c * scheduler_block_size c)%Z
  end.

(** The number of tokens that manager [m] is asked to cache. *)
Definition num_tokens_to_cache (c : KVCache) (m : STManager) (num_computed_tokens : Z) : Z :=
  let finalized := Z.max 0 (num_computed_tokens - num_reprefillable_tokens c) in
  match coord c with
  | Hybrid _ _ =>
      let cached := align_cacheable c num_computed_tokens in
      if use_eagle m && (0 <? cached)%Z
      then Z.min finalized (align_cacheable c finalized + st_block_size m)
      else cached
  | _ => finalized
  end.

Section with_sha256.
Context (sha256 : bytes -> bytes).

(** [cache_blocks(request, num_computed_tokens)] *)
Definition coord_cache_blocks (r : Request) (num_computed_tokens : Z) : M KVCache Request :=
  c ← gets id;
  let replay_boundary := get_replay_boundary c r in
  mfold (fun r i =>
    m ← of_option IndexError (managers c !! i);
    on_mgr i (cache_blocks sha256 r (num_tokens_to_cache c m num_computed_tokens) (retention_interval c)
                replay_boundary)) r (manager_ids c).
End with_sha256.

(** [free(request_id)] *)
Definition coord_free (rid : string) : M KVCache unit :=
  c ← gets id; mfor (manager_ids c) (fun i => on_mgr i (st_free rid)).

(** [pop_blocks_for_free(request_id)] *)
Definition coord_pop_blocks_for_free (rid : string) : M KVCache (list ref) :=
  c ← gets id;
  ls ← mmap (fun i => on_mgr i (pop_blocks_for_free rid)) (manager_ids c);
  mret (concat ls).

(** [get_num_common_prefix_blocks(running_request_id)] *)
Definition coord_num_common_prefix_blocks (rid : string) : M KVCache (list Z) :=
  c ← gets id;
  match coord c with
  | NoPrefixCache => mret (replicate (length (managers c)) 0%Z)
  | _ => mmap (fun i => on_mgr i (st_num_common_prefix_blocks rid)) (manager_ids c)
  end.

(** [remove_skipped_blocks(...)] *)
Definition coord_remove_skipped_blocks (rid : string) (processed_computed_tokens : Z) (num_prompt : option Z)
    : M KVCache unit :=
  c ← gets id;
  mfor (manager_ids c) (fun i => on_mgr i (remove_skipped_blocks rid processed_computed_tokens num_prompt)).

(** [get_blocks(request_id)] *)
Definition coord_get_blocks (c : KVCache) (rid : string) : list (list ref) :=
  (fun m => default [] (req_to_blocks m !! rid)) <$> managers c.

(** ** Prefix-cache lookup *)

(** [_cache_hit_alignment_tokens] *)
Definition cache_hit_alignment (c : KVCache) : Z :=
  match coord c with
  | Hybrid true _ => hash_block_size (kv_pool c)
  | _ => scheduler_block_size c
  end.

(** The state of the fixed-point loop: candidate length, longest single hit, per-group
    blocks and lengths, EAGLE groups verified at the candidate length. *)
Record hit_state := {
  curr_hit_length : Z;
  longest_hit_length : Z;
  hit_blocks_by_group : list (option (list ref));
  hit_length_by_group : list Z;
  eagle_verified : gset nat;
}.

(** [for group_id, blocks in zip(group_ids, hit_blocks): ...] *)
Definition store_hits (gids : list nat) (blocks : list (list ref)) (len : Z) (h : hit_state) : hit_state :=
  {| curr_hit_length := curr_hit_length h; longest_hit_length := longest_hit_length h;
     hit_blocks_by_group :=
       foldl (fun acc gb => <[gb.1 := Some gb.2]> acc) (hit_blocks_by_group h) (zip gids blocks);
     hit_length_by_group :=
       foldl (fun acc gb => <[gb.1 := len]> acc) (hit_length_by_group h) (zip gids blocks);
     eagle_verified := eagle_verified h |}.

(** One attention group of one iteration of the loop. *)
Definition hit_group (block_hashes : list bytes) (max_cache_hit_length : Z) (h : hit_state)
    (ig : nat * SpecGroup) : M KVCache hit_state :=
  let '(idx, g) := ig in
  c ← gets id;
  first_gid ← of_option IndexError (head (group_ids g));
  m ← of_option IndexError (managers c !! first_gid);
  cached_blocks ← of_option IndexError (hit_blocks_by_group h !! first_gid);
  cached_len ← of_option IndexError (hit_length_by_group h !! first_gid);
  let k := spec_kind (sg_spec g) in
  if is_full k && bool_decide (is_Some cached_blocks)
  then mret {| curr_hit_length := Z.min (curr_hit_length h) cached_len;
               longest_hit_length := longest_hit_length h;
               hit_blocks_by_group := hit_blocks_by_group h;
               hit_length_by_group := hit_length_by_group h;
               eagle_verified := eagle_verified h |}
  else
    let drop_eagle_block := sg_use_eagle g && negb (bool_decide (idx ∈ eagle_verified h)) in
    let hbs := hash_block_size (kv_pool c) in
    let max_length :=
      if drop_eagle_block then
        let eagle_margin :=
          if match coord c with Hybrid true _ => true | _ => false end &&
             supports_fine_grained k && (hbs <? st_block_size m)%Z
          then hbs else st_block_size m in
        Z.min (curr_hit_length h + eagle_margin) max_cache_hit_length
      else curr_hit_length h in
    '(hit_blocks, new_hit_length) ← on_kv_pool (find_longest_cache_hit k (RawHashes block_hashes) max_length
      (Z.of_nat <$> group_ids g) (kvs_block_size (sg_spec g)) drop_eagle_block (cache_hit_alignment c)
      (st_dcp_world_size m) (st_pcp_world_size m));
    let verified :=
      if drop_eagle_block then {[idx]} ∪ eagle_verified h
      else if (new_hit_length <? curr_hit_length h)%Z then ∅ else eagle_verified h in
    mret (store_hits (group_ids g) hit_blocks new_hit_length
      {| curr_hit_length := new_hit_length;
         longest_hit_length := Z.max (longest_hit_length h) new_hit_length;
         hit_blocks_by_group := hit_blocks_by_group h;
         hit_length_by_group := hit_length_by_group h;
         eagle_verified := verified |}).

(** The [while True] loop: (final hit length, loop state). *)
Fixpoint hit_loop (fuel : nat) (block_hashes : list bytes) (max_cache_hit_length : Z)
    (groups : list SpecGroup) (is_simple_hybrid : bool) (hit_length : Z) (h : hit_state)
    : M KVCache (Z * hit_state) :=
  match fuel with
  | O => raise OutOfFuel
  | S fuel =>
      h ← mfold (hit_group block_hashes max_cache_hit_length)
        {| curr_hit_length := hit_length; longest_hit_length := longest_hit_length h;
           hit_blocks_by_group := hit_blocks_by_group h; hit_length_by_group := hit_length_by_group h;
           eagle_verified := eagle_verified h |} (imap pair groups);
      if (hit_length <=? curr_hit_length h)%Z then mret (hit_length, h)
      else if is_simple_hybrid then mret (curr_hit_length h, h)
      else hit_loop fuel block_hashes max_cache_hit_length groups is_simple_hybrid (curr_hit_length h) h
  end.

(** Truncate one full-attention group to the final length. *)
Definition truncate_group (hit_length : Z) (c : KVCache) (blocks : list (option (list ref))) (g : SpecGroup)
    : list (option (list ref)) :=
  if is_full (spec_kind (sg_spec g)) then
    let bs := match head (group_ids g) ≫= (managers c !!.) with Some m => st_block_size m | None => 1%Z end in
    foldl (fun acc gid => alter (fmap (M := option) (take (Z.to_nat (cdiv hit_length bs)))) gid acc) blocks (group_ids g)
  else blocks.

(** The fuel covers every length from [max_cache_hit_length] down to 0. *)
Definition hybrid_find_longest_cache_hit (block_hashes : list bytes) (max_cache_hit_length : Z)
    (groups : list SpecGroup) : M KVCache (list (list ref) * Z * Z) :=
  c ← gets id;
  let num_groups := length (managers c) in
  let is_simple_hybrid := bool_decide (length groups = 2) &&
    match head groups with Some g => is_full (spec_kind (sg_spec g)) | None => false end in
  '(hit_length, h) ← hit_loop (S (S (Z.to_nat max_cache_hit_length))) block_hashes max_cache_hit_length groups
    is_simple_hybrid max_cache_hit_length
    {| curr_hit_length := max_cache_hit_length; longest_hit_length := 0;
       hit_blocks_by_group := replicate num_groups None; hit_length_by_group := replicate num_groups 0%Z;
       eagle_verified := ∅ |};
  let blocks := foldl (truncate_group hit_length c) (hit_blocks_by_group h) groups in
  mret (default [] <$> blocks, hit_length, (longest_hit_length h - hit_length)%Z).

(** [find_longest_cache_hit(block_hashes, max_cache_hit_length)] of the coordinators *)
Definition coord_find_longest_cache_hit (block_hashes : list bytes) (max_cache_hit_length : Z)
    : M KVCache (list (list ref) * Z * Z) :=
  c ← gets id;
  match coord c with
  | NoPrefixCache => mret (replicate (length (managers c)) [], 0%Z, 0%Z)
  | Unitary =>
      m ← of_option IndexError (managers c !! 0);
      '(blocks, n) ← on_kv_pool (find_longest_cache_hit (st_kind m) (RawHashes block_hashes)
        max_cache_hit_length [0%Z] (spec_block_size m) (bool_decide (0 ∈ eagle_group_ids c))
        (st_block_size m) (st_dcp_world_size m) (st_pcp_world_size m));
      mret (blocks, n, 0%Z)
  | Hybrid _ groups => hybrid_find_longest_cache_hit block_hashes max_cache_hit_length groups
  end.
