(* ===== verification/KVManager.v ===== *)
(** [KVCacheManager] (vllm/v1/core/kv_cache_manager.py): the scheduler's interface to the
    KV cache, on the coordinator's state.  Statistics and the semantic annotation of
    events are left out. *)
From S2P Require Import Prelude KVBlock FreeQueue Request BlockHash BlockPool CacheHit SingleType KVCoordinator.

(** ** Construction *)

(** [get_draft_replay_reserve(kv_cache_groups)]: the DFlash specs are the sliding-window
    specs that opt out of prefix caching. *)
Definition get_draft_replay_reserve (groups : list KVCacheGroupSpec) : Z :=
  foldl (fun acc g =>
    match spec_kind (group_spec g) with
    | DFlashRing w _ => Z.max acc w
    | SlidingWindow w _ => if spec_prefix_cacheable (group_spec g) then acc else Z.max acc w
    | _ => acc
    end) 0%Z groups.

Definition check (b : bool) (e : exn) : outcome unit := if b then Ok tt else Raise e.

(** [self.single_type_managers] of [KVCacheCoordinator.__init__] *)
Definition make_managers (cfg : KVCacheConfig) (p : BlockPool) (caching : bool)
    (max_in_flight_tokens max_model_len sched_bs dcp pcp : Z) : list STManager :=
  imap (fun i g =>
    get_manager_for_kv_cache_spec (group_spec g) max_in_flight_tokens max_model_len p caching (Z.of_nat i)
      sched_bs (dcp_world_size_for_kv_cache_spec (group_spec g) dcp) pcp (needs_kv_cache_zeroing cfg))
    (kv_cache_groups cfg).

(** [get_kv_cache_coordinator(...)] and [KVCacheManager.__init__]; the checks in the order
    the constructors make them, for groups without Mamba layers. *)
Definition KVCacheManager_init (cfg : KVCacheConfig) (max_len max_in_flight : Z)
    (eagle caching events : bool) (dcp pcp sched_bs hbs prefill_lookahead watermark : Z)
    : outcome KVCache :=
  let groups := kv_cache_groups cfg in
  let ids := resolve_eagle_group_ids groups eagle in
  let '(o, p) := BlockPool_init (num_blocks cfg) caching hbs events false in
  let ms := make_managers cfg p caching max_in_flight max_len sched_bs dcp pcp in
  let sgs := split_kv_cache_groups groups ids in
  match check ((sched_bs mod hbs =? 0)%Z &&
               forallb (fun g => (sched_bs mod kvs_block_size (group_spec g) =? 0)%Z) groups) AssertionError, o,
        check (negb (caching && negb (bool_decide (ids = ∅)) && (sched_bs <? prefill_lookahead)%Z)) ValueError,
        validate_retention_interval (prefix_cache_retention_interval cfg) sched_bs groups with
  | Raise e, _, _, _ | Ok _, Raise e, _, _ | Ok _, Ok _, Raise e, _ | Ok _, Ok _, Ok _, Raise e => Raise e
  | Ok _, Ok _, Ok _, Ok _ =>
      let mk k ms := Ok
        {| coord := k; managers := ms; kv_pool := p; scheduler_block_size := sched_bs;
           num_reprefillable_tokens := Z.max 0 (prefill_lookahead - 1);
           draft_replay_reserve := get_draft_replay_reserve groups; use_eagle_block_drop := eagle;
           eagle_group_ids := ids; retention_interval := prefix_cache_retention_interval cfg;
           max_model_len := max_len; kv_enable_caching := caching; watermark_blocks := watermark |} in
      if negb caching then mk NoPrefixCache ms
      else match ms with
      | [m] =>
          if (hbs =? st_block_size m)%Z
          then mk Unitary [m <| use_eagle := bool_decide (0 ∈ ids) |>]
          else Raise AssertionError
      | _ =>
          if forallb (fun m => negb (prefix_cacheable m) || (st_block_size m mod hbs =? 0)%Z) ms &&
             (pcp =? 1)%Z &&
             ((dcp <=? 1)%Z || forallb (fun g => is_full (spec_kind (group_spec g))) groups) &&
             negb (bool_decide (sgs = []))
          then mk (Hybrid false sgs)
                 (imap (fun i m =>
                    m <| use_eagle := existsb (fun g => sg_use_eagle g && bool_decide (i ∈ group_ids g)) sgs |>) ms)
          else Raise AssertionError
      end
  end.

(** ** [KVCacheBlocks] *)

(** The shared empty object, which [allocate_slots] recognises by identity, or a tuple. *)
Inductive KVCacheBlocks :=
  | EmptyBlocks
  | Blocks (blocks : list (list ref)).

Definition blocks_list (c : KVCache) (b : KVCacheBlocks) : list (list ref) :=
  match b with EmptyBlocks => replicate (length (managers c)) [] | Blocks l => l end.

(** [create_kv_cache_blocks(blocks)] *)
Definition create_kv_cache_blocks (blocks : list (list ref)) : KVCacheBlocks :=
  if existsb (fun l => negb (bool_decide (l = []))) blocks then Blocks blocks else EmptyBlocks.

(** [KVCacheBlocks.__add__] *)
Definition add_blocks (c : KVCache) (a b : KVCacheBlocks) : KVCacheBlocks :=
  Blocks (zip_with app (blocks_list c a) (blocks_list c b)).

(** [[blk.block_id for blk in blocks]] *)
Definition ids_of (p : BlockPool) (l : list ref) : list Z := (fun r => block_id (blk p r)) <$> l.

(** [KVCacheBlocks.get_block_ids(allow_none)] *)
Definition get_block_ids (c : KVCache) (b : KVCacheBlocks) (allow_none : bool) : option (list (list Z)) :=
  if allow_none && forallb (fun l => bool_decide (l = [])) (blocks_list c b) then None
  else Some (ids_of (kv_pool c) <$> blocks_list c b).

(** [KVCacheBlocks.get_unhashed_block_ids_all_groups()] *)
Definition get_unhashed_block_ids_all_groups (c : KVCache) (b : KVCacheBlocks) : list (list Z) :=
  (fun l => ids_of (kv_pool c)
     (filter (fun r => block_hash (blk (kv_pool c) r) = None /\ is_null (blk (kv_pool c) r) = false) l))
  <$> blocks_list c b.

(** [KVCacheBlocks.get_unhashed_block_ids()] *)
Definition get_unhashed_block_ids (c : KVCache) (b : KVCacheBlocks) : outcome (list Z) :=
  match blocks_list c b with
  | [l] => Ok (ids_of (kv_pool c) (filter (fun r => block_hash (blk (kv_pool c) r) = None) l))
  | _ => Raise AssertionError
  end.

(** ** Lookup *)

(** [prefix_cache_lookup_enabled(request)] *)
Definition prefix_cache_lookup_enabled (c : KVCache) (r : Request) : bool :=
  kv_enable_caching c && negb (skip_reading_prefix_cache r).

Section with_sha256.
Context (sha256 : bytes -> bytes).

(** The events for reused blocks, group by group. *)
Definition emit_reused_events (r : Request) (blocks : list (list ref)) : M KVCache Request :=
  c ← gets id;
  mfold (fun r il =>
    if bool_decide (il.2 = []) then mret r
    else
      m ← of_option IndexError (managers c !! il.1);
      on_kv_pool (emit_cached_block_events sha256 r (zlen il.2) (spec_block_size m) (Z.of_nat il.1)))
    r (imap pair blocks).

(** [get_computed_blocks(request)]; [report_full] is the request's report mode.  Returns
    the blocks, the computed tokens, the shared-prefix boundary and the request. *)
Definition get_computed_blocks (r : Request) (report_full : bool)
    : M KVCache (KVCacheBlocks * Z * Z * Request) :=
  c ← gets id;
  if negb (prefix_cache_lookup_enabled c r) then mret (EmptyBlocks, 0%Z, 0%Z, r)
  else
    let max_cache_hit_length := Z.max (num_tokens r - 1 - draft_replay_reserve c) 0 in
    '(computed, n, uncached) ← coord_find_longest_cache_hit (block_hashes r) max_cache_hit_length;
    r ← (if (0 <? n)%Z && enable_kv_cache_events (kv_pool c) && report_full
         then emit_reused_events r computed else mret r);
    mret (create_kv_cache_blocks computed, n, if (uncached =? 0)%Z then 0%Z else (n + uncached)%Z, r).

(** ** Allocation *)

(** The arguments of [allocate_slots] beside the request. *)
Record alloc_args := {
  num_new_tokens : Z;
  num_new_computed_tokens : Z;
  new_computed_blocks : option KVCacheBlocks;
  num_lookahead_tokens : Z;
  num_external_computed_tokens : Z;
  delay_cache_blocks : bool;
  num_encoder_tokens : Z;
  full_sequence_must_fit : bool;
  reserved_blocks : Z;
  has_scheduled_reqs : bool;
}.

(** [watermark_blocks] as it applies to this request *)
Definition watermark_for (c : KVCache) (r : Request) (a : alloc_args) : Z :=
  if has_scheduled_reqs a && bool_decide (status r = WAITING \/ status r = PREEMPTED)
  then watermark_blocks c else 0.

(** The admission gate of [full_sequence_must_fit]: whether it refuses. *)
Definition full_sequence_refused (r : Request) (a : alloc_args) (ncbs : list (list ref))
    (total local : Z) : M KVCache bool :=
  if full_sequence_must_fit a then
    c ← gets id;
    let full_num_tokens := Z.min (num_tokens r) (max_model_len c) in
    k ← coord_num_blocks_to_allocate (request_id r) full_num_tokens ncbs (num_encoder_tokens a) total local true;
    mret (get_num_free_blocks (kv_pool c) <? k + watermark_for c r a)%Z
  else mret false.

(** The tokens of [allocate_slots]: (local, total, clamped total, need slot). *)
Definition local_tokens (r : Request) (a : alloc_args) : Z :=
  (num_computed_tokens r + num_new_computed_tokens a)%Z.
Definition clamped_total (c : KVCache) (r : Request) (a : alloc_args) : Z :=
  Z.min (local_tokens r a + num_external_computed_tokens a) (max_model_len c).
Definition tokens_need_slot (c : KVCache) (r : Request) (a : alloc_args) : Z :=
  Z.min (clamped_total c r a + num_new_tokens a + num_lookahead_tokens a) (max_model_len c).

(** The blocks of the lookup that [allocate_slots] was given. *)
Definition computed_list (c : KVCache) (a : alloc_args) : list (list ref) :=
  match new_computed_blocks a with None => blocks_list c EmptyBlocks | Some b => blocks_list c b end.
Definition computed_shared_empty (a : alloc_args) : bool :=
  match new_computed_blocks a with None | Some EmptyBlocks => true | Some (Blocks _) => false end.

(** From the release of skipped blocks to the new blocks: [None] when they do not fit. *)
Definition allocate_blocks (r : Request) (a : alloc_args) (ncbs : list (list ref))
    : M KVCache (option (list (list ref))) :=
  c ← gets id;
  let rid := request_id r in
  let local := local_tokens r a in
  let total := clamped_total c r a in
  let need_slot := tokens_need_slot c r a in
  coord_remove_skipped_blocks rid (Z.max 0 (total - num_in_flight_tokens r)) (Some (num_prompt_tokens r)) ;;
  k ← coord_num_blocks_to_allocate rid need_slot ncbs (num_encoder_tokens a)
    (local + num_external_computed_tokens a) local false;
  c' ← gets id;
  let available_blocks := (get_num_free_blocks (kv_pool c') - reserved_blocks a)%Z in
  if (available_blocks <? k + watermark_for c r a)%Z then mret None
  else
    mwhen (negb (computed_shared_empty a) || (0 <? num_external_computed_tokens a)%Z)
      (allocate_new_computed_blocks rid ncbs local (num_external_computed_tokens a)) ;;
    new_blocks ← coord_allocate_new_blocks rid need_slot (num_encoder_tokens a);
    mret (Some new_blocks).

(** [allocate_slots(...)]: the new blocks, or [None] when they do not fit, and the request. *)
Definition allocate_slots (r : Request) (a : alloc_args) : M KVCache (option KVCacheBlocks * Request) :=
  if (num_new_tokens a =? 0)%Z && (num_external_computed_tokens a =? 0)%Z then raise ValueError
  else
    c ← gets id;
    let ncbs := computed_list c a in
    refused ← full_sequence_refused r a ncbs (clamped_total c r a) (local_tokens r a);
    if refused : bool then mret (None, r)
    else
      o ← allocate_blocks r a ncbs;
      match o with
      | None => mret (None, r)
      | Some new_blocks =>
          if negb (kv_enable_caching c) || delay_cache_blocks a
          then mret (Some (create_kv_cache_blocks new_blocks), r)
          else
            let n := Z.min (clamped_total c r a + num_new_tokens a) (num_tokens r) in
            r ← coord_cache_blocks sha256 r n;
            mret (Some (create_kv_cache_blocks new_blocks), r)
      end.

(** [cache_blocks(request, num_computed_tokens)] *)
Definition kv_cache_blocks (r : Request) (num_computed : Z) : M KVCache Request :=
  c ← gets id;
  if kv_enable_caching c then coord_cache_blocks sha256 r num_computed else mret r.
End with_sha256.

(** ** Release and queries *)

(** [free(request)] *)
Definition kv_free (r : Request) : M KVCache unit := coord_free (request_id r).

(** [remove_skipped_blocks(...)] *)
Definition kv_remove_skipped_blocks (rid : string) (processed : Z) (num_prompt : option Z) : M KVCache unit :=
  coord_remove_skipped_blocks rid processed num_prompt.

(** [pop_blocks_for_free(request)] *)
Definition kv_pop_blocks_for_free (r : Request) : M KVCache (list ref) :=
  coord_pop_blocks_for_free (request_id r).

(** [evict_blocks(block_ids)] *)
Definition kv_evict_blocks (ids : list nat) : M KVCache unit := on_kv_pool (evict_blocks ids).

(** [reset_prefix_cache()] *)
Definition kv_reset_prefix_cache : M KVCache bool := on_kv_pool reset_prefix_cache.

(** [get_blocks(request_id)] *)
Definition kv_get_blocks (c : KVCache) (rid : string) : KVCacheBlocks :=
  create_kv_cache_blocks (coord_get_blocks c rid).

(** [get_block_ids(request_id)] *)
Definition kv_get_block_ids (c : KVCache) (rid : string) : list (list Z) :=
  default [] (get_block_ids c (kv_get_blocks c rid) false).

(** [get_block_ids_for_computed_tokens(request_id, num_computed_tokens)] *)
Definition get_block_ids_for_computed_tokens (c : KVCache) (rid : string) (num_computed : Z) : list (list Z) :=
  zip_with (fun m ids =>
    match st_kind m with
    | CrossAttention => ids
    | _ => take (Z.to_nat (cdiv num_computed (spec_block_size m))) ids
    end) (managers c) (kv_get_block_ids c rid).

(** [estimate_cached_tokens(request)] *)
Definition estimate_cached_tokens (c : KVCache) (rid : string) : Z :=
  default 0%Z (foldl (fun acc mb =>
    match st_kind mb.1 with
    | CrossAttention => acc
    | _ =>
        let n := foldl (fun t r => Z.max t (default 0%Z (block_hash_num_tokens (blk (kv_pool c) r)))) 0%Z mb.2 in
        Some (match acc with None => n | Some t => Z.min t n end)
    end) None (zip (managers c) (blocks_list c (kv_get_blocks c rid)))).

(** [truncate_computed_blocks(blocks, num_computed_tokens)] *)
Fixpoint truncate_groups (ms : list STManager) (blocks : list (list ref)) (num_computed : Z)
    : outcome (list (list ref)) :=
  match ms, blocks with
  | [], [] => Ok []
  | m :: ms', l :: blocks' =>
      match (if negb (prefix_cacheable m) then
               if bool_decide (l = []) then Ok [] else Raise AssertionError
             else if negb (num_computed mod st_block_size m =? 0)%Z then Raise AssertionError
             else
               let num := (num_computed / st_block_size m)%Z in
               if (num <=? zlen l)%Z then Ok (take (Z.to_nat num) l) else Raise AssertionError) with
      | Raise e => Raise e
      | Ok l' => match truncate_groups ms' blocks' num_computed with
                 | Raise e => Raise e
                 | Ok ls => Ok (l' :: ls)
                 end
      end
  | _, _ => Raise ValueError
  end.

Definition truncate_computed_blocks (c : KVCache) (b : KVCacheBlocks) (num_computed : Z) : outcome KVCacheBlocks :=
  match truncate_groups (managers c) (blocks_list c b) num_computed with
  | Raise e => Raise e
  | Ok ls => Ok (create_kv_cache_blocks ls)
  end.

(** [take_new_block_ids()] *)
Definition kv_take_new_block_ids : M KVCache (list Z) :=
  c ← gets id;
  ls ← mmap (fun i => on_mgr i take_new_block_ids) (manager_ids c);
  mret (concat ls).

(** [get_zeroing_block_ids_in_range(request_id, start_token, end_token)] *)
Definition get_zeroing_block_ids_in_range (rid : string) (start_token end_token : Z) : M KVCache (list Z) :=
  c ← gets id;
  ls ← mmap (fun i => on_mgr i (
    s ← gets id;
    if record_new_block_ids (mgr s) then
      blocks ← req_blocks rid;
      mret (ids_of (pool s)
              (slice (start_token / st_block_size (mgr s)) (cdiv end_token (st_block_size (mgr s))) blocks))
    else mret [])) (manager_ids c);
  mret (concat ls).

(** [record_blocks_for_zeroing(request_id, start_token)] *)
Definition record_blocks_for_zeroing (rid : string) (start_token : Z) : M KVCache unit :=
  c ← gets id;
  mfor (manager_ids c) (fun i => on_mgr i (
    s ← gets id;
    if record_new_block_ids (mgr s) then
      massert (start_token mod st_block_size (mgr s) =? 0)%Z ;;
      blocks ← req_blocks rid;
      modify_mgr (fun m => m <| new_block_ids := new_block_ids m ++
        ids_of (pool s) (drop (Z.to_nat (start_token / st_block_size (mgr s))) blocks) |>)
    else mret tt)).

(** [take_kv_cache_block_copies()]: the copies by block id and the retained endpoints. *)
Definition take_kv_cache_block_copies : M KVCache (list (Z * Z) * list ref) :=
  c ← gets id;
  ls ← mmap (fun i => on_mgr i take_pending_cow_copies) (manager_ids c);
  let pending := concat ls in
  mret ((fun ab => (block_id (blk (kv_pool c) ab.1), block_id (blk (kv_pool c) ab.2))) <$> pending,
        concat ((fun ab => [ab.1; ab.2]) <$> pending)).
