(* ===== verification/KVAlloc.v ===== *)
(** Allocation across all groups: if the capacity check of [allocate_slots] passes, every
    later step of the allocation succeeds, whatever the mix of managers. *)
From S2P Require Import Prelude KVBlock FreeQueue Request BlockHash BlockPool BlockPoolInv BlockPoolSpec BlockPoolCache BlockPoolThms CacheHit SingleType SingleTypeInv SingleTypeAlloc SingleTypeFree KVCoordinator KVManager.

(** ** The invariant over all managers *)

Definition sumZ (l : list Z) : Z := foldr Z.add 0%Z l.

Definition total_owned (ms : list STManager) (i : nat) : Z := sumZ ((fun m => owned m i) <$> ms).

Lemma sumZ_app l1 l2 : sumZ (l1 ++ l2) = (sumZ l1 + sumZ l2)%Z.
Proof. induction l1 as [|x l1 IH]; simpl; lia. Qed.

Lemma sumZ_zero n : sumZ (replicate n 0%Z) = 0%Z.
Proof. induction n as [|n IH]; simpl; lia. Qed.

Lemma sumZ_insert l i x y : l !! i = Some x -> sumZ (<[i := y]> l) = (sumZ l - x + y)%Z.
Proof.
  revert i. induction l as [|z l IH]; intros [|i] Hi; simplify_eq/=; [lia|]. rewrite (IH i) by done. lia.
Qed.

Lemma sumZ_ge l i x : (forall j y, l !! j = Some y -> (0 <= y)%Z) -> l !! i = Some x -> (x <= sumZ l)%Z.
Proof.
  revert i. induction l as [|z l IH]; intros i Hall Hi; [done|].
  assert (Hl : (0 <= sumZ l)%Z).
  { clear -Hall. assert (H : forall y, y ∈ l -> (0 <= y)%Z).
    { intros y [j Hj]%list_elem_of_lookup_1. apply (Hall (S j) y Hj). }
    clear Hall. induction l as [|y l IH]; simpl; [lia|]. assert (0 <= y)%Z by (apply H; set_solver).
    assert (0 <= sumZ l)%Z by (apply IH; set_solver). lia. }
  destruct i as [|i]; simpl in *; [injection Hi as ->; lia|].
  assert (x <= sumZ l)%Z by (apply (IH i); [|done]; intros j y; apply (Hall (S j))).
  specialize (Hall 0 z eq_refl). lia.
Qed.

Lemma owned_nonneg m i : (0 <= owned m i)%Z.
Proof. pose proof (owned_ge m "" i). pose proof (cnt_nonneg i (blocks_of m "")). lia. Qed.

Lemma total_owned_insert ms i m m' j :
  ms !! i = Some m -> total_owned (<[i := m']> ms) j = (total_owned ms j - owned m j + owned m' j)%Z.
Proof.
  intros Hi. unfold total_owned. rewrite list_fmap_insert. apply sumZ_insert. by rewrite list_lookup_fmap, Hi.
Qed.

Lemma total_owned_ge ms i m j : ms !! i = Some m -> (owned m j <= total_owned ms j)%Z.
Proof.
  intros Hi. unfold total_owned. apply (sumZ_ge _ i).
  - intros k y Hk. apply list_lookup_fmap_Some in Hk as (m' & -> & _). apply owned_nonneg.
  - by rewrite list_lookup_fmap, Hi.
Qed.

(** The pool is well-formed, and every reference is a manager's or one of [ext]. *)
Record kv_ok (n : nat) (ext : nat -> Z) (fl : list nat) (c : KVCache) : Prop := {
  ko_pool : pool_ok n (kv_pool c) fl;
  ko_wf i m : managers c !! i = Some m -> st_wf n m;
  ko_refs i : 0 < i < n -> refs (kv_pool c) i = (total_owned (managers c) i + ext i)%Z;
  ko_ext i : (0 <= ext i)%Z;
}.

(** The references that manager [m] does not account for. *)
Definition others (ext : nat -> Z) (c : KVCache) (m : STManager) (i : nat) : Z :=
  (ext i + total_owned (managers c) i - owned m i)%Z.

Lemma kv_st_ok n ext fl c i m :
  kv_ok n ext fl c -> managers c !! i = Some m ->
  st_ok n (others ext c m) fl {| mgr := m; pool := kv_pool c |}.
Proof.
  intros [Hp Hw Hr He] Hi. split; simpl; [done|by eapply Hw| |].
  - intros j Hj. rewrite Hr by done. unfold others. lia.
  - intros j. unfold others. pose proof (total_owned_ge _ _ _ j Hi). specialize (He j). lia.
Qed.

(** The cache with manager [i] and the pool replaced. *)
Definition put_mgr (i : nat) (s : STState) (c : KVCache) : KVCache :=
  c <| managers := <[i := mgr s]> (managers c) |> <| kv_pool := pool s |>.

Lemma put_mgr_ok n ext fl c i m fl' s :
  kv_ok n ext fl c -> managers c !! i = Some m -> st_ok n (others ext c m) fl' s ->
  kv_ok n ext fl' (put_mgr i s c).
Proof.
  intros [Hp Hw Hr He] Hi [Sp Sw Sr Se]. split; simpl; [done| | |done].
  - intros j m'. destruct (decide (j = i)) as [->|Hji].
    + rewrite list_lookup_insert_eq by (by eapply lookup_lt_Some). by intros [= <-].
    + rewrite list_lookup_insert_ne by done. apply Hw.
  - intros j Hj. rewrite Sr by done. rewrite (total_owned_insert _ _ _ _ _ Hi). unfold others. lia.
Qed.

Lemma wp_on_mgr {A} (op : M STState A) (Q : A -> KVCache -> Prop) n ext fl c i m :
  kv_ok n ext fl c -> managers c !! i = Some m ->
  wp op (fun a s' => Q a (put_mgr i s' c)) {| mgr := m; pool := kv_pool c |} -> wp (on_mgr i op) Q c.
Proof.
  intros Hok Hi Hop. unfold wp, on_mgr in *. rewrite Hi.
  destruct (op _) as [[a|e] s']; [exact Hop|done].
Qed.

(** A loop over the manager indices. *)
Lemma wp_for_seq {S} (I : nat -> S -> Prop) (f : nat -> M S unit) k len (Q : unit -> S -> Prop) s :
  I k s -> (forall i s, k <= i < k + len -> I i s -> wp (f i) (fun _ => I (Datatypes.S i)) s) ->
  (forall s, I (k + len) s -> Q tt s) -> wp (mfor (seq k len) f) Q s.
Proof.
  revert k s. induction len as [|len IH]; intros k s HI Hf HQ.
  - simpl. rewrite wp_ret. apply HQ. by replace (k + 0) with k by lia.
  - simpl. rewrite wp_bind. eapply wp_mono; [apply Hf; [lia|done]|]. intros [] s' HI'.
    apply (IH (Datatypes.S k)); [done| |].
    + intros i s'' Hi. apply Hf. lia.
    + intros s''. replace (Datatypes.S k + len) with (k + Datatypes.S len) by lia. apply HQ.
Qed.

Lemma wp_mmap_seq {S B} (I : nat -> S -> Prop) (f : nat -> M S B) k len (Q : list B -> S -> Prop) s :
  I k s -> (forall i s, k <= i < k + len -> I i s -> wp (f i) (fun _ => I (Datatypes.S i)) s) ->
  (forall bs s, I (k + len) s -> length bs = len -> Q bs s) -> wp (mmap f (seq k len)) Q s.
Proof.
  revert k s Q. induction len as [|len IH]; intros k s Q HI Hf HQ.
  - simpl. rewrite wp_ret. apply HQ; [by replace (k + 0) with k by lia|done].
  - simpl. rewrite wp_bind. eapply wp_mono; [apply Hf; [lia|done]|]. intros b s' HI'.
    rewrite wp_bind. apply (IH (Datatypes.S k)); [done| |].
    + intros i s'' Hi. apply Hf. lia.
    + intros bs s'' HI'' Hlen. rewrite wp_ret. apply HQ; [|simpl; lia].
      by replace (Datatypes.S k + len) with (k + Datatypes.S len) in HI'' by lia.
Qed.

(** ** Budgets *)

Section funded.
Context (n : nat) (ext : nat -> Z) (slack : Z) (Hslack : (0 <= slack)%Z).

(** The free blocks cover a budget per manager and leave [slack] over; manager [j] with
    its budget [x] satisfies [R p j m x] over the current pool [p]. *)
Definition funded (R : BlockPool -> nat -> STManager -> Z -> Prop) (N : nat) (c : KVCache) : Prop :=
  exists fl b, kv_ok n ext fl c /\ length (managers c) = N /\ length b = N /\ (sumZ b + slack <= zlen fl)%Z /\
    (forall j x, b !! j = Some x -> (0 <= x)%Z) /\
    (forall j m x, managers c !! j = Some m -> b !! j = Some x -> R (kv_pool c) j m x).

(** One manager spends part of its budget; the others' conditions survive the change of
    the pool that [T] describes. *)
Lemma wp_funded {A} (op : M STState A) (R R' : BlockPool -> nat -> STManager -> Z -> Prop)
    (T : BlockPool -> BlockPool -> Prop) N c i (Q : A -> KVCache -> Prop) :
  funded R N c -> i < N ->
  (forall fl m x, st_ok n (others ext c m) fl {| mgr := m; pool := kv_pool c |} ->
     R (kv_pool c) i m x -> (0 <= x <= zlen fl)%Z ->
     wp op (fun a s' => exists fl', st_ok n (others ext c m) fl' s' /\ T (kv_pool c) (pool s') /\
       (zlen fl - zlen fl' <= x)%Z /\ R' (pool s') i (mgr s') (x - (zlen fl - zlen fl'))%Z)
       {| mgr := m; pool := kv_pool c |}) ->
  (forall p' j m x, j <> i -> R (kv_pool c) j m x -> T (kv_pool c) p' -> R' p' j m x) ->
  (forall a c', funded R' N c' -> T (kv_pool c) (kv_pool c') -> Q a c') ->
  wp (on_mgr i op) Q c.
Proof using Hslack.
  intros (fl & b & Hok & HN & Hb & Hsum & Hpos & HR) Hi Hop Hother HQ.
  destruct (lookup_lt_is_Some_2 (managers c) i) as [m Hm]; [lia|].
  destruct (lookup_lt_is_Some_2 b i) as [x Hx]; [lia|].
  assert (Hxle : (x <= zlen fl)%Z) by (pose proof (sumZ_ge b i x Hpos Hx); lia).
  eapply wp_on_mgr; [exact Hok|exact Hm|].
  eapply wp_mono; [apply (Hop fl m x); [by eapply kv_st_ok|by apply HR|split; [by eapply Hpos|done]]|].
  intros a s' (fl' & Hs' & HT & Hle & HR'). apply HQ; [|done].
  exists fl', (<[i := (x - (zlen fl - zlen fl'))%Z]> b). split_and!.
  - by eapply put_mgr_ok.
  - simpl. by rewrite length_insert.
  - by rewrite length_insert.
  - rewrite (sumZ_insert _ _ _ _ Hx). lia.
  - intros j y. destruct (decide (j = i)) as [->|Hji].
    + rewrite list_lookup_insert_eq by lia. intros [= <-]. lia.
    + rewrite list_lookup_insert_ne by done. apply Hpos.
  - intros j m' y. simpl. destruct (decide (j = i)) as [->|Hji].
    + rewrite !list_lookup_insert_eq by lia. intros [= <-] [= <-]. exact HR'.
    + rewrite !list_lookup_insert_ne by done. intros Hj Hy. eapply Hother; eauto.
Qed.

(** A pass over all managers turns [P] into [P'] for one manager after the other. *)
Definition upto (i : nat) (P P' : BlockPool -> nat -> STManager -> Z -> Prop) : BlockPool -> nat -> STManager -> Z -> Prop :=
  fun p j m x => if decide (j < i) then P' p j m x else P p j m x.

Definition pass_step {A} (op : nat -> M STState A) (P P' : BlockPool -> nat -> STManager -> Z -> Prop)
    (T : BlockPool -> BlockPool -> Prop) : Prop :=
  (forall i e fl s x, st_ok n e fl s -> P (pool s) i (mgr s) x -> (0 <= x <= zlen fl)%Z ->
     wp (op i) (fun _ s' => exists fl', st_ok n e fl' s' /\ T (pool s) (pool s') /\
       (zlen fl - zlen fl' <= x)%Z /\ P' (pool s') i (mgr s') (x - (zlen fl - zlen fl'))%Z) s) /\
  (forall p p' j m x, T p p' -> P p j m x -> P p' j m x) /\
  (forall p p' j m x, T p p' -> P' p j m x -> P' p' j m x).

Lemma pass_one {A} (op : nat -> M STState A) P P' T N c i (Q : A -> KVCache -> Prop) :
  pass_step op P P' T -> i < N -> funded (upto i P P') N c ->
  (forall a c', funded (upto (S i) P P') N c' -> Q a c') -> wp (on_mgr i (op i)) Q c.
Proof using Hslack.
  intros (Hop & HP & HP') Hi Hf HQ. eapply (wp_funded _ _ (upto (S i) P P') T); [exact Hf|done| | |].
  - intros fl m x Hs HR Hx. unfold upto in *. rewrite decide_False in HR by lia.
    eapply wp_mono; [by apply (Hop i _ fl _ x Hs)|]. intros a s' (fl' & ? & ? & ? & ?). exists fl'.
    rewrite decide_True by lia. done.
  - intros p' j m x Hji HR HT. unfold upto in *. destruct (decide (j < i)).
    + rewrite decide_True by lia. by eapply HP'.
    + rewrite decide_False by lia. by eapply HP.
  - intros a c' Hf' _. by apply HQ.
Qed.

Lemma upto_0 P P' N c : funded P N c -> funded (upto 0 P P') N c.
Proof using.
  intros (fl & b & ? & ? & ? & ? & ? & HR). exists fl, b. split_and!; try done.
Qed.

Lemma upto_all P P' N c : funded (upto N P P') N c -> funded P' N c.
Proof using.
  intros (fl & b & ? & HN & ? & ? & ? & HR). exists fl, b. split_and!; try done.
  intros j m x Hj Hx. specialize (HR j m x Hj Hx). unfold upto in HR.
  rewrite decide_True in HR; [done|]. apply lookup_lt_Some in Hj. lia.
Qed.

Lemma funded_mfor (op : nat -> M STState unit) P P' T N c (Q : unit -> KVCache -> Prop) :
  pass_step op P P' T -> funded P N c -> (forall c', funded P' N c' -> Q tt c') ->
  wp (mfor (seq 0 N) (fun i => on_mgr i (op i))) Q c.
Proof using Hslack.
  intros Hop Hf HQ. apply (wp_for_seq (fun i => funded (upto i P P') N)); [by apply upto_0| |].
  - intros i c' Hi Hc'. eapply (pass_one op P P' T N); [done|lia|done|done].
  - intros c' Hc'. by apply HQ, (upto_all P).
Qed.

Lemma funded_mmap {A} (op : nat -> M STState A) P P' T N c (Q : list A -> KVCache -> Prop) :
  pass_step op P P' T -> funded P N c ->
  (forall l c', funded P' N c' -> length l = N -> Q l c') ->
  wp (mmap (fun i => on_mgr i (op i)) (seq 0 N)) Q c.
Proof using Hslack.
  intros Hop Hf HQ. apply (wp_mmap_seq (fun i => funded (upto i P P') N)); [by apply upto_0| |].
  - intros i c' Hi Hc'. eapply (pass_one op P P' T N); [done|lia|done|done].
  - intros l c' Hc' Hl. apply HQ; [by apply (upto_all P)|done].
Qed.
End funded.

(** ** The three passes of an allocation *)

Section passes.
Context (n : nat) (rid : string) (t enc local external : Z) (ncbs : list (list ref)).

(** The tokens a manager needs slots for. *)
Definition t_of (m : STManager) : Z := match st_kind m with CrossAttention => enc | _ => t end.

(** The prediction for one manager. *)
Definition predicted (m : STManager) (p : BlockPool) (ncb : list ref) : outcome Z :=
  match st_kind m with
  | CrossAttention => get_num_blocks_to_allocate m p rid enc [] 0 0 false
  | _ => get_num_blocks_to_allocate m p rid t ncb (local + external) local false
  end.

(** A request the manager does not know yet, with its part [ncb] of the lookup. *)
Definition fresh (m : STManager) (ncb : list ref) : Prop :=
  blocks_of m rid = [] /\ num_cached_block m !! rid = None /\
  match st_kind m with
  | DFlashRing _ _ => ncb = [] /\ external = 0%Z
  | CircularBuffer => True
  | CrossAttention => ncb = []
  | _ => hit_ok n m ncb local /\ (st_enable_caching m = true \/ ncb = [])
  end.

Definition before_add (p : BlockPool) (j : nat) (m : STManager) (x : Z) : Prop :=
  exists ncb k, ncbs !! j = Some ncb /\ fresh m ncb /\ predicted m p ncb = Ok k /\ (k <= x)%Z.

(** The rest of the demand is covered. *)
Definition covered (p : BlockPool) (j : nat) (m : STManager) (x : Z) : Prop :=
  (demand m rid (t_of m) <= x)%Z /\
  match st_kind m with DFlashRing _ _ => external = 0%Z | _ => True end.

Definition satisfied (p : BlockPool) (j : nat) (m : STManager) (x : Z) : Prop :=
  demand m rid (t_of m) = 0%Z.

(** Blocks only leave the set of evictable ones. *)
Definition fewer_evictable (p p' : BlockPool) : Prop :=
  forall i, i < n -> refs p' i = 0%Z -> is_null (blk p' (Blk i)) = false ->
    refs p i = 0%Z /\ is_null (blk p (Blk i)) = false.

Lemma evictable_mono p p' l :
  fewer_evictable p p' -> blocks_ok n l -> (get_num_evictable_blocks p' l <= get_num_evictable_blocks p l)%Z.
Proof using.
  intros HT Hl. unfold get_num_evictable_blocks, zlen. apply inj_le.
  induction Hl as [|r l (i & -> & Hi) Hl IH]; [done|].
  destruct (decide (refs p' i = 0%Z /\ is_null (blk p' (Blk i)) = false)) as [[H1 H2]|Hno].
  - rewrite !(filter_cons_True _ (Blk i)) by (done || by apply HT). simpl. lia.
  - rewrite (filter_cons_False _ (Blk i)) by done. rewrite (filter_cons _ (Blk i)). case_decide; simpl; lia.
Qed.

Lemma predicted_mono p p' m ncb k :
  fewer_evictable p p' -> fresh m ncb -> predicted m p ncb = Ok k ->
  exists k', predicted m p' ncb = Ok k' /\ (k' <= k)%Z.
Proof using.
  intros HT (Hb & Hc & Hk) Hp. unfold predicted, get_num_blocks_to_allocate in *.
  assert (Hbase : forall l a b, blocks_ok n l ->
    base_num_blocks_to_allocate m p rid t l a b false = Ok k ->
    exists k', base_num_blocks_to_allocate m p' rid t l a b false = Ok k' /\ (k' <= k)%Z).
  { intros l a b Hl Hk'. unfold base_num_blocks_to_allocate in *. rewrite Hc in *.
    rewrite bool_decide_false in * by (by intros []). injection Hk' as <-. eexists. split; [done|].
    apply Z.add_le_mono_l. apply evictable_mono; [done|]. by apply Forall_drop. }
  assert (Hcross : forall k0, base_num_blocks_to_allocate m p rid enc [] 0 0 false = Ok k0 ->
    exists k', base_num_blocks_to_allocate m p' rid enc [] 0 0 false = Ok k' /\ (k' <= k0)%Z).
  { intros k0 Hk0. unfold base_num_blocks_to_allocate in *. rewrite Hc in *.
    rewrite bool_decide_false in * by (by intros []). injection Hk0 as <-. eexists. split; [done|].
    by rewrite drop_nil. }
  destruct (st_kind m); try (apply Hbase; [apply Hk|done]); try (eexists; split; [done|injection Hp; lia]).
  by apply Hcross.
Qed.

Lemma added_fewer ext ncb loc tot fl s fl' s' :
  added n ext rid ncb loc tot fl s fl' s' -> st_ok n ext fl s -> fewer_evictable (pool s) (pool s').
Proof using.
  intros Ha Hs i Hi Hr0 Hnull. destruct (so_pool _ _ _ _ Hs) as [_ Hf].
  destruct (so_pool _ _ _ _ (ad_ok _ _ _ _ _ _ _ _ _ _ Ha)) as [_ Hf'].
  rewrite (fo_null _ _ _ _ Hf') in Hnull by done. rewrite (fo_null _ _ _ _ Hf) by done. split; [|done].
  apply bool_decide_eq_false in Hnull. pose proof (ad_refs _ _ _ _ _ _ _ _ _ _ Ha i).
  pose proof (fo_ref _ _ _ _ Hf i ltac:(lia)). lia.
Qed.

Lemma t_of_config m m' : st_config m' = st_config m -> t_of m' = t_of m.
Proof using. intros Hc. unfold t_of. by rewrite (st_config_kind _ _ Hc). Qed.

(** Pass 1: the lookup results are added to every group. *)
Lemma add_local_pass :
  pass_step n (fun i => ncb ← of_option IndexError (ncbs !! i);
                        add_local_computed_blocks rid ncb local external)
    before_add covered fewer_evictable.
Proof using.
  split_and!.
  2:{ intros p p' j m x HT (ncb & k & Hn & Hf & Hp & Hle).
      destruct (predicted_mono p p' m ncb k HT Hf Hp) as (k' & Hp' & Hle'). exists ncb, k'. split_and!; try done. lia. }
  2:{ done. }
  intros i e fl s x Hs (ncb & k & Hn & (Hb & Hc & Hf) & Hp & Hle) Hx. rewrite Hn. wp_steps.
  unfold add_local_computed_blocks, get_mgr. wp_steps. unfold predicted in Hp.
  assert (Hbase : st_kind (mgr s) <> CrossAttention -> base_kind (st_kind (mgr s)) = true ->
    hit_ok n (mgr s) ncb local /\ (st_enable_caching (mgr s) = true \/ ncb = []) ->
    base_num_blocks_to_allocate (mgr s) (pool s) rid t ncb (local + external) local false = Ok k ->
    wp (base_add_local_computed_blocks rid ncb local external) (fun _ s' => exists fl', st_ok n e fl' s' /\
      fewer_evictable (pool s) (pool s') /\ (zlen fl - zlen fl' <= x)%Z /\
      covered (pool s') i (mgr s') (x - (zlen fl - zlen fl'))%Z) s).
  { intros Hnc Hbk [Hhit Hca] Hpk. eapply wp_mono; [by apply (base_add_local_spec n e fl s)|].
    intros [] s' (fl' & Ha). exists fl'. pose proof (ad_frame _ _ _ _ _ _ _ _ _ _ Ha) as Hfr.
    pose proof (fr_config _ _ _ Hfr) as Hcfg.
    pose proof (predicts_added n e rid ncb local external t fl s fl' s' k Hbk Hb Hc Hpk Ha) as Hd.
    pose proof (demand_nonneg (mgr s') rid t). split_and!; [apply Ha|by eapply added_fewer|lia|].
    split; [|rewrite (st_config_kind _ _ Hcfg); by destruct (st_kind (mgr s))].
    rewrite (t_of_config _ _ Hcfg). unfold t_of. destruct (st_kind (mgr s)); try done; lia. }
  assert (Hstay : forall s', st_ok n e fl s' -> pool s' = pool s -> st_config (mgr s') = st_config (mgr s) ->
    covered (pool s') i (mgr s') x ->
    exists fl', st_ok n e fl' s' /\ fewer_evictable (pool s) (pool s') /\ (zlen fl - zlen fl' <= x)%Z /\
      covered (pool s') i (mgr s') (x - (zlen fl - zlen fl'))%Z).
  { intros s' Hs' -> _ Hcov. exists fl. split_and!; [done|by intros ? ?|lia|]. by rewrite Z.sub_diag, Z.sub_0_r. }
  pose proof (fresh_no_partial n _ _ (so_wf _ _ _ _ Hs) Hb) as Hnp.
  destruct (st_kind (mgr s)) eqn:Hk; try (apply Hbase; [done|done|exact Hf|];
    unfold get_num_blocks_to_allocate in Hp; by rewrite Hk in Hp).
  - destruct Hf as [-> He]. wp_steps. rewrite He. wp_steps. split; [done|]. wp_steps.
    eapply wp_req_blocks; [exact Hs|]. intros s1 -> Hs1. unfold modify_mgr. wp_steps.
    apply Hstay; [by eapply st_ok_same|done|done|]. unfold covered, demand, t_of. simpl. rewrite Hk. lia.
  - wp_steps. apply Hstay; [done|done|done|]. unfold get_num_blocks_to_allocate in Hp. rewrite Hk in Hp.
    injection Hp as <-. unfold covered, demand, t_of. rewrite Hk. split; [|done]. exact Hle.
  - subst ncb. wp_steps. split; [done|]. apply Hstay; [done|done|done|].
    rewrite predicts_continuing in Hp.
    + injection Hp as <-. unfold covered, t_of. rewrite Hk. done.
    + split; [done|right]. rewrite Hb. unfold skip_blocks, get_num_skipped_tokens. rewrite Hk.
      rewrite Z.div_0_l; [unfold zlen; simpl; lia|]. pose proof (wf_bs _ _ (so_wf _ _ _ _ Hs)). lia.
Qed.

(** Pass 2: blocks for externally computed tokens. *)
Lemma external_pass :
  (local + external <= t)%Z -> (0 < external)%Z ->
  pass_step n (fun _ => allocate_external_computed_blocks rid local external) covered covered (fun _ _ => True).
Proof using.
  intros Ht He. split_and!; [|done|done]. intros i e fl s x Hs [Hd Hk] Hx.
  assert (HkD : forall w e', st_kind (mgr s) <> DFlashRing w e').
  { intros w e' Hk'. rewrite Hk' in Hk. lia. }
  destruct (decide (st_kind (mgr s) = CrossAttention)) as [Hcr|Hcr].
  - unfold allocate_external_computed_blocks, get_mgr. wp_steps. rewrite Hcr. wp_steps. exists fl.
    split_and!; [done|done|lia|]. split; [lia|]. by rewrite Hcr.
  - assert (Htof : t_of (mgr s) = t) by (unfold t_of; by destruct (st_kind (mgr s))). rewrite Htof in Hd.
    eapply wp_mono; [apply (allocate_external_spec n e fl s rid local external t Hs HkD Ht); lia|].
    intros [] s' (fl' & Hstep & _). exists fl'. pose proof (as_len _ _ _ _ _ _ _ _ Hstep) as Hlen.
    pose proof (fr_config _ _ _ (as_frame _ _ _ _ _ _ _ _ Hstep)) as Hcfg.
    pose proof (demand_nonneg (mgr s') rid t). split_and!; [apply Hstep|done|lia|].
    split; [|by rewrite (st_config_kind _ _ Hcfg)]. rewrite (t_of_config _ _ Hcfg), Htof. lia.
Qed.

(** Pass 3: blocks for the tokens to be computed. *)
Lemma allocate_pass :
  pass_step n (fun _ => k ← get_mgr st_kind;
     allocate_new_blocks rid (match k with CrossAttention => enc | _ => t end)) covered satisfied (fun _ _ => True).
Proof using.
  split_and!; [|done|done]. intros i e fl s x Hs [Hd Hk] Hx. unfold get_mgr at 1. wp_steps.
  fold (t_of (mgr s)).
  eapply wp_mono; [apply (allocate_new_spec n e fl s rid (t_of (mgr s)) Hs); lia|].
  intros l s' (fl' & Hstep & H0 & _). exists fl'. pose proof (as_len _ _ _ _ _ _ _ _ Hstep) as Hlen.
  pose proof (fr_config _ _ _ (as_frame _ _ _ _ _ _ _ _ Hstep)) as Hcfg.
  split_and!; [apply Hstep|done|lia|]. unfold satisfied. by rewrite (t_of_config _ _ Hcfg).
Qed.
End passes.
