(* ===== verification/KVAllocThms.v ===== *)
(** [allocate_slots] as a whole: it never fails half-way, it keeps every block accounted
    for, and it leaves the reserved blocks free. *)
From S2P Require Import Prelude KVBlock FreeQueue Request BlockHash BlockPool BlockPoolInv BlockPoolSpec BlockPoolCache BlockPoolThms CacheHit SingleType SingleTypeInv SingleTypeAlloc SingleTypeFree KVCoordinator KVManager KVAlloc.

(** ** The prediction summed over the managers *)

Section prediction.
Context (n : nat) (rid : string) (t enc local external : Z).

Lemma predicted_nonneg m p ncb k :
  predicted rid t enc local external m p ncb = Ok k -> (0 <= k)%Z.
Proof using.
  unfold predicted, get_num_blocks_to_allocate.
  assert (Hbase : forall t' l a b, base_num_blocks_to_allocate m p rid t' l a b false = Ok k -> (0 <= k)%Z).
  { intros t' l a b. unfold base_num_blocks_to_allocate. rewrite cap_off. case_bool_decide.
    - destruct (negb _); [done|]. intros [= <-]. lia.
    - intros [= <-]. unfold get_num_evictable_blocks, zlen. case_match; lia. }
  destruct (st_kind m); try apply Hbase; try (intros [= <-]; lia). case_bool_decide; intros [= <-]; lia.
Qed.

(** If every manager predicts, the sum exists and its parts are the predictions. *)
Lemma sum_predicted ms p ncbs :
  length ncbs = length ms ->
  (forall j m ncb, ms !! j = Some m -> ncbs !! j = Some ncb ->
     exists k, predicted rid t enc local external m p ncb = Ok k) ->
  exists b, sum_blocks_to_allocate ms p rid t ncbs enc (local + external) local false = Ok (sumZ b) /\
    length b = length ms /\
    forall j m ncb x, ms !! j = Some m -> ncbs !! j = Some ncb -> b !! j = Some x ->
      predicted rid t enc local external m p ncb = Ok x.
Proof using.
  revert ncbs. induction ms as [|m ms IH]; intros [|ncb ncbs] Hlen Hp; try done.
  { by exists []. }
  destruct (Hp 0 m ncb eq_refl eq_refl) as [k Hk].
  destruct (IH ncbs) as (b & Hb & Hlb & Hparts); [by injection Hlen| |].
  { intros j m' ncb' Hj Hn. apply (Hp (S j)); done. }
  exists (k :: b). split_and!; [|simpl; lia|].
  - simpl. rewrite Hb. unfold predicted in Hk. destruct (st_kind m); by rewrite Hk.
  - intros [|j] m' ncb' x Hj Hn Hx; simplify_eq/=; [done|]. by eapply Hparts.
Qed.
End prediction.

(** ** Preconditions of a call *)

Section call.
Context (n : nat) (rid : string) (t enc local external : Z).

(** A request that already has its blocks: nothing to add. *)
Definition resumed (m : STManager) : Prop :=
  continuing m rid (match st_kind m with CrossAttention => 0 | _ => local + external end) /\
  match st_kind m with DFlashRing _ _ => external = 0%Z | _ => True end.

(** Every manager sees a new request with its part of the lookup, or none does. *)
Definition call_pre (is_fresh : bool) (ncbs : list (list ref)) (j : nat) (m : STManager) : Prop :=
  exists ncb, ncbs !! j = Some ncb /\
    if is_fresh then fresh n rid local external m ncb else resumed m /\ ncb = [].

Lemma predicted_ok is_fresh ncbs p j m ncb :
  st_wf n m -> call_pre is_fresh ncbs j m -> ncbs !! j = Some ncb ->
  exists k, predicted rid t enc local external m p ncb = Ok k /\
    (is_fresh = false -> k = demand m rid (t_of t enc m)).
Proof using.
  intros Hw (ncb' & Hn & Hpre) Hn'. rewrite Hn in Hn'. injection Hn' as ->. destruct is_fresh.
  - destruct Hpre as (Hb & Hc & _). unfold predicted, get_num_blocks_to_allocate, base_num_blocks_to_allocate.
    rewrite Hc, bool_decide_false by (by intros []). destruct (st_kind m); eexists; done.
  - destruct Hpre as [[Hcont _] ->]. unfold predicted, t_of in *.
    destruct (st_kind m); rewrite predicts_continuing by done; by eexists.
Qed.

(** Releasing skipped blocks keeps the precondition. *)
Lemma trimmed_pre ext a b fl s fl' s' is_fresh ncbs j :
  trimmed n ext rid a b fl s fl' s' -> call_pre is_fresh ncbs j (mgr s) -> call_pre is_fresh ncbs j (mgr s').
Proof using.
  intros [_ Hf Hc Hp Hl _ _ _ _] (ncb & Hn & Hpre). pose proof (fr_config _ _ _ Hf) as Hcfg.
  pose proof (st_config_kind _ _ Hcfg) as Hk. pose proof (st_config_bs _ _ Hcfg) as Hbs.
  exists ncb. split; [done|]. destruct is_fresh.
  - destruct Hpre as (Hb & Hnc & Hkind). split_and!; [|by rewrite Hc|].
    + rewrite Hb in Hl. by apply length_zero_iff_nil.
    + rewrite Hk. unfold hit_ok in *. rewrite Hbs, (st_config_caching _ _ Hcfg). done.
  - destruct Hpre as [[[Hpn Hcont] Hd] ->]. split; [|done]. unfold resumed, continuing, skip_blocks, get_num_skipped_tokens.
    rewrite Hk, Hbs, Hp, Hc. unfold zlen. rewrite Hl. done.
Qed.
End call.

(** ** The whole allocation *)

Lemma mfor_ext {S A} (f g : A -> M S unit) l :
  (forall x s, x ∈ l -> f x s = g x s) -> forall s, mfor l f s = mfor l g s.
Proof.
  induction l as [|x l IH]; intros Hfg s; [done|]. simpl. unfold mbind, M_bind. rewrite Hfg by set_solver.
  destruct (g x s) as [[a|e] s']; [|done]. apply IH. set_solver.
Qed.

Lemma wp_ext {S A} (m m' : M S A) Q s : m s = m' s -> wp m' Q s -> wp m Q s.
Proof. unfold wp. by intros ->. Qed.

Lemma trimmed_more_free n ext rid a b fl s fl' s' :
  st_ok n ext fl s -> trimmed n ext rid a b fl s fl' s' -> (zlen fl <= zlen fl')%Z.
Proof.
  intros Hs Ht. destruct (so_pool _ _ _ _ Hs) as [_ Hf]. pose proof (fo_nodup _ _ _ _ Hf) as Hnd.
  rewrite app_nil_r in Hnd. unfold zlen. apply inj_le, submseteq_length, NoDup_submseteq; [done|]. apply Ht.
Qed.

Section whole.
Context (n : nat) (ext : nat -> Z) (rid : string) (t enc local external : Z).
Context (ncbs : list (list ref)) (is_fresh : bool).
Local Abbreviation pre := (call_pre n rid local external is_fresh ncbs).

Lemma pre_no_partial j m : st_wf n m -> pre j m -> partial_hit_reqs m !! rid = None.
Proof using.
  intros Hw (ncb & _ & Hp). destruct is_fresh; [by eapply fresh_no_partial; [|apply Hp]|]. apply Hp.
Qed.

Lemma remove_pass P np :
  (0 <= np)%Z ->
  pass_step n (fun _ => remove_skipped_blocks rid P (Some np)) (fun _ j m _ => pre j m) (fun _ j m _ => pre j m)
    (fun _ _ => True).
Proof using ext.
  intros Hnp. split_and!; [|done|done]. intros i e fl s x Hs Hpre Hx.
  eapply wp_mono; [apply (remove_skipped_spec n e fl s rid P (Some np) Hs)|].
  - by eapply pre_no_partial; [apply Hs|].
  - by intros ? [= <-].
  - intros [] s' (fl' & Htr). exists fl'. pose proof (trimmed_more_free _ _ _ _ _ _ _ _ _ Hs Htr).
    split_and!; [apply Htr|done|lia|]. exact (trimmed_pre n rid local external e _ _ fl s fl' s' _ _ _ Htr Hpre).
Qed.

Lemma coord_remove_spec fl c P np :
  kv_ok n ext fl c -> (0 <= np)%Z -> (forall j m, managers c !! j = Some m -> pre j m) ->
  wp (coord_remove_skipped_blocks rid P (Some np)) (fun _ c' => exists fl', kv_ok n ext fl' c' /\
    length (managers c') = length (managers c) /\ (forall j m, managers c' !! j = Some m -> pre j m)) c.
Proof using.
  intros Hok Hnp Hpre. unfold coord_remove_skipped_blocks, manager_ids. wp_steps. unfold id.
  eapply (funded_mfor n ext 0 ltac:(lia) _ _ _ _ _ c _ (remove_pass P np Hnp)).
  - exists fl, (replicate (length (managers c)) 0%Z). split_and!; [done|done|by rewrite length_replicate| | |].
    + rewrite sumZ_zero. unfold zlen. lia.
    + intros j x [-> _]%lookup_replicate. lia.
    + intros j m x Hj _. by apply Hpre.
  - intros c' (fl' & b & Hok' & HN & Hb & _ & _ & HR). exists fl'. split_and!; [done|done|].
    intros j m Hj. destruct (lookup_lt_is_Some_2 b j) as [x Hx]; [apply lookup_lt_Some in Hj; lia|].
    by eapply HR.
Qed.

(** The predictions of all managers fund the allocation. *)
Lemma prediction_funds slack fl c :
  kv_ok n ext fl c -> length ncbs = length (managers c) ->
  (forall j m, managers c !! j = Some m -> pre j m) ->
  exists k, sum_blocks_to_allocate (managers c) (kv_pool c) rid t ncbs enc (local + external) local false = Ok k /\
    ((k + slack <= zlen fl)%Z ->
      funded n ext slack (if is_fresh then before_add n rid t enc local external ncbs
                          else covered rid t enc external) (length (managers c)) c).
Proof using.
  intros Hok Hlen Hpre.
  assert (Hp : forall j m ncb, managers c !! j = Some m -> ncbs !! j = Some ncb ->
    exists k, predicted rid t enc local external m (kv_pool c) ncb = Ok k /\
      (is_fresh = false -> k = demand m rid (t_of t enc m))).
  { intros j m ncb Hj Hn. eapply predicted_ok; [by eapply Hok|by apply Hpre|done]. }
  destruct (sum_predicted rid t enc local external (managers c) (kv_pool c) ncbs Hlen) as (b & Hsum & Hlb & Hparts).
  { intros j m ncb Hj Hn. destruct (Hp j m ncb Hj Hn) as (k & ? & _). eauto. }
  exists (sumZ b). split; [exact Hsum|]. intros Hle.
  assert (Hget : forall j x, b !! j = Some x -> exists m ncb, managers c !! j = Some m /\ ncbs !! j = Some ncb /\
    predicted rid t enc local external m (kv_pool c) ncb = Ok x).
  { intros j x Hx. assert (j < length b) by (by eapply lookup_lt_Some).
    destruct (lookup_lt_is_Some_2 (managers c) j) as [m Hm]; [lia|].
    destruct (lookup_lt_is_Some_2 ncbs j) as [ncb Hn]; [lia|]. exists m, ncb. split_and!; [done|done|by eapply Hparts]. }
  exists fl, b. split_and!; [done|done|done|lia| |].
  - intros j x Hx. destruct (Hget j x Hx) as (m & ncb & _ & _ & Hk). by eapply predicted_nonneg.
  - intros j m x Hj Hx. destruct (Hget j x Hx) as (m' & ncb & Hm' & Hn & Hk).
    rewrite Hj in Hm'. injection Hm' as <-. destruct (Hpre j m Hj) as (ncb' & Hn' & Hpj).
    rewrite Hn in Hn'. injection Hn' as <-. destruct (Hp j m ncb Hj Hn) as (k & Hk' & Hd).
    destruct is_fresh eqn:Ef.
    + exists ncb, x. split_and!; [done|done|done|lia].
    + rewrite Hk in Hk'. injection Hk' as <-. rewrite (Hd eq_refl). split; [lia|]. apply Hpj.
Qed.

(** Adding the lookup results and the external blocks of a new request. *)
Lemma add_computed_spec slack N c (Q : unit -> KVCache -> Prop) :
  (0 <= slack)%Z -> length ncbs = N -> ((0 < external)%Z -> (local + external <= t)%Z) ->
  funded n ext slack (before_add n rid t enc local external ncbs) N c ->
  (forall c', funded n ext slack (covered rid t enc external) N c' -> Q tt c') ->
  wp (allocate_new_computed_blocks rid ncbs local external) Q c.
Proof using.
  intros Hsl Hlen Ht Hf HQ. unfold allocate_new_computed_blocks. wp_steps. unfold id.
  pose proof Hf as (fl & b & Hok & HN & Hb & _ & _ & HR).
  replace (existsb _ (managers c)) with false.
  2:{ symmetry. apply not_true_iff_false. intros (m & Hin & Hc)%existsb_exists.
      apply list_elem_of_In, list_elem_of_lookup_1 in Hin as [j Hj].
      destruct (lookup_lt_is_Some_2 b j) as [x Hx]; [apply lookup_lt_Some in Hj; lia|].
      destruct (HR j m x Hj Hx) as (ncb & k & _ & (_ & Hnone & _) & _). rewrite Hnone in Hc.
      by apply bool_decide_eq_true in Hc as []. }
  unfold manager_ids. rewrite HN. rewrite wp_bind.
  eapply wp_ext; [eapply (mfor_ext _ (fun i => on_mgr i (ncb ← of_option IndexError (ncbs !! i);
    add_local_computed_blocks rid ncb local external)))|].
  { intros i c' Hi%elem_of_seq. destruct (lookup_lt_is_Some_2 ncbs i) as [ncb ->]; [lia|].
    unfold mbind, M_bind, on_mgr. simpl. by destruct (managers c' !! i). }
  eapply (funded_mfor n ext slack Hsl _ _ _ _ _ c _ (add_local_pass n rid t enc local external ncbs) Hf).
  intros c1 Hf1. unfold mwhen. destruct (Z.ltb_spec 0 external) as [He|He]; [|by apply HQ].
  eapply (funded_mfor n ext slack Hsl _ _ _ _ _ c1 _ (external_pass n rid t enc local external (Ht He) He) Hf1).
  exact HQ.
Qed.
End whole.

(** What a successful allocation leaves: slots for all tokens in every group, and
    [slack] blocks still free. *)
Definition has_slots (rid : string) (t enc : Z) (c : KVCache) : Prop :=
  forall j m, managers c !! j = Some m -> demand m rid (t_of t enc m) = 0%Z.

Lemma allocate_blocks_spec n ext fl c r a ncbs :
  let rid := request_id r in
  let local := local_tokens r a in
  let external := num_external_computed_tokens a in
  let is_fresh := negb (computed_shared_empty a) || (0 <? external)%Z in
  kv_ok n ext fl c -> length ncbs = length (managers c) ->
  (forall j m, managers c !! j = Some m -> call_pre n rid local external is_fresh ncbs j m) ->
  (0 <= num_prompt_tokens r)%Z -> (0 <= reserved_blocks a)%Z -> (0 <= watermark_blocks c)%Z ->
  ((0 < external)%Z -> (local + external <= tokens_need_slot c r a)%Z) ->
  wp (allocate_blocks r a ncbs) (fun o c' => exists fl', kv_ok n ext fl' c' /\
    match o with
    | None => True
    | Some ls => length ls = length (managers c) /\
        has_slots rid (tokens_need_slot c r a) (num_encoder_tokens a) c' /\
        (reserved_blocks a + watermark_for c r a <= zlen fl')%Z
    end) c.
Proof.
  intros rid local external is_fresh Hok Hlen Hpre Hnp Hres Hwm Ht. unfold allocate_blocks.
  fold rid local external. set (t := tokens_need_slot c r a) in *. wp_steps. unfold id.
  assert (Hw0 : (0 <= watermark_for c r a)%Z) by (unfold watermark_for; case_match; lia).
  eapply wp_mono; [by apply (coord_remove_spec n ext rid local external ncbs is_fresh fl c _ _ Hok Hnp Hpre)|].
  intros [] c1 (fl1 & Hok1 & HN1 & Hpre1). unfold coord_num_blocks_to_allocate. wp_steps. unfold id.
  destruct (prediction_funds n ext rid t (num_encoder_tokens a) local external ncbs is_fresh
    (reserved_blocks a + watermark_for c r a) fl1 c1 Hok1 ltac:(congruence) Hpre1) as (k & Hk & Hfund).
  fold t. rewrite Hk. change (lift_outcome (Ok k)) with (mret k : M KVCache Z). wp_steps. unfold id.
  unfold get_num_free_blocks. rewrite (repr_num _ _ (fo_repr _ _ _ _ (proj2 (ko_pool _ _ _ _ Hok1)))).
  destruct (Z.ltb_spec (Z.of_nat (length fl1) - reserved_blocks a) (k + watermark_for c r a)) as [Hlt|Hge].
  { wp_steps. by exists fl1. }
  assert (Hf : funded n ext (reserved_blocks a + watermark_for c r a)
    (if is_fresh then before_add n rid t (num_encoder_tokens a) local external ncbs
     else covered rid t (num_encoder_tokens a) external) (length (managers c1)) c1)
    by (apply Hfund; unfold zlen; lia).
  assert (Hcov : wp (mwhen (negb (computed_shared_empty a) || (0 <? external)%Z)
      (allocate_new_computed_blocks rid ncbs local external))
    (fun _ c2 => funded n ext (reserved_blocks a + watermark_for c r a)
       (covered rid t (num_encoder_tokens a) external) (length (managers c1)) c2) c1).
  { fold is_fresh. destruct is_fresh; [|exact Hf]. cbn [mwhen].
    eapply (add_computed_spec n ext rid t (num_encoder_tokens a) local external ncbs _ (length (managers c1)) c1 _);
      [|congruence|done|exact Hf|done]. lia. }
  wp_steps. eapply wp_mono; [exact Hcov|]. intros [] c2 Hf2. cbv beta in Hf2. wp_steps.
  unfold coord_allocate_new_blocks, manager_ids. wp_steps. unfold id.
  pose proof Hf2 as (fl2 & b2 & _ & HN2 & _). rewrite HN2.
  eapply (funded_mmap n ext (reserved_blocks a + watermark_for c r a) ltac:(lia) _ _ _ _ _ c2 _ (allocate_pass n rid t (num_encoder_tokens a) external) Hf2).
  intros ls c3 (fl3 & b3 & Hok3 & HN3 & Hb3 & Hsum & Hpos & HR) Hls. wp_steps. exists fl3.
  split; [done|]. split_and!; [congruence| |].
  - intros j m Hj. destruct (lookup_lt_is_Some_2 b3 j) as [x Hx]; [apply lookup_lt_Some in Hj; lia|].
    exact (HR j m x Hj Hx).
  - assert (0 <= sumZ b3)%Z; [|lia]. clear -Hpos. induction b3 as [|x b3 IH]; simpl; [lia|].
    pose proof (Hpos 0 x eq_refl). assert (0 <= sumZ b3)%Z; [|lia]. apply IH. intros j y. apply (Hpos (S j)).
Qed.

(** ** The admission gate *)

Lemma sum_blocks_total ms p rid t enc tot loc cap : forall ncbs, length ncbs = length ms ->
  (forall j m ncb, ms !! j = Some m -> ncbs !! j = Some ncb -> is_Some (num_cached_block m !! rid) -> ncb = []) ->
  exists k, sum_blocks_to_allocate ms p rid t ncbs enc tot loc cap = Ok k.
Proof.
  induction ms as [|m ms IH]; intros [|ncb ncbs] Hlen Hemp; try done; [by eexists|]. simpl.
  destruct (IH ncbs) as [k' ->]; [by injection Hlen|intros j m' ncb'; apply (Hemp (S j))|].
  assert (Hg : forall t' l a b, (is_Some (num_cached_block m !! rid) -> l = []) ->
    exists k, get_num_blocks_to_allocate m p rid t' l a b cap = Ok k).
  { intros t' l a b Hl. unfold get_num_blocks_to_allocate, base_num_blocks_to_allocate.
    case_match; try (by eexists); (case_bool_decide as Hc; [rewrite (Hl Hc)|]; by eexists). }
  specialize (Hemp 0 m ncb eq_refl eq_refl).
  destruct (Hg t ncb tot loc Hemp) as [k Hk]. destruct (Hg enc [] 0%Z 0%Z (fun _ => eq_refl)) as [k0 Hk0].
  rewrite Hk0. destruct (st_kind m); rewrite ?Hk; by eexists.
Qed.

(** ** Caching the new blocks *)

(** The groups keep their configuration and the blocks of [rid]. *)
Definition slots_kept (rid : string) (c c' : KVCache) : Prop :=
  length (managers c') = length (managers c) /\
  forall j m, managers c !! j = Some m -> exists m', managers c' !! j = Some m' /\
    st_config m' = st_config m /\ blocks_of m' rid = blocks_of m rid /\
    partial_hit_reqs m' = partial_hit_reqs m.

Lemma slots_kept_demand rid c c' t enc : slots_kept rid c c' -> has_slots rid t enc c -> has_slots rid t enc c'.
Proof.
  intros [Hlen Hk] Hs j m' Hj. destruct (lookup_lt_is_Some_2 (managers c) j) as [m Hm].
  { apply lookup_lt_Some in Hj. lia. }
  destruct (Hk j m Hm) as (m2 & Hm2 & Hcfg & Hb & Hp). rewrite Hj in Hm2. injection Hm2 as <-.
  specialize (Hs j m Hm). rewrite (t_of_config _ _ _ _ Hcfg). unfold demand in *.
  by rewrite (st_config_kind _ _ Hcfg), (st_config_bs _ _ Hcfg), Hb, Hp.
Qed.

Lemma wpe_on_mgr {A} (op : M STState A) (Q : A -> KVCache -> Prop) (E : KVCache -> Prop) c i m :
  managers c !! i = Some m ->
  wpe op (fun a s' => Q a (put_mgr i s' c)) (fun s' => E (put_mgr i s' c)) {| mgr := m; pool := kv_pool c |} ->
  wpe (on_mgr i op) Q E c.
Proof.
  intros Hi Hop. unfold wpe, on_mgr in *. rewrite Hi. by destruct (op _) as [[a|e] s'].
Qed.

Lemma coord_cache_keeps sha256 n ext fl r num c :
  kv_ok n ext fl c ->
  let kept_c := fun c' => kv_ok n ext fl c' /\ slots_kept (request_id r) c c' in
  wpe (coord_cache_blocks sha256 r num) (fun _ => kept_c) kept_c c.
Proof.
  intros Hok kept_c. unfold coord_cache_blocks. rewrite wpe_bind, wpe_gets. unfold id.
  generalize (get_replay_boundary c r). intros rb.
  enough (Hloop : forall l r1 c1, request_id r1 = request_id r -> kept_c c1 -> (forall i, i ∈ l -> i < length (managers c)) ->
    wpe (mfold (fun r i => m ← of_option IndexError (managers c !! i);
      on_mgr i (cache_blocks sha256 r (num_tokens_to_cache c m num) (retention_interval c) rb)) r1 l)
      (fun _ => kept_c) kept_c c1).
  { apply Hloop; [done| |by intros i Hi%elem_of_seq; lia]. split; [done|split; [done|]]. eauto. }
  induction l as [|i l IH]; intros r1 c1 Hid Hk Hl; [done|]. simpl. rewrite wpe_bind.
  assert (Hi : i < length (managers c)) by (apply Hl; set_solver). destruct Hk as [Hok1 [Hlen Hks]].
  destruct (lookup_lt_is_Some_2 (managers c) i Hi) as [m Hm]. rewrite Hm. simpl.
  destruct (Hks i m Hm) as (m1 & Hm1 & Hcfg & Hb & Hp). rewrite wpe_bind, wpe_ret.
  assert (Hstep : forall s', cached_step n (others ext c1 m1) (request_id r) fl {| mgr := m1; pool := kv_pool c1 |} s' ->
    kept_c (put_mgr i s' c1)).
  { intros s' [Cok Cf Cb Cp _]. split; [by eapply put_mgr_ok|]. split; [simpl; by rewrite length_insert|].
    intros j mj Hj. simpl. destruct (decide (j = i)) as [->|Hji].
    - rewrite Hm in Hj. injection Hj as <-. exists (mgr s'). rewrite list_lookup_insert_eq by lia.
      simpl in *. split_and!; [done|rewrite (fr_config _ _ _ Cf); done|congruence|congruence].
    - rewrite list_lookup_insert_ne by done. by apply Hks. }
  eapply wpe_on_mgr; [exact Hm1|]. eapply wpe_mono.
  - apply (cache_blocks_keeps sha256 n (others ext c1 m1) (request_id r) fl {| mgr := m1; pool := kv_pool c1 |}); [done|].
    split; [by eapply kv_st_ok|done|done|done|done].
  - intros r' s' [Hid' Hs']. apply IH; [done|by apply Hstep|]. intros k Hk. apply Hl. set_solver.
  - exact Hstep.
Qed.

(** ** [allocate_slots] *)

(** Whether the call brings a lookup result or external tokens, that is, a new request. *)
Definition brings_computed (a : alloc_args) : bool :=
  negb (computed_shared_empty a) || (0 <? num_external_computed_tokens a)%Z.

(** What [allocate_slots] expects of its arguments. *)
Record alloc_pre (n : nat) (c : KVCache) (r : Request) (a : alloc_args) : Prop := {
  ap_len : length (computed_list c a) = length (managers c);
  ap_mgr j m : managers c !! j = Some m ->
    call_pre n (request_id r) (local_tokens r a) (num_external_computed_tokens a) (brings_computed a)
      (computed_list c a) j m;
  ap_prompt : (0 <= num_prompt_tokens r)%Z;
  ap_reserved : (0 <= reserved_blocks a)%Z;
  ap_watermark : (0 <= watermark_blocks c)%Z;
  ap_external : (0 < num_external_computed_tokens a)%Z ->
    (local_tokens r a + num_external_computed_tokens a <= tokens_need_slot c r a)%Z;
}.

(** The request has slots for all its tokens, and the blocks set aside are still free. *)
Definition allocated (c : KVCache) (r : Request) (a : alloc_args) (fl : list nat) (c' : KVCache) : Prop :=
  has_slots (request_id r) (tokens_need_slot c r a) (num_encoder_tokens a) c' /\
  (reserved_blocks a + watermark_for c r a <= zlen fl)%Z.

Lemma gate_total n c r a :
  alloc_pre n c r a ->
  exists b, full_sequence_refused r a (computed_list c a) (clamped_total c r a) (local_tokens r a) c = (Ok b, c).
Proof.
  intros [Hlen Hm _ _ _ _]. unfold full_sequence_refused. destruct (full_sequence_must_fit a); [|by eexists].
  unfold coord_num_blocks_to_allocate, mbind, M_bind, gets, id. simpl.
  destruct (sum_blocks_total (managers c) (kv_pool c) (request_id r) (Z.min (num_tokens r) (max_model_len c))
    (num_encoder_tokens a) (clamped_total c r a) (local_tokens r a) true (computed_list c a) Hlen) as [k ->].
  { intros j m ncb Hj Hn [x Hx]. destruct (Hm j m Hj) as (ncb' & Hn' & Hp). rewrite Hn in Hn'. injection Hn' as <-.
    destruct (brings_computed a); [|apply Hp]. destruct Hp as (_ & Hnone & _). congruence. }
  by eexists.
Qed.

(** The three outcomes of a call. *)
Definition slots_post (n : nat) (ext : nat -> Z) (c : KVCache) (r : Request) (a : alloc_args)
    (res : outcome (option KVCacheBlocks * Request) * KVCache) : Prop :=
  match res with
  | (Ok (None, r'), c') => r' = r /\ exists fl', kv_ok n ext fl' c'
  | (Ok (Some _, _), c') => exists fl', kv_ok n ext fl' c' /\ allocated c r a fl' c'
  | (Raise e, c') =>
      (e = ValueError /\ num_new_tokens a = 0%Z /\ num_external_computed_tokens a = 0%Z /\ c' = c) \/
      (kv_enable_caching c = true /\ delay_cache_blocks a = false /\
       exists fl', kv_ok n ext fl' c' /\ allocated c r a fl' c')
  end.

Lemma allocate_slots_outcome (sha256 : bytes -> bytes) n ext fl c r a :
  kv_ok n ext fl c -> alloc_pre n c r a -> slots_post n ext c r a (allocate_slots sha256 r a c).
Proof.
  intros Hok Hpre. unfold allocate_slots, slots_post.
  destruct (_ && _) eqn:Hz.
  { left. apply andb_true_iff in Hz as [H1 H2]. split_and!; [done|lia|lia|done]. }
  unfold mbind, M_bind, gets, id. cbn -[full_sequence_refused allocate_blocks coord_cache_blocks].
  destruct (gate_total _ _ _ _ Hpre) as [refused ->].
  destruct refused; [by split; [|exists fl]|]. destruct Hpre as [Hlen Hm Hnp Hres Hwm He].
  pose proof (allocate_blocks_spec n ext fl c r a (computed_list c a) Hok Hlen Hm Hnp Hres Hwm He) as Hwp.
  unfold wp in Hwp. destruct (allocate_blocks r a (computed_list c a) c) as [[[ls|]|e] c1]; [| |done].
  2:{ split; [done|]. destruct Hwp as (fl' & Hok' & _). by exists fl'. }
  destruct Hwp as (fl1 & Hok1 & _ & Hsl & Hfree). destruct (negb (kv_enable_caching c) || delay_cache_blocks a) eqn:Hc.
  { exists fl1. done. }
  apply orb_false_iff in Hc as [Hc1 Hc2].
  pose proof (coord_cache_keeps sha256 n ext fl1 r
    (Z.min (clamped_total c r a + num_new_tokens a) (num_tokens r)) c1 Hok1) as Hca. unfold wpe in Hca.
  destruct (coord_cache_blocks _ _ _ _) as [[r'|e] c2]; destruct Hca as [Hok2 Hk2].
  - exists fl1. split; [done|split; [by eapply slots_kept_demand|done]].
  - right. split_and!; [by destruct (kv_enable_caching c)|done|]. exists fl1.
    split; [done|split; [by eapply slots_kept_demand|done]].
Qed.

(** C3. [allocate_slots] is all or nothing and never corrupts the cache.  Whatever the
    mix of attention groups, a call either refuses ([None]), or gives the request slots for
    every token in every group and leaves the reserved and watermark blocks free; it raises
    only for an empty request (before any change) or in the final caching step, when the
    slots are already allocated.  In all cases every block is still accounted for. *)
Theorem allocate_slots_sound (sha256 : bytes -> bytes) n ext fl c r a :
  kv_ok n ext fl c -> alloc_pre n c r a ->
  match allocate_slots sha256 r a c with
  | (Ok (None, r'), c') => r' = r /\ exists fl', kv_ok n ext fl' c'
  | (Ok (Some _, _), c') => exists fl', kv_ok n ext fl' c' /\ allocated c r a fl' c'
  | (Raise e, c') =>
      (e = ValueError /\ num_new_tokens a = 0%Z /\ num_external_computed_tokens a = 0%Z /\ c' = c) \/
      (kv_enable_caching c = true /\ delay_cache_blocks a = false /\
       exists fl', kv_ok n ext fl' c' /\ allocated c r a fl' c')
  end.
Proof. exact (allocate_slots_outcome sha256 n ext fl c r a). Qed.
