(* ===== verification/KVSkip.v ===== *)
(** Releasing the blocks that attention no longer reads: nothing that a later token
    attends to is dropped, and a windowed group stays within its admission cap. *)
From S2P Require Import Prelude KVBlock FreeQueue Request BlockHash BlockPool BlockPoolInv BlockPoolSpec BlockPoolCache BlockPoolThms CacheHit CacheHitThms SlidingHit SingleType SingleTypeInv SingleTypeAlloc SingleTypeFree KVCoordinator KVManager KVAlloc KVAllocThms.

(** ** What is still read *)

(** The token at position [t] reads the KV entry of position [q]; [np] is the number of
    prompt tokens when the caller gives it.  A sliding window also keeps the entries of
    its [extra] trailing tokens. *)
Definition attends (k : manager_kind) (np : option Z) (t q : Z) : Prop :=
  (0 <= q <= t)%Z /\
  match k with
  | SlidingWindow w extra | DFlashRing w extra => (t - w - extra < q)%Z
  | ChunkedLocal chunk => (q / chunk = t / chunk)%Z
  | RSWA window => match np with Some np => (q < np)%Z \/ (t - window <= q)%Z | None => True end
  | FullAttention | CircularBuffer | CrossAttention => True
  end.

(** The sizes of a group's spec are positive. *)
Definition kind_ok (k : manager_kind) : Prop :=
  match k with ChunkedLocal chunk => (0 < chunk)%Z | _ => True end.

Lemma skip_range_safe m P np t q :
  (0 < st_block_size m)%Z -> kind_ok (st_kind m) -> (forall x, np = Some x -> (0 <= x)%Z) ->
  (0 <= P <= t)%Z -> attends (st_kind m) np t q ->
  ~ ((skip_range m P np).1 <= q / st_block_size m < (skip_range m P np).2)%Z.
Proof.
  intros Hbs Hk Hnp HP [Hq Ha]. unfold skip_range, skip_blocks, get_num_skipped_tokens. set (bs := st_block_size m) in *.
  pose proof (Z.div_mod q bs ltac:(lia)) as Hdm. pose proof (Z.mod_pos_bound q bs Hbs) as Hmb.
  assert (Hskip : forall x, (x <= q)%Z -> ~ (0 <= q / bs < x / bs)%Z).
  { intros x Hx [_ Hlt]. pose proof (Z.div_le_mono x q bs Hbs Hx). lia. }
  destruct (st_kind m) eqn:E; simpl in Ha |- *; try (apply Hskip; lia).
  - destruct np as [np|]; simpl; [|apply Hskip; lia]. intros [H1 H2].
    pose proof (cdiv_spec np bs Hbs) as Hc.
    assert (Hqnp : (np <= q)%Z) by nia.
    destruct (Z.max_spec np (P - rswa_window)) as [[Hm Hr]|[Hm Hr]]; rewrite Hr in H2.
    + destruct Ha as [Ha|Ha]; [lia|]. pose proof (Z.div_le_mono (P - rswa_window) q bs Hbs ltac:(lia)). lia.
    + pose proof (Z.div_le_mono np q bs Hbs Hqnp). lia.
  - apply Hskip. simpl in Hk. pose proof (Z.mul_div_le q attention_chunk_size Hk).
    pose proof (Z.div_le_mono P t attention_chunk_size Hk ltac:(lia)). nia.
Qed.

(** C19. [remove_skipped_blocks] of every manager class is safe: after it frees blocks
    on the basis of [P] processed tokens, the block table still has the same block for
    every position that a token at [P] or later attends to, for all the attention
    patterns; other requests' tables are untouched, no reference count grows and the
    references are still accounted for. *)
Theorem remove_skipped_safe n ext fl s rid P np :
  st_ok n ext fl s -> partial_hit_reqs (mgr s) !! rid = None -> kind_ok (st_kind (mgr s)) ->
  (0 <= P)%Z -> (forall x, np = Some x -> (0 <= x)%Z) ->
  exists fl' s', remove_skipped_blocks rid P np s = (Ok tt, s') /\ st_ok n ext fl' s' /\
    (forall t q, (P <= t)%Z -> attends (st_kind (mgr s)) np t q ->
       blocks_of (mgr s') rid !! Z.to_nat (q / st_block_size (mgr s)) =
       blocks_of (mgr s) rid !! Z.to_nat (q / st_block_size (mgr s))) /\
    (forall rid', rid' <> rid -> blocks_of (mgr s') rid' = blocks_of (mgr s) rid') /\
    (forall i, (refs (pool s') i <= refs (pool s) i)%Z).
Proof.
  intros Hs Hp Hk HP Hnp.
  destruct (proj1 (wp_run _ _ _) (remove_skipped_spec n ext fl s rid P np Hs Hp Hnp)) as ([] & s' & Hrun & fl' & Htr).
  exists fl', s'. destruct Htr as [Hok Hf Hc Hpp Hlen Hl Hr _ _]. split_and!; try done.
  - intros t q Ht Ha. set (j := Z.to_nat (q / st_block_size (mgr s))).
    pose proof (wf_bs _ _ (so_wf _ _ _ _ Hs)) as Hbs.
    assert (Hj : Z.of_nat j = (q / st_block_size (mgr s))%Z).
    { unfold j. apply Z2Nat.id, Z.div_pos; [apply Ha|done]. }
    destruct (blocks_of (mgr s) rid !! j) as [b|] eqn:Hb.
    + destruct (Hl j b Hb) as [?|[_ Hrange]]; [done|]. rewrite Hj in Hrange.
      destruct (skip_range_safe (mgr s) P np t q Hbs Hk Hnp (conj HP Ht) Ha Hrange).
    + apply lookup_ge_None_2. apply lookup_ge_None_1 in Hb. lia.
  - intros rid' Hr'. unfold blocks_of. by rewrite (fr_blocks _ _ _ Hf).
Qed.

(** ** The admission cap *)

(** The loop turns the blocks after a null prefix into null blocks. *)
Lemma null_range_prefix null k l tail freed :
  null ∉ l ->
  (null_range null (zrange_down 0 (Z.of_nat (k + length l))) freed (replicate k null ++ l ++ tail)).2
    = replicate (k + length l) null ++ tail.
Proof.
  revert tail freed. induction l as [|b l IH] using rev_ind; intros tail freed Hl.
  - rewrite Nat.add_0_r. destruct k as [|k]; [done|]. rewrite zrange_down_S. cbn [null_range].
    rewrite Nat2Z.id, lookup_app_l, lookup_replicate_2 by (rewrite ?length_replicate; lia).
    by rewrite bool_decide_true.
  - rewrite length_app. simpl. replace (k + (length l + 1)) with (S (k + length l)) by lia.
    rewrite zrange_down_S. cbn [null_range]. rewrite Nat2Z.id.
    rewrite lookup_app_r; rewrite length_replicate; [|lia]. replace (k + length l - k) with (length l) by lia.
    assert (Hlk : ((l ++ [b]) ++ tail) !! length l = Some b) by (rewrite <- app_assoc; by apply list_lookup_middle).
    rewrite Hlk. apply not_elem_of_app in Hl as [Hl Hb].
    rewrite bool_decide_false by (intros ->; apply Hb; set_solver).
    rewrite insert_app_r_alt; rewrite length_replicate; [|lia]. replace (k + length l - k) with (length l) by lia.
    rewrite <- (app_assoc l), insert_app_r_alt, Nat.sub_diag by lia. cbn [app insert list_insert].
    rewrite (IH (null :: tail)) by done. change (null :: tail) with ([null] ++ tail). rewrite app_assoc.
    rewrite <- (replicate_S_end (k + length l) null). done.
Qed.

(** The blocks of a windowed request: freed ones first, then live ones. *)
Definition windowed (m : STManager) (rid : string) : Prop :=
  exists k l, blocks_of m rid = replicate k (Blk 0) ++ l /\ Blk 0 ∉ l.

(** The blocks that [rid] really holds. *)
Definition live_blocks (m : STManager) (rid : string) : Z := zlen (filter (fun r => r <> Blk 0) (blocks_of m rid)).

Lemma on_pool_mgr {A} (m : M BlockPool A) s :
  wpe (on_pool m) (fun _ s' => mgr s' = mgr s) (fun _ => True) s.
Proof. unfold on_pool. rewrite wpe_zoom. unfold wpe. by destruct (m (pool s)) as [[]]. Qed.

Lemma remove_range_blocks rid b s blocks :
  req_to_blocks (mgr s) !! rid = Some blocks ->
  wpe (remove_blocks_in_range rid 0 b) (fun _ s' => blocks_of (mgr s') rid =
    if (b <=? 0)%Z then blocks
    else (null_range (st_null_block (mgr s)) (zrange_down 0 (Z.min b (zlen blocks))) [] blocks).2) (fun _ => True) s.
Proof.
  intros Hb. unfold remove_blocks_in_range, get_mgr. rewrite wpe_bind, wpe_gets. unfold id. rewrite Hb.
  destruct (b <=? 0)%Z; [apply wpe_ret; unfold blocks_of; by rewrite Hb|].
  destruct (null_range _ _ _ _) as [freed blocks']. unfold set_req_blocks, modify_mgr.
  rewrite wpe_bind, wpe_modify. unfold mwhen. destruct (negb _).
  - eapply wpe_mono; [apply on_pool_mgr| |done]. intros [] s' ->. apply blocks_of_with.
  - apply wpe_ret. apply blocks_of_with.
Qed.

(** The number of blocks that [P] processed tokens let a window drop. *)
Definition dropped (m : STManager) (rid : string) (P : Z) : nat :=
  Z.to_nat (Z.min (skip_blocks m P) (zlen (blocks_of m rid))).

Lemma remove_windowed rid P np s w extra k l :
  st_kind (mgr s) = SlidingWindow w extra -> st_null_block (mgr s) = Blk 0 -> (0 < st_block_size (mgr s))%Z ->
  blocks_of (mgr s) rid = replicate k (Blk 0) ++ l -> Blk 0 ∉ l ->
  wpe (remove_skipped_blocks rid P np) (fun _ s' => blocks_of (mgr s') rid =
    replicate (Nat.max k (dropped (mgr s) rid P)) (Blk 0) ++ drop (dropped (mgr s) rid P - k) l) (fun _ => True) s.
Proof.
  intros Hk Hnull Hbs Hb Hl. unfold remove_skipped_blocks, get_mgr. rewrite wpe_bind, wpe_gets. unfold id. rewrite Hk.
  unfold base_remove_skipped_blocks, get_mgr. rewrite wpe_bind, wpe_gets. unfold id.
  assert (Hzero : forall d, d = 0 -> replicate (Nat.max k d) (Blk 0) ++ drop (d - k) l = blocks_of (mgr s) rid).
  { intros d ->. rewrite Hb. by rewrite Nat.max_0_r. }
  destruct (Z.leb_spec (get_num_skipped_tokens (mgr s) P) 0) as [Hle|Hgt].
  { apply wpe_ret. symmetry. apply Hzero. unfold dropped, skip_blocks, zlen.
    assert (get_num_skipped_tokens (mgr s) P / st_block_size (mgr s) <= 0)%Z by (apply Z.div_le_upper_bound; lia). lia. }
  rewrite wpe_bind. unfold req_blocks, get_mgr, modify_mgr. rewrite wpe_bind, wpe_gets.
  assert (Hlen : zlen (blocks_of (mgr s) rid) = Z.of_nat (k + length l)).
  { rewrite Hb. unfold zlen. by rewrite length_app, length_replicate. }
  assert (Hsk : (0 <= skip_blocks (mgr s) P)%Z) by (apply Z.div_pos; lia).
  assert (Hfinal : forall blocks, blocks = blocks_of (mgr s) rid ->
    (if (Z.min (skip_blocks (mgr s) P) (zlen blocks) <=? 0)%Z then blocks
     else (null_range (Blk 0) (zrange_down 0 (Z.min (Z.min (skip_blocks (mgr s) P) (zlen blocks)) (zlen blocks))) [] blocks).2)
    = replicate (Nat.max k (dropped (mgr s) rid P)) (Blk 0) ++ drop (dropped (mgr s) rid P - k) l).
  { intros blocks ->. unfold dropped. rewrite Hlen. set (d := Z.to_nat (Z.min (skip_blocks (mgr s) P) (Z.of_nat (k + length l)))).
    destruct (Z.leb_spec (Z.min (skip_blocks (mgr s) P) (Z.of_nat (k + length l))) 0).
    { symmetry. apply Hzero. unfold d. lia. }
    replace (Z.min (Z.min _ _) _) with (Z.of_nat d) by (unfold d; lia). assert (Hd : d <= k + length l) by (unfold d; lia).
    clearbody d. rewrite Hb. destruct (decide (d <= k)) as [Hdk|Hdk].
    - pose proof (null_range_prefix (Blk 0) d [] (replicate (k - d) (Blk 0) ++ l) [] (not_elem_of_nil _)) as Hn.
      simpl in Hn. rewrite Nat.add_0_r, app_assoc, <- replicate_add in Hn. replace (d + (k - d)) with k in Hn by lia.
      rewrite Hn, Nat.max_l by lia. replace (d - k) with 0 by lia. done.
    - pose proof (null_range_prefix (Blk 0) k (take (d - k) l) (drop (d - k) l) []) as Hn.
      rewrite length_take, Nat.min_l, take_drop in Hn by lia. replace (k + (d - k)) with d in Hn by lia.
      rewrite Nat.max_r by lia. apply Hn. intros Hin. apply Hl. by eapply subseteq_take. }
  assert (Hgo : forall s1, mgr s1 = with_blocks rid (blocks_of (mgr s) rid) (mgr s) ->
    wpe (remove_blocks_in_range rid 0 (Z.min (skip_blocks (mgr s) P) (zlen (blocks_of (mgr s) rid))))
      (fun _ s' => blocks_of (mgr s') rid =
        replicate (Nat.max k (dropped (mgr s) rid P)) (Blk 0) ++ drop (dropped (mgr s) rid P - k) l) (fun _ => True) s1).
  { intros s1 Hs1. eapply wpe_mono; [apply (remove_range_blocks rid _ s1 (blocks_of (mgr s) rid))| |done].
    - rewrite Hs1. apply lookup_insert_eq.
    - intros [] s' ->. rewrite Hs1. simpl. rewrite Hnull. by apply Hfinal. }
  destruct (req_to_blocks (mgr s) !! rid) as [blocks|] eqn:Er.
  - assert (Hbo : blocks_of (mgr s) rid = blocks) by (unfold blocks_of; by rewrite Er). apply wpe_ret.
    fold (skip_blocks (mgr s) P). rewrite <- Hbo. apply Hgo. rewrite with_blocks_same; [done|]. by rewrite Hbo.
  - assert (Hbo : blocks_of (mgr s) rid = []) by (unfold blocks_of; by rewrite Er).
    rewrite wpe_bind, wpe_modify, wpe_ret. fold (skip_blocks (mgr s) P). rewrite Hbo in Hgo. by apply Hgo.
Qed.

Lemma cdiv_mono a b bs : (0 < bs)%Z -> (a <= b)%Z -> (cdiv a bs <= cdiv b bs)%Z.
Proof. intros Hbs Hab. pose proof (cdiv_spec a bs Hbs). pose proof (cdiv_spec b bs Hbs). nia. Qed.

Lemma cdiv_sub_div x y bs : (0 < bs)%Z -> (cdiv x bs - y / bs <= cdiv (x - y) bs + 1)%Z.
Proof.
  intros Hbs. pose proof (cdiv_spec x bs Hbs). pose proof (cdiv_spec (x - y) bs Hbs).
  pose proof (Z.div_mod y bs ltac:(lia)). pose proof (Z.mod_pos_bound y bs Hbs). nia.
Qed.

(** Without a pending copy the new blocks are appended, and none of them is null. *)
Lemma allocate_appends n ext fl s rid t :
  st_ok n ext fl s -> base_kind (st_kind (mgr s)) = true -> partial_hit_reqs (mgr s) !! rid = None ->
  (cdiv t (st_block_size (mgr s)) - zlen (blocks_of (mgr s) rid) <= zlen fl)%Z ->
  wp (allocate_new_blocks rid t) (fun _ s' => exists fl' l, st_ok n ext fl' s' /\
    blocks_of (mgr s') rid = blocks_of (mgr s) rid ++ l /\ (Blk 0 ∉ l) /\
    zlen l = Z.max 0 (cdiv t (st_block_size (mgr s)) - zlen (blocks_of (mgr s) rid))) s.
Proof.
  intros Hs Hb Hp Hd.
  assert (Hbase : wp (base_allocate_new_blocks rid t) (fun _ s' => exists fl' l, st_ok n ext fl' s' /\
    blocks_of (mgr s') rid = blocks_of (mgr s) rid ++ l /\ (Blk 0 ∉ l) /\
    zlen l = Z.max 0 (cdiv t (st_block_size (mgr s)) - zlen (blocks_of (mgr s) rid))) s).
  { unfold base_allocate_new_blocks, redirect_partial_hit, get_mgr. wp_steps. rewrite Hp. wp_steps.
    eapply wp_req_blocks; [exact Hs|]. intros s1 -> Hs1. wp_steps. fold (blocks_of (mgr s) rid).
    destruct (stored_lookup s rid) as [Hl1 Hb1]. set (s1 := s <| mgr := _ |>) in *.
    destruct (Z.leb_spec (cdiv t (st_block_size (mgr s)) - zlen (blocks_of (mgr s) rid)) 0) as [Hle|Hgt].
    - wp_steps. exists fl, []. rewrite app_nil_r. split_and!; [done|exact Hb1|apply not_elem_of_nil|]. change (zlen (@nil ref)) with 0%Z. lia.
    - rewrite wp_bind. rewrite Hb1 in Hl1. eapply (extend_step n ext fl s1 rid); [exact Hs1|exact Hl1|lia|].
      intros l1 l2 s' -> Hlen Hs' Hn Hc. wp_steps. exists l2, (Blk <$> l1).
      rewrite (noted_blocks _ _ _ Hn), blocks_of_with. split_and!; [done|done| |unfold zlen in *; rewrite length_fmap; lia].
      intros (i & [= <-] & Hi)%list_elem_of_fmap. destruct (so_pool _ _ _ _ Hs1) as [_ Hf].
      pose proof (fo_free _ _ _ _ Hf 0) as H0. rewrite app_nil_r in H0.
      assert (Hin : 0 ∈ l1 ++ l2) by set_solver. apply H0 in Hin. lia. }
  unfold allocate_new_blocks, get_mgr. wp_steps. destruct (st_kind (mgr s)); done.
Qed.

Lemma live_prefix m rid k l :
  blocks_of m rid = replicate k (Blk 0) ++ l -> (live_blocks m rid <= zlen (blocks_of m rid) - Z.of_nat k)%Z.
Proof.
  intros Hb. unfold live_blocks. rewrite Hb, filter_app. unfold zlen. rewrite !length_app, length_replicate.
  assert (filter (fun r => r <> Blk 0) (replicate k (Blk 0)) = []) as ->.
  { apply list_filter_none. intros x Hx. apply elem_of_replicate in Hx as [-> _]. by intros []. }
  pose proof (length_filter (fun r => r <> Blk 0) l). simpl. lia.
Qed.

Section cap.
Context (spec : KVCacheSpec) (w extra inflight maxlen : Z).

(** The arithmetic of the cap: [len] blocks cover at most [inflight] tokens beyond the
    [P] processed ones, and the blocks before the window of [P] are dropped. *)
Lemma cap_bound bs P len d :
  (0 < bs)%Z -> (0 < w)%Z -> (0 <= extra)%Z -> (0 <= P)%Z ->
  (len <= cdiv (Z.min (P + inflight) maxlen) bs)%Z ->
  d = (Z.max 0 (P - w + 1 - extra) / bs)%Z ->
  (len - d <= cdiv (Z.min (w - 1 + extra + inflight) maxlen) bs + 1)%Z.
Proof using.
  intros Hbs Hw He HP Hlen ->. set (S := Z.max 0 (P - w + 1 - extra)). set (X := Z.min (P + inflight) maxlen) in *.
  pose proof (cdiv_sub_div X S bs Hbs).
  pose proof (cdiv_mono (X - S) (Z.min (w - 1 + extra + inflight) maxlen) bs Hbs ltac:(unfold X, S; lia)). lia.
Qed.

(** A sliding-window group never holds more than its admission cap.  Take a request
    whose processed tokens [P] have their slots and whose blocks do not reach beyond the
    in-flight tokens; then the release and allocation of one scheduling step up to [t]
    tokens within the in-flight bound succeed, and the blocks the request really holds
    number at most [max_admission_blocks_per_request], the bound with which the
    scheduler admits requests and the pool is sized. *)
Theorem window_admission_cap n ext fl s rid P np t cap :
  st_ok n ext fl s -> st_kind (mgr s) = SlidingWindow w extra -> (0 < w)%Z -> (0 <= extra)%Z ->
  spec_kind spec = SlidingWindow w extra -> kvs_block_size spec = st_block_size (mgr s) ->
  spec_kpool_tail spec = false -> spec_admission_cap spec inflight maxlen = Some cap ->
  partial_hit_reqs (mgr s) !! rid = None -> windowed (mgr s) rid -> (forall x, np = Some x -> (0 <= x)%Z) ->
  (0 <= P <= zlen (blocks_of (mgr s) rid) * st_block_size (mgr s))%Z ->
  (zlen (blocks_of (mgr s) rid) <= cdiv (Z.min (P + inflight) maxlen) (st_block_size (mgr s)))%Z ->
  (t <= Z.min (P + inflight) maxlen)%Z ->
  (cdiv t (st_block_size (mgr s)) - zlen (blocks_of (mgr s) rid) <= zlen fl)%Z ->
  exists new s', (remove_skipped_blocks rid P np ;; allocate_new_blocks rid t) s = (Ok new, s') /\
    windowed (mgr s') rid /\ (live_blocks (mgr s') rid <= cap)%Z.
Proof using.
  intros Hs Hk Hw He Hsk Hsb Hkp Hcap Hp (k & l & Hb & Hl) Hnp HP Hlen Ht Hd.
  pose proof (wf_bs _ _ (so_wf _ _ _ _ Hs)) as Hbs. pose proof (wf_null _ _ (so_wf _ _ _ _ Hs)) as Hnull.
  unfold spec_admission_cap in Hcap. rewrite Hkp, Hsk, Hsb in Hcap. injection Hcap as <-.
  destruct (proj1 (wp_run _ _ _) (remove_skipped_spec n ext fl s rid P np Hs Hp Hnp)) as ([] & s1 & Hrun1 & fl1 & Htr).
  pose proof (remove_windowed rid P np s w extra k l Hk Hnull Hbs Hb Hl) as Hrm. unfold wpe in Hrm. rewrite Hrun1 in Hrm.
  pose proof (trimmed_more_free _ _ _ _ _ _ _ _ _ Hs Htr) as Hmore. destruct Htr as [Hs1 Hf1 _ Hp1 Hlen1 _ _ _ _].
  pose proof (fr_config _ _ _ Hf1) as Hcfg.
  pose proof (st_config_kind _ _ Hcfg) as Hk1. pose proof (st_config_bs _ _ Hcfg) as Hbs1.
  assert (Hz1 : zlen (blocks_of (mgr s1) rid) = zlen (blocks_of (mgr s) rid)) by (unfold zlen; by rewrite Hlen1).
  destruct (proj1 (wp_run _ _ _) (allocate_appends n ext fl1 s1 rid t Hs1 ltac:(by rewrite Hk1, Hk) ltac:(by rewrite Hp1)
    ltac:(rewrite Hbs1, Hz1; lia))) as (new & s2 & Hrun2 & fl2 & l2 & _ & Hb2 & Hl2 & Hlen2).
  exists new, s2. split; [unfold mbind, M_bind; by rewrite Hrun1|].
  set (d := dropped (mgr s) rid P) in *.
  assert (Hform : blocks_of (mgr s2) rid = replicate (Nat.max k d) (Blk 0) ++ (drop (d - k) l ++ l2)).
  { rewrite Hb2, Hrm. by rewrite app_assoc. }
  split.
  - exists (Nat.max k d), (drop (d - k) l ++ l2). split; [done|]. apply not_elem_of_app. split; [|done].
    intros Hin. apply Hl. by eapply subseteq_drop.
  - pose proof (live_prefix _ _ _ _ Hform) as Hlive. rewrite Hb2 in Hlive. unfold zlen in Hlive at 1.
    rewrite length_app in Hlive.
    assert (Hd' : Z.of_nat d = (Z.max 0 (P - w + 1 - extra) / st_block_size (mgr s))%Z).
    { unfold d, dropped, skip_blocks, get_num_skipped_tokens. rewrite Hk.
      pose proof (Z.div_le_upper_bound (Z.max 0 (P - w + 1 - extra)) (st_block_size (mgr s))
        (zlen (blocks_of (mgr s) rid)) Hbs ltac:(lia)).
      pose proof (Z.div_pos (Z.max 0 (P - w + 1 - extra)) (st_block_size (mgr s)) ltac:(lia) Hbs). lia. }
    pose proof (cdiv_mono t _ _ Hbs Ht) as Hct. rewrite Hbs1, Hz1 in Hlen2.
    pose proof (cap_bound (st_block_size (mgr s)) P (Z.of_nat (length (blocks_of (mgr s1) rid) + length l2)) (Z.of_nat d)
      Hbs Hw He (proj1 HP) ltac:(unfold zlen in *; lia) Hd'). lia.
Qed.
End cap.
