(* ===== verification/KVLookup.v ===== *)
(** The prefix-cache lookup of the coordinators: it only reads, and the hybrid
    coordinator's fixed-point loop stops. *)
From S2P Require Import Prelude KVBlock FreeQueue Request BlockHash BlockPool BlockPoolInv BlockPoolSpec BlockPoolCache CacheHit SingleType KVCoordinator KVManager.

(** ** Queries *)

(** A result other than the model's fuel running out. *)
Class Settled {A} (o : outcome A) : Prop := settled : o <> Raise OutOfFuel.

(** A computation that leaves the state as it is and does not run out of fuel. *)
Class Query {S A} (m : M S A) : Prop := query s : (m s).2 = s /\ Settled (m s).1.

#[export] Instance settled_ok {A} (a : A) : Settled (Ok a).
Proof. done. Qed.

Section query.
Context {S : Type}.

#[export] Instance query_ret {A} (a : A) : Query (S := S) (mret a).
Proof. intros s. done. Qed.

#[export] Instance query_gets {A} (f : S -> A) : Query (gets f).
Proof. intros s. done. Qed.

#[export] Instance query_lift {A} (o : outcome A) : Settled o -> Query (S := S) (lift_outcome o).
Proof. intros Ho s. destruct o; [done|]. split; [done|]. intros [= ->]. by apply Ho. Qed.

#[export] Instance query_raise {A} e : Settled (A := A) (Raise e) -> Query (S := S) (A := A) (raise e).
Proof. intros He s. done. Qed.

#[export] Instance query_of_option {A} e (o : option A) :
  Settled (A := A) (Raise e) -> Query (S := S) (of_option e o).
Proof. intros He s. by destruct o. Qed.

#[export] Instance query_assert b : Query (S := S) (massert b).
Proof. intros s. by destruct b. Qed.

#[export] Instance query_bind {A B} (m : M S A) (k : A -> M S B) :
  Query m -> (forall a, Query (k a)) -> Query (m ≫= k).
Proof.
  intros Hm Hk s. unfold mbind, M_bind. destruct (Hm s) as [Hs Ho]. destruct (m s) as [[a|e] s']; simpl in *; subst.
  - apply Hk.
  - split; [done|]. intros [= ->]. by apply Ho.
Qed.

#[export] Instance query_fold {A B} (f : B -> A -> M S B) b l :
  (forall b x, Query (f b x)) -> Query (mfold f b l).
Proof. intros Hf. revert b. induction l as [|x l IH]; intros b; simpl; apply _. Qed.

#[export] Instance query_if {A} (b : bool) (m1 m2 : M S A) : Query m1 -> Query m2 -> Query (if b then m1 else m2).
Proof. by destruct b. Qed.
End query.

#[export] Instance query_zoom {S T A} (get : S -> T) put (m : M T A) :
  (forall s, put (get s) s = s) -> Query m -> Query (zoom get put m).
Proof.
  intros Hput Hm s. unfold zoom. destruct (Hm (get s)) as [Hs Ho]. destruct (m (get s)) as [o t]. simpl in *. by subst.
Qed.

(** What is known of a query's value holds in the state it started from. *)
Lemma wpe_query {S A} (m : M S A) (Q : A -> Prop) s :
  Query m -> wpe m (fun a _ => Q a) (fun _ => True) s -> wpe m (fun a s' => s' = s /\ Q a) (fun s' => s' = s) s.
Proof. intros Hm. unfold wpe. destruct (Hm s) as [Hs _]. destruct (m s) as [[]]; simpl in *; by subst. Qed.

(** Split a computation into the parts the instances cover. *)
Ltac query :=
  repeat first
    [ progress intros
    | apply query_bind
    | apply query_if
    | apply query_fold
    | apply _
    | apply query_of_option
    | apply query_raise
    | apply query_lift
    | match goal with |- Query (match ?x with _ => _ end) => destruct x eqn:? end
    | match goal with |- Settled ?o => unfold Settled; repeat case_match; congruence end ].

(** ** The lookups of the managers *)

#[export] Instance bhl_get_settled l i : Settled (bhl_get l i).
Proof. unfold Settled, bhl_get. repeat case_match; congruence. Qed.

#[export] Instance BlockHashListWithBlockSize_settled hs a b : Settled (BlockHashListWithBlockSize hs a b).
Proof. unfold Settled, BlockHashListWithBlockSize. case_match; congruence. Qed.

#[export] Instance resolve_settled l a b f al : Settled (resolve_block_hashes l a b f al).
Proof. unfold resolve_block_hashes. repeat case_match; try apply _; unfold Settled; congruence. Qed.

#[export] Instance first_len_settled l : Settled (first_len l).
Proof. by destruct l. Qed.

#[export] Instance realign_settled a b l : Settled (realign_each a b l).
Proof. unfold realign_each, Settled. case_match; [done|]. destruct l; simpl in *; congruence. Qed.

#[export] Instance group_hash_settled h g : Settled (make_block_hash_with_group_id h g).
Proof. unfold Settled, make_block_hash_with_group_id. case_match; congruence. Qed.

#[export] Instance get_one_block_settled c k : Settled (get_one_block c k).
Proof. unfold Settled, get_one_block. repeat case_match; congruence. Qed.

#[export] Instance get_cached_block_query h gids : Query (get_cached_block h gids).
Proof. induction gids as [|g gids IH]; simpl; query. Qed.

#[export] Instance probe_query h gids : Query (probe h gids).
Proof. unfold probe. query. Qed.

#[export] Instance hit_run_query hashes gids idxs computed : Query (hit_run hashes gids idxs computed).
Proof. revert computed. induction idxs as [|i idxs IH]; intros computed; simpl; query. Qed.

#[export] Instance fine_probe_query hs gids idxs : Query (fine_probe hs gids idxs).
Proof. induction idxs as [|i idxs IH]; simpl; query. Qed.

#[export] Instance full_search_query hs ml gids bs al : Query (full_search hs ml gids bs al).
Proof. unfold full_search. query. Qed.

#[export] Instance swa_search_query hashes gids bs al need drop idxs computed nc :
  Query (swa_search hashes gids bs al need drop idxs computed nc).
Proof. revert computed nc. induction idxs as [|i idxs IH]; intros computed nc; simpl; query. Qed.

#[export] Instance find_query k hs ml gids bs drop al dcp pcp :
  Query (find_longest_cache_hit k hs ml gids bs drop al dcp pcp).
Proof.
  unfold find_longest_cache_hit, full_find_longest_cache_hit, swa_find_longest_cache_hit,
    chunked_find_longest_cache_hit. query.
Qed.

(** ** The hybrid coordinator's loop *)

#[export] Instance on_kv_pool_query {A} (m : M BlockPool A) : Query m -> Query (on_kv_pool m).
Proof. intros Hm. apply query_zoom; [by intros []|done]. Qed.

#[export] Instance hit_group_query hs max h ig : Query (hit_group hs max h ig).
Proof. unfold hit_group. destruct ig. query. Qed.

(** A lookup's hit length is not negative. *)
Definition nonneg_hit (x : list (list ref) * Z) : Prop := (0 <= x.2)%Z.

Lemma first_len_nonneg l n : first_len l = Ok n -> (0 <= n)%Z.
Proof. destruct l; simpl; [done|]. intros [= <-]. unfold zlen. lia. Qed.

Lemma wpe_lift_true {S A B} (o : outcome A) (k : A -> M S B) Q s :
  (forall a, o = Ok a -> wpe (k a) Q (fun _ => True) s) -> wpe (lift_outcome o ≫= k) Q (fun _ => True) s.
Proof. intros Hk. rewrite wpe_bind. apply wpe_lift_outcome; [done|exact Hk]. Qed.

Lemma fine_probe_range hs gids idxs p :
  wpe (fine_probe hs gids idxs) (fun o _ => forall i bs, o = Some (i, bs) -> i ∈ idxs) (fun _ => True) p.
Proof.
  revert p. induction idxs as [|i idxs IH]; intros p; [done|]. simpl. apply wpe_skip. intros h s. apply wpe_skip.
  intros [bs|] s'.
  - intros j bs' [= <- <-]. set_solver.
  - eapply wpe_mono; [apply IH| |done]. intros o s'' Ho j bs' Hj. specialize (Ho j bs' Hj). set_solver.
Qed.

Lemma full_search_nonneg hs ml gids bs al p :
  (0 < bs)%Z -> (0 < al)%Z ->
  wpe (full_search hs ml gids bs al) (fun x _ => x.2 = 0 \/ Z.min al bs <= x.2)%Z (fun _ => True) p.
Proof.
  intros Hbs Hal. unfold full_search. apply wpe_skip. intros q s. apply wpe_skip. intros bh s1. apply wpe_skip.
  intros fbh s2. apply wpe_skip. intros computed s3. apply wpe_lift_true. intros n Hn%first_len_nonneg.
  assert (Hcoarse : (n * bs = 0 \/ Z.min al bs <= n * bs)%Z) by (destruct (decide (n = 0%Z)); [left|right]; nia).
  destruct (_ && _); [|exact Hcoarse]. destruct bh as [hs'|]; [|done]. rewrite wpe_bind.
  eapply wpe_mono; [apply fine_probe_range| |done]. intros [[i b]|] s4 Ho; [|exact Hcoarse].
  specialize (Ho i b eq_refl). unfold zrange_down in Ho. rewrite elem_of_reverse, elem_of_zrange in Ho. right. simpl.
  assert (0 <= bs / al)%Z by (apply Z.div_pos; lia). assert (0 <= n * (bs / al))%Z by (by apply Z.mul_nonneg_nonneg).
  assert (0 <= i)%Z by lia. nia.
Qed.

Lemma find_nonneg k hs ml gids bs drop al dcp pcp p :
  (0 < bs)%Z -> (0 < al)%Z -> (0 < dcp)%Z ->
  wpe (find_longest_cache_hit k hs ml gids bs drop al dcp pcp) (fun x _ => nonneg_hit x) (fun _ => True) p.
Proof.
  intros Hbs Hal Hd. unfold nonneg_hit.
  assert (Hfull : wpe (full_find_longest_cache_hit hs ml gids bs drop al dcp) (fun x _ => 0 <= x.2)%Z (fun _ => True) p).
  { unfold full_find_longest_cache_hit. set (B := (if (1 <? dcp)%Z then bs * dcp else bs)%Z).
    assert (HB : (0 < B)%Z) by (unfold B; case_match; nia). clearbody B.
    rewrite wpe_bind. eapply wpe_mono; [by apply full_search_nonneg| |done].
    intros [computed hit] s Hhit. simpl in *. apply wpe_ret. simpl.
    set (h := if drop && (0 <? hit)%Z then _ else _).
    assert (Hh : (0 <= h)%Z).
    { unfold h. destruct (drop && (0 <? hit)%Z) eqn:E; [|lia]. apply andb_true_iff in E as [_ E]. lia. }
    pose proof (Z.mod_le h al Hh Hal). lia. }
  assert (Hlast : forall (computed : list (list ref)) n s, first_len computed = Ok n ->
    wpe (mret (computed, (n * bs)%Z)) (fun x (_ : BlockPool) => 0 <= x.2)%Z (fun _ => True) s).
  { intros computed n s Hn%first_len_nonneg. apply wpe_ret. simpl. nia. }
  destruct k; simpl; try exact Hfull; try done.
  - unfold swa_find_longest_cache_hit. do 3 (apply wpe_skip; intros [] ?). apply wpe_skip. intros q s3. apply wpe_skip.
    intros hashes s4. apply wpe_skip. intros [[computed nc] found] s5. apply wpe_skip. intros computed' s6.
    apply wpe_skip. intros n s7. apply wpe_skip. intros computed'' s8. apply wpe_lift_true. intros n' Hn'. by apply Hlast.
  - unfold chunked_find_longest_cache_hit. do 4 (apply wpe_skip; intros [] ?). apply wpe_skip. intros q s3. apply wpe_skip.
    intros hashes s4. apply wpe_skip. intros computed s5. apply wpe_lift_true. intros n' Hn'. by apply Hlast.
Qed.

(** Every round of the loop ends with a length that is not negative. *)
Definition lookup_ok (c : KVCache) (groups : list SpecGroup) : Prop :=
  (0 < cache_hit_alignment c)%Z /\
  Forall (fun g => (0 < kvs_block_size (sg_spec g))%Z) groups /\
  Forall (fun m => (0 < st_dcp_world_size m)%Z) (managers c).

Lemma Forall_foldl_insert {B} (P : Z -> Prop) (len : Z) (gb : list (nat * B)) ls :
  P len -> Forall P ls -> Forall P (foldl (fun acc x => <[x.1 := len]> acc) ls gb).
Proof.
  intros Hlen. revert ls. induction gb as [|x gb IH]; intros ls Hls; [done|]. simpl. apply IH.
  by apply Forall_insert.
Qed.

Lemma hit_group_nonneg hs max h ig c groups :
  lookup_ok c groups -> ig.2 ∈ groups ->
  (0 <= curr_hit_length h)%Z -> Forall (fun l => (0 <= l)%Z) (hit_length_by_group h) ->
  wpe (hit_group hs max h ig) (fun h' c' => c' = c /\ (0 <= curr_hit_length h')%Z /\
    Forall (fun l => (0 <= l)%Z) (hit_length_by_group h')) (fun _ => True) c.
Proof.
  intros (Hal & Hbs & Hd) Hin Hc Hl. destruct ig as [idx g]. simpl in Hin. rewrite Forall_forall in Hbs. rewrite Forall_forall in Hd.
  specialize (Hbs g Hin). unfold hit_group. rewrite wpe_bind, wpe_gets. unfold id.
  rewrite wpe_bind. apply wpe_of_option; [done|]. intros gid Hgid. rewrite wpe_bind. apply wpe_of_option; [done|].
  intros m Hm. rewrite wpe_bind. apply wpe_of_option; [done|]. intros cb Hcb. rewrite wpe_bind.
  apply wpe_of_option; [done|]. intros cl Hcl. destruct (_ && _).
  { apply wpe_ret. simpl. split_and!; [done| |done]. pose proof (Forall_lookup_1 _ _ _ _ Hl Hcl) as Hcl0. cbv beta in Hcl0. lia. }
  rewrite wpe_bind. unfold on_kv_pool. rewrite wpe_zoom. eapply wpe_mono.
  - apply (wpe_query _ nonneg_hit); [apply _|]. apply find_nonneg; [done|done|]. apply Hd.
    by eapply list_elem_of_lookup_2.
  - intros [blocks len] p' [-> Hlen]. unfold nonneg_hit in Hlen. simpl in Hlen. simpl.
    split_and!; [by destruct c|done|].
    by apply Forall_foldl_insert.
  - done.
Qed.

Definition good_state (h : hit_state) : Prop :=
  (0 <= curr_hit_length h)%Z /\ Forall (fun l => (0 <= l)%Z) (hit_length_by_group h).

Lemma hit_round_nonneg hs max groups c : lookup_ok c groups ->
  forall igs h, (forall ig, ig ∈ igs -> ig.2 ∈ groups) -> good_state h ->
  wpe (mfold (hit_group hs max) h igs) (fun h' c' => c' = c /\ good_state h') (fun _ => True) c.
Proof.
  intros Hok. induction igs as [|ig igs IH]; intros h Hin [Hc Hl]; [done|]. simpl. rewrite wpe_bind.
  eapply wpe_mono; [apply (hit_group_nonneg hs max h ig c groups); [done|apply Hin; set_solver|done|done]| |done].
  intros h' c' (-> & Hc' & Hl'). apply IH; [set_solver|done].
Qed.

(** Every further round starts from a smaller length, so [length + 1] rounds are enough. *)
Lemma hit_loop_settled hs max groups simple c : lookup_ok c groups ->
  forall fuel len h, (0 <= len)%Z -> Z.to_nat len < fuel -> Forall (fun l => (0 <= l)%Z) (hit_length_by_group h) ->
  (hit_loop fuel hs max groups simple len h c).2 = c /\ Settled (hit_loop fuel hs max groups simple len h c).1.
Proof.
  intros Hok. induction fuel as [|fuel IH]; intros len h Hlen Hfuel Hl; [lia|]. simpl.
  set (h0 := {| curr_hit_length := len |}).
  pose proof (hit_round_nonneg hs max groups c Hok (imap pair groups) h0) as Hround.
  assert (Hq : Query (mfold (hit_group hs max) h0 (imap pair groups))) by apply _.
  unfold mbind, M_bind. destruct (Hq c) as [Hs Ho].
  destruct (mfold (hit_group hs max) h0 (imap pair groups) c) as [[h'|e] c'] eqn:E; simpl in *; subst c'.
  2:{ split; [done|]. intros [= ->]. by apply Ho. }
  unfold wpe in Hround. rewrite E in Hround. destruct Hround as (_ & Hc' & Hl').
  { intros [i g] [j Hj]%list_elem_of_lookup_1. apply list_lookup_imap_Some in Hj as (g' & Hg' & [= -> ->]).
    by eapply list_elem_of_lookup_2. }
  { split; [exact Hlen|exact Hl]. }
  destruct (Z.leb_spec len (curr_hit_length h')); [done|]. destruct simple; [done|]. apply IH; [done|lia|done].
Qed.

(** The hybrid coordinator's [find_longest_cache_hit] terminates: its fixed-point
    loop needs at most [max_cache_hit_length + 1] rounds whatever the groups, their EAGLE
    flags and the contents of the cache, so the fuel of the model is never used up, and
    the lookup changes nothing. *)
Theorem hybrid_lookup_terminates (block_hashes : list bytes) max_cache_hit_length groups c :
  (0 <= max_cache_hit_length)%Z -> lookup_ok c groups ->
  (hybrid_find_longest_cache_hit block_hashes max_cache_hit_length groups c).1 <> Raise OutOfFuel /\
  (hybrid_find_longest_cache_hit block_hashes max_cache_hit_length groups c).2 = c.
Proof.
  intros Hmax Hok. unfold hybrid_find_longest_cache_hit, mbind, M_bind, gets, id. cbn -[hit_loop].
  set (simple := _ && _). set (h0 := {| curr_hit_length := max_cache_hit_length |}).
  destruct (hit_loop_settled block_hashes max_cache_hit_length groups simple c Hok
    (S (S (Z.to_nat max_cache_hit_length))) max_cache_hit_length h0 Hmax) as [Hs Ho]; [lia| |].
  { apply Forall_replicate. lia. }
  destruct (hit_loop _ _ _ _ _ _ _ _) as [[[len h]|e] c'] eqn:E; simpl in *; [done|].
  split; [|done]. intros [= ->]. by apply Ho.
Qed.
