(* ===== verification/KVHybrid.v ===== *)
(** The hybrid coordinator's lookup: all groups agree on one hit length, and every
    group's blocks serve it. *)
From S2P Require Import Prelude KVBlock FreeQueue Request BlockHash BlockPool BlockPoolInv BlockPoolSpec BlockPoolCache BlockPoolThms CacheHit CacheHitThms SlidingHit SingleType KVCoordinator KVManager KVLookup.

(** ** Writing per-group results *)

Section store.
Context {A B : Type} (f : A -> B).

Lemma foldl_store gids (vs : list A) (acc : list B) :
  NoDup gids -> length vs = length gids -> (forall gid, gid ∈ gids -> gid < length acc) ->
  let res := foldl (fun acc gb => <[gb.1 := f gb.2]> acc) acc (zip gids vs) in
  length res = length acc /\
  (forall gi gid v, gids !! gi = Some gid -> vs !! gi = Some v -> res !! gid = Some (f v)) /\
  (forall j, j ∉ gids -> res !! j = acc !! j).
Proof using.
  revert vs acc. induction gids as [|g gids IH]; intros [|v vs] acc Hnd Hlen Hin; try done.
  apply NoDup_cons in Hnd as [Hg Hnd]. simpl.
  destruct (IH vs (<[g := f v]> acc) Hnd) as (Hl & Hset & Hother); [by injection Hlen| |].
  { intros gid Hgid. rewrite length_insert. apply Hin. set_solver. }
  rewrite length_insert in Hl. split_and!; [done| |].
  - intros [|gi] gid v' Hgi Hv; simplify_eq/=; [|by eapply Hset].
    rewrite Hother by done. apply list_lookup_insert_eq. apply Hin. set_solver.
  - intros j Hj. rewrite Hother by set_solver. apply list_lookup_insert_ne. set_solver.
Qed.
End store.

Lemma foldl_alter {A} (f : A -> A) gids (acc : list A) :
  NoDup gids ->
  let res := foldl (fun acc gid => alter f gid acc) acc gids in
  (forall gid, gid ∈ gids -> res !! gid = f <$> (acc !! gid)) /\
  (forall j, j ∉ gids -> res !! j = acc !! j).
Proof.
  revert acc. induction gids as [|g gids IH]; intros acc Hnd; [split; [set_solver|done]|].
  apply NoDup_cons in Hnd as [Hg Hnd]. simpl. destruct (IH (alter f g acc) Hnd) as [Hin Hout]. split.
  - intros gid [->|Hgid]%elem_of_cons.
    + rewrite Hout by done. by rewrite list_lookup_alter_eq.
    + rewrite Hin by done. rewrite list_lookup_alter_ne by set_solver. done.
  - intros j Hj. rewrite Hout by set_solver. rewrite list_lookup_alter_ne by set_solver. done.
Qed.

(** ** What a group's blocks must provide *)

Section hybrid.
Context (n : nat) (c : KVCache) (hs : list bytes) (groups : list SpecGroup).
Local Abbreviation p := (kv_pool c).
Local Abbreviation hbs := (hash_block_size (kv_pool c)).
Local Abbreviation al := (cache_hit_alignment c).

(** The block size of a group, that of its first manager. *)
Definition group_bs (g : SpecGroup) : Z :=
  match head (group_ids g) ≫= (managers c !!.) with Some m => st_block_size m | None => 1 end.

(** The row [row] of group id [gid] serves a prefix of [t] tokens: full attention has a
    block of the right prefix for every started block, and a sliding window has one for
    every token the next token attends to. *)
Definition serves (g : SpecGroup) (gid : nat) (t : Z) (row : list ref) : Prop :=
  let bs := group_bs g in
  match spec_kind (sg_spec g) with
  | FullAttention | RSWA _ =>
      zlen row = cdiv t bs /\
      forall i r, row !! i = Some r -> exists t' h,
        (Z.min t ((Z.of_nat i + 1) * bs) <= t' <= (Z.of_nat i + 1) * bs)%Z /\
        prefix_hash hbs hs t' = Some h /\ holds n p h (Z.of_nat gid) r
  | SlidingWindow w _ =>
      (zlen row * bs = t)%Z /\
      (forall i r, row !! i = Some r -> r = null_block p \/ exists h,
         prefix_hash hbs hs ((Z.of_nat i + 1) * bs) = Some h /\ holds n p h (Z.of_nat gid) r) /\
      (forall j, (t - (w - 1) <= j < t)%Z -> (0 <= j)%Z -> exists h r,
         prefix_hash hbs hs ((j / bs + 1) * bs) = Some h /\
         row !! Z.to_nat (j / bs) = Some r /\ holds n p h (Z.of_nat gid) r)
  | _ => False
  end.

(** A group as the coordinator builds it, without EAGLE. *)
Record group_ok (g : SpecGroup) : Prop := {
  go_ids : group_ids g <> [] /\ NoDup (group_ids g);
  go_range gid : gid ∈ group_ids g -> gid < length (managers c) /\ (Z.of_nat gid < 2 ^ 32)%Z;
  go_eagle : sg_use_eagle g = false;
  go_size : exists gid m k, head (group_ids g) = Some gid /\ managers c !! gid = Some m /\ (0 < k)%Z /\
    st_block_size m = (k * hbs)%Z /\
    match spec_kind (sg_spec g) with
    | FullAttention | RSWA _ =>
        (if 1 <? st_dcp_world_size m then kvs_block_size (sg_spec g) * st_dcp_world_size m
         else kvs_block_size (sg_spec g))%Z = (k * hbs)%Z /\ ((al mod (k * hbs) = 0)%Z \/ al = hbs)
    | SlidingWindow w _ =>
        (1 < w)%Z /\ kvs_block_size (sg_spec g) = (k * hbs)%Z /\ (al mod (k * hbs) = 0)%Z /\
        st_dcp_world_size m = 1%Z /\ st_pcp_world_size m = 1%Z
    | _ => False
    end;
}.

Record hybrid_ok (fl : list nat) (max : Z) : Prop := {
  ho_pool : pool_ok n p fl;
  ho_hbs : (0 < hbs)%Z;
  ho_al : (0 < al)%Z;
  ho_max : (0 <= max < (zlen hs + 1) * hbs)%Z;
  ho_ne : groups <> [];
  ho_group g : g ∈ groups -> group_ok g;
  ho_disj : NoDup (concat (group_ids <$> groups));
}.

Context (fl : list nat) (max : Z) (Hok : hybrid_ok fl max).

(** Serving a longer prefix serves a shorter one after truncation. *)
Lemma serves_take g gid t t' row :
  is_full (spec_kind (sg_spec g)) = true -> (0 < group_bs g)%Z -> (0 <= t' <= t)%Z ->
  serves g gid t row -> serves g gid t' (take (Z.to_nat (cdiv t' (group_bs g))) row).
Proof using.
  unfold serves. intros Hf Hbs Ht. set (bs := group_bs g) in *.
  pose proof (cdiv_spec t bs Hbs) as H1. pose proof (cdiv_spec t' bs Hbs) as H2.
  assert (Hle : (0 <= cdiv t' bs <= cdiv t bs)%Z) by (split; [apply cdiv_nonneg; lia|nia]).
  destruct (spec_kind (sg_spec g)); try done;
    (intros [Hlen Hrow]; split; [unfold zlen in *; rewrite length_take; lia|];
     intros i r [Hr Hi]%lookup_take_Some; destruct (Hrow i r Hr) as (t2 & h & Ht2 & Hrest);
     exists t2, h; split; [lia|done]).
Qed.

(** ** One lookup *)

Lemma group_lookup g ml :
  g ∈ groups -> (0 <= ml <= max)%Z ->
  exists gid m rows L, head (group_ids g) = Some gid /\ managers c !! gid = Some m /\
    find_longest_cache_hit (spec_kind (sg_spec g)) (RawHashes hs) ml (Z.of_nat <$> group_ids g)
      (kvs_block_size (sg_spec g)) false al (st_dcp_world_size m) (st_pcp_world_size m) p = (Ok (rows, L), p) /\
    length rows = length (group_ids g) /\ (0 <= L <= ml)%Z /\ (L mod al = 0)%Z /\
    forall gi gid row, group_ids g !! gi = Some gid -> rows !! gi = Some row -> serves g gid L row.
Proof using Hok.
  intros Hg Hml. destruct (ho_group _ _ Hok g Hg) as [[Hne Hnd] Hr _ (gid & m & k & Hhd & Hm & Hk & Hbs & Hkind)].
  destruct Hok as [Hpool Hh Ha Hmax _ _ _].
  assert (Hgb : group_bs g = (k * hbs)%Z) by (unfold group_bs; rewrite Hhd; simpl; by rewrite Hm).
  assert (Hids : forall x, x ∈ Z.of_nat <$> group_ids g -> (0 <= x < 2 ^ 32)%Z).
  { intros x (gid' & -> & Hin)%list_elem_of_fmap. specialize (Hr gid' Hin). lia. }
  assert (Hne' : Z.of_nat <$> group_ids g <> []) by (by destruct (group_ids g)).
  exists gid, m. unfold serves, find_longest_cache_hit. rewrite Hgb.
  assert (Hfull : (if 1 <? st_dcp_world_size m then kvs_block_size (sg_spec g) * st_dcp_world_size m
       else kvs_block_size (sg_spec g))%Z = (k * hbs)%Z /\ ((al mod (k * hbs) = 0)%Z \/ al = hbs) ->
    exists rows L, head (group_ids g) = Some gid /\ managers c !! gid = Some m /\
      full_find_longest_cache_hit (RawHashes hs) ml (Z.of_nat <$> group_ids g) (kvs_block_size (sg_spec g)) false al
        (st_dcp_world_size m) p = (Ok (rows, L), p) /\
      length rows = length (group_ids g) /\ (0 <= L <= ml)%Z /\ (L mod al = 0)%Z /\
      forall gi gid row, group_ids g !! gi = Some gid -> rows !! gi = Some row ->
        zlen row = cdiv L (k * hbs) /\
        forall i r, row !! i = Some r -> exists t' h,
          (Z.min L ((Z.of_nat i + 1) * (k * hbs)) <= t' <= (Z.of_nat i + 1) * (k * hbs))%Z /\
          prefix_hash hbs hs t' = Some h /\ holds n p h (Z.of_nat gid) r).
  { intros [Hsz Hal]. destruct (full_hit_spec n p fl (Z.of_nat <$> group_ids g) hs ml _ _ al false k
      Hpool Hids Hne' Hh Hk (proj1 Hml) Hsz) as (rows & L & Hrun & Hl & HL & HLa & Hrows & _).
    { destruct Hal; [by left|by right]. }
    rewrite length_fmap in Hl. exists rows, L. split_and!; try done; try lia. intros gi gid' row Hgi Hrow.
    destruct (Hrows gi (Z.of_nat gid') row) as [Hlen Hent]; [by rewrite list_lookup_fmap, Hgi|done|].
    split; [done|]. intros i r Hi. destruct (Hent i r Hi) as (t' & h & Ht' & Hrest). exists t', h. split; [lia|done]. }
  destruct (spec_kind (sg_spec g)); try done; try (by apply Hfull).
  destruct Hkind as (Hw & Hsz & Hal & Hd & Hp). rewrite Hd, Hp, Hsz.
  destruct (swa_hit_spec n p fl (Z.of_nat <$> group_ids g) hs ml k sliding_window al false
    Hpool Hids Hne' Hh Hk Hw Ha Hal ltac:(lia)) as (rows & q & Hrun & Hl & HL & HLa & Hrows & _).
  rewrite length_fmap in Hl. exists rows, (Z.of_nat q * (k * hbs))%Z.
  assert (0 < k * hbs)%Z by (by apply Z.mul_pos_pos).
  split_and!; try done; [nia|]. intros gi gid' row Hgi Hrow.
  destruct (Hrows gi (Z.of_nat gid') row) as (Hlen & Hent & Hwin); [by rewrite list_lookup_fmap, Hgi|done|].
  split_and!; [unfold zlen; by rewrite Hlen|done|done].
Qed.
(** ** One round *)

Definition stored (h : hit_state) (g : SpecGroup) (L : Z) : Prop :=
  (0 <= L)%Z /\ (L mod al = 0)%Z /\
  forall gid, gid ∈ group_ids g -> hit_length_by_group h !! gid = Some L /\
    exists row, hit_blocks_by_group h !! gid = Some (Some row) /\ serves g gid L row.

Definition unset (h : hit_state) (g : SpecGroup) : Prop :=
  forall gid, gid ∈ group_ids g -> hit_blocks_by_group h !! gid = Some None.

(** The groups that opt out of prefix caching get no blocks. *)
Definition outside (j : nat) : Prop := j < length (managers c) /\ forall g, g ∈ groups -> j ∉ group_ids g.
Definition untouched (h : hit_state) : Prop := forall j, outside j -> hit_blocks_by_group h !! j = Some None.

(** The groups [seen] have been looked at in a round that started at [len]. *)
Record round_inv (seen : list SpecGroup) (len : Z) (h : hit_state) : Prop := {
  ri_len : length (hit_blocks_by_group h) = length (managers c) /\
           length (hit_length_by_group h) = length (managers c);
  ri_curr : (0 <= curr_hit_length h <= len)%Z;
  ri_start : seen = [] -> curr_hit_length h = len;
  ri_aligned : seen <> [] -> (curr_hit_length h mod al = 0)%Z;
  ri_done g : g ∈ seen -> exists L, stored h g L /\ (curr_hit_length h <= L)%Z /\
    (is_full (spec_kind (sg_spec g)) = false -> (L <= len)%Z);
  ri_last g : last seen = Some g -> is_full (spec_kind (sg_spec g)) = false -> stored h g (curr_hit_length h);
  ri_rest g : g ∈ groups -> g ∉ seen -> is_full (spec_kind (sg_spec g)) = true ->
    ((len mod al = 0)%Z /\ exists L, stored h g L) \/ unset h g;
  ri_out : untouched h;
}.

Lemma disjoint_groups seen g rest g' :
  groups = seen ++ g :: rest -> g' ∈ seen \/ g' ∈ rest -> forall gid, gid ∈ group_ids g -> gid ∉ group_ids g'.
Proof using Hok.
  intros Hsplit Hg' gid Hgid Hgid'. pose proof (ho_disj _ _ Hok) as Hd.
  rewrite Hsplit, fmap_app, concat_app in Hd. csimpl in Hd. apply NoDup_app in Hd as (_ & H1 & H2).
  apply NoDup_app in H2 as (_ & H2 & _).
  destruct Hg' as [Hin|Hin].
  - apply (H1 gid); [|set_solver]. apply list_elem_of_In, in_concat. exists (group_ids g').
    split; [apply list_elem_of_In; by apply list_elem_of_fmap_2|by apply list_elem_of_In].
  - apply (H2 gid Hgid). apply list_elem_of_In, in_concat. exists (group_ids g').
    split; [apply list_elem_of_In; by apply list_elem_of_fmap_2|by apply list_elem_of_In].
Qed.

(** Storing the rows of [g] leaves the other groups alone. *)
Lemma store_hits_spec seen g rest rows L h0 :
  groups = seen ++ g :: rest -> length rows = length (group_ids g) ->
  length (hit_blocks_by_group h0) = length (managers c) -> length (hit_length_by_group h0) = length (managers c) ->
  (0 <= L)%Z -> (L mod al = 0)%Z ->
  (forall gi gid row, group_ids g !! gi = Some gid -> rows !! gi = Some row -> serves g gid L row) ->
  let h := store_hits (group_ids g) rows L h0 in
  stored h g L /\
  (forall g' L', g' ∈ seen \/ g' ∈ rest -> stored h0 g' L' -> stored h g' L') /\
  (forall g', g' ∈ seen \/ g' ∈ rest -> unset h0 g' -> unset h g') /\
  (untouched h0 -> untouched h) /\
  length (hit_blocks_by_group h) = length (managers c) /\ length (hit_length_by_group h) = length (managers c).
Proof using Hok.
  intros Hsplit Hl Hb Hn HL0 HLa Hserve h.
  assert (Hg : g ∈ groups) by (rewrite Hsplit; set_solver).
  destruct (ho_group _ _ Hok g Hg) as [[Hne Hnd] Hr _ _].
  destruct (foldl_store Some (group_ids g) rows (hit_blocks_by_group h0) Hnd Hl) as (Hbl & Hbs & Hbo).
  { intros gid Hgid. rewrite Hb. by apply Hr. }
  destruct (foldl_store (fun _ => L) (group_ids g) rows (hit_length_by_group h0) Hnd Hl) as (Hnl & Hns & Hno).
  { intros gid Hgid. rewrite Hn. by apply Hr. }
  assert (Hother : forall g', g' ∈ seen \/ g' ∈ rest -> forall gid, gid ∈ group_ids g' -> gid ∉ group_ids g).
  { intros g' Hg' gid Hgid Hgid'. by apply (disjoint_groups seen g rest g' Hsplit Hg' gid). }
  split_and!.
  - split_and!; [done|done|]. intros gid [gi Hgi]%list_elem_of_lookup_1.
    destruct (lookup_lt_is_Some_2 rows gi) as [row Hrow]; [rewrite Hl; by eapply lookup_lt_Some|].
    split; [by eapply Hns|]. exists row. split; [by eapply Hbs|by eapply Hserve].
  - intros g' L' Hg' (H1 & H2 & H3). split_and!; [done|done|]. intros gid Hgid. simpl.
    rewrite Hno, Hbo by (by eapply Hother). by apply H3.
  - intros g' Hg' Hu gid Hgid. simpl. rewrite Hbo by (by eapply Hother). by apply Hu.
  - intros Hu j Hj. simpl. rewrite Hbo by (by apply Hj). by apply Hu.
  - by rewrite <- Hb.
  - by rewrite <- Hn.
Qed.

Lemma stored_same h h' g L :
  hit_blocks_by_group h' = hit_blocks_by_group h -> hit_length_by_group h' = hit_length_by_group h ->
  stored h g L -> stored h' g L.
Proof using. intros Hb Hl. unfold stored. by rewrite Hb, Hl. Qed.

Lemma hit_group_step seen g rest idx len h :
  groups = seen ++ g :: rest -> (len <= max)%Z -> round_inv seen len h ->
  exists h', hit_group hs max h (idx, g) c = (Ok h', c) /\ round_inv (seen ++ [g]) len h'.
Proof using Hok.
  intros Hsplit Hlen [Hl Hc Hst Hal Hd Hlast Hrest Hout].
  assert (Hg : g ∈ groups) by (rewrite Hsplit; set_solver). pose proof (ho_group _ _ Hok g Hg) as [[Hne Hnd] Hr He _].
  destruct (group_lookup g (curr_hit_length h) Hg ltac:(lia)) as (gid & m & rows & L & Hhd & Hm & Hrun & Hrows & HL & HLa & Hserve).
  assert (Hgid : gid ∈ group_ids g) by (destruct (group_ids g); simplify_eq/=; set_solver).
  assert (Hgd : g ∉ seen).
  { intros Hin. exact (disjoint_groups seen g rest g Hsplit (or_introl Hin) gid Hgid Hgid). }
  destruct (lookup_lt_is_Some_2 (hit_blocks_by_group h) gid) as [cb Hcb]; [rewrite (proj1 Hl); by apply Hr|].
  destruct (lookup_lt_is_Some_2 (hit_length_by_group h) gid) as [cl Hcl]; [rewrite (proj2 Hl); by apply Hr|].
  unfold hit_group, mbind, M_bind, gets, id, of_option. simpl. rewrite Hhd. simpl. rewrite Hm. simpl. rewrite Hcb. simpl.
  rewrite Hcl. simpl.
  assert (Hrest' : forall g', g' ∈ groups -> g' ∉ (seen ++ [g]) -> g' ∈ groups /\ (g' ∉ seen) /\ g' ∈ rest).
  { intros g' Hin [Hno Hng]%not_elem_of_app. split_and!; [done|done|]. rewrite Hsplit in Hin.
    apply elem_of_app in Hin as [?|[->|?]%elem_of_cons]; [done| |done]. destruct Hng. by apply list_elem_of_singleton. }
  destruct (is_full (spec_kind (sg_spec g)) && bool_decide (is_Some cb)) eqn:Hfull.
  - apply andb_true_iff in Hfull as [Hfull Hsome]. apply bool_decide_eq_true in Hsome as [row0 ->].
    destruct (Hrest g Hg Hgd Hfull) as [[Hla [L0 Hs0]]|Hu]; [|rewrite (Hu gid Hgid) in Hcb; congruence].
    assert (cl = L0) as -> by (destruct Hs0 as (_ & _ & Hs0); destruct (Hs0 gid Hgid) as [Hx _]; congruence).
    eexists. split; [done|]. assert (Hca : (curr_hit_length h mod al = 0)%Z).
    { destruct seen; [by rewrite Hst|by apply Hal]. }
    assert (HL0 : (0 <= L0)%Z /\ (L0 mod al = 0)%Z) by (split; apply Hs0).
    assert (Hmin : (0 <= Z.min (curr_hit_length h) L0 <= len)%Z) by (clear -Hc HL0; lia).
    split; simpl; [done|exact Hmin|by destruct seen| | | | |exact Hout].
    + intros _. destruct (Z.min_spec (curr_hit_length h) L0) as [[_ ->]|[_ ->]]; [exact Hca|apply HL0].
    + intros g' [Hg'|Heq%list_elem_of_singleton]%elem_of_app; [|subst g'].
      * destruct (Hd g' Hg') as (L' & Hs' & HL' & Hf'). exists L'. split_and!; [by eapply stored_same|clear -HL'; lia|done].
      * exists L0. split_and!; [by eapply stored_same|apply Z.le_min_r|congruence].
    + intros g'. rewrite last_snoc. intros [= <-]. congruence.
    + intros g' Hin Hno Hf. destruct (Hrest' g' Hin Hno) as (_ & Hno' & _).
      destruct (Hrest g' Hin Hno' Hf) as [[? (L' & ?)]|?]; [left; split; [done|exists L'; by eapply stored_same]|by right].
  - rewrite He. simpl. unfold on_kv_pool, zoom. rewrite Hrun.
    eexists. split; [by destruct c|].
    match goal with |- round_inv _ _ (store_hits _ _ _ ?x) => set (h0 := x) end.
    destruct (store_hits_spec seen g rest rows L h0 Hsplit Hrows (proj1 Hl) (proj2 Hl) (proj1 HL) HLa Hserve)
      as (Hsg & Hso & Huo & Hot & Hlb & Hll).
    assert (HLl : (0 <= L <= len)%Z) by (clear -HL Hc; lia).
    split; simpl; [done|exact HLl|by destruct seen|done| | | |exact (Hot Hout)].
    + intros g' [Hg'|Heq%list_elem_of_singleton]%elem_of_app; [|subst g'].
      * destruct (Hd g' Hg') as (L' & Hs' & HL' & Hf'). exists L'. split_and!; [|clear -HL HL'; lia|done].
        apply Hso; [by left|]. by eapply stored_same; [..|exact Hs'].
      * exists L. split_and!; [done|reflexivity|intros _; apply HLl].
    + intros g'. rewrite last_snoc. intros [= <-] _. done.
    + intros g' Hin Hno Hf. destruct (Hrest' g' Hin Hno) as (_ & Hno' & Hinr).
      destruct (Hrest g' Hin Hno' Hf) as [[? (L' & ?)]|Hu]; [left; split; [done|]|right].
      * exists L'. apply Hso; [by right|]. by eapply stored_same.
      * apply Huo; [by right|]. exact Hu.
Qed.

(** A whole round. *)
Lemma hit_round len : (len <= max)%Z -> forall rest k seen h,
  groups = seen ++ rest -> round_inv seen len h ->
  exists h', mfold (hit_group hs max) h (imap (fun i => pair (k + i)) rest) c = (Ok h', c) /\
    round_inv groups len h'.
Proof using Hok.
  intros Hlen. induction rest as [|g rest IH]; intros k seen h Hsplit Hinv.
  - exists h. split; [done|]. by rewrite Hsplit, app_nil_r.
  - destruct (hit_group_step seen g rest (k + 0) len h Hsplit Hlen Hinv) as (h1 & Hrun & Hinv1).
    destruct (IH (S k) (seen ++ [g]) h1) as (h2 & Hrun2 & Hinv2); [by rewrite <- app_assoc|done|].
    exists h2. split; [|done]. rewrite imap_cons. cbn [mfold]. unfold mbind at 1, M_bind at 1. rewrite Hrun, <- Hrun2.
    replace (imap ((fun i => pair (k + i)) ∘ S) rest) with (imap (fun i => pair (S k + i)) rest); [done|].
    apply imap_ext. intros i x _. simpl. by rewrite Nat.add_succ_r.
Qed.

(** Every group has a hit that reaches [t]; a window's is exactly [t]. *)
Definition agreed (t : Z) (h : hit_state) : Prop :=
  (0 <= t <= max)%Z /\ (t mod al = 0)%Z /\
  length (hit_blocks_by_group h) = length (managers c) /\
  untouched h /\
  forall g, g ∈ groups -> exists L, stored h g L /\ (t <= L)%Z /\ (is_full (spec_kind (sg_spec g)) = false -> L = t).

(** Where a round may start. *)
Definition may_start (len : Z) (h : hit_state) : Prop :=
  length (hit_blocks_by_group h) = length (managers c) /\ length (hit_length_by_group h) = length (managers c) /\
  untouched h /\
  forall g, g ∈ groups -> is_full (spec_kind (sg_spec g)) = true ->
    ((len mod al = 0)%Z /\ exists L, stored h g L) \/ unset h g.

Lemma round_agreed_eq len h : (len <= max)%Z -> round_inv groups len h -> (len <= curr_hit_length h)%Z -> agreed len h.
Proof using Hok.
  intros Hlen [Hl Hc _ Hal Hd _ _ Hout] Hge. assert (Heq : curr_hit_length h = len) by lia.
  split_and!; [lia|lia|rewrite <- Heq; apply Hal, Hok|apply Hl|done|].
  intros g Hg. destruct (Hd g Hg) as (L & Hs & HL & Hf). exists L. split_and!; [done|lia|]. intros Hnf.
  specialize (Hf Hnf). lia.
Qed.

(** With one full-attention group and one other, one round is enough. *)
Lemma round_agreed_simple len h :
  (len <= max)%Z -> round_inv groups len h ->
  bool_decide (length groups = 2) && match head groups with Some g => is_full (spec_kind (sg_spec g)) | None => false end
    = true ->
  agreed (curr_hit_length h) h.
Proof using Hok.
  intros Hlen [Hl Hc _ Hal Hd Hlast _ Hout] [Htwo Hfst]%andb_true_iff. apply bool_decide_eq_true in Htwo.
  destruct groups as [|g0 [|g1 [|? ?]]] eqn:Eg; try done. simpl in Hfst.
  split_and!; [lia|lia|by apply Hal|apply Hl|exact Hout|].
  intros g Hg. rewrite Eg in Hg. destruct (decide (is_full (spec_kind (sg_spec g)) = true)) as [Hf|Hnf].
  - destruct (Hd g Hg) as (L & Hs & HL & _). exists L. split_and!; [done|done|congruence].
  - exists (curr_hit_length h). split_and!; [|reflexivity|done]. apply Hlast; [|by apply not_true_iff_false].
    apply elem_of_cons in Hg as [->|Hg]; [congruence|]. apply list_elem_of_singleton in Hg as ->. done.
Qed.

Lemma hit_loop_agreed simple :
  (simple = true -> bool_decide (length groups = 2) &&
     match head groups with Some g => is_full (spec_kind (sg_spec g)) | None => false end = true) ->
  forall fuel len h, (0 <= len <= max)%Z -> Z.to_nat len < fuel -> may_start len h ->
  exists t h', hit_loop fuel hs max groups simple len h c = (Ok (t, h'), c) /\ agreed t h'.
Proof using Hok.
  intros Hsimple. induction fuel as [|fuel IH]; intros len h Hlen Hfuel (Hl1 & Hl2 & Hout & Hst); [lia|].
  cbn [hit_loop]. unfold mbind, M_bind. set (h0 := {| curr_hit_length := len |}).
  destruct (hit_round len (proj2 Hlen) groups 0 [] h0 eq_refl) as (h1 & Hrun & Hinv).
  { split; simpl; [done|lia|done|done|set_solver|done| |exact Hout]. intros g Hg _ Hf. by apply (Hst g Hg Hf). }
  change (imap (fun i => pair (0 + i)) groups) with (imap pair groups) in Hrun. rewrite Hrun.
  destruct (Z.leb_spec len (curr_hit_length h1)) as [Hle|Hlt].
  { exists len, h1. split; [done|]. apply round_agreed_eq; [lia|done|done]. }
  destruct simple.
  { exists (curr_hit_length h1), h1. split; [done|]. apply (round_agreed_simple len); [lia|done|by apply Hsimple]. }
  destruct Hinv as [Hl Hc _ Hal Hd _ _ Hout']. apply IH; [lia|lia|]. split_and!; [apply Hl|apply Hl|done|].
  intros g Hg Hf. left. split; [apply Hal, Hok|]. destruct (Hd g Hg) as (L & Hs & _). by exists L.
Qed.

(** ** Truncation *)

Lemma truncate_other t g blocks j :
  group_ok g -> j ∉ group_ids g -> truncate_group t c blocks g !! j = blocks !! j.
Proof using.
  intros [[_ Hnd] _ _ _] Hj. unfold truncate_group. destruct (is_full _); [|done].
  by apply (foldl_alter _ (group_ids g) blocks Hnd).
Qed.

Lemma truncate_groups_other t l blocks j :
  (forall g, g ∈ l -> group_ok g /\ j ∉ group_ids g) -> foldl (truncate_group t c) blocks l !! j = blocks !! j.
Proof using.
  revert blocks. induction l as [|g l IH]; intros blocks Hl; [done|]. simpl.
  rewrite IH by (intros g' Hg'; apply Hl; by right). apply truncate_other; apply Hl; by left.
Qed.

Lemma truncate_length t l blocks : length (foldl (truncate_group t c) blocks l) = length blocks.
Proof using.
  revert blocks. induction l as [|g l IH]; intros blocks; [done|]. simpl. rewrite IH. unfold truncate_group.
  destruct (is_full _); [|done].
  generalize (match head (group_ids g) ≫= (managers c !!.) with Some m => st_block_size m | None => 1%Z end). intros bs.
  revert blocks. induction (group_ids g) as [|i ids IHi]; intros blocks; [done|]. simpl. rewrite IHi. apply length_alter.
Qed.

Lemma truncate_full t g blocks :
  is_full (spec_kind (sg_spec g)) = true ->
  truncate_group t c blocks g = foldl (fun acc gid =>
    alter (fmap (M := option) (take (Z.to_nat (cdiv t (group_bs g))))) gid acc) blocks (group_ids g).
Proof using. intros Hf. unfold truncate_group. by rewrite Hf. Qed.

Lemma group_bs_pos g : g ∈ groups -> (0 < group_bs g)%Z.
Proof using Hok.
  intros Hg. destruct (go_size _ (ho_group _ _ Hok g Hg)) as (gid & m & k & Hhd & Hm & Hk & Hbs & _).
  unfold group_bs. rewrite Hhd. simpl. rewrite Hm, Hbs. apply Z.mul_pos_pos; [done|apply Hok].
Qed.

Lemma truncate_serves t h g gid :
  agreed t h -> g ∈ groups -> gid ∈ group_ids g ->
  exists row, foldl (truncate_group t c) (hit_blocks_by_group h) groups !! gid = Some (Some row) /\ serves g gid t row.
Proof using Hok.
  intros (Ht & Hal & _ & _ & Hag) Hg Hgid. destruct (Hag g Hg) as (L & (_ & _ & Hs) & HL & Hnf).
  destruct (Hs gid Hgid) as (_ & row & Hrow & Hserve).
  pose proof Hg as Hg'. apply list_elem_of_split in Hg' as (l1 & l2 & Hsplit).
  assert (Hdis : forall g', g' ∈ l1 \/ g' ∈ l2 -> group_ok g' /\ gid ∉ group_ids g').
  { intros g' Hin. split; [apply (ho_group _ _ Hok); rewrite Hsplit; set_solver|].
    by apply (disjoint_groups l1 g l2 g' Hsplit Hin gid). }
  rewrite Hsplit, foldl_app. simpl. rewrite truncate_groups_other by auto.
  pose proof (truncate_groups_other t l1 (hit_blocks_by_group h) gid ltac:(auto)) as H1.
  destruct (is_full (spec_kind (sg_spec g))) eqn:Hf.
  - exists (take (Z.to_nat (cdiv t (group_bs g))) row). split; [|apply (serves_take g gid L); auto using group_bs_pos; lia].
    rewrite (truncate_full t g _ Hf).
    destruct (foldl_alter (fmap (M := option) (take (Z.to_nat (cdiv t (group_bs g))))) (group_ids g)
      (foldl (truncate_group t c) (hit_blocks_by_group h) l1)) as [Hin _]; [apply (ho_group _ _ Hok g Hg)|].
    rewrite (Hin gid Hgid), H1, Hrow. done.
  - exists row. rewrite <- (Hnf eq_refl). split; [|done]. unfold truncate_group at 1. rewrite Hf.
    by rewrite (Hnf eq_refl), H1.
Qed.

(** The lookup as a whole. *)
Lemma hybrid_find_spec :
  exists blocks hit uncached,
    hybrid_find_longest_cache_hit hs max groups c = (Ok (blocks, hit, uncached), c) /\
    (0 <= hit <= max)%Z /\ (hit mod al = 0)%Z /\
    length blocks = length (managers c) /\
    (forall j, outside j -> blocks !! j = Some []) /\
    forall g gid, g ∈ groups -> gid ∈ group_ids g -> exists row, blocks !! gid = Some row /\ serves g gid hit row.
Proof using Hok.
  unfold hybrid_find_longest_cache_hit. set (simple := bool_decide _ && _). unfold mbind, M_bind, gets, id. cbn -[hit_loop].
  set (h0 := {| curr_hit_length := max |}).
  destruct (hit_loop_agreed simple (fun H => H) (S (S (Z.to_nat max))) max h0) as (t & h & Hrun & Hag).
  - pose proof (ho_max _ _ Hok). lia.
  - lia.
  - split_and!; [simpl; by rewrite length_replicate..| |].
    { intros j [Hj _]. by apply lookup_replicate_2. }
    intros g Hg _. right. intros gid Hgid. simpl.
    apply lookup_replicate_2. by apply (ho_group _ _ Hok g Hg).
  - rewrite Hrun. eexists _, t, _. split; [done|]. destruct Hag as (Ht & Hal & Hag). split_and!; [lia|lia|done| | |].
    { rewrite length_fmap, truncate_length. apply Hag. }
    { intros j Hj. rewrite list_lookup_fmap, truncate_groups_other; [by rewrite (proj1 (proj2 Hag) j Hj)|].
      intros g Hg. split; [by apply (ho_group _ _ Hok)|by apply Hj]. }
    intros g gid Hg Hgid. destruct (truncate_serves t h g gid (conj Ht (conj Hal Hag)) Hg Hgid) as (row & Hrow & Hserve).
    exists row. by rewrite list_lookup_fmap, Hrow.
Qed.
End hybrid.

(** C5. The hybrid coordinator's [find_longest_cache_hit], for any number of full
    attention and sliding-window groups without EAGLE.  The lookup returns and changes
    nothing; all groups agree on one hit length, aligned and within the limit; and each
    group's row serves it: full attention has, for every started block, a block that
    holds the request's own prefix, and a sliding window has one for every token that
    the first uncached token attends to. *)
Theorem hybrid_hit_correct n c hs groups fl max_cache_hit_length :
  hybrid_ok n c hs groups fl max_cache_hit_length ->
  exists blocks hit uncached,
    hybrid_find_longest_cache_hit hs max_cache_hit_length groups c = (Ok (blocks, hit, uncached), c) /\
    (0 <= hit <= max_cache_hit_length)%Z /\ (hit mod cache_hit_alignment c = 0)%Z /\
    forall g gid, g ∈ groups -> gid ∈ group_ids g ->
      exists row, blocks !! gid = Some row /\ serves n c hs g gid hit row.
Proof.
  intros Hok. destruct (hybrid_find_spec n c hs groups fl max_cache_hit_length Hok)
    as (blocks & hit & uncached & Hrun & Hhit & Hal & _ & _ & Hserve). exists blocks, hit, uncached.
  split; [exact Hrun|]. split; [exact Hhit|]. split; [exact Hal|exact Hserve].
Qed.
