(* ===== verification/KVLifecycle.v ===== *)
(** The life cycle of requests in the KV cache: a fresh cache is well-formed, releasing a
    request returns exactly its references, and every sequence of scheduler calls keeps
    each block accounted for. *)
From S2P Require Import Prelude KVBlock FreeQueue Request BlockHash BlockPool BlockPoolInv BlockPoolSpec BlockPoolCache BlockPoolThms CacheHit CacheHitThms SlidingHit SingleType SingleTypeInv SingleTypeAlloc SingleTypeFree KVCoordinator KVManager KVAlloc KVAllocThms KVLookup KVHybrid.

(** ** Construction *)

(** A manager that holds nothing. *)
Definition idle (m : STManager) : Prop :=
  st_null_block m = Blk 0 /\ (0 < st_block_size m)%Z /\ req_to_blocks m = ∅ /\ num_cached_block m = ∅ /\
  partial_hit_reqs m = ∅ /\ pending_cow_copies m = [].

Lemma idle_wf n m : idle m -> st_wf n m.
Proof. intros (Hn & Hb & Hr & _ & Hp & _). split; [done|done|by rewrite Hr|by rewrite Hp]. Qed.

Lemma idle_owned m i : idle m -> owned m i = 0%Z.
Proof. intros (_ & _ & Hr & _ & _ & Hc). unfold owned. rewrite Hr, Hc. done. Qed.

Lemma total_owned_idle ms i : Forall idle ms -> total_owned ms i = 0%Z.
Proof.
  induction 1 as [|m ms Hm _ IH]; [done|]. unfold total_owned in *. csimpl. rewrite idle_owned by done. lia.
Qed.

(** The configuration has positive block sizes. *)
Definition config_ok (cfg : KVCacheConfig) (dcp : Z) : Prop :=
  0 < num_blocks cfg /\ (0 < dcp)%Z /\ Forall (fun g => (0 < kvs_block_size (group_spec g))%Z) (kv_cache_groups cfg).

Lemma make_managers_idle cfg p caching mif ml sbs dcp pcp :
  config_ok cfg dcp -> null_block p = Blk 0 -> Forall idle (make_managers cfg p caching mif ml sbs dcp pcp).
Proof.
  intros (_ & Hd & Hbs) Hn. unfold make_managers. apply Forall_lookup_2. intros j m Hj.
  apply list_lookup_imap_Some in Hj as (g & Hg & ->). pose proof (Forall_lookup_1 _ _ _ _ Hbs Hg) as Hb.
  unfold idle, get_manager_for_kv_cache_spec, STManager_init, dcp_world_size_for_kv_cache_spec. simpl.
  cbv beta in Hb. assert (Hmul : (0 < kvs_block_size (group_spec g) * dcp)%Z) by (apply Z.mul_pos_pos; done).
  split_and!; [done| |done..]. destruct (Z.leb_spec dcp 1); [simpl; lia|].
  destruct (is_full _); simpl; [destruct (Z.ltb_spec 1 dcp)|]; lia.
Qed.

Lemma KVCacheManager_init_spec cfg ml mif eagle caching events dcp pcp sbs hbs la wm c :
  config_ok cfg dcp -> KVCacheManager_init cfg ml mif eagle caching events dcp pcp sbs hbs la wm = Ok c ->
  kv_ok (num_blocks cfg) (fun _ => 0%Z) (seq 1 (num_blocks cfg - 1)) c /\ Forall idle (managers c).
Proof.
  intros Hcfg Hi. pose proof Hcfg as (Hn & _). unfold KVCacheManager_init in Hi.
  destruct (BlockPool_init_spec (num_blocks cfg) caching hbs events false Hn) as (p & Hp & Hok & Hr & _).
  rewrite Hp in Hi. pose proof (fo_null_ref _ _ _ _ (proj2 Hok)) as Hnull.
  pose proof (make_managers_idle cfg p caching mif ml sbs dcp pcp Hcfg Hnull) as Hms.
  set (ms := make_managers _ _ _ _ _ _ _ _) in *. clearbody ms.
  assert (Hgo : forall ms', Forall idle ms' -> managers c = ms' -> kv_pool c = p ->
    kv_ok (num_blocks cfg) (fun _ => 0%Z) (seq 1 (num_blocks cfg - 1)) c /\ Forall idle (managers c)).
  { intros ms' Hms' Hm Hpc. rewrite Hm. split; [|done]. split; rewrite ?Hpc, ?Hm; [done| | |done].
    - intros i m Hmi. by eapply idle_wf, (Forall_lookup_1 _ _ _ _ Hms').
    - intros i Hi'. rewrite total_owned_idle by done. apply Hr. lia. }
  clear Hnull Hr Hok Hp. destruct (check _ AssertionError) as [u1|e1]; [|done].
  destruct (check _ ValueError) as [u2|e2]; [|done]. destruct (validate_retention_interval _ _ _) as [u3|e3]; [|done].
  destruct caching; cbn [negb] in Hi; [|injection Hi as <-; by apply (Hgo ms)].
  assert (Himap : forall ms (f : nat -> STManager -> STManager), Forall idle ms ->
    (forall i m, idle m -> idle (f i m)) -> Forall idle (imap f ms)).
  { clear. intros ms f Hms Hf. apply Forall_lookup_2. intros j m Hj. apply list_lookup_imap_Some in Hj as (m0 & Hm0 & ->).
    by eapply Hf, Forall_lookup_1. }
  destruct ms as [|m [|m' ms]].
  - destruct (_ && _); [|done]. injection Hi as <-. by apply (Hgo []).
  - destruct (_ =? _)%Z; [|done]. injection Hi as <-. eapply Hgo; [|done|done].
    constructor; [|done]. by apply Forall_inv in Hms.
  - destruct (_ && _); [|done]. injection Hi as <-. eapply Hgo; [|done|done].
    apply Forall_cons in Hms as [Hm Hms]. apply Forall_cons in Hms as [Hm' Hms].
    constructor; [done|]. constructor; [done|]. by apply Himap.
Qed.

(** ** Release *)

(** The references that request [rid] holds on block [i], over all groups. *)
Definition held (c : KVCache) (rid : string) (i : nat) : Z :=
  sumZ ((fun m => cnt i (blocks_of m rid)) <$> managers c).

Lemma total_owned_without rid ms i :
  total_owned (without rid <$> ms) i = (total_owned ms i - sumZ ((fun m => cnt i (blocks_of m rid)) <$> ms))%Z.
Proof.
  unfold total_owned. induction ms as [|m ms IH]; [done|]. csimpl. rewrite IH, without_owned. lia.
Qed.

(** Manager [i] replaced in a list whose first [i] entries are already mapped. *)
Lemma fmap_take_step {A} (f : A -> A) l i x :
  l !! i = Some x -> <[i := f x]> ((f <$> take i l) ++ drop i l) = (f <$> take (S i) l) ++ drop (S i) l.
Proof.
  intros Hi. pose proof (lookup_lt_Some _ _ _ Hi) as Hlt.
  rewrite (take_S_r _ _ _ Hi), fmap_app, (drop_S _ _ _ Hi).
  rewrite insert_app_r_alt; rewrite length_fmap, length_take, Nat.min_l by lia; [|lia].
  rewrite Nat.sub_diag. simpl. by rewrite <- app_assoc.
Qed.

Lemma fmap_take_lookup {A} (f : A -> A) l i : ((f <$> take i l) ++ drop i l) !! i = l !! i.
Proof.
  destruct (decide (i <= length l)) as [Hle|Hgt].
  - rewrite lookup_app_r; rewrite length_fmap, length_take, Nat.min_l by lia; [|lia].
    rewrite Nat.sub_diag, lookup_drop. by rewrite Nat.add_0_r.
  - rewrite (lookup_ge_None_2 l) by lia. apply lookup_ge_None_2. rewrite length_app, length_fmap, length_take, length_drop. lia.
Qed.

Lemma coord_free_spec n ext fl c rid :
  kv_ok n ext fl c ->
  wp (coord_free rid) (fun _ c' => exists fl', kv_ok n ext fl' c' /\
    managers c' = without rid <$> managers c /\ queue_step (kv_pool c) (kv_pool c') /\
    kv_event_queue (kv_pool c') = kv_event_queue (kv_pool c) /\ fl `sublist_of` fl') c.
Proof.
  intros Hok. unfold coord_free, manager_ids. wp_steps. unfold id.
  apply (wp_for_seq (fun k c' => exists fl', kv_ok n ext fl' c' /\
    managers c' = (without rid <$> take k (managers c)) ++ drop k (managers c) /\
    queue_step (kv_pool c) (kv_pool c') /\ kv_event_queue (kv_pool c') = kv_event_queue (kv_pool c) /\
    fl `sublist_of` fl')).
  - exists fl. by rewrite drop_0.
  - intros i c1 Hi (fl1 & Hok1 & Hms & Hq & He & Hfl). simpl in Hi.
    destruct (lookup_lt_is_Some_2 (managers c) i) as [m Hm]; [lia|].
    assert (Hm1 : managers c1 !! i = Some m) by (by rewrite Hms, fmap_take_lookup).
    eapply wp_on_mgr; [exact Hok1|exact Hm1|].
    eapply wp_mono; [apply st_free_spec; by eapply kv_st_ok|].
    intros [] s' (Hms' & l & Hl & Hs' & Hrq). simpl in *. eexists. split_and!.
    + by eapply put_mgr_ok.
    + simpl. by rewrite Hms', Hms, (fmap_take_step _ _ _ _ Hm).
    + simpl. etrans; [exact Hq|]. apply Hrq.
    + simpl. rewrite (rq_events _ _ _ Hrq). done.
    + unfold freed_order. etrans; [exact Hfl|]. apply sublist_inserts_l, sublist_inserts_r. done.
  - intros c' (fl' & Hok' & Hms & Hrest). rewrite take_ge, drop_ge, app_nil_r in Hms by (simpl; lia). by exists fl'.
Qed.

(** C36. Releasing a request gives back exactly what it held.  In any state that satisfies the
    invariant [kv_ok] (every state the manager's calls reach does), [free] returns, the
    invariant holds again, the references of every block drop by the number of times the
    request's block tables list it, no group knows the request afterwards, the other
    requests are untouched, the blocks that were free stay free in the same eviction
    order, and the prefix cache and its events are unchanged, so the released content can
    still be hit. *)
Theorem kv_free_exact n ext fl c r :
  kv_ok n ext fl c ->
  exists fl' c', kv_free r c = (Ok tt, c') /\ kv_ok n ext fl' c' /\ fl `sublist_of` fl' /\
    (forall i, 0 < i < n -> refs (kv_pool c') i = (refs (kv_pool c) i - held c (request_id r) i)%Z) /\
    (forall j m', managers c' !! j = Some m' -> req_to_blocks m' !! request_id r = None /\
       num_cached_block m' !! request_id r = None /\
       exists m, managers c !! j = Some m /\
         forall rid', rid' <> request_id r -> req_to_blocks m' !! rid' = req_to_blocks m !! rid') /\
    cached_block_hash_to_block (kv_pool c') = cached_block_hash_to_block (kv_pool c) /\
    kv_event_queue (kv_pool c') = kv_event_queue (kv_pool c).
Proof.
  intros Hok. destruct (proj1 (wp_run _ _ _) (coord_free_spec n ext fl c (request_id r) Hok))
    as ([] & c' & Hrun & fl' & Hok' & Hms & Hq & He & Hfl). exists fl', c'. split_and!; try done; [| |apply Hq].
  - intros i Hi. rewrite (ko_refs _ _ _ _ Hok' i Hi), (ko_refs _ _ _ _ Hok i Hi), Hms, total_owned_without.
    unfold held. lia.
  - intros j m' Hj. rewrite Hms, list_lookup_fmap in Hj. destruct (managers c !! j) as [m|] eqn:Hm; [|done].
    simpl in Hj. injection Hj as <-. simpl. rewrite !lookup_delete_eq. split_and!; [done|done|]. exists m. split; [done|].
    intros rid' Hr. by rewrite lookup_delete_ne.
Qed.

(** ** A small hybrid cache *)

Definition demo_config : KVCacheConfig :=
  {| num_blocks := 12;
     kv_cache_groups :=
       [{| group_spec := {| spec_kind := FullAttention; kvs_block_size := 2; spec_prefix_cacheable := true;
                            spec_zeroed := true; spec_kpool_tail := false; spec_layout := 0 |};
           is_eagle_group := false |};
        {| group_spec := {| spec_kind := SlidingWindow 3 0; kvs_block_size := 2; spec_prefix_cacheable := true;
                            spec_zeroed := true; spec_kpool_tail := false; spec_layout := 1 |};
           is_eagle_group := false |}];
     prefix_cache_retention_interval := None; needs_kv_cache_zeroing := false |}.

Abbreviation demo_init := (KVCacheManager_init demo_config 16 16 false true false 1 1 2 2 0 1).

Definition demo_kv : KVCache :=
  match demo_init with
  | Ok c => c
  | Raise _ =>
      {| coord := NoPrefixCache; managers := []; kv_pool := demo_pool; scheduler_block_size := 1;
         num_reprefillable_tokens := 0; draft_replay_reserve := 0; use_eagle_block_drop := false;
         eagle_group_ids := ∅; retention_interval := None; max_model_len := 0; kv_enable_caching := false;
         watermark_blocks := 0 |}
  end.

Definition is_ok {A} (o : outcome A) : bool := match o with Ok _ => true | Raise _ => false end.

Lemma demo_init_ok : demo_init = Ok demo_kv.
Proof.
  assert (H : is_ok demo_init = true) by (vm_compute; reflexivity). unfold demo_kv. by destruct demo_init.
Qed.

Lemma demo_init_spec c :
  demo_init = Ok c -> kv_ok 12 (fun _ => 0%Z) (seq 1 11) c /\ Forall idle (managers c).
Proof.
  intros Hc. eapply (KVCacheManager_init_spec demo_config) in Hc; [exact Hc|].
  split_and!; [simpl; lia|lia|]. by repeat constructor.
Qed.

Lemma demo_kv_ok : kv_ok 12 (fun _ => 0%Z) (seq 1 11) demo_kv /\ Forall idle (managers demo_kv).
Proof. exact (demo_init_spec demo_kv demo_init_ok). Qed.

Definition demo_kv_request : Request :=
  text_request "a" [1; 2; 3; 4; 5; 6]%Z <| block_hashes := [[Byte.x01]; [Byte.x02]; [Byte.x03]] |>.

Definition demo_args : alloc_args :=
  {| num_new_tokens := 6; num_new_computed_tokens := 0; new_computed_blocks := None; num_lookahead_tokens := 1;
     num_external_computed_tokens := 0; delay_cache_blocks := false; num_encoder_tokens := 0;
     full_sequence_must_fit := true; reserved_blocks := 2; has_scheduled_reqs := true |}.

(** A call for a request that holds nothing yet, without lookup results. *)
Lemma unknown_alloc_pre n c r a :
  (forall m, m ∈ managers c -> blocks_of m (request_id r) = [] /\ partial_hit_reqs m !! request_id r = None) ->
  computed_shared_empty a = true -> num_external_computed_tokens a = 0%Z ->
  (0 <= num_prompt_tokens r)%Z -> (0 <= reserved_blocks a)%Z -> (0 <= watermark_blocks c)%Z ->
  Forall (fun m => skip_blocks m (match st_kind m with CrossAttention => 0 | _ => local_tokens r a end) <= 0)%Z (managers c) ->
  alloc_pre n c r a.
Proof.
  intros Hun He Hext Hnp Hres Hwm Hskip.
  assert (Hcl : computed_list c a = replicate (length (managers c)) []).
  { unfold computed_list, computed_shared_empty in *. destruct (new_computed_blocks a) as [[|]|]; done. }
  assert (Hf : brings_computed a = false) by (unfold brings_computed; by rewrite He, Hext).
  split; [by rewrite Hcl, length_replicate| |done|done|done|lia].
  intros j m Hj. exists []. rewrite Hcl, Hf. split; [apply lookup_replicate_2; by eapply lookup_lt_Some|].
  destruct (Hun m) as [Hb Hp]; [by eapply list_elem_of_lookup_2|].
  pose proof (Forall_lookup_1 _ _ _ _ Hskip Hj) as Hs. cbv beta in Hs.
  split; [|done]. unfold resumed, continuing. rewrite Hp, Hb, Hext, Z.add_0_r. split.
  - split; [done|right]. done.
  - by destruct (st_kind m).
Qed.

Lemma forallb_Forall {A} (P : A -> Prop) (f : A -> bool) l :
  (forall x, f x = true -> P x) -> forallb f l = true -> Forall P l.
Proof.
  intros Hf. induction l as [|x l IH]; [done|]. simpl. rewrite andb_true_iff. intros [Hx Hl]. constructor; auto.
Qed.

Lemma demo_alloc_pre : alloc_pre 12 demo_kv demo_kv_request demo_args.
Proof.
  apply unknown_alloc_pre; [|done|done|done|done|vm_compute; done|].
  { intros m Hm. pose proof (proj1 (Forall_forall _ _) (proj2 demo_kv_ok) m Hm) as (_ & _ & Hb & _ & Hp & _).
    unfold blocks_of. by rewrite Hb, Hp. }
  assert (Hb : forallb (fun m => Z.leb (skip_blocks m (match st_kind m with CrossAttention => 0
    | _ => local_tokens demo_kv_request demo_args end)) 0) (managers demo_kv) = true) by (vm_compute; reflexivity).
  refine (forallb_Forall _ _ _ _ Hb). intros m. apply Z.leb_le.
Qed.

Definition gave_slots (o : outcome (option KVCacheBlocks * Request)) : bool :=
  match o with Ok (Some _, _) => true | _ => false end.

Lemma allocate_slots_sound_witness :
  exists b r' c' fl',
    allocate_slots id demo_kv_request demo_args demo_kv = (Ok (Some b, r'), c') /\
    kv_ok 12 (fun _ => 0%Z) fl' c' /\ allocated demo_kv demo_kv_request demo_args fl' c'.
Proof.
  pose proof (allocate_slots_sound id 12 _ _ demo_kv demo_kv_request demo_args (proj1 demo_kv_ok) demo_alloc_pre) as H.
  assert (Hs : gave_slots (allocate_slots id demo_kv_request demo_args demo_kv).1 = true) by (vm_compute; reflexivity).
  destruct (allocate_slots id demo_kv_request demo_args demo_kv) as [[[[b|] r']|e] c']; [|discriminate Hs..].
  destruct H as (fl' & Hok & Ha). exists b, r', c', fl'. split; [reflexivity|]. split; [exact Hok|exact Ha].
Defined.

Definition demo_kv2 : KVCache := (allocate_slots id demo_kv_request demo_args demo_kv).2.

Lemma demo_kv2_ok : exists fl, kv_ok 12 (fun _ => 0%Z) fl demo_kv2.
Proof.
  pose proof (allocate_slots_outcome id 12 _ _ demo_kv demo_kv_request demo_args (proj1 demo_kv_ok) demo_alloc_pre) as H.
  assert (Hs : gave_slots (allocate_slots id demo_kv_request demo_args demo_kv).1 = true) by (vm_compute; reflexivity).
  unfold demo_kv2. destruct (allocate_slots id demo_kv_request demo_args demo_kv) as [[[[b|] r']|e] c']; [|discriminate Hs..].
  destruct H as (fl' & Hok & _). by exists fl'.
Qed.

Lemma kv_free_exact_witness :
  held demo_kv2 "a" 1 = 1%Z /\
  exists c', kv_free demo_kv_request demo_kv2 = (Ok tt, c') /\
    refs (kv_pool c') 1 = (refs (kv_pool demo_kv2) 1 - held demo_kv2 "a" 1)%Z.
Proof.
  split; [vm_compute; reflexivity|]. destruct demo_kv2_ok as [fl Hok].
  destruct (kv_free_exact 12 (fun _ => 0%Z) fl demo_kv2 demo_kv_request Hok) as (fl' & c' & Hrun & _ & _ & Hrefs & _).
  exists c'. split; [exact Hrun|]. apply (Hrefs 1). lia.
Defined.

(** ** Lookups in the small cache *)

Definition demo_full : SpecGroup :=
  {| sg_spec := {| spec_kind := FullAttention; kvs_block_size := 2; spec_prefix_cacheable := true;
                   spec_zeroed := true; spec_kpool_tail := false; spec_layout := 0 |};
     group_ids := [0]; sg_use_eagle := false |}.
Definition demo_window : SpecGroup :=
  {| sg_spec := {| spec_kind := SlidingWindow 3 0; kvs_block_size := 2; spec_prefix_cacheable := true;
                   spec_zeroed := true; spec_kpool_tail := false; spec_layout := 1 |};
     group_ids := [1]; sg_use_eagle := false |}.

(** The fields of a manager that a lookup reads. *)
Definition mgr_view (c : KVCache) (i : nat) : option (Z * Z * Z) :=
  (fun m => (st_block_size m, st_dcp_world_size m, st_pcp_world_size m)) <$> managers c !! i.

Lemma mgr_view_some c i a b d :
  mgr_view c i = Some (a, b, d) ->
  exists m, managers c !! i = Some m /\ st_block_size m = a /\ st_dcp_world_size m = b /\ st_pcp_world_size m = d.
Proof.
  unfold mgr_view. destruct (managers c !! i) as [m|]; [|done]. intros [= <- <- <-]. by exists m.
Qed.

Lemma demo_lookup_ok : lookup_ok demo_kv2 [demo_full; demo_window].
Proof.
  assert (Hal : cache_hit_alignment demo_kv2 = 2%Z) by (vm_compute; reflexivity).
  assert (Hd : forallb (fun m => Z.ltb 0 (st_dcp_world_size m)) (managers demo_kv2) = true) by (vm_compute; reflexivity).
  split; [rewrite Hal; lia|]. split; [by repeat constructor|].
  refine (forallb_Forall _ _ _ _ Hd). intros m. apply Z.ltb_lt.
Qed.

Lemma hybrid_lookup_terminates_witness :
  (hybrid_find_longest_cache_hit (block_hashes demo_kv_request) 5 [demo_full; demo_window] demo_kv2).1 <> Raise OutOfFuel.
Proof. apply (hybrid_lookup_terminates (block_hashes demo_kv_request) 5 [demo_full; demo_window] demo_kv2); [lia|exact demo_lookup_ok]. Defined.

(** Any cache of this shape. *)
Lemma two_groups_ok n c hs fl max :
  pool_ok n (kv_pool c) fl -> cache_hit_alignment c = 2%Z -> hash_block_size (kv_pool c) = 2%Z ->
  length (managers c) = 2 -> mgr_view c 0 = Some (2, 1, 1)%Z -> mgr_view c 1 = Some (2, 1, 1)%Z ->
  (0 <= max < (zlen hs + 1) * 2)%Z -> hybrid_ok n c hs [demo_full; demo_window] fl max.
Proof.
  intros Hok Hal Hh Hl (m0 & Hm0 & Hb0 & Hd0 & _)%mgr_view_some (m1 & Hm1 & Hb1 & Hd1 & Hp1)%mgr_view_some Hmax.
  split; rewrite ?Hal, ?Hh; [done|lia|lia|done|done| |].
  - intros g [->|[->|[]%elem_of_nil]%elem_of_cons]%elem_of_cons.
    + split; [split; [done|apply NoDup_singleton]| |done|].
      * intros gid ->%list_elem_of_singleton. rewrite Hl. lia.
      * exists 0, m0, 1%Z. simpl. rewrite Hh, Hb0, Hd0, Hal. split_and!; try done. by left.
    + split; [split; [done|apply NoDup_singleton]| |done|].
      * intros gid ->%list_elem_of_singleton. rewrite Hl. lia.
      * exists 1, m1, 1%Z. simpl. rewrite Hh, Hb1, Hd1, Hp1, Hal. split_and!; done.
  - simpl. apply NoDup_cons. split; [by intros ?%list_elem_of_singleton|apply NoDup_singleton].
Qed.

Lemma demo_hybrid_ok : exists fl,
  hybrid_ok 12 demo_kv2 (block_hashes demo_kv_request) [demo_full; demo_window] fl 5.
Proof.
  destruct demo_kv2_ok as [fl Hok]. exists fl.
  apply (two_groups_ok 12 demo_kv2 _ fl 5 (ko_pool _ _ _ _ Hok)); [vm_compute; reflexivity..|].
  vm_compute. done.
Qed.

Lemma hybrid_hit_correct_witness :
  (hybrid_find_longest_cache_hit (block_hashes demo_kv_request) 5 [demo_full; demo_window] demo_kv2).1
    = Ok ([[Blk 1; Blk 2]; [Blk 0; Blk 6]], 4%Z, 0%Z) /\
  exists blocks hit uncached row,
    hybrid_find_longest_cache_hit (block_hashes demo_kv_request) 5 [demo_full; demo_window] demo_kv2
      = (Ok (blocks, hit, uncached), demo_kv2) /\
    blocks !! 0 = Some row /\ serves 12 demo_kv2 (block_hashes demo_kv_request) demo_full 0 hit row.
Proof.
  split; [vm_compute; reflexivity|]. destruct demo_hybrid_ok as [fl Hok].
  destruct (hybrid_hit_correct 12 demo_kv2 (block_hashes demo_kv_request) [demo_full; demo_window] fl 5 Hok)
    as (blocks & hit & uncached & Hrun & _ & _ & Hserve).
  destruct (Hserve demo_full 0) as (row & Hrow & Hs); [by left|by left|].
  exists blocks, hit, uncached, row. split_and!; [exact Hrun|exact Hrow|exact Hs].
Defined.
