(* ===== verification/KVReach.v ===== *)
(** Lookup and allocation composed, and the invariant of the KV cache over every series
    of calls the scheduler makes. *)
From S2P Require Import Prelude KVBlock FreeQueue Request BlockHash BlockPool BlockPoolInv BlockPoolSpec BlockPoolCache BlockPoolThms CacheHit CacheHitThms SlidingHit SingleType SingleTypeInv SingleTypeAlloc SingleTypeFree KVCoordinator KVManager KVAlloc KVAllocThms KVSkip KVLookup KVHybrid KVLifecycle.

(** ** A lookup gives what an allocation expects *)

Section new_request.
Context (n : nat) (ext : nat -> Z) (fl : list nat) (c : KVCache) (r : Request) (groups : list SpecGroup).
Local Abbreviation rid := (request_id r).

(** [groups] are the groups the coordinator looks up: none without prefix caching, the one
    group of the unitary coordinator, or the attention groups of the hybrid one. *)
Definition coord_matches : Prop :=
  match coord c with
  | NoPrefixCache => kv_enable_caching c = false
  | Unitary => exists g m, groups = [g] /\ group_ids g = [0] /\ managers c = [m] /\ spec_block_size m = kvs_block_size (sg_spec g) /\
      cache_hit_alignment c = st_block_size m /\ bool_decide (0 ∈ eagle_group_ids c) = false
  | Hybrid _ gs => gs = groups
  end.

(** A request that no group knows, in a cache whose managers match their groups. *)
Record new_request_ok : Prop := {
  nr_kv : kv_ok n ext fl c;
  nr_coord : coord_matches;
  nr_caching m : m ∈ managers c -> st_enable_caching m = kv_enable_caching c;
  nr_lookup : kv_enable_caching c = true -> hybrid_ok n c (block_hashes r) groups fl (Z.max (num_tokens r - 1 - draft_replay_reserve c) 0);
  nr_kind g gid m : g ∈ groups -> gid ∈ group_ids g -> managers c !! gid = Some m ->
    st_kind m = spec_kind (sg_spec g) /\ st_block_size m = group_bs c g;
  nr_window m : m ∈ managers c -> (skip_blocks m 0 <= 0)%Z;
  nr_unknown m : m ∈ managers c -> blocks_of m rid = [] /\ num_cached_block m !! rid = None;
  nr_fresh : num_computed_tokens r = 0%Z /\ (0 <= num_prompt_tokens r)%Z;
  nr_watermark : (0 <= watermark_blocks c)%Z;
  nr_reserve : (0 <= draft_replay_reserve c)%Z;
}.

Context (Hnr : new_request_ok).

Lemma holds_block h g x : holds n (kv_pool c) h g x -> exists i, x = Blk i /\ 0 < i < n.
Proof using. intros (i & -> & Hi & _). by exists i. Qed.

(** The rows of a lookup are blocks of the pool; a hit that ends inside a block ends
    with a block that holds content. *)
Lemma serves_hit_ok g gid m hit row :
  kv_enable_caching c = true -> g ∈ groups -> gid ∈ group_ids g -> managers c !! gid = Some m ->
  (0 <= hit)%Z -> (hit mod cache_hit_alignment c = 0)%Z ->
  serves n c (block_hashes r) g gid hit row -> hit_ok n m row hit.
Proof using Hnr.
  intros Hen Hg Hgid Hm Hhit Hal Hs. destruct Hnr as [Hkv _ _ Hl Hkind _ _ _ _ _]. specialize (Hl Hen).
  destruct (Hkind g gid m Hg Hgid Hm) as [_ Hbs]. destruct (ko_pool _ _ _ _ Hkv) as [_ Hf].
  pose proof (group_bs_pos n c (block_hashes r) groups fl _ Hl g Hg) as Hpos.
  destruct (go_size _ _ (ho_group _ _ _ _ _ _ Hl g Hg)) as (gid0 & m0 & k & Hhd & Hm0 & Hk & Hbs0 & Hsz).
  assert (Hgb : group_bs c g = (k * hash_block_size (kv_pool c))%Z).
  { unfold group_bs. rewrite Hhd. simpl. by rewrite Hm0. }
  unfold hit_ok. rewrite Hbs. unfold serves in Hs.
  assert (Hfull : zlen row = cdiv hit (group_bs c g) /\
    (forall i x, row !! i = Some x -> exists t' h,
      (Z.min hit ((Z.of_nat i + 1) * group_bs c g) <= t' <= (Z.of_nat i + 1) * group_bs c g)%Z /\
      prefix_hash (hash_block_size (kv_pool c)) (block_hashes r) t' = Some h /\ holds n (kv_pool c) h (Z.of_nat gid) x) ->
    blocks_ok n row /\ (0 <= hit)%Z /\
    (row <> [] -> (hit mod group_bs c g <> 0)%Z -> zlen row = cdiv hit (group_bs c g) /\ last row <> Some (Blk 0))).
  { intros [Hlen Hrow]. split_and!; [|done|].
    - apply Forall_lookup_2. intros i x Hx. destruct (Hrow i x Hx) as (t' & h & _ & _ & Hh).
      destruct (holds_block _ _ _ Hh) as (j & -> & Hj). exists j. split; [done|lia].
    - intros _ _. split; [done|]. rewrite last_lookup. intros Hlast. destruct (Hrow _ _ Hlast) as (t' & h & _ & _ & Hh).
      destruct (holds_block _ _ _ Hh) as (j & [= <-] & Hj). lia. }
  destruct (spec_kind (sg_spec g)); try done; try (by apply Hfull).
  destruct Hs as (Hlen & Hrow & _). destruct Hsz as (_ & _ & Hdiv & _). rewrite <- Hgb in Hdiv. split_and!; [|done|].
  - apply Forall_lookup_2. intros i x Hx. destruct (Hrow i x Hx) as [->|(h & _ & Hh)].
    + exists 0. rewrite (fo_null_ref _ _ _ _ Hf). split; [done|]. apply (fo_pos _ _ _ _ Hf).
    + destruct (holds_block _ _ _ Hh) as (j & -> & Hj). exists j. split; [done|lia].
  - intros _ Hmod. destruct Hmod. rewrite <- Hlen. apply Z.mod_mul. lia.
Qed.

(** The arguments the scheduler builds from a lookup. *)
Record from_lookup (b : KVCacheBlocks) (k : Z) (a : alloc_args) : Prop := {
  fl_blocks : new_computed_blocks a = Some b;
  fl_tokens : num_new_computed_tokens a = k;
  fl_external : num_external_computed_tokens a = 0%Z;
  fl_reserved : (0 <= reserved_blocks a)%Z;
}.

(** The rows of the lookup meet the precondition of every manager. *)
Definition rows_ok (blocks : list (list ref)) (hit : Z) : Prop :=
  length blocks = length (managers c) /\ (0 <= hit)%Z /\
  forall j m, managers c !! j = Some m -> exists row, blocks !! j = Some row /\
    match st_kind m with
    | FullAttention | RSWA _ | SlidingWindow _ _ => hit_ok n m row hit /\ (hit = 0%Z -> row = [])
    | _ => row = []
    end /\ (kv_enable_caching c = true \/ row = []).

Lemma rows_alloc_pre blocks hit a :
  rows_ok blocks hit -> (hit <> 0%Z -> existsb (fun l => negb (bool_decide (l = []))) blocks = true) ->
  from_lookup (create_kv_cache_blocks blocks) hit a -> alloc_pre n c r a.
Proof using Hnr.
  intros (Hlen & Hhit & Hrows) Hsome [Hb Hk Hext Hres].
  assert (Hloc : local_tokens r a = hit) by (unfold local_tokens; rewrite Hk, (proj1 (nr_fresh Hnr)); lia).
  assert (Hne : forall j m, managers c !! j = Some m -> m ∈ managers c) by (intros; by eapply list_elem_of_lookup_2).
  unfold create_kv_cache_blocks in Hb. destruct (existsb _ blocks) eqn:Hex.
  - split; [unfold computed_list; by rewrite Hb| |apply Hnr|done|apply Hnr|lia].
    intros j m Hj. destruct (Hrows j m Hj) as (row & Hrow & Hkind & Hca). exists row.
    unfold computed_list, brings_computed, computed_shared_empty. rewrite Hb. split; [done|]. simpl.
    rewrite Hloc, Hext. destruct (nr_unknown Hnr m (Hne j m Hj)) as [Hbo Hnc]. split_and!; [done|done|].
    rewrite (nr_caching Hnr m (Hne j m Hj)).
    destruct (st_kind m); try (split; [apply Hkind|done]); try done.
    subst row. split; [|by right]. split_and!; [constructor|done|done].
  - assert (Hh0 : hit = 0%Z) by (destruct (decide (hit = 0%Z)) as [|Hne0]; [done|by specialize (Hsome Hne0)]).
    apply unknown_alloc_pre; [|unfold computed_shared_empty; by rewrite Hb|done|apply Hnr|done|apply Hnr|].
    + intros m Hm. destruct (nr_unknown Hnr m Hm) as [Hbo _]. split; [done|].
      apply list_elem_of_lookup_1 in Hm as [j Hj]. eapply fresh_no_partial; [by eapply (ko_wf _ _ _ _ (nr_kv Hnr))|done].
    + apply Forall_forall. intros m Hm. pose proof (nr_window Hnr m Hm). rewrite Hloc, Hh0. by destruct (st_kind m).
Qed.

Lemma serves_empty g gid row t :
  kv_enable_caching c = true -> g ∈ groups -> serves n c (block_hashes r) g gid t row -> (t = 0%Z -> row = []) /\ ((0 < t)%Z -> row <> []).
Proof using Hnr.
  intros Hen Hg Hs. pose proof (group_bs_pos n c (block_hashes r) groups fl _ (nr_lookup Hnr Hen) g Hg) as Hpos.
  pose proof (cdiv_spec t _ Hpos) as Hc. unfold serves in Hs. unfold zlen in *.
  assert (Hempty : forall x, (Z.of_nat (length row) = x -> x = 0 -> row = [])%Z).
  { intros x Hx Hx0. apply length_zero_iff_nil. lia. }
  destruct (spec_kind (sg_spec g)); try done; destruct Hs as [Hlen _]; split.
  all: try (intros ->; apply (Hempty _ eq_refl); nia). all: intros Ht ->; simpl in Hlen; nia.
Qed.

(** What the lookup of any coordinator returns *)
Lemma coord_find_spec :
  kv_enable_caching c = true ->
  let max := Z.max (num_tokens r - 1 - draft_replay_reserve c) 0 in
  exists blocks hit uncached,
    coord_find_longest_cache_hit (block_hashes r) max c = (Ok (blocks, hit, uncached), c) /\
    (0 <= hit <= max)%Z /\ (hit mod cache_hit_alignment c = 0)%Z /\ length blocks = length (managers c) /\
    (forall j, j < length (managers c) -> (forall g, g ∈ groups -> j ∉ group_ids g) -> blocks !! j = Some []) /\
    forall g gid, g ∈ groups -> gid ∈ group_ids g -> exists row, blocks !! gid = Some row /\ serves n c (block_hashes r) g gid hit row.
Proof using Hnr.
  intros Hca max. pose proof (nr_lookup Hnr Hca) as Hl. fold max in Hl. pose proof (nr_coord Hnr) as Hco. unfold coord_matches in Hco.
  unfold coord_find_longest_cache_hit, mbind, M_bind, gets, id. destruct (coord c) as [| |fine gs]; [congruence| |].
  - destruct Hco as (g & m & Eg & Hids & Hms & Hsb & Hal & Heg). rewrite Eg in Hl |- *. pose proof (ho_max _ _ _ _ _ _ Hl) as Hmax.
    destruct (group_lookup n c (block_hashes r) [g] fl max Hl g max) as (gid & m0 & rows & L & Hhd & Hm0 & Hrun & Hlen & HL & HLa & Hrows); [by left|lia|].
    destruct (nr_kind Hnr g 0 m) as [Hk _]; [rewrite Eg; by left|rewrite Hids; by left|by rewrite Hms|].
    rewrite Hids in Hhd, Hlen, Hrun, Hrows. injection Hhd as <-. rewrite Hms in Hm0 |- *. injection Hm0 as <-. simpl. rewrite Heg, Hk, Hsb, <- Hal.
    unfold on_kv_pool, zoom. simpl in Hrun. change (Z.of_nat 0) with 0%Z in Hrun. rewrite Hrun. destruct rows as [|row [|? ?]]; try done.
    exists [row], L, 0%Z. split_and!; try done; try lia.
    + by destruct c.
    + intros j Hj Hout. destruct j; [|simpl in Hj; lia]. destruct (Hout g); [by left|rewrite Hids; by left].
    + intros g' gid ->%list_elem_of_singleton Hgid. rewrite Hids in Hgid. apply list_elem_of_singleton in Hgid as ->. exists row. split; [done|]. by apply (Hrows 0).
  - subst gs. destruct (hybrid_find_spec n c (block_hashes r) groups fl max Hl) as (blocks & hit & unc & Hrun & Hhit & Hal & Hlen & Hout & Hserve).
    exists blocks, hit, unc. split_and!; try done; try lia. intros j Hj Hno. apply Hout. by split.
Qed.

Lemma lookup_rows :
  kv_enable_caching c = true ->
  let max := Z.max (num_tokens r - 1 - draft_replay_reserve c) 0 in
  exists blocks hit uncached,
    coord_find_longest_cache_hit (block_hashes r) max c = (Ok (blocks, hit, uncached), c) /\
    rows_ok blocks hit /\ (hit <= max)%Z /\
    (hit <> 0%Z -> existsb (fun l => negb (bool_decide (l = []))) blocks = true).
Proof using Hnr.
  intros Hca max. destruct (coord_find_spec Hca) as (blocks & hit & uncached & Hrun & Hhit & Hal & Hlen & Hout & Hserve).
  exists blocks, hit, uncached. split_and!; [exact Hrun| |lia|].
  - split_and!; [done|lia|]. intros j m Hj.
    destruct (decide (Exists (fun g => j ∈ group_ids g) groups)) as [Hin|Hno].
    + apply Exists_exists in Hin as (g & Hg & Hgid). destruct (Hserve g j Hg Hgid) as (row & Hrow & Hs).
      exists row. split; [done|]. destruct (nr_kind Hnr g j m Hg Hgid Hj) as [Hk _]. rewrite Hk.
      assert (Hh : hit_ok n m row hit) by (eapply serves_hit_ok; [exact Hca|exact Hg|exact Hgid|done|lia|done|done]).
      pose proof (proj1 (serves_empty g j row hit Hca Hg Hs)). split; [|by left].
      unfold serves in Hs. by destruct (spec_kind (sg_spec g)).
    + exists []. split; [apply Hout; [by eapply lookup_lt_Some|]|].
      { intros g Hg Hgid. apply Hno, Exists_exists. by exists g. }
      assert (Hh : hit_ok n m [] hit) by (split_and!; [constructor|lia|done]).
      split; [by destruct (st_kind m)|by right].
  - intros Hne. pose proof (nr_lookup Hnr Hca) as Hl. pose proof (ho_ne _ _ _ _ _ _ Hl) as Hgne. destruct groups as [|g gs] eqn:Eg; [done|].
    destruct (ho_group _ _ _ _ _ _ Hl g) as [[Hids _] _ _ _]; [by left|].
    destruct (group_ids g) as [|gid ids] eqn:Ei; [done|].
    destruct (Hserve g gid) as (row & Hrow & Hs); [by left|rewrite Ei; by left|].
    apply existsb_exists. exists row. split; [apply list_elem_of_In; by eapply list_elem_of_lookup_2|].
    rewrite bool_decide_false; [done|]. eapply (serves_empty g gid row hit); [done|rewrite Eg; by left|done|lia].
Qed.
End new_request.

(** C9. Admission of a new request (unknown to every group, nothing computed yet), end to
    end: [get_computed_blocks] followed by [allocate_slots] with its result and no external
    tokens, for all three coordinators, over full-attention and sliding-window groups without
    EAGLE when caching is on, unless the lookup is to report reused blocks as events.
    The lookup returns, changes nothing and leaves at least one token to compute; and whatever
    it found, the allocation that follows refuses, or gives the request all its slots with
    the reserved blocks still free.  It raises only before any change (a call for no tokens)
    or, the slots given, in the caching step at its end.  In every case the invariant of the
    cache holds afterwards, so no block is lost. *)
Theorem lookup_then_allocate (sha256 : bytes -> bytes) n ext fl c r groups report_full :
  new_request_ok n ext fl c r groups -> enable_kv_cache_events (kv_pool c) && report_full = false ->
  exists b k boundary,
    get_computed_blocks sha256 r report_full c = (Ok (b, k, boundary, r), c) /\
    (0 <= k <= Z.max (num_tokens r - 1) 0)%Z /\
    forall a, from_lookup b k a -> slots_post n ext c r a (allocate_slots sha256 r a c).
Proof.
  intros Hnr Hev. pose proof (nr_kv _ _ _ _ _ _ Hnr) as Hkv. unfold get_computed_blocks, mbind, M_bind, gets, id. simpl.
  destruct (prefix_cache_lookup_enabled c r) eqn:Hen; simpl.
  - apply andb_true_iff in Hen as [Hca _].
    destruct (lookup_rows n ext fl c r groups Hnr Hca) as (blocks & hit & unc & Hrun & Hrows & Hle & Hsome).
    rewrite Hrun, <- andb_assoc, Hev, andb_false_r. simpl. eexists _, _, _. split; [done|]. split.
    + destruct Hrows as (_ & Hhit & _). pose proof (nr_reserve _ _ _ _ _ _ Hnr). lia.
    + intros a Ha. eapply allocate_slots_outcome; [exact Hkv|]. by eapply rows_alloc_pre.
  - eexists _, _, _. split; [done|]. split; [lia|]. intros a Ha. eapply allocate_slots_outcome; [exact Hkv|].
    eapply (rows_alloc_pre _ _ _ _ _ _ Hnr (replicate (length (managers c)) []) 0); [|done|].
    + split_and!; [by rewrite length_replicate|lia|]. intros j m Hj. exists [].
      split; [apply lookup_replicate_2; by eapply lookup_lt_Some|]. split; [|by right].
      assert (hit_ok n m [] 0) by (split_and!; [constructor|lia|done]). by destruct (st_kind m).
    + replace (create_kv_cache_blocks _) with EmptyBlocks; [done|]. unfold create_kv_cache_blocks.
      replace (existsb _ _) with false; [done|]. induction (length (managers c)); [done|simpl; done].
Qed.

(** ** Every series of calls *)

Definition some_ok (n : nat) (c : KVCache) : Prop := exists fl, kv_ok n (fun _ => 0%Z) fl c.

(** The calls of the scheduler on the KV cache manager. *)
Inductive kv_call :=
  | KLookup (r : Request) (report_full : bool)
  | KAllocate (r : Request) (a : alloc_args)
  | KCacheBlocks (r : Request) (num_computed : Z)
  | KRemoveSkipped (rid : string) (processed : Z) (num_prompt : option Z)
  | KFree (r : Request)
  | KEvict (ids : list nat)
  | KReset.

(** What a caller must respect. *)
Definition kv_allowed (n : nat) (c : KVCache) (k : kv_call) : Prop :=
  match k with
  | KAllocate r a => alloc_pre n c r a
  | KRemoveSkipped rid _ np =>
      (forall m, m ∈ managers c -> partial_hit_reqs m !! rid = None) /\ (forall x, np = Some x -> (0 <= x)%Z)
  | _ => True
  end.

Section calls.
Context (sha256 : bytes -> bytes).

Definition run_kv_call (k : kv_call) : M KVCache unit :=
  match k with
  | KLookup r full => void (get_computed_blocks sha256 r full)
  | KAllocate r a => void (allocate_slots sha256 r a)
  | KCacheBlocks r num => void (kv_cache_blocks sha256 r num)
  | KRemoveSkipped rid processed np => kv_remove_skipped_blocks rid processed np
  | KFree r => kv_free r
  | KEvict ids => kv_evict_blocks ids
  | KReset => void kv_reset_prefix_cache
  end.

(** A pool operation that keeps the reference counts and the free list. *)
Lemma on_kv_pool_kept {A} (m : M BlockPool A) n ext fl c :
  kv_ok n ext fl c ->
  wpe m (fun _ => kept n (kv_pool c)) (kept n (kv_pool c)) (kv_pool c) ->
  wpe (on_kv_pool m) (fun _ => kv_ok n ext fl) (kv_ok n ext fl) c.
Proof using.
  intros Hok Hm. unfold on_kv_pool. rewrite wpe_zoom.
  assert (Hput : forall p', kept n (kv_pool c) p' -> kv_ok n ext fl (c <| kv_pool := p' |>)).
  { intros p' Hk. destruct Hok as [Hp Hw Hr He]. split; simpl; [by eapply kept_pool_ok|done| |done].
    intros i Hi. rewrite (cs_ref _ _ (proj2 Hk)). by apply Hr. }
  eapply wpe_mono; [exact Hm|..]; intros; by apply Hput.
Qed.

(** The lookup of every coordinator only reads. *)
Lemma coord_find_reads hs max c : (coord_find_longest_cache_hit hs max c).2 = c.
Proof using.
  unfold coord_find_longest_cache_hit, mbind at 1, M_bind at 1, gets, id. destruct (coord c) as [| |fine groups]; [done| |].
  - match goal with |- (?m c).2 = c => assert (Hq : Query m) by query; apply Hq end.
  - unfold hybrid_find_longest_cache_hit, mbind, M_bind, gets, id. cbn -[hit_loop].
    set (simple := _ && _). generalize (S (S (Z.to_nat max))). intros fuel.
    assert (Hloop : forall fuel len h, (hit_loop fuel hs max groups simple len h c).2 = c).
    { clear. induction fuel as [|fuel IH]; intros len h; [done|]. cbn [hit_loop]. unfold mbind, M_bind.
      set (h0 := {| curr_hit_length := len |}).
      assert (Hq : Query (mfold (hit_group hs max) h0 (imap pair groups))) by apply _. destruct (Hq c) as [Hs _].
      destruct (mfold _ h0 _ c) as [[h'|e] c']; simpl in *; subst; [|done].
      destruct (_ <=? _)%Z; [done|]. destruct simple; [done|]. apply IH. }
    specialize (Hloop fuel max {| curr_hit_length := max; longest_hit_length := 0;
      hit_blocks_by_group := replicate (length (managers c)) None;
      hit_length_by_group := replicate (length (managers c)) 0%Z; eagle_verified := ∅ |}).
    destruct (hit_loop _ _ _ _ _ _ _ c) as [[[len h]|e] c']; done.
Qed.

Lemma lookup_keeps n ext fl r full c :
  kv_ok n ext fl c ->
  wpe (get_computed_blocks sha256 r full) (fun _ => kv_ok n ext fl) (kv_ok n ext fl) c.
Proof using.
  intros Hok. unfold get_computed_blocks. rewrite wpe_bind, wpe_gets. unfold id. destruct (negb _); [done|].
  rewrite wpe_bind. unfold wpe at 1.
  pose proof (coord_find_reads (block_hashes r) (Z.max (num_tokens r - 1 - draft_replay_reserve c) 0) c) as Hs.
  destruct (coord_find_longest_cache_hit _ _ c) as [[[[computed k] unc]|e] c']; simpl in Hs; subst c'; [|done].
  rewrite wpe_bind. eapply (wpe_mono _ _ (fun _ => kv_ok n ext fl)); [|by intros r' c1 Hc1|done].
  destruct (_ && _); [|done]. unfold emit_reused_events. rewrite wpe_bind, wpe_gets.
  apply (wpe_fold _ (kv_ok n ext fl)); [done|done|]. intros [i l] r1 c1 _ Hc1. case_bool_decide; [done|].
  rewrite wpe_bind. apply wpe_of_option; [done|]. intros m Hm. apply on_kv_pool_kept; [done|].
  destruct (ko_pool _ _ _ _ Hc1) as [Hcache Hfree]. apply (kept_emit_cached sha256 n (kv_pool c1)). by apply kept_refl.
Qed.

Lemma coord_remove_keeps n ext fl c rid P np :
  kv_ok n ext fl c -> (forall m, m ∈ managers c -> partial_hit_reqs m !! rid = None) ->
  (forall x, np = Some x -> (0 <= x)%Z) ->
  wp (coord_remove_skipped_blocks rid P np) (fun _ c' => exists fl', kv_ok n ext fl' c') c.
Proof using.
  intros Hok Hpart Hnp. unfold coord_remove_skipped_blocks, manager_ids. wp_steps. unfold id.
  pose (R := fun (_ : BlockPool) (_ : nat) m (_ : Z) => partial_hit_reqs m !! rid = None).
  assert (Hpass : pass_step n (fun _ => remove_skipped_blocks rid P np) R R (fun _ _ => True)).
  { split_and!; [|done|done]. intros i e fl0 s x Hs Hp Hx.
    eapply wp_mono; [by apply (remove_skipped_spec n e fl0 s rid P np Hs)|]. intros [] s' (fl' & Htr). exists fl'.
    pose proof (trimmed_more_free _ _ _ _ _ _ _ _ _ Hs Htr).
    split_and!; [apply Htr|done|lia|]. unfold R. rewrite (tr_partial _ _ _ _ _ _ _ _ _ Htr). exact Hp. }
  eapply (funded_mfor n ext 0 ltac:(lia) _ _ _ _ _ c _ Hpass).
  - exists fl, (replicate (length (managers c)) 0%Z). split_and!; [done|done|by rewrite length_replicate| | |].
    + rewrite sumZ_zero. unfold zlen. lia.
    + intros j x [-> _]%lookup_replicate. lia.
    + intros j m x Hj _. apply Hpart. by eapply list_elem_of_lookup_2.
  - intros c' (fl' & b & Hok' & _). by exists fl'.
Qed.

Lemma run_kv_call_ok n c k :
  some_ok n c -> kv_allowed n c k -> wpe (run_kv_call k) (fun _ => some_ok n) (some_ok n) c.
Proof using.
  intros [fl Hok] Hal. destruct k; simpl in *; try apply wpe_void.
  - eapply wpe_mono; [by apply lookup_keeps|..]; intros; by exists fl.
  - pose proof (allocate_slots_outcome sha256 n _ fl c r a Hok Hal) as Hpost. unfold slots_post in Hpost. unfold wpe.
    destruct (allocate_slots sha256 r a c) as [[[[b|] r']|e] c'].
    + destruct Hpost as (fl' & ? & _). by exists fl'.
    + apply Hpost.
    + destruct Hpost as [(_ & _ & _ & ->)|(_ & _ & fl' & ? & _)]; [by exists fl|by exists fl'].
  - unfold kv_cache_blocks. rewrite wpe_bind, wpe_gets. unfold id. destruct (kv_enable_caching c); [|by exists fl].
    eapply wpe_mono; [by apply coord_cache_keeps|..]; [intros ? ? [? _]|intros ? [? _]]; by exists fl.
  - apply wpe_wp. destruct Hal as [Hp Hnp]. eapply wp_mono; [by apply (coord_remove_keeps n (fun _ => 0%Z) fl)|done].
  - apply wpe_wp. eapply wp_mono; [by apply (coord_free_spec n (fun _ => 0%Z) fl)|]. intros _ c' (fl' & ? & _). by exists fl'.
  - eapply wpe_mono; [apply (on_kv_pool_kept _ n (fun _ => 0%Z) fl c Hok)|..]; [|intros; by exists fl..].
    destruct (ko_pool _ _ _ _ Hok) as [Hc Hf]. apply (kept_evict_blocks n (kv_pool c) fl Hf). by apply kept_refl.
  - unfold kv_reset_prefix_cache, on_kv_pool. rewrite wpe_zoom. apply wpe_wp.
    eapply wp_mono; [apply (reset_prefix_cache_spec n fl (kv_pool c)); apply Hok|].
    intros b p' [_ Hb]. exists fl. destruct Hok as [Hp Hw Hr He]. destruct b; [|subst p'; by destruct c].
    destruct Hb as (Hp' & Hcs & _). split; simpl; [done|done| |done]. intros i Hi. rewrite (cs_ref _ _ Hcs). by apply Hr.
Qed.

(** The states of a cache built with the configuration [cfg]. *)
Inductive kv_reach (cfg : KVCacheConfig) (dcp : Z) : KVCache -> Prop :=
  | kv_reach_init ml mif eagle caching events pcp sbs hbs la wm c :
      KVCacheManager_init cfg ml mif eagle caching events dcp pcp sbs hbs la wm = Ok c -> kv_reach cfg dcp c
  | kv_reach_call c k o c' :
      kv_reach cfg dcp c -> kv_allowed (num_blocks cfg) c k -> run_kv_call k c = (o, c') -> kv_reach cfg dcp c'.

Lemma kv_reach_ok cfg dcp c : config_ok cfg dcp -> kv_reach cfg dcp c -> some_ok (num_blocks cfg) c.
Proof using.
  intros Hcfg Hr. induction Hr as [ml mif eagle caching events pcp sbs hbs la wm c Hi|c k o c' _ IH Hal Hrun].
  - eexists. by eapply KVCacheManager_init_spec.
  - pose proof (run_kv_call_ok _ c k IH Hal) as Hw. unfold wpe in Hw. rewrite Hrun in Hw. by destruct o.
Qed.

(** C2. The KV cache over any series of scheduler calls, returning or raising, from any
    configuration: every block's reference count is the number of times the block tables
    and pending copies of all groups list it, a block is in the free queue exactly when
    nobody lists it, and free and listed blocks add up to the pool without the null
    block.  So no block is leaked, freed twice, or given to two owners by accident. *)
Theorem kv_cache_invariant cfg dcp c :
  config_ok cfg dcp -> kv_reach cfg dcp c ->
  (forall i, 0 < i < num_blocks cfg -> refs (kv_pool c) i = total_owned (managers c) i) /\
  (exists fl, repr (free_block_queue (kv_pool c)) fl /\ NoDup fl /\
     forall i, i ∈ fl <-> 0 < i < num_blocks cfg /\ total_owned (managers c) i = 0%Z) /\
  (get_num_free_blocks (kv_pool c) + zlen (referenced (num_blocks cfg) (kv_pool c)) = Z.of_nat (num_blocks cfg) - 1)%Z.
Proof using.
  intros Hcfg Hr. destruct (kv_reach_ok cfg dcp c Hcfg Hr) as [fl Hok]. destruct (ko_pool _ _ _ _ Hok) as [Hc Hf].
  assert (Href : forall i, 0 < i < num_blocks cfg -> refs (kv_pool c) i = total_owned (managers c) i).
  { intros i Hi. rewrite (ko_refs _ _ _ _ Hok i Hi). lia. }
  split_and!; [done| |by eapply pool_conservation]. exists fl. pose proof (fo_nodup _ _ _ _ Hf) as Hnd.
  rewrite app_nil_r in Hnd. split_and!; [apply Hf|done|]. intros i. pose proof (fo_free _ _ _ _ Hf i) as Hi.
  rewrite app_nil_r in Hi. rewrite Hi. split; intros [H1 H2]; (split; [done|]); [by rewrite <- Href|by rewrite <- Href in H2].
Qed.
End calls.

(** ** The small cache again *)

Lemma demo_config_ok : config_ok demo_config 1.
Proof. split_and!; [simpl; lia|lia|]. by repeat constructor. Qed.

Lemma kv_cache_invariant_witness :
  kv_reach id demo_config 1 demo_kv /\
  (get_num_free_blocks (kv_pool demo_kv) + zlen (referenced 12 (kv_pool demo_kv)) = 11)%Z.
Proof.
  assert (Hr : kv_reach id demo_config 1 demo_kv) by (eapply kv_reach_init; exact demo_init_ok).
  split; [exact Hr|]. exact (proj2 (proj2 (kv_cache_invariant id demo_config 1 demo_kv demo_config_ok Hr))).
Defined.

(** The window group of the small cache, beside the pool. *)
Definition window_view (c : KVCache) :=
  (fun m => (st_kind m, partial_hit_reqs m !! "a", blocks_of m "a", st_block_size m)) <$> managers c !! 1.

Lemma window_state n ext fl c k bl bs :
  kv_ok n ext fl c -> window_view c = Some (k, None, bl, bs) ->
  exists ext fl s, st_ok n ext fl s /\ st_kind (mgr s) = k /\ partial_hit_reqs (mgr s) !! "a" = None /\
    blocks_of (mgr s) "a" = bl /\ st_block_size (mgr s) = bs.
Proof.
  intros Hok Hv. unfold window_view in Hv. destruct (managers c !! 1) as [m|] eqn:Hm; [|done].
  injection Hv as H1 H2 H3 H4. eexists _, fl, _. split; [exact (kv_st_ok _ _ _ _ _ _ Hok Hm)|]. done.
Qed.

Lemma demo_window_state :
  exists ext fl s, st_ok 12 ext fl s /\ st_kind (mgr s) = SlidingWindow 3 0 /\
    partial_hit_reqs (mgr s) !! "a" = None /\ blocks_of (mgr s) "a" = [Blk 5; Blk 6; Blk 7; Blk 8] /\
    st_block_size (mgr s) = 2%Z.
Proof.
  destruct demo_kv2_ok as [fl Hok]. eapply (window_state 12 _ fl demo_kv2); [exact Hok|]. vm_compute. reflexivity.
Qed.

Lemma remove_skipped_safe_witness :
  exists s s', blocks_of (mgr s) "a" = [Blk 5; Blk 6; Blk 7; Blk 8] /\
    remove_skipped_blocks "a" 6 (Some 6%Z) s = (Ok tt, s') /\
    blocks_of (mgr s') "a" !! 2 = Some (Blk 7).
Proof.
  destruct demo_window_state as (ext & fl & s & Hs & Hk & Hp & Hb & Hbs).
  destruct (remove_skipped_safe 12 ext fl s "a" 6 (Some 6%Z) Hs Hp) as (fl' & s' & Hrun & _ & Hkeep & _).
  - rewrite Hk. exact I.
  - lia.
  - intros x [= <-]. lia.
  - exists s, s'. split; [exact Hb|]. split; [exact Hrun|]. specialize (Hkeep 6%Z 5%Z).
    rewrite Hbs, Hb, Hk in Hkeep. apply Hkeep; [lia|]. split; [lia|]. simpl. lia.
Defined.

Lemma window_admission_cap_witness :
  exists s new s', blocks_of (mgr s) "a" = [Blk 5; Blk 6; Blk 7; Blk 8] /\
    (remove_skipped_blocks "a" 6 None ;; allocate_new_blocks "a" 8) s = (Ok new, s') /\ (live_blocks (mgr s') "a" <= 3)%Z.
Proof.
  destruct demo_window_state as (ext & fl & s & Hs & Hk & Hp & Hb & Hbs).
  destruct (window_admission_cap (sg_spec demo_window) 3 0 2 16 12 ext fl s "a" 6 None 8 3 Hs Hk)
    as (new & s' & Hrun & _ & Hle); try done; try (rewrite Hb, Hbs; vm_compute; done).
  - exists 0, [Blk 5; Blk 6; Blk 7; Blk 8]. split; [exact Hb|].
    rewrite !not_elem_of_cons. split_and!; try (intros H; discriminate H). exact (not_elem_of_nil _).
  - rewrite Hb, Hbs. unfold zlen. simpl. change (cdiv 8 2) with 4%Z. lia.
  - exists s, new, s'. done.
Defined.

(** What admission reads of a cache of this shape for a request [rid]. *)
Definition admission_view (rid : string) (c : KVCache) :=
  (fun m => (st_kind m, st_block_size m, st_enable_caching m, skip_blocks m 0, blocks_of m rid, num_cached_block m !! rid))
    <$> managers c.

Lemma two_groups_request n ext fl c r fine :
  kv_ok n ext fl c -> coord c = Hybrid fine [demo_full; demo_window] -> kv_enable_caching c = true ->
  hybrid_ok n c (block_hashes r) [demo_full; demo_window] fl (Z.max (num_tokens r - 1 - draft_replay_reserve c) 0) ->
  admission_view (request_id r) c =
    [(FullAttention, 2%Z, true, 0%Z, [], None); (SlidingWindow 3 0, 2%Z, true, 0%Z, [], None)] ->
  num_computed_tokens r = 0%Z -> (0 <= num_prompt_tokens r)%Z -> (0 <= watermark_blocks c)%Z ->
  (0 <= draft_replay_reserve c)%Z -> new_request_ok n ext fl c r [demo_full; demo_window].
Proof.
  intros Hok Hco Hca Hl Hv Hc Hp Hw Hr. unfold admission_view in Hv.
  destruct (managers c) as [|m0 [|m1 [|? ?]]] eqn:Hms; try discriminate Hv. injection Hv as K0 B0 E0 S0 L0 N0 K1 B1 E1 S1 L1 N1.
  assert (Hall : forall P : STManager -> Prop, P m0 -> P m1 -> forall m, m ∈ managers c -> P m).
  { intros P P0 P1 m. rewrite Hms. by intros [->| ->%list_elem_of_singleton]%elem_of_cons. }
  split; [done|unfold coord_matches; by rewrite Hco| |done| | | |done|done|done].
  - apply Hall; congruence.
  - assert (G0 : group_bs c demo_full = 2%Z) by (unfold group_bs; rewrite Hms; exact B0).
    assert (G1 : group_bs c demo_window = 2%Z) by (unfold group_bs; rewrite Hms; exact B1).
    intros g gid m [->| ->%list_elem_of_singleton]%elem_of_cons ->%list_elem_of_singleton; rewrite Hms; intros [= <-];
      rewrite ?G0, ?G1; split; done.
  - apply Hall; lia.
  - apply Hall; split; done.
Qed.

Definition demo_new_request : Request :=
  text_request "b" [1; 2; 3; 4; 5; 6]%Z <| block_hashes := [[Byte.x01]; [Byte.x02]; [Byte.x03]] |>.

Lemma demo_new_request_ok : exists fl, new_request_ok 12 (fun _ => 0%Z) fl demo_kv2 demo_new_request [demo_full; demo_window].
Proof.
  destruct demo_kv2_ok as [fl Hok]. exists fl.
  eapply two_groups_request; [exact Hok|vm_compute; reflexivity|vm_compute; reflexivity| |vm_compute; reflexivity..|
    vm_compute; intros H; discriminate H|vm_compute; intros H; discriminate H|vm_compute; intros H; discriminate H].
  apply (two_groups_ok 12 demo_kv2 _ fl _ (ko_pool _ _ _ _ Hok)); [vm_compute; reflexivity..|]. vm_compute.
  split; [intros H; discriminate H|reflexivity].
Qed.

Lemma lookup_then_allocate_witness :
  exists fl b k boundary,
    get_computed_blocks id demo_new_request false demo_kv2 = (Ok (b, k, boundary, demo_new_request), demo_kv2) /\
    forall a, from_lookup b k a ->
      slots_post 12 (fun _ => 0%Z) demo_kv2 demo_new_request a (allocate_slots id demo_new_request a demo_kv2) /\
      new_request_ok 12 (fun _ => 0%Z) fl demo_kv2 demo_new_request [demo_full; demo_window].
Proof.
  destruct demo_new_request_ok as [fl Hnr].
  destruct (lookup_then_allocate id 12 _ fl demo_kv2 demo_new_request _ false Hnr (andb_false_r _)) as (b & k & bd & Hrun & _ & Hpost).
  exists fl, b, k, bd. split; [exact Hrun|]. intros a Ha. split; [exact (Hpost a Ha)|exact Hnr].
Defined.
