(* ===== verification/NGram.v ===== *)
(** The n-gram proposer (vllm/v1/spec_decode/ngram_proposer.py): draft tokens for
    speculative decoding, copied from what followed the earliest occurrence of the longest
    suffix of the context that occurs before.  The search is the prefix function of Knuth,
    Morris and Pratt on the reversed tokens, capped at [max_ngram]; the batch entry point
    writes into buffers that survive from step to step. *)
From S2P Require Import Prelude.

(** ** Definitions *)

(** The variables of the search loop. *)
Record ngram_state := {
  prev_lps : nat;
  cursor : nat;
  longest_ngram : nat;
  position : nat;
  lps : list nat;
}.

(** The [while i < total_token] loop.  An access outside an array raises here. *)
Fixpoint lps_loop (fuel : nat) (tokens : list Z) (max_ngram : nat) (s : ngram_state) : outcome ngram_state :=
  match fuel with
  | O => Raise OutOfFuel
  | S fuel =>
      let i := cursor s in
      if decide (i < length tokens) then
        match tokens !! prev_lps s, tokens !! i with
        | Some a, Some b =>
            if (a =? b)%Z then
              let prev := prev_lps s + 1 in
              let '(longest, pos) :=
                if decide (longest_ngram s <= prev) then (prev, i) else (longest_ngram s, position s) in
              let table := if decide (i < max_ngram) then <[i := prev]> (lps s) else lps s in
              if decide (prev = max_ngram) then
                match table !! (max_ngram - 1) with
                | Some prev =>
                    lps_loop fuel tokens max_ngram
                      {| prev_lps := prev; cursor := i + 1; longest_ngram := longest; position := pos; lps := table |}
                | None => Raise IndexError
                end
              else
                lps_loop fuel tokens max_ngram
                  {| prev_lps := prev; cursor := i + 1; longest_ngram := longest; position := pos; lps := table |}
            else if decide (prev_lps s <> 0) then
              match lps s !! (prev_lps s - 1) with
              | Some prev =>
                  lps_loop fuel tokens max_ngram
                    {| prev_lps := prev; cursor := i; longest_ngram := longest_ngram s; position := position s; lps := lps s |}
              | None => Raise IndexError
              end
            else
              lps_loop fuel tokens max_ngram
                {| prev_lps := prev_lps s; cursor := i + 1; longest_ngram := longest_ngram s; position := position s; lps := lps s |}
        | _, _ => Raise IndexError
        end
      else Ok s
  end.

Definition lps_init (max_ngram : nat) : ngram_state :=
  {| prev_lps := 0; cursor := 1; longest_ngram := 0; position := 0; lps := replicate max_ngram 0 |}.

(** [_find_longest_matched_ngram_and_propose_tokens]; the loop makes at most two rounds
    per token. *)
Definition find_longest_matched_ngram_and_propose_tokens (origin_tokens : list Z) (min_ngram max_ngram : nat)
    (max_model_len k : Z) : outcome (list Z) :=
  let total_token := length origin_tokens in
  if decide (total_token < min_ngram) then Ok []
  else
    let k := Z.min k (max_model_len - Z.of_nat total_token) in
    if (k <=? 0)%Z then Ok []
    else
      match lps_loop (2 * total_token + 1) (reverse origin_tokens) max_ngram (lps_init max_ngram) with
      | Raise e => Raise e
      | Ok s =>
          if decide (longest_ngram s < min_ngram) then Ok []
          else
            let start_position := total_token - 1 - position s + longest_ngram s in
            let k := Z.min k (Z.of_nat (total_token - start_position)) in
            Ok (take (Z.to_nat k) (drop start_position origin_tokens))
      end.

(** [NgramProposer]: the n-gram lengths, the number of draft tokens, the model's length and
    the two result buffers, one row per sequence, which are reused in every step. *)
Record NgramProposer := {
  min_n : nat;
  max_n : nat;
  num_speculative : Z;
  ng_max_model_len : Z;
  valid_ngram_draft : list (list Z);
  valid_ngram_num_drafts : list nat;
}.

#[export] Instance NgramProposer_eta : Eta NgramProposer := fun p =>
  Build_NgramProposer (min_n p) (max_n p) (num_speculative p) (ng_max_model_len p)
    (valid_ngram_draft p) (valid_ngram_num_drafts p).

(** The buffers of [__init__], whose warm-up call proposes nothing. *)
Definition NgramProposer_init (min_n max_n k max_num_seqs : nat) (max_model_len : Z) : NgramProposer :=
  {| min_n := min_n; max_n := max_n; num_speculative := Z.of_nat k; ng_max_model_len := max_model_len;
     valid_ngram_draft := replicate max_num_seqs (replicate k 0%Z);
     valid_ngram_num_drafts := replicate max_num_seqs 0 |}.

Definition lift_outcome {S A} (o : outcome A) : M S A := fun s => (o, s).

(** One iteration of [batch_propose_numba].  [row[:n] = d] needs [n] elements in the row. *)
Definition propose_one (num_tokens_no_spec : list nat) (token_ids_cpu : list (list Z)) (k : Z) (idx : nat)
    : M NgramProposer unit :=
  p ← gets id;
  num_tokens ← of_option IndexError (num_tokens_no_spec !! idx);
  row ← of_option IndexError (token_ids_cpu !! idx);
  drafter_output ← lift_outcome (find_longest_matched_ngram_and_propose_tokens
    (take num_tokens row) (min_n p) (max_n p) (ng_max_model_len p) k);
  _ ← of_option IndexError (valid_ngram_num_drafts p !! idx);
  modify (fun p => p <| valid_ngram_num_drafts := <[idx := length drafter_output]> (valid_ngram_num_drafts p) |>) ;;
  if decide (drafter_output = []) then mret tt
  else
    out ← of_option IndexError (valid_ngram_draft p !! idx);
    if decide (length drafter_output <= length out) then
      modify (fun p => p <| valid_ngram_draft :=
        <[idx := drafter_output ++ drop (length drafter_output) out]> (valid_ngram_draft p) |>)
    else raise ValueError.

(** [batch_propose].  The iterations of the parallel loop write different rows, so their
    order does not matter; the number of threads is not modelled. *)
Definition batch_propose (num_requests : nat) (valid_ngram_requests : list nat) (num_tokens_no_spec : list nat)
    (token_ids_cpu : list (list Z)) (k : Z) : M NgramProposer (list (list Z)) :=
  mfor valid_ngram_requests (propose_one num_tokens_no_spec token_ids_cpu k) ;;
  mfold (fun draft_token_ids i =>
    p ← gets id;
    if decide (i ∈ valid_ngram_requests) then
      n ← of_option IndexError (valid_ngram_num_drafts p !! i);
      if decide (0 < n) then
        row ← of_option IndexError (valid_ngram_draft p !! i);
        mret (draft_token_ids ++ [take n row])
      else mret (draft_token_ids ++ [[]])
    else mret (draft_token_ids ++ [[]])) [] (seq 0 num_requests).

(** The selection of requests in [propose]: those with a sampled token that are below the
    model's length. *)
Definition select_request (max_model_len : Z) (num_tokens_no_spec : list nat) (valid_ngram_requests : list nat)
    (x : nat * list Z) : M NgramProposer (list nat) :=
  let '(i, sampled_ids) := x in
  if decide (sampled_ids = []) then mret valid_ngram_requests
  else
    num_tokens ← of_option IndexError (num_tokens_no_spec !! i);
    mret (if (max_model_len <=? Z.of_nat num_tokens)%Z then valid_ngram_requests else valid_ngram_requests ++ [i]).

Definition propose (num_speculative_tokens : Z) (sampled_token_ids : list (list Z)) (num_tokens_no_spec : list nat)
    (token_ids_cpu : list (list Z)) : M NgramProposer (list (list Z)) :=
  p ← gets id;
  massert (num_speculative_tokens <=? num_speculative p)%Z ;;
  valid_ngram_requests ← mfold (select_request (ng_max_model_len p) num_tokens_no_spec) [] (imap pair sampled_token_ids);
  batch_propose (length sampled_token_ids) valid_ngram_requests num_tokens_no_spec token_ids_cpu num_speculative_tokens.

(** ** Borders *)

Section borders.
Context (T : list Z).

(** [bord v e]: the first [v] tokens end the first [e] tokens, and [v < e]. *)
Definition bord (v e : nat) : Prop := v < e /\ forall j, j < v -> T !! j = T !! (e - v + j).

Lemma bord_0 e : 0 < e -> bord 0 e.
Proof using. split; [lia|]. lia. Qed.

Lemma bord_shrink v e : bord (S v) (S e) -> bord v e /\ T !! v = T !! e.
Proof using.
  intros [Hv Hb]. split; [split; [lia|]|].
  - intros j Hj. rewrite (Hb j ltac:(lia)); f_equal; lia.
  - rewrite (Hb v ltac:(lia)); f_equal; lia.
Qed.

Lemma bord_grow v e : bord v e -> T !! v = T !! e -> bord (S v) (S e).
Proof using.
  intros [Hv Hb] He. split; [lia|]. intros j Hj. destruct (decide (j = v)) as [->|]; [rewrite He; f_equal; lia|].
  rewrite (Hb j ltac:(lia)); f_equal; lia.
Qed.

(** A border of a border is a border. *)
Lemma bord_trans u v e : bord u v -> bord v e -> bord u e.
Proof using.
  intros [Hu Hbu] [Hv Hbv]. split; [lia|]. intros j Hj. rewrite (Hbu j Hj), (Hbv (v - u + j) ltac:(lia)); f_equal; lia.
Qed.

(** Of two borders the shorter is a border of the longer. *)
Lemma bord_nested u v e : u < v -> bord u e -> bord v e -> bord u v.
Proof using.
  intros Huv [Hu Hbu] [Hv Hbv]. split; [done|]. intros j Hj. rewrite (Hbu j Hj), (Hbv (v - u + j) ltac:(lia)); f_equal; lia.
Qed.

(** [v] is the longest border of the first [e] tokens. *)
Definition longest_bord (v e : nat) : Prop := bord v e /\ forall u, bord u e -> u <= v.

(** [u + 1] may end at [i + 1] only for [u <= p]. *)
Definition at_most (M p i : nat) : Prop := forall u, u < M -> bord (S u) (S i) -> u <= p.

(** The loop invariant. *)
Record lps_inv (M : nat) (s : ngram_state) : Prop := {
  li_cursor : 1 <= cursor s <= length T;
  li_prev : bord (prev_lps s) (cursor s) /\ prev_lps s < M;
  li_cand : at_most M (prev_lps s) (cursor s);
  li_len : length (lps s) = M;
  li_table e : 1 <= e <= cursor s -> e <= M -> exists v, lps s !! (e - 1) = Some v /\ longest_bord v e;
  li_zero j : cursor s <= j < M -> lps s !! j = Some 0;
  li_best e u : 1 <= e <= cursor s -> u <= M -> bord u e -> u <= longest_ngram s;
  li_found : 0 < longest_ngram s -> longest_ngram s <= M /\ bord (longest_ngram s) (position s + 1) /\
    position s + 1 <= cursor s;
  li_latest e : 0 < longest_ngram s -> e <= cursor s -> bord (longest_ngram s) e -> e <= position s + 1;
}.

Lemma lps_inv_init M : 0 < M -> T <> [] -> lps_inv M (lps_init M).
Proof using.
  intros HM HT. assert (Hlen : length T <> 0) by (by intros ?%nil_length_inv).
  split; simpl; try lia.
  - split; [apply bord_0; lia|done].
  - intros u Hu [Hlt _]. lia.
  - by rewrite length_replicate.
  - intros e He HeM. assert (e = 1) as -> by lia. exists 0. split; [apply lookup_replicate; lia|].
    split; [apply bord_0; lia|]. intros u [Hu _]. lia.
  - intros j Hj. apply lookup_replicate. lia.
  - intros e u He _ [Hu _]. lia.
Qed.

(** What the next token makes of the invariant: [v] is the longest capped border that
    ends there. *)
Lemma lps_advance M s v table longest pos prev :
  lps_inv M s -> cursor s < length T ->
  bord v (S (cursor s)) -> v <= M -> (forall u, u <= M -> bord u (S (cursor s)) -> u <= v) ->
  table = (if decide (cursor s < M) then <[cursor s := v]> (lps s) else lps s) ->
  (longest, pos) = (if decide (0 < v /\ longest_ngram s <= v) then (v, cursor s) else (longest_ngram s, position s)) ->
  bord prev (S (cursor s)) -> prev < M -> (forall u, u < M -> bord u (S (cursor s)) -> u <= prev) ->
  lps_inv M {| prev_lps := prev; cursor := cursor s + 1; longest_ngram := longest; position := pos; lps := table |}.
Proof using.
  intros [Hc Hp Hca Hlen Ht Hz Hb Hf Hla] Hlt Hv HvM Hmax -> Hbest Hprev HpM Hpmax.
  set (i := cursor s) in *. replace (i + 1) with (S i) by lia.
  assert (Hlk : forall j, (if decide (i < M) then <[i := v]> (lps s) else lps s) !! j =
                     if decide (j = i /\ i < M) then Some v else lps s !! j).
  { intros j. destruct (decide (i < M)) as [Hi|Hi]; [|by rewrite decide_False by lia].
    destruct (decide (j = i)) as [->|Hj].
    - rewrite decide_True by lia. apply list_lookup_insert_eq. lia.
    - rewrite decide_False by lia. by apply list_lookup_insert_ne. }
  split; simpl.
  - lia.
  - done.
  - intros u Hu Hbu. apply bord_shrink in Hbu as [Hbu _]. by apply Hpmax.
  - destruct (decide (i < M)); [by rewrite length_insert|done].
  - intros e He HeM. rewrite Hlk. destruct (decide (e = S i)) as [->|Hne].
    + rewrite decide_True by lia. exists v. split; [done|]. split; [done|]. intros u Hu. apply Hmax; [|done].
      destruct Hu. lia.
    + rewrite decide_False by lia. apply Ht; lia.
  - intros j Hj. rewrite Hlk, decide_False by lia. apply Hz. lia.
  - clear Hlk. intros e u He Hu Hbu. destruct (decide (e = S i)) as [->|Hne].
    + pose proof (Hmax u Hu Hbu). case_decide; injection Hbest as -> ->; lia.
    + pose proof (Hb e u ltac:(lia) Hu Hbu). case_decide; injection Hbest as -> ->; lia.
  - clear Hlk. intros Hpos. case_decide as Hd; injection Hbest as -> ->.
    + replace (i + 1) with (S i) by lia. split_and!; [done|done|lia].
    + destruct (Hf Hpos) as (? & ? & ?). split_and!; [done|done|lia].
  - clear Hlk. intros e Hpos He Hbe. case_decide as Hd; injection Hbest as -> ->; [lia|].
    destruct (decide (e = S i)) as [->|Hne]; [|apply Hla; [done|lia|done]].
    destruct (Hf Hpos) as (HLM & _ & _). pose proof (Hmax _ HLM Hbe). lia.
Qed.

(** A match extends the candidate, and the extension is the longest border there. *)
Lemma lps_match M s :
  lps_inv M s -> T !! prev_lps s = T !! cursor s ->
  bord (prev_lps s + 1) (S (cursor s)) /\ prev_lps s + 1 <= M /\
  forall u, u <= M -> bord u (S (cursor s)) -> u <= prev_lps s + 1.
Proof using.
  intros [_ [Hp HpM] Hca _ _ _ _ _ _] Heq. rewrite Nat.add_1_r. split_and!; [by apply bord_grow|lia|].
  intros [|u] Hu Hbu; [lia|]. specialize (Hca u ltac:(lia) Hbu). lia.
Qed.

(** A mismatch leaves the borders of the candidate. *)
Lemma lps_fall M s :
  lps_inv M s -> T !! prev_lps s <> T !! cursor s -> prev_lps s <> 0 ->
  exists q, lps s !! (prev_lps s - 1) = Some q /\ q < prev_lps s /\
    lps_inv M {| prev_lps := q; cursor := cursor s; longest_ngram := longest_ngram s; position := position s; lps := lps s |}.
Proof using.
  intros [Hc [Hp HpM] Hca Hlen Ht Hz Hb Hf Hla] Hne Hp0. pose proof (proj1 Hp).
  destruct (Ht (prev_lps s) ltac:(lia) ltac:(lia)) as (q & Hq & Hqb & Hqm).
  exists q. split_and!; [done|apply Hqb|]. split; simpl; try done.
  - split; [by eapply bord_trans|]. destruct Hqb. lia.
  - intros u Hu Hbu. pose proof (Hca u Hu Hbu). apply bord_shrink in Hbu as [Hbu Heq].
    destruct (decide (u = prev_lps s)) as [->|Hup]; [done|]. apply Hqm. by eapply bord_nested; [lia| |].
Qed.

(** A mismatch without candidate: nothing ends here. *)
Lemma lps_none M s :
  lps_inv M s -> T !! prev_lps s <> T !! cursor s -> prev_lps s = 0 ->
  forall u, u <= M -> bord u (S (cursor s)) -> u <= 0.
Proof using.
  intros [_ _ Hca _ _ _ _ _ _] Hne Hp0 [|u] Hu Hbu; [lia|]. specialize (Hca u ltac:(lia) Hbu).
  apply bord_shrink in Hbu as [_ Heq]. assert (u = 0) as -> by lia. by rewrite Hp0 in Hne.
Qed.

Lemma lps_loop_correct M fuel s :
  0 < M -> lps_inv M s -> 2 * (length T - cursor s) + prev_lps s < fuel ->
  exists s', lps_loop fuel T M s = Ok s' /\ lps_inv M s' /\ cursor s' = length T.
Proof using.
  intros HM. revert s. induction fuel as [|fuel IH]; intros s Hs Hfuel; [lia|]. cbn [lps_loop].
  pose proof (li_cursor _ _ Hs) as Hc. pose proof (li_prev _ _ Hs) as [Hp HpM].
  case_decide as Hi; [|exists s; split_and!; [done|done|lia]].
  destruct (lookup_lt_is_Some_2 T (cursor s) Hi) as [b Hb].
  destruct (lookup_lt_is_Some_2 T (prev_lps s)) as [a Ha]; [destruct Hp; lia|]. rewrite Ha, Hb.
  destruct (Z.eqb_spec a b) as [->|Hne].
  - destruct (lps_match M s Hs ltac:(congruence)) as (Hv & HvM & Hmax).
    destruct (if decide (longest_ngram s <= prev_lps s + 1) then _ else _) as [longest pos] eqn:Hbest.
    set (table := if decide (cursor s < M) then _ else _) in *.
    assert (Hbest' : (longest, pos) = (if decide (0 < prev_lps s + 1 /\ longest_ngram s <= prev_lps s + 1)
        then (prev_lps s + 1, cursor s) else (longest_ngram s, position s))).
    { rewrite <- Hbest. clear Hbest. destruct (decide (longest_ngram s <= prev_lps s + 1));
        [rewrite decide_True by lia|rewrite decide_False by lia]; done. }
    destruct (decide (prev_lps s + 1 = M)) as [HM'|HM'].
    + assert (Hlt : M < S (cursor s)) by (destruct Hv; lia).
      destruct (li_table _ _ Hs M ltac:(lia) ltac:(lia)) as (q & Hq & Hqb & Hqm).
      assert (Htq : table !! (M - 1) = Some q) by (subst table; rewrite decide_False by lia; done).
      rewrite Htq. rewrite HM' in Hv, Hmax, Hbest'. apply IH; [|simpl; destruct Hqb; lia].
      eapply (lps_advance M s M); try done; [subst table; by rewrite HM'|by eapply bord_trans|apply Hqb|].
      intros u Hu Hbu. apply Hqm. by eapply bord_nested.
    + apply IH; [|simpl; lia]. eapply (lps_advance M s (prev_lps s + 1)); try done; [lia|].
      intros u Hu Hbu. apply Hmax; [lia|done].
  - case_decide as Hp0.
    + destruct (lps_fall M s Hs ltac:(congruence) Hp0) as (q & Hq & Hlt & Hs'). rewrite Hq. apply IH; [done|simpl; lia].
    + apply IH; [|simpl; lia]. assert (Hz : prev_lps s = 0) by lia.
      pose proof (lps_none M s Hs ltac:(congruence) Hz) as Hno. rewrite Hz.
      assert (Hb0 : bord 0 (S (cursor s))) by (apply bord_0; lia).
      eapply (lps_advance M s 0); [done|done|done|lia|done| |by rewrite decide_False by lia|done|done|].
      * destruct (decide (cursor s < M)) as [HcM|]; [|done]. symmetry. apply list_insert_id. apply (li_zero _ _ Hs). lia.
      * intros u Hu. apply Hno. lia.
Qed.
End borders.

(** ** What is proposed *)

(** The last [v] tokens of [O] also start at [s], before the end. *)
Definition recurs (O : list Z) (v s : nat) : Prop :=
  s + v < length O /\ take v (drop s O) = drop (length O - v) O.

Lemma bord_recurs O v e :
  e <= length O -> bord (reverse O) v e <-> recurs O v (length O - e) /\ v < e.
Proof.
  intros He. unfold recurs. set (N := length O) in *.
  assert (Hrev : forall j, j < N -> reverse O !! j = O !! (N - 1 - j)).
  { intros j Hj. rewrite reverse_lookup by done. f_equal. lia. }
  assert (Htd : forall j, j < v -> take v (drop (N - e) O) !! j = O !! (N - e + j)).
  { intros j Hj. by rewrite lookup_take_lt, lookup_drop by done. }
  split.
  - intros [Hv Hb]. split; [|done]. split; [lia|]. apply list_eq. intros j. destruct (decide (j < v)) as [Hj|Hj].
    + rewrite Htd, lookup_drop by done. specialize (Hb (v - 1 - j) ltac:(lia)). rewrite !Hrev in Hb by lia.
      replace (N - v + j) with (N - 1 - (v - 1 - j)) by lia. rewrite Hb. f_equal. lia.
    + rewrite lookup_take_ge by lia. symmetry. apply lookup_ge_None_2. rewrite length_drop. fold N. lia.
  - intros [[_ Heq] Hv]. split; [done|]. intros j Hj. rewrite !Hrev by lia.
    pose proof (f_equal (.!! (v - 1 - j)) Heq) as Hj'. cbv beta in Hj'. rewrite Htd, lookup_drop in Hj' by lia.
    replace (N - 1 - j) with (N - v + (v - 1 - j)) by lia. fold N in Hj'. rewrite <- Hj'. f_equal. lia.
Qed.

Lemma recurs_bord O v s : recurs O v s -> bord (reverse O) v (length O - s).
Proof.
  intros Hr. pose proof (proj1 Hr). apply bord_recurs; [lia|]. replace (length O - (length O - s)) with s by lia. split; [done|lia].
Qed.

(** The draft for a context [O]: what follows the earliest earlier occurrence of its
    longest recurring suffix of [min_n] to [max_n] tokens, cut to [k] tokens and to the
    model's length; nothing if no suffix recurs or there is no room. *)
Definition drafts (O : list Z) (min_n max_n : nat) (max_model_len k : Z) (d : list Z) : Prop :=
  let room := Z.min k (max_model_len - Z.of_nat (length O)) in
  if decide ((0 < room)%Z) then
    (d = [] /\ forall v s, min_n <= v <= max_n -> ~ recurs O v s) \/
    (exists v s, min_n <= v <= max_n /\ recurs O v s /\
       (forall v' s', v' <= max_n -> recurs O v' s' -> v' <= v) /\
       (forall s', recurs O v s' -> s <= s') /\
       d = take (Z.to_nat room) (drop (s + v) O) /\ d <> [])
  else d = [].

Lemma find_ngram_spec O min_n max_n max_model_len k :
  0 < min_n -> 0 < max_n ->
  exists d, find_longest_matched_ngram_and_propose_tokens O min_n max_n max_model_len k = Ok d /\
    drafts O min_n max_n max_model_len k d.
Proof.
  intros Hmin Hmax. unfold find_longest_matched_ngram_and_propose_tokens, drafts.
  set (room := Z.min k _). case_decide as Hshort.
  { exists []. split; [done|]. case_decide; [left|done]. split; [done|]. intros v s Hv [Hs _]. lia. }
  destruct (Z.leb_spec room 0) as [Hr|Hr]; [exists []; split; [done|by rewrite decide_False by lia]|].
  destruct (decide (0 < room)%Z); [|lia].
  destruct (lps_loop_correct (reverse O) max_n (2 * length O + 1) (lps_init max_n) Hmax) as (s & Hrun & Hs & Hend).
  { apply lps_inv_init; [done|]. intros HO%(f_equal length). rewrite length_reverse in HO. simpl in HO. lia. }
  { simpl. rewrite length_reverse. lia. }
  rewrite length_reverse in Hend. rewrite Hrun. destruct Hs as [_ _ _ _ _ _ Hbest Hfound Hlatest]. rewrite Hend in *.
  assert (Hle : forall v s', v <= max_n -> recurs O v s' -> v <= longest_ngram s).
  { intros v s' Hv Hre. pose proof (proj1 Hre). eapply (Hbest (length O - s')); [lia|done|by apply recurs_bord]. }
  case_decide as Hsmall.
  { exists []. split; [done|]. left. split; [done|]. intros v s' Hv Hre. specialize (Hle v s' ltac:(lia) Hre). lia. }
  destruct Hfound as (HM & Hb & Hpos); [lia|]. eexists. split; [done|]. right.
  exists (longest_ngram s), (length O - (position s + 1)). apply bord_recurs in Hb as [Hre Hlt]; [|lia].
  set (st := length O - (position s + 1)) in *.
  replace (length O - 1 - position s + longest_ngram s) with (st + longest_ngram s) by lia.
  assert (Htake : take (Z.to_nat (Z.min room (Z.of_nat (length O - (st + longest_ngram s))))) (drop (st + longest_ngram s) O)
    = take (Z.to_nat room) (drop (st + longest_ngram s) O)).
  { destruct (Z.min_spec room (Z.of_nat (length O - (st + longest_ngram s)))) as [[_ ->]|[? ->]]; [done|].
    rewrite !take_ge; [done|rewrite length_drop; lia..]. }
  split_and!; [lia|done|exact Hre|exact Hle| |exact Htake|].
  - intros s' Hre'. pose proof (proj1 Hre'). pose proof (Hlatest (length O - s') ltac:(lia) ltac:(lia) ltac:(by apply recurs_bord)).
    lia.
  - rewrite Htake. intros Hnil%(f_equal length). rewrite length_take, length_drop in Hnil. simpl in Hnil. destruct Hre. lia.
Qed.

(** ** Batches *)

Section batch.
Context (tokens : list nat) (ctx : list (list Z)) (k : Z) (p0 : NgramProposer).

(** The buffers have a row for every sequence, wide enough for any draft. *)
Definition buffers_ok (p : NgramProposer) : Prop :=
  p <| valid_ngram_draft := valid_ngram_draft p0 |> <| valid_ngram_num_drafts := valid_ngram_num_drafts p0 |> = p0 /\
  length (valid_ngram_draft p) = length (valid_ngram_draft p0) /\
  length (valid_ngram_num_drafts p) = length (valid_ngram_draft p0) /\
  Forall (fun row => num_speculative p0 <= zlen row)%Z (valid_ngram_draft p).

Definition context_of (i : nat) : option (list Z) := n ← tokens !! i; row ← ctx !! i; Some (take n row).

Definition drafts_for (i : nat) (d : list Z) : Prop :=
  exists c, context_of i = Some c /\ drafts c (min_n p0) (max_n p0) (ng_max_model_len p0) k d.

(** Row [i] of the buffers holds the draft of request [i]. *)
Definition written (p : NgramProposer) (i : nat) : Prop :=
  exists d row, drafts_for i d /\ valid_ngram_num_drafts p !! i = Some (length d) /\
    valid_ngram_draft p !! i = Some row /\ take (length d) row = d.

Lemma drafts_length c min_n max_n mml d :
  drafts c min_n max_n mml k d -> d = [] \/ (zlen d <= k)%Z.
Proof using.
  unfold drafts. case_decide as Hr; [|by left]. intros [[-> _]|(v & s & _ & _ & _ & _ & -> & _)]; [by left|right].
  unfold zlen. rewrite length_take. lia.
Qed.

Lemma propose_one_spec i p c :
  0 < min_n p0 -> 0 < max_n p0 -> (k <= num_speculative p0)%Z ->
  buffers_ok p -> i < length (valid_ngram_draft p0) -> context_of i = Some c ->
  wp (propose_one tokens ctx k i) (fun _ p' => buffers_ok p' /\ written p' i /\
    forall j, j <> i -> written p j -> written p' j) p.
Proof using.
  intros Hmin Hmax Hk (Hcfg & Hl1 & Hl2 & Hrows) Hi Hc. unfold context_of in Hc.
  destruct (tokens !! i) as [n|] eqn:Hn; [|done]. destruct (ctx !! i) as [row|] eqn:Hr; [|done].
  simpl in Hc. injection Hc as <-.
  assert (Hpar : min_n p = min_n p0 /\ max_n p = max_n p0 /\ ng_max_model_len p = ng_max_model_len p0)
    by (rewrite <- Hcfg; done). destruct Hpar as (Hp1 & Hp2 & Hp3).
  destruct (find_ngram_spec (take n row) (min_n p0) (max_n p0) (ng_max_model_len p0) k Hmin Hmax) as (d & Hd & Hdr).
  destruct (lookup_lt_is_Some_2 (valid_ngram_num_drafts p) i) as [x Hx]; [lia|].
  destruct (lookup_lt_is_Some_2 (valid_ngram_draft p) i) as [out Hout]; [lia|].
  pose proof (Forall_lookup_1 _ _ _ _ Hrows Hout) as Hw. cbv beta in Hw.
  assert (Hfor : drafts_for i d) by (exists (take n row); unfold context_of; rewrite Hn, Hr; done).
  unfold propose_one, id. wp_steps. exists n. split; [done|]. wp_steps. exists row. split; [done|]. rewrite wp_bind.
  unfold wp at 1, lift_outcome. rewrite Hp1, Hp2, Hp3, Hd. wp_steps. exists x. split; [done|]. wp_steps.
  assert (Hlk : forall (l : list nat), length l = length (valid_ngram_draft p0) -> <[i := length d]> l !! i = Some (length d)).
  { intros l Hl. apply list_lookup_insert_eq. lia. }
  destruct (decide (d = [])) as [->|Hne].
  - rewrite wp_ret. split_and!.
    + split_and!; simpl; [by rewrite <- Hcfg|done|by rewrite length_insert|done].
    + exists [], out. simpl. split_and!; [done|by apply Hlk|done|done].
    + intros j Hj (d' & r' & H1 & H2 & H3 & H4). exists d', r'. simpl. rewrite list_lookup_insert_ne by done. done.
  - wp_steps. exists out. split; [done|].
    assert (Hle : length d <= length out).
    { destruct (drafts_length _ _ _ _ _ Hdr) as [|Hz]; [done|]. unfold zlen in *. lia. }
    rewrite decide_True by done. rewrite wp_modify. split_and!.
    + split_and!; simpl; [by rewrite <- Hcfg|by rewrite length_insert|by rewrite length_insert|].
      apply Forall_insert; [done|]. unfold zlen in *. rewrite length_app, length_drop. lia.
    + exists d, (d ++ drop (length d) out). simpl. split_and!; [done|by apply Hlk| |by rewrite take_app_length].
      apply list_lookup_insert_eq. lia.
    + intros j Hj (d' & r' & H1 & H2 & H3 & H4). exists d', r'. simpl. rewrite !list_lookup_insert_ne by done. done.
Qed.

(** Request [i] gets a proposal. *)
Definition eligible (sampled : list (list Z)) (i : nat) : Prop :=
  exists l n, sampled !! i = Some l /\ l <> [] /\ tokens !! i = Some n /\ (Z.of_nat n < ng_max_model_len p0)%Z.

Lemma select_spec sampled p :
  length sampled <= length tokens ->
  wp (mfold (select_request (ng_max_model_len p0) tokens) [] (imap pair sampled))
    (fun valid p' => p' = p /\ forall i, i ∈ valid <-> eligible sampled i) p.
Proof using.
  intros Hlen. apply (wp_fold (fun l valid p' => p' = p /\ exists j, l = drop j (imap pair sampled) /\
    forall i, i ∈ valid <-> i < j /\ eligible sampled i)).
  - split; [done|]. exists 0. split; [by rewrite drop_0|]. intros i. rewrite elem_of_nil. lia.
  - intros [i l] rest valid p' [-> (j & Hrest & Hv)].
    assert (Hj : imap pair sampled !! j = Some (i, l)) by (rewrite <- (Nat.add_0_r j), <- lookup_drop, <- Hrest; done).
    rewrite list_lookup_imap in Hj. destruct (sampled !! j) as [l'|] eqn:Hl; [|done]. simpl in Hj. injection Hj as <- <-.
    assert (Hnext : rest = drop (S j) (imap pair sampled)).
    { rewrite <- Nat.add_1_r, <- drop_drop, <- Hrest. done. }
    assert (Hstep : forall i, i < S j <-> i < j \/ i = j) by lia.
    destruct (lookup_lt_is_Some_2 tokens j) as [n Hn]; [apply lookup_lt_Some in Hl; lia|]. unfold select_request.
    destruct (decide (l' = [])) as [->|Hne].
    + rewrite wp_ret. split; [done|]. exists (S j). split; [done|]. intros i. rewrite Hv, Hstep.
      split; [naive_solver|]. intros [[Hi| ->] He]; [done|]. destruct He as (? & ? & ? & ? & _). congruence.
    + wp_steps. exists n. split; [done|]. rewrite wp_ret. split; [done|]. exists (S j). split; [done|].
      intros i. destruct (Z.leb_spec (ng_max_model_len p0) (Z.of_nat n)) as [Hge|Hlt].
      * rewrite Hv, Hstep. split; [naive_solver|]. intros [[Hi| ->] He]; [done|].
        destruct He as (? & n' & ? & ? & Hn' & ?). rewrite Hn in Hn'. injection Hn' as <-. lia.
      * rewrite elem_of_app, Hv, list_elem_of_singleton, Hstep. split.
        -- intros [[? ?]| ->]; [naive_solver|]. split; [by right|]. by exists l', n.
        -- intros [[Hi| ->] He]; [by left|by right].
  - intros valid p' [-> (j & Hnil & Hv)]. split; [done|]. intros i. rewrite Hv. split; [naive_solver|]. intros He.
    split; [|done]. destruct He as (l & n & Hl & _). apply lookup_lt_Some in Hl.
    pose proof (f_equal length Hnil) as Hz. rewrite length_drop, length_imap in Hz. simpl in Hz. lia.
Qed.

(** Every request's answer. *)
Definition answers (sampled : list (list Z)) (i : nat) (d : list Z) : Prop :=
  (eligible sampled i -> drafts_for i d) /\ (~ eligible sampled i -> d = []).

Lemma batch_spec sampled valid p :
  0 < min_n p0 -> 0 < max_n p0 -> (k <= num_speculative p0)%Z -> buffers_ok p ->
  length sampled <= length (valid_ngram_draft p0) -> (forall i, i < length sampled -> is_Some (context_of i)) ->
  (forall i, i ∈ valid <-> eligible sampled i) ->
  wp (batch_propose (length sampled) valid tokens ctx k) (fun res p' => buffers_ok p' /\ length res = length sampled /\
    forall i d, res !! i = Some d -> answers sampled i d) p.
Proof using.
  intros Hmin Hmax Hk Hok Hlen Hctx Hvalid.
  assert (Hlt : forall i, i ∈ valid -> i < length sampled).
  { intros i (l & n & Hl & _)%Hvalid. by eapply lookup_lt_Some. }
  unfold batch_propose. rewrite wp_bind.
  apply (wp_for (fun l p' => buffers_ok p' /\ (forall i, i ∈ l -> i ∈ valid) /\ forall i, i ∈ valid -> i ∈ l \/ written p' i)).
  { split_and!; [done|done|auto]. }
  { intros i l p' (Hp & Hl & Hw). pose proof (Hlt i (Hl i ltac:(by left))) as Hi.
    destruct (Hctx i Hi) as [c Hc]. eapply wp_mono; [apply (propose_one_spec i p' c); try done; lia|].
    intros _ p'' (Hp' & Hwi & Hkeep). split_and!; [done|intros j Hj; apply Hl; by right|].
    intros j Hj. destruct (decide (j = i)) as [->|Hne]; [by right|].
    destruct (Hw j Hj) as [[]%elem_of_cons|?]; [done|by left|right; by apply Hkeep]. }
  intros p' (Hp & _ & Hw). clear p Hok.
  apply (wp_fold (fun l res p => p = p' /\ length res + length l = length sampled /\ l = seq (length res) (length l) /\
    forall i d, res !! i = Some d -> answers sampled i d)).
  - split_and!; [done|by rewrite length_seq|by rewrite length_seq|done].
  - intros i l res q (-> & Hsum & Hseq & Hres). simpl in Hseq, Hsum. injection Hseq as -> Hseq.
    set (i := length res) in *.
    assert (Hgoal : forall d, answers sampled i d ->
      length (res ++ [d]) + length l = length sampled /\ l = seq (length (res ++ [d])) (length l) /\
      forall j e, (res ++ [d]) !! j = Some e -> answers sampled j e).
    { intros d Hd. rewrite length_app. simpl. fold i. rewrite Nat.add_1_r. split_and!; [lia|done|].
      intros j e [Hj|[Hj Heq]]%lookup_app_Some; [by apply Hres|]. fold i in Hj, Heq.
      destruct (j - i) as [|x] eqn:Hji; [|by destruct x]. injection Heq as <-. by replace j with i by lia. }
    wp_steps. unfold id. destruct (decide (i ∈ valid)) as [Hin|Hout].
    + destruct (Hw i Hin) as [[]%elem_of_nil|(d & row & Hd & Hn & Hr & Htake)].
      assert (Ha : answers sampled i d) by (split; [done|intros Hno; by apply Hvalid in Hin]).
      wp_steps. exists (length d). split; [done|]. case_decide as Hpos.
      * wp_steps. exists row. split; [done|]. rewrite wp_ret, Htake. split; [done|]. by apply Hgoal.
      * rewrite wp_ret. split; [done|]. apply Hgoal. destruct d; [done|simpl in Hpos; lia].
    + rewrite wp_ret. split; [done|]. apply Hgoal. split; [intros He; by apply Hvalid in He|done].
  - intros res p (-> & Hsum & _ & Hres). simpl in Hsum. split_and!; [done|lia|done].
Qed.
End batch.

(** ** The guarantees *)

(** C24. The n-gram search: it always ends (within two rounds per token), and its draft is
    exactly what followed the earliest earlier occurrence of the longest suffix of the
    context, among the suffixes of [min_ngram] to [max_ngram] tokens that occur before; it
    is cut to [k] tokens and to the room left below the model's length, never empty when a
    suffix recurs, and empty when none does or there is no room. *)
Theorem ngram_draft_correct origin_tokens min_ngram max_ngram max_model_len k :
  0 < min_ngram -> 0 < max_ngram ->
  exists d, find_longest_matched_ngram_and_propose_tokens origin_tokens min_ngram max_ngram max_model_len k = Ok d /\
    drafts origin_tokens min_ngram max_ngram max_model_len k d.
Proof. exact (find_ngram_spec origin_tokens min_ngram max_ngram max_model_len k). Qed.

Lemma ngram_draft_correct_witness :
  let ctx := [1; 2; 3; 9; 1; 2; 3; 8; 1; 2; 3]%Z in
  find_longest_matched_ngram_and_propose_tokens ctx 2 3 100 2 = Ok [9; 1]%Z /\ drafts ctx 2 3 100 2 [9; 1]%Z.
Proof.
  intros ctx. assert (H : find_longest_matched_ngram_and_propose_tokens ctx 2 3 100 2 = Ok [9; 1]%Z) by (vm_compute; reflexivity).
  split; [exact H|]. destruct (ngram_draft_correct ctx 2 3 100 2) as (d & Hd & Hdr); [lia|lia|].
  rewrite H in Hd. injection Hd as <-. exact Hdr.
Defined.

(** A batch of proposals: [propose] returns one draft per request.  A request that
    sampled a token and is below the model's length gets the draft of its own context;
    every other request gets none, whatever earlier steps left in the shared buffers, and
    the buffers keep their shape for the next step. *)
Theorem propose_correct p num_speculative_tokens sampled_token_ids num_tokens_no_spec token_ids_cpu :
  0 < min_n p -> 0 < max_n p -> (num_speculative_tokens <= num_speculative p)%Z -> buffers_ok p p ->
  length sampled_token_ids <= length (valid_ngram_draft p) -> length sampled_token_ids <= length num_tokens_no_spec ->
  length sampled_token_ids <= length token_ids_cpu ->
  exists res p', propose num_speculative_tokens sampled_token_ids num_tokens_no_spec token_ids_cpu p = (Ok res, p') /\
    buffers_ok p p' /\ length res = length sampled_token_ids /\
    forall i d, res !! i = Some d -> answers num_tokens_no_spec token_ids_cpu num_speculative_tokens p sampled_token_ids i d.
Proof.
  intros Hmin Hmax Hk Hok Hl1 Hl2 Hl3. apply wp_run. unfold propose, id. wp_steps. split; [lia|].
  eapply wp_mono; [by apply select_spec|]. intros valid p' [-> Hv].
  apply (batch_spec num_tokens_no_spec token_ids_cpu num_speculative_tokens p sampled_token_ids valid p); try done.
  intros i Hi. unfold context_of. destruct (lookup_lt_is_Some_2 num_tokens_no_spec i) as [n ->]; [lia|].
  destruct (lookup_lt_is_Some_2 token_ids_cpu i) as [row ->]; [lia|]. done.
Qed.

(** Two rows with an old draft in the second, whose request has reached its limit. *)
Definition demo_proposer : NgramProposer :=
  NgramProposer_init 1 2 2 2 6 <| valid_ngram_draft := [[0; 0]; [7; 7]]%Z |> <| valid_ngram_num_drafts := [0; 2] |>.

Lemma propose_correct_witness :
  let sampled := [[5]; [5]]%Z in
  let ctx := [[4; 5; 6; 5; 0; 0]; [4; 5; 4; 5; 4; 5]]%Z in
  exists p', propose 2 sampled [4; 6] ctx demo_proposer = (Ok [[6; 5]; []]%Z, p') /\
    answers [4; 6] ctx 2 demo_proposer sampled 1 [].
Proof.
  intros sampled ctx.
  destruct (propose_correct demo_proposer 2 sampled [4; 6] ctx) as (res & p' & Hrun & _ & _ & Ha).
  - simpl. lia.
  - simpl. lia.
  - simpl. lia.
  - split_and!; [reflexivity|reflexivity|reflexivity|]. repeat constructor; vm_compute; discriminate.
  - simpl. lia.
  - simpl. lia.
  - simpl. lia.
  - assert (Hres : (propose 2 sampled [4; 6] ctx demo_proposer).1 = Ok [[6; 5]; []]%Z) by (vm_compute; reflexivity).
    rewrite Hrun in Hres. simpl in Hres. injection Hres as ->. exists p'. split; [exact Hrun|]. apply (Ha 1). reflexivity.
Defined.
