(* ===== verification/RequestQueue.v ===== *)
(** The request queues (vllm/v1/core/sched/request_queue.py): the first-come-first-served
    deque and the priority queue, a binary heap kept by Python's [heapq].  A queue holds
    requests by id; the order of the priority queue is that of [Request.__lt__], read from
    the requests' current fields. *)
From S2P Require Import Prelude Request.
From Stdlib Require Import Sorted.
From stdpp Require Import sorting.

(** ** [heapq] *)

Section heapq.
Context {A : Type} (lt : A -> A -> bool).

(** [(pos - 1) >> 1] *)
Definition parent (pos : nat) : nat := (pos - 1) / 2.

(** The loop of [_siftdown]: [newitem] climbs from [pos] towards [startpos].  Every index
    is in range. *)
Fixpoint siftdown_loop (fuel : nat) (heap : list A) (startpos pos : nat) (newitem : A) : list A :=
  match fuel with
  | O => <[pos := newitem]> heap
  | S fuel =>
      if decide (startpos < pos) then
        match heap !! parent pos with
        | Some par =>
            if lt newitem par then siftdown_loop fuel (<[pos := par]> heap) startpos (parent pos) newitem
            else <[pos := newitem]> heap
        | None => heap
        end
      else <[pos := newitem]> heap
  end.

Definition siftdown (heap : list A) (startpos pos : nat) : list A :=
  match heap !! pos with
  | Some newitem => siftdown_loop pos heap startpos pos newitem
  | None => heap
  end.

(** The smaller child of [pos], if it has one. *)
Definition smaller_child (heap : list A) (pos : nat) : option (nat * A) :=
  let childpos := 2 * pos + 1 in
  match heap !! childpos, heap !! (childpos + 1) with
  | Some c, Some r => Some (if lt c r then (childpos, c) else (childpos + 1, r))
  | Some c, None => Some (childpos, c)
  | None, _ => None
  end.

(** The loop of [_siftup]: the smaller child moves up until a leaf is reached. *)
Fixpoint siftup_loop (fuel : nat) (heap : list A) (pos : nat) : list A * nat :=
  match fuel with
  | O => (heap, pos)
  | S fuel =>
      match smaller_child heap pos with
      | Some (childpos, child) => siftup_loop fuel (<[pos := child]> heap) childpos
      | None => (heap, pos)
      end
  end.

Definition siftup (heap : list A) (pos : nat) : list A :=
  match heap !! pos with
  | Some newitem =>
      let '(heap, leaf) := siftup_loop (length heap) heap pos in
      siftdown (<[leaf := newitem]> heap) pos leaf
  | None => heap
  end.

Definition heappush (heap : list A) (item : A) : list A := siftdown (heap ++ [item]) 0 (length heap).

(** [None] for the IndexError of an empty heap *)
Definition heappop (heap : list A) : option (A * list A) :=
  match last heap with
  | None => None
  | Some lastelt =>
      let heap := take (length heap - 1) heap in
      match heap !! 0 with
      | Some returnitem => Some (returnitem, siftup (<[0 := lastelt]> heap) 0)
      | None => Some (lastelt, heap)
      end
  end.

Definition heapify (heap : list A) : list A :=
  foldl siftup heap (reverse (seq 0 (length heap / 2))).

(** ** The heap order with a hole *)

Context (lt_irrefl : forall x, lt x x = false)
        (lt_trans : forall x y z, lt x y = true -> lt y z = true -> lt x z = true)
        (lt_total : forall x y, x <> y -> lt x y = true \/ lt y x = true)
        `{!EqDecision A}.

Definition le (x y : A) : Prop := lt y x = false.

Lemma lt_le x y : lt x y = true -> le x y.
Proof using lt_irrefl lt_trans.
  intros H. unfold le. destruct (lt y x) eqn:Hyx; [|done]. by rewrite <- (lt_irrefl x), (lt_trans x y x H Hyx).
Qed.

Lemma le_trans x y z : le x y -> le y z -> le x z.
Proof using lt_irrefl lt_trans lt_total EqDecision0.
  unfold le. intros Hxy Hyz. destruct (lt z x) eqn:Hzx; [|done].
  destruct (decide (x = y)) as [->|Hne]; [congruence|]. destruct (lt_total _ _ Hne) as [H|H]; [|congruence].
  by rewrite (lt_trans z x y Hzx H) in Hyz.
Qed.

Lemma le_antisym x y : le x y -> le y x -> x = y.
Proof using lt_total EqDecision0.
  unfold le. intros H1 H2. destruct (decide (x = y)) as [|Hne]; [done|]. destruct (lt_total _ _ Hne); congruence.
Qed.

Lemma parent_spec c p : 0 < c -> parent c = p <-> c = 2 * p + 1 \/ c = 2 * p + 2.
Proof using.
  intros Hc. unfold parent. pose proof (Nat.div_mod_eq (c - 1) 2). pose proof (Nat.mod_upper_bound (c - 1) 2). lia.
Qed.

Lemma parent_lt c : 0 < c -> parent c < c.
Proof using. intros Hc. pose proof (proj1 (parent_spec c (parent c) Hc) eq_refl). lia. Qed.

(** The element at [i] is no smaller than its parent. *)
Definition edge (h : list A) (i : nat) : Prop := forall x y, h !! parent i = Some x -> h !! i = Some y -> le x y.

(** All parents from [pos] on are in order. *)
Definition heaped (h : list A) (pos : nat) : Prop := forall i, 0 < i -> pos <= parent i -> edge h i.

(** [p] is in the subtree of [r]. *)
Inductive desc (r : nat) : nat -> Prop :=
  | desc_refl : desc r r
  | desc_child c : 0 < c -> desc r (parent c) -> desc r c.

Lemma desc_le r p : desc r p -> r <= p.
Proof using. induction 1 as [|c Hc _ IH]; [done|]. pose proof (parent_lt c Hc). lia. Qed.

Lemma desc_up r p : desc r p -> r < p -> 0 < p /\ desc r (parent p) /\ r <= parent p.
Proof using. intros [|c Hc Hd] Hlt; [lia|]. split_and!; [done|done|by apply desc_le]. Qed.

(** In order from [pos] on, but for the element at [p], whose parent and children are in
    order with each other. *)
Record holed (h : list A) (pos p : nat) : Prop := {
  ho_edge i : 0 < i -> pos <= parent i -> i <> p -> parent i <> p -> edge h i;
  ho_bridge c x y : pos < p -> 0 < c -> parent c = p -> h !! parent p = Some x -> h !! c = Some y -> le x y;
  ho_desc : desc pos p;
}.

Definition below (h : list A) (p : nat) (x : A) : Prop :=
  forall c y, 0 < c -> parent c = p -> h !! c = Some y -> le x y.

Lemma holed_insert h pos p x : holed h pos p -> holed (<[p := x]> h) pos p.
Proof using.
  intros [He Hb Hd]. split; [| |done].
  - intros i Hi Hpos Hip Hpp y z. rewrite !list_lookup_insert_ne by done. by apply He.
  - intros c y z Hlt Hc Hpc. pose proof (parent_lt c Hc). destruct (desc_up _ _ Hd Hlt) as (Hp0 & _ & _).
    pose proof (parent_lt p Hp0). rewrite !list_lookup_insert_ne by lia. by apply Hb.
Qed.

Lemma below_insert h p x y : below h p x -> below (<[p := y]> h) p x.
Proof using.
  intros Hb c z Hc Hpc. pose proof (parent_lt c Hc). rewrite list_lookup_insert_ne by lia. by apply Hb.
Qed.

Lemma lookup_insert_inv (h : list A) p x i y : <[p := x]> h !! i = Some y -> i = p /\ y = x \/ i <> p /\ h !! i = Some y.
Proof using. rewrite list_lookup_insert_Some. naive_solver. Qed.

(** Filling the hole. *)
Lemma holed_fill h pos p x :
  holed h pos p -> below h p x -> (pos < p -> forall y, h !! parent p = Some y -> le y x) -> heaped (<[p := x]> h) pos.
Proof using.
  intros [He Hb Hd] Hbel Hup i Hi Hpos y z Hy Hz. pose proof (parent_lt i Hi).
  apply lookup_insert_inv in Hy as [[Hp ->]|[Hp Hy]], Hz as [[Hip ->]|[Hip Hz]].
  - lia.
  - by eapply Hbel.
  - subst i. apply Hup; [lia|done].
  - by eapply (He i).
Qed.

(** The hole moves up when its parent is larger than [x]. *)
Lemma holed_up h pos p x y :
  holed h pos p -> pos < p -> h !! parent p = Some y -> lt x y = true -> below h p x ->
  holed (<[p := y]> h) pos (parent p) /\ below (<[p := y]> h) (parent p) x.
Proof using lt_irrefl lt_trans lt_total EqDecision0.
  intros [He Hb Hd] Hlt Hy Hxy Hbel. destruct (desc_up _ _ Hd Hlt) as (Hp0 & Hd' & Hpos). pose proof (parent_lt p Hp0) as Hpp.
  apply lt_le in Hxy.
  assert (Hsib : forall c z, 0 < c -> parent c = parent p -> <[p := y]> h !! c = Some z -> le y z).
  { intros c z Hc Hpc Hz. apply lookup_insert_inv in Hz as [[_ ->]|[Hcp Hz]]; [apply lt_irrefl|].
    eapply (He c); [done|by rewrite Hpc|done|rewrite Hpc; lia|by rewrite Hpc|done]. }
  split; [split; [| |done]|].
  - intros i Hi Hpi Hip Hpip a b Ha Hb'. pose proof (parent_lt i Hi).
    apply lookup_insert_inv in Ha as [[Hpe ->]|[Hpe Ha]], Hb' as [[Hie ->]|[Hie Hb']]; [lia| |by subst i|].
    + eapply (Hb i); [done|done|done|exact Hy|done].
    + by eapply (He i).
  - intros c a b Hlt' Hc Hpc Ha Hb'. destruct (desc_up _ _ Hd' Hlt') as (Hpp0 & _ & Hppos). pose proof (parent_lt _ Hpp0).
    rewrite list_lookup_insert_ne in Ha by lia. apply (le_trans a y b); [|by apply (Hsib c)].
    eapply (He (parent p)); [done|done|lia|lia|done|done].
  - intros c z Hc Hpc Hz. apply (le_trans x y z); [done|by apply (Hsib c)].
Qed.

(** The hole moves down to the smaller child. *)
Lemma holed_down h pos p c y :
  holed h pos p -> smaller_child h p = Some (c, y) -> p < length h ->
  h !! c = Some y /\ p < c /\ holed (<[p := y]> h) pos c.
Proof using lt_irrefl lt_trans.
  intros [He Hb Hd] Hc Hp. unfold smaller_child in Hc.
  assert (Hsel : h !! c = Some y /\ (c = 2 * p + 1 \/ c = 2 * p + 2) /\
    forall i z, i = 2 * p + 1 \/ i = 2 * p + 2 -> h !! i = Some z -> le y z).
  { replace (2 * p + 1 + 1) with (2 * p + 2) in Hc by lia.
    destruct (h !! (2 * p + 1)) as [a|] eqn:Ha; [|done]. destruct (h !! (2 * p + 2)) as [b|] eqn:Hb'.
    - destruct (lt a b) eqn:Hab; injection Hc as <- <-.
      + split_and!; [done|by left|]. intros i z [->| ->] Hz; simplify_eq; [apply lt_irrefl|by apply lt_le].
      + split_and!; [done|by right|]. intros i z [->| ->] Hz; simplify_eq; [done|apply lt_irrefl].
    - injection Hc as <- <-. split_and!; [done|by left|]. intros i z [->| ->] Hz; simplify_eq. apply lt_irrefl. }
  clear Hc. destruct Hsel as (Hy & Hcp & Hmin). assert (Hc0 : 0 < c) by lia.
  pose proof (proj2 (parent_spec c p Hc0) Hcp) as Hpar. split_and!; [done|lia|]. split.
  - intros i Hi Hpi Hic Hpic a b Ha Hb'. pose proof (parent_lt i Hi).
    apply lookup_insert_inv in Ha as [[Hpe ->]|[Hpe Ha]], Hb' as [[Hie ->]|[Hie Hb']]; [lia| | |by eapply (He i)].
    + eapply (Hmin i); [by apply parent_spec|done].
    + subst i. eapply (Hb c); [lia|done|done|done|done].
  - intros d a b Hlt Hd0 Hpd Ha Hb'. rewrite Hpar, list_lookup_insert_eq in Ha by done. injection Ha as <-.
    pose proof (parent_lt d Hd0). rewrite list_lookup_insert_ne in Hb' by lia. pose proof (desc_le _ _ Hd).
    eapply (He d); [done|lia|lia|lia|by rewrite Hpd|done].
  - apply desc_child; [done|by rewrite Hpar].
Qed.

(** ** Permutations *)

Lemma insert_perm (l : list A) i x y : l !! i = Some y -> x :: l ≡ₚ y :: <[i := x]> l.
Proof using.
  revert i. induction l as [|z l IH]; intros [|i] Hi; try done; simpl in *.
  - injection Hi as ->. apply perm_swap.
  - etrans; [apply perm_swap|]. etrans; [apply perm_skip, (IH i Hi)|]. apply perm_swap.
Qed.

(** Moving an element into the hole moves the hole. *)
Lemma hole_perm (h : list A) p q x y :
  p <> q -> p < length h -> h !! q = Some y -> <[q := x]> (<[p := y]> h) ≡ₚ <[p := x]> h.
Proof using.
  intros Hpq Hp Hq. destruct (lookup_lt_is_Some_2 h p Hp) as [z Hz].
  pose proof (insert_perm h p y z Hz) as H1. pose proof (insert_perm h p x z Hz) as H2.
  pose proof (insert_perm (<[p := y]> h) q x y) as H3. rewrite list_lookup_insert_ne in H3 by done. specialize (H3 Hq).
  apply (Permutation_cons_inv (a := z)), (Permutation_cons_inv (a := y)).
  etrans; [apply perm_swap|]. etrans; [apply perm_skip; symmetry; exact H3|].
  etrans; [apply perm_swap|]. etrans; [apply perm_skip; symmetry; exact H1|].
  etrans; [apply perm_swap|]. apply perm_skip. exact H2.
Qed.

Lemma siftdown_loop_spec fuel h pos p x :
  holed h pos p -> below h p x -> p < length h -> p <= fuel ->
  heaped (siftdown_loop fuel h pos p x) pos /\ siftdown_loop fuel h pos p x ≡ₚ <[p := x]> h.
Proof using lt_irrefl lt_trans lt_total EqDecision0.
  revert h p. induction fuel as [|fuel IH]; intros h p Hh Hb Hp Hf; simpl.
  - split; [|done]. apply holed_fill; [done|done|lia].
  - case_decide as Hlt; [|split; [apply holed_fill; [done|done|lia]|done]].
    destruct (desc_up _ _ (ho_desc _ _ _ Hh) Hlt) as (Hp0 & _ & _). pose proof (parent_lt p Hp0) as Hpp.
    destruct (lookup_lt_is_Some_2 h (parent p)) as [y Hy]; [lia|]. rewrite Hy. destruct (lt x y) eqn:Hxy.
    + destruct (holed_up h pos p x y Hh Hlt Hy Hxy Hb) as [Hh' Hb'].
      destruct (IH (<[p := y]> h) (parent p) Hh' Hb') as [H1 H2]; [rewrite length_insert; lia|lia|].
      split; [done|]. rewrite H2. apply hole_perm; [lia|done|done].
    + split; [|done]. apply holed_fill; [done|done|]. intros _ z Hz. rewrite Hy in Hz. by injection Hz as <-.
Qed.

Lemma siftdown_spec h pos p x :
  holed h pos p -> below h p x -> h !! p = Some x -> heaped (siftdown h pos p) pos /\ siftdown h pos p ≡ₚ h.
Proof using lt_irrefl lt_trans lt_total EqDecision0.
  intros Hh Hb Hx. unfold siftdown. rewrite Hx. pose proof (lookup_lt_Some _ _ _ Hx).
  destruct (siftdown_loop_spec p h pos p x Hh Hb) as [H1 H2]; [done|done|]. by rewrite list_insert_id in H2.
Qed.

Lemma siftup_loop_spec fuel h pos p x :
  holed h pos p -> p < length h -> length h <= fuel + p ->
  exists h' q, siftup_loop fuel h p = (h', q) /\ holed h' pos q /\ length h' = length h /\ q < length h /\
    (forall y, below h' q y) /\ <[q := x]> h' ≡ₚ <[p := x]> h.
Proof using lt_irrefl lt_trans.
  revert h p. induction fuel as [|fuel IH]; intros h p Hh Hp Hf; [lia|]. simpl.
  destruct (smaller_child h p) as [[c y]|] eqn:Hc.
  - destruct (holed_down h pos p c y Hh Hc Hp) as (Hy & Hlt & Hh'). pose proof (lookup_lt_Some _ _ _ Hy).
    destruct (IH (<[p := y]> h) c Hh') as (h' & q & Hrun & Hq & Hlen & Hql & Hb & Hperm);
      [rewrite length_insert; lia..|]. rewrite length_insert in Hlen, Hql.
    exists h', q. split_and!; [done|done|done|done|done|]. rewrite Hperm. apply hole_perm; [lia|done|done].
  - exists h, p. split_and!; try done. intros y c z Hc0 Hpc Hz. apply parent_spec in Hpc; [|done].
    unfold smaller_child in Hc. replace (2 * p + 1 + 1) with (2 * p + 2) in Hc by lia.
    assert (Hn : h !! (2 * p + 1) = None) by (destruct (h !! (2 * p + 1)), (h !! (2 * p + 2)); done).
    apply lookup_ge_None_1 in Hn. apply lookup_lt_Some in Hz. lia.
Qed.

(** [_siftup] at [pos] restores the order of the subtree. *)
Lemma siftup_spec h pos :
  pos < length h -> heaped h (S pos) -> heaped (siftup h pos) pos /\ siftup h pos ≡ₚ h.
Proof using lt_irrefl lt_trans lt_total EqDecision0.
  intros Hp Hh. unfold siftup. destruct (lookup_lt_is_Some_2 h pos Hp) as [x Hx]. rewrite Hx.
  assert (Hho : holed h pos pos).
  { split; [|lia|apply desc_refl]. intros i Hi Hpi _ Hne. apply Hh; [done|lia]. }
  destruct (siftup_loop_spec (length h) h pos pos x Hho Hp) as (h' & q & -> & Hq & Hlen & Hql & Hb & Hperm); [lia|].
  destruct (siftdown_spec (<[q := x]> h') pos q x) as [H1 H2].
  - by apply holed_insert.
  - by apply below_insert.
  - apply list_lookup_insert_eq. lia.
  - split; [done|]. rewrite H2, Hperm. by rewrite list_insert_id.
Qed.

Lemma heappush_spec h x : heaped h 0 -> heaped (heappush h x) 0 /\ heappush h x ≡ₚ x :: h.
Proof using lt_irrefl lt_trans lt_total EqDecision0.
  intros Hh. unfold heappush. set (n := length h).
  assert (Hbound : forall i, 0 < i -> parent i <> n \/ (h ++ [x]) !! i = None).
  { intros i Hi. destruct (decide (parent i = n)) as [Hpi|]; [right|by left]. apply parent_spec in Hpi; [|done].
    apply lookup_ge_None_2. rewrite length_app. simpl. fold n. lia. }
  destruct (siftdown_spec (h ++ [x]) 0 n x) as [H1 H2].
  - split.
    + intros i Hi _ Hin Hpn y z Hy Hz. pose proof (parent_lt i Hi). pose proof (lookup_lt_Some _ _ _ Hz) as Hlt.
      rewrite length_app in Hlt. simpl in Hlt. fold n in Hlt. rewrite lookup_app_l in Hy, Hz by (fold n; lia).
      by eapply (Hh i); [|lia|done|done].
    + intros c y z _ Hc Hpc _ Hz. destruct (Hbound c Hc); congruence.
    + clearbody n. clear. induction n as [[|n] IH] using lt_wf_ind; [constructor|].
      apply desc_child; [lia|]. apply IH. apply parent_lt. lia.
  - intros c y Hc Hpc Hz. destruct (Hbound c Hc); congruence.
  - unfold n. by rewrite lookup_app_r, Nat.sub_diag by lia.
  - split; [done|]. rewrite H2. by rewrite Permutation_app_comm.
Qed.

(** The root is a minimum. *)
Lemma heaped_min h x i y : heaped h 0 -> h !! 0 = Some x -> h !! i = Some y -> le x y.
Proof using lt_irrefl lt_trans lt_total EqDecision0.
  intros Hh H0. revert y. induction i as [[|i] IH] using lt_wf_ind; intros y Hy.
  - rewrite H0 in Hy. injection Hy as <-. apply lt_irrefl.
  - pose proof (parent_lt (S i) ltac:(lia)) as Hlt. pose proof (lookup_lt_Some _ _ _ Hy).
    destruct (lookup_lt_is_Some_2 h (parent (S i))) as [z Hz]; [lia|].
    apply (le_trans x z y); [by apply (IH (parent (S i)))|]. by eapply (Hh (S i)); [lia|lia| |].
Qed.

Lemma heaped_sub h h' pos :
  (forall i y, h' !! i = Some y -> pos <= i -> h !! i = Some y) -> heaped h pos -> heaped h' pos.
Proof using.
  intros Hsub Hh i Hi Hpos y z Hy Hz. pose proof (parent_lt i Hi).
  eapply (Hh i); [done|done|by apply Hsub|apply Hsub; [done|lia]].
Qed.

Lemma heappop_spec h :
  heaped h 0 -> h <> [] ->
  exists x h', heappop h = Some (x, h') /\ heaped h' 0 /\ h ≡ₚ x :: h' /\ forall y, y ∈ h -> le x y.
Proof using lt_irrefl lt_trans lt_total EqDecision0.
  intros Hh Hne. destruct (exists_last Hne) as (t & e & ->). unfold heappop.
  rewrite last_snoc, length_app. simpl. rewrite Nat.add_sub, take_app_length.
  assert (Hmin : forall x, (t ++ [e]) !! 0 = Some x -> forall y, y ∈ t ++ [e] -> le x y).
  { intros x Hx y [i Hi]%list_elem_of_lookup_1. by eapply heaped_min. }
  destruct t as [|x t].
  - exists e, []. split_and!; [done| |done|by apply Hmin]. intros i _ _ y z Hy. by rewrite lookup_nil in Hy.
  - simpl lookup. destruct (siftup_spec (<[0 := e]> (x :: t)) 0) as [H1 H2].
    + rewrite length_insert. simpl. lia.
    + apply (heaped_sub ((x :: t) ++ [e])); [|intros i Hi Hpi; apply Hh; [done|lia]].
      intros i y Hy Hi. rewrite list_lookup_insert_ne in Hy by lia. by apply lookup_app_l_Some.
    + exists x, (siftup (<[0 := e]> (x :: t)) 0). split_and!; [done|done| |by apply Hmin].
      rewrite H2. simpl. constructor. by rewrite Permutation_app_comm.
Qed.

Lemma heapify_loop k g :
  k <= length g -> heaped g k ->
  heaped (foldl siftup g (reverse (seq 0 k))) 0 /\ foldl siftup g (reverse (seq 0 k)) ≡ₚ g.
Proof using lt_irrefl lt_trans lt_total EqDecision0.
  revert g. induction k as [|k IH]; intros g Hk Hg; [done|]. rewrite seq_S, reverse_app. simpl.
  destruct (siftup_spec g k) as [H1 H2]; [lia|done|].
  destruct (IH (siftup g k)) as [H3 H4]; [rewrite H2; lia|done|]. split; [done|by rewrite H4].
Qed.

Lemma heapify_spec h : heaped (heapify h) 0 /\ heapify h ≡ₚ h.
Proof using lt_irrefl lt_trans lt_total EqDecision0.
  unfold heapify. pose proof (Nat.div_mod_eq (length h) 2). pose proof (Nat.mod_upper_bound (length h) 2).
  apply heapify_loop; [lia|]. intros i Hi Hpi y z _ Hz. apply lookup_lt_Some in Hz.
  pose proof (proj1 (parent_spec i (parent i) Hi) eq_refl). lia.
Qed.
End heapq.

(** ** The order of requests *)

(** [Request.__lt__] on (priority, arrival time, id).  The last resort, the address of the
    object, only distinguishes two requests with one id, which a scheduler never has. *)
Definition key_lt (k1 k2 : Z * Z * string) : bool :=
  let '(p1, t1, i1) := k1 in
  let '(p2, t2, i2) := k2 in
  if negb (p1 =? p2)%Z then (p1 <? p2)%Z
  else if negb (t1 =? t2)%Z then (t1 <? t2)%Z
  else String.ltb i1 i2.

(** The same for the ids a queue holds, with the fields the requests have now. *)
Definition queue_key (reqs : gmap string Request) (id : string) : Z * Z * string :=
  match reqs !! id with
  | Some r => (priority r, arrival_time r, id)
  | None => (0, 0, id)%Z
  end.
Definition queue_lt (reqs : gmap string Request) (a b : string) : bool := key_lt (queue_key reqs a) (queue_key reqs b).

(** ** The queues *)

Inductive SchedulingPolicy := FCFS | PRIORITY.

#[export] Instance SchedulingPolicy_eq_dec : EqDecision SchedulingPolicy.
Proof. solve_decision. Defined.

Inductive RequestQueue :=
  | FCFSRequestQueue (deque : list string)
  | PriorityRequestQueue (heap : list string).

Definition create_request_queue (policy : SchedulingPolicy) : RequestQueue :=
  match policy with PRIORITY => PriorityRequestQueue [] | FCFS => FCFSRequestQueue [] end.

(** [list.remove(x)]; [None] for its ValueError *)
Fixpoint list_remove (x : string) (l : list string) : option (list string) :=
  match l with
  | [] => None
  | y :: l => if decide (x = y) then Some l else cons y <$> list_remove x l
  end.

(** Python's [while heap_copy: yield heappop(heap_copy)]; one element per round *)
Fixpoint drain (lt : string -> string -> bool) (fuel : nat) (heap : list string) : list string :=
  match fuel with
  | O => []
  | S fuel => match heappop lt heap with Some (x, heap) => x :: drain lt fuel heap | None => [] end
  end.

Section operations.
Context (reqs : gmap string Request).
Local Abbreviation lt := (queue_lt reqs).

Definition queue_add_request (request : string) (q : RequestQueue) : RequestQueue :=
  match q with
  | FCFSRequestQueue d => FCFSRequestQueue (d ++ [request])
  | PriorityRequestQueue h => PriorityRequestQueue (heappush lt h request)
  end.

Definition pop_request (q : RequestQueue) : outcome (string * RequestQueue) :=
  match q with
  | FCFSRequestQueue [] => Raise IndexError
  | FCFSRequestQueue (x :: d) => Ok (x, FCFSRequestQueue d)
  | PriorityRequestQueue h =>
      match heappop lt h with
      | Some (x, h) => Ok (x, PriorityRequestQueue h)
      | None => Raise IndexError
      end
  end.

Definition peek_request (q : RequestQueue) : outcome string :=
  match q with
  | FCFSRequestQueue l | PriorityRequestQueue l => match l with x :: _ => Ok x | [] => Raise IndexError end
  end.

Definition prepend_request (request : string) (q : RequestQueue) : RequestQueue :=
  match q with
  | FCFSRequestQueue d => FCFSRequestQueue (request :: d)
  | PriorityRequestQueue h => queue_add_request request (PriorityRequestQueue h)
  end.

(** Iteration: the deque in order, a copy of the heap drained *)
Definition iter_queue (q : RequestQueue) : list string :=
  match q with
  | FCFSRequestQueue d => d
  | PriorityRequestQueue h => drain lt (length h) h
  end.

(** [extendleft] prepends one element after the other. *)
Definition prepend_requests (requests q : RequestQueue) : RequestQueue :=
  match q with
  | FCFSRequestQueue d => FCFSRequestQueue (reverse (iter_queue requests) ++ d)
  | PriorityRequestQueue h => foldl (fun q x => queue_add_request x q) (PriorityRequestQueue h) (iter_queue requests)
  end.

Definition remove_request (request : string) (q : RequestQueue) : outcome RequestQueue :=
  match q with
  | FCFSRequestQueue d =>
      match list_remove request d with Some d => Ok (FCFSRequestQueue d) | None => Raise ValueError end
  | PriorityRequestQueue h =>
      match list_remove request h with Some h => Ok (PriorityRequestQueue (heapify lt h)) | None => Raise ValueError end
  end.

Definition remove_requests (requests : list string) (q : RequestQueue) : RequestQueue :=
  match q with
  | FCFSRequestQueue d => FCFSRequestQueue (filter (fun r => r ∉ requests) d)
  | PriorityRequestQueue h => PriorityRequestQueue (heapify lt (filter (fun r => r ∉ requests) h))
  end.
End operations.

Definition queue_items (q : RequestQueue) : list string :=
  match q with FCFSRequestQueue l | PriorityRequestQueue l => l end.
Definition queue_len (q : RequestQueue) : Z := zlen (queue_items q).
Definition queue_bool (q : RequestQueue) : bool := (0 <? queue_len q)%Z.

(** ** [__lt__] is a strict total order *)

Lemma ltb_irrefl s : String.ltb s s = false.
Proof. unfold String.ltb. pose proof (String.compare_antisym s s). by destruct (String.compare s s). Qed.

Lemma ltb_total s t : s <> t -> String.ltb s t = true \/ String.ltb t s = true.
Proof.
  intros Hne. unfold String.ltb. rewrite (String.compare_antisym t s).
  destruct (String.compare s t) eqn:Hc; simpl; [|auto..]. by apply String.compare_eq_iff in Hc.
Qed.

Lemma ltb_trans s t u : String.ltb s t = true -> String.ltb t u = true -> String.ltb s u = true.
Proof.
  unfold String.ltb. revert t u. induction s as [|a s IH]; intros [|b t] [|c u]; simpl; try done.
  unfold Ascii.compare. intros H1 H2.
  destruct (N.compare_spec (Ascii.N_of_ascii a) (Ascii.N_of_ascii b)) as [Hab|Hab|Hab]; [| |done];
    destruct (N.compare_spec (Ascii.N_of_ascii b) (Ascii.N_of_ascii c)) as [Hbc|Hbc|Hbc]; try done;
    destruct (N.compare_spec (Ascii.N_of_ascii a) (Ascii.N_of_ascii c)) as [Hac|Hac|Hac]; try lia; try done.
  by eapply IH.
Qed.

Lemma queue_lt_irrefl reqs x : queue_lt reqs x x = false.
Proof.
  unfold queue_lt, key_lt. destruct (queue_key reqs x) as [[p t] i]. by rewrite !Z.eqb_refl, ltb_irrefl.
Qed.

Lemma key_lt_trans k1 k2 k3 : key_lt k1 k2 = true -> key_lt k2 k3 = true -> key_lt k1 k3 = true.
Proof.
  destruct k1 as [[p1 t1] i1], k2 as [[p2 t2] i2], k3 as [[p3 t3] i3]. unfold key_lt.
  destruct (Z.eqb_spec p1 p2), (Z.eqb_spec p2 p3), (Z.eqb_spec p1 p3), (Z.eqb_spec t1 t2), (Z.eqb_spec t2 t3),
    (Z.eqb_spec t1 t3); simpl; rewrite ?Z.ltb_lt; try lia; apply ltb_trans.
Qed.

Lemma queue_lt_trans reqs x y z : queue_lt reqs x y = true -> queue_lt reqs y z = true -> queue_lt reqs x z = true.
Proof. apply key_lt_trans. Qed.

Lemma queue_key_id reqs x : (queue_key reqs x).2 = x.
Proof. unfold queue_key. by destruct (reqs !! x). Qed.

Lemma queue_lt_total reqs x y : x <> y -> queue_lt reqs x y = true \/ queue_lt reqs y x = true.
Proof.
  intros Hne. rewrite <- (queue_key_id reqs x), <- (queue_key_id reqs y) in Hne. unfold queue_lt, key_lt.
  destruct (queue_key reqs x) as [[p1 t1] i1], (queue_key reqs y) as [[p2 t2] i2]. simpl in Hne.
  rewrite (Z.eqb_sym p2 p1), (Z.eqb_sym t2 t1).
  destruct (Z.eqb_spec p1 p2), (Z.eqb_spec t1 t2); simpl; rewrite ?Z.ltb_lt; [by apply ltb_total|lia..].
Qed.

(** The queue's comparison is that of the requests, however addresses compare. *)
Lemma queue_lt_request reqs same r1 r2 :
  reqs !! request_id r1 = Some r1 -> reqs !! request_id r2 = Some r2 -> request_id r1 <> request_id r2 ->
  queue_lt reqs (request_id r1) (request_id r2) = request_lt same r1 r2.
Proof. intros H1 H2 H. unfold queue_lt, queue_key, request_lt. rewrite H1, H2. simpl. by rewrite (bool_decide_eq_false_2 (request_id r1 = _)). Qed.

(** ** The service order *)

(** What a queue promises: its requests in the order in which they will be served. *)
Section service_order.
Context (reqs : gmap string Request) (policy : SchedulingPolicy).
Local Abbreviation qle := (le (queue_lt reqs)).

Fixpoint insert_sorted (x : string) (l : list string) : list string :=
  match l with
  | [] => [x]
  | y :: l' => if queue_lt reqs y x then y :: insert_sorted x l' else x :: l
  end.

(** A new request goes to the end, or where its priority puts it. *)
Definition spec_add (x : string) (l : list string) : list string :=
  match policy with FCFS => l ++ [x] | PRIORITY => insert_sorted x l end.
Definition spec_prepend (x : string) (l : list string) : list string :=
  match policy with FCFS => x :: l | PRIORITY => insert_sorted x l end.

Inductive queue_call :=
  | QAdd (x : string)
  | QPop
  | QPeek
  | QPrepend (x : string)
  | QPrependAll (other : RequestQueue)
  | QRemove (x : string)
  | QRemoveMany (xs : list string)
  | QLen
  | QIter.

Inductive queue_answer :=
  | ANone
  | ARequest (x : string)
  | ALen (n : Z)
  | ARequests (l : list string).

Definition run_queue (k : queue_call) (q : RequestQueue) : outcome queue_answer * RequestQueue :=
  match k with
  | QAdd x => (Ok ANone, queue_add_request reqs x q)
  | QPop => match pop_request reqs q with Ok (x, q') => (Ok (ARequest x), q') | Raise e => (Raise e, q) end
  | QPeek => match peek_request q with Ok x => (Ok (ARequest x), q) | Raise e => (Raise e, q) end
  | QPrepend x => (Ok ANone, prepend_request reqs x q)
  | QPrependAll other => (Ok ANone, prepend_requests reqs other q)
  | QRemove x => match remove_request reqs x q with Ok q' => (Ok ANone, q') | Raise e => (Raise e, q) end
  | QRemoveMany xs => (Ok ANone, remove_requests reqs xs q)
  | QLen => (Ok (ALen (queue_len q)), q)
  | QIter => (Ok (ARequests (iter_queue reqs q)), q)
  end.

Definition spec_queue (k : queue_call) (l : list string) : outcome queue_answer * list string :=
  match k with
  | QAdd x => (Ok ANone, spec_add x l)
  | QPop => match l with x :: l' => (Ok (ARequest x), l') | [] => (Raise IndexError, l) end
  | QPeek => match l with x :: _ => (Ok (ARequest x), l) | [] => (Raise IndexError, l) end
  | QPrepend x => (Ok ANone, spec_prepend x l)
  | QPrependAll other => (Ok ANone, foldl (fun l x => spec_prepend x l) l (iter_queue reqs other))
  | QRemove x => match list_remove x l with Some l' => (Ok ANone, l') | None => (Raise ValueError, l) end
  | QRemoveMany xs => (Ok ANone, filter (fun r => r ∉ xs) l)
  | QLen => (Ok (ALen (zlen l)), l)
  | QIter => (Ok (ARequests l), l)
  end.

Fixpoint run_calls {S} (run : queue_call -> S -> outcome queue_answer * S) (ks : list queue_call) (s : S)
    : list (outcome queue_answer) * S :=
  match ks with
  | [] => ([], s)
  | k :: ks => let '(a, s') := run k s in let '(al, s'') := run_calls run ks s' in (a :: al, s'')
  end.

Definition ordered (l : list string) : Prop :=
  match policy with FCFS => True | PRIORITY => StronglySorted qle l end.

(** A queue stores the service order [l]. *)
Definition stores (q : RequestQueue) (l : list string) : Prop :=
  match q, policy with
  | FCFSRequestQueue d, FCFS => d = l
  | PriorityRequestQueue h, PRIORITY => heaped (queue_lt reqs) h 0 /\ h ≡ₚ l /\ StronglySorted qle l
  | _, _ => False
  end.

Local Abbreviation irr := (queue_lt_irrefl reqs).
Local Abbreviation tra := (queue_lt_trans reqs).
Local Abbreviation tot := (queue_lt_total reqs).

Lemma insert_sorted_perm x l : insert_sorted x l ≡ₚ x :: l.
Proof using.
  induction l as [|y l IH]; simpl; [done|]. destruct (queue_lt reqs y x); [|done].
  etrans; [apply perm_skip, IH|]. apply perm_swap.
Qed.

Lemma insert_sorted_sorted x l : StronglySorted qle l -> StronglySorted qle (insert_sorted x l).
Proof using.
  induction 1 as [|y l Hl IH Hy]; simpl; [by repeat constructor|]. destruct (queue_lt reqs y x) eqn:Hyx.
  - constructor; [done|]. rewrite insert_sorted_perm. constructor; [|done]. by apply (lt_le _ irr tra).
  - constructor; [by constructor|]. constructor; [done|]. eapply Forall_impl; [exact Hy|].
    intros z Hz. by eapply (le_trans _ irr tra tot).
Qed.

Lemma sorted_unique l1 l2 : StronglySorted qle l1 -> StronglySorted qle l2 -> l1 ≡ₚ l2 -> l1 = l2.
Proof using.
  intros H1 H2. intros Hp. eapply (StronglySorted_unique_strong qle); [|exact H1|exact H2|exact Hp].
  intros x y _ _. apply (le_antisym _ tot).
Qed.

Lemma list_remove_perm x l l' : list_remove x l = Some l' -> l ≡ₚ x :: l'.
Proof using.
  revert l'. induction l as [|y l IH]; intros l' H; simpl in H; [done|]. case_decide as Hxy; [by simplify_eq|].
  destruct (list_remove x l) as [l0|]; [|done]. injection H as <-. etrans; [apply perm_skip, (IH l0 eq_refl)|]. apply perm_swap.
Qed.

Lemma list_remove_none x l : list_remove x l = None <-> x ∉ l.
Proof using.
  induction l as [|y l IH]; simpl; [split; [intros _; apply not_elem_of_nil|done]|]. rewrite not_elem_of_cons. case_decide as Hxy; [naive_solver|].
  rewrite fmap_None, IH. naive_solver.
Qed.

Lemma list_remove_sorted x l l' : list_remove x l = Some l' -> StronglySorted qle l -> StronglySorted qle l'.
Proof using.
  revert l'. induction l as [|y l IH]; intros l' H Hs; simpl in H; [done|]. apply StronglySorted_inv in Hs as [Hl Hy].
  case_decide; [by simplify_eq|]. destruct (list_remove x l) as [l0|] eqn:Hr; [|done]. injection H as <-.
  constructor; [by apply IH|]. rewrite (list_remove_perm x l l0 Hr) in Hy. by apply Forall_cons_1 in Hy as [_ Hy].
Qed.

Lemma filter_sorted (P : string -> Prop) `{!forall x, Decision (P x)} l :
  StronglySorted qle l -> StronglySorted qle (filter P l).
Proof using.
  induction 1 as [|y l Hl IH Hy]; [constructor|]. rewrite filter_cons. case_decide; [|done]. constructor; [done|].
  apply Forall_forall. intros z [_ Hz]%list_elem_of_filter. by apply (proj1 (Forall_forall _ _) Hy).
Qed.

(** Popping takes the head of the service order. *)
Lemma heappop_stores h l :
  heaped (queue_lt reqs) h 0 -> h ≡ₚ l -> StronglySorted qle l ->
  match l with
  | [] => heappop (queue_lt reqs) h = None
  | x :: l' => exists h', heappop (queue_lt reqs) h = Some (x, h') /\ heaped (queue_lt reqs) h' 0 /\ h' ≡ₚ l'
  end.
Proof using.
  intros Hh Hp Hs. destruct l as [|x l].
  - apply Permutation_nil_r in Hp as ->. done.
  - destruct (heappop_spec _ irr tra tot h Hh) as (y & h' & Hrun & Hh' & Hperm & Hmin).
    { intros ->. by apply Permutation_nil_cons in Hp. }
    apply StronglySorted_inv in Hs as [Hl Hx].
    assert (y = x) as ->.
    { assert (Hy : y ∈ x :: l) by (rewrite <- Hp, Hperm; by left). apply elem_of_cons in Hy as [|Hy]; [done|].
      apply (le_antisym _ tot); [apply Hmin; rewrite Hp; by left|]. by apply (proj1 (Forall_forall _ _) Hx). }
    exists h'. split_and!; [done|done|]. apply (Permutation_cons_inv (a := x)). by rewrite <- Hperm.
Qed.

Lemma drain_stores n h l :
  heaped (queue_lt reqs) h 0 -> h ≡ₚ l -> StronglySorted qle l -> length l <= n -> drain (queue_lt reqs) n h = l.
Proof using.
  revert h l. induction n as [|n IH]; intros h l Hh Hp Hs Hn; simpl.
  - by destruct l; [|simpl in Hn; lia].
  - pose proof (heappop_stores h l Hh Hp Hs) as H. destruct l as [|x l]; [by rewrite H|].
    destruct H as (h' & -> & Hh' & Hp'). apply StronglySorted_inv in Hs as [Hl _].
    f_equal. apply IH; [done|done|done|simpl in Hn; lia].
Qed.

Lemma iter_stores q l : stores q l -> iter_queue reqs q = l.
Proof using.
  unfold stores. destruct q as [d|h], policy; try done. intros (Hh & Hp & Hs). simpl.
  apply drain_stores; [done|done|done|by rewrite Hp].
Qed.

Lemma push_stores h l x :
  heaped (queue_lt reqs) h 0 -> h ≡ₚ l -> StronglySorted qle l ->
  heaped (queue_lt reqs) (heappush (queue_lt reqs) h x) 0 /\ heappush (queue_lt reqs) h x ≡ₚ insert_sorted x l /\
  StronglySorted qle (insert_sorted x l).
Proof using.
  intros Hh Hp Hs. destruct (heappush_spec _ irr tra tot h x Hh) as [H1 H2].
  split_and!; [done|by rewrite H2, insert_sorted_perm, Hp|by apply insert_sorted_sorted].
Qed.

Lemma prepend_all_stores h l xs :
  heaped (queue_lt reqs) h 0 -> h ≡ₚ l -> StronglySorted qle l ->
  exists h', foldl (fun q x => queue_add_request reqs x q) (PriorityRequestQueue h) xs = PriorityRequestQueue h' /\
    heaped (queue_lt reqs) h' 0 /\ h' ≡ₚ foldl (fun l x => insert_sorted x l) l xs /\
    StronglySorted qle (foldl (fun l x => insert_sorted x l) l xs).
Proof using.
  revert h l. induction xs as [|x xs IH]; intros h l Hh Hp Hs; simpl; [by exists h|].
  destruct (push_stores h l x Hh Hp Hs) as (H1 & H2 & H3). by apply IH.
Qed.

Lemma prepend_all_fcfs (d xs : list string) : reverse xs ++ d = foldl (fun l x => x :: l) d xs.
Proof using.
  revert d. induction xs as [|x xs IH]; intros d; [done|]. simpl. rewrite <- IH, reverse_cons, <- app_assoc. done.
Qed.

Lemma heapify_stores h l :
  h ≡ₚ l -> StronglySorted qle l ->
  heaped (queue_lt reqs) (heapify (queue_lt reqs) h) 0 /\ heapify (queue_lt reqs) h ≡ₚ l /\ StronglySorted qle l.
Proof using. intros Hp Hs. destruct (heapify_spec _ irr tra tot h) as [H1 H2]. split_and!; [done|by rewrite H2|done]. Qed.

(** One call. *)
Lemma run_queue_stores k q l :
  stores q l -> (run_queue k q).1 = (spec_queue k l).1 /\ stores (run_queue k q).2 (spec_queue k l).2.
Proof using.
  intros Hst. pose proof (iter_stores q l Hst) as Hit. unfold stores in Hst.
  destruct q as [d|h] eqn:Eq, policy eqn:Ep; try done.
  - subst d. destruct k; simpl; unfold spec_add, spec_prepend, stores; rewrite ?Ep; try done.
    + by destruct l.
    + by destruct l.
    + split; [done|]. apply prepend_all_fcfs.
    + by destruct (list_remove x l).
  - destruct Hst as (Hh & Hp & Hs). destruct k; simpl; unfold spec_add, spec_prepend, stores; rewrite ?Ep.
    + split; [done|]. by apply push_stores.
    + pose proof (heappop_stores h l Hh Hp Hs) as H. destruct l as [|x l]; [by rewrite H|].
      destruct H as (h' & -> & Hh' & Hp'). apply StronglySorted_inv in Hs as [Hl _]. done.
    + pose proof (heappop_stores h l Hh Hp Hs) as H. destruct l as [|x l].
      * apply Permutation_nil_r in Hp as ->. done.
      * destruct h as [|y h]; [by apply Permutation_nil_cons in Hp|]. destruct H as (h' & Hpop & _). simpl.
        assert (y = x) as ->; [|done]. unfold heappop in Hpop. destruct (last (y :: h)) as [e|] eqn:He; [|done].
        simpl in Hpop. rewrite Nat.sub_0_r in Hpop. destruct h as [|z h]; simpl in *; congruence.
    + split; [done|]. by apply push_stores.
    + split; [done|]. destruct (prepend_all_stores h l (iter_queue reqs other) Hh Hp Hs) as (h' & -> & H). exact H.
    + destruct (list_remove x h) as [h'|] eqn:Hr.
      * assert (Hin : x ∈ l) by (rewrite <- Hp, (list_remove_perm _ _ _ Hr); by left).
        destruct (list_remove x l) as [l'|] eqn:Hl; [|by apply list_remove_none in Hl]. split; [done|].
        apply heapify_stores; [|by eapply list_remove_sorted]. apply (Permutation_cons_inv (a := x)).
        by rewrite <- (list_remove_perm _ _ _ Hr), <- (list_remove_perm _ _ _ Hl).
      * apply list_remove_none in Hr. rewrite Hp in Hr. apply list_remove_none in Hr as ->. done.
    + split; [done|]. apply heapify_stores; [by rewrite Hp|by apply filter_sorted].
    + split; [|done]. unfold queue_len, zlen. simpl. by rewrite Hp.
    + simpl in Hit. by rewrite Hit.
Qed.
End service_order.

Lemma run_calls_stores reqs policy ks q l :
  stores reqs policy q l ->
  (run_calls (run_queue reqs) ks q).1 = (run_calls (spec_queue reqs policy) ks l).1 /\
  stores reqs policy (run_calls (run_queue reqs) ks q).2 (run_calls (spec_queue reqs policy) ks l).2.
Proof.
  revert q l. induction ks as [|k ks IH]; intros q l Hst; [done|]. simpl.
  destruct (run_queue_stores reqs policy k q l Hst) as [Ha Hs].
  destruct (run_queue reqs k q) as [a q'], (spec_queue reqs policy k l) as [a' l']. simpl in Ha, Hs. subst a'.
  destruct (IH q' l' Hs) as [Hb Ht].
  destruct (run_calls (run_queue reqs) ks q') as [al q''], (run_calls (spec_queue reqs policy) ks l') as [al' l''].
  simpl in *. by subst al'.
Qed.

Lemma stores_ordered reqs policy q l : stores reqs policy q l -> ordered reqs policy l.
Proof. unfold stores, ordered. destruct q, policy; naive_solver. Qed.

(** C18. Both request queues, from creation through any series of calls, answer exactly as
    a list in service order: first come first served appends and prepends, and the
    priority queue keeps its requests sorted by (priority, arrival time, id), although it
    stores a binary heap.  Requests come out from the head, iteration lists the whole
    order, removal takes out exactly what it is asked to, and the errors on an empty queue
    or an absent request are the same. *)
Theorem request_queue_refines_service_order (reqs : gmap string Request) policy calls :
  let '(answers, q) := run_calls (run_queue reqs) calls (create_request_queue policy) in
  let '(answers', l) := run_calls (spec_queue reqs policy) calls [] in
  answers = answers' /\ iter_queue reqs q = l /\ ordered reqs policy l.
Proof.
  assert (H0 : stores reqs policy (create_request_queue policy) []).
  { destruct policy; simpl; [done|]. split_and!; [|done|constructor]. intros i _ _ x y Hx. by rewrite lookup_nil in Hx. }
  destruct (run_calls_stores reqs policy calls _ _ H0) as [Ha Hs].
  destruct (run_calls (run_queue reqs) calls _) as [al q], (run_calls (spec_queue reqs policy) calls []) as [al' l].
  simpl in *. split_and!; [done|by eapply iter_stores|by eapply stores_ordered].
Qed.
