(* ===== verification/QueuePerm.v ===== *)
(** The request queues keep what they hold: whatever the order of their heaps, the calls of
    request_queue.py only add and remove the requests they name. *)
From S2P Require Import Prelude Request RequestQueue.

Section heap.
Context {A : Type} (lt : A -> A -> bool).

Lemma siftdown_loop_perm fuel h start p x : p < length h -> siftdown_loop lt fuel h start p x ≡ₚ <[p := x]> h.
Proof using.
  revert h p. induction fuel as [|fuel IH]; intros h p Hp; simpl; [done|]. case_decide as Hlt; [|done].
  pose proof (parent_lt p ltac:(lia)) as Hpp. destruct (lookup_lt_is_Some_2 h (parent p)) as [y Hy]; [lia|]. rewrite Hy.
  destruct (lt x y); [|done]. rewrite IH by (rewrite length_insert; lia). apply hole_perm; [lia|done|done].
Qed.

Lemma siftdown_perm h start p : siftdown lt h start p ≡ₚ h.
Proof using.
  unfold siftdown. destruct (h !! p) as [x|] eqn:Hx; [|done].
  rewrite siftdown_loop_perm by (by eapply lookup_lt_Some). by rewrite list_insert_id.
Qed.

Lemma smaller_child_lookup h p c y : smaller_child lt h p = Some (c, y) -> h !! c = Some y /\ p < c.
Proof using.
  unfold smaller_child. destruct (h !! (2 * p + 1)) as [a|] eqn:Ha; [|done].
  destruct (h !! (2 * p + 1 + 1)) as [b|] eqn:Hb; [destruct (lt a b)|]; intros [= <- <-]; (split; [done|lia]).
Qed.

Lemma siftup_loop_perm fuel h p x :
  p < length h -> let '(h', q) := siftup_loop lt fuel h p in q < length h' /\ <[q := x]> h' ≡ₚ <[p := x]> h.
Proof using.
  revert h p. induction fuel as [|fuel IH]; intros h p Hp; simpl; [done|].
  destruct (smaller_child lt h p) as [[c y]|] eqn:Hc; [|done]. apply smaller_child_lookup in Hc as [Hc Hpc].
  specialize (IH (<[p := y]> h) c). destruct (siftup_loop lt fuel _ c) as [h' q].
  destruct IH as [H1 H2]; [rewrite length_insert; by eapply lookup_lt_Some|]. split; [done|].
  rewrite H2. apply hole_perm; [lia|done|done].
Qed.

Lemma siftup_perm h p : siftup lt h p ≡ₚ h.
Proof using.
  unfold siftup. destruct (h !! p) as [x|] eqn:Hx; [|done].
  pose proof (siftup_loop_perm (length h) h p x (lookup_lt_Some _ _ _ Hx)) as Hl.
  destruct (siftup_loop lt _ h p) as [h' q]. destruct Hl as [_ Hl]. by rewrite siftdown_perm, Hl, list_insert_id.
Qed.

Lemma heappush_perm h x : heappush lt h x ≡ₚ x :: h.
Proof using. unfold heappush. by rewrite siftdown_perm, Permutation_app_comm. Qed.

Lemma heappop_perm h x h' : heappop lt h = Some (x, h') -> h ≡ₚ x :: h' /\ h !! 0 = Some x.
Proof using.
  unfold heappop. destruct (last h) as [e|] eqn:He; [|done]. apply last_Some in He as [t ->].
  rewrite length_app. simpl. rewrite Nat.add_sub, take_app_length. destruct t as [|y t].
  - intros [= <- <-]. done.
  - simpl. intros [= <- <-]. split; [|done]. rewrite siftup_perm. simpl. constructor. by rewrite Permutation_app_comm.
Qed.

Lemma heapify_perm h : heapify lt h ≡ₚ h.
Proof using.
  unfold heapify. generalize (reverse (seq 0 (length h / 2))) as l. intros l. revert h.
  induction l as [|i l IH]; intros h; simpl; [done|]. by rewrite IH, siftup_perm.
Qed.
End heap.

Section queue.
Context (reqs : gmap string Request).

Lemma add_items x q : queue_items (queue_add_request reqs x q) ≡ₚ x :: queue_items q.
Proof using. destruct q; simpl; [by rewrite Permutation_app_comm|apply heappush_perm]. Qed.

Lemma prepend_items x q : queue_items (prepend_request reqs x q) ≡ₚ x :: queue_items q.
Proof using. destruct q; simpl; [done|apply heappush_perm]. Qed.

(** The request that is popped is the one that was peeked at. *)
Lemma pop_items x q q' :
  pop_request reqs q = Ok (x, q') -> queue_items q ≡ₚ x :: queue_items q' /\ peek_request q = Ok x.
Proof using.
  destruct q as [[|y d]|h]; simpl; [done|by intros [= <- <-]|].
  destruct (heappop _ h) as [[y h']|] eqn:Hh; [|done]. intros [= <- <-]. apply heappop_perm in Hh as [H1 H2].
  split; [done|]. destruct h; [done|]. by injection H2 as ->.
Qed.

Lemma drain_perm n h : length h <= n -> drain (queue_lt reqs) n h ≡ₚ h.
Proof using.
  revert h. induction n as [|n IH]; intros h Hn; simpl; [by destruct h; [|simpl in Hn; lia]|].
  destruct (heappop _ h) as [[x h']|] eqn:Hh.
  - apply heappop_perm in Hh as [Hp _]. rewrite Hp in Hn |- *. simpl in Hn. rewrite IH by lia. done.
  - unfold heappop in Hh. destruct (last h) eqn:Hl; [by destruct (take _ h !! 0)|]. by apply last_None in Hl as ->.
Qed.

Lemma iter_items q : iter_queue reqs q ≡ₚ queue_items q.
Proof using. destruct q; simpl; [done|by apply drain_perm]. Qed.

Lemma prepend_all_items r q : queue_items (prepend_requests reqs r q) ≡ₚ queue_items r ++ queue_items q.
Proof using.
  rewrite <- (iter_items r). destruct q as [d|h]; [simpl; by rewrite reverse_Permutation|]. unfold prepend_requests.
  generalize (PriorityRequestQueue h) as q. generalize (iter_queue reqs r) as l. clear.
  induction l as [|x l IH]; intros q; simpl; [done|]. rewrite IH, add_items. symmetry. apply Permutation_middle.
Qed.
End queue.

Lemma queue_bool_items q : queue_bool q = true -> queue_items q <> [].
Proof. unfold queue_bool, queue_len, zlen. intros H%Z.ltb_lt Hq. rewrite Hq in H. done. Qed.
