(* ===== verification/Scheduler.v ===== *)
(** [Scheduler] and [AsyncScheduler] (vllm/v1/core/sched/scheduler.py, async_scheduler.py):
    which requests run in a step and with how many tokens.

    The model is the scheduler of a deployment without KV transfer and without a remote
    encoder cache ([kv_transfer_config] and [ec_transfer_config] are None): there
    [connector] and [ec_connector] are None, no request waits for remote blocks, and
    [defer_block_free] and [requires_kv_delivery] are False.  The modelled KV cache has no
    Mamba groups, so [need_mamba_block_aligned_split] is False.  Statistics, events and
    timestamps only observe and are left out. *)
From S2P Require Import Prelude KVBlock FreeQueue Request BlockHash BlockPool EncoderCache SchedEncoder SchedUtils CacheHit SingleType KVCoordinator KVManager RequestQueue.

(** ** Configuration and state *)

Inductive PauseState := UNPAUSED | PAUSED_NEW | PAUSED_ALL.

#[export] Instance PauseState_eq_dec : EqDecision PauseState.
Proof. solve_decision. Defined.

(** The grammar of a structured-output request: still compiling, compiled, or failed. *)
Inductive grammar_state := GrammarPending | GrammarReady | GrammarFailed.

(** The attributes that [__init__] sets once. *)
Record SchedulerConfig := {
  max_num_running_reqs : Z;
  max_num_scheduled_tokens : Z;
  max_num_batched_tokens : Z;
  sc_max_model_len : Z;
  num_sampled_tokens_per_step : Z;
  policy : SchedulingPolicy;
  long_prefill_token_threshold : Z;
  enable_chunked_prefill : bool;
  sc_disable_chunked_mm_input : bool;
  is_encoder_decoder : bool;
  is_mm_encoder_only : bool;
  max_num_encoder_input_tokens : Z;
  num_spec_tokens : Z;
  sc_num_lookahead_tokens : Z;
  num_prefill_lookahead : Z;
  draft_slots : Z;
  dynamic_sd_lookup : option (list Z);
  max_loras : option Z;
  scheduler_reserve_full_isl : bool;
  use_v2_model_runner : bool;
  use_pp : bool;
  pp_size : Z;
  async_scheduling : bool;
  sc_needs_kv_cache_zeroing : bool;
}.

(** [StreamingUpdate] *)
Record StreamingUpdate := {
  su_mm_features : list MMFeature;
  su_prompt_token_ids : option (list Z);
  su_max_tokens : Z;
  su_arrival_time : Z;
  su_sampling_params : option SamplingParams;
}.

(** The scheduler's state.  Request objects live in [requests]; every other place holds
    ids.  [streaming_queues], [grammars] and [prefill_stats] are the attributes of requests
    with those names ([prefill_stats] lists the requests whose statistics were not taken
    yet). *)
Record Scheduler {E : Type} := {
  config : SchedulerConfig;
  requests : gmap string Request;
  waiting : RequestQueue;
  skipped_waiting : RequestQueue;
  running : list string;
  finished_req_ids : gset string;
  finished_req_ids_dict : option (gmap Z (gset string));
  reset_preempted_req_ids : gset string;
  prev_step_scheduled_req_ids : gset string;
  num_waiting_for_streaming_input : Z;
  grammar_compile_error_reqs : gset string;
  grammars : gmap string grammar_state;
  streaming_queues : gmap string (list (option StreamingUpdate));
  prefill_stats : gset string;
  encoder_cache_manager : E;
  kv_cache_manager : KVCache;
  current_step : Z;
  prefill_capacity_bound : bool;
  pause_state : PauseState;
  inflight_prefills : gset string;
}.
Arguments Scheduler : clear implicits.

#[export] Instance Scheduler_eta {E} : Eta (Scheduler E) := fun s =>
  Build_Scheduler E (config s) (requests s) (waiting s) (skipped_waiting s) (running s) (finished_req_ids s)
    (finished_req_ids_dict s)
    (reset_preempted_req_ids s) (prev_step_scheduled_req_ids s) (num_waiting_for_streaming_input s)
    (grammar_compile_error_reqs s) (grammars s) (streaming_queues s) (prefill_stats s)
    (encoder_cache_manager s) (kv_cache_manager s) (current_step s) (prefill_capacity_bound s)
    (pause_state s) (inflight_prefills s).

(** What the scheduler uses of an encoder cache beside admission. *)
Class EncoderCacheFree (E : Type) := {
  op_free : Request -> M E unit;
  op_get_cached_input_ids : Request -> E -> list nat;
  op_free_encoder_input : Request -> nat -> M E unit;
  op_get_freed_mm_hashes : M E (list string);
  op_reset : E -> E;
}.

#[export] Instance EncoderCacheManager_free : EncoderCacheFree EncoderCacheManager := {|
  op_free := ec_free;
  op_get_cached_input_ids r m := elements (get_cached_input_ids r m);
  op_free_encoder_input := free_encoder_input;
  op_get_freed_mm_hashes := get_freed_mm_hashes;
  op_reset := ec_reset;
|}.

#[export] Instance EncoderDecoder_free : EncoderCacheFree EncoderDecoderCacheManager := {|
  op_free := ed_free;
  op_get_cached_input_ids r _ := ed_get_cached_input_ids r;
  op_free_encoder_input := ed_free_encoder_input;
  op_get_freed_mm_hashes := ed_get_freed_mm_hashes;
  op_reset := ed_reset;
|}.

(** The local variables of [schedule] that its loops update. *)
Record step_vars := {
  scheduled_new_reqs : list string;
  scheduled_resumed_reqs : list string;
  scheduled_running_reqs : list string;
  preempted_reqs : list string;
  req_to_new_blocks : list (string * KVCacheBlocks);
  num_scheduled_tokens : list (string * Z);
  token_budget : Z;
  input_budget : Z;
  encoder_budget : Z;
  scheduled_encoder_inputs : list (string * list nat);
  scheduled_spec_decode_tokens : list (string * list Z);
  prefill_scheduled : bool;
  scheduled_loras : gset Z;
  req_index : nat;
}.

#[export] Instance step_vars_eta : Eta step_vars := fun v =>
  Build_step_vars (scheduled_new_reqs v) (scheduled_resumed_reqs v) (scheduled_running_reqs v) (preempted_reqs v)
    (req_to_new_blocks v) (num_scheduled_tokens v) (token_budget v) (input_budget v) (encoder_budget v)
    (scheduled_encoder_inputs v) (scheduled_spec_decode_tokens v) (prefill_scheduled v) (scheduled_loras v)
    (req_index v).

(** ** Programs over the scheduler *)

Section scheduler.
Context {E : Type} `{EncoderCacheOps E, EncoderCacheFree E}.
(** The hash of the prefix-cache keys, [request.kv_cache_report_mode == "full"], and the
    scheduler's block hasher. *)
Context (sha256 : bytes -> bytes) (report_full : Request -> bool) (hasher : option block_hasher).
Local Abbreviation Sch := (Scheduler E).

Definition on_kv {A} (m : M KVCache A) : M Sch A :=
  zoom kv_cache_manager (fun k s => s <| kv_cache_manager := k |>) m.
Definition on_encoder_cache {A} (m : M E A) : M Sch A :=
  zoom encoder_cache_manager (fun e s => s <| encoder_cache_manager := e |>) m.

(** The request object behind an id *)
Definition get_request (rid : string) : M Sch Request :=
  s ← gets id;
  of_option KeyError (requests s !! rid).
Definition put_request (rid : string) (r : Request) : M Sch unit :=
  modify (fun s => s <| requests := <[rid := r]> (requests s) |>).

Definition lift_out {S A} (o : outcome A) : M S A := match o with Ok a => mret a | Raise e => raise e end.

(** [get_num_encoder_embeds] over several inputs *)
Definition sum_encoder_embeds (r : Request) (inputs : list nat) : M Sch Z :=
  mfold (fun acc i => n ← lift_out (get_num_encoder_embeds r (Z.of_nat i)); mret (acc + n)%Z) 0%Z inputs.

(** ** Waiting queues *)

(** [_is_blocked_waiting_status(status)] *)
Definition is_blocked_waiting_status (st : RequestStatus) : bool :=
  bool_decide (st = WAITING_FOR_STRUCTURED_OUTPUT_GRAMMAR \/ st = WAITING_FOR_REMOTE_KVS \/
               st = WAITING_FOR_STREAMING_REQ).

(** [_enqueue_waiting_request(request)] *)
Definition enqueue_waiting_request (rid : string) : M Sch unit :=
  r ← get_request rid;
  if is_blocked_waiting_status (status r)
  then modify (fun s => s <| skipped_waiting := queue_add_request (requests s) rid (skipped_waiting s) |>)
  else modify (fun s => s <| waiting := queue_add_request (requests s) rid (waiting s) |>).

(** Which of the two waiting queues. *)
Inductive which_queue := InWaiting | InSkipped.

(** [_select_waiting_queue_for_scheduling()]; None when both are empty *)
Definition select_waiting_queue_for_scheduling : M Sch (option which_queue) :=
  s ← gets id;
  let w := queue_bool (waiting s) in
  let k := queue_bool (skipped_waiting s) in
  match policy (config s) with
  | FCFS => mret (if k then Some InSkipped else if w then Some InWaiting else None)
  | PRIORITY =>
      if w && k then
        waiting_req ← lift_out (peek_request (waiting s));
        skipped_req ← lift_out (peek_request (skipped_waiting s));
        mret (Some (if queue_lt (requests s) waiting_req skipped_req then InWaiting else InSkipped))
      else mret (if w then Some InWaiting else if k then Some InSkipped else None)
  end.

Definition the_queue (w : which_queue) (s : Sch) : RequestQueue :=
  match w with InWaiting => waiting s | InSkipped => skipped_waiting s end.

(** [request_queue.pop_request()] on the selected queue *)
Definition pop_from (w : which_queue) : M Sch string :=
  s ← gets id;
  '(rid, q) ← lift_out (pop_request (requests s) (the_queue w s));
  modify (fun s => match w with InWaiting => s <| waiting := q |> | InSkipped => s <| skipped_waiting := q |> end) ;;
  mret rid.

(** [_try_promote_blocked_waiting_request(request)].  Without a connector no request waits
    for remote blocks. *)
Definition try_promote_blocked_waiting_request (rid : string) : M Sch bool :=
  r ← get_request rid;
  s ← gets id;
  match status r with
  | WAITING_FOR_STRUCTURED_OUTPUT_GRAMMAR =>
      match grammars s !! rid with
      | None | Some GrammarPending => mret false
      | Some GrammarFailed =>
          modify (fun s => s <| grammar_compile_error_reqs := {[rid]} ∪ grammar_compile_error_reqs s |>) ;;
          mret false
      | Some GrammarReady => put_request rid (r <| status := WAITING |>) ;; mret true
      end
  | WAITING_FOR_STREAMING_REQ =>
      massert (bool_decide (default [] (streaming_queues s !! rid) = [])) ;; mret false
  | _ => raise AssertionError
  end.

(** ** Preemption *)

(** [_preempt_request(request, timestamp, drop_stale_output)] *)
Definition preempt_request (rid : string) (drop_stale : bool) : M Sch unit :=
  r ← get_request rid;
  massert (bool_decide (status r = RUNNING)) ;;
  on_kv (kv_free r) ;;
  on_encoder_cache (op_free r) ;;
  modify (fun s => s <| inflight_prefills := inflight_prefills s ∖ {[rid]} |>) ;;
  put_request rid (r <| status := PREEMPTED |> <| num_computed_tokens := 0%Z |> <| spec_token_ids := [] |>
    <| drop_stale_output := drop_stale || (drop_stale_output r && (0 <? num_stale_output_tokens r)%Z) |>
    <| num_stale_output_tokens := num_in_flight_tokens r |>
    <| num_output_placeholders := 0%Z |>
    <| num_preemptions := (num_preemptions r + 1)%Z |>) ;;
  modify (fun s => s <| waiting := prepend_request (requests s) rid (waiting s) |>
                     <| reset_preempted_req_ids := {[rid]} ∪ reset_preempted_req_ids s |>).

(** [max(self.running, key=lambda r: (r.priority, r.arrival_time))]: the first of the
    largest *)
Definition lower_priority (reqs : gmap string Request) (a b : string) : bool :=
  match reqs !! a, reqs !! b with
  | Some ra, Some rb =>
      (priority ra <? priority rb)%Z || ((priority ra =? priority rb)%Z && (arrival_time ra <? arrival_time rb)%Z)
  | _, _ => false
  end.
Definition lowest_priority (reqs : gmap string Request) (ids : list string) : option string :=
  match ids with
  | [] => None
  | x :: ids => Some (foldl (fun best y => if lower_priority reqs best y then y else best) x ids)
  end.

(** A scheduled victim gives its budget back. *)
Definition unschedule (rid : string) (v : step_vars) : M Sch step_vars :=
  restored ← of_option KeyError (odict_get rid (num_scheduled_tokens v));
  _ ← of_option KeyError (odict_get rid (req_to_new_blocks v));
  ds ← gets (fun s => draft_slots (config s));
  r ← get_request rid;
  embeds ← sum_encoder_embeds r (default [] (odict_get rid (scheduled_encoder_inputs v)));
  mret (v <| scheduled_running_reqs := SchedUtils.remove_first rid (scheduled_running_reqs v) |>
          <| num_scheduled_tokens := odict_del rid (num_scheduled_tokens v) |>
          <| token_budget := (token_budget v + restored)%Z |>
          <| input_budget := (input_budget v + (restored + ds))%Z |>
          <| req_to_new_blocks := odict_del rid (req_to_new_blocks v) |>
          <| scheduled_spec_decode_tokens := odict_del rid (scheduled_spec_decode_tokens v) |>
          <| scheduled_encoder_inputs := odict_del rid (scheduled_encoder_inputs v) |>
          <| encoder_budget := (encoder_budget v + embeds)%Z |>).

(** The preemption victim, taken out of [running]. *)
Definition take_victim (v : step_vars) : M Sch (string * step_vars) :=
  s ← gets id;
  match policy (config s) with
  | PRIORITY =>
      victim ← of_option ValueError (lowest_priority (requests s) (running s));
      '(victim_index, _) ← of_option ValueError (list_find (fun x => x = victim) (running s));
      modify (fun s => s <| running := delete victim_index (running s) |>) ;;
      let v := if decide (victim_index < req_index v) then v <| req_index := req_index v - 1 |> else v in
      v ← (if decide (victim ∈ scheduled_running_reqs v) then unschedule victim v else mret v);
      mret (victim, v)
  | FCFS =>
      victim ← of_option IndexError (last (running s));
      modify (fun s => s <| running := take (length (running s) - 1) (running s) |>) ;;
      mret (victim, v)
  end.

(** The arguments of [allocate_slots] for a running request. *)
Definition running_args (s : Sch) (n : Z) : alloc_args :=
  {| num_new_tokens := n; num_new_computed_tokens := 0; new_computed_blocks := None;
     num_lookahead_tokens := sc_num_lookahead_tokens (config s); num_external_computed_tokens := 0;
     delay_cache_blocks := false; num_encoder_tokens := 0; full_sequence_must_fit := false;
     reserved_blocks := 0; has_scheduled_reqs := true |}.

(** The [while True] loop around [allocate_slots]: preempt until the slots fit or the
    request itself was preempted.  Every round but the last removes a running request. *)
Fixpoint allocate_or_preempt (fuel : nat) (rid : string) (n : Z) (v : step_vars)
    : M Sch (option KVCacheBlocks * step_vars) :=
  match fuel with
  | O => raise OutOfFuel
  | S fuel =>
      r ← get_request rid;
      s ← gets id;
      '(new_blocks, r) ← on_kv (allocate_slots sha256 r (running_args s n));
      put_request rid r ;;
      match new_blocks with
      | Some b => mret (Some b, v)
      | None =>
          '(victim, v) ← take_victim v;
          preempt_request victim false ;;
          let v := v <| preempted_reqs := preempted_reqs v ++ [victim] |> in
          if decide (victim = rid) then mret (None, v) else allocate_or_preempt fuel rid n v
      end
  end.

(** ** The running requests *)

(** [while cond: body], where the body continues with [inl] or breaks with [inr] *)
Fixpoint while_loop {S A} (fuel : nat) (cond : A -> S -> bool) (body : A -> M S (A + A)) (a : A) : M S A :=
  match fuel with
  | O => raise OutOfFuel
  | Datatypes.S fuel =>
      s ← gets id;
      if cond a s then
        o ← body a;
        match o with inl a => while_loop fuel cond body a | inr a => mret a end
      else mret a
  end.

(** [_reserve_prefill_lookahead(request, num_computed_tokens, num_new_tokens)] *)
Definition reserve_prefill_lookahead (c : SchedulerConfig) (r : Request) (computed n : Z) : Z :=
  let remaining := (num_tokens r - computed - n)%Z in
  let n := if (0 <? remaining)%Z && (remaining <? num_prefill_lookahead c)%Z
           then (n - (num_prefill_lookahead c - remaining))%Z else n in
  Z.max n 0.

(** The requests a step passes over: those sure to finish with the output in flight, those
    that wait for their decode slot, and prefills deferred for balancing. *)
Definition passed_over (s : Sch) (defer_prefills : bool) (r : Request) : bool :=
  ((0 <? num_output_placeholders r)%Z &&
     (num_prompt_tokens r + max_tokens r <=? num_computed_tokens r + 2 - num_output_placeholders r)%Z)
  || (current_step s <? next_decode_eligible_step r)%Z
  || (defer_prefills && is_prefill_chunk r).

(** The number of tokens to compute for a running request, before encoder inputs. *)
Definition running_new_tokens (c : SchedulerConfig) (v : step_vars) (r : Request) : Z :=
  let n := (num_tokens_with_spec r + num_output_placeholders r - num_computed_tokens r)%Z in
  let n := if (0 <? long_prefill_token_threshold c)%Z && (long_prefill_token_threshold c <? n)%Z
           then long_prefill_token_threshold c else n in
  let n := Z.min n (Z.min (token_budget v) (input_budget v - draft_slots c)) in
  Z.min n (sc_max_model_len c - num_computed_tokens r - num_sampled_tokens_per_step c).

(** [_try_schedule_encoder_inputs] when the request has encoder inputs *)
Definition schedule_encoder_inputs (r : Request) (computed n budget : Z) : M Sch (list nat * Z * Z * list nat) :=
  c ← gets config;
  if has_encoder_inputs r then
    on_encoder_cache (try_schedule_encoder_inputs (is_encoder_decoder c) (sc_disable_chunked_mm_input c) None
      r computed n budget (num_prefill_lookahead c))
  else mret ([], n, budget, []).

(** The draft tokens of a scheduled request. *)
Definition schedule_spec_tokens (rid : string) (n : Z) (v : step_vars) : M Sch step_vars :=
  r ← get_request rid;
  if decide (spec_token_ids r = []) then mret v
  else
    let k := (n + num_computed_tokens r - num_tokens r - num_output_placeholders r)%Z in
    put_request rid (r <| spec_token_ids := [] |>) ;;
    mret (if (0 <? k)%Z
          then v <| scheduled_spec_decode_tokens :=
                 odict_set rid (take (Z.to_nat k) (spec_token_ids r)) (scheduled_spec_decode_tokens v) |>
          else v).

(** The encoder inputs of a scheduled request: recorded and allocated. *)
Definition record_encoder_inputs (rid : string) (inputs external : list nat) (budget : Z) (v : step_vars)
    : M Sch step_vars :=
  r ← get_request rid;
  on_encoder_cache (allocate_encoder_inputs r inputs external) ;;
  mret (if decide (inputs = []) then v
        else v <| scheduled_encoder_inputs := odict_set rid inputs (scheduled_encoder_inputs v) |>
               <| encoder_budget := budget |>).

(** One round of the loop over [running]. *)
Definition schedule_one_running (defer_prefills : bool) (v : step_vars) : M Sch (step_vars + step_vars) :=
  s ← gets id;
  let c := config s in
  rid ← of_option IndexError (running s !! req_index v);
  r ← get_request rid;
  let skip := inl (v <| req_index := req_index v + 1 |>) in
  if (input_budget v <=? draft_slots c)%Z then mret (inr v)
  else if passed_over s defer_prefills r then mret skip
  else
    '(inputs, n, budget, external) ←
      schedule_encoder_inputs r (num_computed_tokens r) (running_new_tokens c v r) (encoder_budget v);
    let n := reserve_prefill_lookahead c r (num_computed_tokens r) n in
    if (n =? 0)%Z then mret skip
    else
      '(new_blocks, v) ← allocate_or_preempt (length (running s)) rid n v;
      match new_blocks with
      | None => mret (inr v)
      | Some b =>
          r ← get_request rid;
          let v := v <| scheduled_running_reqs := scheduled_running_reqs v ++ [rid] |>
                     <| prefill_scheduled := prefill_scheduled v || is_prefill_chunk r |>
                     <| req_to_new_blocks := odict_set rid b (req_to_new_blocks v) |>
                     <| num_scheduled_tokens := odict_set rid n (num_scheduled_tokens v) |>
                     <| token_budget := (token_budget v - n)%Z |>
                     <| input_budget := (input_budget v - (n + draft_slots c))%Z |>
                     <| req_index := req_index v + 1 |> in
          v ← schedule_spec_tokens rid n v;
          v ← record_encoder_inputs rid inputs external budget v;
          mret (inl v)
      end.

(** Every round moves on to the next running request or removes one. *)
Definition schedule_running (defer_prefills : bool) (v : step_vars) : M Sch step_vars :=
  s ← gets id;
  while_loop (S (length (running s)))
    (fun v s => bool_decide (req_index v < length (running s)) && (0 <? token_budget v)%Z)
    (schedule_one_running defer_prefills) v.

(** The LoRA adapters of the scheduled running requests. *)
Definition record_loras (v : step_vars) : M Sch step_vars :=
  s ← gets id;
  match max_loras (config s) with
  | None => mret v
  | Some limit =>
      let ids := omap (fun rid => r ← requests s !! rid; l ← lora_request r;
                                 if (0 <? adapter_id l)%Z then Some (adapter_id l) else None)
                   (scheduled_running_reqs v) in
      let loras := list_to_set ids : gset Z in
      massert (Z.of_nat (size loras) <=? limit)%Z ;;
      mret (v <| scheduled_loras := loras |>)
  end.

(** ** The waiting requests *)

(** Whether the loop over the waiting queues takes the request at the head or stops. *)
Inductive admission {A : Type} := Admit (a : A) | Halt.
Arguments admission : clear implicits.

(** Whether admitting the request would exceed [max_loras]. *)
Definition exceeds_loras (c : SchedulerConfig) (v : step_vars) (r : Request) : bool :=
  match max_loras c, lora_request r with
  | Some limit, Some l =>
      (Z.of_nat (size (scheduled_loras v)) =? limit)%Z && bool_decide (adapter_id l ∉ scheduled_loras v)
  | _, _ => false
  end.

(** The checks before the prefix-cache lookup: blocked requests are promoted if they can
    be, stale output and LoRA limits make a request wait. *)
Definition ready_to_schedule (rid : string) (v : step_vars) : M Sch bool :=
  r ← get_request rid;
  promoted ← (if is_blocked_waiting_status (status r) then try_promote_blocked_waiting_request rid else mret true);
  if negb promoted then mret false
  else
    r ← get_request rid;
    c ← gets config;
    mret (negb ((0 <? num_stale_output_tokens r)%Z && negb (drop_stale_output r)) && negb (exceeds_loras c v r)).

(** The cached prefix of a request that computed nothing yet: its blocks, their tokens, and
    the computed tokens of the request. *)
Definition lookup_prefix (rid : string) : M Sch (KVCacheBlocks * Z * Z) :=
  r ← get_request rid;
  if (num_computed_tokens r =? 0)%Z then
    '(blocks, n, boundary, r) ← on_kv (get_computed_blocks sha256 r (report_full r));
    put_request rid (r <| shared_prefix_boundary := boundary |>) ;;
    massert (n <=? num_tokens r)%Z ;;
    stats ← gets prefill_stats;
    mwhen (bool_decide (rid ∈ stats) && (num_preemptions r <=? 0)%Z) (massert (n <=? num_prompt_tokens r)%Z) ;;
    mret (blocks, n, n)
  else mret (EmptyBlocks, 0%Z, num_computed_tokens r).

(** The number of tokens for a waiting request before encoder inputs, and whether it is
    padded to the size of a speculative decode. *)
Definition waiting_new_tokens (c : SchedulerConfig) (v : step_vars) (r : Request) (computed : Z)
    : M Sch (admission (Z * bool)) :=
  let budget := Z.min (token_budget v) (input_budget v - draft_slots c) in
  let n := (num_tokens r - computed)%Z in
  let padded := (1 + num_spec_tokens c)%Z in
  let pad :=
    (0 <? num_spec_tokens c)%Z && bool_decide (dynamic_sd_lookup c = None) && (0 <? num_sampled_tokens_per_step c)%Z &&
    (n =? 1)%Z && negb (bool_decide (scheduled_running_reqs v = [])) && negb (prefill_scheduled v) &&
    (computed + padded + num_sampled_tokens_per_step c <=? sc_max_model_len c)%Z in
  if pad && (budget <? padded)%Z then mret Halt
  else
    let n := if pad then padded else n in
    let n := if (0 <? long_prefill_token_threshold c)%Z && (long_prefill_token_threshold c <? n)%Z
             then long_prefill_token_threshold c else n in
    if negb (enable_chunked_prefill c) && (budget <? n)%Z then mret Halt
    else
      let n := Z.min n budget in
      massert (0 <? n)%Z ;;
      mret (Admit (n, pad)).

(** The arguments of [allocate_slots] for a waiting request. *)
Definition waiting_args (s : Sch) (n : Z) (blocks : KVCacheBlocks) (local encoder_tokens : Z) : alloc_args :=
  {| num_new_tokens := n; num_new_computed_tokens := local; new_computed_blocks := Some blocks;
     num_lookahead_tokens := sc_num_lookahead_tokens (config s); num_external_computed_tokens := 0;
     delay_cache_blocks := false; num_encoder_tokens := encoder_tokens;
     full_sequence_must_fit := scheduler_reserve_full_isl (config s); reserved_blocks := 0;
     has_scheduled_reqs := negb (bool_decide (running s = [])) |}.

(** The tokens, encoder inputs and slots of the request at the head. *)
Definition admit_request (rid : string) (defer_prefills : bool) (v : step_vars)
    : M Sch (admission (Z * Z * bool * list nat * list nat * Z)) :=
  c ← gets config;
  '(blocks, local, computed) ← lookup_prefix rid;
  r ← get_request rid;
  if defer_prefills && (computed <? num_tokens r - 1)%Z then mret Halt
  else
    a ← waiting_new_tokens c v r computed;
    match a with
    | Admit (n, pad) =>
        '(inputs, n, budget, external) ← schedule_encoder_inputs r computed n (encoder_budget v);
        let n := reserve_prefill_lookahead c r computed n in
        if (n =? 0)%Z then mret Halt
        else
          encoder_tokens ← (if is_encoder_decoder c && has_encoder_inputs r then sum_encoder_embeds r inputs
                            else mret 0%Z);
          s ← gets id;
          '(new_blocks, r) ← on_kv (allocate_slots sha256 r (waiting_args s n blocks local encoder_tokens));
          put_request rid r ;;
          match new_blocks with
          | None => mwhen (has_encoder_inputs r) (on_encoder_cache (op_free r)) ;; mret Halt
          | Some _ => mret (Admit (n, computed, pad, inputs, external, budget))
          end
    | Halt => mret Halt
    end.

(** A request with slots starts to run. *)
Definition start_running (rid : string) (n computed : Z) (pad : bool) (inputs external : list nat) (budget : Z)
    (v : step_vars) : M Sch step_vars :=
  modify (fun s => s <| running := running s ++ [rid] |>) ;;
  r ← get_request rid;
  c ← gets config;
  v ← match status r with
      | WAITING => mret (v <| scheduled_new_reqs := scheduled_new_reqs v ++ [rid] |>)
      | PREEMPTED => mret (v <| scheduled_resumed_reqs := scheduled_resumed_reqs v ++ [rid] |>)
      | _ => raise RuntimeError
      end;
  s ← gets id;
  let v := match max_loras c, lora_request r with
           | Some _, Some l => v <| scheduled_loras := {[adapter_id l]} ∪ scheduled_loras v |>
           | _, _ => v
           end in
  let v := v <| req_to_new_blocks := odict_set rid (kv_get_blocks (kv_cache_manager s) rid) (req_to_new_blocks v) |>
             <| num_scheduled_tokens := odict_set rid n (num_scheduled_tokens v) |>
             <| token_budget := (token_budget v - n)%Z |>
             <| input_budget := (input_budget v - (n + draft_slots c))%Z |> in
  put_request rid (r <| status := RUNNING |> <| num_computed_tokens := computed |>) ;;
  mwhen pad (massert (n =? 1 + num_spec_tokens c)%Z) ;;
  let v := if pad
           then v <| scheduled_spec_decode_tokens :=
                  odict_set rid (replicate (Z.to_nat (num_spec_tokens c)) (-1)%Z) (scheduled_spec_decode_tokens v) |>
           else v in
  mwhen (computed + n <? num_tokens r)%Z
    (modify (fun s => s <| inflight_prefills := {[rid]} ∪ inflight_prefills s |>)) ;;
  record_encoder_inputs rid inputs external budget v.

(** One round of the loop over the waiting queues; [skipped] collects the requests passed
    over. *)
Definition schedule_one_waiting (defer_prefills : bool) (vs : step_vars * RequestQueue)
    : M Sch ((step_vars * RequestQueue) + (step_vars * RequestQueue)) :=
  let '(v, skipped) := vs in
  s ← gets id;
  let c := config s in
  if (input_budget v <=? draft_slots c)%Z then mret (inr (v, skipped))
  else if (max_num_running_reqs c <=? zlen (running s) + num_waiting_for_streaming_input s)%Z
  then mret (inr (v, skipped))
  else
    w ← select_waiting_queue_for_scheduling;
    w ← of_option AssertionError w;
    s ← gets id;
    rid ← lift_out (peek_request (the_queue w s));
    ready ← ready_to_schedule rid v;
    if negb ready then
      rid ← pop_from w;
      s ← gets id;
      mret (inl (v, prepend_request (requests s) rid skipped))
    else
      a ← admit_request rid defer_prefills v;
      match a with
      | Admit (n, computed, pad, inputs, external, budget) =>
          rid ← pop_from w;
          v ← start_running rid n computed pad inputs external budget v;
          mret (inl (v, skipped))
      | Halt => mret (inr (v, skipped))
      end.

(** Every round takes a request out of the waiting queues. *)
Definition schedule_waiting (defer_prefills : bool) (v : step_vars) : M Sch step_vars :=
  s ← gets id;
  '(v, skipped) ←
    while_loop (S (length (queue_items (waiting s)) + length (queue_items (skipped_waiting s))))
      (fun vs s => (queue_bool (waiting s) || queue_bool (skipped_waiting s)) && (0 <? token_budget vs.1)%Z)
      (schedule_one_waiting defer_prefills) (v, create_request_queue (policy (config s)));
  mwhen (queue_bool skipped)
    (modify (fun s => s <| skipped_waiting := prepend_requests (requests s) skipped (skipped_waiting s) |>)) ;;
  mwhen (negb defer_prefills)
    (modify (fun s => s <| prefill_capacity_bound := queue_bool (waiting s) |>)) ;;
  mret v.

(** ** [schedule] up to its output *)

Definition init_vars (c : SchedulerConfig) (p : PauseState) : step_vars :=
  {| scheduled_new_reqs := []; scheduled_resumed_reqs := []; scheduled_running_reqs := []; preempted_reqs := [];
     req_to_new_blocks := []; num_scheduled_tokens := [];
     token_budget := if decide (p = PAUSED_ALL) then 0%Z else max_num_scheduled_tokens c;
     input_budget := max_num_batched_tokens c; encoder_budget := max_num_encoder_input_tokens c;
     scheduled_encoder_inputs := []; scheduled_spec_decode_tokens := []; prefill_scheduled := false;
     scheduled_loras := ∅; req_index := 0 |}.

(** Both loops. *)
Definition schedule_requests (throttle_prefills : bool) : M Sch step_vars :=
  modify (fun s => s <| current_step := (current_step s + 1)%Z |>) ;;
  s ← gets id;
  let defer_prefills := throttle_prefills && negb (prefill_capacity_bound s) &&
    existsb (fun rid => match requests s !! rid with Some r => negb (is_prefill_chunk r) | None => false end) (running s) in
  v ← schedule_running defer_prefills (init_vars (config s) (pause_state s));
  v ← record_loras v;
  s ← gets id;
  if bool_decide (preempted_reqs v = []) && bool_decide (pause_state s = UNPAUSED)
  then schedule_waiting defer_prefills v else mret v.

Definition sum_tokens (d : list (string * Z)) : Z := foldr Z.add 0%Z d.*2.

(** The assertions on the result of the loops. *)
Definition check_constraints (v : step_vars) : M Sch unit :=
  s ← gets id;
  let c := config s in
  massert (sum_tokens (num_scheduled_tokens v) <=? max_num_scheduled_tokens c)%Z ;;
  massert (0 <=? token_budget v)%Z ;;
  massert (0 <=? input_budget v)%Z ;;
  massert (zlen (running s) <=? max_num_running_reqs c)%Z ;;
  massert (zlen (scheduled_new_reqs v) + zlen (scheduled_resumed_reqs v) + zlen (scheduled_running_reqs v)
           <=? zlen (running s))%Z.
End scheduler.
