(* ===== verification/SchedulerInv.v ===== *)
(** What one step of the scheduler keeps: the budgets, the scheduled requests and the list
    of running requests agree in every round of both loops of [schedule]. *)
From S2P Require Import Prelude KVBlock FreeQueue Request BlockHash BlockPool EncoderCache SchedEncoder SchedUtils CacheHit SingleType SingleTypeInv SingleTypeAlloc SingleTypeFree KVCoordinator KVManager RequestQueue Scheduler.

(** ** The values a program returns *)

Definition returns {S A} (m : M S A) (P : A -> Prop) : Prop := forall s a s', m s = (Ok a, s') -> P a.

Lemma returns_wpe {S A} (m : M S A) (P : A -> Prop) :
  returns m P <-> forall s, wpe m (fun a _ => P a) (fun _ => True) s.
Proof.
  unfold returns, wpe. split.
  - intros H s. destruct (m s) as [[a|e] s'] eqn:Hm; [by eapply H|done].
  - intros H s a s' Hm. specialize (H s). by rewrite Hm in H.
Qed.

Lemma returns_any {S A} (m : M S A) : returns m (fun _ => True).
Proof. done. Qed.

Lemma returns_ret {S A} (a : A) (P : A -> Prop) : P a -> returns (mret a : M S A) P.
Proof. intros H s a' s' [= <- _]. done. Qed.

Lemma returns_bind {S A B} (m : M S A) (k : A -> M S B) (P : A -> Prop) Q :
  returns m P -> (forall a, P a -> returns (k a) Q) -> returns (mbind k m) Q.
Proof.
  intros Hm Hk s b s' Hrun. unfold mbind, M_bind in Hrun. destruct (m s) as [[a|e] s1] eqn:H1; [|done].
  eapply Hk; [by eapply Hm|done].
Qed.

Lemma returns_skip {S A B} (m : M S A) (k : A -> M S B) Q : (forall a, returns (k a) Q) -> returns (mbind k m) Q.
Proof. intros Hk. eapply returns_bind; [apply returns_any|]. auto. Qed.

Lemma returns_fold {S A B} (f : B -> A -> M S B) (P : B -> Prop) b l :
  P b -> (forall b x, P b -> returns (f b x) P) -> returns (mfold f b l) P.
Proof.
  intros Hb Hf. revert b Hb. induction l as [|x l IH]; intros b Hb; simpl; [by apply returns_ret|].
  eapply returns_bind; [by apply Hf|auto].
Qed.

Lemma returns_zoom {S T A} (get : S -> T) put (m : M T A) P : returns m P -> returns (zoom get put m) P.
Proof. intros Hm s a s' Hrun. unfold zoom in Hrun. destruct (m (get s)) as [o t] eqn:H1. simpl in Hrun. simplify_eq. by eapply Hm. Qed.

Lemma returns_mono {S A} (m : M S A) (P Q : A -> Prop) : returns m P -> (forall a, P a -> Q a) -> returns m Q.
Proof. intros Hm Hpq s a s' Hrun. eapply Hpq, Hm, Hrun. Qed.

(** ** The cache does not change requests *)

Section same.
Context (sha256 : bytes -> bytes).

Lemma cache_blocks_same r t ret rb : returns (cache_blocks sha256 r t ret rb) (same_request r).
Proof using.
  assert (Hbase : forall r, returns (base_cache_blocks sha256 r t ret rb) (same_request r)).
  { clear r. intros r. unfold base_cache_blocks. apply returns_skip. intros m. destruct (negb _); [by apply returns_ret|].
    destruct (_ <=? _)%Z; [by apply returns_ret|]. apply returns_skip. intros mask. apply returns_skip. intros bl.
    eapply returns_bind; [apply returns_zoom, returns_wpe; intros p; apply cache_full_blocks_id|]. intros r' Hr'.
    apply returns_skip. intros _. by apply returns_ret. }
  unfold cache_blocks. apply returns_skip. intros k. destruct k; try apply Hbase; try by apply returns_ret.
  1,2: eapply returns_bind; [apply Hbase|]; intros r' Hr'; apply returns_skip; intros s;
    destruct (_ =? _)%Z; [by apply returns_ret|]; unfold cache_partial_tail_block; apply returns_skip; intros s';
    destruct (_ || _); [by apply returns_ret|]; destruct (_ =? 0)%Z; [by apply returns_ret|];
    apply returns_skip; intros bl; destruct (_ <=? _)%Z; [by apply returns_ret|]; apply returns_skip; intros b;
    (eapply returns_bind; [apply returns_zoom, returns_wpe; intros p; apply cache_partial_block_id|]);
    intros [o r2] Hr2; apply returns_ret; by eapply same_request_trans.
  intros s a s' H. discriminate H.
Qed.

Lemma on_mgr_returns {A} i (m : M STState A) P : returns m P -> returns (on_mgr i m) P.
Proof using.
  intros Hm c a c' Hrun. unfold on_mgr in Hrun. destruct (managers c !! i) as [mg|]; [|done].
  destruct (m _) as [o s] eqn:H1. simpl in Hrun. simplify_eq. by eapply Hm.
Qed.

Lemma coord_cache_same r n : returns (coord_cache_blocks sha256 r n) (same_request r).
Proof using.
  unfold coord_cache_blocks. apply returns_skip. intros c. apply returns_fold; [done|]. intros r' i Hr'.
  apply returns_skip. intros m. eapply returns_mono; [apply on_mgr_returns, cache_blocks_same|].
  intros r2 Hr2. by eapply same_request_trans.
Qed.

Lemma allocate_slots_same r a : returns (allocate_slots sha256 r a) (fun x => same_request r x.2).
Proof using.
  unfold allocate_slots. destruct (_ && _); [intros s x s' Hx; discriminate Hx|]. apply returns_skip. intros c.
  apply returns_skip. intros refused. destruct refused; [by apply returns_ret|]. apply returns_skip. intros o.
  destruct o as [nb|]; [|by apply returns_ret]. destruct (_ || _); [by apply returns_ret|].
  eapply returns_bind; [apply coord_cache_same|]. intros r' Hr'. by apply returns_ret.
Qed.

Lemma emit_cached_same r nc bs gid : returns (emit_cached_block_events sha256 r nc bs gid) (same_request r).
Proof using.
  unfold emit_cached_block_events. apply returns_skip. intros p. destruct (_ || _); [by apply returns_ret|].
  apply returns_skip. intros hs. eapply (returns_bind _ _ (fun x => same_request r x.2)).
  - apply returns_fold; [done|]. intros [[[ca keys] idx] r1] i Hr1. unfold emit_cached_body. apply returns_skip. intros h.
    eapply returns_bind; [apply returns_wpe; intros q; apply request_extra_keys_id|]. intros [[ks idx'] r2] Hr2.
    apply returns_ret. by eapply same_request_trans.
  - intros [[[ca keys] idx] r1] Hr1. case_bool_decide; [by apply returns_ret|]. apply returns_skip. intros _.
    by apply returns_ret.
Qed.

Lemma get_computed_same r full : returns (get_computed_blocks sha256 r full) (fun x => same_request r x.2).
Proof using.
  unfold get_computed_blocks. apply returns_skip. intros c. destruct (negb _); [by apply returns_ret|].
  apply returns_skip. intros [[computed n] unc]. eapply (returns_bind _ _ (same_request r)).
  - destruct (_ && _); [|by apply returns_ret]. unfold emit_reused_events. apply returns_skip. intros c'.
    apply returns_fold; [done|]. intros r1 il Hr1. case_bool_decide; [by apply returns_ret|]. apply returns_skip. intros m.
    eapply returns_mono; [apply returns_zoom, emit_cached_same|]. intros r2 Hr2. by eapply same_request_trans.
  - intros r' Hr'. by apply returns_ret.
Qed.
End same.

(** ** Encoder inputs only shorten a step *)

Section encoder.
Context {E : Type} `{EncoderCacheOps E}.

Definition in_order (r : Request) : Prop := keys_sorted mm_offset (mm_features r).

Lemma enc_loop_le is_ed dis ec r nc shift n inputs acc :
  (forall i f, i ∈ inputs -> mm_features r !! i = Some f -> (mm_offset f < nc + n + shift)%Z) ->
  (SchedEncoder.num_new_tokens acc <= Z.max n 0)%Z ->
  returns (enc_loop (S := E) is_ed dis ec r nc shift (nc + n + shift) inputs acc)
    (fun acc' => SchedEncoder.num_new_tokens acc' <= Z.max n 0)%Z.
Proof using.
  revert acc. induction inputs as [|i inputs IH]; intros acc Hin Hacc; simpl; [by apply returns_ret|].
  eapply (returns_bind _ _ (fun x => (SchedEncoder.num_new_tokens x.2 <= Z.max n 0)%Z)).
  - unfold enc_body. intros s [b acc'] s' Hrun. unfold mbind at 1, M_bind at 1, of_option in Hrun.
    destruct (mm_features r !! i) as [f|] eqn:Hf; [|done]. simpl in Hrun.
    pose proof (Hin i f ltac:(by left) Hf) as Hlt. revert Hrun. generalize s as s1. intros s1.
    enough (Hret : returns (if is_ed && (0 <? nc)%Z then massert (mm_offset f =? 0)%Z ;; mret (false, acc) else
      if negb is_ed && bool_decide (identifier f ∈ mm_hashes_to_schedule acc) then mret (false, acc) else _)
      (fun x => (SchedEncoder.num_new_tokens x.2 <= Z.max n 0)%Z)) by (intros Hrun; exact (Hret _ _ _ Hrun)).
    destruct (_ && _); [apply returns_skip; intros _; by apply returns_ret|].
    destruct (_ && _); [by apply returns_ret|]. apply returns_skip. intros cached.
    destruct cached; [by apply returns_ret|]. destruct (_ && _ && _).
    { apply returns_ret. simpl. lia. }
    apply returns_skip. intros ok. destruct (negb ok).
    { apply returns_ret. simpl. destruct (_ <? _)%Z; lia. }
    destruct (get_embeds_indices_in_range _ _ _) as [[cs ce]|e]; [|intros s2 x s3 Hx; discriminate Hx].
    destruct (_ =? 0)%Z; [by apply returns_ret|]. destruct (match ec with Some _ => _ | None => _ end); by apply returns_ret.
  - intros [b acc'] Hacc'. simpl in Hacc'. destruct b; [by apply returns_ret|]. apply IH; [|done].
    intros j f Hj. apply Hin. by right.
Qed.

Lemma try_schedule_le is_ed dis ec r nc n budget shift :
  in_order r ->
  returns (try_schedule_encoder_inputs (S := E) is_ed dis ec r nc n budget shift) (fun x => x.1.1.2 <= Z.max n 0)%Z.
Proof using.
  intros Hs. unfold try_schedule_encoder_inputs. destruct (_ || _); [apply returns_ret; simpl; lia|].
  apply returns_skip. intros _. unfold get_mm_features_in_window.
  destruct (bisect_left_spec mm_offset (mm_features r) (nc + n + shift) Hs) as [_ Hb].
  eapply returns_bind; [apply (enc_loop_le is_ed dis ec r nc shift n)|].
  - intros i f [Hlo Hhi]%elem_of_seq Hf. apply (Hb i f Hf). destruct is_ed; lia.
  - simpl. lia.
  - intros acc Hacc. by apply returns_ret.
Qed.
End encoder.

(** ** What the loops leave alone *)

Section inv.
Context {E : Type} `{EncoderCacheOps E, EncoderCacheFree E}.
Local Abbreviation Sch := (Scheduler E).

Definition ok {A} (m : M Sch A) (Q : A -> Sch -> Prop) (s : Sch) : Prop := wpe m Q (fun _ => True) s.

(** The same configuration, running list and requests; a request's features are fixed. *)
Record frame (s s' : Sch) : Prop := {
  fr_cfg : config s' = config s;
  fr_running : running s' = running s;
  fr_stream : num_waiting_for_streaming_input s' = num_waiting_for_streaming_input s;
  fr_pause : pause_state s' = pause_state s;
  fr_reqs rid r' : requests s' !! rid = Some r' -> exists r, requests s !! rid = Some r /\ mm_features r' = mm_features r;
}.

Lemma frame_refl s : frame s s.
Proof using. split; try done. intros rid r' Hr. by exists r'. Qed.

Lemma frame_trans s1 s2 s3 : frame s1 s2 -> frame s2 s3 -> frame s1 s3.
Proof using.
  intros [A1 B1 C1 D1 F1] [A2 B2 C2 D2 F2]. split; [congruence..|]. intros rid r3 Hr.
  destruct (F2 rid r3 Hr) as (r2 & Hr2 & Hf2). destruct (F1 rid r2 Hr2) as (r1 & Hr1 & Hf1). exists r1. split; [done|congruence].
Qed.

#[local] Instance frame_preorder : PreOrder frame.
Proof using. split; [exact frame_refl|exact frame_trans]. Qed.

(** Framed programs compose. *)
Lemma ok_bind {A B} (m : M Sch A) (k : A -> M Sch B) Q s : ok m (fun a s' => ok (k a) Q s') s -> ok (mbind k m) Q s.
Proof using. unfold ok. by rewrite wpe_bind. Qed.

Lemma ok_mono {A} (m : M Sch A) (Q R : A -> Sch -> Prop) s : ok m Q s -> (forall a s', Q a s' -> R a s') -> ok m R s.
Proof using. intros Hm HR. eapply wpe_mono; [exact Hm|exact HR|done]. Qed.

Lemma ok_returns {A} (m : M Sch A) (P : A -> Prop) Q s : returns m P -> ok m Q s -> ok m (fun a s' => P a /\ Q a s') s.
Proof using.
  intros HP HQ. eapply wpe_both; [|exact HQ]. exact (proj1 (returns_wpe m P) HP s).
Qed.

Lemma ok_both {A} (m : M Sch A) (P Q : A -> Sch -> Prop) s : ok m P s -> ok m Q s -> ok m (fun a s' => P a s' /\ Q a s') s.
Proof using. intros HP HQ. by eapply wpe_both. Qed.

Lemma ok_gets {A} (f : Sch -> A) Q s : Q (f s) s -> ok (gets f) Q s.
Proof using. done. Qed.

Lemma ok_of_option {A} e (o : option A) Q s : (forall a, o = Some a -> Q a s) -> ok (of_option e o) Q s.
Proof using. intros HQ. by apply wpe_of_option. Qed.

Lemma ok_assert (b : bool) Q s : (b = true -> Q tt s) -> ok (massert b) Q s.
Proof using. intros HQ. by apply wpe_assert. Qed.

Lemma ok_get_request rid Q s : (forall r, requests s !! rid = Some r -> Q r s) -> ok (get_request rid) Q s.
Proof using. intros HQ. unfold get_request. apply ok_bind, ok_gets. by apply ok_of_option. Qed.

Lemma ok_frame_kv {A} (m : M KVCache A) s : ok (on_kv m) (fun _ s' => frame s s' /\ requests s' = requests s) s.
Proof using.
  unfold ok, on_kv. rewrite wpe_zoom. unfold wpe. destruct (m _) as [[a|e] k]; [|done].
  split; [|done]. split; try done. intros rid r' Hr. by exists r'.
Qed.

Lemma ok_frame_enc {A} (m : M E A) s : ok (on_encoder_cache m) (fun _ s' => frame s s' /\ requests s' = requests s) s.
Proof using.
  unfold ok, on_encoder_cache. rewrite wpe_zoom. unfold wpe. destruct (m _) as [[a|e] k]; [|done].
  split; [|done]. split; try done. intros rid r' Hr. by exists r'.
Qed.

Lemma ok_put rid r r' Q s :
  requests s !! rid = Some r -> mm_features r' = mm_features r ->
  (frame s (s <| requests := <[rid := r']> (requests s) |>) -> Q tt (s <| requests := <[rid := r']> (requests s) |>)) ->
  ok (put_request rid r') Q s.
Proof using.
  intros Hr Hf HQ. unfold ok, put_request. rewrite wpe_modify. apply HQ. split; try done. simpl. intros x y Hxy.
  destruct (decide (x = rid)) as [->|Hne].
  - rewrite lookup_insert_eq in Hxy. injection Hxy as <-. by exists r.
  - rewrite lookup_insert_ne in Hxy by done. by exists y.
Qed.

Lemma frame_queues s w k p i :
  frame s (s <| waiting := w |> <| skipped_waiting := k |> <| reset_preempted_req_ids := p |> <| inflight_prefills := i |>).
Proof using. split; try done. intros rid r' Hr. by exists r'. Qed.

Lemma preempt_frame rid drop s : ok (preempt_request rid drop) (fun _ s' => frame s s') s.
Proof using.
  unfold preempt_request. apply ok_bind, ok_get_request. intros r Hr. apply ok_bind, ok_assert. intros _.
  apply ok_bind. eapply ok_mono; [apply ok_frame_kv|]. intros _ s1 [F1 R1].
  apply ok_bind. eapply ok_mono; [apply ok_frame_enc|]. intros _ s2 [F2 R2].
  apply ok_bind. unfold ok at 1. rewrite wpe_modify. apply ok_bind.
  set (s3 := s2 <| inflight_prefills := _ |>). assert (F3 : frame s s3).
  { etrans; [exact F1|]. etrans; [exact F2|]. split; try done. intros x y Hxy. by exists y. }
  eapply ok_put; [change (requests s3) with (requests s2); by rewrite R2, R1|done|]. intros F4. unfold ok. rewrite wpe_modify.
  etrans; [exact F3|]. etrans; [exact F4|]. split; try done. intros x y Hxy. by exists y.
Qed.

(** ** The loop over the running requests *)

Lemma sum_tokens_snoc d k n : sum_tokens (d ++ [(k, n)]) = (sum_tokens d + n)%Z.
Proof using. unfold sum_tokens. rewrite fmap_app. simpl. induction (d.*2) as [|x l IH]; simpl in *; lia. Qed.

Lemma sum_tokens_del d k n :
  NoDup d.*1 -> odict_get k d = Some n -> sum_tokens (odict_del k d) = (sum_tokens d - n)%Z.
Proof using.
  unfold sum_tokens, odict_del. induction d as [|[k' n'] d IH]; intros Hnd Hg; [done|]. csimpl in *. simpl in Hg.
  apply NoDup_cons in Hnd as [Hk Hnd]. destruct (decide (k' = k)) as [->|Hne].
  - injection Hg as <-. rewrite filter_cons_False by (simpl; naive_solver). rewrite list_filter_all; [lia|].
    intros [k2 n2] Hin. simpl. intros ->. apply Hk. apply list_elem_of_fmap. by exists (k, n2).
  - rewrite filter_cons_True by done. csimpl. rewrite (IH Hnd Hg). lia.
Qed.

Lemma remove_first_filter (x : string) l : NoDup l -> SchedUtils.remove_first x l = filter (.≠ x) l.
Proof using.
  induction 1 as [|y l Hy Hl IH]; [done|]. simpl. rewrite filter_cons. case_decide as Hyx; case_decide; try done.
  - subst y. symmetry. apply list_filter_all. by intros z Hz ->.
  - by rewrite IH.
Qed.

(** The local variables agree with each other and with the running list, in a step with
    [T] tokens and [B] input slots. *)
Record run_inv (c : SchedulerConfig) (T B : Z) (s : Sch) (v : step_vars) : Prop := {
  ri_config : config s = c;
  ri_reqs rid r : requests s !! rid = Some r -> in_order r;
  ri_nodup : NoDup (running s);
  ri_index : req_index v <= length (running s);
  ri_max : (zlen (running s) <= max_num_running_reqs c)%Z;
  ri_stream : (0 <= num_waiting_for_streaming_input s)%Z;
  ri_new : scheduled_new_reqs v = [] /\ scheduled_resumed_reqs v = [];
  ri_sched : NoDup (scheduled_running_reqs v);
  ri_sub x : x ∈ scheduled_running_reqs v -> x ∈ take (req_index v) (running s);
  ri_keys : (num_scheduled_tokens v).*1 = scheduled_running_reqs v;
  ri_blocks : (req_to_new_blocks v).*1 = scheduled_running_reqs v;
  ri_pos : Forall (fun kv => 0 < kv.2)%Z (num_scheduled_tokens v);
  ri_token : (token_budget v + sum_tokens (num_scheduled_tokens v) = T /\ 0 <= token_budget v)%Z;
  ri_input : (input_budget v + sum_tokens (num_scheduled_tokens v) +
    draft_slots c * zlen (scheduled_running_reqs v) = B /\ 0 <= input_budget v)%Z;
  ri_pre x : x ∈ preempted_reqs v -> x ∉ running s;
}.

Lemma run_inv_frame c T B s s' v : frame s s' -> run_inv c T B s v -> run_inv c T B s' v.
Proof using.
  intros [F1 F2 F3 F4 F5] [R1 R2 R3 R4 R5 R6 R7 R8 R9 R10 R11 R12 R13 R14 R15].
  split; rewrite ?F1, ?F2, ?F3; try done. intros rid r' Hr. destruct (F5 rid r' Hr) as (r & Hr0 & Hf).
  unfold in_order. rewrite Hf. by eapply R2.
Qed.

Lemma run_inv_sched_in c T B s v x : run_inv c T B s v -> x ∈ scheduled_running_reqs v -> x ∈ running s.
Proof using.
  intros Hr Hx. apply (ri_sub _ _ _ _ _ Hr) in Hx. apply list_elem_of_lookup_1 in Hx as [i Hi].
  apply lookup_take_Some in Hi as [Hi _]. by eapply list_elem_of_lookup_2.
Qed.

(** A scheduled victim leaves all tables. *)
Lemma unschedule_ok c T B s v rid :
  config s = c -> NoDup (scheduled_running_reqs v) -> (num_scheduled_tokens v).*1 = scheduled_running_reqs v ->
  Forall (fun kv => 0 < kv.2)%Z (num_scheduled_tokens v) ->
  (token_budget v + sum_tokens (num_scheduled_tokens v) = T /\ 0 <= token_budget v)%Z ->
  (input_budget v + sum_tokens (num_scheduled_tokens v) + draft_slots c * zlen (scheduled_running_reqs v) = B /\
   0 <= input_budget v)%Z ->
  rid ∈ scheduled_running_reqs v -> (0 <= draft_slots c)%Z ->
  ok (unschedule rid v) (fun v' s' => s' = s /\ scheduled_running_reqs v' = filter (.≠ rid) (scheduled_running_reqs v) /\
    req_index v' = req_index v /\ preempted_reqs v' = preempted_reqs v /\
    scheduled_new_reqs v' = scheduled_new_reqs v /\ scheduled_resumed_reqs v' = scheduled_resumed_reqs v /\
    num_scheduled_tokens v' = odict_del rid (num_scheduled_tokens v) /\
    req_to_new_blocks v' = odict_del rid (req_to_new_blocks v) /\
    (token_budget v' + sum_tokens (num_scheduled_tokens v') = T /\ 0 <= token_budget v')%Z /\
    (input_budget v' + sum_tokens (num_scheduled_tokens v') + draft_slots c * zlen (scheduled_running_reqs v') = B /\
     0 <= input_budget v')%Z /\
    (token_budget v <= token_budget v' /\ input_budget v <= input_budget v')%Z) s.
Proof using.
  intros Hcfg Hnd Hk Hpos Htok Hinp Hin Hds. unfold unschedule. apply ok_bind, ok_of_option. intros n Hn.
  apply ok_bind, ok_of_option. intros b Hb. apply ok_bind, ok_gets. rewrite Hcfg.
  apply ok_bind, ok_get_request. intros r Hreq. apply ok_bind.
  assert (Hsum : ok (sum_encoder_embeds r (default [] (odict_get rid (scheduled_encoder_inputs v)))) (fun _ s' => s' = s) s).
  { unfold sum_encoder_embeds, ok. apply (wpe_fold _ (fun s' => s' = s)); [done|done|]. intros i acc s1 _ ->.
    unfold lift_out. by destruct (get_num_encoder_embeds r (Z.of_nat i)). }
  eapply ok_mono; [exact Hsum|]. intros embeds s' ->. simpl.
  assert (Hn0 : (0 < n)%Z).
  { apply odict_get_elem in Hn. exact (proj1 (Forall_forall _ _) Hpos _ Hn). }
  assert (Hdel : sum_tokens (odict_del rid (num_scheduled_tokens v)) = (sum_tokens (num_scheduled_tokens v) - n)%Z).
  { apply sum_tokens_del; [by rewrite Hk|done]. }
  assert (Hlen : zlen (scheduled_running_reqs v) = (zlen (filter (.≠ rid) (scheduled_running_reqs v)) + 1)%Z).
  { rewrite <- remove_first_filter by done. clear -Hin. induction (scheduled_running_reqs v) as [|y l IH]; [by apply elem_of_nil in Hin|].
    simpl. unfold zlen in *. simpl. case_decide; [lia|]. simpl. apply elem_of_cons in Hin as [->|Hin]; [done|]. specialize (IH Hin). lia. }
  destruct Htok, Hinp. rewrite remove_first_filter by done. split_and!; simpl; try done; rewrite ?Hdel; lia.
Qed.

Lemma odict_del_absent {V} k (d : list (string * V)) : k ∉ d.*1 -> odict_del k d = d.
Proof using.
  intros Hk. apply list_filter_all. intros [k2 n2] Hin. simpl. intros ->. apply Hk. apply list_elem_of_fmap. by exists (k, n2).
Qed.

Lemma sum_tokens_forall_del k (d : list (string * Z)) :
  Forall (fun kv => 0 < kv.2)%Z d -> Forall (fun kv => 0 < kv.2)%Z (odict_del k d).
Proof using. rewrite !Forall_forall. intros Hd kv [Hin _]%elem_of_odict_del. by apply Hd. Qed.

(** The element at [i] is gone, the others stay where they were or move down by one. *)
Lemma lookup_delete_other {A} (l : list A) i j x :
  l !! j = Some x -> i <> j -> delete i l !! (if decide (i < j) then j - 1 else j) = Some x.
Proof using.
  intros Hj Hij. case_decide as Hlt.
  - rewrite list_lookup_delete_ge by lia. by replace (S (j - 1)) with j by lia.
  - by rewrite list_lookup_delete_lt by lia.
Qed.

(** Taking a victim out of the running list. *)
Lemma victim_inv c T B s v v' i victim :
  run_inv c T B s v -> running s !! i = Some victim ->
  req_index v' = (if decide (i < req_index v) then req_index v - 1 else req_index v) ->
  req_index v < length (running s) ->
  scheduled_running_reqs v' = filter (.≠ victim) (scheduled_running_reqs v) ->
  num_scheduled_tokens v' = odict_del victim (num_scheduled_tokens v) ->
  req_to_new_blocks v' = odict_del victim (req_to_new_blocks v) ->
  preempted_reqs v' = preempted_reqs v ->
  scheduled_new_reqs v' = scheduled_new_reqs v -> scheduled_resumed_reqs v' = scheduled_resumed_reqs v ->
  (token_budget v' + sum_tokens (num_scheduled_tokens v') = T /\ 0 <= token_budget v')%Z ->
  (input_budget v' + sum_tokens (num_scheduled_tokens v') + draft_slots c * zlen (scheduled_running_reqs v') = B /\
   0 <= input_budget v')%Z ->
  run_inv c T B (s <| running := delete i (running s) |>) v' /\ victim ∉ delete i (running s).
Proof using.
  intros Hr Hi Hidx Hlt Hs Hn Hb Hp Hnew Hres Ht Hin.
  destruct Hr as [R1 R2 R3 R4 R5 R6 R7 R8 R9 R10 R11 R12 R13 R14 R15]. pose proof (lookup_lt_Some _ _ _ Hi) as Hil.
  assert (Hlen : length (delete i (running s)) = length (running s) - 1) by (apply length_delete; by exists victim).
  assert (Hsub : forall x, x ∈ delete i (running s) -> x ∈ running s /\ x <> victim).
  { intros x [j Hj]%list_elem_of_lookup_1. destruct (decide (j < i)) as [Hji|Hji].
    - rewrite list_lookup_delete_lt in Hj by lia. split; [by eapply list_elem_of_lookup_2|]. intros ->.
      pose proof (NoDup_lookup _ _ _ _ R3 Hj Hi). lia.
    - rewrite list_lookup_delete_ge in Hj by lia. split; [by eapply list_elem_of_lookup_2|]. intros ->.
      pose proof (NoDup_lookup _ _ _ _ R3 Hj Hi). lia. }
  split; [|by intros Hv%Hsub; destruct Hv].
  split; simpl; rewrite ?Hs, ?Hn, ?Hb, ?Hp, ?Hnew, ?Hres; try done.
  - eapply sublist_NoDup; [apply R3|apply sublist_delete].
  - rewrite Hlen, Hidx. case_decide; lia.
  - unfold zlen in *. rewrite Hlen. lia.
  - by apply NoDup_filter.
  - intros x [Hxv Hx]%list_elem_of_filter. apply R9 in Hx. apply list_elem_of_lookup_1 in Hx as [j Hj].
    apply lookup_take_Some in Hj as [Hj Hjk]. assert (Hij : i <> j) by (intros ->; congruence).
    pose proof (lookup_delete_other _ _ _ _ Hj Hij) as Hd. eapply list_elem_of_lookup_2. apply lookup_take_Some.
    split; [exact Hd|]. rewrite Hidx. repeat case_decide; lia.
  - by rewrite odict_keys_del, R10.
  - by rewrite odict_keys_del, R11.
  - by apply sum_tokens_forall_del.
  - by rewrite <- Hn.
  - by rewrite <- Hn, <- Hs.
  - intros x Hx Hin'. apply Hsub in Hin' as [Hin' _]. by eapply R15.
Qed.

(** The state outside the running list. *)
Definition same_rest (s s' : Sch) : Prop := s' = s <| running := running s' |>.

(** [take_victim]: one running request less, and the current request is still at the cursor
    unless it is the victim. *)
Definition victim_post (c : SchedulerConfig) (T B : Z) (s : Sch) (v : step_vars) (rid : string) (x : string * step_vars) (s' : Sch) : Prop :=
  same_rest s s' /\ run_inv c T B s' x.2 /\ (x.1 ∉ running s') /\ (x.1 ∈ running s) /\
  S (length (running s')) = length (running s) /\ (forall y, y ∈ running s' -> y ∈ running s) /\
  (x.1 <> rid -> running s' !! req_index x.2 = Some rid) /\
  length (running s') - req_index x.2 <= length (running s) - req_index v /\
  (token_budget v <= token_budget x.2 /\ input_budget v <= input_budget x.2)%Z.

Lemma delete_post c T B s v v' i victim rid :
  run_inv c T B s v -> running s !! req_index v = Some rid -> running s !! i = Some victim ->
  run_inv c T B (s <| running := delete i (running s) |>) v' /\ victim ∉ delete i (running s) ->
  req_index v' = (if decide (i < req_index v) then req_index v - 1 else req_index v) ->
  (token_budget v <= token_budget v' /\ input_budget v <= input_budget v')%Z ->
  victim_post c T B s v rid (victim, v') (s <| running := delete i (running s) |>).
Proof using.
  intros Hr Hrid Hi [Hinv Hout] Hidx [Hb1 Hb2]. pose proof (lookup_lt_Some _ _ _ Hi). split_and!; simpl; try done.
  - by eapply list_elem_of_lookup_2.
  - rewrite length_delete by (by exists victim). lia.
  - intros y Hy. eapply elem_of_submseteq; [exact Hy|]. apply sublist_submseteq, sublist_delete.
  - intros Hne. rewrite Hidx. apply lookup_delete_other; [done|]. intros ->. congruence.
  - rewrite length_delete, Hidx by (by exists victim). case_decide; lia.
Qed.

Lemma take_victim_ok c T B s v rid :
  run_inv c T B s v -> (0 <= draft_slots c)%Z -> running s !! req_index v = Some rid ->
  ok (take_victim v) (victim_post c T B s v rid) s.
Proof using.
  intros Hr Hds Hrid. pose proof (lookup_lt_Some _ _ _ Hrid) as Hlt. unfold take_victim. apply ok_bind, ok_gets. unfold id.
  destruct (ri_token _ _ _ _ _ Hr), (ri_input _ _ _ _ _ Hr).
  assert (Hkeep : forall x, x ∉ scheduled_running_reqs v ->
    scheduled_running_reqs v = filter (.≠ x) (scheduled_running_reqs v) /\
    num_scheduled_tokens v = odict_del x (num_scheduled_tokens v) /\ req_to_new_blocks v = odict_del x (req_to_new_blocks v)).
  { intros x Hx. split_and!.
    - symmetry. apply list_filter_all. by intros y Hy ->.
    - symmetry. apply odict_del_absent. by rewrite (ri_keys _ _ _ _ _ Hr).
    - symmetry. apply odict_del_absent. by rewrite (ri_blocks _ _ _ _ _ Hr). }
  destruct (policy (config s)).
  - apply ok_bind, ok_of_option. intros victim Hv. rewrite last_lookup in Hv.
    apply ok_bind. unfold ok at 1. rewrite wpe_modify.
    replace (take (length (running s) - 1) (running s)) with (delete (pred (length (running s))) (running s)).
    2:{ rewrite delete_take_drop, drop_ge, app_nil_r by lia. f_equal. lia. }
    assert (Hout : victim ∉ scheduled_running_reqs v).
    { intros Hin. apply (ri_sub _ _ _ _ _ Hr) in Hin. apply list_elem_of_lookup_1 in Hin as [j Hj].
      apply lookup_take_Some in Hj as [Hj Hjk]. pose proof (NoDup_lookup _ _ _ _ (ri_nodup _ _ _ _ _ Hr) Hj Hv). lia. }
    destruct (Hkeep victim Hout) as (K1 & K2 & K3). unfold ok. rewrite wpe_ret.
    eapply delete_post; try done; [|rewrite decide_False by lia; done].
    eapply victim_inv; try done; rewrite decide_False by lia; done.
  - apply ok_bind, ok_of_option. intros victim Hv. apply ok_bind, ok_of_option. intros [i y] (Hi & -> & _)%list_find_Some.
    apply ok_bind. unfold ok at 1. rewrite wpe_modify. set (v1 := if decide (i < req_index v) then _ else v).
    assert (Hidx : req_index v1 = (if decide (i < req_index v) then req_index v - 1 else req_index v)).
    { unfold v1. by case_decide. }
    assert (Hv1 : forall x, x ∉ scheduled_running_reqs v -> x = victim ->
      run_inv c T B (s <| running := delete i (running s) |>) v1 /\ victim ∉ delete i (running s)).
    { intros x Hx ->. destruct (Hkeep victim Hx) as (K1 & K2 & K3).
      eapply victim_inv; try done; unfold v1; case_decide; done. }
    apply ok_bind. destruct (decide (victim ∈ scheduled_running_reqs v1)) as [Hin|Hin].
    + assert (Hsame : scheduled_running_reqs v1 = scheduled_running_reqs v /\ num_scheduled_tokens v1 = num_scheduled_tokens v /\
        req_to_new_blocks v1 = req_to_new_blocks v /\ preempted_reqs v1 = preempted_reqs v /\
        scheduled_new_reqs v1 = scheduled_new_reqs v /\ scheduled_resumed_reqs v1 = scheduled_resumed_reqs v /\
        token_budget v1 = token_budget v /\ input_budget v1 = input_budget v).
      { unfold v1. case_decide; done. }
      destruct Hsame as (S1 & S2 & S3 & S4 & S5 & S6 & S7 & S8).
      eapply ok_mono; [apply (unschedule_ok c T B); rewrite ?S1, ?S2, ?S7, ?S8; try apply Hr; [by rewrite <- S1|done]|].
      intros v2 s2 (-> & U1 & U2 & U3 & U4 & U5 & U6 & U7 & U8 & U9 & U10). unfold ok. rewrite wpe_ret.
      rewrite S1, S2, S3, S4, S5, S6, ?S7, ?S8 in *. eapply delete_post; try done; [|by rewrite U2].
      eapply victim_inv; try done. by rewrite U2.
    + unfold ok. rewrite !wpe_ret. eapply delete_post; try done; [|unfold v1; case_decide; done].
      apply (Hv1 victim); [|done]. unfold v1 in Hin. by case_decide.
Qed.

Context (sha256 : bytes -> bytes).

(** [frame] up to the running list. *)
Definition loose (s s' : Sch) : Prop := frame s (s' <| running := running s |>).

Lemma frame_loose s s' : frame s s' -> loose s s'.
Proof using. intros [F1 F2 F3 F4 F5]. by split. Qed.

Lemma loose_trans s1 s2 s3 : loose s1 s2 -> loose s2 s3 -> loose s1 s3.
Proof using.
  intros [A1 B1 C1 D1 F1] [A2 B2 C2 D2 F2]. simpl in *. split; simpl; [congruence|done|congruence..|]. intros rid r3 Hr.
  destruct (F2 rid r3 Hr) as (r2 & Hr2 & Hf2). destruct (F1 rid r2 Hr2) as (r1 & Hr1 & Hf1). exists r1. split; [done|congruence].
Qed.

Lemma same_rest_loose s s' : same_rest s s' -> loose s s'.
Proof using. intros ->. split; try done. simpl. intros rid r Hr. by exists r. Qed.

(** The loop around [allocate_slots] keeps the tables; with slots, the request is still at
    the cursor. *)
Lemma allocate_or_preempt_ok c T B fuel rid n s v :
  run_inv c T B s v -> (0 <= draft_slots c)%Z -> running s !! req_index v = Some rid ->
  ok (allocate_or_preempt sha256 fuel rid n v) (fun x s' => run_inv c T B s' x.2 /\ loose s s' /\
    length (running s') <= length (running s) /\
    length (running s') - req_index x.2 <= length (running s) - req_index v /\
    (token_budget v <= token_budget x.2 /\ input_budget v <= input_budget x.2)%Z /\
    (x.1 <> None -> running s' !! req_index x.2 = Some rid)) s.
Proof using.
  intros Hr Hds Hrid. revert s v Hr Hrid. induction fuel as [|fuel IH]; intros s v Hr Hrid; [done|]. cbn [allocate_or_preempt].
  apply ok_bind, ok_get_request. intros r Hreq. apply ok_bind, ok_gets. unfold id. apply ok_bind.
  eapply ok_mono; [apply ok_returns; [apply returns_zoom, allocate_slots_same|apply ok_frame_kv]|].
  intros [b r'] s1 [Hsame [F1 R1]]. simpl in Hsame. apply ok_bind. eapply ok_put; [by rewrite R1|by rewrite Hsame|].
  set (s2 := s1 <| requests := _ |>). intros F2. pose proof (frame_trans _ _ _ F1 F2) as F.
  pose proof (run_inv_frame _ _ _ _ _ _ F Hr) as Hr2. pose proof (fr_running _ _ F) as Hrun.
  destruct b as [b|].
  { unfold ok. rewrite wpe_ret. cbn [fst snd]. rewrite Hrun. split_and!; [done|by apply frame_loose|done|done|lia|lia|done]. }
  apply ok_bind. eapply ok_mono; [apply (take_victim_ok c T B s2 v rid Hr2 Hds); by rewrite Hrun|].
  intros [victim v3] s3 (S3 & I3 & O3 & _ & L3 & In3 & P3 & D3 & B3). simpl in *. apply ok_bind.
  eapply ok_mono; [apply preempt_frame|]. intros [] s4 F4.
  pose proof (run_inv_frame _ _ _ _ _ _ F4 I3) as I4. pose proof (fr_running _ _ F4) as Hrun4.
  set (v4 := v3 <| preempted_reqs := preempted_reqs v3 ++ [victim] |>).
  assert (I5 : run_inv c T B s4 v4).
  { destruct I4 as [G1 G2 G3 G4 G5 G6 G7 G8 G9 G10 G11 G12 G13 G14 G15]. split; try done. simpl.
    intros x [Hx| ->%list_elem_of_singleton]%elem_of_app; [by apply G15|by rewrite Hrun4]. }
  assert (Hl : loose s s4).
  { eapply loose_trans; [by apply frame_loose|]. eapply loose_trans; [by apply same_rest_loose|]. by apply frame_loose. }
  rewrite Hrun in L3, D3.
  case_decide as Hv.
  - unfold ok. rewrite wpe_ret. simpl. rewrite Hrun4. split_and!; [done|done|lia|done|lia|lia|done].
  - eapply ok_mono; [apply (IH s4 v4 I5); simpl; rewrite Hrun4; by apply P3|].
    intros [b' v5] s5 (J1 & J2 & J3 & J4 & J5 & J6). simpl in *. rewrite Hrun4 in J3, J4.
    split_and!; [done|by eapply loose_trans|lia|lia|lia|lia|done].
Qed.

Lemma schedule_encoder_ok r computed n budget s :
  in_order r ->
  ok (schedule_encoder_inputs r computed n budget)
    (fun x s' => (x.1.1.2 <= Z.max n 0)%Z /\ frame s s' /\ requests s' = requests s) s.
Proof using.
  intros Ho. unfold schedule_encoder_inputs. apply ok_bind, ok_gets. destruct (has_encoder_inputs r).
  - apply ok_returns; [apply returns_zoom; by apply try_schedule_le|apply ok_frame_enc].
  - unfold ok. rewrite wpe_ret. split_and!; [simpl; lia|apply frame_refl|done].
Qed.

(** The tokens of a running request fit the budgets. *)
Lemma running_tokens_fit c v r n :
  (n <= Z.max (running_new_tokens c v r) 0)%Z ->
  let m := reserve_prefill_lookahead c r (num_computed_tokens r) n in
  m <> 0%Z -> (0 < m <= token_budget v /\ m + draft_slots c <= input_budget v)%Z.
Proof using.
  unfold running_new_tokens, reserve_prefill_lookahead. intros Hn Hm.
  destruct (_ && _)%bool eqn:Hr in Hm |- *; destruct (_ && _)%bool eqn:Hl in Hn; lia.
Qed.

(** Recording a running request. *)
Lemma record_running c T B s v rid n b pf :
  run_inv c T B s v -> running s !! req_index v = Some rid ->
  (0 < n <= token_budget v)%Z -> (n + draft_slots c <= input_budget v)%Z ->
  run_inv c T B s (v <| scheduled_running_reqs := scheduled_running_reqs v ++ [rid] |> <| prefill_scheduled := pf |>
    <| req_to_new_blocks := odict_set rid b (req_to_new_blocks v) |>
    <| num_scheduled_tokens := odict_set rid n (num_scheduled_tokens v) |>
    <| token_budget := (token_budget v - n)%Z |> <| input_budget := (input_budget v - (n + draft_slots c))%Z |>
    <| req_index := req_index v + 1 |>).
Proof using.
  intros [R1 R2 R3 R4 R5 R6 R7 R8 R9 R10 R11 R12 R13 R14 R15] Hrid Hn Hi. pose proof (lookup_lt_Some _ _ _ Hrid) as Hlt.
  assert (Hnew : rid ∉ scheduled_running_reqs v).
  { intros Hin%R9. apply list_elem_of_lookup_1 in Hin as [j Hj]. apply lookup_take_Some in Hj as [Hj Hjk].
    pose proof (NoDup_lookup _ _ _ _ R3 Hj Hrid). lia. }
  rewrite !odict_set_new by congruence.
  assert (Htake : take (req_index v + 1) (running s) = take (req_index v) (running s) ++ [rid]).
  { rewrite Nat.add_1_r. by apply take_S_r. }
  split; simpl; try done.
  - lia.
  - apply NoDup_app. split_and!; [done| |apply NoDup_singleton]. by intros x Hx ->%list_elem_of_singleton.
  - intros x. rewrite Htake, !elem_of_app. intros [Hx|Hx]; [left; by apply R9|by right].
  - by rewrite fmap_app, R10.
  - by rewrite fmap_app, R11.
  - apply Forall_app. split; [done|]. constructor; [simpl; lia|constructor].
  - rewrite sum_tokens_snoc. lia.
  - rewrite sum_tokens_snoc. unfold zlen in *. rewrite length_app. simpl. lia.
Qed.

(** Only tables that the invariant does not mention change. *)
Lemma run_inv_vars c T B s v v' :
  run_inv c T B s v -> req_index v' = req_index v -> scheduled_running_reqs v' = scheduled_running_reqs v ->
  num_scheduled_tokens v' = num_scheduled_tokens v -> req_to_new_blocks v' = req_to_new_blocks v ->
  preempted_reqs v' = preempted_reqs v -> scheduled_new_reqs v' = scheduled_new_reqs v ->
  scheduled_resumed_reqs v' = scheduled_resumed_reqs v -> token_budget v' = token_budget v ->
  input_budget v' = input_budget v -> run_inv c T B s v'.
Proof using.
  intros [R1 R2 R3 R4 R5 R6 R7 R8 R9 R10 R11 R12 R13 R14 R15] E1 E2 E3 E4 E5 E6 E7 E8 E9.
  split; rewrite ?E1, ?E2, ?E3, ?E4, ?E5, ?E6, ?E7, ?E8, ?E9; done.
Qed.

Definition vars_eq (v v' : step_vars) : Prop :=
  req_index v' = req_index v /\ scheduled_running_reqs v' = scheduled_running_reqs v /\
  num_scheduled_tokens v' = num_scheduled_tokens v /\ req_to_new_blocks v' = req_to_new_blocks v /\
  preempted_reqs v' = preempted_reqs v /\ scheduled_new_reqs v' = scheduled_new_reqs v /\
  scheduled_resumed_reqs v' = scheduled_resumed_reqs v /\ token_budget v' = token_budget v /\
  input_budget v' = input_budget v.

Lemma spec_tokens_ok rid n v s :
  ok (schedule_spec_tokens rid n v) (fun v' s' => vars_eq v v' /\ frame s s') s.
Proof using.
  unfold schedule_spec_tokens. apply ok_bind, ok_get_request. intros r Hr. case_decide.
  - split; [done|apply frame_refl].
  - apply ok_bind. eapply ok_put; [exact Hr|done|]. intros F. unfold ok. rewrite wpe_ret. split; [|done].
    by destruct (_ <? _)%Z.
Qed.

Lemma record_encoder_ok rid inputs external budget v s :
  ok (record_encoder_inputs rid inputs external budget v) (fun v' s' => vars_eq v v' /\ frame s s') s.
Proof using.
  unfold record_encoder_inputs. apply ok_bind, ok_get_request. intros r Hr. apply ok_bind.
  eapply ok_mono; [apply ok_frame_enc|]. intros [] s1 [F1 _]. unfold ok. rewrite wpe_ret. split; [|done]. by case_decide.
Qed.

Lemma run_inv_skip c T B s v :
  run_inv c T B s v -> req_index v < length (running s) -> run_inv c T B s (v <| req_index := req_index v + 1 |>).
Proof using.
  intros [R1 R2 R3 R4 R5 R6 R7 R8 R9 R10 R11 R12 R13 R14 R15] Hlt. split; simpl; try done; [lia|].
  intros x Hx%R9. apply list_elem_of_lookup_1 in Hx as [j Hj]. apply lookup_take_Some in Hj as [Hj Hjk].
  eapply list_elem_of_lookup_2. apply lookup_take_Some. split; [exact Hj|lia].
Qed.

(** One round: it moves the cursor or removes a running request, or it stops the loop. *)
Lemma schedule_one_running_ok c T B defer s v :
  run_inv c T B s v -> (0 <= draft_slots c)%Z -> req_index v < length (running s) ->
  ok (schedule_one_running sha256 defer v) (fun o s' => loose s s' /\
    match o with
    | inl v' => run_inv c T B s' v' /\ length (running s') - req_index v' < length (running s) - req_index v
    | inr v' => run_inv c T B s' v'
    end) s.
Proof using.
  intros Hr Hds Hlt. unfold schedule_one_running. apply ok_bind, ok_gets. unfold id.
  apply ok_bind, ok_of_option. intros rid Hrid. apply ok_bind, ok_get_request. intros r Hreq.
  rewrite (ri_config _ _ _ _ _ Hr). destruct (_ <=? _)%Z; [by split; [apply frame_loose, frame_refl|]|].
  assert (Hskip : forall s', frame s s' -> loose s s' /\ run_inv c T B s' (v <| req_index := req_index v + 1 |>) /\
    length (running s') - (req_index v + 1) < length (running s) - req_index v).
  { intros s' F. split_and!; [by apply frame_loose| |rewrite (fr_running _ _ F); lia].
    apply run_inv_skip; [by eapply run_inv_frame|by rewrite (fr_running _ _ F)]. }
  destruct (passed_over s defer r); [apply Hskip, frame_refl|]. apply ok_bind.
  eapply ok_mono; [apply schedule_encoder_ok; by eapply (ri_reqs _ _ _ _ _ Hr)|].
  intros [[[inputs n] budget] external] s1 (Hn & F1 & R1). simpl in Hn.
  set (m := reserve_prefill_lookahead c r (num_computed_tokens r) n). destruct (Z.eqb_spec m 0) as [Hm|Hm]; [by apply Hskip|].
  destruct (running_tokens_fit c v r n Hn Hm) as [Hm1 Hm2]. fold m in Hm1, Hm2.
  pose proof (run_inv_frame _ _ _ _ _ _ F1 Hr) as Hr1. pose proof (fr_running _ _ F1) as Hrun1.
  apply ok_bind. eapply ok_mono; [apply (allocate_or_preempt_ok c T B); [exact Hr1|done|by rewrite Hrun1]|].
  intros [nb v2] s2 (I2 & L2 & Hlen2 & Hd2 & [Hb1 Hb2] & Hat). simpl in *. rewrite Hrun1 in *.
  assert (L : loose s s2) by (eapply loose_trans; [by apply frame_loose|done]).
  destruct nb as [b|]; [|by split]. specialize (Hat ltac:(done)). pose proof (lookup_lt_Some _ _ _ Hat).
  apply ok_bind, ok_get_request. intros r2 Hreq2. apply ok_bind.
  eapply ok_mono; [apply spec_tokens_ok|]. intros v3 s3 [V3 F3]. apply ok_bind.
  eapply ok_mono; [apply record_encoder_ok|]. intros v4 s4 [V4 F4]. unfold ok. rewrite wpe_ret.
  pose proof (record_running c T B s2 v2 rid m b (prefill_scheduled v2 || is_prefill_chunk r2) I2 Hat ltac:(lia) ltac:(lia)) as I.
  pose proof (frame_trans _ _ _ F3 F4) as F. split; [eapply loose_trans; [done|by apply frame_loose]|].
  destruct V3 as (A1 & A2 & A3 & A4 & A5 & A6 & A7 & A8 & A9), V4 as (B1 & B2 & B3 & B4 & B5 & B6 & B7 & B8 & B9). split.
  - eapply (run_inv_vars c T B s4 _ v4); [eapply run_inv_frame; [exact F|exact I]|..];
      [by rewrite B1, A1|by rewrite B2, A2|by rewrite B3, A3|by rewrite B4, A4|by rewrite B5, A5|by rewrite B6, A6|by rewrite B7, A7|by rewrite B8, A8|by rewrite B9, A9].
  - rewrite (fr_running _ _ F), B1, A1. simpl. lia.
Qed.

(** A loop whose rounds keep [I] ends with [I]. *)
Lemma while_loop_ok {A} (I : A -> Sch -> Prop) cond (body : A -> M Sch (A + A)) fuel a s :
  I a s ->
  (forall a s, I a s -> cond a s = true ->
    ok (body a) (fun o s' => match o with inl a' | inr a' => I a' s' end) s) ->
  ok (while_loop fuel cond body a) (fun a' s' => I a' s') s.
Proof using.
  intros HI Hb. revert a s HI. induction fuel as [|fuel IH]; intros a s HI; [done|]. simpl.
  apply ok_bind, ok_gets. unfold id. destruct (cond a s) eqn:Hc; [|done]. apply ok_bind.
  eapply ok_mono; [by apply Hb|]. intros [a'|a'] s' HI'; [by apply IH|done].
Qed.

(** [while cond: body] without fuel: [while_runs cond body k a s r] when the loop started with
    the variables [a] in the state [s] ends after [k] rounds with the result [r], because
    the condition fails, or the last round raises or breaks. *)
Inductive while_runs {A} (cond : A -> Sch -> bool) (body : A -> M Sch (A + A)) : nat -> A -> Sch -> outcome A * Sch -> Prop :=
  | runs_stop a s : cond a s = false -> while_runs cond body 0 a s (Ok a, s)
  | runs_raise a s e s' : cond a s = true -> body a s = (Raise e, s') -> while_runs cond body 1 a s (Raise e, s')
  | runs_break a s a' s' : cond a s = true -> body a s = (Ok (inr a'), s') -> while_runs cond body 1 a s (Ok a', s')
  | runs_next k a s a' s' r :
      cond a s = true -> body a s = (Ok (inl a'), s') -> while_runs cond body k a' s' r ->
      while_runs cond body (S k) a s r.

(** The fuelled loop follows such a run when it has fuel for its rounds and the last test of
    the condition, *)
Lemma while_runs_loop {A} cond (body : A -> M Sch (A + A)) k a s r fuel :
  while_runs cond body k a s r -> k < fuel -> while_loop fuel cond body a s = r.
Proof using.
  intros Hr. revert fuel. induction Hr as [a s Hc|a s e s' Hc Hb|a s a' s' Hc Hb|k a s a' s' r Hc Hb _ IH]; intros [|fuel] Hf; try lia;
    simpl; unfold mbind, M_bind, gets, id; simpl; rewrite Hc, ?Hb; try done. apply IH. lia.
Qed.

(** and without the test when the loop is a [while True]. *)
Lemma while_true_loop {A} (body : A -> M Sch (A + A)) k a s r fuel :
  while_runs (fun _ _ => true) body k a s r -> k <= fuel -> while_loop fuel (fun _ _ => true) body a s = r.
Proof using.
  intros Hr. revert fuel. induction Hr as [a s Hc|a s e s' Hc Hb|a s a' s' Hc Hb|k a s a' s' r Hc Hb _ IH]; intros fuel Hf; [done|..];
    (destruct fuel as [|fuel]; [lia|]); simpl; unfold mbind, M_bind, gets, id; simpl; rewrite ?Hb; try done. apply IH. lia.
Qed.

(** If the rounds keep [I] and decrease [mu], which is positive before each, the loop ends
    after at most [mu] of them. *)
Lemma while_runs_bound {A} (I : A -> Sch -> Prop) (mu : A -> Sch -> nat) cond (body : A -> M Sch (A + A)) a s :
  I a s ->
  (forall a s, I a s -> cond a s = true -> 0 < mu a s /\
    ok (body a) (fun o s' => match o with inl a' => I a' s' /\ mu a' s' < mu a s | inr a' => True end) s) ->
  exists k r, k <= mu a s /\ while_runs cond body k a s r.
Proof using.
  intros HI Hb. remember (mu a s) as n eqn:Hn. revert a s HI Hn. induction n as [n IH] using lt_wf_ind. intros a s HI ->.
  destruct (cond a s) eqn:Hc; [|exists 0, (Ok a, s); split; [lia|by constructor]].
  destruct (Hb a s HI Hc) as [Hpos Hr]. unfold ok, wpe in Hr. destruct (body a s) as [[[a'|a']|e] s'] eqn:Hbody.
  - destruct Hr as [HI' Hmu]. destruct (IH _ Hmu a' s' HI' eq_refl) as (k & r & Hk & Hrun).
    exists (S k), r. split; [lia|]. by eapply runs_next.
  - exists 1, (Ok a', s'). split; [lia|]. by eapply runs_break.
  - exists 1, (Raise e, s'). split; [lia|]. by eapply runs_raise.
Qed.

Definition run_measure (v : step_vars) (s : Sch) : nat := length (running s) - req_index v.

Lemma running_round c T B defer s v :
  run_inv c T B s v -> (0 <= draft_slots c)%Z ->
  bool_decide (req_index v < length (running s)) && (0 <? token_budget v)%Z = true ->
  ok (schedule_one_running sha256 defer v) (fun o s' =>
    match o with inl v' => run_inv c T B s' v' /\ run_measure v' s' < run_measure v s | inr v' => run_inv c T B s' v' end) s.
Proof using.
  intros Hr Hds [Hc%bool_decide_eq_true _]%andb_true_iff.
  eapply ok_mono; [by apply (schedule_one_running_ok c T B)|]. intros [v'|v'] s' [_ Hv']; done.
Qed.

Lemma schedule_running_ok c T B defer s v :
  run_inv c T B s v -> (0 <= draft_slots c)%Z ->
  ok (schedule_running sha256 defer v) (fun v' s' => run_inv c T B s' v') s.
Proof using.
  intros Hr Hds. unfold schedule_running. apply ok_bind, ok_gets. unfold id.
  apply (while_loop_ok (fun v s => run_inv c T B s v)); [done|]. intros v1 s1 Hr1 Hc.
  eapply ok_mono; [by apply (running_round c T B)|]. intros [v'|v'] s' Hv'; [apply Hv'|exact Hv'].
Qed.
End inv.
