(* ===== verification/SchedulerWait.v ===== *)
(** The waiting requests: what the loop over the waiting queues of [schedule] keeps, and that
    both loops neither lose nor duplicate a request. *)
From S2P Require Import Prelude KVBlock FreeQueue Request BlockHash BlockPool EncoderCache SchedEncoder SchedUtils CacheHit SingleType SingleTypeInv SingleTypeAlloc SingleTypeFree KVCoordinator KVManager RequestQueue QueuePerm Scheduler SchedulerInv.

Create HintDb walks.

Section wait.
Context {E : Type} `{EncoderCacheOps E, EncoderCacheFree E}.
Local Abbreviation Sch := (Scheduler E).

(** Every request the scheduler may run. *)
Definition all_ids (s : Sch) : list string :=
  running s ++ queue_items (waiting s) ++ queue_items (skipped_waiting s).

(** The same queues and running list. *)
Definition same_queues (s s' : Sch) : Prop :=
  running s' = running s /\ waiting s' = waiting s /\ skipped_waiting s' = skipped_waiting s.

Lemma same_queues_refl s : same_queues s s.
Proof using. done. Qed.

Lemma same_queues_trans s1 s2 s3 : same_queues s1 s2 -> same_queues s2 s3 -> same_queues s1 s3.
Proof using. intros (A1 & A2 & A3) (B1 & B2 & B3). split_and!; congruence. Qed.

Lemma same_queues_ids s s' : same_queues s s' -> all_ids s' = all_ids s.
Proof using. intros (A1 & A2 & A3). unfold all_ids. by rewrite A1, A2, A3. Qed.

(** ** What calls on the caches and updates of request objects leave alone *)

(** A relation on states that such calls respect. *)
Class Stable (R : Sch -> Sch -> Prop) := {
  stable_pre :: PreOrder R;
  stable_kv k s : R s (s <| kv_cache_manager := k |>);
  stable_enc e s : R s (s <| encoder_cache_manager := e |>);
  stable_put m s : R s (s <| requests := m |>);
}.

#[export] Instance same_queues_stable : Stable same_queues.
Proof using. split; [split|..]; try done. intros s1 s2 s3. apply same_queues_trans. Qed.

Section walks.
Context (R : Sch -> Sch -> Prop) `{!Stable R}.

Definition walks {A} (m : M Sch A) : Prop := forall s, ok m (fun _ s' => R s s') s.

Lemma walks_bind {A B} (m : M Sch A) (k : A -> M Sch B) : walks m -> (forall a, walks (k a)) -> walks (mbind k m).
Proof using Stable0.
  intros Hm Hk s. apply ok_bind. eapply ok_mono; [apply Hm|]. intros a s1 H1.
  eapply ok_mono; [apply Hk|]. intros b s2 H2. etrans; [exact H1|exact H2].
Qed.

Lemma walks_ret {A} (a : A) : walks (mret a).
Proof using Stable0. intros s. unfold ok. rewrite wpe_ret. reflexivity. Qed.

Lemma walks_gets {A} (f : Sch -> A) : walks (gets f).
Proof using Stable0. intros s. apply ok_gets. reflexivity. Qed.

Lemma walks_raise {A} e : walks (raise e : M Sch A).
Proof using. done. Qed.

Lemma walks_option {A} e (o : option A) : walks (of_option e o).
Proof using Stable0. intros s. apply ok_of_option. reflexivity. Qed.

Lemma walks_lift {A} (o : outcome A) : walks (lift_out o).
Proof using Stable0. destruct o; [apply walks_ret|done]. Qed.

Lemma walks_assert b : walks (massert b).
Proof using Stable0. intros s. apply ok_assert. reflexivity. Qed.

Lemma walks_kv {A} (m : M KVCache A) : walks (on_kv m).
Proof using Stable0. intros s. unfold ok, on_kv. rewrite wpe_zoom. unfold wpe. destruct (m _) as [[a|e] k]; [apply stable_kv|done]. Qed.

Lemma walks_enc {A} (m : M E A) : walks (on_encoder_cache m).
Proof using Stable0. intros s. unfold ok, on_encoder_cache. rewrite wpe_zoom. unfold wpe. destruct (m _) as [[a|e] k]; [apply stable_enc|done]. Qed.

Lemma walks_get rid : walks (get_request rid).
Proof using Stable0. apply walks_bind; [apply walks_gets|]. intros s. apply walks_option. Qed.

Lemma walks_modify (f : Sch -> Sch) : (forall s, R s (f s)) -> walks (modify f).
Proof using. intros Hf s. unfold ok. rewrite wpe_modify. apply Hf. Qed.

Lemma walks_put rid r : walks (put_request rid r).
Proof using Stable0. apply walks_modify. intros s. apply stable_put. Qed.

Lemma walks_when b (m : M Sch unit) : walks m -> walks (mwhen b m).
Proof using Stable0. intros Hm. destruct b; [exact Hm|apply walks_ret]. Qed.

Lemma walks_fold {A B} (f : B -> A -> M Sch B) b l : (forall b x, walks (f b x)) -> walks (mfold f b l).
Proof using Stable0.
  intros Hf. revert b. induction l as [|x l IH]; intros b; simpl; [apply walks_ret|]. apply walks_bind; [apply Hf|auto].
Qed.

Lemma walks_for {A} (l : list A) (f : A -> M Sch unit) : (forall x, walks (f x)) -> walks (mfor l f).
Proof using Stable0. intros Hf. induction l as [|x l IH]; simpl; [apply walks_ret|]. apply walks_bind; [apply Hf|done]. Qed.

Lemma walks_map {A B} (f : A -> M Sch B) l : (forall x, walks (f x)) -> walks (mmap f l).
Proof using Stable0.
  intros Hf. induction l as [|x l IH]; simpl; [apply walks_ret|]. apply walks_bind; [apply Hf|]. intros y.
  apply walks_bind; [done|]. intros ys. apply walks_ret.
Qed.
End walks.
End wait.

#[export] Hint Resolve walks_ret walks_gets walks_raise walks_option walks_lift walks_assert walks_kv walks_enc walks_get
  walks_put walks_when walks_fold walks_for walks_map : walks.

#[export] Hint Extern 0 (Stable _) => exact _ : walks.

(** The queues stay as they are. *)
Abbreviation quiet := (walks same_queues).
Abbreviation quiet_kv := (walks_kv same_queues).
Abbreviation quiet_enc := (walks_enc same_queues).
Abbreviation quiet_put := (walks_put same_queues).

(** Walk through a program of such calls. *)
Ltac walks :=
  repeat first
    [ progress (eauto with walks)
    | apply walks_bind; [exact _| |intros ?]
    | apply walks_modify; done
    | apply walks_when; [exact _|]
    | apply walks_fold; [exact _|intros ? ?]
    | apply walks_for; [exact _|intros ?]
    | apply walks_map; [exact _|intros ?]
    | match goal with
      | |- walks _ (let '_ := ?x in _) => destruct x
      | |- walks _ (match ?x with _ => _ end) => destruct x
      end ].

Section conserve.
Context {E : Type} `{EncoderCacheOps E, EncoderCacheFree E}.
Context (sha256 : bytes -> bytes).
Local Abbreviation Sch := (Scheduler E).

(** ** The loop over the running requests only moves victims to the waiting queue *)

Definition moved (s : Sch) (v : step_vars) (s' : Sch) (v' : step_vars) : Prop :=
  all_ids s' ≡ₚ all_ids s /\ skipped_waiting s' = skipped_waiting s /\
  exists l, preempted_reqs v' = preempted_reqs v ++ l /\ queue_items (waiting s') ≡ₚ l ++ queue_items (waiting s).

Lemma moved_quiet s v s' v' : same_queues s s' -> preempted_reqs v' = preempted_reqs v -> moved s v s' v'.
Proof using.
  intros Hq Hp. split; [by rewrite (same_queues_ids _ _ Hq)|]. destruct Hq as (H1 & H2 & H3). split; [done|].
  exists []. rewrite app_nil_r, H2. done.
Qed.

Lemma moved_trans s1 v1 s2 v2 s3 v3 : moved s1 v1 s2 v2 -> moved s2 v2 s3 v3 -> moved s1 v1 s3 v3.
Proof using.
  intros (A1 & A2 & l1 & A3 & A4) (B1 & B2 & l2 & B3 & B4). split; [by rewrite B1|]. split; [congruence|].
  exists (l1 ++ l2). rewrite B3, A3, app_assoc. split; [done|]. rewrite B4, A4.
  by rewrite !app_assoc, (Permutation_app_comm l2 l1).
Qed.

Lemma preempt_ids rid drop s :
  ok (preempt_request rid drop) (fun _ s' => running s' = running s /\ skipped_waiting s' = skipped_waiting s /\
    queue_items (waiting s') ≡ₚ rid :: queue_items (waiting s)) s.
Proof using.
  unfold preempt_request. apply ok_bind, ok_get_request. intros r Hr. apply ok_bind, ok_assert. intros _.
  apply ok_bind. eapply ok_mono; [apply quiet_kv|]. intros [] s1 Q1.
  apply ok_bind. eapply ok_mono; [apply quiet_enc|]. intros [] s2 Q2.
  pose proof (same_queues_trans _ _ _ Q1 Q2) as (A1 & A2 & A3). apply ok_bind. unfold ok at 1. rewrite wpe_modify.
  apply ok_bind. unfold ok at 1, put_request. rewrite wpe_modify. unfold ok. rewrite wpe_modify. simpl.
  split_and!; [done|done|]. by rewrite prepend_items, A2.
Qed.

Lemma unschedule_preempted rid v : returns (S := Sch) (unschedule rid v) (fun v' => preempted_reqs v' = preempted_reqs v).
Proof using.
  unfold unschedule. do 5 (apply returns_skip; intros ?). by apply returns_ret.
Qed.

Lemma unschedule_quiet rid v : quiet (unschedule rid v : M Sch _).
Proof using. unfold unschedule, sum_encoder_embeds. walks. Qed.

Lemma take_victim_ids v (s : Sch) :
  ok (take_victim v) (fun x s' => running s ≡ₚ x.1 :: running s' /\ waiting s' = waiting s /\
    skipped_waiting s' = skipped_waiting s /\ preempted_reqs x.2 = preempted_reqs v) s.
Proof using.
  unfold take_victim. apply ok_bind, ok_gets. unfold id. destruct (policy (config s)).
  - apply ok_bind, ok_of_option. intros victim [t Ht]%last_Some. apply ok_bind. unfold ok. rewrite wpe_modify, wpe_ret.
    simpl. rewrite Ht, length_app, Nat.add_sub, take_app_length. split_and!; try done. by rewrite Permutation_app_comm.
  - apply ok_bind, ok_of_option. intros victim _. apply ok_bind, ok_of_option. intros [i y] (Hi & -> & _)%list_find_Some.
    apply ok_bind. unfold ok at 1. rewrite wpe_modify. apply ok_bind. set (v1 := if decide (i < req_index v) then _ else v).
    assert (Hv1 : preempted_reqs v1 = preempted_reqs v) by (unfold v1; by case_decide).
    apply delete_Permutation in Hi. destruct (decide (victim ∈ scheduled_running_reqs v1)).
    + eapply ok_mono; [apply ok_returns; [apply unschedule_preempted|apply unschedule_quiet]|].
      intros v2 s2 (P2 & Q1 & Q2 & Q3). unfold ok. rewrite wpe_ret. simpl in *. split_and!; [by rewrite Q1|congruence..].
    + done.
Qed.

Lemma allocate_or_preempt_ids fuel rid n v s :
  ok (allocate_or_preempt sha256 fuel rid n v) (fun x s' => moved s v s' x.2) s.
Proof using.
  revert v s. induction fuel as [|fuel IH]; intros v s; [done|]. cbn [allocate_or_preempt].
  apply ok_bind, ok_get_request. intros r Hreq. apply ok_bind, ok_gets. unfold id. apply ok_bind.
  eapply ok_mono; [apply quiet_kv|]. intros [b r'] s1 Q1. apply ok_bind. eapply ok_mono; [apply quiet_put|].
  intros [] s2 Q2. pose proof (same_queues_trans _ _ _ Q1 Q2) as Q. destruct b as [b|]; [by apply moved_quiet|].
  apply ok_bind. eapply ok_mono; [apply take_victim_ids|]. intros [victim v3] s3 (R3 & W3 & K3 & P3). apply ok_bind.
  eapply ok_mono; [apply preempt_ids|]. intros [] s4 (R4 & K4 & W4). cbn [fst snd] in *.
  assert (Hm : moved s v s4 (v3 <| preempted_reqs := preempted_reqs v3 ++ [victim] |>)).
  { eapply moved_trans; [by apply (moved_quiet _ _ s2 v)|]. split_and!; [|congruence|exists [victim]].
    - unfold all_ids. rewrite R4, R3, K4, K3, W4, W3. simpl. symmetry. apply Permutation_middle.
    - simpl. rewrite P3. split; [done|]. by rewrite W4, W3. }
  case_decide; [done|]. eapply ok_mono; [apply IH|]. intros x s5 Hx. by eapply moved_trans.
Qed.

Lemma schedule_encoder_quiet r computed n budget : quiet (schedule_encoder_inputs r computed n budget : M Sch _).
Proof using. unfold schedule_encoder_inputs. walks. Qed.

Lemma spec_tokens_quiet rid n v : quiet (schedule_spec_tokens rid n v : M Sch _).
Proof using. unfold schedule_spec_tokens. walks. Qed.

Lemma record_encoder_quiet rid inputs external budget v : quiet (record_encoder_inputs rid inputs external budget v : M Sch _).
Proof using. unfold record_encoder_inputs. walks. Qed.

Lemma schedule_one_running_ids defer v s :
  ok (schedule_one_running sha256 defer v) (fun o s' => match o with inl v' | inr v' => moved s v s' v' end) s.
Proof using.
  unfold schedule_one_running. apply ok_bind, ok_gets. unfold id.
  apply ok_bind, ok_of_option. intros rid Hrid. apply ok_bind, ok_get_request. intros r Hreq.
  destruct (_ <=? _)%Z; [by apply moved_quiet|]. destruct (passed_over s defer r); [by apply moved_quiet|].
  apply ok_bind. eapply ok_mono; [apply schedule_encoder_quiet|]. intros [[[inputs n] budget] external] s1 Q1.
  destruct (_ =? 0)%Z; [by apply moved_quiet|]. apply ok_bind. eapply ok_mono; [apply allocate_or_preempt_ids|].
  intros [nb v2] s2 M2. cbn [fst snd] in *. assert (M : moved s v s2 v2) by (eapply moved_trans; [by apply (moved_quiet _ _ s1 v)|done]).
  destruct nb as [b|]; [|done]. apply ok_bind, ok_get_request. intros r2 Hreq2. apply ok_bind.
  eapply ok_mono; [apply ok_both; [apply spec_tokens_ok|apply spec_tokens_quiet]|]. intros v3 s3 [[V3 _] Q3]. apply ok_bind.
  eapply ok_mono; [apply ok_both; [apply record_encoder_ok|apply record_encoder_quiet]|]. intros v4 s4 [[V4 _] Q4].
  unfold ok. rewrite wpe_ret. eapply moved_trans; [exact M|]. apply moved_quiet; [by eapply same_queues_trans|].
  destruct V3 as (A1 & A2 & A3 & A4 & A5 & _), V4 as (B1 & B2 & B3 & B4 & B5 & _). by rewrite B5, A5.
Qed.

Lemma schedule_running_ids defer v s :
  ok (schedule_running sha256 defer v) (fun v' s' => moved s v s' v') s.
Proof using.
  unfold schedule_running. apply ok_bind, ok_gets. unfold id.
  apply (while_loop_ok (fun v' s' => moved s v s' v')); [by apply moved_quiet|]. intros v1 s1 M1 _.
  eapply ok_mono; [apply schedule_one_running_ids|]. intros [v2|v2] s2 M2; by eapply moved_trans.
Qed.
End conserve.

(** ** The loop over the waiting queues *)

Section admission.
Context {E : Type} `{EncoderCacheOps E, EncoderCacheFree E}.
Context (sha256 : bytes -> bytes) (report_full : Request -> bool).
Local Abbreviation Sch := (Scheduler E).

(** Neither the queues nor the frame change. *)
Definition still (s s' : Sch) : Prop := frame s s' /\ same_queues s s'.

Lemma still_refl s : still s s.
Proof using. split; [apply frame_refl|done]. Qed.

Lemma still_trans s1 s2 s3 : still s1 s2 -> still s2 s3 -> still s1 s3.
Proof using. intros [A1 A2] [B1 B2]. split; [by eapply frame_trans|by eapply same_queues_trans]. Qed.

Lemma ok_still_kv {A} (m : M KVCache A) s : ok (on_kv m) (fun _ s' => still s s' /\ requests s' = requests s) s.
Proof using.
  eapply ok_mono; [apply ok_both; [apply ok_frame_kv|apply quiet_kv]|]. by intros a s' [[F R] Q].
Qed.

Lemma ok_still_enc {A} (m : M E A) s : ok (on_encoder_cache m) (fun _ s' => still s s' /\ requests s' = requests s) s.
Proof using.
  eapply ok_mono; [apply ok_both; [apply ok_frame_enc|apply quiet_enc]|]. by intros a s' [[F R] Q].
Qed.

Lemma ok_still_put rid r r' s :
  requests s !! rid = Some r -> mm_features r' = mm_features r -> ok (put_request rid r') (fun _ s' => still s s') s.
Proof using. intros Hr Hf. eapply ok_put; [done|done|]. intros F. by split. Qed.

Lemma still_modify (f : Sch -> Sch) s : still s (f s) -> ok (modify f) (fun _ s' => still s s') s.
Proof using. done. Qed.

Lemma promote_still rid s : ok (try_promote_blocked_waiting_request rid) (fun _ s' => still s s') s.
Proof using.
  unfold try_promote_blocked_waiting_request. apply ok_bind, ok_get_request. intros r Hr. apply ok_bind, ok_gets. unfold id.
  destruct (status r); try done.
  - destruct (grammars s !! rid) as [[]|]; try apply still_refl.
    + apply ok_bind. eapply ok_mono; [by eapply ok_still_put|]. done.
    + apply ok_bind. unfold ok. rewrite wpe_modify, wpe_ret. split; [|done]. split; try done. intros x y Hxy. by exists y.
  - apply ok_bind, ok_assert. intros _. apply still_refl.
Qed.

Lemma ready_still rid v s : ok (ready_to_schedule rid v) (fun _ s' => still s s') s.
Proof using.
  unfold ready_to_schedule. apply ok_bind, ok_get_request. intros r Hr. apply ok_bind.
  eapply (ok_mono _ (fun _ s' => still s s')); [destruct (is_blocked_waiting_status _); [apply promote_still|apply still_refl]|].
  intros b s1 S1. destruct (negb b); [exact S1|]. apply ok_bind, ok_get_request. intros r1 Hr1. exact S1.
Qed.

Lemma lookup_still rid s : ok (lookup_prefix sha256 report_full rid) (fun _ s' => still s s') s.
Proof using.
  unfold lookup_prefix. apply ok_bind, ok_get_request. intros r Hr. destruct (_ =? 0)%Z; [|apply still_refl]. apply ok_bind.
  eapply ok_mono; [apply ok_returns; [apply returns_zoom, get_computed_same|apply ok_still_kv]|].
  intros [[[blocks n] boundary] r'] s1 [Hsame [S1 R1]]. cbn [snd] in Hsame. apply ok_bind.
  eapply ok_mono; [eapply ok_still_put; [by rewrite R1|simpl; by rewrite Hsame]|]. intros [] s2 S2.
  apply ok_bind, ok_assert. intros _. apply ok_bind, ok_gets. apply ok_bind.
  eapply (ok_mono _ (fun _ s' => s' = s2)); [unfold mwhen; destruct (_ && _); [by apply ok_assert|done]|].
  intros [] s3 ->. by eapply still_trans.
Qed.

Lemma waiting_tokens_fit c v r computed (s : Sch) :
  ok (waiting_new_tokens c v r computed) (fun a s' => s' = s /\
    match a with Admit (n, _) => 0 < n <= Z.min (token_budget v) (input_budget v - draft_slots c) | Halt => True end)%Z s.
Proof using.
  unfold waiting_new_tokens. destruct (_ && (_ <? _)%Z); [done|]. destruct (_ && (_ <? _)%Z); [done|].
  apply ok_bind, ok_assert. intros Hn%Z.ltb_lt. unfold ok. rewrite wpe_ret. split; [done|]. clear -Hn. lia.
Qed.

Lemma encoder_still r computed n budget s :
  in_order r ->
  ok (schedule_encoder_inputs r computed n budget)
    (fun x s' => (x.1.1.2 <= Z.max n 0)%Z /\ still s s' /\ requests s' = requests s) s.
Proof using.
  intros Hr. eapply ok_mono; [apply ok_both; [by apply schedule_encoder_ok|apply schedule_encoder_quiet]|].
  by intros x s' [(A1 & A2 & A3) Q].
Qed.

Lemma sum_embeds_same r inputs (s : Sch) : ok (E := E) (sum_encoder_embeds r inputs) (fun _ s' => s' = s) s.
Proof using.
  unfold sum_encoder_embeds, ok. apply (wpe_fold _ (fun s' => s' = s)); [done|done|]. intros i acc s1 _ ->.
  unfold lift_out. by destruct (get_num_encoder_embeds r (Z.of_nat i)).
Qed.

(** A request that is admitted fits both budgets. *)
Definition fits (c : SchedulerConfig) (v : step_vars) (n : Z) : Prop :=
  (0 < n <= token_budget v /\ n + draft_slots c <= input_budget v)%Z.

Lemma admit_ok c rid defer v s :
  config s = c -> (forall r, requests s !! rid = Some r -> in_order r) ->
  ok (admit_request sha256 report_full rid defer v) (fun a s' => still s s' /\
    match a with Admit (n, _, _, _, _, _) => fits c v n | Halt => True end) s.
Proof using.
  intros Hc Hin. unfold admit_request. apply ok_bind, ok_gets. rewrite Hc. apply ok_bind.
  eapply ok_mono; [apply lookup_still|]. intros [[blocks local] computed] s1 S1. apply ok_bind, ok_get_request.
  intros r Hr. assert (Ho : in_order r).
  { destruct (fr_reqs _ _ (proj1 S1) rid r Hr) as (r0 & Hr0 & Hf). unfold in_order. rewrite Hf. by apply Hin. }
  destruct (_ && _); [by split|]. apply ok_bind. eapply ok_mono; [apply waiting_tokens_fit|].
  intros [[n pad]|] s2 [-> Hn]; [|by split]. apply ok_bind. eapply ok_mono; [by apply encoder_still|].
  intros [[[inputs n'] budget] external] s2 (Hn' & S2 & R2). cbn [fst snd] in Hn'.
  set (m := reserve_prefill_lookahead c r computed n'). pose proof (still_trans _ _ _ S1 S2) as S.
  destruct (Z.eqb_spec m 0) as [Hm|Hm]; [by split|]. assert (Hfit : fits c v m).
  { unfold fits, m, reserve_prefill_lookahead in *. destruct (_ && _)%bool eqn:Hb in Hm |- *; lia. }
  apply ok_bind. eapply (ok_mono _ (fun _ s' => s' = s2)); [destruct (_ && _); [apply sum_embeds_same|done]|].
  intros enc s3 ->. apply ok_bind, ok_gets. unfold id. apply ok_bind.
  eapply ok_mono; [apply ok_returns; [apply returns_zoom, allocate_slots_same|apply ok_still_kv]|].
  intros [b r'] s3 [Hsame [S3 R3]]. cbn [snd] in Hsame. apply ok_bind.
  eapply ok_mono; [eapply ok_still_put; [by rewrite R3, R2|by rewrite Hsame]|]. intros [] s4 S4.
  pose proof (still_trans _ _ _ (still_trans _ _ _ S S3) S4) as S'.
  destruct b as [b|]; [by split|]. apply ok_bind.
  eapply (ok_mono _ (fun _ s' => still s4 s')).
  - unfold mwhen. destruct (has_encoder_inputs r'); [|apply still_refl]. eapply ok_mono; [apply ok_still_enc|]. by intros [] s5 [? _].
  - intros [] s5 S5. split; [by eapply still_trans|done].
Qed.

(** What starting [rid] with [n] tokens does to the tables. *)
Record started (c : SchedulerConfig) (rid : string) (n : Z) (v v' : step_vars) : Prop := {
  st_tokens : num_scheduled_tokens v' = odict_set rid n (num_scheduled_tokens v);
  st_blocks : exists b, req_to_new_blocks v' = odict_set rid b (req_to_new_blocks v);
  st_token : token_budget v' = (token_budget v - n)%Z;
  st_input : input_budget v' = (input_budget v - (n + draft_slots c))%Z;
  st_running : scheduled_running_reqs v' = scheduled_running_reqs v;
  st_new : scheduled_new_reqs v' ++ scheduled_resumed_reqs v' ≡ₚ rid :: scheduled_new_reqs v ++ scheduled_resumed_reqs v;
  st_pre : preempted_reqs v' = preempted_reqs v;
}.

Lemma started_vars c rid n v v1 v2 : started c rid n v v1 -> vars_eq v1 v2 -> started c rid n v v2.
Proof using.
  intros [A1 [b A2] A3 A4 A5 A6 A7] (B1 & B2 & B3 & B4 & B5 & B6 & B7 & B8 & B9).
  split; rewrite ?B2, ?B3, ?B4, ?B5, ?B6, ?B7, ?B8, ?B9; try done. by exists b.
Qed.

Lemma start_ok c rid n computed pad inputs external budget v s :
  config s = c ->
  ok (start_running rid n computed pad inputs external budget v) (fun v' s' => started c rid n v v' /\ loose s s' /\
    running s' = running s ++ [rid] /\ waiting s' = waiting s /\ skipped_waiting s' = skipped_waiting s) s.
Proof using.
  intros Hc. unfold start_running. apply ok_bind. unfold ok at 1. rewrite wpe_modify.
  set (s1 := s <| running := _ |>). assert (L1 : loose s s1).
  { split; try done. intros x y Hxy. by exists y. }
  apply ok_bind, ok_get_request. intros r Hr. apply ok_bind, ok_gets. apply ok_bind.
  change (config s1) with (config s). rewrite Hc.
  eapply (ok_mono _ (fun v1 s' => s' = s1 /\ num_scheduled_tokens v1 = num_scheduled_tokens v /\
    req_to_new_blocks v1 = req_to_new_blocks v /\ token_budget v1 = token_budget v /\ input_budget v1 = input_budget v /\
    scheduled_running_reqs v1 = scheduled_running_reqs v /\ preempted_reqs v1 = preempted_reqs v /\
    scheduled_new_reqs v1 ++ scheduled_resumed_reqs v1 ≡ₚ rid :: scheduled_new_reqs v ++ scheduled_resumed_reqs v)).
  { destruct (status r); try done; unfold ok; rewrite wpe_ret; split_and!; try done; simpl.
    - rewrite <- app_assoc. symmetry. apply Permutation_middle.
    - by rewrite app_assoc, Permutation_app_comm. }
  intros v1 s' (-> & V1 & V2 & V3 & V4 & V5 & V6 & V7). apply ok_bind, ok_gets. unfold id. apply ok_bind.
  eapply ok_mono; [by eapply ok_still_put|]. intros [] s2 S2. apply ok_bind.
  eapply (ok_mono _ (fun _ s' => s' = s2)); [unfold mwhen; destruct pad; [by apply ok_assert|done]|]. intros [] s3 ->. apply ok_bind.
  eapply (ok_mono _ (fun _ s' => still s2 s')).
  { unfold mwhen. destruct (_ <? _)%Z; [|apply still_refl]. apply still_modify. split; [|done]. split; try done.
    intros x y Hxy. by exists y. }
  intros [] s3 S3. eapply ok_mono; [apply ok_both; [apply record_encoder_ok|apply record_encoder_quiet]|].
  intros v4 s4 [[V F4] Q4]. pose proof (still_trans _ _ _ (still_trans _ _ _ S2 S3) (conj F4 Q4)) as [F (Q1 & Q2 & Q3)].
  split_and!; [|eapply loose_trans; [exact L1|by apply frame_loose]|done|done|done].
  eapply started_vars; [|exact V]. destruct (max_loras c), (lora_request r), pad; split; simpl; rewrite ?V1, ?V2, ?V3, ?V4; try done; by eexists.
Qed.

Lemma pop_ok w (s : Sch) :
  ok (pop_from w) (fun x s' => frame s s' /\ peek_request (the_queue w s) = Ok x /\ all_ids s ≡ₚ x :: all_ids s' /\
    length (queue_items (waiting s)) + length (queue_items (skipped_waiting s)) =
    S (length (queue_items (waiting s')) + length (queue_items (skipped_waiting s')))) s.
Proof using.
  unfold pop_from. apply ok_bind, ok_gets. unfold id. apply ok_bind. unfold lift_out.
  destruct (pop_request _ _) as [[x q]|e] eqn:Hp; [|done]. apply pop_items in Hp as [Hp Hx]. unfold ok. rewrite wpe_ret.
  rewrite wpe_bind, wpe_modify, wpe_ret. pose proof (Permutation_length Hp) as Hl. destruct w; simpl in *.
  - split_and!; [|done| |lia].
    + split; try done. intros a b Hab. by exists b.
    + unfold all_ids. simpl. rewrite Hp. simpl. symmetry. apply Permutation_middle.
  - split_and!; [|done| |lia].
    + split; try done. intros a b Hab. by exists b.
    + unfold all_ids. simpl. rewrite Hp. by rewrite !app_assoc, <- Permutation_middle.
Qed.

(** ** The invariant of the loop *)

(** [ids] are the requests the scheduler had at the start of the step. *)
Record wait_inv (c : SchedulerConfig) (T B : Z) (ids : list string) (vs : step_vars * RequestQueue) (s : Sch) : Prop := {
  wi_config : config s = c;
  wi_reqs rid r : requests s !! rid = Some r -> in_order r;
  wi_ids : all_ids s ++ queue_items vs.2 ≡ₚ ids;
  wi_max : (zlen (running s) <= max_num_running_reqs c)%Z;
  wi_stream : (0 <= num_waiting_for_streaming_input s)%Z;
  wi_keys : (num_scheduled_tokens vs.1).*1 ≡ₚ
    scheduled_running_reqs vs.1 ++ scheduled_new_reqs vs.1 ++ scheduled_resumed_reqs vs.1;
  wi_nodup : NoDup (num_scheduled_tokens vs.1).*1;
  wi_sub x : x ∈ (num_scheduled_tokens vs.1).*1 -> x ∈ running s;
  wi_blocks : (req_to_new_blocks vs.1).*1 = (num_scheduled_tokens vs.1).*1;
  wi_pos : Forall (fun kv => 0 < kv.2)%Z (num_scheduled_tokens vs.1);
  wi_token : (token_budget vs.1 + sum_tokens (num_scheduled_tokens vs.1) = T /\ 0 <= token_budget vs.1)%Z;
  wi_input : (input_budget vs.1 + sum_tokens (num_scheduled_tokens vs.1) +
    draft_slots c * zlen (num_scheduled_tokens vs.1) = B /\ 0 <= input_budget vs.1)%Z;
  wi_pre : preempted_reqs vs.1 = [];
}.

Lemma wait_inv_frame c T B ids s s' v k k' :
  frame s s' -> all_ids s' ++ queue_items k' ≡ₚ all_ids s ++ queue_items k ->
  wait_inv c T B ids (v, k) s -> wait_inv c T B ids (v, k') s'.
Proof using.
  intros [F1 F2 F3 F4 F5] Hp [W1 W2 W3 W4 W5 W6 W7 W8 W9 W10 W11 W12 W13]. simpl in *.
  split; simpl; rewrite ?F1, ?F2, ?F3; try done; [|by rewrite Hp]. intros rid r' Hr.
  destruct (F5 rid r' Hr) as (r & Hr0 & Hf). unfold in_order. rewrite Hf. by eapply W2.
Qed.

(** A request that leaves a queue and starts to run. *)
Lemma wait_inv_start c T B ids s s1 s2 v v' k rid n :
  NoDup ids -> wait_inv c T B ids (v, k) s -> fits c v n -> (zlen (running s) < max_num_running_reqs c)%Z ->
  frame s s1 -> all_ids s ≡ₚ rid :: all_ids s1 -> started c rid n v v' -> loose s1 s2 ->
  running s2 = running s1 ++ [rid] -> waiting s2 = waiting s1 -> skipped_waiting s2 = skipped_waiting s1 ->
  wait_inv c T B ids (v', k) s2.
Proof using.
  intros Hnd [W1 W2 W3 W4 W5 W6 W7 W8 W9 W10 W11 W12 W13] [Hn Hi] Hmax F Hids [A1 [b A2] A3 A4 A5 A6 A7] L R2 Q2 K2.
  simpl in *. pose proof (fr_running _ _ F) as R1.
  assert (Hnew : rid ∉ (num_scheduled_tokens v).*1).
  { intros Hin%W8. rewrite <- W3, Hids in Hnd. apply NoDup_app in Hnd as [Hnd _]. apply NoDup_cons in Hnd as [Hnd _].
    apply Hnd. unfold all_ids. rewrite R1. apply elem_of_app. by left. }
  rewrite odict_set_new in A1 by done. rewrite odict_set_new in A2 by (by rewrite W9).
  split; simpl; rewrite ?A1, ?A2, ?A3, ?A4, ?A7; try done.
  - rewrite (fr_cfg _ _ L : config s2 = config s1). by rewrite (fr_cfg _ _ F).
  - intros x r Hr. destruct (fr_reqs _ _ L x r Hr) as (r1 & Hr1 & Hf1). destruct (fr_reqs _ _ F x r1 Hr1) as (r0 & Hr0 & Hf0).
    unfold in_order. rewrite Hf1, Hf0. by eapply W2.
  - rewrite <- W3, Hids. apply Permutation_app_tail. unfold all_ids. rewrite R2, Q2, K2.
    rewrite <- app_assoc. symmetry. apply Permutation_middle.
  - rewrite R2, R1. unfold zlen in *. rewrite length_app. simpl. lia.
  - rewrite (fr_stream _ _ L : num_waiting_for_streaming_input s2 = _), (fr_stream _ _ F). done.
  - rewrite A5, A6, fmap_app, W6. simpl. by rewrite Permutation_app_comm, <- Permutation_middle.
  - rewrite fmap_app. apply NoDup_app. split_and!; [done| |apply NoDup_singleton]. by intros x Hx ->%list_elem_of_singleton.
  - rewrite fmap_app, R2, R1. intros x. rewrite !elem_of_app. intros [Hx|Hx]; [left; by apply W8|by right].
  - by rewrite !fmap_app, W9.
  - apply Forall_app. split; [done|]. constructor; [simpl; lia|constructor].
  - rewrite sum_tokens_snoc. lia.
  - rewrite sum_tokens_snoc. unfold zlen in *. rewrite length_app. simpl. lia.
Qed.

Definition wait_measure (vs : step_vars * RequestQueue) (s : Sch) : nat :=
  length (queue_items (waiting s)) + length (queue_items (skipped_waiting s)).

(** One round: a request leaves the queues, or the loop stops. *)
Lemma schedule_one_waiting_ok c T B ids defer vs s :
  NoDup ids -> wait_inv c T B ids vs s ->
  ok (schedule_one_waiting sha256 report_full defer vs) (fun o s' =>
    match o with
    | inl vs' => wait_inv c T B ids vs' s' /\ wait_measure vs' s' < wait_measure vs s
    | inr vs' => wait_inv c T B ids vs' s'
    end) s.
Proof using.
  intros Hnd Hw. destruct vs as [v k]. unfold schedule_one_waiting. apply ok_bind, ok_gets. unfold id.
  rewrite (wi_config _ _ _ _ _ _ Hw). destruct (_ <=? _)%Z; [done|]. destruct (Z.leb_spec (max_num_running_reqs c) (zlen (running s) + num_waiting_for_streaming_input s)) as [|Hmax]; [done|].
  pose proof (wi_stream _ _ _ _ _ _ Hw) as Hst. apply ok_bind.
  eapply (ok_mono _ (fun _ s' => s' = s)).
  { unfold select_waiting_queue_for_scheduling. apply ok_bind, ok_gets. unfold id. destruct (policy _); [done|].
    destruct (_ && _); [|done]. unfold lift_out. apply ok_bind. destruct (peek_request (waiting s)); [|done]. unfold ok at 1. rewrite wpe_ret.
    apply ok_bind. by destruct (peek_request (skipped_waiting s)). }
  intros w0 s' ->. apply ok_bind, ok_of_option. intros w _. apply ok_bind, ok_gets. unfold id. apply ok_bind.
  unfold lift_out at 1. destruct (peek_request (the_queue w s)) as [rid|e] eqn:Hpeek; [|done]. unfold ok at 1. rewrite wpe_ret.
  apply ok_bind. eapply ok_mono; [apply ready_still|]. intros ready s1 [F1 Q1].
  assert (Hm1 : wait_measure (v, k) s1 = wait_measure (v, k) s) by (destruct Q1 as (_ & Q1 & Q1'); unfold wait_measure; by rewrite Q1, Q1').
  assert (Hw1 : wait_inv c T B ids (v, k) s1) by (eapply wait_inv_frame; [exact F1|by rewrite (same_queues_ids _ _ Q1)|done]).
  destruct (negb ready).
  - apply ok_bind. eapply ok_mono; [apply pop_ok|]. intros x s2 (F2 & _ & Hids & Hlen). apply ok_bind, ok_gets. unfold ok, id. rewrite wpe_ret.
    split; [|unfold wait_measure in *; simpl in *; lia]. eapply wait_inv_frame; [exact F2| |exact Hw1].
    rewrite prepend_items, Hids. symmetry. apply Permutation_middle.
  - apply ok_bind. eapply ok_mono; [apply (admit_ok c); [apply Hw1|apply Hw1]|]. intros a s2 [[F2 Q2] Ha].
    assert (Hm2 : wait_measure (v, k) s2 = wait_measure (v, k) s) by (rewrite <- Hm1; destruct Q2 as (_ & Q2 & Q2'); unfold wait_measure; by rewrite Q2, Q2').
    assert (Hw2 : wait_inv c T B ids (v, k) s2) by (eapply wait_inv_frame; [exact F2|by rewrite (same_queues_ids _ _ Q2)|done]).
    destruct a as [[[[[[n computed] pad] inputs] external] budget]|]; [|exact Hw2].
    apply ok_bind. eapply ok_mono; [apply pop_ok|]. intros x s3 (F3 & _ & Hids & Hlen). apply ok_bind.
    eapply ok_mono; [apply (start_ok c); by rewrite (fr_cfg _ _ F3), (wi_config _ _ _ _ _ _ Hw2)|].
    intros v' s4 (V & L & R & W & K). unfold ok. rewrite wpe_ret. split.
    + eapply wait_inv_start; try done. rewrite (fr_running _ _ F2), (fr_running _ _ F1). lia.
    + unfold wait_measure in *. rewrite W, K. simpl in *. lia.
Qed.
End admission.
