(* ===== verification/SchedulerThms.v ===== *)
(** One scheduling step as a whole: the limits it respects, the requests it keeps, and that
    its loops end. *)
From S2P Require Import Prelude KVBlock FreeQueue Request BlockHash BlockPool EncoderCache SchedEncoder SchedUtils CacheHit SingleType SingleTypeInv SingleTypeAlloc SingleTypeFree KVCoordinator KVManager RequestQueue QueuePerm Scheduler SchedulerInv SchedulerWait.

Section step.
Context {E : Type} `{EncoderCacheOps E, EncoderCacheFree E}.
Context (sha256 : bytes -> bytes) (report_full : Request -> bool).
Local Abbreviation Sch := (Scheduler E).

(** What a scheduler satisfies between two steps: no request is held twice, no more than
    [max_num_running_reqs] run, and multi-modal inputs are in the order of the prompt. *)
Record sched_wf (s : Sch) : Prop := {
  wf_ids : NoDup (all_ids s);
  wf_running : (zlen (running s) <= max_num_running_reqs (config s))%Z;
  wf_stream : (0 <= num_waiting_for_streaming_input s)%Z;
  wf_reqs rid r : requests s !! rid = Some r -> in_order r;
  wf_tokens : (0 <= max_num_scheduled_tokens (config s))%Z;
  wf_batched : (0 <= max_num_batched_tokens (config s))%Z;
  wf_slots : (0 <= draft_slots (config s))%Z;
}.

(** What a step leaves behind, for a budget of [T] tokens and [B] input slots. *)
Record step_ok (c : SchedulerConfig) (T B : Z) (ids : list string) (v : step_vars) (s : Sch) : Prop := {
  so_config : config s = c;
  so_reqs rid r : requests s !! rid = Some r -> in_order r;
  so_ids : all_ids s ≡ₚ ids;
  so_max : (zlen (running s) <= max_num_running_reqs c)%Z;
  so_stream : (0 <= num_waiting_for_streaming_input s)%Z;
  so_keys : (num_scheduled_tokens v).*1 ≡ₚ scheduled_running_reqs v ++ scheduled_new_reqs v ++ scheduled_resumed_reqs v;
  so_nodup : NoDup (num_scheduled_tokens v).*1;
  so_sub x : x ∈ (num_scheduled_tokens v).*1 -> x ∈ running s;
  so_blocks : (req_to_new_blocks v).*1 = (num_scheduled_tokens v).*1;
  so_pos : Forall (fun kv => 0 < kv.2)%Z (num_scheduled_tokens v);
  so_token : (token_budget v + sum_tokens (num_scheduled_tokens v) = T /\ 0 <= token_budget v)%Z;
  so_input : (input_budget v + sum_tokens (num_scheduled_tokens v) + draft_slots c * zlen (num_scheduled_tokens v) = B /\
    0 <= input_budget v)%Z;
  so_pre x : x ∈ preempted_reqs v -> x ∈ queue_items (waiting s);
}.

Lemma zlen_keys {V} (d : list (string * V)) : zlen d.*1 = zlen d.
Proof using. unfold zlen. by rewrite length_fmap. Qed.

Lemma run_step c T B s0 v0 s v :
  run_inv c T B s v -> moved s0 v0 s v -> preempted_reqs v0 = [] -> step_ok c T B (all_ids s0) v s.
Proof using.
  intros [R1 R2 R3 R4 R5 R6 [R7 R7'] R8 R9 R10 R11 R12 R13 R14 R15] (M1 & M2 & l & M3 & M4) Hp. rewrite Hp in M3. simpl in M3.
  split; try done.
  - by rewrite R7, R7', !app_nil_r, R10.
  - by rewrite R10.
  - rewrite R10. intros x Hx%R9. apply list_elem_of_lookup_1 in Hx as [i Hi]. apply lookup_take_Some in Hi as [Hi _].
    by eapply list_elem_of_lookup_2.
  - by rewrite R10.
  - rewrite <- R10, zlen_keys in R14. exact R14.
  - intros x Hx. rewrite M4, <- M3. apply elem_of_app. by left.
Qed.

Lemma step_wait c T B ids s v k :
  step_ok c T B ids v s -> queue_items k = [] -> preempted_reqs v = [] -> wait_inv c T B ids (v, k) s.
Proof using. intros [A1 A2 A3 A4 A5 A6 A7 A8 A9 A10 A11 A12 A13] Hk Hp. split; try done. simpl. by rewrite Hk, app_nil_r. Qed.

Lemma wait_step c T B ids s v k : wait_inv c T B ids (v, k) s -> queue_items k = [] -> step_ok c T B ids v s.
Proof using.
  intros [A1 A2 A3 A4 A5 A6 A7 A8 A9 A10 A11 A12 A13] Hk. simpl in *. rewrite Hk, app_nil_r in A3. split; try done.
  rewrite A13. by intros x Hx%elem_of_nil.
Qed.

(** The requests passed over return to the queue of skipped requests. *)
Lemma schedule_waiting_ok c T B ids defer s v :
  NoDup ids -> step_ok c T B ids v s -> preempted_reqs v = [] ->
  ok (schedule_waiting sha256 report_full defer v) (fun v' s' => step_ok c T B ids v' s') s.
Proof using.
  intros Hnd Hs Hp. unfold schedule_waiting. apply ok_bind, ok_gets. unfold id. apply ok_bind.
  eapply ok_mono; [apply (while_loop_ok (wait_inv c T B ids))|].
  - apply step_wait; [done|by destruct (policy _)|done].
  - intros vs s1 Hw _. eapply ok_mono; [by apply (schedule_one_waiting_ok sha256 report_full c T B ids)|].
    intros [vs'|vs'] s2 Hv; [apply Hv|exact Hv].
  - intros [v1 k1] s1 Hw. apply ok_bind.
    eapply (ok_mono _ (fun _ s' => step_ok c T B ids v1 s')).
    + unfold mwhen. destruct (queue_bool k1) eqn:Hk.
      * unfold ok. rewrite wpe_modify. apply (wait_step _ _ _ _ _ _ (FCFSRequestQueue [])); [|done].
        eapply wait_inv_frame; [| |exact Hw]; [split; try done; intros x y Hxy; by exists y|].
        unfold all_ids. simpl. rewrite prepend_all_items, app_nil_r, <- !app_assoc.
        do 2 apply Permutation_app_head. apply Permutation_app_comm.
      * apply (wait_step _ _ _ _ _ _ k1); [exact Hw|]. unfold queue_bool, queue_len, zlen in Hk. apply Z.ltb_ge in Hk.
        destruct (queue_items k1); [done|simpl in Hk; lia].
    + intros [] s2 Hs2. apply ok_bind. eapply (ok_mono _ (fun _ s' => step_ok c T B ids v1 s')); [|done].
      unfold mwhen. destruct (negb defer); [|done]. unfold ok. rewrite wpe_modify. by destruct Hs2; split.
Qed.

Lemma init_run_inv (s : Sch) :
  sched_wf s ->
  run_inv (config s) (token_budget (init_vars (config s) (pause_state s))) (max_num_batched_tokens (config s)) s
    (init_vars (config s) (pause_state s)).
Proof using.
  intros [W1 W2 W3 W4 W5 W6 W7]. apply NoDup_app in W1 as (Hnd & _ & _). split; simpl; try done; try lia; try apply NoDup_nil_2;
    try (by intros x Hx%elem_of_nil); change (sum_tokens []) with 0%Z; [case_decide; lia|]. change (zlen (@nil string)) with 0%Z. lia.
Qed.

Lemma schedule_requests_ok throttle s :
  sched_wf s ->
  ok (schedule_requests sha256 report_full throttle)
    (step_ok (config s) (token_budget (init_vars (config s) (pause_state s))) (max_num_batched_tokens (config s)) (all_ids s)) s.
Proof using.
  intros Hwf. unfold schedule_requests. apply ok_bind. unfold ok at 1. rewrite wpe_modify.
  set (s1 := s <| current_step := _ |>). assert (Hwf1 : sched_wf s1) by (destruct Hwf; by split).
  apply ok_bind, ok_gets. unfold id. apply ok_bind.
  eapply ok_mono; [apply ok_both; [apply schedule_running_ok; [exact (init_run_inv s1 Hwf1)|apply Hwf1]|apply schedule_running_ids]|].
  intros v s2 [Hr Hm]. pose proof (run_step _ _ _ _ _ _ _ Hr Hm eq_refl) as Hs2. apply ok_bind.
  eapply (ok_mono _ (fun v' s' => s' = s2 /\ step_ok (config s) (token_budget (init_vars (config s) (pause_state s)))
    (max_num_batched_tokens (config s)) (all_ids s) v' s2)).
  - unfold record_loras. apply ok_bind, ok_gets. unfold id. destruct (max_loras _); [|done].
    apply ok_bind, ok_assert. intros _. split; [done|]. by destruct Hs2; split.
  - intros v1 s' [-> Hs]. apply ok_bind, ok_gets. unfold id. destruct (_ && _) eqn:Hb; [|exact Hs].
    apply andb_true_iff in Hb as [Hb%bool_decide_eq_true _]. apply schedule_waiting_ok; [apply Hwf|exact Hs|exact Hb].
Qed.

(** The constraints that [schedule] asserts hold. *)
Lemma step_constraints T c ids v (s : Sch) :
  step_ok c T (max_num_batched_tokens c) ids v s -> (T <= max_num_scheduled_tokens c)%Z ->
  check_constraints v s = (Ok tt, s).
Proof using.
  intros Hs HT. destruct (so_token _ _ _ _ _ _ Hs), (so_input _ _ _ _ _ _ Hs). unfold check_constraints.
  assert (Hlen : (zlen (scheduled_new_reqs v) + zlen (scheduled_resumed_reqs v) + zlen (scheduled_running_reqs v)
    <= zlen (running s))%Z).
  { assert (Hsub : (num_scheduled_tokens v).*1 ⊆+ running s).
    { apply NoDup_submseteq; [apply Hs|]. intros x Hx. by apply (so_sub _ _ _ _ _ _ Hs). }
    apply submseteq_length in Hsub. rewrite (so_keys _ _ _ _ _ _ Hs) in Hsub. unfold zlen. rewrite !length_app in Hsub. lia. }
  pose proof (so_max _ _ _ _ _ _ Hs). unfold mbind, M_bind, gets, id, massert. simpl. rewrite (so_config _ _ _ _ _ _ Hs).
  repeat (rewrite (proj2 (Z.leb_le _ _)) by lia; simpl). done.
Qed.

(** ** The loops end *)

(** One round of the loop around [allocate_slots]. *)
Definition preempt_round (rid : string) (n : Z) (a : option KVCacheBlocks * step_vars)
    : M Sch ((option KVCacheBlocks * step_vars) + (option KVCacheBlocks * step_vars)) :=
  r ← get_request rid;
  s ← gets id;
  '(new_blocks, r) ← on_kv (allocate_slots sha256 r (running_args s n));
  put_request rid r ;;
  match new_blocks with
  | Some b => mret (inr (Some b, a.2))
  | None =>
      '(victim, v) ← take_victim a.2;
      preempt_request victim false ;;
      let v := v <| preempted_reqs := preempted_reqs v ++ [victim] |> in
      mret (if decide (victim = rid) then inr (None, v) else inl (None, v))
  end.

Lemma preempt_while fuel rid n v s :
  allocate_or_preempt sha256 fuel rid n v s = while_loop fuel (fun _ _ => true) (preempt_round rid n) (None, v) s.
Proof using.
  clear report_full. revert v s. induction fuel as [|fuel IH]; intros v s; [done|]. simpl. unfold preempt_round at 2.
  unfold mbind, M_bind, gets, put_request, modify, mret, M_ret, id. simpl.
  destruct (get_request rid s) as [[r|e] s0]; [|done]. destruct (on_kv _ s0) as [[[[b|] r']|e] s1]; [done| |done].
  destruct (take_victim v _) as [[[victim v3]|e] s3]; [|done]. destruct (preempt_request victim false s3) as [[[]|e] s4]; [|done].
  case_decide; [done|]. apply IH.
Qed.

(** Every round but the last removes a running request, and the last at the latest removes
    the request itself. *)
Lemma preempt_round_ok rid n a s :
  rid ∈ running s ->
  ok (preempt_round rid n a) (fun o s' =>
    match o with inl _ => rid ∈ running s' /\ length (running s') < length (running s) | inr _ => True end) s.
Proof using.
  clear report_full. intros Hin. unfold preempt_round. apply ok_bind, ok_get_request. intros r Hr. apply ok_bind, ok_gets. unfold id.
  apply ok_bind. eapply ok_mono; [apply quiet_kv|]. intros [b r'] s1 (Q1 & _ & _). apply ok_bind. unfold ok at 1.
  unfold put_request. rewrite wpe_modify. destruct b as [b|]; [done|]. apply ok_bind.
  eapply ok_mono; [apply take_victim_ids|]. intros [victim v] s3 (Q2 & _). simpl in Q2. apply ok_bind.
  eapply ok_mono; [apply preempt_ids|]. intros [] s4 (Q3 & _). unfold ok. rewrite wpe_ret. case_decide as Hv; [done|].
  rewrite Q1 in Q2. rewrite Q3. pose proof (Permutation_length Q2) as Hl. simpl in Hl. split; [|lia].
  rewrite Q2 in Hin. apply elem_of_cons in Hin as [|]; [congruence|done].
Qed.

Lemma preempt_runs rid n v s :
  rid ∈ running s ->
  exists k r, k <= length (running s) /\ while_runs (fun _ _ => true) (preempt_round rid n) k (None, v) s r /\
    forall fuel, length (running s) <= fuel -> allocate_or_preempt sha256 fuel rid n v s = r.
Proof using.
  clear report_full. intros Hin.
  destruct (while_runs_bound (fun _ s => rid ∈ running s) (fun _ s => length (running s)) (fun _ _ => true) (preempt_round rid n) (None, v) s Hin)
    as (k & r & Hk & Hrun).
  - intros a s1 Hin1 _. split; [destruct (running s1); [by apply elem_of_nil in Hin1|simpl; lia]|by apply preempt_round_ok].
  - exists k, r. split_and!; [done..|]. intros fuel Hf. rewrite preempt_while. eapply while_true_loop; [done|lia].
Qed.

(** The condition of the loop over the running requests. *)
Definition running_left (v : step_vars) (s : Sch) : bool :=
  bool_decide (req_index v < length (running s)) && (0 <? token_budget v)%Z.

Lemma running_runs defer s :
  sched_wf s ->
  let v := init_vars (config s) (pause_state s) in
  exists k r, k <= length (running s) /\ while_runs running_left (schedule_one_running sha256 defer) k v s r /\
    schedule_running sha256 defer v s = r.
Proof using.
  clear report_full. intros Hwf v.
  destruct (while_runs_bound (fun v' s' => run_inv (config s) (token_budget v) (max_num_batched_tokens (config s)) s' v') run_measure
    running_left (schedule_one_running sha256 defer) v s (init_run_inv s Hwf)) as (k & r & Hk & Hrun).
  - intros v1 s1 Hr Hc. split; [unfold run_measure, running_left in *; case_bool_decide; [lia|done]|].
    eapply ok_mono; [by apply (running_round sha256 (config s)); [|apply Hwf|]|]. by intros [] s2.
  - assert (Hl : k <= length (running s)) by (unfold run_measure in Hk; lia). exists k, r. split_and!; [done..|].
    unfold schedule_running. eapply while_runs_loop; [exact Hrun|]. unfold id. lia.
Qed.

(** The condition of the loop over the waiting queues. *)
Definition waiting_left (vs : step_vars * RequestQueue) (s : Sch) : bool :=
  (queue_bool (waiting s) || queue_bool (skipped_waiting s)) && (0 <? token_budget vs.1)%Z.

Lemma waiting_runs c T B ids defer s v q :
  NoDup ids -> wait_inv c T B ids (v, q) s ->
  let n := length (queue_items (waiting s)) + length (queue_items (skipped_waiting s)) in
  exists k r, k <= n /\ while_runs waiting_left (schedule_one_waiting sha256 report_full defer) k (v, q) s r /\
    while_loop (S n) waiting_left (schedule_one_waiting sha256 report_full defer) (v, q) s = r.
Proof using.
  intros Hnd Hw n.
  destruct (while_runs_bound (wait_inv c T B ids) wait_measure waiting_left (schedule_one_waiting sha256 report_full defer) (v, q) s Hw)
    as (k & r & Hk & Hrun).
  - intros vs s1 Hw1 Hc. split.
    + unfold waiting_left, queue_bool, queue_len, zlen, wait_measure in *. lia.
    + eapply ok_mono; [by apply schedule_one_waiting_ok|]. by intros [] s2.
  - exists k, r. split_and!; [done..|]. eapply while_runs_loop; [done|]. unfold wait_measure in Hk. lia.
Qed.
End step.
