(* ===== verification/SchedulerOutput.v ===== *)
(** The output of a scheduling step (vllm/v1/core/sched/output.py) and the rest of
    [schedule]: it is built from the tables of the loops, and the scheduled requests advance
    ([_update_after_schedule] of [Scheduler] and of [AsyncScheduler]). *)
From S2P Require Import Prelude KVBlock FreeQueue Request BlockHash BlockPool EncoderCache SchedEncoder SchedUtils CacheHit SingleType KVCoordinator KVManager RequestQueue Scheduler.

(** [NewRequestData]; the multi-modal payload that [strip_covered_mm_data] drops is not part
    of the model's features. *)
Record NewRequestData := {
  nr_req_id : string;
  nr_prompt_token_ids : option (list Z);
  nr_mm_features : list MMFeature;
  nr_sampling_params : option SamplingParams;
  nr_pooling_params : option PoolingParams;
  nr_block_ids : list (list Z);
  nr_num_computed_tokens : Z;
  nr_lora_request : option LoRARequest;
  nr_prompt_embeds : option (list bytes);
  nr_prompt_is_token_ids : option (list bool);
  nr_prefill_token_ids : option (list Z);
}.

Record CachedRequestData := {
  cr_req_ids : list string;
  cr_resumed_req_ids : gset string;
  cr_new_token_ids : list (list Z);
  cr_all_token_ids : gmap string (list Z);
  cr_new_block_ids : list (option (list (list Z)));
  cr_num_computed_tokens : list Z;
  cr_num_output_tokens : list Z;
}.

Record SchedulerOutput := {
  o_new_reqs : list NewRequestData;
  o_cached_reqs : CachedRequestData;
  o_num_scheduled_tokens : list (string * Z);
  o_total_num_scheduled_tokens : Z;
  o_scheduled_spec_decode_tokens : list (string * list Z);
  o_scheduled_encoder_inputs : list (string * list nat);
  o_num_common_prefix_blocks : list Z;
  o_finished_req_ids : gset string;
  o_free_encoder_mm_hashes : list string;
  o_preempted_req_ids : gset string;
  o_has_structured_output_requests : bool;
  o_pending_structured_output_tokens : bool;
  o_num_invalid_spec_tokens : option (list (string * Z));
  o_new_block_ids_to_zero : option (list Z);
  o_kv_cache_block_copies : option (list (Z * Z));
  o_num_spec_tokens_to_schedule : Z;
}.

#[export] Instance SchedulerOutput_eta : Eta SchedulerOutput := fun o =>
  Build_SchedulerOutput (o_new_reqs o) (o_cached_reqs o) (o_num_scheduled_tokens o) (o_total_num_scheduled_tokens o)
    (o_scheduled_spec_decode_tokens o) (o_scheduled_encoder_inputs o) (o_num_common_prefix_blocks o)
    (o_finished_req_ids o) (o_free_encoder_mm_hashes o) (o_preempted_req_ids o) (o_has_structured_output_requests o)
    (o_pending_structured_output_tokens o) (o_num_invalid_spec_tokens o) (o_new_block_ids_to_zero o)
    (o_kv_cache_block_copies o) (o_num_spec_tokens_to_schedule o).

(** [x or None] for a list *)
Definition or_none {A} (l : list A) : option (list A) := match l with [] => None | _ => Some l end.

Section output.
Context {E : Type} `{EncoderCacheOps E, EncoderCacheFree E}.
Context (sha256 : bytes -> bytes) (report_full : Request -> bool).
Local Abbreviation Sch := (Scheduler E).

(** [NewRequestData.from_request(request, block_ids, prefill_token_ids)] *)
Definition new_request_data (r : Request) (block_ids : list (list Z)) (prefill : option (list Z)) : NewRequestData :=
  {| nr_req_id := request_id r; nr_prompt_token_ids := prompt_token_ids r; nr_mm_features := mm_features r;
     nr_sampling_params := sampling_params r; nr_pooling_params := pooling_params r; nr_block_ids := block_ids;
     nr_num_computed_tokens := num_computed_tokens r; nr_lora_request := lora_request r;
     nr_prompt_embeds := prompt_embeds r; nr_prompt_is_token_ids := prompt_is_token_ids r;
     nr_prefill_token_ids := prefill |}.

(** One entry of [new_reqs_data] *)
Definition make_new_request (v : step_vars) (rid : string) : M Sch NewRequestData :=
  s ← gets id;
  r ← get_request rid;
  b ← of_option KeyError (odict_get rid (req_to_new_blocks v));
  mret (new_request_data r (default [] (get_block_ids (kv_cache_manager s) b false))
         (if use_v2_model_runner (config s) then Some (all_token_ids r) else None)).

(** The loop body of [_make_cached_request_data]: request [rid], resumed or running. *)
Definition add_cached_request (v : step_vars) (d : CachedRequestData) (x : bool * string) : M Sch CachedRequestData :=
  let '(resumed, rid) := x in
  s ← gets id;
  r ← get_request rid;
  let c := config s in
  new_tokens ←
    (if use_pp c && negb (async_scheduling c) then
       n ← of_option KeyError (odict_get rid (num_scheduled_tokens v));
       let k := (n - zlen (default [] (odict_get rid (scheduled_spec_decode_tokens v))))%Z in
       mret (cr_new_token_ids d ++ [slice (num_computed_tokens r) (num_computed_tokens r + k) (all_token_ids r)])
     else mret (cr_new_token_ids d));
  b ← of_option KeyError (odict_get rid (req_to_new_blocks v));
  mret {| cr_req_ids := cr_req_ids d ++ [rid];
          cr_resumed_req_ids := if resumed then {[rid]} ∪ cr_resumed_req_ids d else cr_resumed_req_ids d;
          cr_new_token_ids := new_tokens;
          cr_all_token_ids := if negb (use_v2_model_runner c) && bool_decide (rid ∉ prev_step_scheduled_req_ids s)
                              then <[rid := all_token_ids r]> (cr_all_token_ids d) else cr_all_token_ids d;
          cr_new_block_ids := cr_new_block_ids d ++ [get_block_ids (kv_cache_manager s) b true];
          cr_num_computed_tokens := cr_num_computed_tokens d ++ [num_computed_tokens r];
          cr_num_output_tokens := cr_num_output_tokens d ++ [(num_output_tokens r + num_output_placeholders r)%Z] |}.

(** [_make_cached_request_data(...)] *)
Definition make_cached_request_data (running_reqs resumed_reqs : list string) (v : step_vars) : M Sch CachedRequestData :=
  mfold (add_cached_request v)
    {| cr_req_ids := []; cr_resumed_req_ids := ∅; cr_new_token_ids := []; cr_all_token_ids := ∅; cr_new_block_ids := [];
       cr_num_computed_tokens := []; cr_num_output_tokens := [] |}
    ((pair false <$> running_reqs) ++ (pair true <$> resumed_reqs)).

(** [_get_new_block_ids_to_zero()]; only an asynchronous load fills [_skip_zero_block_ids]. *)
Definition get_new_block_ids_to_zero : M Sch (option (list Z)) :=
  ids ← on_kv kv_take_new_block_ids;
  c ← gets config;
  mret (if sc_needs_kv_cache_zeroing c then or_none ids else None).

(** ** [_update_after_schedule] *)

(** The loop body of [Scheduler._update_after_schedule] *)
Definition advance_request (out : SchedulerOutput) (kv : string * Z) : M Sch SchedulerOutput :=
  let '(rid, n) := kv in
  r ← get_request rid;
  let computed := (num_computed_tokens r + n)%Z in
  let prefill := (computed <? num_tokens r + num_output_placeholders r)%Z in
  put_request rid (r <| num_computed_tokens := computed |>
                     <| num_in_flight_tokens := (num_in_flight_tokens r + n)%Z |>
                     <| is_prefill_chunk := prefill |>) ;;
  mwhen (negb prefill) (modify (fun s => s <| inflight_prefills := inflight_prefills s ∖ {[rid]} |>)) ;;
  mret (out <| o_has_structured_output_requests :=
               o_has_structured_output_requests out || (has_structured_output r && negb prefill) |>).

Definition base_update_after_schedule (out : SchedulerOutput) : M Sch SchedulerOutput :=
  out ← mfold advance_request out (o_num_scheduled_tokens out);
  modify (fun s => s <| finished_req_ids := ∅ |> <| reset_preempted_req_ids := ∅ |>) ;;
  mret out.

(** The loop body of [AsyncScheduler._update_after_schedule]: placeholders for the tokens the
    step will sample. *)
Definition add_placeholders (out : SchedulerOutput) (rid : string) : M Sch SchedulerOutput :=
  r ← get_request rid;
  s ← gets id;
  if is_prefill_chunk r then mret out
  else
    let k := zlen (default [] (odict_get rid (o_scheduled_spec_decode_tokens out))) in
    let r' := r <| num_output_placeholders :=
                   (num_output_placeholders r + (num_sampled_tokens_per_step (config s) + k))%Z |>
                <| spec_token_ids := replicate (Z.to_nat (o_num_spec_tokens_to_schedule out)) (-1)%Z |> in
    put_request rid (if use_v2_model_runner (config s)
                     then r' <| next_decode_eligible_step := (current_step s + pp_size (config s))%Z |> else r') ;;
    mret (out <| o_pending_structured_output_tokens :=
                 o_pending_structured_output_tokens out ||
                 (has_structured_output r && (0 <? num_output_placeholders r)%Z) |>).

Definition update_after_schedule (out : SchedulerOutput) : M Sch SchedulerOutput :=
  out ← base_update_after_schedule out;
  c ← gets config;
  if async_scheduling c then mfold add_placeholders out (o_num_scheduled_tokens out).*1 else mret out.

(** ** [schedule] *)

(** The copies of this step; without deferred frees their endpoints return to the pool. *)
Definition take_block_copies : M Sch (option (list (Z * Z))) :=
  '(copies, retained) ← on_kv take_kv_cache_block_copies;
  mwhen (negb (bool_decide (copies = []))) (on_kv (on_kv_pool (free_blocks retained))) ;;
  mret (or_none copies).

(** [num_spec_tokens_to_schedule] *)
Definition spec_tokens_to_schedule (v : step_vars) : M Sch Z :=
  c ← gets config;
  match dynamic_sd_lookup c with
  | Some table =>
      if decide (num_scheduled_tokens v = []) then mret (num_spec_tokens c)
      else of_option IndexError (table !! length (num_scheduled_tokens v))
  | None => mret (num_spec_tokens c)
  end.

Definition make_output (v : step_vars) : M Sch SchedulerOutput :=
  s ← gets id;
  let c := config s in
  common ← (match running s with
            | [] => mret (replicate (length (managers (kv_cache_manager s))) 0%Z)
            | rid :: _ => on_kv (coord_num_common_prefix_blocks rid)
            end);
  let '(new, resumed) := if use_v2_model_runner c then (scheduled_new_reqs v ++ scheduled_resumed_reqs v, [])
                         else (scheduled_new_reqs v, scheduled_resumed_reqs v) in
  new_reqs ← mmap (make_new_request v) new;
  cached ← make_cached_request_data (scheduled_running_reqs v) resumed v;
  mwhen (negb (use_v2_model_runner c))
    (modify (fun s => s <| prev_step_scheduled_req_ids := list_to_set (num_scheduled_tokens v).*1 |>)) ;;
  copies ← take_block_copies;
  spec ← spec_tokens_to_schedule v;
  freed ← on_encoder_cache op_get_freed_mm_hashes;
  zero ← get_new_block_ids_to_zero;
  s ← gets id;
  mret {| o_new_reqs := new_reqs; o_cached_reqs := cached; o_num_scheduled_tokens := num_scheduled_tokens v;
          o_total_num_scheduled_tokens := sum_tokens (num_scheduled_tokens v);
          o_scheduled_spec_decode_tokens := scheduled_spec_decode_tokens v;
          o_scheduled_encoder_inputs := scheduled_encoder_inputs v; o_num_common_prefix_blocks := common;
          o_finished_req_ids := finished_req_ids s; o_free_encoder_mm_hashes := freed;
          o_preempted_req_ids := reset_preempted_req_ids s; o_has_structured_output_requests := false;
          o_pending_structured_output_tokens := false; o_num_invalid_spec_tokens := None;
          o_new_block_ids_to_zero := zero; o_kv_cache_block_copies := copies; o_num_spec_tokens_to_schedule := spec |}.

(** [schedule(throttle_prefills)] *)
Definition schedule (throttle_prefills : bool) : M Sch SchedulerOutput :=
  v ← schedule_requests sha256 report_full throttle_prefills;
  check_constraints v ;;
  out ← make_output v;
  update_after_schedule out.
End output.
