(* ===== verification/SchedulerLife.v ===== *)
(** The life of a request around the scheduling steps (vllm/v1/core/sched/scheduler.py):
    [add_request], [update_from_output], [finish_requests], streaming sessions, draft tokens
    and [reset_prefix_cache]. *)
From S2P Require Import Prelude KVBlock FreeQueue Request BlockHash BlockPool EncoderCache SchedEncoder SchedUtils CacheHit SingleType KVCoordinator KVManager RequestQueue Scheduler SchedulerOutput.

(** [Scheduler.__init__]: nothing runs and nothing waits; the caches were built before. *)
Definition Scheduler_init {E} (c : SchedulerConfig) (ec : E) (kv : KVCache) (include_finished_set : bool) : Scheduler E :=
  {| config := c; requests := ∅; waiting := create_request_queue (policy c);
     skipped_waiting := create_request_queue (policy c); running := []; finished_req_ids := ∅;
     finished_req_ids_dict := if include_finished_set then Some ∅ else None; reset_preempted_req_ids := ∅;
     prev_step_scheduled_req_ids := ∅; num_waiting_for_streaming_input := 0; grammar_compile_error_reqs := ∅;
     grammars := ∅; streaming_queues := ∅; prefill_stats := ∅; encoder_cache_manager := ec; kv_cache_manager := kv;
     current_step := 0; prefill_capacity_bound := false; pause_state := UNPAUSED; inflight_prefills := ∅ |}.

(** What the workers return for a step.  [pooler_output] and [sampled_token_ids] are empty
    where the source has None. *)
Record ModelRunnerOutput := {
  req_id_to_index : gmap string nat;
  sampled_token_ids : list (list Z);
  pooler_output : list (option bytes);
  prompt_logprobs : gset string;
}.

(** [EngineCoreOutput], for the client with index [eo_client]. *)
Record EngineCoreOutput := {
  eo_client : Z;
  eo_request_id : string;
  eo_new_token_ids : list Z;
  eo_finish_reason : option FinishReason;
  eo_pooling_output : option bytes;
  eo_stop_reason : option StopReason;
}.

(** The local variables of [update_from_output] that its loop updates. *)
Record update_vars := {
  outputs : list EngineCoreOutput;
  stopped_running_reqs : gset string;
  stopped_preempted_reqs : gset string;
}.

#[export] Instance update_vars_eta : Eta update_vars := fun u =>
  Build_update_vars (outputs u) (stopped_running_reqs u) (stopped_preempted_reqs u).

#[export] Instance MMFeature_eta : Eta MMFeature := fun f =>
  Build_MMFeature (identifier f) (mm_offset f) (mm_length f) (mm_is_embed f).

(** [StreamingUpdate.from_request(request)] *)
Definition update_from_request (r : Request) : option StreamingUpdate :=
  if resumable r
  then Some {| su_mm_features := mm_features r; su_prompt_token_ids := prompt_token_ids r; su_max_tokens := max_tokens r;
               su_arrival_time := arrival_time r; su_sampling_params := sampling_params r |}
  else None.

(** Run a program of [Request] on a request object. *)
Definition on_request {S A} (r : Request) (m : M Request A) : M S (A * Request) := fun s =>
  match m r with (Ok a, r') => (Ok (a, r'), s) | (Raise e, _) => (Raise e, s) end.

Section life.
Context {E : Type} `{EncoderCacheOps E, EncoderCacheFree E}.
(** Besides the hashes: whether the grammar of the request rejects its new tokens, and the
    draft tokens the grammar lets through (the grammar backends are third-party code). *)
Context (sha256 : bytes -> bytes) (hasher : option block_hasher).
Context (grammar_rejects : Request -> list Z -> bool) (validate_drafts : Request -> list Z -> list Z).
Local Abbreviation Sch := (Scheduler E).

(** ** Streaming sessions *)

(** The session's new tokens, features, limits and status; its [max_tokens] stays. *)
Definition session_request (session : Request) (update : StreamingUpdate) : M Sch Request :=
  let computed := num_computed_tokens session in
  let kept := slice (num_prompt_tokens session) computed (all_token_ids session) in
  let tokens := slice 0 computed (all_token_ids session) in
  prompt ← of_option AssertionError (prompt_token_ids session);
  let new := default [] (su_prompt_token_ids update) in
  let features := (fun f => f <| mm_offset := (mm_offset f + zlen tokens)%Z |>) <$> su_mm_features update in
  let session := session <| all_token_ids := tokens ++ new |> <| output_token_ids := [] |>
                         <| prompt_token_ids := Some ((prompt ++ kept) ++ new) |>
                         <| mm_features := mm_features session ++ features |> in
  '(_, session) ← on_request session (update_block_hashes hasher);
  mret (session <| num_prompt_tokens := zlen ((prompt ++ kept) ++ new) |>
                <| arrival_time := su_arrival_time update |>
                <| sampling_params := su_sampling_params update |>
                <| status := WAITING |>).

(** [_update_request_as_session(session, update)] *)
Definition update_request_as_session (rid : string) (update : StreamingUpdate) : M Sch unit :=
  session ← get_request rid;
  session' ← session_request session update;
  mwhen (bool_decide (status session = WAITING_FOR_STREAMING_REQ))
    (modify (fun s => s <| num_waiting_for_streaming_input := (num_waiting_for_streaming_input s - 1)%Z |>)) ;;
  put_request rid session'.

(** [_handle_stopped_request(request)] *)
Definition handle_stopped_request (rid : string) : M Sch bool :=
  r ← get_request rid;
  s ← gets id;
  if negb (resumable r) then mret true
  else
    match default [] (streaming_queues s !! rid) with
    | None :: q =>
        modify (fun s => s <| streaming_queues := <[rid := q]> (streaming_queues s) |>) ;; mret true
    | Some update :: q =>
        modify (fun s => s <| streaming_queues := <[rid := q]> (streaming_queues s) |>) ;;
        update_request_as_session rid update ;;
        enqueue_waiting_request rid ;; mret false
    | [] =>
        put_request rid (r <| status := WAITING_FOR_STREAMING_REQ |>) ;;
        modify (fun s => s <| num_waiting_for_streaming_input := (num_waiting_for_streaming_input s + 1)%Z |>) ;;
        enqueue_waiting_request rid ;; mret false
    end.

(** ** Finishing requests *)

(** [_free_request(request)], with [_free_blocks] *)
Definition free_request (rid : string) : M Sch unit :=
  r ← get_request rid;
  massert (is_finished r) ;;
  modify (fun s => s <| inflight_prefills := inflight_prefills s ∖ {[rid]} |>) ;;
  on_encoder_cache (op_free r) ;;
  modify (fun s => s <| finished_req_ids := {[rid]} ∪ finished_req_ids s |>
                     <| finished_req_ids_dict :=
                        (fun d => <[client_index r := {[rid]} ∪ default ∅ (d !! client_index r)]> d)
                          <$> finished_req_ids_dict s |>) ;;
  on_kv (kv_free r) ;;
  modify (fun s => s <| requests := delete rid (requests s) |>).

(** The first pass of [finish_requests]: the valid ids among [ids], and those that run. *)
Definition valid_requests (s : Sch) (ids : list string) : list (string * RequestStatus) :=
  omap (fun rid => r ← requests s !! rid; if is_finished r then None else Some (rid, status r)) ids.

(** [finish_requests(request_ids, finished_status)] for the ids in the order the source
    iterates over them; the ids that were finished. *)
Definition finish_requests (request_ids : list string) (finished_status : RequestStatus) : M Sch (list string) :=
  massert (status_is_finished finished_status) ;;
  s ← gets id;
  let valid := valid_requests s request_ids in
  let running_to_remove := (filter (fun x => x.2 = RUNNING) valid).*1 in
  let waiting_to_remove := (filter (fun x => x.2 <> RUNNING) valid).*1 in
  let streaming := zlen (filter (fun x => x.2 = WAITING_FOR_STREAMING_REQ) valid) in
  modify (fun s => s <| num_waiting_for_streaming_input := (num_waiting_for_streaming_input s - streaming)%Z |>) ;;
  mwhen (negb (bool_decide (running_to_remove = [])))
    (modify (fun s => s <| running := remove_all (running s) (list_to_set running_to_remove) |>)) ;;
  mwhen (negb (bool_decide (waiting_to_remove = [])))
    (modify (fun s => s <| waiting := remove_requests (requests s) waiting_to_remove (waiting s) |>
                        <| skipped_waiting := remove_requests (requests s) waiting_to_remove (skipped_waiting s) |>)) ;;
  mfor valid.*1 (fun rid =>
    r ← get_request rid;
    put_request rid (r <| status := finished_status |>) ;;
    free_request rid) ;;
  mret valid.*1.

(** ** [add_request] *)

Definition add_request (request : Request) : M Sch unit :=
  s ← gets id;
  let rid := request_id request in
  match requests s !! rid with
  | Some existing =>
      let update := update_from_request request in
      if decide (status existing <> WAITING_FOR_STREAMING_REQ) then
        q ← of_option AssertionError (streaming_queues s !! rid);
        modify (fun s => s <| streaming_queues := <[rid := q ++ [update]]> (streaming_queues s) |>)
      else
        match update with
        | Some update => update_request_as_session rid update
        | None => _ ← finish_requests [rid] FINISHED_ABORTED; mret tt
        end
  | None =>
      modify (fun s => s <| streaming_queues :=
        if resumable request then <[rid := []]> (streaming_queues s) else delete rid (streaming_queues s) |>
        <| prefill_stats := {[rid]} ∪ prefill_stats s |>) ;;
      put_request rid request ;;
      enqueue_waiting_request rid
  end.

(** ** The tokens of a step *)

(** [Scheduler._update_request_with_output]: append until the request stops. *)
Fixpoint append_and_check (max_len : Z) (tokens kept : list Z) : M Request (list Z * bool) :=
  match tokens with
  | [] => mret (kept, false)
  | t :: tokens =>
      append_output_token_ids hasher [t] ;;
      stopped ← check_stop max_len;
      if negb stopped then append_and_check max_len tokens (kept ++ [t]) else mret (kept ++ [t], true)
  end.

(** [_update_request_with_output(request, new_token_ids, is_stale)] of either scheduler *)
Definition update_request_with_output (rid : string) (new_token_ids : list Z) (is_stale : bool)
    : M Sch (list Z * bool) :=
  r ← get_request rid;
  c ← gets config;
  let status_before_update := status r in
  '(x, r) ← on_request r (append_and_check (sc_max_model_len c) new_token_ids []);
  put_request rid r ;;
  if async_scheduling c then
    let r := if is_stale then r
             else r <| num_output_placeholders := (num_output_placeholders r - zlen x.1)%Z |> in
    put_request rid r ;;
    mwhen (negb is_stale) (massert (0 <=? num_output_placeholders r)%Z) ;;
    mwhen (bool_decide (status_before_update = RUNNING))
      (r ← on_kv (kv_cache_blocks sha256 r (num_computed_tokens r - num_output_placeholders r));
       put_request rid r) ;;
    mret x
  else mret x.

(** [_free_encoder_inputs(request)] *)
Definition free_encoder_inputs (rid : string) : M Sch unit :=
  s ← gets id;
  r ← get_request rid;
  let c := config s in
  mfor (op_get_cached_input_ids r (encoder_cache_manager s)) (fun input_id =>
    f ← of_option IndexError (mm_features r !! input_id);
    if is_encoder_decoder c && (0 <? num_computed_tokens r)%Z
    then on_encoder_cache (op_free_encoder_input r input_id)
    else mwhen (mm_offset f + mm_length f + num_prefill_lookahead c
                <=? num_computed_tokens r - num_output_placeholders r)%Z
           (on_encoder_cache (op_free_encoder_input r input_id))).

(** The rejected draft tokens are not computed. *)
Definition reject_drafts (num_sampled : Z) (drafts generated : list Z) (r : Request) : Request :=
  let rejected := (zlen drafts - Z.max (zlen generated - num_sampled) 0)%Z in
  let r := if (0 <? num_computed_tokens r)%Z
           then r <| num_computed_tokens := (num_computed_tokens r - rejected)%Z |> else r in
  if (0 <? num_output_placeholders r)%Z
  then r <| num_output_placeholders := (num_output_placeholders r - rejected)%Z |> else r.

(** Drafts, encoder inputs and new tokens: the tokens to emit and whether the request
    stopped. *)
Definition apply_output (out : SchedulerOutput) (mro : ModelRunnerOutput) (rid : string) (stale : bool)
    (generated : list Z) (pooled : option bytes) : M Sch (list Z * bool) :=
  r ← get_request rid;
  c ← gets config;
  let drafts := default [] (odict_get rid (o_scheduled_spec_decode_tokens out)) in
  let sampled := num_sampled_tokens_per_step c in
  mwhen (negb (bool_decide (drafts = [])) && (negb (bool_decide (generated = [])) || (sampled =? 0)%Z) && negb stale)
    (put_request rid (reject_drafts sampled drafts generated r)) ;;
  mwhen (has_encoder_inputs r) (free_encoder_inputs rid) ;;
  r ← get_request rid;
  '(new_token_ids, stopped) ←
    (if negb (bool_decide (generated = [])) then update_request_with_output rid generated stale
     else if (negb (bool_decide (pooling_params r = None)) && negb (bool_decide (pooled = None))) ||
             (is_mm_encoder_only c && (num_prompt_tokens r <=? num_computed_tokens r)%Z)
     then put_request rid (r <| status := FINISHED_STOPPED |>) ;; mret (generated, true)
     else mret (generated, false));
  r ← get_request rid;
  if negb (bool_decide (new_token_ids = [])) && grammar_rejects r new_token_ids
  then put_request rid (r <| status := FINISHED_ERROR |> <| resumable := false |>) ;; mret (new_token_ids, true)
  else mret (new_token_ids, stopped).

(** The loop body of [update_from_output] *)
Definition process_output (out : SchedulerOutput) (mro : ModelRunnerOutput) (u : update_vars) (kv : string * Z)
    : M Sch update_vars :=
  let '(rid, n) := kv in
  massert (0 <? n)%Z ;;
  s ← gets id;
  match requests s !! rid with
  | None => mret u
  | Some r =>
      let stale := (0 <? num_stale_output_tokens r)%Z in
      let r := r <| num_in_flight_tokens := (num_in_flight_tokens r - n)%Z |>
                 <| num_stale_output_tokens := if stale then (num_stale_output_tokens r - n)%Z
                                               else num_stale_output_tokens r |> in
      put_request rid r ;;
      mwhen stale (massert (0 <=? num_stale_output_tokens r)%Z) ;;
      if is_finished r then mret u
      else if stale && drop_stale_output r then mret u
      else
        index ← of_option KeyError (req_id_to_index mro !! rid);
        generated ← (match sampled_token_ids mro with
                     | [] => mret []
                     | l => of_option IndexError (l !! index)
                     end);
        pooled ← (match pooler_output mro with
                  | [] => mret None
                  | l => of_option IndexError (l !! index)
                  end);
        let status_before_stop := status r in
        '(new_token_ids, stopped) ← apply_output out mro rid stale generated pooled;
        r ← get_request rid;
        let emit := negb (bool_decide (new_token_ids = [])) || negb (bool_decide (pooled = None)) || stopped in
        mwhen emit (modify (fun s => s <| prefill_stats := prefill_stats s ∖ {[rid]} |>)) ;;
        u ← (if stopped then
               finished ← handle_stopped_request rid;
               mwhen finished (free_request rid) ;;
               mret (if decide (status_before_stop = RUNNING)
                     then u <| stopped_running_reqs := {[rid]} ∪ stopped_running_reqs u |>
                     else u <| stopped_preempted_reqs := {[rid]} ∪ stopped_preempted_reqs u |>)
             else mret u);
        if emit then
          mret (u <| outputs := outputs u ++
                 [{| eo_client := client_index r; eo_request_id := rid; eo_new_token_ids := new_token_ids;
                     eo_finish_reason := if stopped then get_finished_reason (status r) else None;
                     eo_pooling_output := pooled; eo_stop_reason := stop_reason r |}] |>)
        else massert (bool_decide (rid ∉ prompt_logprobs mro)) ;; mret u
  end.

(** Stopped requests leave the running list or, preempted since, the waiting queues. *)
Definition remove_stopped (u : update_vars) : M Sch unit :=
  modify (fun s => s <| running := remove_all (running s) (stopped_running_reqs u) |>) ;;
  mwhen (negb (bool_decide (stopped_preempted_reqs u = ∅)))
    (modify (fun s =>
       s <| waiting := remove_requests (requests s) (elements (stopped_preempted_reqs u)) (waiting s) |>
         <| skipped_waiting := remove_requests (requests s) (elements (stopped_preempted_reqs u)) (skipped_waiting s) |>)).

(** Requests whose grammar failed to compile finish with an error. *)
Definition finish_errors (u : update_vars) : M Sch update_vars :=
  s ← gets id;
  let ids := elements (grammar_compile_error_reqs s) in
  modify (fun s => s <| grammar_compile_error_reqs := ∅ |>) ;;
  if decide (ids = []) then mret u
  else
    let clients := (fun rid => (rid, from_option client_index 0%Z (requests s !! rid))) <$> ids in
    errors ← finish_requests ids FINISHED_ERROR;
    mret (u <| outputs := outputs u ++
      ((fun rid => {| eo_client := default 0%Z (odict_get rid clients); eo_request_id := rid; eo_new_token_ids := [];
                      eo_finish_reason := get_finished_reason FINISHED_ERROR; eo_pooling_output := None;
                      eo_stop_reason := None |}) <$> errors) |>).

(** [update_from_output(scheduler_output, model_runner_output)]: the outputs in the order
    they are appended, and the finished requests of each client. *)
Definition update_from_output (out : SchedulerOutput) (mro : ModelRunnerOutput)
    : M Sch (list EngineCoreOutput * option (gmap Z (gset string))) :=
  u ← mfold (process_output out mro) {| outputs := []; stopped_running_reqs := ∅; stopped_preempted_reqs := ∅ |}
        (o_num_scheduled_tokens out);
  remove_stopped u ;;
  u ← finish_errors u;
  s ← gets id;
  modify (fun s => s <| finished_req_ids_dict := (fun _ => ∅) <$> finished_req_ids_dict s |>) ;;
  mret (outputs u, finished_req_ids_dict s).

(** ** Draft tokens *)

(** [update_draft_token_ids(draft_token_ids)] *)
Definition update_draft_token_ids (drafts : list (string * list Z)) : M Sch unit :=
  mfor drafts (fun '(rid, spec) =>
    s ← gets id;
    match requests s !! rid with
    | None => mret tt
    | Some r =>
        if is_finished r then mret tt
        else if is_prefill_chunk r then put_request rid (r <| spec_token_ids := [] |>)
        else put_request rid (r <| spec_token_ids := validate_drafts r spec |>)
    end).

(** The loop body of [update_draft_token_ids_in_output]: the scheduled draft tokens and the
    number of invalid ones. *)
Definition fill_drafts (s : Sch) (acc : list (string * list Z) * list (string * Z)) (x : string * list Z)
    : list (string * list Z) * list (string * Z) :=
  let '(sched, invalid) := acc in
  let '(rid, spec) := x in
  match requests s !! rid with
  | None => acc
  | Some r =>
      if is_finished r then acc
      else
        match default [] (odict_get rid sched) with
        | [] => acc
        | placeholders =>
            let spec := validate_drafts r (take (length placeholders) spec) in
            let missing := (zlen placeholders - zlen spec)%Z in
            (odict_set rid (spec ++ replicate (Z.to_nat missing) (-1)%Z) sched,
             if (missing =? 0)%Z then invalid else odict_set rid missing invalid)
        end
  end.

(** [update_draft_token_ids_in_output(draft_token_ids, scheduler_output)] *)
Definition update_draft_token_ids_in_output (drafts : list (string * list Z)) (out : SchedulerOutput)
    : M Sch SchedulerOutput :=
  s ← gets id;
  let '(sched, invalid) := foldl (fill_drafts s) (o_scheduled_spec_decode_tokens out, []) drafts in
  mret (out <| o_scheduled_spec_decode_tokens := sched |> <| o_num_invalid_spec_tokens := Some invalid |>).

(** ** Queries, pausing and resets *)

Definition get_request_counts (s : Sch) : Z * Z :=
  (zlen (running s), queue_len (waiting s) + queue_len (skipped_waiting s))%Z.

Definition get_num_unfinished_requests (s : Sch) : Z :=
  match pause_state s with
  | PAUSED_ALL => 0
  | PAUSED_NEW => zlen (running s)
  | UNPAUSED => queue_len (waiting s) + queue_len (skipped_waiting s) - num_waiting_for_streaming_input s +
                zlen (running s)
  end%Z.

Definition has_finished_requests (s : Sch) : bool := negb (bool_decide (finished_req_ids s = ∅)).
Definition has_requests (s : Sch) : bool := (0 <? get_num_unfinished_requests s)%Z || has_finished_requests s.

Definition set_pause_state (p : PauseState) : M Sch unit := modify (fun s => s <| pause_state := p |>).

(** [while self.running: self._preempt_request(self.running.pop(), ...)] *)
Fixpoint preempt_all (fuel : nat) : M Sch unit :=
  match fuel with
  | O => raise OutOfFuel
  | S fuel =>
      s ← gets id;
      match last (running s) with
      | None => mret tt
      | Some rid =>
          modify (fun s => s <| running := take (length (running s) - 1) (running s) |>) ;;
          preempt_request rid true ;;
          preempt_all fuel
      end
  end.

(** [reset_prefix_cache(reset_running_requests)]; every round of the loop pops one request *)
Definition scheduler_reset_prefix_cache (reset_running_requests : bool) : M Sch bool :=
  s ← gets id;
  mwhen reset_running_requests
    (preempt_all (S (length (running s))) ;;
     modify (fun s => s <| prev_step_scheduled_req_ids := ∅ |>)) ;;
  successful ← on_kv kv_reset_prefix_cache;
  if reset_running_requests && negb successful then raise RuntimeError else mret successful.

Definition reset_encoder_cache : M Sch unit :=
  modify (fun s => s <| encoder_cache_manager := op_reset (encoder_cache_manager s) |>).
End life.
