(* ===== verification/SchedulerLive.v ===== *)
(** Where the requests of a scheduler are: every request it knows is in exactly one of the
    running list and the two waiting queues, and its status says which.  For requests that
    are not resumable (streaming sessions are the subject of SchedulerSession.v). *)
From S2P Require Import Prelude KVBlock FreeQueue Request BlockHash BlockPool EncoderCache SchedEncoder SchedUtils CacheHit SingleType SingleTypeInv SingleTypeAlloc SingleTypeFree KVCoordinator KVManager RequestQueue QueuePerm Scheduler SchedulerInv SchedulerWait SchedulerThms SchedulerOutput SchedulerLife.

Create HintDb live.

Definition waiting_like (st : RequestStatus) : Prop :=
  st = WAITING \/ st = PREEMPTED \/ st = WAITING_FOR_STRUCTURED_OUTPUT_GRAMMAR.

(** What the scheduler never changes of a request. *)
Definition kept (r r' : Request) : Prop :=
  request_id r' = request_id r /\ resumable r' = resumable r /\ mm_features r' = mm_features r.

Lemma same_kept r r' : same_request r r' -> kept r r' /\ status r' = status r.
Proof. intros ->. done. Qed.

Section live.
Context {E : Type} `{EncoderCacheOps E, EncoderCacheFree E}.
Local Abbreviation Sch := (Scheduler E).

(** [ws] are on their way from or to a waiting queue, [rs] on their way from the running
    list. *)
Record live (ws rs : list string) (s : Sch) : Prop := {
  lv_ids : NoDup (all_ids s ++ ws ++ rs);
  lv_run x : x ∈ running s ++ rs -> exists r, requests s !! x = Some r /\ status r = RUNNING;
  lv_wait x : x ∈ queue_items (waiting s) ++ queue_items (skipped_waiting s) ++ ws ->
    exists r, requests s !! x = Some r /\ waiting_like (status r);
  lv_dom x r : requests s !! x = Some r -> x ∈ all_ids s ++ ws ++ rs;
  lv_req x r : requests s !! x = Some r ->
    request_id r = x /\ resumable r = false /\ in_order r /\ streaming_queues s !! x = None;
}.

(** Nothing that [live] speaks of changes. *)
Definition core_eq (s s' : Sch) : Prop :=
  same_queues s s' /\ requests s' = requests s /\ streaming_queues s' = streaming_queues s.

Lemma live_core ws rs s s' : core_eq s s' -> live ws rs s -> live ws rs s'.
Proof using.
  intros ((A1 & A2 & A3) & A4 & A5) [L1 L2 L3 L4 L5]. unfold all_ids in *.
  split; unfold all_ids; rewrite ?A1, ?A2, ?A3, ?A4, ?A5; done.
Qed.

Lemma live_perm ws ws' rs s : ws ≡ₚ ws' -> live ws rs s -> live ws' rs s.
Proof using.
  intros Hp [L1 L2 L3 L4 L5]. split; try done.
  - by rewrite <- Hp.
  - intros x Hx. apply L3. by rewrite Hp.
  - intros x r Hx. rewrite <- Hp. by eapply L4.
Qed.

(** A request may change as long as it stays where it is. *)
Lemma live_put ws rs s rid r r' :
  live ws rs s -> requests s !! rid = Some r -> kept r r' ->
  (status r' = status r \/ waiting_like (status r) /\ waiting_like (status r')) ->
  live ws rs (s <| requests := <[rid := r']> (requests s) |>).
Proof using.
  intros [L1 L2 L3 L4 L5] Hr (K1 & K2 & K3) Hst. split; try done; simpl.
  - intros x Hx. destruct (L2 x Hx) as (q & Hq & Hs). destruct (decide (x = rid)) as [->|Hne]; [|exists q; by rewrite lookup_insert_ne].
    exists r'. rewrite lookup_insert_eq. split; [done|]. rewrite Hr in Hq. injection Hq as <-.
    destruct Hst as [Hst|[Hst _]]; [congruence|]. exfalso. unfold waiting_like in Hst. rewrite Hs in Hst. naive_solver.
  - intros x Hx. destruct (L3 x Hx) as (q & Hq & Hs). destruct (decide (x = rid)) as [->|Hne]; [|exists q; by rewrite lookup_insert_ne].
    exists r'. rewrite lookup_insert_eq. split; [done|]. rewrite Hr in Hq. injection Hq as <-.
    destruct Hst as [Hst|[_ Hst]]; [by rewrite Hst|done].
  - intros x q Hq. destruct (decide (x = rid)) as [->|Hne]; [by eapply (L4 rid r)|]. rewrite lookup_insert_ne in Hq by done. by eapply L4.
  - intros x q Hq. destruct (decide (x = rid)) as [->|Hne].
    + rewrite lookup_insert_eq in Hq. injection Hq as <-. destruct (L5 rid r Hr) as (M1 & M2 & M3 & M4).
      split_and!; [congruence|congruence| |done]. unfold in_order. by rewrite K3.
    + rewrite lookup_insert_ne in Hq by done. by apply L5.
Qed.

(** ** Programs that keep every request in its place *)

Definition keeps {A} (m : M Sch A) : Prop := forall ws rs s, live ws rs s -> ok m (fun _ s' => live ws rs s') s.

Lemma keeps_bind {A B} (m : M Sch A) (k : A -> M Sch B) : keeps m -> (forall a, keeps (k a)) -> keeps (mbind k m).
Proof using.
  intros Hm Hk ws rs s Hs. apply ok_bind. eapply ok_mono; [by apply Hm|]. intros a s1 H1. by apply Hk.
Qed.

Lemma keeps_core {A} (m : M Sch A) : (forall s, ok m (fun _ s' => core_eq s s') s) -> keeps m.
Proof using. intros Hm ws rs s Hs. eapply ok_mono; [apply Hm|]. intros a s' Hc. exact (live_core _ _ _ _ Hc Hs). Qed.

Lemma core_refl s : core_eq s s.
Proof using. done. Qed.

Lemma keeps_ret {A} (a : A) : keeps (mret a).
Proof using. intros ws rs s Hs. exact Hs. Qed.

Lemma keeps_gets {A} (f : Sch -> A) : keeps (gets f).
Proof using. intros ws rs s Hs. exact Hs. Qed.

Lemma keeps_raise {A} e : keeps (raise e : M Sch A).
Proof using. done. Qed.

Lemma keeps_option {A} e (o : option A) : keeps (of_option e o).
Proof using. apply keeps_core. intros s. by apply ok_of_option. Qed.

Lemma keeps_lift {A} (o : outcome A) : keeps (lift_out o).
Proof using. apply keeps_core. intros s. by destruct o. Qed.

Lemma keeps_assert b : keeps (massert b).
Proof using. apply keeps_core. intros s. by apply ok_assert. Qed.

Lemma ok_core_kv {A} (m : M KVCache A) s : ok (on_kv m) (fun _ s' => core_eq s s') s.
Proof using. unfold ok, on_kv. rewrite wpe_zoom. unfold wpe. by destruct (m _) as [[a|e] k]. Qed.

Lemma ok_core_enc {A} (m : M E A) s : ok (on_encoder_cache m) (fun _ s' => core_eq s s') s.
Proof using. unfold ok, on_encoder_cache. rewrite wpe_zoom. unfold wpe. by destruct (m _) as [[a|e] k]. Qed.

Lemma keeps_kv {A} (m : M KVCache A) : keeps (on_kv m).
Proof using. apply keeps_core. intros s. apply ok_core_kv. Qed.

Lemma keeps_enc {A} (m : M E A) : keeps (on_encoder_cache m).
Proof using. apply keeps_core. intros s. apply ok_core_enc. Qed.

Lemma keeps_get rid : keeps (get_request rid).
Proof using. apply keeps_bind; [apply keeps_gets|]. intros s. apply keeps_option. Qed.

Lemma keeps_modify (f : Sch -> Sch) : (forall s, core_eq s (f s)) -> keeps (modify f).
Proof using. intros Hf. apply keeps_core. intros s. apply Hf. Qed.

Lemma keeps_when b (m : M Sch unit) : keeps m -> keeps (mwhen b m).
Proof using. intros Hm. destruct b; [exact Hm|apply keeps_ret]. Qed.

Lemma keeps_fold {A B} (f : B -> A -> M Sch B) b l : (forall b x, keeps (f b x)) -> keeps (mfold f b l).
Proof using.
  intros Hf. revert b. induction l as [|x l IH]; intros b; simpl; [apply keeps_ret|]. apply keeps_bind; [apply Hf|auto].
Qed.

Lemma keeps_for {A} (l : list A) (f : A -> M Sch unit) : (forall x, keeps (f x)) -> keeps (mfor l f).
Proof using.
  intros Hf. induction l as [|x l IH]; simpl; [apply keeps_ret|]. apply keeps_bind; [apply Hf|done].
Qed.

Lemma keeps_map {A B} (f : A -> M Sch B) l : (forall x, keeps (f x)) -> keeps (mmap f l).
Proof using.
  intros Hf. induction l as [|x l IH]; simpl; [apply keeps_ret|]. apply keeps_bind; [apply Hf|]. intros y.
  apply keeps_bind; [done|]. intros ys. apply keeps_ret.
Qed.

(** Read a request, then write it back changed. *)
Lemma ok_update {A} rid (k : Request -> M Sch A) ws rs s Q :
  live ws rs s -> (forall r, requests s !! rid = Some r -> ok (k r) Q s) -> ok (r ← get_request rid; k r) Q s.
Proof using. intros Hs Hk. apply ok_bind, ok_get_request. exact Hk. Qed.

Lemma ok_put_live ws rs s rid r r' (Q : unit -> Sch -> Prop) :
  live ws rs s -> requests s !! rid = Some r -> kept r r' ->
  (status r' = status r \/ waiting_like (status r) /\ waiting_like (status r')) ->
  (live ws rs (s <| requests := <[rid := r']> (requests s) |>) -> Q tt (s <| requests := <[rid := r']> (requests s) |>)) ->
  ok (put_request rid r') Q s.
Proof using. intros Hs Hr Hk Hst HQ. unfold ok, put_request. rewrite wpe_modify. apply HQ. by eapply live_put. Qed.
End live.

#[export] Hint Resolve keeps_ret keeps_gets keeps_raise keeps_option keeps_lift keeps_assert keeps_kv keeps_enc keeps_get
  keeps_when keeps_fold keeps_for keeps_map : live.

(** Walk through a program that writes no request. *)
Ltac keeps :=
  repeat first
    [ progress (eauto with live)
    | apply keeps_bind; [|intros ?]
    | apply keeps_modify; done
    | apply keeps_when
    | apply keeps_fold; intros ? ?
    | apply keeps_for; intros ?
    | apply keeps_map; intros ?
    | match goal with
      | |- keeps (let '_ := ?x in _) => destruct x
      | |- keeps (match ?x with _ => _ end) => destruct x
      end ].

(** ** A scheduling step *)

Section step_live.
Context {E : Type} `{EncoderCacheOps E, EncoderCacheFree E}.
Context (sha256 : bytes -> bytes).
Local Abbreviation Sch := (Scheduler E).

Lemma live_core_ok {A} (m : M Sch A) (s : Sch) ws rs :
  live ws rs s -> ok m (fun _ s' => core_eq s s') s -> ok m (fun _ s' => live ws rs s' /\ requests s' = requests s) s.
Proof using.
  intros Hs Hm. eapply ok_mono; [exact Hm|]. intros a s' Hc. split; [exact (live_core _ _ _ _ Hc Hs)|apply Hc].
Qed.

Lemma running_not_finished r : status r = RUNNING -> ~ waiting_like (status r).
Proof using. intros -> [|[|]]; done. Qed.

Lemma preempt_live rid drop ws rs s :
  live ws (rid :: rs) s -> ok (preempt_request rid drop) (fun _ s' => live ws rs s') s.
Proof using.
  intros Hs. unfold preempt_request. apply ok_bind, ok_get_request. intros r Hr. apply ok_bind, ok_assert. intros _.
  apply ok_bind. eapply ok_mono; [apply live_core_ok; [exact Hs|apply ok_core_kv]|]. intros [] s1 [L1 R1].
  apply ok_bind. eapply ok_mono; [apply live_core_ok; [exact L1|apply ok_core_enc]|]. intros [] s2 [L2 R2].
  apply ok_bind. unfold ok at 1. rewrite wpe_modify. set (s3 := s2 <| inflight_prefills := _ |>).
  assert (L3 : live ws (rid :: rs) s3) by (eapply live_core; [|exact L2]; done). clear L1 L2.
  apply ok_bind. unfold ok at 1, put_request. rewrite wpe_modify. unfold ok. rewrite wpe_modify.
  set (r' := r <| status := PREEMPTED |> <| num_computed_tokens := _ |> <| spec_token_ids := _ |> <| drop_stale_output := _ |>
    <| num_stale_output_tokens := _ |> <| num_output_placeholders := _ |> <| num_preemptions := _ |>).
  assert (Hr3 : requests s3 !! rid = Some r) by (change (requests s2 !! rid = Some r); by rewrite R2, R1).
  destruct L3 as [L1 L2 L3 L4 L5]. unfold all_ids in *. simpl in *.
  assert (Hp : running s2 ++ (queue_items (prepend_request (<[rid:=r']> (requests s2)) rid (waiting s2))) ++
      queue_items (skipped_waiting s2) ≡ₚ rid :: running s2 ++ queue_items (waiting s2) ++ queue_items (skipped_waiting s2)).
  { rewrite prepend_items. simpl. symmetry. apply Permutation_middle. }
  assert (Hmid : forall l : list string, l ++ ws ++ rid :: rs ≡ₚ rid :: l ++ ws ++ rs).
  { intros l. rewrite !app_assoc. symmetry. apply Permutation_middle. }
  rewrite Hmid in L1. split; unfold all_ids; simpl; fold r'.
  - rewrite Hp. exact L1.
  - intros x Hx. destruct (L2 x) as (q & Hq & Hst); [set_solver|]. exists q. split; [|done]. rewrite lookup_insert_ne; [done|].
    intros <-. apply NoDup_cons in L1 as [L1 _]. apply L1. set_solver.
  - intros x Hx. rewrite prepend_items in Hx. simpl in Hx. apply elem_of_cons in Hx as [->|Hx].
    + exists r'. rewrite lookup_insert_eq. split; [done|]. right. by left.
    + destruct (L3 x Hx) as (q & Hq & Hst). exists q. split; [|done]. rewrite lookup_insert_ne; [done|].
      intros <-. apply NoDup_cons in L1 as [L1 _]. apply L1. set_solver.
  - intros x q Hq. rewrite Hp. destruct (decide (x = rid)) as [->|Hne]; [by left|]. rewrite lookup_insert_ne in Hq by done.
    specialize (L4 x q Hq). by rewrite Hmid in L4.
  - intros x q Hq. destruct (decide (x = rid)) as [->|Hne].
    + rewrite lookup_insert_eq in Hq. injection Hq as <-. destruct (L5 rid r Hr3) as (M1 & M2 & M3 & M4). done.
    + rewrite lookup_insert_ne in Hq by done. by apply L5.
Qed.

Lemma live_take ws rs (s : Sch) victim run' :
  live ws rs s -> running s ≡ₚ victim :: run' -> live ws (victim :: rs) (s <| running := run' |>).
Proof using.
  intros [L1 L2 L3 L4 L5] Hp. unfold all_ids in *.
  assert (Hq : all_ids (s <| running := run' |>) ++ ws ++ victim :: rs ≡ₚ all_ids s ++ ws ++ rs).
  { unfold all_ids. simpl. rewrite Hp. simpl. rewrite !app_assoc. symmetry. apply Permutation_middle. }
  split; simpl; try done.
  - by rewrite Hq.
  - intros x Hx. apply L2. rewrite Hp. set_solver.
  - intros x r Hr. rewrite Hq. by eapply L4.
Qed.

Lemma unschedule_keeps rid v : keeps (E := E) (unschedule rid v).
Proof using. unfold unschedule, sum_encoder_embeds. keeps. Qed.

Lemma take_victim_live v ws rs (s : Sch) : live ws rs s -> ok (take_victim v) (fun x s' => live ws (x.1 :: rs) s') s.
Proof using.
  intros Hs. unfold take_victim. apply ok_bind, ok_gets. unfold id. destruct (policy (config s)).
  - apply ok_bind, ok_of_option. intros victim [t Ht]%last_Some. apply ok_bind. unfold ok. rewrite wpe_modify, wpe_ret.
    apply (live_take ws rs s); [done|]. rewrite Ht, length_app, Nat.add_sub, take_app_length. by rewrite Permutation_app_comm.
  - apply ok_bind, ok_of_option. intros victim _. apply ok_bind, ok_of_option. intros [i y] (Hi & -> & _)%list_find_Some.
    apply ok_bind. unfold ok at 1. rewrite wpe_modify. apply ok_bind. apply delete_Permutation in Hi.
    set (v1 := if decide (i < req_index v) then _ else v).
    eapply (ok_mono _ (fun _ s' => live ws (victim :: rs) s')); [|done].
    assert (L : live ws (victim :: rs) (s <| running := delete i (running s) |>)) by (by apply (live_take ws rs s)).
    destruct (decide (victim ∈ scheduled_running_reqs v1)); [by apply unschedule_keeps|exact L].
Qed.

Lemma allocate_or_preempt_live fuel rid n v s :
  live [] [] s -> ok (allocate_or_preempt sha256 fuel rid n v) (fun _ s' => live [] [] s') s.
Proof using.
  revert v s. induction fuel as [|fuel IH]; intros v s Hs; [done|]. cbn [allocate_or_preempt].
  apply ok_bind, ok_get_request. intros r Hr. apply ok_bind, ok_gets. unfold id. apply ok_bind.
  eapply ok_mono; [apply ok_returns; [apply returns_zoom, allocate_slots_same|apply live_core_ok; [exact Hs|apply ok_core_kv]]|].
  intros [b r'] s1 [[Hk Hst]%same_kept [L1 R1]]. cbn [snd] in *. apply ok_bind.
  eapply ok_put_live; [exact L1|by rewrite R1|done|by left|]. intros L2. destruct b as [b|]; [done|].
  apply ok_bind. eapply ok_mono; [by apply take_victim_live|]. intros [victim v3] s3 L3. apply ok_bind.
  eapply ok_mono; [by apply preempt_live|]. intros [] s4 L4. case_decide; [done|]. by apply IH.
Qed.

Lemma spec_tokens_live rid n v ws rs (s : Sch) : live ws rs s -> ok (schedule_spec_tokens rid n v) (fun _ s' => live ws rs s') s.
Proof using.
  intros Hs. unfold schedule_spec_tokens. apply ok_bind, ok_get_request. intros r Hr. case_decide; [done|].
  apply ok_bind. eapply ok_put_live; [exact Hs|done|done|by left|]. intros L. exact L.
Qed.

Lemma encoder_keeps r computed n budget : keeps (E := E) (schedule_encoder_inputs r computed n budget).
Proof using. unfold schedule_encoder_inputs. keeps. Qed.

Lemma record_keeps rid inputs external budget v : keeps (E := E) (record_encoder_inputs rid inputs external budget v).
Proof using. unfold record_encoder_inputs. keeps. Qed.

Lemma schedule_one_running_live defer v s :
  live [] [] s -> ok (schedule_one_running sha256 defer v) (fun _ s' => live [] [] s') s.
Proof using.
  intros Hs. unfold schedule_one_running. apply ok_bind, ok_gets. unfold id.
  apply ok_bind, ok_of_option. intros rid Hrid. apply ok_bind, ok_get_request. intros r Hreq.
  destruct (_ <=? _)%Z; [done|]. destruct (passed_over s defer r); [done|].
  apply ok_bind. eapply ok_mono; [by apply encoder_keeps|]. intros [[[inputs n] budget] external] s1 L1.
  destruct (_ =? 0)%Z; [done|]. apply ok_bind. eapply ok_mono; [by apply allocate_or_preempt_live|].
  intros [[b|] v2] s2 L2; [|done]. apply ok_bind, ok_get_request. intros r2 Hreq2. apply ok_bind.
  eapply ok_mono; [by apply spec_tokens_live|]. intros v3 s3 L3. apply ok_bind.
  eapply ok_mono; [exact (record_keeps rid inputs external budget v3 _ _ _ L3)|]. by intros v4 s4 L4.
Qed.

Lemma schedule_running_live defer v s :
  live [] [] s -> ok (schedule_running sha256 defer v) (fun _ s' => live [] [] s') s.
Proof using.
  intros Hs. unfold schedule_running. apply ok_bind, ok_gets. unfold id.
  apply (while_loop_ok (fun _ s' => live [] [] s')); [done|]. intros v1 s1 L1 _.
  eapply ok_mono; [by apply schedule_one_running_live|]. by intros [v2|v2] s2 L2.
Qed.

(** ** The waiting queues *)

Context (report_full : Request -> bool).

Lemma promote_live rid ws rs (s : Sch) :
  live ws rs s -> ok (try_promote_blocked_waiting_request rid) (fun _ s' => live ws rs s') s.
Proof using.
  intros Hs. unfold try_promote_blocked_waiting_request. apply ok_bind, ok_get_request. intros r Hr. apply ok_bind, ok_gets. unfold id.
  destruct (status r) eqn:Hst; try done.
  - destruct (grammars s !! rid) as [[]|]; try done.
    + apply ok_bind. eapply ok_put_live; [exact Hs|done|done| |by intros L].
      right. rewrite Hst. split; [do 2 right; done|by left].
    + apply ok_bind. unfold ok. rewrite wpe_modify, wpe_ret. by apply (live_core _ _ s).
  - apply ok_bind, ok_assert. done.
Qed.

Lemma ready_live rid v ws rs (s : Sch) : live ws rs s -> ok (ready_to_schedule rid v) (fun _ s' => live ws rs s') s.
Proof using.
  intros Hs. unfold ready_to_schedule. apply ok_bind, ok_get_request. intros r Hr. apply ok_bind.
  eapply (ok_mono _ (fun _ s' => live ws rs s')); [destruct (is_blocked_waiting_status _); [by apply promote_live|done]|].
  intros b s1 L1. destruct (negb b); [exact L1|]. apply ok_bind, ok_get_request. intros r1 Hr1. exact L1.
Qed.

Lemma lookup_live rid ws rs (s : Sch) :
  live ws rs s -> ok (lookup_prefix sha256 report_full rid) (fun _ s' => live ws rs s') s.
Proof using.
  intros Hs. unfold lookup_prefix. apply ok_bind, ok_get_request. intros r Hr. destruct (_ =? 0)%Z; [|done]. apply ok_bind.
  eapply ok_mono; [apply ok_returns; [apply returns_zoom, get_computed_same|apply live_core_ok; [exact Hs|apply ok_core_kv]]|].
  intros [[[blocks n] boundary] r'] s1 [[Hk Hst]%same_kept [L1 R1]]. cbn [snd] in *. apply ok_bind.
  eapply ok_put_live; [exact L1|by rewrite R1|done|by left|]. set (s2 := s1 <| requests := _ |>). intros L2.
  assert (K : keeps (E := E) (massert (n <=? num_tokens r')%Z ;; stats ← gets prefill_stats;
    mwhen (bool_decide (rid ∈ stats) && (num_preemptions r' <=? 0)%Z) (massert (n <=? num_prompt_tokens r')%Z) ;;
    mret (blocks, n, n))) by keeps.
  exact (K _ _ _ L2).
Qed.

Lemma waiting_tokens_keeps c v r computed : keeps (E := E) (waiting_new_tokens c v r computed).
Proof using. unfold waiting_new_tokens. keeps. Qed.

Lemma admit_live rid defer v ws rs (s : Sch) :
  live ws rs s -> ok (admit_request sha256 report_full rid defer v) (fun _ s' => live ws rs s') s.
Proof using.
  intros Hs. unfold admit_request. apply ok_bind, ok_gets. apply ok_bind. eapply ok_mono; [by apply lookup_live|].
  intros [[blocks local] computed] s1 L1. apply ok_bind, ok_get_request. intros r Hr. destruct (_ && _); [done|].
  apply ok_bind. eapply ok_mono; [apply waiting_tokens_fit|]. intros [[n pad]|] s' [-> _]; [|done].
  apply ok_bind. eapply (ok_mono _ (fun _ s2 => live ws rs s2 /\ requests s2 = requests s1)).
  { unfold schedule_encoder_inputs. apply ok_bind, ok_gets. destruct (has_encoder_inputs r); [|done].
    apply live_core_ok; [done|apply ok_core_enc]. }
  intros [[[inputs n'] budget] external] s2 [L2 R2]. destruct (_ =? 0)%Z; [done|]. apply ok_bind.
  eapply (ok_mono _ (fun _ s' => s' = s2)); [destruct (_ && _); [apply sum_embeds_same|done]|].
  intros enc s' ->. apply ok_bind, ok_gets. unfold id. apply ok_bind.
  eapply ok_mono; [apply ok_returns; [apply returns_zoom, allocate_slots_same|apply live_core_ok; [exact L2|apply ok_core_kv]]|].
  intros [b r'] s3 [[Hk Hst]%same_kept [L3 R3]]. cbn [snd] in *. apply ok_bind.
  eapply ok_put_live; [exact L3|by rewrite R3, R2|done|by left|]. intros L4. destruct b as [b|]; [done|].
  assert (K : keeps (E := E) (mwhen (has_encoder_inputs r') (on_encoder_cache (op_free r')) ;; mret (Halt (A := Z * Z * bool * list nat * list nat * Z)))) by keeps.
  exact (K _ _ _ L4).
Qed.

Lemma pop_live w ws rs (s : Sch) : live ws rs s -> ok (pop_from w) (fun x s' => live (x :: ws) rs s') s.
Proof using.
  intros Hs. unfold pop_from. apply ok_bind, ok_gets. unfold id. apply ok_bind. unfold lift_out.
  destruct (pop_request _ _) as [[x q]|e] eqn:Hp; [|done]. apply pop_items in Hp as [Hp _]. unfold ok. rewrite wpe_ret.
  rewrite wpe_bind, wpe_modify, wpe_ret. set (s' := match w with InWaiting => _ | InSkipped => _ end).
  assert (Hq : queue_items (waiting s) ++ queue_items (skipped_waiting s) ≡ₚ
    x :: queue_items (waiting s') ++ queue_items (skipped_waiting s')).
  { destruct w; simpl in *; rewrite Hp; [done|]. symmetry. apply Permutation_middle. }
  assert (Hr : running s' = running s /\ requests s' = requests s /\ streaming_queues s' = streaming_queues s) by (by destruct w).
  destruct Hr as (R1 & R2 & R3). destruct Hs as [L1 L2 L3 L4 L5].
  assert (Ha : all_ids s' ++ (x :: ws) ++ rs ≡ₚ all_ids s ++ ws ++ rs).
  { unfold all_ids. rewrite R1, Hq. simpl. rewrite <- !app_assoc. apply Permutation_app_head.
    rewrite !(app_assoc (queue_items (waiting s'))). symmetry. apply Permutation_middle. }
  split; rewrite ?R1, ?R2, ?R3; try done.
  - by rewrite Ha.
  - intros y Hy. apply L3. rewrite app_assoc, Hq. set_solver.
  - intros y r Hr. rewrite Ha. by eapply L4.
Qed.

Lemma start_live rid n computed pad inputs external budget v ws rs (s : Sch) :
  live (rid :: ws) rs s -> ok (start_running rid n computed pad inputs external budget v) (fun _ s' => live ws rs s') s.
Proof using.
  clear report_full. intros Hs. unfold start_running. apply ok_bind. unfold ok at 1. rewrite wpe_modify.
  set (s1 := s <| running := _ |>). apply ok_bind, ok_get_request. intros r Hr. apply ok_bind, ok_gets. apply ok_bind.
  eapply (ok_mono _ (fun _ s' => s' = s1)); [by destruct (status r)|]. intros v1 s' ->. apply ok_bind, ok_gets. unfold id.
  apply ok_bind. unfold ok at 1, put_request. rewrite wpe_modify. change (requests s1) with (requests s) in Hr.
  set (r' := r <| status := RUNNING |> <| num_computed_tokens := computed |>). set (s2 := s1 <| requests := _ |>).
  assert (L : live ws rs s2).
  { destruct Hs as [L1 L2 L3 L4 L5].
    assert (Ha : all_ids s2 ++ ws ++ rs ≡ₚ all_ids s ++ (rid :: ws) ++ rs).
    { unfold all_ids. simpl. rewrite <- !app_assoc. simpl. apply Permutation_app_head.
      rewrite !(app_assoc (queue_items (waiting s))). apply Permutation_middle. }
    assert (Hnd : NoDup (rid :: all_ids s ++ ws ++ rs)) by (rewrite Permutation_middle; exact L1).
    apply NoDup_cons in Hnd as [Hnd _]. unfold all_ids in Hnd.
    split; [by rewrite Ha| | |intros x q Hq; rewrite Ha; revert Hq|]; unfold s2, s1; simpl.
    - intros x Hx. destruct (decide (x = rid)) as [->|Hne]; [exists r'; by rewrite lookup_insert_eq|].
      rewrite lookup_insert_ne by done. apply L2. set_solver.
    - intros x Hx. rewrite lookup_insert_ne; [apply L3; set_solver|]. intros <-. apply Hnd. set_solver.
    - intros Hq. destruct (decide (x = rid)) as [->|Hne]; [set_solver|].
      rewrite lookup_insert_ne in Hq by done. by eapply L4.
    - intros x q Hq. destruct (decide (x = rid)) as [->|Hne].
      + rewrite lookup_insert_eq in Hq. injection Hq as <-. by apply (L5 rid r Hr).
      + rewrite lookup_insert_ne in Hq by done. by apply L5. }
  clearbody s2. clear -L.
  match goal with |- ok ?m _ _ => assert (K : keeps m) end; [|exact (K _ _ _ L)].
  unfold record_encoder_inputs. keeps.
Qed.

Lemma schedule_one_waiting_live defer vs s :
  live (queue_items vs.2) [] s ->
  ok (schedule_one_waiting sha256 report_full defer vs) (fun o s' =>
    match o with inl vs' | inr vs' => live (queue_items vs'.2) [] s' end) s.
Proof using.
  intros Hs. destruct vs as [v k]. cbn [snd] in Hs. unfold schedule_one_waiting. apply ok_bind, ok_gets. unfold id.
  destruct (_ <=? _)%Z; [done|]. destruct (_ <=? _)%Z; [done|]. apply ok_bind.
  eapply (ok_mono _ (fun _ s' => live (queue_items k) [] s')).
  { assert (K : keeps (E := E) select_waiting_queue_for_scheduling).
    { unfold select_waiting_queue_for_scheduling. keeps. }
    exact (K _ _ _ Hs). }
  clear s Hs. intros w0 s Hs. cbv beta in Hs. apply ok_bind, ok_of_option. intros w _. apply ok_bind, ok_gets. unfold id. apply ok_bind.
  unfold lift_out at 1. destruct (peek_request (the_queue w s)) as [rid|e]; [|done]. unfold ok at 1. rewrite wpe_ret.
  apply ok_bind. eapply ok_mono; [by apply ready_live|]. intros ready s1 L1. cbv beta in L1. destruct (negb ready).
  - apply ok_bind. eapply ok_mono; [by apply pop_live|]. intros x s2 L2. apply ok_bind, ok_gets. unfold ok, id. rewrite wpe_ret.
    cbn [snd]. eapply live_perm; [|exact L2]. by rewrite prepend_items.
  - apply ok_bind. eapply ok_mono; [by apply admit_live|]. intros a s2 L2. cbv beta in L2.
    destruct a as [[[[[[n computed] pad] inputs] external] budget]|]; [|exact L2].
    apply ok_bind. eapply ok_mono; [by apply pop_live|]. intros x s3 L3. cbv beta in L3. apply ok_bind.
    eapply ok_mono; [by apply start_live|]. by intros v' s4 L4.
Qed.

Lemma schedule_waiting_live defer v s :
  live [] [] s -> ok (schedule_waiting sha256 report_full defer v) (fun _ s' => live [] [] s') s.
Proof using.
  intros Hs. unfold schedule_waiting. apply ok_bind, ok_gets. unfold id. apply ok_bind.
  eapply ok_mono; [apply (while_loop_ok (fun vs s' => live (queue_items vs.2) [] s'))|].
  - by destruct (policy (config s)).
  - intros vs s1 L1 _. by apply schedule_one_waiting_live.
  - intros [v1 k1] s1 L1. cbn [snd] in L1. apply ok_bind. eapply (ok_mono _ (fun _ s' => live [] [] s')).
    + unfold mwhen. destruct (queue_bool k1) eqn:Hk.
      * unfold ok. rewrite wpe_modify. destruct L1 as [L1 L2 L3 L4 L5]. rewrite app_nil_r in L1.
        assert (Ha : all_ids (s1 <| skipped_waiting := prepend_requests (requests s1) k1 (skipped_waiting s1) |>) ≡ₚ
          all_ids s1 ++ queue_items k1).
        { unfold all_ids. simpl. rewrite prepend_all_items, <- !app_assoc. do 2 apply Permutation_app_head. apply Permutation_app_comm. }
        split; rewrite ?app_nil_r; try done.
        -- by rewrite Ha.
        -- intros x Hx. apply L2. by rewrite app_nil_r.
        -- intros x Hx. apply L3. simpl in Hx. rewrite prepend_all_items in Hx. set_solver.
        -- intros x r Hr. rewrite Ha. specialize (L4 x r Hr). by rewrite app_nil_r in L4.
      * replace (queue_items k1) with (@nil string) in L1; [exact L1|]. unfold queue_bool, queue_len, zlen in Hk. apply Z.ltb_ge in Hk.
        destruct (queue_items k1); [done|simpl in Hk; lia].
    + intros [] s2 L2. match goal with |- ok ?m _ _ => assert (K : keeps m) by keeps end. exact (K _ _ _ L2).
Qed.
End step_live.
