(* ===== verification/SchedulerReach.v ===== *)
(** The scheduler as a state machine: its invariant holds after every call, in any order. *)
From S2P Require Import Prelude KVBlock FreeQueue Request BlockHash BlockPool EncoderCache SchedEncoder SchedUtils CacheHit SingleType SingleTypeInv SingleTypeAlloc SingleTypeFree KVCoordinator KVManager RequestQueue QueuePerm Scheduler SchedulerInv SchedulerWait SchedulerThms SchedulerOutput SchedulerLife SchedulerLive.

(** ** [schedule] *)

Section schedule.
Context {E : Type} `{EncoderCacheOps E, EncoderCacheFree E}.
Local Abbreviation Sch := (Scheduler E).

(** Nothing the limits speak of changes. *)
Definition limits_eq (s s' : Sch) : Prop :=
  config s' = config s /\ same_queues s s' /\ num_waiting_for_streaming_input s' = num_waiting_for_streaming_input s.

#[export] Instance limits_stable : Stable limits_eq.
Proof using.
  split; [split|..]; try done. intros s1 s2 s3 (A1 & A2 & A3) (B1 & B2 & B3).
  split_and!; [congruence|by eapply same_queues_trans|congruence].
Qed.

(** The invariant between two calls. *)
Record sched_ok (s : Sch) : Prop := {
  sk_live : live [] [] s;
  sk_running : (zlen (running s) <= max_num_running_reqs (config s))%Z;
  sk_stream : (0 <= num_waiting_for_streaming_input s)%Z;
  sk_tokens : (0 <= max_num_scheduled_tokens (config s))%Z;
  sk_batched : (0 <= max_num_batched_tokens (config s))%Z;
  sk_slots : (0 <= draft_slots (config s))%Z;
}.

Lemma sched_ok_wf s : sched_ok s -> sched_wf s.
Proof using.
  intros [L A1 A2 A3 A4 A5]. split; try done.
  - pose proof (lv_ids _ _ _ L) as Hnd. by rewrite !app_nil_r in Hnd.
  - intros rid r Hr. by apply (lv_req _ _ _ L rid r).
Qed.

Lemma sched_ok_limits s s' : limits_eq s s' -> live [] [] s' -> sched_ok s -> sched_ok s'.
Proof using.
  intros (C & (Q & _) & N) L' [L A1 A2 A3 A4 A5]. split; rewrite ?C, ?Q, ?N; done.
Qed.

Lemma make_output_limits v : walks limits_eq (make_output v : M Sch _).
Proof using.
  unfold make_output, make_new_request, make_cached_request_data, add_cached_request, take_block_copies,
    spec_tokens_to_schedule, get_new_block_ids_to_zero. walks.
Qed.

Lemma make_output_keeps v : keeps (make_output v : M Sch _).
Proof using.
  unfold make_output, make_new_request, make_cached_request_data, add_cached_request, take_block_copies,
    spec_tokens_to_schedule, get_new_block_ids_to_zero. keeps.
Qed.

Lemma make_output_tokens v : returns (make_output v : M Sch _) (fun out =>
  o_num_scheduled_tokens out = num_scheduled_tokens v /\
  o_total_num_scheduled_tokens out = sum_tokens (num_scheduled_tokens v)).
Proof using.
  unfold make_output. apply returns_skip. intros s. apply returns_skip. intros common.
  destruct (if use_v2_model_runner _ then _ else _) as [new resumed]. do 8 (apply returns_skip; intros ?).
  by apply returns_ret.
Qed.

Lemma update_after_limits out : walks limits_eq (update_after_schedule out : M Sch _).
Proof using. unfold update_after_schedule, base_update_after_schedule, advance_request, add_placeholders. walks. Qed.

Lemma update_after_tokens out : returns (update_after_schedule out : M Sch _) (fun out' =>
  o_num_scheduled_tokens out' = o_num_scheduled_tokens out /\
  o_total_num_scheduled_tokens out' = o_total_num_scheduled_tokens out).
Proof using.
  set (same out' := o_num_scheduled_tokens out' = o_num_scheduled_tokens out /\
    o_total_num_scheduled_tokens out' = o_total_num_scheduled_tokens out).
  unfold update_after_schedule, base_update_after_schedule. eapply (returns_bind _ _ same).
  - eapply (returns_bind _ _ same); [|intros o Ho; apply returns_skip; intros _; by apply returns_ret].
    apply returns_fold; [done|]. intros o [rid n] Ho. unfold advance_request. do 3 (apply returns_skip; intros ?). by apply returns_ret.
  - intros o Ho. apply returns_skip. intros c. destruct (async_scheduling c); [|by apply returns_ret].
    apply returns_fold; [done|]. intros o' rid Ho'. unfold add_placeholders. do 2 (apply returns_skip; intros ?).
    destruct (is_prefill_chunk _); [by apply returns_ret|]. apply returns_skip. intros _. by apply returns_ret.
Qed.

Lemma advance_keeps out x : keeps (advance_request out x : M Sch _).
Proof using.
  intros ws rs s Hs. destruct x as [rid n]. unfold advance_request. apply ok_bind, ok_get_request. intros r Hr.
  apply ok_bind. eapply ok_put_live; [exact Hs|done|done|by left|]. intros L.
  match goal with |- ok ?m _ _ => assert (K : keeps m) by keeps end. exact (K _ _ _ L).
Qed.

Lemma placeholders_keeps out rid : keeps (add_placeholders out rid : M Sch _).
Proof using.
  intros ws rs s Hs. unfold add_placeholders. apply ok_bind, ok_get_request. intros r Hr. apply ok_bind, ok_gets. unfold id.
  destruct (is_prefill_chunk r); [done|]. apply ok_bind.
  eapply ok_put_live; [exact Hs|done|by destruct (use_v2_model_runner _)|left; by destruct (use_v2_model_runner _)|]. by intros L.
Qed.

Lemma update_after_keeps out : keeps (update_after_schedule out : M Sch _).
Proof using.
  unfold update_after_schedule, base_update_after_schedule. apply keeps_bind.
  - apply keeps_bind; [apply keeps_fold; apply advance_keeps|]. intros o. keeps.
  - intros o. apply keeps_bind; [apply keeps_gets|]. intros c. destruct (async_scheduling c); [|apply keeps_ret].
    apply keeps_fold. apply placeholders_keeps.
Qed.

Context (sha256 : bytes -> bytes) (report_full : Request -> bool).

Lemma schedule_requests_live throttle s :
  live [] [] s -> ok (schedule_requests sha256 report_full throttle) (fun _ s' => live [] [] s') s.
Proof using.
  intros Hs. unfold schedule_requests. apply ok_bind. unfold ok at 1. rewrite wpe_modify.
  set (s1 := s <| current_step := _ |>). assert (L1 : live [] [] s1) by (by apply (live_core _ _ s)).
  apply ok_bind, ok_gets. unfold id. apply ok_bind. eapply ok_mono; [by apply schedule_running_live|]. intros v s2 L2. cbv beta in L2.
  apply ok_bind. eapply (ok_mono _ (fun _ s' => live [] [] s')).
  - assert (K : keeps (record_loras v : M Sch _)) by (unfold record_loras; keeps). exact (K _ _ _ L2).
  - intros v1 s3 L3. apply ok_bind, ok_gets. unfold id. destruct (_ && _); [|exact L3]. by apply schedule_waiting_live.
Qed.

(** What a step promises about its output. *)
Record output_ok (c : SchedulerConfig) (p : PauseState) (out : SchedulerOutput) (s' : Sch) : Prop := {
  oo_total : o_total_num_scheduled_tokens out = sum_tokens (o_num_scheduled_tokens out);
  oo_tokens : (o_total_num_scheduled_tokens out <= if decide (p = PAUSED_ALL) then 0 else max_num_scheduled_tokens c)%Z;
  oo_slots : (o_total_num_scheduled_tokens out + draft_slots c * zlen (o_num_scheduled_tokens out) <= max_num_batched_tokens c)%Z;
  oo_positive : Forall (fun kv => 0 < kv.2)%Z (o_num_scheduled_tokens out);
  oo_distinct : NoDup (o_num_scheduled_tokens out).*1;
  oo_running x : x ∈ (o_num_scheduled_tokens out).*1 -> x ∈ running s';
}.

Lemma schedule_ok throttle s :
  sched_ok s ->
  ok (schedule sha256 report_full throttle) (fun out s' => sched_ok s' /\ config s' = config s /\
    all_ids s' ≡ₚ all_ids s /\ output_ok (config s) (pause_state s) out s') s.
Proof using.
  intros Hs. unfold schedule. apply ok_bind.
  eapply ok_mono; [apply ok_both; [apply schedule_requests_ok, sched_ok_wf, Hs|apply schedule_requests_live, Hs]|].
  intros v s1 [S1 L1]. cbv beta in L1. set (T := token_budget _) in S1.
  assert (HT : (T <= max_num_scheduled_tokens (config s))%Z).
  { unfold T. simpl. destruct Hs. case_decide; lia. }
  apply ok_bind. unfold ok at 1, wpe. rewrite (step_constraints T _ _ _ _ S1 HT).
  apply ok_bind. eapply ok_mono;
    [apply ok_returns; [apply make_output_tokens|apply ok_both; [apply make_output_limits|exact (make_output_keeps v _ _ _ L1)]]|].
  intros out s2 ([O1 O2] & M2 & L2). cbv beta in *.
  eapply ok_mono;
    [apply ok_returns; [apply update_after_tokens|apply ok_both; [apply update_after_limits|exact (update_after_keeps out _ _ _ L2)]]|].
  intros out' s3 ([P1 P2] & M3 & L3). cbv beta in *. rewrite O1, O2 in *.
  assert (M : limits_eq s1 s3) by (etrans; eassumption). destruct M as (M & Q & N).
  destruct S1 as [A1 A2 A3 A4 A5 A6 A7 A8 A9 A10 [A11 A11'] [A12 A12'] A13]. pose proof Q as (Q1 & _ & _). split_and!.
  - destruct Hs as [_ _ _ B4 B5 B6]. split; rewrite ?M, ?Q1, ?N, ?A1; done.
  - by rewrite M.
  - by rewrite (same_queues_ids _ _ Q).
  - split; rewrite ?P1, ?P2; try done; [|lia|by rewrite Q1]. unfold T in A11. simpl in A11. case_decide; lia.
Qed.
End schedule.
