(* ===== verification/SchedulerUpdate.v ===== *)
(** What the calls around the scheduling steps do to the invariant of SchedulerLive.v:
    [add_request], [update_from_output], [finish_requests], draft tokens and
    [reset_prefix_cache]. *)
From S2P Require Import Prelude KVBlock FreeQueue Request BlockHash BlockPool EncoderCache SchedEncoder SchedUtils CacheHit SingleType SingleTypeInv SingleTypeAlloc SingleTypeFree KVCoordinator KVManager RequestQueue QueuePerm Scheduler SchedulerInv SchedulerWait SchedulerThms SchedulerOutput SchedulerLife SchedulerLive SchedulerReach.

(** ** Removing requests *)

Lemma remove_all_filter (l : list string) (X : gset string) : NoDup l -> remove_all l X = filter (fun x => x ∉ X) l.
Proof.
  intros Hnd. unfold remove_all. pose proof (elem_of_elements X) as HX. destruct (elements X) as [|x [|y xs]]; [| |done].
  - symmetry. apply list_filter_all. intros z _ Hz%HX. by apply elem_of_nil in Hz.
  - rewrite (remove_first_filter x l Hnd). apply list_filter_iff. intros z. rewrite <- HX, list_elem_of_singleton. done.
Qed.

Lemma remove_requests_items reqs ids q : queue_items (remove_requests reqs ids q) ≡ₚ filter (fun x => x ∉ ids) (queue_items q).
Proof. destruct q; simpl; [done|apply heapify_perm]. Qed.

Lemma filter_ext_in (P Q : string -> Prop) `{!forall x, Decision (P x), !forall x, Decision (Q x)} (l : list string) :
  (forall x, x ∈ l -> P x <-> Q x) -> filter P l = filter Q l.
Proof.
  induction l as [|x l IH]; intros Hl; [done|]. rewrite !filter_cons, IH by (intros y Hy; apply Hl; by right).
  pose proof (Hl x ltac:(by left)). repeat case_decide; naive_solver.
Qed.

Section update.
Context {E : Type} `{EncoderCacheOps E, EncoderCacheFree E}.
Local Abbreviation Sch := (Scheduler E).

(** The requests outside [X] stay where they are. *)
Lemma live_without (X : gset string) (s s' : Sch) :
  live [] [] s ->
  (forall x, requests s' !! x = if decide (x ∈ X) then None else requests s !! x) ->
  running s' = filter (fun x => x ∉ X) (running s) ->
  queue_items (waiting s') ≡ₚ filter (fun x => x ∉ X) (queue_items (waiting s)) ->
  queue_items (skipped_waiting s') ≡ₚ filter (fun x => x ∉ X) (queue_items (skipped_waiting s)) ->
  streaming_queues s' = streaming_queues s -> live [] [] s'.
Proof using.
  intros [L1 L2 L3 L4 L5] Hreq Hrun Hwait Hskip Hstr. rewrite !app_nil_r in L1. rewrite !app_nil_r in L2.
  assert (Hids : all_ids s' ≡ₚ filter (fun x => x ∉ X) (all_ids s)).
  { unfold all_ids. by rewrite Hrun, Hwait, Hskip, !filter_app. }
  split; rewrite ?app_nil_r.
  - rewrite Hids. by apply NoDup_filter.
  - intros x Hx. rewrite Hrun in Hx. apply list_elem_of_filter in Hx as [HX Hx]. rewrite Hreq, decide_False by done. by apply L2.
  - intros x Hx. rewrite Hwait, Hskip, <- filter_app in Hx. apply list_elem_of_filter in Hx as [HX Hx].
    rewrite Hreq, decide_False by done. apply L3. by rewrite app_nil_r.
  - intros x r Hr. rewrite Hreq in Hr. case_decide as HX; [done|]. rewrite Hids. apply list_elem_of_filter. split; [done|].
    specialize (L4 x r Hr). by rewrite !app_nil_r in L4.
  - intros x r Hr. rewrite Hreq in Hr. case_decide as HX; [done|]. rewrite Hstr. by apply L5.
Qed.

(** Only the request [rid] changes. *)
Record touched (rid : string) (P : Request -> Prop) (s s' : Sch) : Prop := {
  to_limits : limits_eq s s';
  to_streaming : streaming_queues s' = streaming_queues s;
  to_other x : x <> rid -> requests s' !! x = requests s !! x;
  to_self : exists r, requests s' !! rid = Some r /\ P r;
}.

Lemma touched_put rid r (P : Request -> Prop) s :
  P r -> touched rid P s (s <| requests := <[rid := r]> (requests s) |>).
Proof using.
  intros HP. split; try done; simpl.
  - intros x Hx. by rewrite lookup_insert_ne.
  - exists r. by rewrite lookup_insert_eq.
Qed.

Lemma touched_trans rid P Q s1 s2 s3 : touched rid P s1 s2 -> touched rid Q s2 s3 -> touched rid Q s1 s3.
Proof using.
  intros [A1 A2 A3 A4] [B1 B2 B3 B4]. split; [by etrans|congruence| |done]. intros x Hx. by rewrite B3, A3.
Qed.

(** A call on a cache leaves the requests alone. *)
Definition rest_eq (s s' : Sch) : Prop := limits_eq s s' /\ streaming_queues s' = streaming_queues s /\ requests s' = requests s.

Lemma rest_refl s : rest_eq s s.
Proof using. done. Qed.

Lemma rest_kv {A} (m : M KVCache A) s : ok (on_kv m) (fun _ s' => rest_eq s s') s.
Proof using. unfold ok, on_kv. rewrite wpe_zoom. unfold wpe. by destruct (m _) as [[a|e] k]. Qed.

Lemma rest_enc {A} (m : M E A) s : ok (on_encoder_cache m) (fun _ s' => rest_eq s s') s.
Proof using. unfold ok, on_encoder_cache. rewrite wpe_zoom. unfold wpe. by destruct (m _) as [[a|e] k]. Qed.

Lemma rest_trans s1 s2 s3 : rest_eq s1 s2 -> rest_eq s2 s3 -> rest_eq s1 s3.
Proof using. intros (A1 & A2 & A3) (B1 & B2 & B3). split_and!; [by etrans|congruence|congruence]. Qed.

Lemma touched_rest rid P s1 s2 s3 : touched rid P s1 s2 -> rest_eq s2 s3 -> touched rid P s1 s3.
Proof using.
  intros [A1 A2 A3 A4] (B1 & B2 & B3). split; [by etrans|congruence| |by rewrite B3]. intros x Hx. by rewrite B3, A3.
Qed.

Lemma rest_touched rid P s1 s2 s3 : rest_eq s1 s2 -> touched rid P s2 s3 -> touched rid P s1 s3.
Proof using.
  intros (A1 & A2 & A3) [B1 B2 B3 B4]. split; [by etrans|congruence| |done]. intros x Hx. by rewrite B3, A3.
Qed.

Lemma rest_self rid r (P : Request -> Prop) s s' : rest_eq s s' -> requests s !! rid = Some r -> P r -> touched rid P s s'.
Proof using. intros (A1 & A2 & A3) Hr HP. split; try done; [by intros x _; rewrite A3|]. exists r. by rewrite A3. Qed.

(** ** Stopped requests *)

(** The state without the requests that stopped. *)
Definition clean (u : update_vars) (s : Sch) : Sch :=
  s <| running := filter (fun x => x ∉ stopped_running_reqs u) (running s) |>
    <| waiting := FCFSRequestQueue (filter (fun x => x ∉ stopped_preempted_reqs u) (queue_items (waiting s))) |>
    <| skipped_waiting := FCFSRequestQueue (filter (fun x => x ∉ stopped_preempted_reqs u) (queue_items (skipped_waiting s))) |>.

Lemma clean_limits u s s' : limits_eq s s' -> same_queues (clean u s) (clean u s').
Proof using. intros (_ & (A1 & A2 & A3) & _). unfold clean, same_queues. simpl. by rewrite A1, A2, A3. Qed.

(** A request that went on running. *)
Lemma clean_touched u rid r r' s s' :
  live [] [] (clean u s) -> requests s !! rid = Some r -> touched rid (fun x => x = r') s s' -> kept r r' ->
  status r' = status r -> live [] [] (clean u s').
Proof using.
  intros L Hr [T1 T2 T3 (r2 & Hr2 & ->)] Hk Hst.
  eapply (live_core _ _ ((clean u s) <| requests := <[rid := r']> (requests s) |>)).
  - split_and!; [exact (clean_limits u s s' T1)| |done]. apply map_eq. intros x. simpl. destruct (decide (x = rid)) as [->|Hne].
    + by rewrite lookup_insert_eq.
    + rewrite lookup_insert_ne by done. by apply T3.
  - apply (live_put [] [] (clean u s) rid r); [done|done|done|by left].
Qed.

Lemma filter_absent (x : string) (l : list string) : x ∉ l -> filter (fun y => y ∉ ({[x]} : gset string)) l = l.
Proof using. intros Hx. apply list_filter_all. intros y Hy ->%elem_of_singleton. done. Qed.

Lemma filter_union (x : string) (X : gset string) (l : list string) :
  filter (fun y => y ∉ {[x]} ∪ X) l = filter (fun y => y ∉ ({[x]} : gset string)) (filter (fun y => y ∉ X) l).
Proof using. rewrite list_filter_filter. apply list_filter_iff. intros y. set_solver. Qed.

(** A request that stopped leaves the map; its id is dropped from the list it is in. *)
Lemma clean_stopped u rid r s s' :
  live [] [] (clean u s) -> requests s !! rid = Some r -> limits_eq s s' -> streaming_queues s' = streaming_queues s ->
  (forall x, requests s' !! x = if decide (x = rid) then None else requests s !! x) ->
  live [] [] (clean (if decide (status r = RUNNING)
                     then u <| stopped_running_reqs := {[rid]} ∪ stopped_running_reqs u |>
                     else u <| stopped_preempted_reqs := {[rid]} ∪ stopped_preempted_reqs u |>) s').
Proof using.
  intros L Hr (_ & (A1 & A2 & A3) & _) Hstr Hreq. eapply (live_without {[rid]} (clean u s)); [exact L|..|done].
  { intros x. simpl. rewrite Hreq. repeat case_decide; set_solver. }
  all: case_decide as Hst; unfold clean; simpl; rewrite ?A1, ?A2, ?A3, ?filter_union; try done.
  all: try (rewrite filter_absent; [done|]; intros Hx; destruct (lv_wait _ _ _ L rid) as (q & Hq & Hw); [set_solver|];
    simpl in Hq; rewrite Hr in Hq; injection Hq as <-; rewrite Hst in Hw; unfold waiting_like in Hw; naive_solver).
  rewrite filter_absent; [done|]. intros Hx. destruct (lv_run _ _ _ L rid) as (q & Hq & Hw); [set_solver|].
  simpl in Hq. rewrite Hr in Hq. injection Hq as <-. done.
Qed.

(** ** Output tokens *)

Context (sha256 : bytes -> bytes) (hasher : option block_hasher).
Context (grammar_rejects : Request -> list Z -> bool) (validate_drafts : Request -> list Z -> list Z).

(** The block hasher only fills its cache of prompt-embedding hashes. *)
Definition hasher_tame (h : option block_hasher) : Prop :=
  forall m, h = Some m -> forall r, wpe m (fun _ r' => same_request r r') (fun _ => True) r.

Context (Htame : hasher_tame hasher).

(** Whether the request stopped shows in its status. *)
Definition verdict (r : Request) (stopped : bool) (r' : Request) : Prop :=
  kept r r' /\ if stopped then is_finished r' = true else status r' = status r.

Lemma append_kept toks r : wpe (append_output_token_ids hasher toks) (fun _ r' => kept r r' /\ status r' = status r) (fun _ => True) r.
Proof using Htame.
  unfold append_output_token_ids. rewrite wpe_bind, wpe_modify, wpe_bind, wpe_modify. unfold update_block_hashes.
  destruct hasher as [h|] eqn:Hh; [|done]. rewrite wpe_bind. eapply wpe_mono; [by apply Htame| |done].
  intros hs r' Hr'. rewrite wpe_modify. apply same_kept in Hr' as [Hk Hs]. done.
Qed.

Lemma check_stop_verdict max_len r : wpe (check_stop max_len) (fun b r' => verdict r b r') (fun _ => True) r.
Proof using.
  unfold check_stop, verdict, kept. rewrite wpe_bind, wpe_gets. unfold id. rewrite wpe_bind. apply wpe_assert; [done|]. intros _.
  rewrite wpe_bind. apply wpe_of_option; [done|]. intros sp _. rewrite wpe_bind. apply wpe_of_option; [done|]. intros t _.
  repeat (case_bool_decide || destruct (_ || _) || destruct (_ <? _)%Z); try done.
  destruct (repetition_detection sp) as [p|]; [|done]. by destruct (check_sequence_repetition _ p) as [[]|].
Qed.

Lemma append_check_verdict max_len toks acc r :
  wpe (append_and_check hasher max_len toks acc) (fun x r' => verdict r x.2 r') (fun _ => True) r.
Proof using Htame.
  revert acc r. induction toks as [|t toks IH]; intros acc r; simpl; [done|]. rewrite wpe_bind.
  eapply wpe_mono; [apply append_kept| |done]. intros [] r1 [(K1 & K2 & K3) S1]. rewrite wpe_bind.
  eapply wpe_mono; [apply check_stop_verdict| |done]. intros b r2 [(J1 & J2 & J3) S2].
  destruct b; simpl.
  - split; [|done]. split_and!; congruence.
  - eapply wpe_mono; [apply IH| |done]. intros [toks' b'] r3 [(I1 & I2 & I3) S3]. simpl in *.
    split; [split_and!; congruence|]. destruct b'; congruence.
Qed.

Lemma on_request_ok {A} (m : M Request A) r (P : A -> Request -> Prop) (s : Sch) :
  wpe m P (fun _ => True) r -> ok (on_request r m) (fun x s' => s' = s /\ P x.1 x.2) s.
Proof using. unfold ok, wpe, on_request. destruct (m r) as [[a|e] r']; done. Qed.

Lemma verdict_trans r1 r2 r3 b :
  kept r1 r2 -> status r2 = status r1 -> verdict r2 b r3 -> verdict r1 b r3.
Proof using. intros (K1 & K2 & K3) S [(J1 & J2 & J3) T]. split; [split_and!; congruence|]. destruct b; congruence. Qed.

Lemma verdict_same r1 r2 r3 b :
  verdict r1 b r2 -> kept r2 r3 -> status r3 = status r2 -> verdict r1 b r3.
Proof using.
  intros [(K1 & K2 & K3) S] (J1 & J2 & J3) T. split; [split_and!; congruence|]. unfold is_finished in *. destruct b; congruence.
Qed.

Lemma update_with_output_ok rid toks stale r s :
  requests s !! rid = Some r ->
  ok (update_request_with_output sha256 hasher rid toks stale) (fun x s' => touched rid (verdict r x.2) s s') s.
Proof using Htame.
  intros Hr. unfold update_request_with_output. apply ok_bind, ok_get_request. intros r0 Hr0. rewrite Hr in Hr0. injection Hr0 as <-.
  apply ok_bind, ok_gets. apply ok_bind. eapply ok_mono; [apply on_request_ok, append_check_verdict|].
  intros [[out b] r1] s' [-> V]. cbn [fst snd] in V. apply ok_bind. unfold ok at 1, put_request. rewrite wpe_modify.
  pose proof (touched_put rid r1 (verdict r b) s V) as T1. destruct (async_scheduling _); [|exact T1].
  set (r2 := if stale then r1 else _). assert (V2 : verdict r b r2).
  { eapply verdict_same; [exact V|..]; unfold r2; by destruct stale. }
  apply ok_bind. unfold ok at 1, put_request. rewrite wpe_modify.
  set (s1 := s <| requests := <[rid := r1]> (requests s) |>) in *.
  pose proof (touched_trans _ _ _ _ _ _ T1 (touched_put rid r2 (verdict r b) s1 V2)) as T2.
  set (s2 := s1 <| requests := <[rid := r2]> (requests s1) |>) in *. apply ok_bind.
  eapply (ok_mono _ (fun _ s' => s' = s2)); [unfold mwhen; destruct (negb stale); [by apply ok_assert|done]|].
  intros [] s' ->. apply ok_bind. eapply (ok_mono _ (fun _ s' => touched rid (verdict r b) s s')); [|by intros []].
  unfold mwhen. case_bool_decide; [|exact T2]. apply ok_bind.
  eapply ok_mono; [apply ok_returns; [apply returns_zoom|apply rest_kv]|].
  { instantiate (1 := same_request r2). unfold kv_cache_blocks. apply returns_skip. intros c. destruct (kv_enable_caching c); [|by apply returns_ret].
    apply coord_cache_same. }
  intros r3 s3 [[K3 S3]%same_kept R3]. unfold ok, put_request. rewrite wpe_modify.
  eapply touched_trans; [eapply touched_rest; [exact T2|exact R3]|]. apply touched_put. by eapply verdict_same.
Qed.

Lemma free_encoder_rest rid s : ok (free_encoder_inputs rid) (fun _ s' => rest_eq s s') s.
Proof using.
  unfold free_encoder_inputs. apply ok_bind, ok_gets. unfold id. apply ok_bind, ok_get_request. intros r Hr.
  generalize (op_get_cached_input_ids r (encoder_cache_manager s)) as l. intros l.
  assert (Hl : forall s1, rest_eq s s1 -> ok (mfor l (fun input_id =>
    f ← of_option IndexError (mm_features r !! input_id);
    if is_encoder_decoder (config s) && (0 <? num_computed_tokens r)%Z
    then on_encoder_cache (op_free_encoder_input r input_id)
    else mwhen (mm_offset f + mm_length f + num_prefill_lookahead (config s)
                <=? num_computed_tokens r - num_output_placeholders r)%Z
           (on_encoder_cache (op_free_encoder_input r input_id)))) (fun _ s' => rest_eq s s') s1); [|by apply Hl].
  induction l as [|i l IH]; intros s1 R1; simpl; [done|]. apply ok_bind.
  eapply (ok_mono _ (fun _ s' => rest_eq s s')); [|intros [] s2 R2; by apply IH].
  apply ok_bind, ok_of_option. intros f _. unfold mwhen.
  assert (He : ok (on_encoder_cache (op_free_encoder_input r i)) (fun _ s' => rest_eq s s') s1).
  { eapply ok_mono; [apply rest_enc|]. intros [] s2 R2. by eapply rest_trans. }
  destruct (_ && _); [exact He|]. destruct (_ <=? _)%Z; [exact He|exact R1].
Qed.

Lemma reject_kept num drafts generated r : kept r (reject_drafts num drafts generated r) /\
  status (reject_drafts num drafts generated r) = status r.
Proof using. unfold reject_drafts. by destruct (0 <? num_computed_tokens r)%Z; simpl; destruct (0 <? _)%Z. Qed.

Lemma apply_output_ok out mro rid stale generated pooled r s :
  requests s !! rid = Some r -> resumable r = false ->
  ok (apply_output sha256 hasher grammar_rejects out mro rid stale generated pooled)
    (fun x s' => touched rid (verdict r x.2) s s') s.
Proof using Htame.
  intros Hr Hres. unfold apply_output. apply ok_bind, ok_get_request. intros r0 Hr0. rewrite Hr in Hr0. injection Hr0 as <-.
  apply ok_bind, ok_gets. apply ok_bind.
  eapply (ok_mono _ (fun _ s' => touched rid (verdict r false) s s')).
  { unfold mwhen. destruct (_ && _ && _).
    - unfold ok, put_request. rewrite wpe_modify. apply touched_put. apply reject_kept.
    - unfold ok. rewrite wpe_ret. by eapply rest_self. }
  intros [] s1 T1. apply ok_bind.
  eapply (ok_mono _ (fun _ s' => touched rid (verdict r false) s s')).
  { unfold mwhen. destruct (has_encoder_inputs r); [|exact T1]. eapply ok_mono; [apply free_encoder_rest|].
    intros [] s2 R2. by eapply touched_rest. }
  clear s1 T1. intros [] s1 T1. destruct (to_self _ _ _ _ T1) as (r1 & Hr1 & [K1 S1]).
  apply ok_bind, ok_get_request. intros r0 Hr0. rewrite Hr1 in Hr0. injection Hr0 as <-.
  apply ok_bind. eapply (ok_mono _ (fun x s' => touched rid (verdict r x.2) s s')).
  { destruct (negb _).
    - eapply ok_mono; [by apply update_with_output_ok|]. intros [toks b] s2 T2. eapply touched_trans; [exact T1|].
      destruct T2 as [U1 U2 U3 (r2 & Hr2 & V2)]. split; try done. exists r2. split; [done|]. by eapply verdict_trans.
    - destruct (_ || _); [|exact T1]. apply ok_bind. unfold ok, put_request. rewrite wpe_modify, wpe_ret.
      eapply touched_trans; [exact T1|]. apply touched_put. split; [exact K1|done]. }
  intros [toks b] s2 T2. cbn [snd] in T2. destruct (to_self _ _ _ _ T2) as (r2 & Hr2 & [K2 S2]).
  apply ok_bind, ok_get_request. intros r0 Hr0. rewrite Hr2 in Hr0. injection Hr0 as <-.
  destruct (_ && _); [|exact T2]. apply ok_bind. unfold ok, put_request. rewrite wpe_modify, wpe_ret.
  eapply touched_trans; [exact T2|]. apply touched_put. destruct K2 as (J1 & J2 & J3). split; [|done]. split_and!; [done|by rewrite Hres|done].
Qed.

Lemma free_request_ok rid s :
  ok (free_request rid) (fun _ s' => limits_eq s s' /\ streaming_queues s' = streaming_queues s /\
    requests s' = delete rid (requests s)) s.
Proof using.
  unfold free_request. apply ok_bind, ok_get_request. intros r Hr. apply ok_bind, ok_assert. intros _.
  apply ok_bind. unfold ok at 1. rewrite wpe_modify. apply ok_bind. eapply ok_mono; [apply rest_enc|]. intros [] s1 R1.
  apply ok_bind. unfold ok at 1. rewrite wpe_modify. apply ok_bind. eapply ok_mono; [apply rest_kv|]. intros [] s2 R2.
  unfold ok. rewrite wpe_modify. destruct R1 as (A1 & A2 & A3), R2 as (B1 & B2 & B3).
  split_and!; [|simpl in *; congruence|simpl in *; by rewrite B3, A3].
  etrans; [|etrans; [exact A1|etrans; [|etrans; [exact B1|]]]]; done.
Qed.

End update.

(** ** The calls *)

Section finish.
Context {E : Type} `{EncoderCacheOps E, EncoderCacheFree E}.
Local Abbreviation Sch := (Scheduler E).

Lemma live_status x r (s : Sch) :
  live [] [] s -> requests s !! x = Some r ->
  status r = RUNNING /\ x ∈ running s \/
  waiting_like (status r) /\ x ∈ queue_items (waiting s) ++ queue_items (skipped_waiting s).
Proof using.
  intros L Hr. pose proof (lv_dom _ _ _ L x r Hr) as Hx. rewrite !app_nil_r in Hx. unfold all_ids in Hx.
  apply elem_of_app in Hx as [Hx|Hx].
  - left. destruct (lv_run _ _ _ L x) as (q & Hq & Hs); [by rewrite app_nil_r|]. split; [congruence|done].
  - right. destruct (lv_wait _ _ _ L x) as (q & Hq & Hs); [by rewrite app_nil_r|]. split; [congruence|done].
Qed.

Lemma live_known x (s : Sch) : live [] [] s -> x ∈ all_ids s <-> is_Some (requests s !! x).
Proof using.
  intros L. split.
  - unfold all_ids. intros [Hx|Hx]%elem_of_app.
    + destruct (lv_run _ _ _ L x) as (r & -> & _); [by rewrite app_nil_r|done].
    + destruct (lv_wait _ _ _ L x) as (r & -> & _); [by rewrite app_nil_r|done].
  - intros [r Hr]. pose proof (lv_dom _ _ _ L x r Hr) as Hx. by rewrite !app_nil_r in Hx.
Qed.

Lemma live_unfinished x r (s : Sch) : live [] [] s -> requests s !! x = Some r -> is_finished r = false /\ status r <> WAITING_FOR_STREAMING_REQ.
Proof using.
  intros L Hr. unfold is_finished. destruct (live_status x r s L Hr) as [[-> _]|[[->|[-> | ->]] _]]; done.
Qed.

(** The valid ids are the known ones. *)
Lemma valid_known (s : Sch) ids x : live [] [] s -> x ∈ (valid_requests s ids).*1 <-> x ∈ ids /\ is_Some (requests s !! x).
Proof using.
  intros L. unfold valid_requests. rewrite list_elem_of_fmap. split.
  - intros ([y st] & -> & Hy). apply list_elem_of_omap in Hy as (z & Hz & Hv). simpl.
    destruct (requests s !! z) as [r|] eqn:Hr; [|done]. simpl in Hv. destruct (is_finished r); [done|]. injection Hv as <- <-. done.
  - intros [Hx [r Hr]]. exists (x, status r). split; [done|]. apply list_elem_of_omap. exists x. split; [done|]. rewrite Hr. simpl.
    by rewrite (proj1 (live_unfinished x r s L Hr)).
Qed.

Lemma valid_status (s : Sch) ids x st : (x, st) ∈ valid_requests s ids -> exists r, requests s !! x = Some r /\ status r = st.
Proof using.
  unfold valid_requests. intros (z & Hz & Hv)%list_elem_of_omap. destruct (requests s !! z) as [r|] eqn:Hr; [|done]. simpl in Hv.
  destruct (is_finished r); [done|]. injection Hv as <- <-. by exists r.
Qed.

Lemma no_streaming (s : Sch) ids : live [] [] s -> filter (fun x => x.2 = WAITING_FOR_STREAMING_REQ) (valid_requests s ids) = [].
Proof using.
  intros L. apply list_nil_iff || apply elem_of_nil_inv. intros [x st] [Hst Hx]%list_elem_of_filter. simpl in Hst. subst st.
  apply valid_status in Hx as (r & Hr & Hst). by destruct (live_unfinished x r s L Hr).
Qed.

(** Which list a valid request is taken out of. *)
Lemma split_running (s : Sch) ids x :
  live [] [] s -> x ∈ running s ->
  x ∈ (filter (fun y => y.2 = RUNNING) (valid_requests s ids)).*1 <-> x ∈ (valid_requests s ids).*1.
Proof using.
  intros L Hx. rewrite !list_elem_of_fmap. split; intros ([y st] & -> & Hy); simpl in *.
  - exists (y, st). split; [done|]. by apply list_elem_of_filter in Hy as [_ Hy].
  - exists (y, st). split; [done|]. apply list_elem_of_filter. split; [|done]. simpl.
    apply valid_status in Hy as (r & Hr & <-). destruct (lv_run _ _ _ L y) as (q & Hq & Hs); [by rewrite app_nil_r|]. congruence.
Qed.

Lemma split_waiting (s : Sch) ids x :
  live [] [] s -> x ∈ queue_items (waiting s) ++ queue_items (skipped_waiting s) ->
  x ∈ (filter (fun y => y.2 <> RUNNING) (valid_requests s ids)).*1 <-> x ∈ (valid_requests s ids).*1.
Proof using.
  intros L Hx. rewrite !list_elem_of_fmap. split; intros ([y st] & -> & Hy); simpl in *.
  - exists (y, st). split; [done|]. by apply list_elem_of_filter in Hy as [_ Hy].
  - exists (y, st). split; [done|]. apply list_elem_of_filter. split; [|done]. simpl.
    apply valid_status in Hy as (r & Hr & <-). destruct (lv_wait _ _ _ L y) as (q & Hq & Hs); [by rewrite app_nil_r|].
    rewrite Hr in Hq. injection Hq as <-. intros Hst. rewrite Hst in Hs. unfold waiting_like in Hs. naive_solver.
Qed.

(** The second pass frees the valid requests. *)
Lemma free_all_ok l st s :
  ok (mfor l (fun rid => r ← get_request rid; put_request rid (r <| status := st |>) ;; free_request rid))
    (fun _ s' => limits_eq s s' /\ streaming_queues s' = streaming_queues s /\
      forall x, requests s' !! x = if decide (x ∈ l) then None else requests s !! x) s.
Proof using.
  revert s. induction l as [|rid l IH]; intros s; cbn [mfor].
  { unfold ok. rewrite wpe_ret. split_and!; [done|done|]. intros x. rewrite decide_False; [done|apply not_elem_of_nil]. }
  apply ok_bind. eapply (ok_mono _ (fun _ s' => limits_eq s s' /\ streaming_queues s' = streaming_queues s /\ requests s' = delete rid (requests s))).
  - apply ok_bind, ok_get_request. intros r Hr. apply ok_bind. unfold ok at 1, put_request. rewrite wpe_modify.
    eapply ok_mono; [apply free_request_ok|]. intros [] s' (A1 & A2 & A3). simpl in *. split_and!; [|done|].
    + etrans; [|exact A1]. done.
    + rewrite A3. apply delete_insert_eq || apply delete_insert_delete.
  - intros [] s1 (A1 & A2 & A3). eapply ok_mono; [apply IH|]. intros [] s2 (B1 & B2 & B3). split_and!; [by etrans|congruence|].
    intros x. rewrite B3, A3. destruct (decide (x = rid)) as [->|Hne].
    + rewrite lookup_delete_eq. rewrite (decide_True (P := rid ∈ rid :: l)) by (by left). by destruct (decide (rid ∈ l)).
    + rewrite lookup_delete_ne by done. destruct (decide (x ∈ l)), (decide (x ∈ rid :: l)); set_solver.
Qed.

Lemma finish_requests_ok ids st s :
  sched_ok s ->
  ok (finish_requests ids st) (fun _ s' => sched_ok s' /\ config s' = config s /\
    forall x, requests s' !! x = if decide (x ∈ ids) then None else requests s !! x) s.
Proof using.
  intros Hs. pose proof (sk_live _ Hs) as L. unfold finish_requests. apply ok_bind, ok_assert. intros _.
  apply ok_bind, ok_gets. unfold id. rewrite (no_streaming s ids L). change (zlen (@nil (string * RequestStatus))) with 0%Z.
  set (valid := valid_requests s ids). set (rr := (filter (fun y => y.2 = RUNNING) valid).*1).
  set (wr := (filter (fun y => y.2 <> RUNNING) valid).*1).
  apply ok_bind. unfold ok at 1. rewrite wpe_modify. apply ok_bind.
  pose proof (lv_ids _ _ _ L) as Hnd. rewrite !app_nil_r in Hnd. apply NoDup_app in Hnd as (Hnd & _ & _).
  set (X := list_to_set valid.*1 : gset string).
  set (s1 := s <| num_waiting_for_streaming_input := _ |>).
  eapply (ok_mono _ (fun _ s' => s' = s1 <| running := filter (fun x => x ∉ X) (running s) |>)).
  { assert (Hf : remove_all (running s) (list_to_set rr) = filter (fun x => x ∉ X) (running s)).
    { rewrite remove_all_filter by done. apply filter_ext_in. intros x Hx. unfold X, rr, valid. rewrite !elem_of_list_to_set.
      by rewrite split_running. }
    unfold mwhen. destruct (negb _) eqn:Hb; unfold ok; [rewrite wpe_modify; simpl; by rewrite <- Hf|]. rewrite wpe_ret.
    apply negb_false_iff, bool_decide_eq_true in Hb. rewrite <- Hf, Hb. unfold s1. by destruct s. }
  intros [] s2 ->. set (s2 := s1 <| running := _ |>). apply ok_bind.
  eapply (ok_mono _ (fun _ s' => config s' = config s /\ running s' = running s2 /\ streaming_queues s' = streaming_queues s /\
    num_waiting_for_streaming_input s' = num_waiting_for_streaming_input s /\ requests s' = requests s /\
    queue_items (waiting s') ≡ₚ filter (fun x => x ∉ X) (queue_items (waiting s)) /\
    queue_items (skipped_waiting s') ≡ₚ filter (fun x => x ∉ X) (queue_items (skipped_waiting s)))).
  { assert (Hf : forall l : list string, (forall x, x ∈ l -> x ∈ queue_items (waiting s) ++ queue_items (skipped_waiting s)) ->
      filter (fun x => x ∉ wr) l = filter (fun x => x ∉ X) l).
    { intros l Hl. apply filter_ext_in. intros x Hx. unfold X, wr, valid.
      rewrite elem_of_list_to_set. by rewrite split_waiting by auto. }
    assert (Hw : filter (fun x => x ∉ wr) (queue_items (waiting s)) = filter (fun x => x ∉ X) (queue_items (waiting s))) by (apply Hf; set_solver).
    assert (Hk : filter (fun x => x ∉ wr) (queue_items (skipped_waiting s)) = filter (fun x => x ∉ X) (queue_items (skipped_waiting s))) by (apply Hf; set_solver).
    unfold mwhen. destruct (negb _) eqn:Hb; unfold ok; [rewrite wpe_modify|rewrite wpe_ret]; simpl; rewrite Z.sub_0_r.
    - split_and!; try done; rewrite remove_requests_items; by rewrite <- ?Hw, <- ?Hk.
    - apply negb_false_iff, bool_decide_eq_true in Hb. rewrite Hb in Hw, Hk. rewrite <- Hw, <- Hk.
      split_and!; try done; symmetry; rewrite list_filter_all; try done; intros x _; apply not_elem_of_nil. }
  intros [] s3 (A1 & A2 & A3 & A4 & A5 & A6 & A7). apply ok_bind. eapply ok_mono; [apply free_all_ok|].
  intros [] s4 ((B1 & (B2 & B3 & B4) & B5) & B6 & B7). unfold ok. rewrite wpe_ret.
  assert (Hreq : forall x, requests s4 !! x = if decide (x ∈ X) then None else requests s !! x).
  { intros x. rewrite B7, A5. unfold X. destruct (decide (x ∈ valid.*1)), (decide (x ∈ list_to_set valid.*1)); set_solver. }
  split_and!.
  - destruct Hs as [_ C1 C2 C3 C4 C5]. split; rewrite ?B1, ?A1, ?B5, ?A4; try done.
    + eapply (live_without X s); [exact L|done|by rewrite B2, A2|by rewrite B3, A6|by rewrite B4, A7|by rewrite B6, A3].
    + rewrite B2, A2. simpl. unfold zlen in *. pose proof (length_filter (fun x => x ∉ X) (running s)). lia.
  - by rewrite B1.
  - intros x. rewrite Hreq. unfold X. destruct (decide (x ∈ list_to_set valid.*1)) as [HX|HX], (decide (x ∈ ids)) as [Hi|Hi]; try done.
    + apply elem_of_list_to_set, (valid_known s ids x L) in HX as [? _]. done.
    + destruct (requests s !! x) as [r|] eqn:Hr; [|done]. exfalso. apply HX, elem_of_list_to_set, (valid_known s ids x L). by rewrite Hr.
Qed.
End finish.

Section calls.
Context {E : Type} `{EncoderCacheOps E, EncoderCacheFree E}.
Local Abbreviation Sch := (Scheduler E).

(** A new request joins a queue. *)
Lemma live_add rid r (s s' : Sch) :
  live [] [] s -> requests s !! rid = None -> request_id r = rid -> resumable r = false -> in_order r -> waiting_like (status r) ->
  running s' = running s -> requests s' = <[rid := r]> (requests s) ->
  queue_items (waiting s') ++ queue_items (skipped_waiting s') ≡ₚ rid :: queue_items (waiting s) ++ queue_items (skipped_waiting s) ->
  streaming_queues s' = delete rid (streaming_queues s) -> live [] [] s'.
Proof using.
  intros [L1 L2 L3 L4 L5] Hn Hid Hres Ho Hw Hrun Hreq Hq Hstr. rewrite !app_nil_r in L1.
  assert (Ha : all_ids s' ≡ₚ rid :: all_ids s).
  { unfold all_ids. rewrite Hrun, Hq. symmetry. apply Permutation_middle. }
  assert (Hout : rid ∉ all_ids s).
  { unfold all_ids. intros [Hin|Hin]%elem_of_app.
    - destruct (L2 rid) as (q & Hq0 & _); [by rewrite app_nil_r|congruence].
    - destruct (L3 rid) as (q & Hq0 & _); [by rewrite app_nil_r|congruence]. }
  split; rewrite ?app_nil_r, ?Hrun, ?Hreq, ?Hstr.
  - rewrite Ha. by apply NoDup_cons.
  - intros x Hx. destruct (L2 x) as (q & Hq0 & Hs); [by rewrite app_nil_r|]. exists q. rewrite lookup_insert_ne; [done|congruence].
  - intros x Hx. rewrite Hq in Hx. apply elem_of_cons in Hx as [->|Hx]; [exists r; by rewrite lookup_insert_eq|].
    destruct (L3 x) as (q & Hq0 & Hs); [by rewrite app_nil_r|]. exists q. rewrite lookup_insert_ne; [done|congruence].
  - intros x q Hx. rewrite Ha. destruct (decide (x = rid)) as [->|Hne]; [by left|]. rewrite lookup_insert_ne in Hx by done.
    specialize (L4 x q Hx). rewrite !app_nil_r in L4. by right.
  - intros x q Hx. destruct (decide (x = rid)) as [->|Hne].
    + rewrite lookup_insert_eq in Hx. injection Hx as <-. by rewrite lookup_delete_eq.
    + rewrite lookup_insert_ne in Hx by done. rewrite lookup_delete_ne by done. by apply L5.
Qed.

(** A request the caller may add. *)
Definition addable (r : Request) : Prop := resumable r = false /\ in_order r /\ waiting_like (status r).

Lemma enqueue_ok rid r (s : Sch) :
  requests s !! rid = Some r ->
  ok (enqueue_waiting_request rid) (fun _ s' => config s' = config s /\ running s' = running s /\
    requests s' = requests s /\ streaming_queues s' = streaming_queues s /\
    num_waiting_for_streaming_input s' = num_waiting_for_streaming_input s /\
    queue_items (waiting s') ++ queue_items (skipped_waiting s') ≡ₚ rid :: queue_items (waiting s) ++ queue_items (skipped_waiting s)) s.
Proof using.
  intros Hr. unfold enqueue_waiting_request. apply ok_bind, ok_get_request. intros q _.
  destruct (is_blocked_waiting_status _); unfold ok; rewrite wpe_modify; simpl; split_and!; try done; rewrite add_items; [|done].
  symmetry. apply Permutation_middle.
Qed.

Lemma add_request_ok hasher r (s : Sch) :
  sched_ok s -> addable r -> ok (add_request hasher r) (fun _ s' => sched_ok s' /\ config s' = config s) s.
Proof using.
  intros Hs (Hres & Ho & Hw). pose proof (sk_live _ Hs) as L. unfold add_request. apply ok_bind, ok_gets. unfold id.
  destruct (requests s !! request_id r) as [e|] eqn:He.
  - destruct (live_unfinished _ _ _ L He) as [_ Hst]. rewrite decide_True by done. apply ok_bind, ok_of_option. intros q Hq.
    destruct (lv_req _ _ _ L _ _ He) as (_ & _ & _ & Hn). congruence.
  - rewrite Hres. apply ok_bind. unfold ok at 1. rewrite wpe_modify. apply ok_bind. unfold ok at 1, put_request. rewrite wpe_modify.
    set (s2 := set_field _ _). eapply ok_mono; [apply (enqueue_ok (request_id r) r)|].
    { unfold s2. simpl. apply lookup_insert_eq. }
    intros [] s' (A1 & A2 & A3 & A4 & A5 & A6). simpl in *. split; [|by rewrite A1].
    destruct Hs as [_ C1 C2 C3 C4 C5]. split; rewrite ?A1, ?A2, ?A5; try done.
    by eapply (live_add (request_id r) r s).
Qed.

Context (sha256 : bytes -> bytes) (hasher : option block_hasher).
Context (grammar_rejects : Request -> list Z -> bool) (validate_drafts : Request -> list Z -> list Z).

Lemma drafts_ok drafts (s : Sch) :
  sched_ok s -> ok (update_draft_token_ids validate_drafts drafts) (fun _ s' => sched_ok s' /\ config s' = config s) s.
Proof using.
  intros Hs.
  assert (K : keeps (E := E) (update_draft_token_ids validate_drafts drafts)).
  { unfold update_draft_token_ids. apply keeps_for. intros [rid spec] ws rs s1 L1. apply ok_bind, ok_gets. unfold id.
    destruct (requests s1 !! rid) as [r|] eqn:Hr; [|done]. destruct (is_finished r); [done|].
    destruct (is_prefill_chunk r); (eapply ok_put_live; [exact L1|done|done|by left|by intros L2]). }
  assert (W : walks limits_eq (update_draft_token_ids validate_drafts drafts : M Sch _)).
  { unfold update_draft_token_ids. walks. }
  eapply ok_mono; [apply ok_both; [apply W|exact (K _ _ _ (sk_live _ Hs))]|].
  intros [] s' [M L]. split; [by eapply sched_ok_limits|apply M].
Qed.

Lemma preempt_all_ok fuel (s : Sch) :
  live [] [] s -> ok (preempt_all fuel) (fun _ s' => live [] [] s' /\ limits_eq (s <| running := [] |> <| waiting := waiting s' |>) s') s.
Proof using.
  assert (Hpre : forall rid d (s : Sch), ok (preempt_request rid d) (fun _ s' => config s' = config s /\ running s' = running s /\
    skipped_waiting s' = skipped_waiting s /\ num_waiting_for_streaming_input s' = num_waiting_for_streaming_input s) s).
  { intros rid d s0. eapply ok_mono; [apply ok_both; [apply preempt_frame|apply preempt_ids]|].
    intros [] s' [F (A1 & A2 & _)]. split_and!; [apply F|done|done|apply F]. }
  revert s. induction fuel as [|fuel IH]; intros s L; [done|]. cbn [preempt_all]. apply ok_bind, ok_gets. unfold id.
  destruct (last (running s)) as [rid|] eqn:Hl.
  - apply last_Some in Hl as [t Ht]. apply ok_bind. unfold ok at 1. rewrite wpe_modify. apply ok_bind.
    set (s1 := s <| running := take _ _ |>). assert (L1 : live [] [rid] s1).
    { apply (live_take [] [] s rid); [done|]. rewrite Ht, length_app. simpl. rewrite Nat.add_sub, take_app_length.
      by rewrite Permutation_app_comm. }
    eapply ok_mono; [apply ok_both; [by apply preempt_live|apply Hpre]|]. intros [] s2 [L2 (A1 & A2 & A3 & A4)].
    eapply ok_mono; [by apply IH|]. intros [] s3 [L3 (B1 & (B2 & B3 & B4) & B5)]. split; [done|]. simpl in *.
    split_and!; simpl; [congruence|split_and!; simpl; congruence|congruence].
  - apply last_None in Hl. unfold ok. rewrite wpe_ret. split; [done|]. split_and!; simpl; [done|split_and!; simpl; done|done].
Qed.

Lemma reset_ok running_too (s : Sch) :
  sched_ok s -> ok (scheduler_reset_prefix_cache running_too) (fun _ s' => sched_ok s' /\ config s' = config s) s.
Proof using.
  intros Hs. unfold scheduler_reset_prefix_cache. apply ok_bind, ok_gets. unfold id. apply ok_bind.
  eapply (ok_mono _ (fun _ s' => sched_ok s' /\ config s' = config s)).
  - unfold mwhen. destruct running_too; [|done]. apply ok_bind. eapply ok_mono; [apply preempt_all_ok, Hs|].
    intros [] s1 [L1 (A1 & (A2 & A3 & A4) & A5)]. simpl in *. unfold ok. rewrite wpe_modify. split; [|done].
    destruct Hs as [_ C1 C2 C3 C4 C5]. split; simpl; rewrite ?A1, ?A2, ?A5; try done; [by apply (live_core _ _ s1)|].
    unfold zlen in *. simpl. lia.
  - intros [] s1 [Hs1 C1]. apply ok_bind. eapply ok_mono; [apply rest_kv|]. intros b s2 (R1 & R2 & R3).
    assert (Hs2 : sched_ok s2).
    { eapply sched_ok_limits; [exact R1| |exact Hs1]. eapply (live_core _ _ s1); [|apply Hs1]. split_and!; [apply R1|done|done]. }
    destruct (_ && _); [done|]. split; [done|]. rewrite <- C1. apply R1.
Qed.
End calls.

Section process.
Context {E : Type} `{EncoderCacheOps E, EncoderCacheFree E}.
Context (sha256 : bytes -> bytes) (hasher : option block_hasher) (grammar_rejects : Request -> list Z -> bool).
Context (Htame : hasher_tame hasher).
Local Abbreviation Sch := (Scheduler E).

Lemma handle_stopped_ok rid r (s : Sch) :
  requests s !! rid = Some r -> resumable r = false ->
  ok (handle_stopped_request hasher rid) (fun b s' => b = true /\ s' = s) s.
Proof using.
  intros Hr Hres. unfold handle_stopped_request. apply ok_bind, ok_get_request. intros q Hq. rewrite Hr in Hq. injection Hq as <-.
  apply ok_bind, ok_gets. rewrite Hres. done.
Qed.

Lemma process_output_ok out mro u kv (s : Sch) :
  live [] [] (clean u s) ->
  ok (process_output sha256 hasher grammar_rejects out mro u kv)
    (fun u' s' => live [] [] (clean u' s') /\ limits_eq s s') s.
Proof using Htame.
  intros L. destruct kv as [rid n]. unfold process_output. apply ok_bind, ok_assert. intros _. apply ok_bind, ok_gets. unfold id.
  destruct (requests s !! rid) as [r|] eqn:Hr; [|done]. destruct (lv_req _ _ _ L rid r Hr) as (_ & Hres & _ & _).
  set (stale := (0 <? num_stale_output_tokens r)%Z). set (r1 := r <| num_in_flight_tokens := _ |> <| num_stale_output_tokens := _ |>).
  apply ok_bind. unfold ok at 1, put_request. rewrite wpe_modify. set (s1 := s <| requests := _ |>).
  assert (L1 : live [] [] (clean u s1)).
  { apply (live_put [] [] (clean u s) rid r); [done|done|done|by left]. }
  assert (Hr1 : requests s1 !! rid = Some r1) by (unfold s1; simpl; by rewrite lookup_insert_eq).
  assert (M1 : limits_eq s s1) by done. clearbody s1. apply ok_bind.
  eapply (ok_mono _ (fun _ s' => s' = s1)); [unfold mwhen; destruct stale; [by apply ok_assert|done]|]. intros [] s' ->.
  destruct (is_finished r1); [done|]. destruct (stale && _); [done|].
  apply ok_bind, ok_of_option. intros index _. apply ok_bind.
  eapply (ok_mono _ (fun _ s' => s' = s1)); [destruct (sampled_token_ids mro); [done|by apply ok_of_option]|]. intros generated s' ->.
  apply ok_bind.
  eapply (ok_mono _ (fun _ s' => s' = s1)); [destruct (pooler_output mro); [done|by apply ok_of_option]|]. intros pooled s' ->.
  apply ok_bind. eapply ok_mono; [apply (apply_output_ok sha256 hasher grammar_rejects Htame out mro rid stale generated pooled r1 s1 Hr1 Hres)|].
  intros [toks stopped] s2 T2. cbn [snd] in T2. destruct (to_self _ _ _ _ T2) as (r2 & Hr2 & [K2 S2]).
  apply ok_bind, ok_get_request. intros q Hq. rewrite Hr2 in Hq. injection Hq as <-. set (emit := _ || stopped).
  apply ok_bind. eapply (ok_mono _ (fun _ s' => rest_eq s2 s')); [unfold mwhen; by destruct emit|]. intros [] s3 R3.
  pose proof (touched_rest _ _ _ _ _ T2 R3) as T3. pose proof (to_limits _ _ _ _ T3) as M3.
  assert (Hr3 : requests s3 !! rid = Some r2) by (destruct R3 as (_ & _ & ->); done).
  apply ok_bind. eapply (ok_mono _ (fun u' s' => live [] [] (clean u' s') /\ limits_eq s s')).
  - destruct stopped.
    + apply ok_bind. eapply ok_mono; [apply (handle_stopped_ok rid r2 s3 Hr3); destruct K2 as (_ & K2 & _); by rewrite K2|].
      intros b s' [-> ->]. apply ok_bind. eapply ok_mono; [apply free_request_ok|]. intros [] s4 (M4 & F4 & Q4).
      assert (M : limits_eq s1 s4) by (by etrans). unfold ok. rewrite wpe_ret. split; [|by etrans].
      apply (clean_stopped u rid r1 s1 s4 L1 Hr1 M).
      * rewrite F4. apply T3.
      * intros x. rewrite Q4. case_decide as Hx; [subst; by rewrite lookup_delete_eq|]. rewrite lookup_delete_ne by done.
        by apply (to_other _ _ _ _ T3).
    + unfold ok. rewrite wpe_ret. split; [|by etrans]. eapply (clean_touched u rid r1 r2 s1 s3); [done|done| |done|done].
      destruct T3 as [A1 A2 A3 A4]. split; try done. by exists r2.
  - intros u' s4 [L4 M4]. destruct emit; [by split|]. apply ok_bind, ok_assert. done.
Qed.

Lemma process_all_ok out mro l u (s : Sch) :
  live [] [] (clean u s) ->
  ok (mfold (process_output sha256 hasher grammar_rejects out mro) u l)
    (fun u' s' => live [] [] (clean u' s') /\ limits_eq s s') s.
Proof using Htame.
  revert u s. induction l as [|kv l IH]; intros u s L; simpl; [done|]. apply ok_bind.
  eapply ok_mono; [by apply process_output_ok|]. intros u1 s1 [L1 M1]. eapply ok_mono; [by apply IH|].
  intros u2 s2 [L2 M2]. split; [done|by etrans].
Qed.

Lemma update_from_output_ok out mro (s : Sch) :
  sched_ok s ->
  ok (update_from_output sha256 hasher grammar_rejects out mro) (fun _ s' => sched_ok s' /\ config s' = config s) s.
Proof using Htame.
  intros Hs. unfold update_from_output. apply ok_bind. eapply ok_mono; [apply process_all_ok|].
  - pose proof (sk_live _ Hs) as L. eapply (live_without ∅ s); [exact L|..]; try done; simpl.
    all: by rewrite list_filter_all by set_solver.
  - intros u s1 [L1 M1]. destruct M1 as (C1 & (Q1 & Q2 & Q3) & N1). apply ok_bind.
    pose proof (sched_ok_wf _ Hs) as Hwf. pose proof (wf_ids _ Hwf) as Hnd. unfold all_ids in Hnd. apply NoDup_app in Hnd as (Hnd & _ & _).
    eapply (ok_mono _ (fun _ s' => sched_ok s' /\ config s' = config s)).
    + unfold remove_stopped. apply ok_bind. unfold ok at 1. rewrite wpe_modify.
      set (s2 := s1 <| running := _ |>).
      assert (Hr2 : running s2 = running (clean u s1)) by (unfold s2, clean; simpl; apply remove_all_filter; by rewrite Q1).
      assert (Hlen : (zlen (running s2) <= zlen (running s))%Z).
      { rewrite Hr2. unfold clean, zlen. simpl. rewrite Q1. pose proof (length_filter (fun x => x ∉ stopped_running_reqs u) (running s)). lia. }
      assert (Hfin : forall s3 : Sch, config s3 = config s2 -> running s3 = running s2 -> requests s3 = requests s1 ->
        streaming_queues s3 = streaming_queues s1 -> num_waiting_for_streaming_input s3 = num_waiting_for_streaming_input s1 ->
        queue_items (waiting s3) ≡ₚ queue_items (waiting (clean u s1)) ->
        queue_items (skipped_waiting s3) ≡ₚ queue_items (skipped_waiting (clean u s1)) -> sched_ok s3 /\ config s3 = config s).
      { intros s3 D1 D2 D3 D4 D5 D6 D7. simpl in D1. split; [|by rewrite D1].
        destruct Hs as [_ B1 B2 B3 B4 B5]. split; rewrite ?D1, ?D2, ?D5, ?C1, ?N1; try done; [|lia].
        eapply (live_without ∅ (clean u s1)); [exact L1|..]; try done; [intros x; by rewrite D3|rewrite D2, Hr2|rewrite D6|rewrite D7].
        all: by rewrite list_filter_all by set_solver. }
      unfold mwhen. destruct (negb _) eqn:Hb.
      * unfold ok. rewrite wpe_modify. apply Hfin; try done; simpl; rewrite remove_requests_items.
        all: erewrite filter_ext_in; [done|]; intros x _; by rewrite elem_of_elements.
      * apply negb_false_iff, bool_decide_eq_true in Hb. unfold ok. rewrite wpe_ret. apply Hfin; try done; simpl; rewrite Hb.
        all: by rewrite list_filter_all by set_solver.
    + intros [] s2 [Hs2 C2]. apply ok_bind. eapply (ok_mono _ (fun _ s' => sched_ok s' /\ config s' = config s)).
      * unfold finish_errors. apply ok_bind, ok_gets. unfold id. apply ok_bind. unfold ok at 1. rewrite wpe_modify.
        set (s3 := s2 <| grammar_compile_error_reqs := _ |>). assert (Hs3 : sched_ok s3).
        { eapply sched_ok_limits; [| |exact Hs2]; [done|]. by eapply (live_core _ _ s2), Hs2. }
        destruct (decide _); [done|]. apply ok_bind. eapply ok_mono; [by apply finish_requests_ok|]. intros l s4 (Hs4 & C4 & _).
        unfold ok. rewrite wpe_ret. split; [done|]. by rewrite C4.
      * intros u' s3 [Hs3 C3]. apply ok_bind, ok_gets. unfold id. apply ok_bind. unfold ok. rewrite wpe_modify, wpe_ret. split; [|done].
        eapply sched_ok_limits; [| |exact Hs3]; [done|]. by eapply (live_core _ _ s3), Hs3.
Qed.
End process.
