(* ===== verification/SchedulerMachine.v ===== *)
(** The scheduler as a state machine: the engine's calls that return, in any order, and what
    holds of every state they reach. *)
From S2P Require Import Prelude KVBlock FreeQueue Request BlockHash BlockPool BlockPoolThms EncoderCache SchedEncoder SchedUtils CacheHit SingleType SingleTypeInv SingleTypeAlloc SingleTypeFree KVCoordinator KVManager KVLifecycle RequestQueue QueuePerm Scheduler SchedulerInv SchedulerWait SchedulerThms SchedulerOutput SchedulerLife SchedulerLive SchedulerReach SchedulerUpdate.

(** The block hasher of the scheduler only fills the request's cache of embedding hashes. *)
Lemma hasher_loop_same sha256 hash_fn seed fuel bs start idx prev r :
  wpe (hasher_loop sha256 hash_fn seed fuel bs start idx prev) (fun _ r' => same_request r r') (fun _ => True) r.
Proof.
  revert start idx prev r. induction fuel as [|fuel IH]; intros start idx prev r; [done|]. simpl. rewrite wpe_bind, wpe_gets. unfold id.
  destruct (_ <? _)%Z; [apply same_request_refl|]. rewrite wpe_bind. unfold wpe at 1.
  pose proof (extra_keys_id sha256 start (start + bs) idx r) as Hk.
  destruct (generate_block_hash_extra_keys _ _ _ _ r) as [[[ks i]|e] r1]; [|done]. simpl in Hk. rewrite wpe_bind.
  eapply wpe_mono; [apply IH| |done]. intros hs r2 Hr2. rewrite wpe_ret. by eapply same_request_trans.
Qed.

Lemma block_hasher_tame sha256 hash_fn seed bs : hasher_tame (Some (request_block_hasher sha256 hash_fn seed bs)).
Proof.
  intros m [= <-] r. unfold request_block_hasher. rewrite wpe_bind, wpe_gets. unfold id. destruct (_ <? _)%Z; [apply same_request_refl|].
  apply hasher_loop_same.
Qed.

Section machine.
Context {E : Type} `{EncoderCacheOps E, EncoderCacheFree E}.
(** The hash functions, the seed and the block size of the prefix cache, and the grammars. *)
Context (sha256 : bytes -> bytes) (hash_fn : hash_input -> bytes) (seed : string) (hash_block_size : Z).
Context (report_full : Request -> bool).
Context (grammar_rejects : Request -> list Z -> bool) (validate_drafts : Request -> list Z -> list Z).
Local Abbreviation Sch := (Scheduler E).
Local Abbreviation hasher := (Some (request_block_hasher sha256 hash_fn seed hash_block_size)).

(** A configuration with non-negative limits. *)
Definition limits_ok (c : SchedulerConfig) : Prop :=
  (0 <= max_num_running_reqs c /\ 0 <= max_num_scheduled_tokens c /\ 0 <= max_num_batched_tokens c /\ 0 <= draft_slots c)%Z.

(** The calls of the engine that return; the grammars compile in the background. *)
Inductive sched_call : Sch -> Sch -> Prop :=
  | call_add r s s' : addable r -> add_request hasher r s = (Ok tt, s') -> sched_call s s'
  | call_schedule throttle out s s' : schedule sha256 report_full throttle s = (Ok out, s') -> sched_call s s'
  | call_update out mro o s s' :
      update_from_output sha256 hasher grammar_rejects out mro s = (Ok o, s') -> sched_call s s'
  | call_finish ids st fin s s' : finish_requests ids st s = (Ok fin, s') -> sched_call s s'
  | call_drafts drafts s s' : update_draft_token_ids validate_drafts drafts s = (Ok tt, s') -> sched_call s s'
  | call_reset running_too b s s' : scheduler_reset_prefix_cache running_too s = (Ok b, s') -> sched_call s s'
  | call_reset_encoder s s' : reset_encoder_cache s = (Ok tt, s') -> sched_call s s'
  | call_pause p s s' : set_pause_state p s = (Ok tt, s') -> sched_call s s'
  | call_grammars g s : sched_call s (s <| grammars := g |>).

Inductive sched_reach : Sch -> Prop :=
  | reach_init c ec kv clients : limits_ok c -> sched_reach (Scheduler_init c ec kv clients)
  | reach_step s s' : sched_reach s -> sched_call s s' -> sched_reach s'.

Lemma ok_run {A} (m : M Sch A) (Q : A -> Sch -> Prop) s a s' : ok m Q s -> m s = (Ok a, s') -> Q a s'.
Proof using. unfold ok, wpe. intros Hm Hrun. by rewrite Hrun in Hm. Qed.

Lemma call_ok s s' : sched_ok s -> sched_call s s' -> sched_ok s'.
Proof using.
  intros Hs Hc. assert (Hcore : forall s1 : Sch, core_eq s s1 -> limits_eq s s1 -> sched_ok s1).
  { intros s1 C1 M1. eapply sched_ok_limits; [exact M1| |exact Hs]. by eapply (live_core _ _ s), Hs. }
  destruct Hc as [r s s' Ha Hr|th out s s' Hr|out mro o s s' Hr|ids st fin s s' Hr|dr s s' Hr|rt b s s' Hr|s s' Hr|p s s' Hr|g s].
  - exact (proj1 (ok_run _ _ _ _ _ (add_request_ok _ r s Hs Ha) Hr)).
  - exact (proj1 (ok_run _ _ _ _ _ (schedule_ok sha256 report_full th s Hs) Hr)).
  - exact (proj1 (ok_run _ _ _ _ _ (update_from_output_ok sha256 _ grammar_rejects (block_hasher_tame _ _ _ _) out mro s Hs) Hr)).
  - exact (proj1 (ok_run _ _ _ _ _ (finish_requests_ok ids st s Hs) Hr)).
  - exact (proj1 (ok_run _ _ _ _ _ (drafts_ok validate_drafts dr s Hs) Hr)).
  - exact (proj1 (ok_run _ _ _ _ _ (reset_ok rt s Hs) Hr)).
  - injection Hr as <-. by apply Hcore.
  - injection Hr as <-. by apply Hcore.
  - by apply Hcore.
Qed.

Lemma reach_ok s : sched_reach s -> sched_ok s.
Proof using.
  induction 1 as [c ec kv clients (A1 & A2 & A3 & A4)|s s' _ IH Hc]; [|by eapply call_ok].
  assert (Hq : queue_items (create_request_queue (policy c)) = []) by (by destruct (policy c)).
  split; simpl; try done. split; unfold all_ids; simpl; rewrite ?Hq; simpl.
  - apply NoDup_nil_2.
  - intros x Hx. by apply elem_of_nil in Hx.
  - intros x Hx. by apply elem_of_nil in Hx.
  - intros x r Hr. by rewrite lookup_empty in Hr.
  - intros x r Hr. by rewrite lookup_empty in Hr.
Qed.

(** C1. The scheduler's queues and its table of requests agree: in every state reached from
    construction by a series of calls that return (add a request, schedule, update from an
    output, finish requests, take draft tokens, reset the prefix or the encoder cache,
    pause), in any order, without a KV connector, with limits that are not negative and with
    requests that are added waiting, have their multi-modal features in order and are not
    resumable streaming sessions ([addable]), the requests it knows are exactly those in the
    running list and the two waiting queues, each in one of them and there once; a
    request is in the running list if and only if its status is RUNNING; and at most
    [max_num_running_reqs] requests run. *)
Theorem scheduler_invariant (s : Sch) :
  sched_reach s ->
  NoDup (all_ids s) /\
  (forall x, x ∈ all_ids s <-> is_Some (requests s !! x)) /\
  (forall x r, requests s !! x = Some r -> x ∈ running s <-> status r = RUNNING) /\
  (zlen (running s) <= max_num_running_reqs (config s))%Z.
Proof using.
  intros Hs%reach_ok. pose proof (sk_live _ Hs) as L. split_and!.
  - apply (wf_ids _ (sched_ok_wf _ Hs)).
  - intros x. by apply live_known.
  - intros x r Hr. split.
    + intros Hx. destruct (lv_run _ _ _ L x) as (q & Hq & Hst); [by rewrite app_nil_r|]. congruence.
    + intros Hst. destruct (live_status x r s L Hr) as [[_ Hx]|[Hw _]]; [done|]. rewrite Hst in Hw. unfold waiting_like in Hw. naive_solver.
  - apply Hs.
Qed.

(** C4. A scheduling step respects its limits, in every state the scheduler reaches: the
    scheduled tokens are at most [max_num_scheduled_tokens] (none when the scheduler is
    paused), with the slots reserved for drafts at most [max_num_batched_tokens]; every
    scheduled request is running afterwards, is scheduled once and has a positive number of
    tokens; and the total is the sum. *)
Theorem schedule_within_limits throttle out (s s' : Sch) :
  sched_reach s -> schedule sha256 report_full throttle s = (Ok out, s') ->
  o_total_num_scheduled_tokens out = sum_tokens (o_num_scheduled_tokens out) /\
  (o_total_num_scheduled_tokens out <= if decide (pause_state s = PAUSED_ALL) then 0 else max_num_scheduled_tokens (config s))%Z /\
  (o_total_num_scheduled_tokens out + draft_slots (config s) * zlen (o_num_scheduled_tokens out)
    <= max_num_batched_tokens (config s))%Z /\
  NoDup (o_num_scheduled_tokens out).*1 /\
  Forall (fun kv => kv.1 ∈ running s' /\ 0 < kv.2)%Z (o_num_scheduled_tokens out) /\
  (zlen (running s') <= max_num_running_reqs (config s))%Z.
Proof using.
  intros Hs%reach_ok Hrun. destruct (ok_run _ _ _ _ _ (schedule_ok sha256 report_full throttle s Hs) Hrun) as (Hs' & Hc & _ & [O1 O2 O3 O4 O5 O6]).
  split_and!; try done.
  - apply Forall_forall. intros kv Hkv. split; [apply O6, list_elem_of_fmap; by exists kv|]. exact (proj1 (Forall_forall _ _) O4 kv Hkv).
  - rewrite <- Hc. apply Hs'.
Qed.

(** C8. A scheduling step neither loses nor duplicates nor invents a request: the running
    list and the two waiting queues together hold the same requests before and after. *)
Theorem schedule_keeps_requests throttle out (s s' : Sch) :
  sched_reach s -> schedule sha256 report_full throttle s = (Ok out, s') ->
  all_ids s' ≡ₚ all_ids s /\ (forall x, is_Some (requests s' !! x) <-> is_Some (requests s !! x)).
Proof using.
  intros Hs%reach_ok Hrun. destruct (ok_run _ _ _ _ _ (schedule_ok sha256 report_full throttle s Hs) Hrun) as (Hs' & _ & Hids & _).
  split; [done|]. intros x. rewrite <- (live_known x s' (sk_live _ Hs')), <- (live_known x s (sk_live _ Hs)). by rewrite Hids.
Qed.

(** C25. The assertions of [schedule] on the result of its two loops never fail: the budgets
    are not overdrawn, no more requests run than may, and no more are scheduled than run.
    (The assertion on the number of LoRA adapters lies between the loops and is not among
    them: a run in which it fails has not returned.) *)
Theorem schedule_assertions_hold throttle v (s s1 : Sch) :
  sched_reach s -> schedule_requests sha256 report_full throttle s = (Ok v, s1) -> check_constraints v s1 = (Ok tt, s1).
Proof using.
  intros Hs%reach_ok Hrun. pose proof (ok_run _ _ _ _ _ (schedule_requests_ok sha256 report_full throttle s (sched_ok_wf _ Hs)) Hrun) as S1.
  eapply step_constraints; [exact S1|]. simpl. destruct Hs. case_decide; lia.
Qed.

(** C32. The loops of [schedule] end, and the fuel of the model plays no part in how.  With
    [while_runs] for a loop that ends after [k] rounds, by its condition, a [break] or an
    exception of the round: the [while True] loop around [allocate_slots], in any state
    and for any request in the running list, ends after at most one round per running
    request, and [allocate_or_preempt] has the result of that run with any fuel from there
    on; in a state the scheduler reaches, once [schedule] has counted the step, the loop over
    the running requests ends after at most one round per running request, with the
    result of [schedule_running], and the loop over the two waiting queues, entered when
    nothing was preempted, ends after at most one round per waiting request, with the result
    of the loop in [schedule_waiting]. *)
Theorem schedule_loops_terminate (s : Sch) :
  sched_reach s ->
  let s0 := s <| current_step := (current_step s + 1)%Z |> in
  let v0 := init_vars (config s0) (pause_state s0) in
  (forall s1 rid n v, rid ∈ running s1 ->
     exists k r, k <= length (running s1) /\ while_runs (fun _ _ => true) (preempt_round sha256 rid n) k (None, v) s1 r /\
       forall fuel, length (running s1) <= fuel -> allocate_or_preempt sha256 fuel rid n v s1 = r) /\
  (forall defer, exists k r, k <= length (running s0) /\
     while_runs running_left (schedule_one_running sha256 defer) k v0 s0 r /\ schedule_running sha256 defer v0 s0 = r) /\
  (forall defer v loras s1, schedule_running sha256 defer v0 s0 = (Ok v, s1) -> preempted_reqs v = [] ->
     let n := length (queue_items (waiting s1)) + length (queue_items (skipped_waiting s1)) in
     let start := (v <| scheduled_loras := loras |>, create_request_queue (policy (config s1))) in
     exists k r, k <= n /\ while_runs waiting_left (schedule_one_waiting sha256 report_full defer) k start s1 r /\
       while_loop (S n) waiting_left (schedule_one_waiting sha256 report_full defer) start s1 = r).
Proof using.
  intros Hs%reach_ok s0 v0. assert (Hwf : sched_wf s0) by (destruct (sched_ok_wf _ Hs); by split). split_and!.
  - intros s1 rid n v Hin. by apply preempt_runs.
  - intros defer. by apply running_runs.
  - intros defer v loras s1 Hrun Hp n start.
    pose proof (ok_run _ _ _ _ _ (schedule_running_ok sha256 _ _ _ defer s0 v0 (init_run_inv s0 Hwf) (wf_slots _ Hwf)) Hrun) as R1.
    pose proof (ok_run _ _ _ _ _ (schedule_running_ids sha256 defer v0 s0) Hrun) as M1.
    pose proof (run_step _ _ _ _ _ _ _ R1 M1 eq_refl) as S1.
    eapply waiting_runs; [apply Hwf|]. apply step_wait; [|by destruct (policy _)|done]. by destruct S1; split.
Qed.
End machine.

(** ** A small scheduler: two requests fill the cache, then one is preempted *)

Definition demo_sched_config : SchedulerConfig :=
  {| max_num_running_reqs := 3; max_num_scheduled_tokens := 10; max_num_batched_tokens := 10; sc_max_model_len := 16;
     num_sampled_tokens_per_step := 1; policy := FCFS; long_prefill_token_threshold := 0; enable_chunked_prefill := true;
     sc_disable_chunked_mm_input := false; is_encoder_decoder := false; is_mm_encoder_only := false;
     max_num_encoder_input_tokens := 8; num_spec_tokens := 0; sc_num_lookahead_tokens := 0; num_prefill_lookahead := 0;
     draft_slots := 0; dynamic_sd_lookup := None; max_loras := None; scheduler_reserve_full_isl := false;
     use_v2_model_runner := false; use_pp := false; pp_size := 1; async_scheduling := false;
     sc_needs_kv_cache_zeroing := false |}.

(** One full-attention group with five blocks of two tokens. *)
Definition demo_small : KVCacheConfig :=
  {| num_blocks := 6;
     kv_cache_groups :=
       [{| group_spec := {| spec_kind := FullAttention; kvs_block_size := 2; spec_prefix_cacheable := true;
                            spec_zeroed := true; spec_kpool_tail := false; spec_layout := 0 |};
           is_eagle_group := false |}];
     prefix_cache_retention_interval := None; needs_kv_cache_zeroing := false |}.
Definition demo_small_kv : KVCache :=
  match KVCacheManager_init demo_small 16 16 false true false 1 1 2 2 0 0 with Ok c => c | Raise _ => demo_kv end.

(** A hash that spells out what it is applied to. *)
Definition demo_hash (i : hash_input) : bytes :=
  match i with
  | HSeed _ => [Byte.x00]
  | HBlock parent toks _ => parent ++ ((fun z => default Byte.x00 (Byte.of_N (Z.to_N z))) <$> toks)
  end.
Definition demo_hasher : option block_hasher := Some (request_block_hasher id demo_hash "" 2).
Definition hashed (r : Request) : Request := (update_block_hashes demo_hasher r).2.

Local Abbreviation DemoSch := (Scheduler EncoderCacheManager).
Local Abbreviation demo_reach := (sched_reach (E := EncoderCacheManager) id demo_hash "" 2 (fun _ => false) (fun _ _ => false) (fun _ d => d)).
Local Abbreviation demo_schedule := (schedule (E := EncoderCacheManager) id (fun _ => false) false).

Definition demo_s0 : DemoSch := Scheduler_init demo_sched_config (EncoderCacheManager_init 4) demo_small_kv false.
Definition demo_a : Request := hashed (text_request "a" [1; 2; 3; 4; 5; 6]%Z).
Definition demo_b : Request := hashed (text_request "b" [7; 8; 9; 10]%Z).
Definition demo_s1 : DemoSch := (add_request demo_hasher demo_a demo_s0).2.
Definition demo_s2 : DemoSch := (add_request demo_hasher demo_b demo_s1).2.
Definition demo_s3 : DemoSch := (demo_schedule demo_s2).2.
Definition demo_samples : ModelRunnerOutput :=
  {| req_id_to_index := {[ "a" := 0; "b" := 1 ]}; sampled_token_ids := [[11]%Z; [12]%Z]; pooler_output := [];
     prompt_logprobs := ∅ |}.
Definition demo_s4 : DemoSch :=
  ((out ← demo_schedule; update_from_output id demo_hasher (fun _ _ => false) out demo_samples) demo_s2).2.

(** The outcome of a run, without its final state. *)
Lemma run_returns {S A} (m : M S A) s : is_ok (m s).1 = true -> exists a, m s = (Ok a, (m s).2).
Proof. destruct (m s) as [[a|e] s']; [by exists a|done]. Qed.

Lemma run_value {S A B} (m : M S A) s a s' (f : A -> B) b :
  m s = (Ok a, s') -> match (m s).1 with Ok a => Some (f a) | Raise _ => None end = Some b -> f a = b.
Proof. intros -> [=]. done. Qed.

Lemma text_addable r : mm_features r = [] -> resumable r = false -> status r = WAITING -> addable r.
Proof. intros Hf Hr Hs. split_and!; [done| |by left]. intros i j a b _. rewrite Hf. by rewrite lookup_nil. Qed.

Lemma demo_reach2 : demo_reach demo_s2.
Proof.
  assert (Ha : addable demo_a) by (apply text_addable; vm_compute; reflexivity).
  assert (Hb : addable demo_b) by (apply text_addable; vm_compute; reflexivity).
  assert (H0 : demo_reach demo_s0) by (apply reach_init; unfold limits_ok; simpl; lia).
  assert (H1 : demo_reach demo_s1).
  { eapply reach_step; [exact H0|]. destruct (run_returns (add_request demo_hasher demo_a) demo_s0) as [[] Hrun]; [vm_compute; reflexivity|].
    eapply call_add; [exact Ha|exact Hrun]. }
  eapply reach_step; [exact H1|]. destruct (run_returns (add_request demo_hasher demo_b) demo_s1) as [[] Hrun]; [vm_compute; reflexivity|].
  eapply call_add; [exact Hb|exact Hrun].
Qed.

Lemma demo_reach4 : demo_reach demo_s4.
Proof.
  destruct (run_returns demo_schedule demo_s2) as [out Hout]; [vm_compute; reflexivity|].
  assert (H3 : demo_reach (demo_schedule demo_s2).2) by (eapply reach_step; [exact demo_reach2|by eapply call_schedule]).
  assert (Hok : is_ok ((out ← demo_schedule; update_from_output id demo_hasher (fun _ _ => false) out demo_samples) demo_s2).1 = true)
    by (vm_compute; reflexivity).
  unfold demo_s4. unfold mbind, M_bind in *. rewrite Hout in Hok |- *.
  destruct (run_returns (update_from_output id demo_hasher (fun _ _ => false) out demo_samples) (demo_schedule demo_s2).2) as [o Ho]; [exact Hok|].
  eapply reach_step; [exact H3|]. by eapply call_update.
Qed.

(** The next step needs blocks for [a] and preempts [b]. *)
Lemma demo_schedule4 : exists out,
  demo_schedule demo_s4 = (Ok out, (demo_schedule demo_s4).2) /\ o_num_scheduled_tokens out = [("a", 1%Z)] /\
  o_preempted_req_ids out = {["b"]}.
Proof.
  destruct (run_returns demo_schedule demo_s4) as [out Hout]; [vm_compute; reflexivity|].
  exists out. split; [exact Hout|].
  assert (Ht : (o_num_scheduled_tokens out, elements (o_preempted_req_ids out)) = ([("a", 1%Z)], ["b"])).
  { eapply (run_value _ _ _ _ (fun out => (o_num_scheduled_tokens out, elements (o_preempted_req_ids out))) _ Hout). vm_compute. reflexivity. }
  injection Ht as H1 H2. split; [exact H1|]. apply set_eq. intros x. clear -H2. rewrite <- elem_of_elements, H2, list_elem_of_singleton. symmetry. apply elem_of_singleton.
Qed.

Lemma scheduler_invariant_witness :
  running demo_s4 = ["a"; "b"] /\ NoDup (all_ids demo_s4) /\ (zlen (running demo_s4) <= 3)%Z.
Proof.
  split; [vm_compute; reflexivity|].
  destruct (scheduler_invariant id demo_hash "" 2 (fun _ => false) (fun _ _ => false) (fun _ d => d) demo_s4 demo_reach4) as (H1 & _ & _ & H4).
  split; [exact H1|]. assert (Hc : max_num_running_reqs (config demo_s4) = 3%Z) by (vm_compute; reflexivity). rewrite Hc in H4. exact H4.
Defined.

Lemma schedule_within_limits_witness : exists out,
  demo_schedule demo_s4 = (Ok out, (demo_schedule demo_s4).2) /\ o_num_scheduled_tokens out = [("a", 1%Z)] /\
  o_total_num_scheduled_tokens out = 1%Z /\ Forall (fun kv => kv.1 ∈ running (demo_schedule demo_s4).2 /\ 0 < kv.2)%Z (o_num_scheduled_tokens out).
Proof.
  destruct demo_schedule4 as (out & Hrun & Ht & _). exists out. split; [exact Hrun|]. split; [exact Ht|].
  destruct (schedule_within_limits id demo_hash "" 2 (fun _ => false) (fun _ _ => false) (fun _ d => d) false out demo_s4 _ demo_reach4 Hrun)
    as (H1 & _ & _ & _ & H5 & _).
  split; [rewrite H1, Ht; reflexivity|exact H5].
Defined.

Lemma schedule_keeps_requests_witness : exists out s',
  demo_schedule demo_s4 = (Ok out, s') /\ running s' = ["a"] /\ queue_items (waiting s') = ["b"] /\ all_ids s' ≡ₚ all_ids demo_s4.
Proof.
  destruct demo_schedule4 as (out & Hrun & _). exists out, (demo_schedule demo_s4).2. split; [exact Hrun|].
  split; [vm_compute; reflexivity|]. split; [vm_compute; reflexivity|].
  exact (proj1 (schedule_keeps_requests id demo_hash "" 2 (fun _ => false) (fun _ _ => false) (fun _ d => d) false out demo_s4 _ demo_reach4 Hrun)).
Defined.

Lemma schedule_assertions_hold_witness : exists v s1,
  schedule_requests id (fun _ => false) false demo_s4 = (Ok v, s1) /\ check_constraints v s1 = (Ok tt, s1).
Proof.
  destruct (run_returns (schedule_requests id (fun _ => false) false) demo_s4) as [v Hv]; [vm_compute; reflexivity|].
  exists v, (schedule_requests id (fun _ => false) false demo_s4).2. split; [exact Hv|].
  exact (schedule_assertions_hold id demo_hash "" 2 (fun _ => false) (fun _ _ => false) (fun _ d => d) false v demo_s4 _ demo_reach4 Hv).
Defined.

Lemma schedule_loops_terminate_witness :
  let s0 := demo_s4 <| current_step := (current_step demo_s4 + 1)%Z |> in
  let v0 := init_vars (config s0) (pause_state s0) in
  length (running s0) = 2 /\
  exists k r, k <= 2 /\ while_runs running_left (schedule_one_running id false) k v0 s0 r /\ schedule_running id false v0 s0 = r.
Proof.
  pose proof (schedule_loops_terminate id demo_hash "" 2 (fun _ => false) (fun _ _ => false) (fun _ d => d) demo_s4 demo_reach4) as (_ & H2 & _).
  intros s0 v0. assert (Hl : length (running s0) = 2) by (vm_compute; reflexivity). split; [exact Hl|]. rewrite <- Hl. exact (H2 false).
Defined.
