(* ===== verification/SchedulerSession.v ===== *)
(** Streaming sessions, which keep the hash of tokens they discard, and runs of the scheduler that
    go wrong: a session preempted at its last output, and LoRA adapters with several batches in
    flight. *)
From S2P Require Import Prelude KVBlock FreeQueue Request BlockHash BlockPool BlockPoolThms EncoderCache SchedEncoder SchedUtils CacheHit SingleType SingleTypeFree KVCoordinator KVManager KVLifecycle RequestQueue Scheduler SchedulerInv SchedulerWait SchedulerOutput SchedulerLife SchedulerLive SchedulerUpdate SchedulerMachine.

#[export] Instance SchedulerConfig_eta : Eta SchedulerConfig := fun c =>
  Build_SchedulerConfig (max_num_running_reqs c) (max_num_scheduled_tokens c) (max_num_batched_tokens c) (sc_max_model_len c)
    (num_sampled_tokens_per_step c) (policy c) (long_prefill_token_threshold c) (enable_chunked_prefill c)
    (sc_disable_chunked_mm_input c) (is_encoder_decoder c) (is_mm_encoder_only c) (max_num_encoder_input_tokens c)
    (num_spec_tokens c) (sc_num_lookahead_tokens c) (num_prefill_lookahead c) (draft_slots c) (dynamic_sd_lookup c)
    (max_loras c) (scheduler_reserve_full_isl c) (use_v2_model_runner c) (use_pp c) (pp_size c) (async_scheduling c)
    (sc_needs_kv_cache_zeroing c).

Local Abbreviation DemoSch := (Scheduler EncoderCacheManager).

(** The calls of a run, with the demo's hashes and no grammar. *)
Definition do_add (r : Request) : M DemoSch unit := add_request demo_hasher (hashed r).
Definition do_schedule : M DemoSch SchedulerOutput := schedule id (fun _ => false) false.
Definition do_update (out : SchedulerOutput) (samples : list (string * list Z)) : M DemoSch unit :=
  _ ← update_from_output id demo_hasher (fun _ _ => false) out
        {| req_id_to_index := list_to_map (imap (fun i x => (x.1, i)) samples); sampled_token_ids := samples.*2;
           pooler_output := []; prompt_logprobs := ∅ |};
  mret tt.
Definition start (c : SchedulerConfig) : DemoSch := Scheduler_init c (EncoderCacheManager_init 4) demo_small_kv false.

(** What the state says about a request: its status, tokens, hashes and place. *)
Definition view (rid : string) (s : DemoSch) : option (RequestStatus * list Z * list bytes * bool) :=
  (fun r => (status r, all_token_ids r, block_hashes r, bool_decide (rid ∈ all_ids s))) <$> requests s !! rid.

(** ** A preempted session *)

Definition session (rid : string) (toks : list Z) : Request := text_request rid toks <| resumable := true |> <| max_tokens := 1%Z |>.

(** Asynchronous scheduling: while the first step is in flight, the second preempts [b]; then
    the first step's output arrives and [b] reaches [max_tokens]. *)
Definition preempted_run : M DemoSch unit :=
  do_add (text_request "a" [1; 2; 3; 4; 5; 6]%Z) ;; do_add (session "b" [7; 8; 9; 10]%Z) ;;
  out1 ← do_schedule; _ ← do_schedule; do_update out1 [("a", [11]%Z); ("b", [12]%Z)].

Definition async_config : SchedulerConfig := demo_sched_config <| async_scheduling := true |>.

(** In this run, a session whose last output arrives after it was preempted is lost.  The
    output stops it, [_handle_stopped_request] puts it into the queue of skipped requests to
    wait for its next input, and the clean-up of stopped preempted requests takes it out
    again: it waits for input, but no queue holds it.  The next input makes it WAITING, and
    still no queue holds it. *)
Example preempted_session_is_lost :
  let s := (preempted_run (start async_config)).2 in
  (preempted_run (start async_config)).1 = Ok tt /\
  (status <$> requests s !! "b") = Some WAITING_FOR_STREAMING_REQ /\ ("b" ∉ all_ids s) /\
  (do_add (session "b" [13; 14]%Z) s).1 = Ok tt /\
  (let s' := (do_add (session "b" [13; 14]%Z) s).2 in (status <$> requests s' !! "b") = Some WAITING /\ "b" ∉ all_ids s').
Proof.
  cbv zeta. split_and!.
  all: first [vm_compute; reflexivity|refine (bool_decide_eq_true_1 ("b" ∉ _) _); vm_compute; reflexivity].
Qed.

(** ** A session that continues inside a hashed block *)

(** The sampled token 2 completes the block [1; 2] and is hashed with it; the next input
    replaces the token.  Then a new request with the prompt [1; 2; 5] arrives. *)
Definition continued_run : M DemoSch (list (string * Z * list (list Z))) :=
  do_add (session "a" [1]%Z) ;; out ← do_schedule; do_update out [("a", [2]%Z)] ;;
  do_add (session "a" [9; 8]%Z) ;; _ ← do_schedule;
  do_add (text_request "c" [1; 2; 5]%Z) ;; out ← do_schedule;
  mret ((fun n => (nr_req_id n, nr_num_computed_tokens n, nr_block_ids n)) <$> o_new_reqs out).

(** In this run the session's tokens are [1; 9; 8] while its first block hash is still the
    one of [1; 2] (of its tokens it would be the one of [1; 9]); the block is cached
    under that hash, and the new request [1; 2; 5] is served block 1 of the session as the
    first two tokens of its prompt. *)
Example stale_hash_is_served :
  let s := (continued_run (start demo_sched_config)).2 in
  (all_token_ids <$> requests s !! "a") = Some [1; 9; 8]%Z /\
  (block_hashes <$> requests s !! "a") = Some [demo_hash (HBlock [Byte.x00] [1; 2]%Z None)] /\
  ((fun r => ref_hashes id demo_hash "" r 2 1) <$> requests s !! "a") = Some [demo_hash (HBlock [Byte.x00] [1; 9]%Z None)] /\
  kv_get_block_ids (kv_cache_manager s) "a" = [[1; 2]]%Z /\
  (continued_run (start demo_sched_config)).1 = Ok [("c", 2%Z, [[1; 3]%Z])].
Proof. vm_compute. split_and!; reflexivity. Qed.

(** What an update makes of the hashes, the tokens and the limit of a session: the limit on
    its output tokens stays the one of its first input, whatever the update says. *)
Lemma session_request_effect {E} hasher r update (s : Scheduler E) r' s' :
  hasher_tame hasher -> session_request hasher r update s = (Ok r', s') ->
  block_hashes r `prefix_of` block_hashes r' /\
  all_token_ids r' = slice 0 (num_computed_tokens r) (all_token_ids r) ++ default [] (su_prompt_token_ids update) /\
  max_tokens r' = max_tokens r.
Proof.
  intros Ht Hrun. set (Q r' := block_hashes r `prefix_of` block_hashes r' /\
    all_token_ids r' = slice 0 (num_computed_tokens r) (all_token_ids r) ++ default [] (su_prompt_token_ids update) /\ max_tokens r' = max_tokens r).
  enough (Hr : returns (S := Scheduler E) (session_request hasher r update) Q) by exact (Hr _ _ _ Hrun).
  clear Hrun r' s' s. unfold session_request. apply returns_skip. intros prompt.
  set (r1 := r <| all_token_ids := _ |> <| output_token_ids := _ |> <| prompt_token_ids := _ |> <| mm_features := _ |>).
  eapply (returns_bind _ _ (fun x => Q x.2)); [|intros [[] r2] Hr2; by apply returns_ret].
  intros s x s' Hx. unfold on_request, update_block_hashes in Hx. destruct hasher as [h|]; [|by injection Hx as <- <-].
  pose proof (Ht h eq_refl r1) as Hh. unfold mbind, M_bind, modify, wpe in *. destruct (h r1) as [[hs|e] r2]; [|done].
  injection Hx as <- <-. unfold Q. simpl. rewrite Hh. split; [by apply prefix_app_r|done].
Qed.

(** C37. [_update_request_as_session] keeps a block hash that covers a token it discards.
    When a session continues, its tokens from position [num_computed_tokens] on (the last
    sampled one) are replaced by the new input, but no block hash is dropped.  So if its block
    hashes were those of its tokens, the first discarded token lay in a block [i] that
    was already hashed and the new input does not start with the same token, then, with a
    collision-free hash function, the [i]-th block hash of the session is still the one of
    the old tokens and is not the one of the tokens it has now. *)
Theorem session_keeps_stale_hash {E} sha256 hash_fn seed bs r update (s : Scheduler E) r' s' i h x :
  (forall x y, hash_fn x = hash_fn y -> x = y) -> (forall x, hash_fn x <> []) -> (0 < bs)%Z ->
  block_hashes r = ref_hashes sha256 hash_fn seed r bs (num_full r bs) ->
  session_request (Some (request_block_hasher sha256 hash_fn seed bs)) r update s = (Ok r', s') ->
  block_hashes r !! i = Some h -> (Z.of_nat i * bs <= num_computed_tokens r < Z.of_nat (S i) * bs)%Z ->
  all_token_ids r !! Z.to_nat (num_computed_tokens r) = Some x -> head (default [] (su_prompt_token_ids update)) <> Some x ->
  block_hashes r' !! i = Some h /\ h = ref_hash sha256 hash_fn seed r bs i /\ h <> ref_hash sha256 hash_fn seed r' bs i.
Proof.
  intros Hinj Hne Hbs Hb Hrun Hi Hc Hx Hnew.
  destruct (session_request_effect _ _ _ _ _ _ (block_hasher_tame sha256 hash_fn seed bs) Hrun) as (Hpre & Htok & _).
  assert (h = ref_hash sha256 hash_fn seed r bs i) as Hh.
  { rewrite Hb in Hi. unfold ref_hashes in Hi. by apply list_lookup_fmap_Some in Hi as (j & -> & [-> _]%lookup_seq). }
  split_and!; [by eapply prefix_lookup_Some|done|].
  intros Heq. rewrite Hh in Heq. apply (ref_hash_inj sha256 hash_fn seed Hinj Hne) in Heq as [_ Hk]. specialize (Hk i ltac:(lia)) as [Hk _].
  unfold block_tokens in Hk. apply Hnew. rewrite <- Hx.
  set (c := Z.to_nat (num_computed_tokens r)) in *.
  assert (Hcell : forall l : list Z, slice (Z.of_nat i * bs) (Z.of_nat (S i) * bs) l !! (c - Z.to_nat (Z.of_nat i * bs)) = l !! c).
  { intros l. unfold slice. rewrite lookup_take_lt by lia. rewrite lookup_drop. f_equal. lia. }
  rewrite <- (Hcell (all_token_ids r)), Hk, Hcell, Htok.
  assert (Hl : length (slice 0 (num_computed_tokens r) (all_token_ids r)) = c).
  { unfold slice. apply lookup_lt_Some in Hx. rewrite length_take, length_drop. lia. }
  rewrite lookup_app_r by lia. rewrite Hl, Nat.sub_diag. by destruct (default [] _).
Qed.

(** The session [1] whose sampled token 2 filled the block; the input [9; 8] replaces it. *)
Lemma session_keeps_stale_hash_witness :
  let r := made "a" [1]%Z [[2]]%Z <| num_computed_tokens := 1%Z |> in
  let s := start demo_sched_config in
  let update := {| su_mm_features := []; su_prompt_token_ids := Some [9; 8]%Z; su_max_tokens := 1%Z; su_arrival_time := 0%Z;
                   su_sampling_params := None |} in
  exists r' h, session_request (Some (request_block_hasher id test_hash "seed" 2)) r update s = (Ok r', s) /\
    block_hashes r' !! 0 = Some h /\ h = ref_hash id test_hash "seed" r 2 0 /\ h <> ref_hash id test_hash "seed" r' 2 0.
Proof.
  cbv zeta. set (r := made "a" [1]%Z [[2]]%Z <| num_computed_tokens := 1%Z |>). set (s := start demo_sched_config). set (update := Build_StreamingUpdate _ _ _ _ _).
  destruct (session_request (Some (request_block_hasher id test_hash "seed" 2)) r update s) as [[r'|e] s'] eqn:Hrun; [|vm_compute in Hrun; discriminate Hrun].
  exists r', (ref_hash id test_hash "seed" r 2 0).
  assert (s' = s) as ->.
  { assert (Hs : (session_request (Some (request_block_hasher id test_hash "seed" 2)) r update s).2 = s) by (vm_compute; reflexivity). by rewrite Hrun in Hs. }
  split; [reflexivity|].
  refine (session_keeps_stale_hash id test_hash "seed" 2 r update s r' s 0 _ 2%Z test_hash_inj test_hash_nonempty eq_refl _ Hrun _ _ _ _);
    [vm_compute; reflexivity|vm_compute; reflexivity|split; vm_compute; congruence|vm_compute; reflexivity|vm_compute; congruence].
Defined.

(** ** LoRA adapters with two batches in flight *)

Definition lora (i : Z) : LoRARequest := {| lora_name := ""; adapter_id := i |}.

(** Pipeline parallelism: the second step is scheduled while the first is in flight. *)
Definition lora_run : M DemoSch unit :=
  do_add (text_request "a" [1; 2]%Z <| lora_request := Some (lora 1) |>) ;; out1 ← do_schedule;
  do_add (text_request "b" [3; 4]%Z <| lora_request := Some (lora 2) |>) ;; out2 ← do_schedule;
  do_update out1 [("a", [11]%Z)] ;; do_update out2 [("b", [11]%Z)].

Definition lora_config : SchedulerConfig :=
  demo_sched_config <| max_loras := Some 1%Z |> <| use_pp := true |> <| pp_size := 2%Z |>.

(** With [max_loras] 1, the second step does not count the adapter of the running request it
    passes over and admits a second adapter; the third step schedules both, and the assertion
    on the number of adapters fails. *)
Lemma lora_assertion_fails :
  (lora_run (start lora_config)).1 = Ok tt /\
  running (lora_run (start lora_config)).2 = ["a"; "b"] /\
  (do_schedule (lora_run (start lora_config)).2).1 = Raise AssertionError.
Proof. vm_compute. split_and!; reflexivity. Qed.
