(* ===== verification/KVSpec.v ===== *)
(** The KV-cache specs of the layers (vllm/v1/kv_cache_interface.py): for every attention
    kind the format of its cache, its page size, how much a request can need of it, and
    when the layers of a group count as the same. *)
From S2P Require Import Prelude KVBlock FreeQueue Request BlockHash BlockPool BlockPoolInv BlockPoolSpec BlockPoolCache CacheHit.

(** ** Code that may raise and keeps no state *)

#[export] Instance outcome_ret : MRet outcome := fun A a => Ok a.
#[export] Instance outcome_bind : MBind outcome := fun A B k m =>
  match m with Ok a => k a | Raise e => Raise e end.

Definition oassert (b : bool) : outcome unit := if b then Ok tt else Raise AssertionError.
Definition ofail {A} (e : exn) : outcome A := Raise e.

(** [max(l)] and [min(l)] raise [ValueError] on an empty argument. *)
Definition pymax (l : list Z) : outcome Z :=
  match l with [] => Raise ValueError | x :: l' => Ok (foldr Z.max x l') end.
Definition pymin (l : list Z) : outcome Z :=
  match l with [] => Raise ValueError | x :: l' => Ok (foldr Z.min x l') end.

Definition sum_list (l : list Z) : Z := foldr Z.add 0%Z l.
Definition prod_list (l : list Z) : Z := foldr Z.mul 1%Z l.

(** [next(iter(l))] *)
Definition pyfirst {A} (l : list A) : outcome A :=
  match l with [] => Raise StopIteration | x :: _ => Ok x end.

(** [len(set(l)) == 1], and the element *)
Definition singleton_of {A} `{EqDecision A} (l : list A) : option A :=
  match remove_dups l with [x] => Some x | _ => None end.

(** [round_up(x, y)] of vllm/utils/math_utils.py *)
Definition plan_round_up (x y : Z) : Z := ((x + y - 1) / y * y)%Z.

(** ** The specs *)

(** A torch dtype with its [element_size()]. *)
Record dtype := { dtype_name : string; dtype_size : Z }.
#[export] Instance dtype_eq_dec : EqDecision dtype.
Proof. solve_decision. Defined.

Inductive KVQuantMode :=
  | QNONE | FP8_PER_TENSOR | INT8_PER_TOKEN_HEAD | FP8_PER_TOKEN_HEAD | INT4_PER_TOKEN_HEAD | NVFP4
  | TURBOQUANT_K8V4 | TURBOQUANT_4BIT_NC | TURBOQUANT_K3V4_NC | TURBOQUANT_3BIT_NC.
#[export] Instance KVQuantMode_eq_dec : EqDecision KVQuantMode.
Proof. solve_decision. Defined.

(** The fields of [AttentionSpec].  [tokens_per_state], an int or a [Fraction], is a reduced
    pair (numerator, positive denominator). *)
Record AttentionFields := {
  num_kv_heads : Z;
  head_size : Z;
  attn_dtype : dtype;
  head_size_v : Z;
  kv_quant_mode : KVQuantMode;
  page_size_padded : option Z;
  num_head_slots : option Z;
  state_content_bytes : option Z;
  tokens_per_state : Z * Z;
}.
#[export] Instance AttentionFields_eq_dec : EqDecision AttentionFields.
Proof. solve_decision. Defined.
#[export] Instance AttentionFields_eta : Eta AttentionFields := fun r =>
  Build_AttentionFields (num_kv_heads r) (head_size r) (attn_dtype r) (head_size_v r) (kv_quant_mode r)
    (page_size_padded r) (num_head_slots r) (state_content_bytes r) (tokens_per_state r).

(** The fields [FullAttentionSpec] adds, those of [MLAAttentionSpec], those of
    [SlidingWindowMLASpec]. *)
Record FullFields := { full_window : option Z; full_chunk : option Z; non_causal : bool }.
#[export] Instance FullFields_eq_dec : EqDecision FullFields.
Proof. solve_decision. Defined.

Record MLAFields := {
  cache_dtype_str : option string;
  alignment : option Z;
  model_version : option string;
  storage_block_size : option Z;
  non_causal_multi_token_decode : bool;
}.
#[export] Instance MLAFields_eq_dec : EqDecision MLAFields.
Proof. solve_decision. Defined.

Record WindowMLAFields := {
  swm_cache_dtype_str : option string;
  swm_alignment : option Z;
  swm_model_version : option string;
}.
#[export] Instance WindowMLAFields_eq_dec : EqDecision WindowMLAFields.
Proof. solve_decision. Defined.

(** The subclasses of [AttentionSpec] with the fields they add; [w] is [sliding_window] and
    [extra] is [extra_retained_tokens]. *)
Inductive AttentionClass :=
  | FullAttentionSpec (f : FullFields)
  | MLAAttentionSpec (f : FullFields) (m : MLAFields)
  | HiddenStateCacheSpec (f : FullFields) (m : MLAFields)
  | RSWASpec (f : FullFields) (rswa_window : Z)
  | SinkFullAttentionSpec (f : FullFields) (sink_len : option Z)
  | ChunkedLocalAttentionSpec (attention_chunk_size : Z)
  | SlidingWindowSpec (w extra : Z)
  | DFlashSWASpec (w extra : Z) (private_ring : bool)
  | SlidingWindowMLASpec (w extra : Z) (s : WindowMLAFields)
  | KpoolTailSpec (w extra : Z)
  | CircularBufferSpec
  | EncoderOnlyAttentionSpec
  | CrossAttentionSpec.
#[export] Instance AttentionClass_eq_dec : EqDecision AttentionClass.
Proof. solve_decision. Defined.

Record MambaFields := {
  shapes : list (list Z);
  dtypes : list dtype;
  mamba_page_size_padded : option Z;
  mamba_type : string;
  mamba_spec_cache_mode : string;
  num_speculative_blocks : Z;
  num_prefill_checkpoint_blocks : Z;
  prefill_checkpoint_alignment : option Z;
  mamba_num_heads : Z;
  mamba_tokens_per_state : Z;
  tp_replicated : bool;
}.
#[export] Instance MambaFields_eq_dec : EqDecision MambaFields.
Proof. solve_decision. Defined.
#[export] Instance MambaFields_eta : Eta MambaFields := fun r =>
  Build_MambaFields (shapes r) (dtypes r) (mamba_page_size_padded r) (mamba_type r) (mamba_spec_cache_mode r)
    (num_speculative_blocks r) (num_prefill_checkpoint_blocks r) (prefill_checkpoint_alignment r)
    (mamba_num_heads r) (mamba_tokens_per_state r) (tp_replicated r).

(** The spec of one layer: its block size and its class. *)
Inductive LayerSpec :=
  | AttentionSpec (block_size : Z) (a : AttentionFields) (c : AttentionClass)
  | MambaSpec (block_size : Z) (m : MambaFields).
#[export] Instance LayerSpec_eq_dec : EqDecision LayerSpec.
Proof. solve_decision. Defined.

(** A dict from layer names to specs, in insertion order. *)
Definition Specs : Type := list (string * LayerSpec).

Definition layer_block_size (s : LayerSpec) : Z :=
  match s with AttentionSpec bs _ _ | MambaSpec bs _ => bs end.

(** [isinstance] tests *)
Definition is_full_class (c : AttentionClass) : bool :=
  match c with
  | FullAttentionSpec _ | MLAAttentionSpec _ _ | HiddenStateCacheSpec _ _ | RSWASpec _ _
  | SinkFullAttentionSpec _ _ => true
  | _ => false
  end.
Definition is_mla_class (c : AttentionClass) : bool :=
  match c with MLAAttentionSpec _ _ | HiddenStateCacheSpec _ _ => true | _ => false end.
Definition window_of_class (c : AttentionClass) : option (Z * Z) :=
  match c with
  | SlidingWindowSpec w x | DFlashSWASpec w x _ | SlidingWindowMLASpec w x _ | KpoolTailSpec w x => Some (w, x)
  | _ => None
  end.
Definition on_class (P : AttentionClass -> bool) (s : LayerSpec) : bool :=
  match s with AttentionSpec _ _ c => P c | MambaSpec _ _ => false end.
Definition is_full_spec : LayerSpec -> bool := on_class is_full_class.
Definition is_mla_spec : LayerSpec -> bool := on_class is_mla_class.
Definition is_window_spec : LayerSpec -> bool := on_class (fun c => bool_decide (is_Some (window_of_class c))).
Definition is_chunked_spec : LayerSpec -> bool :=
  on_class (fun c => match c with ChunkedLocalAttentionSpec _ => true | _ => false end).
Definition is_hidden_spec : LayerSpec -> bool :=
  on_class (fun c => match c with HiddenStateCacheSpec _ _ => true | _ => false end).
Definition is_window_mla_spec : LayerSpec -> bool :=
  on_class (fun c => match c with SlidingWindowMLASpec _ _ _ => true | _ => false end).
Definition is_tail_spec : LayerSpec -> bool :=
  on_class (fun c => match c with KpoolTailSpec _ _ => true | _ => false end).
Definition is_mamba_spec (s : LayerSpec) : bool := match s with MambaSpec _ _ => true | _ => false end.
(** [type(spec) is MLAAttentionSpec] *)
Definition is_exact_mla : LayerSpec -> bool :=
  on_class (fun c => match c with MLAAttentionSpec _ _ => true | _ => false end).

(** ** Pages *)

(** [get_num_kernel_states(block_size)]: [block_size // tokens_per_state], for [n/d] *)
Definition num_states (bs : Z) (tps : Z * Z) : Z := if (0 <? tps.1)%Z then (bs * tps.2 / tps.1)%Z else 1%Z.

Definition num_heads (a : AttentionFields) : Z := default (num_kv_heads a) (num_head_slots a).
Definition state_content_size_bytes (a : AttentionFields) : Z :=
  default ((head_size a + head_size_v a) * dtype_size (attn_dtype a))%Z (state_content_bytes a).
Definition unpadded_page_size_bytes (bs : Z) (a : AttentionFields) : Z :=
  (num_heads a * num_states bs (tokens_per_state a) * state_content_size_bytes a)%Z.
(** [MambaSpec.state_content_size_bytes], which is also [real_page_size_bytes] *)
Definition mamba_state_bytes (m : MambaFields) : Z :=
  sum_list (zip_with (fun sh d => prod_list sh * dtype_size d)%Z (shapes m) (dtypes m)).

Definition padded_page (unpadded : Z) (padded : option Z) : outcome Z :=
  match padded with
  | Some p => oassert (unpadded <=? p)%Z ;; Ok p
  | None => Ok unpadded
  end.

(** [page_size_bytes] *)
Definition page_size_bytes (s : LayerSpec) : outcome Z :=
  match s with
  | AttentionSpec bs a _ => padded_page (unpadded_page_size_bytes bs a) (page_size_padded a)
  | MambaSpec _ m => padded_page (mamba_state_bytes m) (mamba_page_size_padded m)
  end.

(** [_apply_alignment_padding(spec)] *)
Definition apply_alignment_padding (bs : Z) (a : AttentionFields) (align : option Z) : AttentionFields :=
  match align with
  | None => a
  | Some al =>
      let actual := unpadded_page_size_bytes bs a in
      let padded := plan_round_up actual al in
      if (padded =? actual)%Z then a else a <| page_size_padded := Some padded |>
  end.

(** [__post_init__], which the constructor and [replace] run.  [head_size_v] is given. *)
Definition post_init (s : LayerSpec) : outcome LayerSpec :=
  match s with
  | AttentionSpec bs a c =>
      match c with
      | MLAAttentionSpec _ m | HiddenStateCacheSpec _ m =>
          Ok (AttentionSpec bs (apply_alignment_padding bs a (alignment m)) c)
      | SlidingWindowMLASpec _ _ w =>
          oassert (match swm_model_version w with None => true | Some v => bool_decide (v = "deepseek_v4"%string) end) ;;
          Ok (AttentionSpec bs (apply_alignment_padding bs a (swm_alignment w)) c)
      | _ => Ok s
      end
  | MambaSpec _ _ => Ok s
  end.

(** [replace(spec, block_size=bs)] and [replace(spec, page_size_padded=p)] *)
Definition replace_block_size (bs : Z) (s : LayerSpec) : outcome LayerSpec :=
  post_init (match s with AttentionSpec _ a c => AttentionSpec bs a c | MambaSpec _ m => MambaSpec bs m end).
Definition replace_page_size_padded (p : option Z) (s : LayerSpec) : outcome LayerSpec :=
  post_init (match s with
             | AttentionSpec bs a c => AttentionSpec bs (a <| page_size_padded := p |>) c
             | MambaSpec bs m => MambaSpec bs (m <| mamba_page_size_padded := p |>)
             end).

(** ** Merging the specs of a group *)

Definition full_fields (s : LayerSpec) : option FullFields :=
  match s with
  | AttentionSpec _ _ (FullAttentionSpec f | MLAAttentionSpec f _ | HiddenStateCacheSpec f _ | RSWASpec f _
                      | SinkFullAttentionSpec f _) => Some f
  | _ => None
  end.
Definition mla_fields (s : LayerSpec) : option MLAFields :=
  match s with AttentionSpec _ _ (MLAAttentionSpec _ m | HiddenStateCacheSpec _ m) => Some m | _ => None end.
Definition attention_fields (s : LayerSpec) : option (Z * AttentionFields) :=
  match s with AttentionSpec bs a _ => Some (bs, a) | MambaSpec _ _ => None end.

(** [FullAttentionSpec.merge_window_sizes] *)
Definition merge_window_sizes (l : list Z) : outcome (option Z) :=
  match remove_dups l with [] => Ok None | [w] => Ok (Some w) | _ => Raise ValueError end.

(** The part that the merges of full and of sink attention share; [a] are the attention
    fields of the merged spec. *)
Definition merge_full (bs : Z) (a : AttentionFields) (specs : list LayerSpec) : outcome FullFields :=
  oassert (forallb is_full_spec specs) ;;
  oassert (forallb (fun s => negb (is_mla_spec s)) specs) ;;
  sw ← merge_window_sizes (omap (fun s => full_fields s ≫= full_window) specs);
  ch ← merge_window_sizes (omap (fun s => full_fields s ≫= full_chunk) specs);
  oassert (forallb (fun s => bool_decide (attention_fields s = Some (bs, a))) specs) ;;
  oassert (negb (bool_decide (is_Some sw) && bool_decide (is_Some ch))) ;;
  Ok {| full_window := sw; full_chunk := ch;
        non_causal := existsb (fun s => default false (non_causal <$> full_fields s)) specs |}.

Definition mla_agree {B} `{EqDecision B} (f : MLAFields -> B) (specs : list LayerSpec) : option B :=
  singleton_of (f <$> omap mla_fields specs).

(** [MLAAttentionSpec.merge]: the fields of the merged spec *)
Definition merge_mla (bs : Z) (a : AttentionFields) (specs : list LayerSpec)
    : outcome (AttentionFields * FullFields * MLAFields) :=
  oassert (forallb is_mla_spec specs) ;;
  let tps := singleton_of ((fun s => tokens_per_state s.2) <$> omap attention_fields specs) in
  match mla_agree cache_dtype_str specs, tps, mla_agree model_version specs, mla_agree storage_block_size specs with
  | Some dt, Some t, Some v, Some sbs =>
      match mla_agree non_causal_multi_token_decode specs with
      | Some nc =>
          let a' := a <| head_size_v := 0%Z |> <| tokens_per_state := t |> in
          oassert (forallb (fun s => bool_decide (attention_fields s = Some (bs, a'))) specs) ;;
          Ok (a', {| full_window := None; full_chunk := None; non_causal := false |},
              {| cache_dtype_str := dt; alignment := None; model_version := v; storage_block_size := sbs;
                 non_causal_multi_token_decode := nc |})
      | None => Raise AssertionError
      end
  | _, _, _, _ => Raise AssertionError
  end.

Definition window_mla_key (s : LayerSpec) : option (option string * (Z * Z) * option string * Z * Z) :=
  match s with
  | AttentionSpec _ a (SlidingWindowMLASpec w x f) =>
      Some (swm_cache_dtype_str f, tokens_per_state a, swm_model_version f, w, x)
  | _ => None
  end.

(** [SlidingWindowMLASpec.merge]: the other attention fields come from the first spec. *)
Definition merge_window_mla (bs : Z) (a : AttentionFields) (specs : list LayerSpec) : outcome LayerSpec :=
  oassert (forallb is_window_mla_spec specs) ;;
  match singleton_of (omap window_mla_key specs) with
  | Some (dt, t, v, w, x) =>
      post_init (AttentionSpec bs
        (a <| head_size_v := 0%Z |> <| kv_quant_mode := QNONE |> <| tokens_per_state := t |>)
        (SlidingWindowMLASpec w x {| swm_cache_dtype_str := dt; swm_alignment := None; swm_model_version := v |}))
  | None => Raise AssertionError
  end.

Definition rswa_window_of (s : LayerSpec) : option Z :=
  match s with AttentionSpec _ _ (RSWASpec _ w) => Some w | _ => None end.

(** [specs[0].merge(specs)], by the class of the first spec *)
Definition merge (specs : list LayerSpec) : outcome LayerSpec :=
  match specs with
  | [] => Raise IndexError
  | AttentionSpec bs a (FullAttentionSpec _) :: _ =>
      f ← merge_full bs a specs;
      Ok (AttentionSpec bs a (FullAttentionSpec f))
  | AttentionSpec bs a (SinkFullAttentionSpec _ sink) :: _ =>
      let a' := a <| tokens_per_state := (1, 1)%Z |> in
      f ← merge_full bs a' specs;
      Ok (AttentionSpec bs a' (SinkFullAttentionSpec f sink))
  | AttentionSpec bs a (RSWASpec _ _) :: _ =>
      oassert (forallb (fun s => bool_decide (is_Some (rswa_window_of s))) specs) ;;
      match singleton_of (omap rswa_window_of specs) with
      | Some w => f ← merge_full bs a specs; Ok (AttentionSpec bs a (RSWASpec f w))
      | None => Raise AssertionError
      end
  | AttentionSpec bs a (MLAAttentionSpec _ _) :: _ =>
      '(a', f, m) ← merge_mla bs a specs; Ok (AttentionSpec bs a' (MLAAttentionSpec f m))
  | AttentionSpec bs a (HiddenStateCacheSpec _ _) :: _ =>
      '(a', f, m) ← merge_mla bs a specs; Ok (AttentionSpec bs a' (HiddenStateCacheSpec f m))
  | AttentionSpec bs a (SlidingWindowMLASpec _ _ _) :: _ => merge_window_mla bs a specs
  | s0 :: rest => oassert (forallb (fun s => bool_decide (s = s0)) rest) ;; Ok s0
  end.

(** ** Layers of one type *)

(** [spec.is_uniform_with_collection(specs)] *)
Definition is_uniform_with_collection (self : LayerSpec) (specs : list LayerSpec) : outcome bool :=
  match self with
  | AttentionSpec _ _ c =>
      match c with
      | FullAttentionSpec _ | MLAAttentionSpec _ _ | HiddenStateCacheSpec _ _ | RSWASpec _ _
      | SinkFullAttentionSpec _ _ => Ok (forallb is_full_spec specs)
      | ChunkedLocalAttentionSpec n =>
          Ok (forallb (on_class (fun c' => bool_decide (c' = ChunkedLocalAttentionSpec n))) specs)
      | SlidingWindowSpec w _ | DFlashSWASpec w _ _ =>
          Ok (forallb (on_class (fun c' => bool_decide (fst <$> window_of_class c' = Some w))) specs)
      | SlidingWindowMLASpec w _ _ =>
          Ok (forallb (fun s => is_window_mla_spec s &&
                                on_class (fun c' => bool_decide (fst <$> window_of_class c' = Some w)) s) specs)
      | KpoolTailSpec _ _ => Ok (forallb is_tail_spec specs)
      | CircularBufferSpec => Ok (forallb (on_class (fun c' => bool_decide (c' = CircularBufferSpec))) specs)
      | CrossAttentionSpec => Ok (forallb (on_class (fun c' => bool_decide (c' = CrossAttentionSpec))) specs)
      | EncoderOnlyAttentionSpec => Raise AssertionError
      end
  | MambaSpec _ m =>
      all_ok (fun s =>
        match s with
        | MambaSpec _ m' =>
            if (num_speculative_blocks m' =? num_speculative_blocks m)%Z &&
               (num_prefill_checkpoint_blocks m' =? num_prefill_checkpoint_blocks m)%Z &&
               bool_decide (prefill_checkpoint_alignment m' = prefill_checkpoint_alignment m)
            then p' ← page_size_bytes s; p ← page_size_bytes self;
                 Ok ((p' =? p)%Z && Bool.eqb (tp_replicated m') (tp_replicated m))
            else Ok false
        | AttentionSpec _ _ _ => Ok false
        end) specs
  end.

(** [UniformTypeKVCacheSpecs.is_uniform_type(specs)] *)
Definition is_uniform_type (specs : Specs) : outcome bool :=
  if decide (1 < length (remove_dups (layer_block_size <$> specs.*2))) then Ok false
  else first ← pyfirst specs.*2; is_uniform_with_collection first specs.*2.

(** The spec of a group: that of its layers, or a [UniformTypeKVCacheSpecs] with one per
    layer. *)
Inductive GroupSpec :=
  | LayerKVCacheSpec (s : LayerSpec)
  | UniformTypeKVCacheSpecs (block_size : Z) (kv_cache_specs : Specs).

(** [UniformTypeKVCacheSpecs.from_specs(specs)] *)
Definition from_specs (specs : Specs) : outcome (option GroupSpec) :=
  b ← is_uniform_type specs;
  if negb b then Ok None
  else first ← pyfirst specs.*2; Ok (Some (UniformTypeKVCacheSpecs (layer_block_size first) specs)).

(** [is_kv_cache_spec_uniform(specs)]: only an [AssertionError] of [merge] is caught. *)
Definition is_kv_cache_spec_uniform (specs : Specs) : outcome bool :=
  match specs with
  | [] => Ok true
  | _ => match merge specs.*2 with
         | Ok _ => Ok true
         | Raise AssertionError => Ok false
         | Raise e => Raise e
         end
  end.

(** ** What a request can need *)

Inductive KVCacheLayout := LBHNC | LBNHC | LHBNC | BLHNC | BLNHC | BHLNC.
#[export] Instance KVCacheLayout_eq_dec : EqDecision KVCacheLayout.
Proof. solve_decision. Defined.

(** [SpeculativeConfig]: what planning reads of it *)
Record SpeculativeConfig := {
  spec_method : string;
  use_eagle : bool;
  use_multi_module_mtp : bool;
  spec_num_speculative_tokens : Z;
}.

(** [VllmConfig], the environment included: what planning reads of it.  [max_model_len] is
    written by auto-fit. *)
Record PlanConfig := {
  max_model_len : Z;
  original_max_model_len : Z;
  decode_context_parallel_size : Z;
  pipeline_parallel_size : Z;
  total_num_hidden_layers : Z;
  pp_layer_partition : option (list Z);
  max_concurrent_batches : Z;
  max_num_batched_tokens : Z;
  max_num_seqs : Z;
  max_num_encoder_input_tokens : Z;
  disable_hybrid_kv_cache_manager : bool;
  num_gpu_blocks_override : option Z;
  cache_mamba_cache_mode : string;
  kv_cache_layout : option KVCacheLayout;
  speculative_config : option SpeculativeConfig;
  has_kv_transfer_config : bool;
  dflash_kv_ring : bool;
  hf_model_type : string;
}.
#[export] Instance PlanConfig_eta : Eta PlanConfig := fun r =>
  Build_PlanConfig (max_model_len r) (original_max_model_len r) (decode_context_parallel_size r)
    (pipeline_parallel_size r) (total_num_hidden_layers r) (pp_layer_partition r) (max_concurrent_batches r)
    (max_num_batched_tokens r) (max_num_seqs r) (max_num_encoder_input_tokens r)
    (disable_hybrid_kv_cache_manager r) (num_gpu_blocks_override r) (cache_mamba_cache_mode r)
    (kv_cache_layout r) (speculative_config r) (has_kv_transfer_config r) (dflash_kv_ring r) (hf_model_type r).

(** [VllmConfig.max_in_flight_tokens] *)
Definition max_in_flight_tokens (cfg : PlanConfig) : Z := (max_concurrent_batches cfg * max_num_batched_tokens cfg)%Z.

(** [max_admission_blocks_per_request] of the window and the chunk specs *)
Definition max_admission_blocks (cfg : PlanConfig) (bs : Z) (c : AttentionClass) : Z :=
  match c with
  | KpoolTailSpec _ _ => 1%Z
  | ChunkedLocalAttentionSpec n => cdiv (Z.min (n + max_in_flight_tokens cfg) (max_model_len cfg)) bs
  | _ =>
      let '(w, x) := default (0, 0)%Z (window_of_class c) in
      (cdiv (Z.min (w - 1 + x + max_in_flight_tokens cfg) (max_model_len cfg)) bs + 1)%Z
  end.

(** [max_memory_usage_bytes(vllm_config)] *)
Definition max_memory_usage_bytes (cfg : PlanConfig) (s : LayerSpec) : outcome Z :=
  match s with
  | AttentionSpec bs a c =>
      match c with
      | FullAttentionSpec _ | MLAAttentionSpec _ _ | HiddenStateCacheSpec _ _ | RSWASpec _ _
      | SinkFullAttentionSpec _ _ =>
          let dcp := decode_context_parallel_size cfg in
          let len := if (1 <? dcp)%Z then cdiv (max_model_len cfg) dcp else max_model_len cfg in
          page ← page_size_bytes s; Ok (cdiv len bs * page)%Z
      | ChunkedLocalAttentionSpec _ =>
          page ← page_size_bytes s; Ok (max_admission_blocks cfg bs c * page)%Z
      | SlidingWindowSpec _ _ | DFlashSWASpec _ _ _ | SlidingWindowMLASpec _ _ _ | KpoolTailSpec _ _ =>
          oassert (decode_context_parallel_size cfg =? 1)%Z ;;
          page ← page_size_bytes s; Ok (max_admission_blocks cfg bs c * page)%Z
      | CircularBufferSpec => page_size_bytes s
      | EncoderOnlyAttentionSpec => Ok 0%Z
      | CrossAttentionSpec =>
          page ← page_size_bytes s; Ok (cdiv (max_num_encoder_input_tokens cfg) bs * page)%Z
      end
  | MambaSpec bs m =>
      page ← page_size_bytes s;
      if bool_decide (cache_mamba_cache_mode cfg = "all"%string) then
        Ok ((cdiv (max_model_len cfg) bs + num_speculative_blocks m) * page)%Z
      else if bool_decide (cache_mamba_cache_mode cfg = "align"%string) then
        Ok (page * (2 + num_speculative_blocks m + num_prefill_checkpoint_blocks m))%Z
      else Ok (page * (1 + num_speculative_blocks m))%Z
  end.

(** [cdiv(spec.max_memory_usage_bytes(vllm_config), spec.page_size_bytes)] *)
Definition max_memory_pages (cfg : PlanConfig) (s : LayerSpec) : outcome Z :=
  b ← max_memory_usage_bytes cfg s; page ← page_size_bytes s; Ok (cdiv b page).

(** [speculative_scratch_bytes(vllm_config)] *)
Definition speculative_scratch_bytes (s : LayerSpec) : outcome Z :=
  match s with
  | MambaSpec _ m => page ← page_size_bytes s; Ok (page * num_speculative_blocks m)%Z
  | AttentionSpec _ _ _ => Ok 0%Z
  end.

(** [UniformTypeKVCacheSpecs.max_memory_usage_pages(vllm_config)] *)
Definition uniform_pages (cfg : PlanConfig) (specs : Specs) : outcome Z :=
  l ← mapM (max_memory_pages cfg) specs.*2; pymax l.

(** [page_size_bytes], [max_memory_usage_bytes], [speculative_scratch_bytes] and
    [block_size] of a group's spec *)
Definition group_page_size_bytes (g : GroupSpec) : outcome Z :=
  match g with
  | LayerKVCacheSpec s => page_size_bytes s
  | UniformTypeKVCacheSpecs _ specs => l ← mapM page_size_bytes specs.*2; Ok (sum_list l)
  end.
Definition group_max_memory_usage_bytes (cfg : PlanConfig) (g : GroupSpec) : outcome Z :=
  match g with
  | LayerKVCacheSpec s => max_memory_usage_bytes cfg s
  | UniformTypeKVCacheSpecs _ specs =>
      n ← uniform_pages cfg specs; page ← group_page_size_bytes g; Ok (n * page)%Z
  end.
Definition group_speculative_scratch_bytes (g : GroupSpec) : outcome Z :=
  match g with
  | LayerKVCacheSpec s => speculative_scratch_bytes s
  | UniformTypeKVCacheSpecs _ specs =>
      l ← mapM (fun s => b ← speculative_scratch_bytes s; page ← page_size_bytes s; Ok (cdiv b page)) specs.*2;
      n ← pymax l; page ← group_page_size_bytes g; Ok (n * page)%Z
  end.
Definition group_block_size (g : GroupSpec) : Z :=
  match g with LayerKVCacheSpec s => layer_block_size s | UniformTypeKVCacheSpecs bs _ => bs end.

(** [iter_layer_specs(spec)] *)
Definition iter_layer_specs (g : GroupSpec) : list LayerSpec :=
  match g with LayerKVCacheSpec s => [s] | UniformTypeKVCacheSpecs _ specs => specs.*2 end.

(** [get_max_layers_per_page_size()]: the largest count of one page size *)
Definition get_max_layers_per_page_size (specs : Specs) : outcome Z :=
  l ← mapM page_size_bytes specs.*2;
  match l with
  | [] => Raise IndexError
  | _ => pymax ((fun p => zlen (filter (fun q => q = p) l)) <$> l)
  end.

(** [KVCacheGroupSpec] *)
Record KVCacheGroup := {
  layer_names : list string;
  kv_cache_spec : GroupSpec;
  is_eagle : bool;
  enable_kv_transfer : bool;
}.
#[export] Instance KVCacheGroup_eta : Eta KVCacheGroup := fun r =>
  Build_KVCacheGroup (layer_names r) (kv_cache_spec r) (is_eagle r) (enable_kv_transfer r).

(** [KVCacheGroupSpec(names, spec)] with the defaults of the other fields *)
Definition new_group (names : list string) (g : GroupSpec) : KVCacheGroup :=
  {| layer_names := names; kv_cache_spec := g; is_eagle := false; enable_kv_transfer := true |}.

(** [KVCacheTensor] and [KVCacheConfig] as the planner builds them *)
Record KVCacheTensor := {
  tensor_size : Z;
  tensor_layers : list string;
  layer_stride : Z;
  block_stride : Z;
  tensor_offset : Z;
  tensor_num_blocks : option Z;
}.
Record PlannedConfig := {
  planned_num_blocks : Z;
  kv_cache_tensors : list KVCacheTensor;
  planned_groups : list KVCacheGroup;
}.
