(* ===== verification/KVGroups.v ===== *)
(** Grouping the layers of a model by KV-cache spec (vllm/v1/core/kv_cache_utils.py): the
    paths of [get_kv_cache_groups].  A dict of layers is a list of pairs in insertion
    order. *)
From S2P Require Import Prelude KVBlock FreeQueue Request BlockHash BlockPool BlockPoolInv BlockPoolSpec BlockPoolCache CacheHit KVSpec.
From Stdlib Require Import Strings.Ascii.

(** [d[k].append(v)] of a [defaultdict(list)] *)
Fixpoint dict_append {K V} `{EqDecision K} (k : K) (v : V) (d : list (K * list V)) : list (K * list V) :=
  match d with
  | [] => [(k, [v])]
  | (k', l) :: d' => if decide (k' = k) then (k', l ++ [v]) :: d' else (k', l) :: dict_append k v d'
  end.

(** The names of the layers by a key of their spec *)
Definition names_by {K} `{EqDecision K} (key : LayerSpec -> K) (specs : Specs) : list (K * list string) :=
  foldl (fun d ns => dict_append (key ns.2) ns.1 d) [] specs.

(** [l[i::n]] for [i < n] *)
Definition strided {A} (i n : nat) (l : list A) : list A :=
  concat (imap (fun j x => if decide (j mod n = i) then [x] else []) l).

(** [zip( *cols)]: rows as long as every column has an entry *)
Definition zip_columns {A} (cols : list (list A)) : list (list A) :=
  match cols with
  | [] => []
  | c :: cs =>
      let n := foldr Nat.min (length c) (length <$> cs) in
      (fun i => omap (fun col => col !! i) cols) <$> seq 0 n
  end.

(** [{name: specs[name] for name in names}], a lookup being a [KeyError] if absent *)
Definition select_specs (specs : Specs) (names : list string) : outcome Specs :=
  mapM (fun n => match odict_get n specs with Some s => Ok (n, s) | None => Raise KeyError end) names.

(** [create_kv_cache_group_specs] *)
Definition create_kv_cache_group_specs (specs : Specs) (grouped : list (list string))
    : outcome (list KVCacheGroup) :=
  mapM (fun names =>
    ls ← select_specs specs names;
    s ← merge ls.*2;
    Ok (new_group names (LayerKVCacheSpec s))) grouped.

(** [get_uniform_page_size] *)
Definition get_uniform_page_size (pages : list Z) : outcome Z :=
  match singleton_of pages with Some p => Ok p | None => Raise AssertionError end.

(** [_get_kv_cache_groups_uniform_spec] and [_get_kv_cache_groups_uniform_type] *)
Definition get_kv_cache_groups_uniform_spec (specs : Specs) : outcome (list KVCacheGroup) :=
  create_kv_cache_group_specs specs [specs.*1].
Definition get_kv_cache_groups_uniform_type (g : GroupSpec) : list KVCacheGroup :=
  match g with
  | UniformTypeKVCacheSpecs _ specs => [new_group specs.*1 g]
  | LayerKVCacheSpec _ => []
  end.

(** ** One page size *)

(** [unify_kv_cache_spec_page_size]: one layer *)
Definition unify_layer (max_page : Z) (s : LayerSpec) : outcome LayerSpec :=
  page ← page_size_bytes s;
  if (page =? max_page)%Z then Ok s
  else
    s' ← (match s with
          | MambaSpec _ _ => replace_page_size_padded (Some max_page) s
          | AttentionSpec bs _ c =>
              if (max_page mod page =? 0)%Z then replace_block_size (bs * (max_page / page)) s
              else if negb (is_mla_class c) then replace_page_size_padded (Some max_page) s
              else Raise NotImplementedError
          end);
    page' ← page_size_bytes s';
    oassert (page' =? max_page)%Z ;; Ok s'.

Definition unify_kv_cache_spec_page_size (specs : Specs) : outcome Specs :=
  pages ← mapM page_size_bytes specs.*2;
  if decide (length (remove_dups pages) <= 1) then Ok specs
  else
    max_page ← pymax pages;
    mapM (fun ns => s ← unify_layer max_page ns.2; Ok (ns.1, s)) specs.

(** ** Groups of equal size *)

(** Put the layers [names] of spec [s] into the first bucket they can be merged with. *)
Fixpoint add_bucket (s : LayerSpec) (names : list string) (bs : list (list string * list LayerSpec))
    : outcome (list (list string * list LayerSpec)) :=
  match bs with
  | [] => Ok [(names, [s])]
  | (ns, ss) :: bs' =>
      match merge (ss ++ [s]) with
      | Ok _ => Ok ((ns ++ names, ss ++ [s]) :: bs')
      | Raise (AssertionError | ValueError) => rest ← add_bucket s names bs'; Ok ((ns, ss) :: rest)
      | Raise e => Raise e
      end
  end.

Fixpoint merge_buckets (by_spec : list (LayerSpec * list string)) (bs : list (list string * list LayerSpec))
    : outcome (list (list string * list LayerSpec)) :=
  match by_spec with
  | [] => Ok bs
  | (s, names) :: rest => bs' ← add_bucket s names bs; merge_buckets rest bs'
  end.

(** The layers per group: the smallest bucket, or the largest when the two are close *)
Definition choose_group_size (sizes : list Z) : outcome Z :=
  mn ← pymin sizes;
  mx ← pymax sizes;
  Ok (if (2 * mx <? 3 * mn)%Z then mx else mn).

(** [layers[i::num_groups]] for [i] in [range(num_groups)] *)
Definition split_layers (num_groups : Z) (layers : list string) : list (list string) :=
  (fun i => strided i (Z.to_nat num_groups) layers) <$> seq 0 (Z.to_nat num_groups).

(** [_get_kv_cache_groups_uniform_page_size] *)
Definition get_kv_cache_groups_uniform_page_size (specs : Specs) : outcome (list KVCacheGroup) :=
  buckets ← merge_buckets (names_by id specs) [];
  group_size ← choose_group_size (zlen <$> buckets.*1);
  create_kv_cache_group_specs specs
    (concat ((fun layers => split_layers (cdiv (zlen layers) group_size) layers) <$> buckets.*1)).

(** ** Local attention allocated as full attention *)

Definition uniform_spec_or_type (specs : Specs) : outcome bool :=
  u ← is_kv_cache_spec_uniform specs;
  if negb u then is_uniform_type specs else Ok true.

(** [promoted_page_size_padded] *)
Definition promoted_page_size_padded (bs : Z) (a : AttentionFields) (block_size : Z) : option Z :=
  p ← page_size_padded a; Some (Z.max p (unpadded_page_size_bytes bs a * block_size / bs)).

(** [replace_as(spec, promotions[...], drop=("extra_retained_tokens",), ...)]: [None] when no
    class of the spec is promoted; [DFlashSWASpec.private_ring] is no field of the target. *)
Definition promote_layer (full_block_size : option Z) (s : LayerSpec) : outcome LayerSpec :=
  match s with
  | MambaSpec _ _ => Ok s
  | AttentionSpec bs a c =>
      let block_size := match full_block_size with Some b => if (b =? 0)%Z then bs else b | None => bs end in
      let a' := a <| page_size_padded := promoted_page_size_padded bs a block_size |> in
      match c with
      | SlidingWindowMLASpec w _ f =>
          post_init (AttentionSpec block_size a' (MLAAttentionSpec
            {| full_window := Some w; full_chunk := None; non_causal := false |}
            {| cache_dtype_str := swm_cache_dtype_str f; alignment := swm_alignment f;
               model_version := swm_model_version f; storage_block_size := None;
               non_causal_multi_token_decode := false |}))
      | SlidingWindowSpec w _ | KpoolTailSpec w _ =>
          Ok (AttentionSpec block_size a' (FullAttentionSpec
            {| full_window := Some w; full_chunk := None; non_causal := false |}))
      | DFlashSWASpec _ _ _ => Raise TypeError
      | ChunkedLocalAttentionSpec n =>
          Ok (AttentionSpec block_size a' (FullAttentionSpec
            {| full_window := None; full_chunk := Some n; non_causal := false |}))
      | _ => Ok s
      end
  end.

(** [_promote_local_kv_cache_specs] *)
Definition promote_local_kv_cache_specs (specs : Specs) : outcome Specs :=
  u ← uniform_spec_or_type specs;
  if negb u then
    let full_block_size := singleton_of (layer_block_size <$> filter (fun s => is_full_spec s = true) specs.*2) in
    promoted ←
      (if existsb is_full_spec specs.*2 && (existsb is_window_spec specs.*2 || existsb is_chunked_spec specs.*2)
       then mapM (fun ns => s ← promote_layer full_block_size ns.2; Ok (ns.1, s)) specs
       else Ok specs);
    u' ← uniform_spec_or_type promoted;
    if negb u' then Raise ValueError else Ok promoted
  else Ok specs.

(** [unify_hybrid_kv_cache_specs]: the dict it leaves *)
Definition unify_hybrid_kv_cache_specs (specs : Specs) : outcome Specs :=
  u ← uniform_spec_or_type specs;
  if negb u then promote_local_kv_cache_specs specs else Ok specs.

(** [_try_get_full_allocation_fallback_groups] *)
Definition try_get_full_allocation_fallback_groups (specs : Specs) : outcome (option (list KVCacheGroup)) :=
  if existsb is_hidden_spec specs.*2 then Ok None
  else if existsb (fun s => is_window_mla_spec s || is_chunked_spec s) specs.*2 then Ok None
  else if negb (existsb is_mla_spec specs.*2 && existsb is_window_spec specs.*2) then Ok None
  else
    match promote_local_kv_cache_specs specs with
    | Raise ValueError => Ok None
    | Raise e => Raise e
    | Ok promoted =>
        u ← from_specs promoted;
        Ok (match u with Some g => Some (get_kv_cache_groups_uniform_type g) | None => None end)
    end.

(** ** Packing pages of several sizes into a block *)

(** [KVCacheLayout.is_block_outermost], [is_block_compact] and [is_layer_compact] *)
Definition is_block_outermost (l : KVCacheLayout) : bool :=
  match l with BLHNC | BLNHC | BHLNC => true | _ => false end.
Definition is_block_compact (l : KVCacheLayout) : bool :=
  match l with LBHNC | LBNHC | BLHNC | BLNHC => true | _ => false end.
Definition is_layer_compact (l : KVCacheLayout) : bool :=
  match l with LBHNC | LBNHC | LHBNC => true | _ => false end.

(** [cache_config.get_resolved_kv_cache_layout()] *)
Definition get_resolved_kv_cache_layout (cfg : PlanConfig) : outcome KVCacheLayout :=
  match kv_cache_layout cfg with Some l => Ok l | None => Raise ValueError end.

(** The candidates of [_approximate_gcd] from [d] on; [best] is the best so far. *)
Definition total_padding (values : list Z) (d : Z) : Z :=
  sum_list ((fun x => ((d - x mod d) mod d)%Z) <$> values).
Definition gcd_step (values : list Z) (best : Z * option Z) (d : Z) : Z * option Z :=
  let pad := total_padding values d in
  match best.2 with
  | None => (d, Some pad)
  | Some bp => if (pad <? bp)%Z || ((pad =? bp)%Z && (best.1 <? d)%Z) then (d, Some pad) else best
  end.

(** [_approximate_gcd(values, lower_bound=...)] *)
Definition approximate_gcd (values : list Z) (lower_bound : option Z) : outcome Z :=
  match values with
  | [] => Raise ValueError
  | _ =>
      if existsb (fun x => (x <=? 0)%Z) values then Raise ValueError
      else
        let min_d := Z.max 1 (default 1%Z lower_bound) in
        max_d ← pymax values;
        if (max_d <? min_d)%Z then Ok min_d
        else Ok (foldl (gcd_step values) (min_d, None) (zrange min_d (max_d + 1))).1
  end.

(** Put a layer into the first bucket it is of one type with. *)
Fixpoint add_uniform (ns : string * LayerSpec) (bs : list Specs) : outcome (list Specs) :=
  match bs with
  | [] => Ok [[ns]]
  | b :: bs' =>
      u ← is_uniform_type (b ++ [ns]);
      if negb u then rest ← add_uniform ns bs'; Ok (b :: rest) else Ok ((b ++ [ns]) :: bs')
  end.
Fixpoint uniform_buckets (specs : Specs) (bs : list Specs) : outcome (list Specs) :=
  match specs with
  | [] => Ok bs
  | ns :: rest => bs' ← add_uniform ns bs; uniform_buckets rest bs'
  end.

(** The names of a bucket's layers by page size *)
Definition page_size_layers (b : Specs) : outcome (list (Z * list string)) :=
  pages ← mapM page_size_bytes b.*2;
  Ok (foldl (fun d pn => dict_append pn.1 pn.2 d) [] (zip pages b.*1)).

(** A bucket with its names by page size and whether each size has equally many *)
Record Bucket := { bucket_specs : Specs; bucket_pages : list (Z * list string); balanced : bool }.

Definition make_bucket (b : Specs) : outcome Bucket :=
  u ← from_specs b;
  oassert (bool_decide (is_Some u)) ;;
  psl ← page_size_layers b;
  Ok {| bucket_specs := b; bucket_pages := psl;
        balanced := bool_decide (is_Some (singleton_of (length <$> psl.*2))) |}.

(** [max(..., default=0)] *)
Definition pymax0 (l : list Z) : Z := match pymax l with Ok m => m | Raise _ => 0%Z end.

(** [repeats_per_group] *)
Definition repeats_per_group (bs : list Bucket) : outcome (option Z) :=
  mixed ← mapM (fun b => get_max_layers_per_page_size (bucket_specs b))
            (filter (fun b => balanced b = true /\ 1 < length (bucket_pages b)) bs);
  let min_repeats := pymax0 mixed in
  if (min_repeats =? 0)%Z then Ok None
  else
    values ← mapM (fun b => get_max_layers_per_page_size (bucket_specs b))
               (filter (fun b => balanced b = true) bs);
    d ← approximate_gcd values (Some min_repeats);
    Ok (Some d).

(** [num_groups_for] *)
Definition num_groups_for (repeats : option Z) (b : Bucket) : outcome Z :=
  match repeats with
  | Some r => if balanced b then n ← get_max_layers_per_page_size (bucket_specs b); Ok (cdiv n r) else Ok 1%Z
  | None => Ok 1%Z
  end.

(** [widest_group_bytes] *)
Definition widest_group_bytes (psl : list (Z * list string)) (n : Z) : Z :=
  sum_list ((fun pn => cdiv (zlen pn.2) n * pn.1)%Z <$> psl).

(** [isinstance(spec.first_spec, MambaSpec)] *)
Definition is_mamba_bucket (b : Bucket) : bool :=
  match bucket_specs b with (_, s) :: _ => is_mamba_spec s | [] => false end.

(** [anchor_bytes] *)
Definition anchor_bytes (repeats : option Z) (bs : list Bucket) : outcome Z :=
  l ← mapM (fun b => n ← (if is_mamba_bucket b then Ok (zlen (bucket_specs b)) else num_groups_for repeats b);
                     Ok (widest_group_bytes (bucket_pages b) n)) bs;
  Ok (pymax0 l).

(** The number of groups a bucket is split into *)
Definition bucket_num_groups (repeats : option Z) (anchor : Z) (b : Bucket) : outcome Z :=
  n ← num_groups_for repeats b;
  if negb (anchor =? 0)%Z && is_mamba_bucket b then
    first ← pyfirst (bucket_specs b).*2;
    page ← page_size_bytes first;
    let states_per_block := Z.max (anchor / page) 1 in
    Ok (Z.max n (cdiv (zlen (bucket_specs b)) states_per_block))
  else Ok n.

(** The groups of a bucket *)
Definition split_bucket (repeats : option Z) (anchor : Z) (b : Bucket) : outcome (list KVCacheGroup) :=
  n ← bucket_num_groups repeats anchor b;
  if (n =? 1)%Z then
    u ← from_specs (bucket_specs b);
    Ok (match u with Some g => [new_group (bucket_specs b).*1 g] | None => [] end)
  else
    let rows := zip_columns (bucket_pages b).*2 in
    mapM (fun i =>
      let names := concat (strided i (Z.to_nat n) rows) in
      ls ← select_specs (bucket_specs b) names;
      u ← from_specs ls;
      match u with Some g => Ok (new_group names g) | None => Raise AssertionError end)
      (seq 0 (Z.to_nat n)).

(** [_annotate_eagle_groups] *)
Definition is_draft_spec (s : LayerSpec) : bool :=
  match mla_fields s with Some m => non_causal_multi_token_decode m | None => false end.
Fixpoint flag_first_with (name : string) (gs : list KVCacheGroup) : list KVCacheGroup :=
  match gs with
  | [] => []
  | g :: gs' => if bool_decide (name ∈ layer_names g) then (g <| is_eagle := true |>) :: gs'
                else g :: flag_first_with name gs'
  end.
Definition annotate_eagle_groups (cfg : PlanConfig) (specs : Specs) (gs : list KVCacheGroup)
    (deepseek_v4_fallback : bool) : outcome (list KVCacheGroup) :=
  match speculative_config cfg with
  | None => Ok gs
  | Some sc =>
      if negb (use_eagle sc) then Ok gs
      else
        let flagged := (fun g => if existsb is_draft_spec (iter_layer_specs (kv_cache_spec g))
                                 then g <| is_eagle := true |> else g) <$> gs in
        if negb deepseek_v4_fallback then Ok flagged
        else last_layer ← pyfirst (reverse specs.*1); Ok (flag_first_with last_layer flagged)
  end.

(** [_is_deepseek_v4_eagle] *)
Definition is_deepseek_v4_eagle (cfg : PlanConfig) : bool :=
  match speculative_config cfg with
  | None => false
  | Some sc => use_eagle sc && bool_decide (hf_model_type cfg = "deepseek_v4"%string)
  end.

(** [_get_packed_kv_cache_groups] *)
Definition get_packed_kv_cache_groups (cfg : PlanConfig) (specs : Specs) : outcome (option (list KVCacheGroup)) :=
  layout ← get_resolved_kv_cache_layout cfg;
  pages ← mapM page_size_bytes specs.*2;
  if negb (is_block_outermost layout) || bool_decide (length (remove_dups pages) <= 1) then Ok None
  else
    buckets ← uniform_buckets specs [];
    bs ← mapM make_bucket buckets;
    repeats ← repeats_per_group bs;
    anchor ← anchor_bytes repeats bs;
    gss ← mapM (split_bucket repeats anchor) bs;
    gs ← annotate_eagle_groups cfg specs (concat gss) (is_deepseek_v4_eagle cfg);
    Ok (Some gs).

(** ** GLM-5.3-Flash: Mamba layers on MLA pages, tails on indexer pages *)

(** [str.split(".")] *)
Fixpoint split_dots_acc (s acc : string) : list string :=
  match s with
  | EmptyString => [acc]
  | String c s' => if bool_decide (c = "."%char) then acc :: split_dots_acc s' "" else split_dots_acc s' (acc +:+ String c "")
  end.
Definition split_dots (s : string) : list string := split_dots_acc s "".

(** [int(s)]: digits, single underscores between them, an optional sign, outer blanks *)
Definition digit_value (c : Ascii.ascii) : option Z :=
  let n := Z.of_N (Ascii.N_of_ascii c) in if (48 <=? n)%Z && (n <=? 57)%Z then Some (n - 48)%Z else None.
Fixpoint int_digits (l : list Ascii.ascii) (after_digit : bool) (acc : Z) : option Z :=
  match l with
  | [] => if after_digit then Some acc else None
  | c :: l' =>
      match digit_value c with
      | Some d => int_digits l' true (10 * acc + d)
      | None => if bool_decide (c = "_"%char) && after_digit
                then match l' with
                     | c' :: _ => if bool_decide (is_Some (digit_value c')) then int_digits l' false acc else None
                     | [] => None
                     end
                else None
      end
  end.
Definition is_blank (c : Ascii.ascii) : bool :=
  let n := Z.of_N (Ascii.N_of_ascii c) in (n =? 32)%Z || ((9 <=? n)%Z && (n <=? 13)%Z).
Fixpoint lstrip (l : list Ascii.ascii) : list Ascii.ascii :=
  match l with c :: l' => if is_blank c then lstrip l' else l | [] => [] end.
Definition py_int (s : string) : option Z :=
  match reverse (lstrip (reverse (lstrip (String.list_ascii_of_string s)))) with
  | c :: l => if bool_decide (c = "-"%char) then Z.opp <$> int_digits l false 0
              else if bool_decide (c = "+"%char) then int_digits l false 0
              else int_digits (c :: l) false 0
  | [] => None
  end.

(** [extract_layer_index(layer_name)] of model_executor/models/utils.py *)
Definition extract_layer_index (name : string) : outcome Z :=
  match omap py_int (split_dots name) with [i] => Ok i | _ => Raise AssertionError end.

(** [partitions[-i] += 1] *)
Definition bump_from_end (i : nat) (l : list Z) : list Z := alter Z.succ (length l - i) l.

(** [get_pp_indices] of distributed/utils.py *)
Definition get_pp_indices (partition : option (list Z)) (layers rank size : Z) : outcome (Z * Z) :=
  parts ←
    (match partition with
     | Some ps => if negb (zlen ps =? size)%Z then Raise ValueError
                  else if negb (sum_list ps =? layers)%Z then Raise ValueError
                  else Ok ps
     | None =>
         let even := replicate (Z.to_nat size) (layers / size)%Z in
         let remaining := Z.to_nat (layers mod size) in
         Ok (foldl (fun ps i => bump_from_end i ps) even (seq 2 remaining))
     end);
  let start := sum_list (take (Z.to_nat rank) parts) in
  match parts !! Z.to_nat rank with
  | Some n => Ok (start, start + n)%Z
  | None => Raise IndexError
  end.

Definition count_between (a b : Z) (l : list Z) : Z :=
  zlen (filter (fun i => (a <= i < b)%Z) l).

(** [_pp_balanced_mamba_group_count] *)
Definition pp_balanced_mamba_group_count (cfg : PlanConfig) (mamba_names mla_names : list string) : outcome (option Z) :=
  let num_groups := cdiv (zlen mamba_names) (zlen mla_names) in
  let size := pipeline_parallel_size cfg in
  if (size =? 1)%Z then Ok (Some num_groups)
  else
    mamba ← mapM extract_layer_index mamba_names;
    mla ← mapM extract_layer_index mla_names;
    (fix go (ranks : list Z) (n : Z) : outcome (option Z) :=
       match ranks with
       | [] => Ok (Some n)
       | r :: rs =>
           '(a, b) ← get_pp_indices (pp_layer_partition cfg) (total_num_hidden_layers cfg) r size;
           let num_mamba := count_between a b mamba in
           let num_mla := count_between a b mla in
           if (num_mamba =? 0)%Z then go rs n
           else if (num_mla =? 0)%Z then Ok None
           else go rs (Z.max n (cdiv num_mamba num_mla))
       end) (zrange 0 size) num_groups.

(** [mamba_grouped_names[index % num_groups].append(name)] *)
Definition round_robin (n : nat) (names : list string) : list (list string) :=
  foldl (fun gs ix => alter (fun l => l ++ [ix.2]) (ix.1 mod n) gs) (replicate n []) (imap pair names).

(** [type(spec) in (FullAttentionSpec, SlidingWindowSpec, DFlashSWASpec)] *)
Definition is_draft_class : LayerSpec -> bool :=
  on_class (fun c => match c with FullAttentionSpec _ | SlidingWindowSpec _ _ | DFlashSWASpec _ _ _ => true | _ => false end).
Definition is_dflash_spec : LayerSpec -> bool :=
  on_class (fun c => match c with DFlashSWASpec _ _ _ => true | _ => false end).
Definition set_private_ring (s : LayerSpec) : LayerSpec :=
  match s with AttentionSpec bs a (DFlashSWASpec w x _) => AttentionSpec bs a (DFlashSWASpec w x true) | _ => s end.

(** The layers of a dict whose spec passes a test *)
Definition where_spec (P : LayerSpec -> bool) (specs : Specs) : Specs := filter (fun ns => P ns.2 = true) specs.

Definition compressed_spec (s : LayerSpec) : bool :=
  match attention_fields s with Some (_, a) => ((tokens_per_state a).2 <? (tokens_per_state a).1)%Z | None => false end.
Definition per_token_spec (s : LayerSpec) : bool :=
  match attention_fields s with Some (_, a) => bool_decide (tokens_per_state a = (1, 1)%Z) | None => false end.
Definition spec_padded (s : LayerSpec) : option Z :=
  match s with AttentionSpec _ a _ => page_size_padded a | MambaSpec _ m => mamba_page_size_padded m end.

(** The draft's layers, in groups of their own *)
Definition draft_groups_of (cfg : PlanConfig) (draft : Specs) : list KVCacheGroup :=
  let ring := dflash_kv_ring cfg && negb (has_kv_transfer_config cfg) && forallb is_dflash_spec draft.*2 in
  let draft' := if ring then (fun ns => (ns.1, set_private_ring ns.2)) <$> draft else draft in
  (fun sn => (new_group sn.2 (LayerKVCacheSpec sn.1)) <| is_eagle := true |> <| enable_kv_transfer := false |>)
    <$> names_by id draft'.

(** The tail layers, padded to the indexer's page *)
Definition tail_groups_of (idx_page : Z) (tail : Specs) : outcome (list KVCacheGroup) :=
  match tail with
  | [] => Ok []
  | _ =>
      padded ← mapM (fun ns => s ← replace_page_size_padded (Some idx_page) ns.2; Ok (ns.1, s)) tail;
      u ← from_specs padded;
      match u with Some g => Ok [new_group padded.*1 g] | None => Raise AssertionError end
  end.

(** The Mamba layers, padded to the MLA page and dealt out to the groups *)
Definition mamba_groups_of (cfg : PlanConfig) (mla_page : Z) (mamba : Specs) (mla_names : list string)
    : outcome (list KVCacheGroup) :=
  any_mamba ← pyfirst mamba.*2;
  oassert (forallb (fun s => bool_decide (s = any_mamba)) mamba.*2) ;;
  match any_mamba with
  | AttentionSpec _ _ _ => Raise TypeError
  | MambaSpec _ m =>
      if (mla_page <? mamba_state_bytes m)%Z then Raise ValueError
      else
        s ← replace_page_size_padded (Some mla_page) any_mamba;
        n ← pp_balanced_mamba_group_count cfg mamba.*1 mla_names;
        match n with
        | None => Raise ValueError
        | Some n => create_kv_cache_group_specs ((fun ns => (ns.1, s)) <$> mamba) (round_robin (Z.to_nat n) mamba.*1)
        end
  end.

(** [_get_kv_cache_groups_glm5_next] *)
Definition get_kv_cache_groups_glm5_next (cfg : PlanConfig) (specs : Specs) : outcome (option (list KVCacheGroup)) :=
  let mamba := where_spec is_mamba_spec specs in
  let tail := where_spec is_tail_spec specs in
  let attn_all := where_spec (fun s => negb (is_mamba_spec s || is_tail_spec s)) specs in
  let draft := where_spec is_draft_class attn_all in
  let attn := where_spec (fun s => negb (is_draft_class s)) attn_all in
  let dflash := match speculative_config cfg with
                | Some sc => bool_decide (spec_method sc = "dflash"%string) | None => false end in
  if negb (bool_decide (draft = [])) && negb dflash then Ok None
  else if bool_decide (mamba = []) || negb (forallb is_exact_mla attn.*2) then Ok None
  else
    idx_pages ← mapM page_size_bytes (filter (fun s => compressed_spec s = true) attn.*2);
    match idx_pages with
    | [] => Ok None
    | _ =>
        oassert (forallb (fun s => bool_decide (spec_padded s = None)) attn.*2) ;;
        idx_page ← get_uniform_page_size idx_pages;
        let mla := where_spec per_token_spec attn in
        mla_pages ← mapM page_size_bytes mla.*2;
        mla_page ← get_uniform_page_size mla_pages;
        u ← from_specs attn;
        match u with
        | None => Raise AssertionError
        | Some g =>
            tg ← tail_groups_of idx_page tail;
            mg ← mamba_groups_of cfg mla_page mamba mla.*1;
            Ok (Some ([new_group attn.*1 g] ++ tg ++ mg ++ draft_groups_of cfg draft))
        end
    end.

(** ** [get_kv_cache_groups] *)

(** [_largest_divisor_at_most] *)
Definition largest_divisor_at_most (value limit : Z) : Z :=
  match filter (fun c => (value mod c =? 0)%Z = true) (reverse (zrange 1 (Z.min value limit + 1))) with
  | c :: _ => c
  | [] => 1%Z
  end.

(** A hidden-state layer aligned to the common page *)
Definition align_hidden (common_page group_block_size : Z) (s : LayerSpec) : outcome LayerSpec :=
  match s with
  | AttentionSpec bs a c =>
      let per_token := (num_kv_heads a * head_size a * dtype_size (attn_dtype a))%Z in
      let max_block_size := Z.max (common_page / per_token) 1 in
      let new_bs := largest_divisor_at_most group_block_size max_block_size in
      post_init (AttentionSpec new_bs (a <| page_size_padded := Some common_page |>) c)
  | MambaSpec _ _ => Raise TypeError
  end.

Definition add_hidden_groups (hidden : Specs) (gs : list KVCacheGroup) : outcome (list KVCacheGroup) :=
  match hidden with
  | [] => Ok gs
  | _ =>
      pages ← mapM (fun g => group_page_size_bytes (kv_cache_spec g)) gs;
      common_page ← get_uniform_page_size pages;
      let bs := foldr Z.gcd 0%Z ((fun g => group_block_size (kv_cache_spec g)) <$> gs) in
      hs ← mapM (fun ns => s ← align_hidden common_page bs ns.2;
                           Ok (new_group [ns.1] (LayerKVCacheSpec s))) hidden;
      Ok (gs ++ hs)
  end.

Definition get_hybrid_groups (cfg : PlanConfig) (specs : Specs) : outcome (list KVCacheGroup) :=
  let hidden := where_spec is_hidden_spec specs in
  let filtered := where_spec (fun s => negb (is_hidden_spec s)) specs in
  packed ← get_packed_kv_cache_groups cfg filtered;
  match packed with
  | Some (g :: gs) => Ok (g :: gs ++ ((fun ns => new_group [ns.1] (LayerKVCacheSpec ns.2)) <$> hidden))
  | _ =>
      match unify_kv_cache_spec_page_size filtered with
      | Raise NotImplementedError =>
          fb ← try_get_full_allocation_fallback_groups specs;
          match fb with Some gs => Ok gs | None => Raise NotImplementedError end
      | Raise e => Raise e
      | Ok unified =>
          gs ← get_kv_cache_groups_uniform_page_size unified;
          gs' ← add_hidden_groups hidden gs;
          annotate_eagle_groups cfg specs gs' false
      end
  end.

Definition get_kv_cache_groups (cfg : PlanConfig) (specs0 : Specs) : outcome (list KVCacheGroup) :=
  specs ← (if disable_hybrid_kv_cache_manager cfg then unify_hybrid_kv_cache_specs specs0 else Ok specs0);
  match specs with
  | [] => Ok []
  | _ =>
      u ← is_kv_cache_spec_uniform specs;
      if negb u then
        g ← from_specs specs;
        match g with
        | Some g => Ok (get_kv_cache_groups_uniform_type g)
        | None =>
            glm ← get_kv_cache_groups_glm5_next cfg specs;
            match glm with
            | Some (g :: gs) => Ok (g :: gs)
            | _ => get_hybrid_groups cfg specs
            end
        end
      else get_kv_cache_groups_uniform_spec specs
  end.
