(* ===== verification/KVPlan.v ===== *)
(** Planning the KV cache (vllm/v1/core/kv_cache_utils.py): where every layer's pages lie in
    the allocation, how many blocks fit, whether a request of the maximum length fits, and
    [get_kv_cache_configs] for all workers. *)
From S2P Require Import Prelude KVBlock FreeQueue Request BlockHash BlockPool BlockPoolInv BlockPoolSpec BlockPoolCache CacheHit KVSpec KVGroups.

(** ** Strides of a layout *)

(** [KVCacheLayout.stride_order]: the logical axes L, B, H, N, C in physical order *)
Definition stride_order (l : KVCacheLayout) : list nat :=
  match l with
  | LBHNC => [0; 1; 2; 3; 4]
  | LBNHC => [0; 1; 3; 2; 4]
  | LHBNC => [0; 2; 1; 3; 4]
  | BLHNC => [1; 0; 2; 3; 4]
  | BLNHC => [1; 0; 3; 2; 4]
  | BHLNC => [1; 2; 0; 3; 4]
  end.

(** [num_heads], [num_states] and [state_content_size_bytes] of any layer *)
Definition layer_num_heads (s : LayerSpec) : Z :=
  match s with AttentionSpec _ a _ => num_heads a | MambaSpec _ m => mamba_num_heads m end.
Definition layer_num_states (s : LayerSpec) : Z :=
  match s with
  | AttentionSpec bs a _ => num_states bs (tokens_per_state a)
  | MambaSpec bs m => num_states bs (mamba_tokens_per_state m, 1%Z)
  end.
Definition layer_content_bytes (s : LayerSpec) : Z :=
  match s with AttentionSpec _ a _ => state_content_size_bytes a | MambaSpec _ m => mamba_state_bytes m end.

(** The logical shape [L, B, H, N, C], of which [compute_layer_kv_cache_shape_bytes] gives
    the last four *)
Definition layout_shape (s : LayerSpec) (num_blocks num_layers : Z) : list Z :=
  [num_layers; num_blocks; layer_num_heads s; layer_num_states s; layer_content_bytes s].

Definition axis (shape : list Z) (d : nat) : Z := default 0%Z (shape !! d).

(** The loop over the physical axes, innermost first *)
Fixpoint strides_loop (padded : option Z) (grid_end : nat) (fixed : list (option Z)) (shape : list Z)
    (axes : list (nat * nat)) (current : Z) (strides : list Z) : outcome (list Z) :=
  match axes with
  | [] => Ok strides
  | (physical_idx, dim) :: rest =>
      current' ←
        (match padded with
         | Some p =>
             if decide (physical_idx = grid_end - 1) then
               let c := Z.max current p in
               oassert (c mod p =? 0)%Z ;; Ok c
             else Ok current
         | None => Ok current
         end);
      let st := match fixed !! dim with Some (Some f) => if (f =? 0)%Z then current' else f | _ => current' end in
      strides_loop padded grid_end fixed shape rest (st * axis shape dim) (<[dim := st]> strides)
  end.

(** [order.index(dim)] *)
Definition index_of (d : nat) (order : list nat) : nat := default 0 (fst <$> list_find (fun x => x = d) order).

(** [compute_layout_strides], without a kernel block size *)
Definition compute_layout_strides (s : LayerSpec) (num_blocks num_layers : Z) (layout : KVCacheLayout)
    (fixed : list (option Z)) : outcome (list Z) :=
  oassert (forallb (fun f => match f with Some z => (0 <? z)%Z | None => true end) fixed) ;;
  let shape := layout_shape s num_blocks num_layers in
  let order := stride_order layout in
  let grid_end := Nat.max (index_of 0 order) (index_of 1 order) + 1 in
  (match spec_padded s with
   | Some _ => oassert (prod_list (axis shape <$> take grid_end order) =? num_layers * num_blocks)%Z
   | None => Ok tt
   end) ;;
  strides_loop (spec_padded s) grid_end fixed shape (reverse (imap pair order)) 1 [0; 0; 0; 0; 0]%Z.

(** ** The GLM-5.3-Flash layout *)

Record Glm5Layout := {
  attn_specs : Specs;
  mamba_groups : list KVCacheGroup;
  mla_names : list string;
  idx_names : list string;
  mla_page : Z;
  idx_page : Z;
  tail_names : list string;
  tail_page : Z;
  draft_groups : list KVCacheGroup;
}.

Definition is_uniform_group (g : KVCacheGroup) : bool :=
  match kv_cache_spec g with UniformTypeKVCacheSpecs _ _ => true | _ => false end.
Definition on_layer_group (P : LayerSpec -> bool) (g : KVCacheGroup) : bool :=
  match kv_cache_spec g with LayerKVCacheSpec s => P s | _ => false end.
Definition inner_specs (g : KVCacheGroup) : Specs :=
  match kv_cache_spec g with UniformTypeKVCacheSpecs _ specs => specs | _ => [] end.

(** The last uniform group of MLA layers and the last one of tail layers *)
Definition attn_group_of (gs : list KVCacheGroup) : option KVCacheGroup :=
  last (filter (fun g => forallb is_exact_mla (inner_specs g).*2 = true) gs).
Definition tail_group_of (gs : list KVCacheGroup) : option KVCacheGroup :=
  last (filter (fun g => forallb is_exact_mla (inner_specs g).*2 = false /\
                         forallb is_tail_spec (inner_specs g).*2 = true) gs).

Definition unpadded_of (s : LayerSpec) : Z :=
  match s with AttentionSpec bs a _ => unpadded_page_size_bytes bs a | MambaSpec _ m => mamba_state_bytes m end.

(** [_glm5_next_tensor_layout] *)
Definition glm5_next_tensor_layout (gs : list KVCacheGroup) : outcome (option Glm5Layout) :=
  let uniform := filter (fun g => is_uniform_group g = true) gs in
  let mamba := filter (fun g => on_layer_group is_mamba_spec g = true) gs in
  let draft := filter (fun g => on_layer_group is_draft_class g = true) gs in
  match attn_group_of uniform, mamba with
  | None, _ | _, [] => Ok None
  | Some ag, _ =>
      if negb (bool_decide (length uniform + length mamba + length draft = length gs)) then Ok None
      else if negb (forallb (fun s => bool_decide (spec_padded s = None)) (inner_specs ag).*2) then Ok None
      else
        ls ← select_specs (inner_specs ag) (layer_names ag);
        let mla := where_spec per_token_spec ls in
        let idx := where_spec compressed_spec ls in
        mla_pages ← mapM page_size_bytes mla.*2;
        idx_pages ← mapM page_size_bytes idx.*2;
        match singleton_of mla_pages, singleton_of idx_pages with
        | Some mp, Some ip =>
            mamba_pages ← mapM (fun g => group_page_size_bytes (kv_cache_spec g)) mamba;
            if negb (forallb (fun p => (p =? mp)%Z) mamba_pages) then Ok None
            else
              let layout tn tp := {| attn_specs := inner_specs ag; mamba_groups := mamba; mla_names := mla.*1;
                                     idx_names := idx.*1; mla_page := mp; idx_page := ip; tail_names := tn;
                                     tail_page := tp; draft_groups := draft |} in
              match tail_group_of uniform with
              | None => Ok (Some (layout [] 0%Z))
              | Some tg =>
                  match singleton_of (unpadded_of <$> (inner_specs tg).*2) with
                  | None => Ok None
                  | Some tp =>
                      if negb (bool_decide (length (layer_names tg) = length (idx.*1))) then Ok None
                      else if (ip <? tp)%Z then Ok None
                      else Ok (Some (layout (layer_names tg) tp))
                  end
              end
        | _, _ => Ok None
        end
  end.

(** [_dflash_ring_pages] *)
Definition is_private_ring : LayerSpec -> bool :=
  on_class (fun c => match c with DFlashSWASpec _ _ r => r | _ => false end).
Definition group_admission (cfg : PlanConfig) (g : KVCacheGroup) : Z :=
  match kv_cache_spec g with LayerKVCacheSpec (AttentionSpec bs _ c) => max_admission_blocks cfg bs c | _ => 0%Z end.
Definition dflash_ring_pages (cfg : PlanConfig) (draft : list KVCacheGroup) : outcome (option Z) :=
  match draft with
  | [] => Ok None
  | _ =>
      if has_kv_transfer_config cfg then Ok None
      else if negb (forallb (on_layer_group is_private_ring) draft) then Ok None
      else m ← pymax (group_admission cfg <$> draft); Ok (Some (1 + max_num_seqs cfg * (m + 1))%Z)
  end.

(** [sum(group.kv_cache_spec.page_size_bytes * len(group.layer_names) for group in ...)] *)
Definition groups_bytes (gs : list KVCacheGroup) : outcome Z :=
  l ← mapM (fun g => p ← group_page_size_bytes (kv_cache_spec g); Ok (p * zlen (layer_names g))%Z) gs;
  Ok (sum_list l).

(** [_dflash_ring_bytes] *)
Definition dflash_ring_bytes (cfg : PlanConfig) (gs : list KVCacheGroup) : outcome Z :=
  o ← glm5_next_tensor_layout gs;
  match o with
  | None => Ok 0%Z
  | Some l =>
      ring ← dflash_ring_pages cfg (draft_groups l);
      match ring with
      | None => Ok 0%Z
      | Some pages => b ← groups_bytes (draft_groups l); Ok (pages * b)%Z
      end
  end.

Definition glm5_base_bytes (l : Glm5Layout) : Z :=
  (zlen (mla_names l) * mla_page l + zlen (idx_names l) * idx_page l)%Z.

(** [_get_per_layer_spec] *)
Definition get_per_layer_spec (g : KVCacheGroup) (name : string) : outcome LayerSpec :=
  match kv_cache_spec g with
  | UniformTypeKVCacheSpecs _ specs => match odict_get name specs with Some s => Ok s | None => Raise KeyError end
  | LayerKVCacheSpec s => Ok s
  end.
Definition group_layer_pages (g : KVCacheGroup) : outcome (list Z) :=
  mapM (fun n => s ← get_per_layer_spec g n; page_size_bytes s) (layer_names g).

(** [_get_kv_cache_bytes_per_block] and [_pool_bytes_per_block] *)
Definition pool_bytes_per_block (cfg : PlanConfig) (gs : list KVCacheGroup) : outcome Z :=
  o ← glm5_next_tensor_layout gs;
  match o with
  | Some l =>
      ring ← dflash_ring_pages cfg (draft_groups l);
      match ring with
      | Some _ => Ok (glm5_base_bytes l)
      | None => b ← groups_bytes (draft_groups l); Ok (glm5_base_bytes l + b)%Z
      end
  | None =>
      sums ← mapM (fun g => l ← group_layer_pages g; Ok (sum_list l)) gs;
      m ← pymax sums;
      oassert (0 <? m)%Z ;; Ok m
  end.

(** [validate_kv_cache_layout] *)
Definition validate_kv_cache_layout (layout : KVCacheLayout) (gs : list KVCacheGroup) : outcome unit :=
  pages ← mapM group_layer_pages gs;
  if bool_decide (length (remove_dups (concat pages)) = 1) then Ok tt
  else if negb (is_block_compact layout) || (bool_decide (1 < length gs) && is_layer_compact layout)
  then Raise ValueError
  else Ok tt.

(** [may_override_num_blocks] *)
Definition may_override_num_blocks (cfg : PlanConfig) (n : Z) : Z := default n (num_gpu_blocks_override cfg).

(** ** Placing the layers *)

(** [add_tensor] *)
Definition single_tensor (size : Z) (name : string) (page offset storage_blocks : Z) : KVCacheTensor :=
  {| tensor_size := size; tensor_layers := [name]; layer_stride := page * storage_blocks; block_stride := page;
     tensor_offset := offset; tensor_num_blocks := Some storage_blocks |}.

Definition spec_of (specs : Specs) (name : string) : outcome LayerSpec :=
  match odict_get name specs with Some s => Ok s | None => Raise KeyError end.

(** The MLA layer at [index] and the Mamba layers that share its region *)
Definition mla_region (l : Glm5Layout) (size num_blocks : Z) (index : nat) (name : string) : outcome (list KVCacheTensor) :=
  let offset := (Z.of_nat index * mla_page l * num_blocks)%Z in
  s ← spec_of (attn_specs l) name;
  p ← page_size_bytes s;
  ms ← mapM (fun g => match layer_names g !! index with
                      | Some n => p' ← group_page_size_bytes (kv_cache_spec g);
                                  Ok [single_tensor size n p' offset num_blocks]
                      | None => Ok []
                      end) (mamba_groups l);
  Ok (single_tensor size name p offset num_blocks :: concat ms).

(** The indexer layer at [index] and the tail that shares its region *)
Definition idx_region (gs : list KVCacheGroup) (l : Glm5Layout) (size num_blocks : Z) (index : nat) (name : string)
    : outcome (list KVCacheTensor) :=
  let offset := (zlen (mla_names l) * mla_page l * num_blocks + Z.of_nat index * idx_page l * num_blocks)%Z in
  s ← spec_of (attn_specs l) name;
  p ← page_size_bytes s;
  match tail_names l with
  | [] => Ok [single_tensor size name p offset num_blocks]
  | _ =>
      match tail_names l !! index with
      | None => Raise IndexError
      | Some tn =>
          tg ← pyfirst (filter (fun g => tn ∈ layer_names g) gs);
          ts ← spec_of (inner_specs tg) tn;
          p' ← page_size_bytes ts;
          Ok [single_tensor size name p offset num_blocks; single_tensor size tn p' offset num_blocks]
      end
  end.

(** The draft layers one after the other from [offset] on; also where they end *)
Fixpoint draft_regions (size blocks : Z) (layers : list (string * Z)) (offset : Z) : list KVCacheTensor * Z :=
  match layers with
  | [] => ([], offset)
  | (n, p) :: rest =>
      let '(ts, e) := draft_regions size blocks rest (offset + p * blocks)%Z in
      (single_tensor size n p offset blocks :: ts, e)
  end.
Definition draft_layers (gs : list KVCacheGroup) : outcome (list (string * Z)) :=
  l ← mapM (fun g => p ← group_page_size_bytes (kv_cache_spec g); Ok ((fun n => (n, p)) <$> layer_names g)) gs;
  Ok (concat l).

(** [get_kv_cache_config_from_groups], GLM-5.3-Flash *)
Definition glm5_config (cfg : PlanConfig) (gs : list KVCacheGroup) (l : Glm5Layout) (available : Z)
    : outcome PlannedConfig :=
  draft_bytes ← groups_bytes (draft_groups l);
  ring ← dflash_ring_pages cfg (draft_groups l);
  let fixed := match ring with Some pages => (pages * draft_bytes)%Z | None => 0%Z end in
  let bytes_per_block := match ring with Some _ => glm5_base_bytes l | None => (glm5_base_bytes l + draft_bytes)%Z end in
  let num_blocks := may_override_num_blocks cfg (Z.max (available - fixed) 0 / bytes_per_block) in
  let size := (bytes_per_block * num_blocks + fixed)%Z in
  t1 ← mapM (fun ix => mla_region l size num_blocks ix.1 ix.2) (imap pair (mla_names l));
  t2 ← mapM (fun ix => idx_region gs l size num_blocks ix.1 ix.2) (imap pair (idx_names l));
  layers ← draft_layers (draft_groups l);
  let draft_offset := (zlen (mla_names l) * mla_page l * num_blocks + zlen (idx_names l) * idx_page l * num_blocks)%Z in
  let '(t3, e) := draft_regions size (default num_blocks ring) layers draft_offset in
  oassert (e =? size)%Z ;;
  Ok {| planned_num_blocks := num_blocks; kv_cache_tensors := concat t1 ++ concat t2 ++ t3; planned_groups := gs |}.

(** [layers_by_spec] of a group *)
Definition layers_by_spec (g : KVCacheGroup) : list (LayerSpec * list string) :=
  match kv_cache_spec g with
  | UniformTypeKVCacheSpecs _ specs => names_by id specs
  | LayerKVCacheSpec s => match layer_names g with [] => [] | names => [(s, names)] end
  end.

(** The regions of a group's specs from [byte_offset] on *)
Fixpoint place_specs (layout : KVCacheLayout) (bytes_per_block num_blocks size : Z)
    (parts : list (LayerSpec * list string)) (byte_offset : Z) : outcome (list KVCacheTensor) :=
  match parts with
  | [] => Ok []
  | (s, names) :: rest =>
      let interleaved := if is_block_outermost layout then Some bytes_per_block else None in
      strides ← compute_layout_strides s num_blocks (zlen names) layout [None; interleaved; None; None; None];
      page ← page_size_bytes s;
      let offset := (byte_offset * Z.max (axis strides 0) page / page)%Z in
      ts ← place_specs layout bytes_per_block num_blocks size rest (byte_offset + zlen names * page);
      Ok ({| tensor_size := size; tensor_layers := names; layer_stride := axis strides 0;
             block_stride := axis strides 1; tensor_offset := offset; tensor_num_blocks := None |} :: ts)
  end.

(** [get_kv_cache_config_from_groups] *)
Definition get_kv_cache_config_from_groups (cfg : PlanConfig) (gs : list KVCacheGroup) (available : Z)
    : outcome PlannedConfig :=
  match gs with
  | [] => Ok {| planned_num_blocks := 1; kv_cache_tensors := []; planned_groups := [] |}
  | _ =>
      o ← glm5_next_tensor_layout gs;
      match o with
      | Some l => glm5_config cfg gs l available
      | None =>
          layout ← get_resolved_kv_cache_layout cfg;
          validate_kv_cache_layout layout gs ;;
          bytes_per_block ← pool_bytes_per_block cfg gs;
          let num_blocks := may_override_num_blocks cfg (available / bytes_per_block) in
          ts ← mapM (fun g => place_specs layout bytes_per_block num_blocks (bytes_per_block * num_blocks)
                                (layers_by_spec g) 0) gs;
          Ok {| planned_num_blocks := num_blocks; kv_cache_tensors := concat ts; planned_groups := gs |}
      end
  end.

(** The spec [allocate_kv_cache] views a tensor with: that of its first layer, in the first
    group that has it *)
Definition tensor_spec (gs : list KVCacheGroup) (t : KVCacheTensor) : outcome LayerSpec :=
  match tensor_layers t with
  | [] => Raise IndexError
  | name :: _ => g ← pyfirst (filter (fun g => name ∈ layer_names g) gs); get_per_layer_spec g name
  end.

(** [create_kv_cache_views], without a kernel block size: the strides of the view, with the
    planned ones fixed *)
Definition view_strides (layout : KVCacheLayout) (nb : Z) (s : LayerSpec) (t : KVCacheTensor) : outcome (list Z) :=
  compute_layout_strides s nb (zlen (tensor_layers t)) layout [Some (layer_stride t); Some (block_stride t); None; None; None].

(** ** Does a request fit? *)

Definition group_pages (cfg : PlanConfig) (g : KVCacheGroup) : outcome Z :=
  match kv_cache_spec g with
  | UniformTypeKVCacheSpecs _ specs => uniform_pages cfg specs
  | LayerKVCacheSpec s => max_memory_pages cfg s
  end.

(** [_max_memory_usage_bytes_from_groups] *)
Definition max_memory_usage_bytes_from_groups (cfg : PlanConfig) (gs : list KVCacheGroup) : outcome Z :=
  match gs with
  | [] => Ok 0%Z
  | _ =>
      o ← glm5_next_tensor_layout gs;
      match o with
      | Some l =>
          attn ← uniform_pages cfg (attn_specs l);
          mamba ← mapM (group_pages cfg) (mamba_groups l);
          let total := (attn + sum_list mamba + match tail_names l with [] => 0 | _ => 1 end)%Z in
          ring_bytes ← dflash_ring_bytes cfg gs;
          if negb (ring_bytes =? 0)%Z then Ok (total * glm5_base_bytes l + ring_bytes)%Z
          else b ← groups_bytes (draft_groups l); Ok (total * (glm5_base_bytes l + b))%Z
      | None =>
          bytes_per_block ← pool_bytes_per_block cfg gs;
          pages ← mapM (group_pages cfg) gs;
          Ok (bytes_per_block * sum_list pages)%Z
      end
  end.

(** [while left <= right: ...] of the search for the maximum length.  The interval halves in
    every round. *)
Fixpoint length_search (fuel : nat) (fits : Z -> outcome bool) (left right result : Z) : outcome Z :=
  match fuel with
  | 0 => if (left <=? right)%Z then Raise OutOfFuel else Ok result
  | S fuel' =>
      if (left <=? right)%Z then
        let mid := ((left + right) / 2)%Z in
        b ← fits mid;
        if negb b then length_search fuel' fits left (mid - 1) result
        else length_search fuel' fits (mid + 1) right mid
      else Ok result
  end.

(** The search both estimates run: [fits] is the check of one length. *)
Definition search_max_model_len (fits : Z -> outcome bool) (original_max : Z) : outcome Z :=
  b ← fits 1%Z;
  if negb b then Ok 0%Z
  else length_search (Z.to_nat (Z.log2 original_max + 1)) fits 1 original_max 1.

(** [_estimate_max_model_len_from_groups]; [max_model_len] is put back at the end *)
Definition estimate_max_model_len_from_groups (cfg : PlanConfig) (gs : list KVCacheGroup) (available : Z) : outcome Z :=
  search_max_model_len (fun len =>
    m ← max_memory_usage_bytes_from_groups (cfg <| max_model_len := len |>) gs; Ok (m <=? available)%Z)
    (max_model_len cfg).

(** [max_memory_usage_bytes(vllm_config, specs)] and [estimate_max_model_len] *)
Definition total_max_memory_usage_bytes (cfg : PlanConfig) (specs : list LayerSpec) : outcome Z :=
  l ← mapM (max_memory_usage_bytes cfg) specs; Ok (sum_list l).
Definition estimate_max_model_len (cfg : PlanConfig) (specs : Specs) (available : Z) : outcome Z :=
  search_max_model_len (fun len =>
    m ← total_max_memory_usage_bytes (cfg <| max_model_len := len |>) specs.*2; Ok (m <=? available)%Z)
    (max_model_len cfg).

(** [_check_enough_kv_cache_memory]; the estimate only enters the message, but it runs *)
Definition check_enough_memory (available : Z) (needed : outcome Z) (estimate : Z -> outcome Z) : outcome unit :=
  if (available <=? 0)%Z then Raise ValueError
  else
    n ← needed;
    if (available <? n)%Z then _ ← estimate available; Raise ValueError else Ok tt.

(** [check_enough_kv_cache_memory] *)
Definition check_enough_kv_cache_memory (cfg : PlanConfig) (specs : Specs) (available : Z) : outcome unit :=
  match specs with
  | [] => Ok tt
  | _ =>
      gs ← get_kv_cache_groups cfg specs;
      check ← (match gs with [] => Ok available | _ => b ← pool_bytes_per_block cfg gs; Ok (available - b)%Z end);
      check_enough_memory check (total_max_memory_usage_bytes cfg specs.*2) (estimate_max_model_len cfg specs)
  end.

(** ** All workers *)

(** [_project_kv_cache_groups_to_worker] *)
Definition project_group (worker : Specs) (g : KVCacheGroup) : outcome KVCacheGroup :=
  let names := filter (fun n => n ∈ worker.*1) (layer_names g) in
  spec ← (match names, kv_cache_spec g with
          | _ :: _, UniformTypeKVCacheSpecs bs specs =>
              ls ← select_specs specs names; Ok (UniformTypeKVCacheSpecs bs ls)
          | _, s => Ok s
          end);
  Ok {| layer_names := names; kv_cache_spec := spec;
        is_eagle := is_eagle g && negb (bool_decide (names = []));
        enable_kv_transfer := enable_kv_transfer g |}.
Definition project_kv_cache_groups_to_worker (gs : list KVCacheGroup) (worker : Specs) : outcome (list KVCacheGroup) :=
  mapM (project_group worker) gs.

(** [_auto_fit_max_model_len]: the configuration it leaves *)
Fixpoint fit_workers (cfg : PlanConfig) (workers : list (list KVCacheGroup * Z)) (fit : Z) : outcome Z :=
  match workers with
  | [] => Ok fit
  | ([], _) :: rest => fit_workers cfg rest fit
  | (gs, avail) :: rest =>
      m ← estimate_max_model_len_from_groups cfg gs avail;
      fit_workers cfg rest (if (m <? fit)%Z then m else fit)
  end.
Definition auto_fit_max_model_len (cfg : PlanConfig) (workers : list (list KVCacheGroup * Z)) : outcome PlanConfig :=
  if forallb (fun w => bool_decide (length w.1 = 0)) workers then Ok cfg
  else
    fit ← fit_workers cfg workers (max_model_len cfg);
    if (fit <=? 0)%Z then Raise ValueError
    else Ok (if (max_model_len cfg <=? fit)%Z then cfg else cfg <| max_model_len := fit |>).

(** The specs of all workers in one dict; the same layer must have the same spec. *)
Definition merge_layer (merged : Specs) (ns : string * LayerSpec) : outcome Specs :=
  match odict_get ns.1 merged with
  | None => Ok (merged ++ [ns])
  | Some s => oassert (bool_decide (s = ns.2)) ;; Ok merged
  end.
Fixpoint merge_layers (merged : Specs) (l : Specs) : outcome Specs :=
  match l with [] => Ok merged | ns :: l' => m ← merge_layer merged ns; merge_layers m l' end.

(** [KVCacheSpecRegistry.check_kv_cache_spec_registry]: encoder-only specs have no entry *)
Definition is_registered : LayerSpec -> bool :=
  fun s => negb (on_class (fun c => match c with EncoderOnlyAttentionSpec => true | _ => false end) s).

(** [replace(layer_spec, extra_retained_tokens=n)] for window specs *)
Definition set_extra_retained (n : Z) (s : LayerSpec) : outcome LayerSpec :=
  match s with
  | AttentionSpec bs a c =>
      match c with
      | SlidingWindowSpec w _ => Ok (AttentionSpec bs a (SlidingWindowSpec w n))
      | DFlashSWASpec w _ r => Ok (AttentionSpec bs a (DFlashSWASpec w n r))
      | KpoolTailSpec w _ => Ok (AttentionSpec bs a (KpoolTailSpec w n))
      | SlidingWindowMLASpec w _ f => post_init (AttentionSpec bs a (SlidingWindowMLASpec w n f))
      | _ => Ok s
      end
  | MambaSpec _ _ => Ok s
  end.
Definition extra_retained (cfg : PlanConfig) : Z :=
  match speculative_config cfg with
  | Some sc => if use_multi_module_mtp sc then (spec_num_speculative_tokens sc - 1)%Z else 0%Z
  | None => 0%Z
  end.

(** The memory that planning may use on a worker, with [num_gpu_blocks_override] applied *)
Definition effective_memory (cfg : PlanConfig) (gs : list KVCacheGroup) (avail : Z) : outcome Z :=
  match num_gpu_blocks_override cfg, gs with
  | Some o, _ :: _ =>
      b ← pool_bytes_per_block cfg gs; r ← dflash_ring_bytes cfg gs; Ok (o * b + r)%Z
  | _, _ => Ok avail
  end.

(** The memory without the null block *)
Definition usable_memory (cfg : PlanConfig) (gs : list KVCacheGroup) (avail : Z) : outcome Z :=
  match gs with [] => Ok avail | _ => b ← pool_bytes_per_block cfg gs; Ok (avail - b)%Z end.

(** The check of one worker *)
Definition check_worker (cfg : PlanConfig) (gs : list KVCacheGroup) (check : Z) : outcome unit :=
  match gs with
  | [] => Ok tt
  | _ => check_enough_memory check (max_memory_usage_bytes_from_groups cfg gs)
           (estimate_max_model_len_from_groups cfg gs)
  end.

(** The configuration of one worker *)
Definition worker_config (cfg : PlanConfig) (gs : list KVCacheGroup) (worker : Specs) (avail : Z) : outcome PlannedConfig :=
  oassert (sum_list (zlen <$> (layer_names <$> gs)) =? zlen worker)%Z ;;
  get_kv_cache_config_from_groups cfg gs avail.

(** Planned again with exactly the memory of the smallest worker *)
Definition shrink_config (cfg : PlanConfig) (n : Z) (c : PlannedConfig) : outcome PlannedConfig :=
  if (planned_num_blocks c =? n)%Z then Ok c
  else
    b ← pool_bytes_per_block cfg (planned_groups c);
    r ← dflash_ring_bytes cfg (planned_groups c);
    get_kv_cache_config_from_groups cfg (planned_groups c) (n * b + r).

(** From the groups on: the workers with their specs and their memory *)
Definition plan_workers (cfg : PlanConfig) (groups : list KVCacheGroup) (workers : list (Specs * Z))
    : outcome (PlanConfig * list PlannedConfig) :=
  projected ← mapM (fun w => project_kv_cache_groups_to_worker groups w.1) workers;
  avail ← mapM (fun gw => effective_memory cfg gw.1 gw.2.2) (zip projected workers);
  check ← mapM (fun ga => usable_memory cfg ga.1 ga.2) (zip projected avail);
  cfg' ← (if (original_max_model_len cfg =? -1)%Z then auto_fit_max_model_len cfg (zip projected check) else Ok cfg);
  _ ← mapM (fun gc => check_worker cfg' gc.1 gc.2) (zip projected check);
  configs ← mapM (fun gwa => worker_config cfg' gwa.1.1 gwa.1.2.1 gwa.2) (zip (zip projected workers) avail);
  n ← pymin (planned_num_blocks <$> configs);
  final ← mapM (shrink_config cfg' n) configs;
  Ok (cfg', final).

(** [get_kv_cache_configs]; also the configuration it leaves *)
Definition get_kv_cache_configs (cfg : PlanConfig) (workers : list (Specs * Z)) : outcome (PlanConfig * list PlannedConfig) :=
  merged ← merge_layers [] (concat workers.*1);
  if negb (forallb is_registered merged.*2) then Raise ValueError
  else
    specs ← mapM (fun ns => s ← set_extra_retained (extra_retained cfg) ns.2; Ok (ns.1, s)) merged;
    groups ← get_kv_cache_groups cfg specs;
    plan_workers cfg groups workers.

(** [generate_scheduler_kv_cache_config]: the groups with one spec each *)
Definition scheduler_group (g : KVCacheGroup) : outcome KVCacheGroup :=
  match kv_cache_spec g with
  | UniformTypeKVCacheSpecs _ specs => s ← pyfirst specs.*2; Ok (g <| kv_cache_spec := LayerKVCacheSpec s |>)
  | LayerKVCacheSpec _ => Ok g
  end.
Definition generate_scheduler_kv_cache_config (configs : list PlannedConfig) : outcome PlannedConfig :=
  match configs with
  | [] => Raise IndexError
  | c :: _ =>
      oassert (forallb (fun d => (planned_num_blocks d =? planned_num_blocks c)%Z) configs) ;;
      gs ← mapM scheduler_group (planned_groups c);
      Ok {| planned_num_blocks := planned_num_blocks c; kv_cache_tensors := kv_cache_tensors c; planned_groups := gs |}
  end.
