(* ===== verification/KVModels.v ===== *)
(** Two small models that the examples of the planning theorems use: one of full and
    sliding-window attention and one like GLM-5.3-Flash, with MLA, indexer, tail, Mamba and
    draft layers. *)
From S2P Require Import Prelude KVBlock FreeQueue Request BlockHash BlockPool BlockPoolInv BlockPoolSpec BlockPoolCache CacheHit KVSpec KVGroups KVPlan.

Local Open Scope Z_scope.

Definition bf16 : dtype := {| dtype_name := "bfloat16"; dtype_size := 2 |}.

Definition small_fields (heads head_size head_size_v : Z) (tps : Z * Z) : AttentionFields :=
  {| num_kv_heads := heads; head_size := head_size; attn_dtype := bf16; head_size_v := head_size_v; kv_quant_mode := QNONE;
     page_size_padded := None; num_head_slots := None; state_content_bytes := None; tokens_per_state := tps |}.
Definition plain_full : FullFields := {| full_window := None; full_chunk := None; non_causal := false |}.
Definition plain_mla : MLAFields :=
  {| cache_dtype_str := None; alignment := None; model_version := None; storage_block_size := None; non_causal_multi_token_decode := false |}.

Definition full_layer (heads : Z) : LayerSpec := AttentionSpec 16 (small_fields heads 8 8 (1, 1)) (FullAttentionSpec plain_full).
Definition window_layer (heads : Z) : LayerSpec := AttentionSpec 16 (small_fields heads 8 8 (1, 1)) (SlidingWindowSpec 32 0).
Definition mla_layer : LayerSpec := AttentionSpec 16 (small_fields 1 8 0 (1, 1)) (MLAAttentionSpec plain_full plain_mla).
Definition indexer_layer : LayerSpec := AttentionSpec 16 (small_fields 1 8 0 (4, 1)) (MLAAttentionSpec plain_full plain_mla).
Definition tail_layer : LayerSpec := AttentionSpec 16 (small_fields 1 4 0 (4, 1)) (KpoolTailSpec 4 0).
Definition mamba_layer : LayerSpec :=
  MambaSpec 16 {| shapes := [[64]]; dtypes := [bf16]; mamba_page_size_padded := None; mamba_type := "mamba2"; mamba_spec_cache_mode := "none";
                  num_speculative_blocks := 0; num_prefill_checkpoint_blocks := 0; prefill_checkpoint_alignment := None;
                  mamba_num_heads := 1; mamba_tokens_per_state := 16; tp_replicated := false |}.
Definition draft_layer : LayerSpec := AttentionSpec 16 (small_fields 1 8 8 (1, 1)) (DFlashSWASpec 32 0 false).

Definition small_config (layout : KVCacheLayout) (len original : Z) : PlanConfig :=
  {| max_model_len := len; original_max_model_len := original; decode_context_parallel_size := 1; pipeline_parallel_size := 1;
     total_num_hidden_layers := 6; pp_layer_partition := None; max_concurrent_batches := 1; max_num_batched_tokens := 32; max_num_seqs := 4;
     max_num_encoder_input_tokens := 0; disable_hybrid_kv_cache_manager := false; num_gpu_blocks_override := None; cache_mamba_cache_mode := "none";
     kv_cache_layout := Some layout; speculative_config := None; has_kv_transfer_config := false; dflash_kv_ring := true; hf_model_type := "small" |}.

(** Two full and four sliding-window layers *)
Definition small_model : Specs :=
  [("layers.0", full_layer 1); ("layers.1", window_layer 1); ("layers.2", window_layer 1);
   ("layers.3", full_layer 1); ("layers.4", window_layer 1); ("layers.5", window_layer 1)]%string.

Definition groups_or_nil (o : outcome (list KVCacheGroup)) : list KVCacheGroup := match o with Ok gs => gs | Raise _ => [] end.

Definition small_groups : list KVCacheGroup := groups_or_nil (get_kv_cache_groups (small_config LBNHC 64 64) small_model).

(** Two MLA layers with their indexers and tails, four Mamba layers, a draft layer *)
Definition glm_model : Specs :=
  [("layers.0.mamba", mamba_layer); ("layers.1.mamba", mamba_layer); ("layers.2.mla", mla_layer); ("layers.2.indexer", indexer_layer);
   ("layers.2.tail", tail_layer); ("layers.3.mamba", mamba_layer); ("layers.4.mamba", mamba_layer); ("layers.5.mla", mla_layer);
   ("layers.5.indexer", indexer_layer); ("layers.5.tail", tail_layer); ("draft.layers.6", draft_layer)]%string.

Definition glm_config (ring : bool) : PlanConfig :=
  small_config LBNHC 64 64 <| dflash_kv_ring := ring |>
    <| speculative_config := Some {| spec_method := "dflash"; use_eagle := false; use_multi_module_mtp := false; spec_num_speculative_tokens := 3 |} |>.
Definition glm_groups (ring : bool) : list KVCacheGroup := groups_or_nil (get_kv_cache_groups (glm_config ring) glm_model).
