(* ===== verification/KVGroupsThms.v ===== *)
(** Grouping the layers: every layer of the model is in exactly one group, on every path of
    [get_kv_cache_groups]; and for plain models the grouping always succeeds. *)
From S2P Require Import Prelude KVBlock FreeQueue Request BlockHash BlockPool BlockPoolInv BlockPoolSpec BlockPoolCache CacheHit KVSpec KVGroups.

(** ** Outcomes *)

Lemma bind_Ok {A B} (m : outcome A) (k : A -> outcome B) b :
  (m ≫= k) = Ok b <-> exists a, m = Ok a /\ k a = Ok b.
Proof. destruct m as [a|e]; simpl; [|naive_solver]. split; [eauto|by intros (? & [= ->] & ?)]. Qed.

Lemma oassert_Ok b u : oassert b = Ok u <-> b = true.
Proof. by destruct b, u. Qed.

Lemma mapM_Ok {A B} (f : A -> outcome B) l k : mapM f l = Ok k <-> Forall2 (fun x y => f x = Ok y) l k.
Proof.
  revert k. induction l as [|x l IH]; intros k; simpl.
  - split; [by intros [= <-]|]. by intros ->%Forall2_nil_inv_l.
  - rewrite bind_Ok. setoid_rewrite bind_Ok. split.
    + intros (y & Hy & l' & Hl' & [= <-]). constructor; [done|]. by apply IH.
    + intros (y & l' & Hy & Hl' & ->)%Forall2_cons_inv_l. exists y. split; [done|]. exists l'. split; [by apply IH|done].
Qed.

Lemma mapM_total {A B} (f : A -> outcome B) (g : A -> B) l :
  (forall x, x ∈ l -> f x = Ok (g x)) -> mapM f l = Ok (g <$> l).
Proof. intros H. apply mapM_Ok. apply Forall2_fmap_r, Forall_Forall2_diag, Forall_forall. done. Qed.

Lemma mapM_Ok_in {A B} (f : A -> outcome B) l k :
  mapM f l = Ok k -> Forall2 (fun x y => x ∈ l /\ f x = Ok y) l k.
Proof.
  intros H%mapM_Ok. apply Forall2_same_length_lookup_2; [by eapply Forall2_length|]. intros i x y Hx Hy.
  split; [by eapply list_elem_of_lookup_2|]. exact (Forall2_lookup_lr _ _ _ _ _ _ H Hx Hy).
Qed.

(** Invert a chain of binds that returned. *)
Ltac obind_in H :=
  lazymatch type of H with
  | (_ ≫= _) = Ok _ =>
      let x := fresh "x" in let Hx := fresh "Hx" in
      apply bind_Ok in H as (x & Hx & H); cbv beta in H
  end.
Ltac obinds H := repeat obind_in H; first [discriminate H | injection H as <- | idtac].

(** ** Lists *)

Lemma concat_fmap_app {A B} (f g : A -> list B) l :
  concat ((fun x => f x ++ g x) <$> l) ≡ₚ concat (f <$> l) ++ concat (g <$> l).
Proof. induction l as [|x l IH]; [done|]. simpl. rewrite IH. solve_Permutation. Qed.

Lemma concat_perm {A} (l k : list (list A)) : l ≡ₚ k -> concat l ≡ₚ concat k.
Proof.
  induction 1 as [|x l k _ IH|x y l|l1 l2 l3 _ IH1 _ IH2]; simpl; [done|by rewrite IH|solve_Permutation|].
  by rewrite IH1.
Qed.

Lemma concat_fmap_concat {A} (l : list (list (list A))) : concat (concat l) = concat ((fun x => concat x) <$> l).
Proof. induction l as [|x l IH]; [done|]. simpl. by rewrite concat_app, IH. Qed.

(** [l[i::n]] *)
Lemma strided_snoc {A} i n (l : list A) x :
  strided i n (l ++ [x]) = strided i n l ++ (if decide (length l mod n = i) then [x] else []).
Proof. unfold strided. rewrite imap_app, concat_app. simpl. by rewrite Nat.add_0_r, app_nil_r. Qed.

Lemma one_slot {A} (x : A) k n :
  concat ((fun i => if decide (k = i) then [x] else []) <$> seq 0 n) = if decide (k < n) then [x] else [].
Proof.
  induction n as [|n IH]; [done|]. rewrite seq_S, fmap_app, concat_app, IH. simpl.
  destruct (decide (k = n)); repeat case_decide; try lia; done.
Qed.

(** The strided slices partition the list. *)
Lemma strided_perm {A} n (l : list A) : 0 < n -> concat ((fun i => strided i n l) <$> seq 0 n) ≡ₚ l.
Proof.
  intros Hn. induction l as [|x l IH] using rev_ind.
  - induction (seq 0 n); [done|]. simpl. done.
  - rewrite (list_fmap_ext _ (fun i => strided i n l ++ (if decide (length l mod n = i) then [x] else []))).
    2: { intros i y Hy. apply strided_snoc. }
    rewrite concat_fmap_app, one_slot, IH. rewrite decide_True; [done|]. apply Nat.mod_upper_bound. lia.
Qed.

Lemma elem_of_strided {A} i n (l : list A) : i < n -> n <= length l -> strided i n l <> [].
Proof.
  intros Hi Hl Hs. destruct (lookup_lt_is_Some_2 l i) as [x Hx]; [lia|].
  assert (x ∈ strided i n l) as Hin; [|rewrite Hs in Hin; set_solver].
  unfold strided. apply list_elem_of_In, in_concat. exists [x]. split; [|by left].
  apply list_elem_of_In, elem_of_lookup_imap. exists i, x. split; [|done].
  rewrite Nat.mod_small by lia. by rewrite decide_True.
Qed.

Lemma length_strided {A} i n (l : list A) : 0 < n -> i < n -> length (strided i n l) = (length l + n - 1 - i) / n.
Proof.
  intros Hn Hi. induction l as [|x l IH] using rev_ind.
  - simpl. symmetry. apply Nat.div_small. lia.
  - rewrite strided_snoc, !length_app, IH. simpl.
    pose proof (Nat.div_mod_eq (length l) n). pose proof (Nat.mod_upper_bound (length l) n).
    set (q := length l / n) in *. set (r := length l mod n) in *.
    destruct (decide (r = i)) as [<-|Hr]; simpl.
    + replace (length l + n - 1 - r) with ((n - 1) + q * n) by lia. rewrite Nat.div_add, Nat.div_small by lia.
      replace (length l + 1 + n - 1 - r) with (0 + (q + 1) * n) by nia. rewrite Nat.div_add, Nat.Div0.div_0_l by lia. lia.
    + destruct (decide (r < i)).
      * replace (length l + n - 1 - i) with ((r + n - 1 - i) + q * n) by lia.
        replace (length l + 1 + n - 1 - i) with ((r + n - i) + q * n) by lia.
        rewrite !Nat.div_add, !Nat.div_small by lia. lia.
      * replace (length l + n - 1 - i) with ((r - 1 - i) + (q + 1) * n) by nia.
        replace (length l + 1 + n - 1 - i) with ((r - i) + (q + 1) * n) by nia.
        rewrite !Nat.div_add, !Nat.div_small by lia. lia.
Qed.

(** Dealing names out in turn gives the strided slices. *)
Lemma round_robin_strided n names : 0 < n -> round_robin n names = (fun i => strided i n names) <$> seq 0 n.
Proof.
  intros Hn. induction names as [|x names IH] using rev_ind.
  - unfold round_robin. simpl. clear. generalize 0. induction n as [|n IH]; intros k; [done|]. simpl. by rewrite (IH (S k)).
  - unfold round_robin in *. rewrite imap_app, foldl_app. simpl. rewrite IH, Nat.add_0_r.
    apply list_eq. intros j. rewrite list_lookup_fmap.
    destruct (decide (j = length names mod n)) as [->|Hj].
    + rewrite list_lookup_alter_eq, list_lookup_fmap. destruct (seq 0 n !! _) as [i|] eqn:Hi; [|done]. simpl.
      apply lookup_seq in Hi as [-> _]. rewrite strided_snoc. simpl. by rewrite decide_True.
    + rewrite list_lookup_alter_ne, list_lookup_fmap by done. destruct (seq 0 n !! _) as [i|] eqn:Hi; [|done]. simpl.
      apply lookup_seq in Hi as [-> _]. rewrite strided_snoc. simpl. rewrite decide_False by done. by rewrite app_nil_r.
Qed.

(** Rows of columns of one length hold what the columns hold. *)
Lemma lookup_seq_list {A} (c : list A) : concat ((fun i => option_list (c !! i)) <$> seq 0 (length c)) = c.
Proof.
  induction c as [|x c IH] using rev_ind; [done|]. rewrite length_app, Nat.add_1_r, seq_S, fmap_app, concat_app. simpl. rewrite lookup_app_r, Nat.sub_diag by done. simpl. f_equal.
  etransitivity; [|exact IH]. f_equal. apply list_fmap_ext. intros j i [-> Hi]%lookup_seq. simpl. by rewrite lookup_app_l.
Qed.

Lemma rows_perm {A} (cols : list (list A)) L :
  Forall (fun c => length c = L) cols -> concat ((fun i => omap (fun col => col !! i) cols) <$> seq 0 L) ≡ₚ concat cols.
Proof.
  induction 1 as [|c cols Hc _ IH]; [simpl; induction (seq 0 L); done|]. simpl.
  rewrite (list_fmap_ext _ (fun i => option_list (c !! i) ++ omap (fun col => col !! i) cols)).
  2: { intros j i _. by destruct (c !! i). }
  rewrite concat_fmap_app, IH. by rewrite <- Hc, lookup_seq_list.
Qed.

Lemma zip_columns_perm {A} (cols : list (list A)) L :
  cols <> [] -> Forall (fun c => length c = L) cols ->
  concat (zip_columns cols) ≡ₚ concat cols /\ length (zip_columns cols) = L.
Proof.
  destruct cols as [|c cols]; [done|]. intros _ H. unfold zip_columns. cbv zeta.
  assert (foldr Nat.min (length c) (length <$> cols) = L) as ->.
  { apply Forall_cons in H as [-> H]. induction H as [|d cols Hd _ IH]; [done|]. csimpl. lia. }
  split; [by apply rows_perm|]. by rewrite length_fmap, length_seq.
Qed.

(** ** The parts of the grouping *)

Lemma dict_append_perm {K V} `{EqDecision K} (k : K) (v : V) d :
  concat (dict_append k v d).*2 ≡ₚ concat d.*2 ++ [v].
Proof.
  induction d as [|[k' l] d IH]; [done|]. simpl. case_decide; csimpl; [solve_Permutation|]. rewrite IH. solve_Permutation.
Qed.

Lemma dict_append_forall {K V} `{EqDecision K} (P : K -> list V -> Prop) (k : K) (v : V) d :
  P k [v] -> (forall l, P k l -> P k (l ++ [v])) -> Forall (fun kl => P kl.1 kl.2) d ->
  Forall (fun kl => P kl.1 kl.2) (dict_append k v d).
Proof.
  intros H1 H2. induction 1 as [|[k' l] d Hl Hd IH]; simpl; [by repeat constructor|].
  case_decide as Hk; constructor; simpl in *; [subst; by apply H2|done..].
Qed.

Lemma names_by_perm {K} `{EqDecision K} (key : LayerSpec -> K) specs : concat (names_by key specs).*2 ≡ₚ specs.*1.
Proof.
  unfold names_by. induction specs as [|ns specs IH] using rev_ind; [done|].
  rewrite foldl_app, fmap_app. simpl. by rewrite dict_append_perm, IH.
Qed.

(** Every entry is non-empty and holds names of layers with its key. *)
Lemma names_by_forall {K} `{EqDecision K} (key : LayerSpec -> K) specs :
  Forall (fun kl => kl.2 <> [] /\ Forall (fun n => exists s, (n, s) ∈ specs /\ key s = kl.1) kl.2) (names_by key specs).
Proof.
  unfold names_by. induction specs as [|ns specs IH] using rev_ind; [constructor|]. rewrite foldl_app. simpl.
  set (P := fun (k : K) (l : list string) =>
    l <> [] /\ Forall (fun n => exists s, (n, s) ∈ specs ++ [ns] /\ key s = k) l).
  destruct ns as [n s]. change (Forall (fun kl => P kl.1 kl.2) (dict_append (key s) n (foldl (fun d ns => dict_append (key ns.2) ns.1 d) [] specs))).
  apply dict_append_forall.
  - split; [done|]. repeat constructor. exists s. set_solver.
  - intros l [_ Hl]. split; [by destruct l|]. apply Forall_app. split; [done|]. repeat constructor. exists s. set_solver.
  - eapply Forall_impl; [exact IH|]. intros kl [H1 H2]. split; [done|]. eapply Forall_impl; [exact H2|].
    intros m (t & Ht & Hk). exists t. set_solver.
Qed.

(** A group lists its layers, and a uniform group has exactly their specs. *)
Definition group_ok (g : KVCacheGroup) : Prop :=
  layer_names g <> [] /\
  match kv_cache_spec g with
  | UniformTypeKVCacheSpecs bs specs => specs.*1 = layer_names g /\ Forall (fun s => layer_block_size s = bs) specs.*2
  | LayerKVCacheSpec _ => True
  end.

(** The groups partition the layers. *)
Definition grouping (names : list string) (gs : list KVCacheGroup) : Prop :=
  concat (layer_names <$> gs) ≡ₚ names /\ Forall group_ok gs.

Lemma grouping_app n1 n2 g1 g2 : grouping n1 g1 -> grouping n2 g2 -> grouping (n1 ++ n2) (g1 ++ g2).
Proof. intros [H1 H2] [H3 H4]. split; [by rewrite fmap_app, concat_app, H1, H3|by apply Forall_app]. Qed.

Lemma grouping_perm n1 n2 gs : n1 ≡ₚ n2 -> grouping n1 gs -> grouping n2 gs.
Proof. intros H [H1 H2]. split; [by rewrite H1|done]. Qed.

#[export] Instance grouping_proper : Proper ((≡ₚ) ==> (=) ==> iff) grouping.
Proof. intros n1 n2 H gs _ <-. split; apply grouping_perm; [done|by symmetry]. Qed.

Lemma grouping_concat {A} (l : list A) (f : A -> list string) (gss : list (list KVCacheGroup)) :
  Forall2 (fun x gs => grouping (f x) gs) l gss -> grouping (concat (f <$> l)) (concat gss).
Proof. induction 1; [by split|]. csimpl. by apply grouping_app. Qed.

Lemma select_specs_names specs names ls : select_specs specs names = Ok ls -> ls.*1 = names.
Proof.
  unfold select_specs. intros H%mapM_Ok. induction H as [|n [m s] names ls Hn _ IH]; [done|]. csimpl. rewrite IH.
  destruct (odict_get n specs); naive_solver.
Qed.

Lemma select_specs_elem specs names ls : select_specs specs names = Ok ls -> Forall (fun ns => ns ∈ specs) ls.
Proof.
  unfold select_specs. intros H%mapM_Ok. induction H as [|n [m s] names ls Hn _ IH]; constructor; [|done].
  destruct (odict_get n specs) eqn:E; [|done]. injection Hn as [= <- <-]. by apply odict_get_elem.
Qed.

Lemma create_groups_names specs grouped gs :
  create_kv_cache_group_specs specs grouped = Ok gs -> Forall (fun l => l <> []) grouped ->
  grouping (concat grouped) gs.
Proof.
  unfold create_kv_cache_group_specs. intros H%mapM_Ok. induction H as [|names g grouped gs Hg _ IH]; [by split|].
  intros [Hn Hr]%Forall_cons. cbv beta in Hg. obinds Hg. csimpl.
  apply (grouping_app names _ [_] gs); [|by apply IH]. split; [by csimpl; rewrite app_nil_r|]. repeat constructor; done.
Qed.

Lemma singleton_dups {A} `{EqDecision A} (l : list A) x : singleton_of l = Some x -> forall y, y ∈ l -> y = x.
Proof.
  unfold singleton_of. destruct (remove_dups l) as [|z [|]] eqn:E; [done| |done]. intros [= ->] y Hy.
  apply elem_of_remove_dups in Hy. rewrite E in Hy. set_solver.
Qed.

Lemma few_dups {A} `{EqDecision A} (l : list A) x y : length (remove_dups l) <= 1 -> x ∈ l -> y ∈ l -> x = y.
Proof.
  intros H Hx Hy. apply elem_of_remove_dups in Hx, Hy. destruct (remove_dups l) as [|z [|]]; set_solver by (simpl in *; lia).
Qed.

(** [from_specs] gives a group for exactly its layers. *)
Lemma from_specs_grouping specs g :
  from_specs specs = Ok (Some g) -> grouping specs.*1 [new_group specs.*1 g] /\ g = UniformTypeKVCacheSpecs (group_block_size g) specs.
Proof.
  unfold from_specs. intros H. obind_in H. destruct x; [|done]. simpl in H. obind_in H. destruct specs as [|[n s] specs]; [done|].
  injection Hx0 as [= <-]. injection H as [= <-]. split; [|done]. split; [by csimpl; rewrite app_nil_r|].
  apply Forall_singleton. split; [done|]. split; [done|].
  unfold is_uniform_type in Hx. case_decide as Hd; [done|]. apply Forall_forall. intros t Ht.
  eapply (few_dups (layer_block_size <$> ((n, s) :: specs).*2)); [lia|by apply list_elem_of_fmap_2|apply list_elem_of_fmap_2; left].
Qed.

Lemma uniform_type_groups g specs :
  from_specs specs = Ok (Some g) -> grouping specs.*1 (get_kv_cache_groups_uniform_type g).
Proof. intros [H1 H2]%from_specs_grouping. rewrite H2 in *. done. Qed.

(** ** Groups of equal size *)

Lemma add_bucket_spec s names bs bs' :
  add_bucket s names bs = Ok bs' -> names <> [] -> Forall (fun l => l <> []) bs.*1 ->
  concat bs'.*1 ≡ₚ names ++ concat bs.*1 /\ Forall (fun l => l <> []) bs'.*1.
Proof.
  intros H Hn. revert bs' H. induction bs as [|[ns ss] bs IH]; simpl; intros bs' H Hbs.
  - injection H as <-. by repeat constructor.
  - apply Forall_cons in Hbs as [Hns Hbs]. destruct (merge _) as [m|e].
    + injection H as <-. csimpl. split; [solve_Permutation|]. constructor; [by destruct ns|done].
    + assert (exists rest, add_bucket s names bs = Ok rest /\ bs' = (ns, ss) :: rest) as (rest & Hr & ->).
      { destruct e; try discriminate H; obinds H; eauto. }
      destruct (IH _ Hr Hbs) as [H1 H2]. csimpl. split; [rewrite H1; solve_Permutation|by constructor].
Qed.

Lemma merge_buckets_spec by_spec bs bs' :
  merge_buckets by_spec bs = Ok bs' -> Forall (fun sn => sn.2 <> []) by_spec -> Forall (fun l => l <> []) bs.*1 ->
  concat bs'.*1 ≡ₚ concat by_spec.*2 ++ concat bs.*1 /\ Forall (fun l => l <> []) bs'.*1.
Proof.
  intros H Hs. revert bs H. induction Hs as [|[s names] by_spec Hn _ IH]; simpl; intros bs H Hbs; [by injection H as <-|].
  obind_in H. destruct (add_bucket_spec _ _ _ _ Hx Hn Hbs) as [H1 H2]. destruct (IH _ H H2) as [H3 H4]. csimpl.
  split; [rewrite H3, H1; solve_Permutation|done].
Qed.

Lemma cdiv_range a b : (0 < a)%Z -> (0 < b)%Z -> (1 <= cdiv a b <= a)%Z.
Proof. intros Ha Hb. pose proof (cdiv_spec a b Hb). nia. Qed.

Lemma foldr_max_ge l x : (x <= foldr Z.max x l)%Z /\ (forall y, y ∈ l -> y <= foldr Z.max x l)%Z.
Proof. induction l as [|z l [IH1 IH2]]; simpl; [split; [lia|set_solver]|]. split; [lia|]. intros y [->|Hy]%elem_of_cons; [lia|]. specialize (IH2 _ Hy). lia. Qed.

Lemma foldr_max_in l x : foldr Z.max x l = x \/ foldr Z.max x l ∈ l.
Proof. induction l as [|z l IH]; simpl; [by left|]. destruct (Z.max_spec z (foldr Z.max x l)) as [[_ ->]|[_ ->]]; [|by right; left]. destruct IH as [IH|IH]; [by left|by right; right]. Qed.

Lemma pymax_spec l m : pymax l = Ok m -> m ∈ l /\ (forall y, y ∈ l -> y <= m)%Z.
Proof.
  destruct l as [|x l]; [done|]. intros [= <-]. destruct (foldr_max_ge l x) as [H1 H2]. split.
  - destruct (foldr_max_in l x) as [->|H]; [by left|by right].
  - intros y [->|Hy]%elem_of_cons; [done|by apply H2].
Qed.

Lemma pymin_spec l m : pymin l = Ok m -> m ∈ l /\ (forall y, y ∈ l -> m <= y)%Z.
Proof.
  destruct l as [|x l]; [done|]. intros [= <-].
  assert ((foldr Z.min x l = x \/ foldr Z.min x l ∈ l) /\ (foldr Z.min x l <= x)%Z /\ (forall y, y ∈ l -> foldr Z.min x l <= y)%Z) as (H1 & H2 & H3).
  { induction l as [|z l (IH1 & IH2 & IH3)]; simpl; [repeat split; [by left|lia|set_solver]|].
    split; [|split; [lia|]].
    - destruct (Z.min_spec z (foldr Z.min x l)) as [[_ ->]|[_ ->]]; [by right; left|]. destruct IH1; [by left|by right; right].
    - intros y [->|Hy]%elem_of_cons; [lia|]. specialize (IH3 _ Hy). lia. }
  split; [destruct H1 as [->|H1]; [by left|by right]|]. intros y [->|Hy]%elem_of_cons; [done|by apply H3].
Qed.

Lemma choose_group_size_pos sizes n : choose_group_size sizes = Ok n -> Forall (fun z => 0 < z)%Z sizes -> (0 < n)%Z.
Proof.
  unfold choose_group_size. intros H Hs. obinds H. rewrite Forall_forall in Hs.
  apply pymin_spec in Hx as [Hx _]. apply pymax_spec in Hx0 as [Hx0 _]. destruct (_ <? _)%Z; by apply Hs.
Qed.

Lemma zlen_pos {A} (l : list A) : l <> [] -> (0 < zlen l)%Z.
Proof. unfold zlen. destruct l; simpl; [done|lia]. Qed.

(** A list split in at most as many slices as it has elements *)
Lemma split_layers_spec n layers :
  (1 <= n <= zlen layers)%Z -> concat (split_layers n layers) ≡ₚ layers /\ Forall (fun l => l <> []) (split_layers n layers).
Proof.
  unfold zlen. intros Hn. split; [apply strided_perm; lia|]. apply Forall_fmap, Forall_forall. intros i [_ Hi]%elem_of_seq.
  apply elem_of_strided; lia.
Qed.

Lemma uniform_page_size_grouping specs gs :
  get_kv_cache_groups_uniform_page_size specs = Ok gs -> grouping specs.*1 gs.
Proof.
  unfold get_kv_cache_groups_uniform_page_size. intros H. repeat obind_in H.
  destruct (merge_buckets_spec _ _ _ Hx) as [H1 H2]; [|constructor|].
  { eapply Forall_impl; [apply (names_by_forall id)|]. by intros kl []. }
  apply choose_group_size_pos in Hx0; [|apply Forall_fmap; eapply Forall_impl; [exact H2|apply zlen_pos]].
  assert (forall layers, layers ∈ x.*1 -> concat (split_layers (cdiv (zlen layers) x0) layers) ≡ₚ layers /\
    Forall (fun l => l <> []) (split_layers (cdiv (zlen layers) x0) layers)) as Hsp.
  { intros layers Hl. rewrite Forall_forall in H2. apply split_layers_spec, cdiv_range; [|done]. by apply zlen_pos, H2. }
  eapply grouping_perm; [|eapply create_groups_names; [exact H|]].
  - rewrite concat_fmap_concat, <- list_fmap_compose. simpl in H1. rewrite app_nil_r, names_by_perm in H1. rewrite <- H1. clear -Hsp.
    induction x.*1 as [|l ls IH]; [done|]. csimpl. rewrite (proj1 (Hsp l ltac:(left))), IH; [done|]. intros. apply Hsp. by right.
  - apply Forall_concat, Forall_fmap, Forall_forall. intros layers Hl. by apply Hsp.
Qed.

(** ** Steps that keep the names *)

Lemma mapM_values (f : LayerSpec -> outcome LayerSpec) (specs specs' : Specs) :
  mapM (fun ns => s ← f ns.2; Ok (ns.1, s)) specs = Ok specs' ->
  specs'.*1 = specs.*1 /\ Forall2 (fun s s' => f s = Ok s') specs.*2 specs'.*2.
Proof.
  intros H%mapM_Ok. induction H as [|[n s] ns' specs specs' Hn _ [IH1 IH2]]; [done|]. cbv beta in Hn. obinds Hn. csimpl.
  split; [by rewrite IH1|by constructor].
Qed.

Lemma unify_names specs specs' : unify_kv_cache_spec_page_size specs = Ok specs' -> specs'.*1 = specs.*1.
Proof.
  unfold unify_kv_cache_spec_page_size. intros H. obind_in H. case_decide; [by injection H as <-|]. obind_in H.
  by apply mapM_values in H as [].
Qed.

Lemma promote_names specs specs' : promote_local_kv_cache_specs specs = Ok specs' -> specs'.*1 = specs.*1.
Proof.
  unfold promote_local_kv_cache_specs. intros H. obind_in H. destruct x; simpl in H; [by injection H as <-|]. repeat obind_in H.
  destruct x0; [|done]. injection H as <-. destruct (_ && _); [by apply mapM_values in Hx0 as []|by injection Hx0 as <-].
Qed.

Lemma unify_hybrid_names specs specs' : unify_hybrid_kv_cache_specs specs = Ok specs' -> specs'.*1 = specs.*1.
Proof.
  unfold unify_hybrid_kv_cache_specs. intros H. obind_in H. destruct x; simpl in H; [by injection H as <-|by apply promote_names].
Qed.

Lemma fallback_grouping specs gs :
  try_get_full_allocation_fallback_groups specs = Ok (Some gs) -> grouping specs.*1 gs.
Proof.
  unfold try_get_full_allocation_fallback_groups. intros H. destruct (existsb _ _); [done|]. destruct (existsb _ _); [done|].
  destruct (negb _); [done|]. destruct (promote_local_kv_cache_specs specs) as [p|e] eqn:Hp; [|by destruct e].
  obind_in H. destruct x as [g|]; [|done]. injection H as <-. apply promote_names in Hp. rewrite <- Hp. by apply uniform_type_groups.
Qed.

(** The eagle flags change nothing else. *)
Definition same_layers (g g' : KVCacheGroup) : Prop :=
  layer_names g' = layer_names g /\ kv_cache_spec g' = kv_cache_spec g.

Lemma same_layers_grouping names gs gs' : Forall2 same_layers gs gs' -> grouping names gs -> grouping names gs'.
Proof.
  intros H [H1 H2]. split.
  - rewrite <- H1. clear -H. induction H as [|g g' gs gs' [Hg _] _ IH]; [done|]. csimpl. by rewrite Hg, IH.
  - clear H1. induction H as [|g g' gs gs' [Hn Hk] _ IH]; [done|]. apply Forall_cons in H2 as [H2 H3].
    constructor; [|by apply IH]. unfold group_ok. by rewrite Hn, Hk.
Qed.

Lemma annotate_same cfg specs gs b gs' : annotate_eagle_groups cfg specs gs b = Ok gs' -> Forall2 same_layers gs gs'.
Proof.
  assert (forall l, Forall2 same_layers l l) as Hid by (induction l; constructor; done).
  unfold annotate_eagle_groups. destruct (speculative_config cfg) as [sc|]; [|by intros [= <-]].
  destruct (use_eagle sc); simpl; [|by intros [= <-]].
  set (fl := fun g : KVCacheGroup => if existsb is_draft_spec (iter_layer_specs (kv_cache_spec g)) then _ else _).
  assert (Forall2 same_layers gs (fl <$> gs)) as Hf.
  { apply Forall2_fmap_r, Forall_Forall2_diag, Forall_forall. intros g _. unfold compose, fl. by destruct (existsb _ _). }
  destruct b; simpl; [|by intros [= <-]]. intros H. obind_in H. injection H as <-.
  clear -Hf. induction Hf as [|g g' gs l Hg Hf IH]; simpl; [constructor|]. destruct (bool_decide _).
  - constructor; [by destruct Hg|done].
  - by constructor.
Qed.

(** ** Packing *)

Definition by_key {K V} `{EqDecision K} (l : list (K * V)) : list (K * list V) :=
  foldl (fun d kv => dict_append kv.1 kv.2 d) [] l.

Lemma dict_append_keys {K V} `{EqDecision K} (k : K) (v : V) d :
  (dict_append k v d).*1 = if decide (k ∈ d.*1) then d.*1 else d.*1 ++ [k].
Proof.
  induction d as [|[k' l] d IH]; [done|]. simpl. destruct (decide (k' = k)) as [->|Hk]; csimpl.
  - rewrite decide_True by left. done.
  - rewrite IH. repeat case_decide; try done; set_solver.
Qed.

Lemma dict_append_elem {K V} `{EqDecision K} (k : K) (v : V) d k' l :
  NoDup d.*1 -> (k', l) ∈ dict_append k v d ->
  (k' <> k /\ (k', l) ∈ d) \/ (k' = k /\ exists l0, l = (l0 ++ [v]) /\ ((k, l0) ∈ d \/ (l0 = [] /\ k ∉ d.*1))).
Proof.
  induction d as [|[k1 l1] d IH]; simpl; intros Hd Hin.
  - right. apply list_elem_of_singleton in Hin as [= -> ->]. split; [done|]. exists []. set_solver.
  - apply NoDup_cons in Hd as [Hk1 Hd]. case_decide as Hk; subst.
    + apply elem_of_cons in Hin as [[= -> ->]|Hin].
      { right. split; [done|]. exists l1. split; [done|]. left. left. }
      left. split; [|by right].
      intros ->. apply Hk1. by apply (list_elem_of_fmap_2 fst) in Hin.
    + apply elem_of_cons in Hin as [[= -> ->]|Hin]; [left; split; [done|left]|].
      destruct (IH Hd Hin) as [[H1 H2]|(-> & l0 & -> & H)]; [left; split; [done|by right]|right].
      split; [done|]. exists l0. split; [done|]. destruct H as [H|[-> H]]; [left; by right|right; set_solver].
Qed.

Lemma by_key_spec {K V} `{EqDecision K} (l : list (K * V)) :
  NoDup (by_key l).*1 /\ (forall k, k ∈ (by_key l).*1 <-> k ∈ l.*1) /\
  (forall k vs, (k, vs) ∈ by_key l -> vs = (filter (fun kv => kv.1 = k) l).*2) /\
  concat (by_key l).*2 ≡ₚ l.*2.
Proof.
  unfold by_key. induction l as [|[k v] l (IH1 & IH2 & IH3 & IH4)] using rev_ind; [split; [constructor|set_solver]|].
  rewrite foldl_app. cbn [foldl fst snd]. set (d := foldl _ _ _) in *. split; [|split; [|split]].
  - rewrite dict_append_keys. case_decide; [done|]. apply NoDup_app. split; [done|]. split; [set_solver|apply NoDup_singleton].
  - intros k'. rewrite dict_append_keys, fmap_app. csimpl. case_decide; set_solver.
  - intros k' vs Hin. rewrite filter_app, fmap_app. apply dict_append_elem in Hin as [[Hk Hin]|(-> & l0 & -> & Hin)]; [..|done].
    + rewrite filter_cons, decide_False by (simpl; congruence). rewrite filter_nil. csimpl. rewrite app_nil_r. by apply IH3.
    + rewrite filter_cons, decide_True by done. rewrite filter_nil. csimpl. f_equal. destruct Hin as [Hin|[-> Hin]]; [by apply IH3|].
      destruct (filter (fun kv => kv.1 = k) l) as [|[k1 v1] l'] eqn:Ef; [done|]. exfalso.
      assert ((k1, v1) ∈ filter (fun kv => kv.1 = k) l) as [<- H1]%list_elem_of_filter by (rewrite Ef; left).
      apply Hin, IH2. by apply (list_elem_of_fmap_2 fst) in H1.
  - rewrite dict_append_perm, IH4, fmap_app. done.
Qed.

(** [_approximate_gcd] is the chunk size of least padding, the largest of them. *)
Lemma gcd_fold values lo hi : (lo <= hi)%Z ->
  exists d, foldl (gcd_step values) (lo, None) (zrange lo (hi + 1)) = (d, Some (total_padding values d)) /\
    (lo <= d <= hi)%Z /\
    (forall x, lo <= x <= hi -> total_padding values d < total_padding values x \/
                              total_padding values d = total_padding values x /\ x <= d)%Z.
Proof.
  intros H. rewrite zrange_cons by lia. cbn [foldl].
  change (gcd_step values (lo, None) lo) with (lo, Some (total_padding values lo)).
  remember (Z.to_nat (hi - lo)) as k eqn:Hk. replace hi with (lo + Z.of_nat k)%Z in * by lia. clear Hk H.
  induction k as [|k IH].
  - exists lo. rewrite zrange_nil by lia. split; [done|]. split; [lia|]. intros x Hx. right. replace x with lo by lia. lia.
  - destruct IH as (d & Hd & Hr & Hm). set (m := (lo + Z.of_nat (S k))%Z).
    assert (zrange (lo + 1) (m + 1) = zrange (lo + 1) (lo + Z.of_nat k + 1) ++ [m]) as ->.
    { unfold zrange. replace (Z.to_nat (m + 1 - (lo + 1))) with (S k) by (unfold m; lia).
      replace (Z.to_nat (lo + Z.of_nat k + 1 - (lo + 1))) with k by lia.
      rewrite seq_S, fmap_app. unfold m. f_equal. cbn [fmap list_fmap]. f_equal. lia. }
    rewrite foldl_app, Hd. simpl. unfold gcd_step. simpl.
    destruct ((total_padding values m <? total_padding values d)%Z || _) eqn:Hc.
    + exists m. split; [done|]. split; [lia|]. intros x Hx. destruct (decide (x = m)) as [->|]; [right; lia|].
      specialize (Hm x ltac:(lia)). lia.
    + exists d. split; [done|]. split; [lia|]. intros x Hx. destruct (decide (x = m)) as [->|]; [|apply Hm; lia]. lia.
Qed.

Lemma approximate_gcd_spec values lb d :
  approximate_gcd values lb = Ok d ->
  let lo := Z.max 1 (default 1%Z lb) in
  (lo <= d)%Z /\ (forall v, v ∈ values -> 0 < v)%Z /\
  exists hi, pymax values = Ok hi /\
    ((hi < lo)%Z /\ d = lo \/
     (d <= hi)%Z /\ forall x, (lo <= x <= hi)%Z ->
       (total_padding values d < total_padding values x \/
        total_padding values d = total_padding values x /\ x <= d)%Z).
Proof.
  unfold approximate_gcd. destruct values as [|v values]; [done|]. destruct (existsb _ _) eqn:Hp; [done|].
  intros H. set (lo := Z.max 1 (default 1%Z lb)) in *. obind_in H.
  assert (forall w, w ∈ v :: values -> 0 < w)%Z as Hpos.
  { intros w Hw. destruct (Z.leb_spec w 0); [|done]. assert (existsb (fun x => x <=? 0)%Z (v :: values) = true) as E; [|congruence].
    apply existsb_exists. exists w. split; [by apply list_elem_of_In|lia]. }
  destruct (Z.ltb_spec x lo).
  - injection H as <-. split; [lia|]. split; [done|]. exists x. split; [done|]. by left.
  - injection H as <-. destruct (gcd_fold (v :: values) lo x) as (d & Hd & Hr & Hm); [done|]. rewrite Hd. simpl.
    split; [lia|]. split; [done|]. exists x. split; [done|]. right. split; [lia|done].
Qed.

Lemma zip_filter_length {V} (ks : list Z) (vs : list V) k : length ks = length vs ->
  length (filter (fun kv => kv.1 = k) (zip ks vs)) = length (filter (fun q => q = k) ks).
Proof.
  revert vs. induction ks as [|x ks IH]; intros [|v vs] H; simpl in *; [done..|].
  rewrite !filter_cons. simpl. case_decide; simpl; rewrite IH by lia; done.
Qed.

(** Columns of one length *)
Definition columns_of (B : Bucket) (L : nat) : Prop :=
  0 < L /\ bucket_pages B <> [] /\ Forall (fun c => length c = L) (bucket_pages B).*2.

Lemma make_bucket_spec b B : make_bucket b = Ok B ->
  bucket_specs B = b /\ b <> [] /\ (exists g, from_specs b = Ok (Some g)) /\
  exists pages, mapM page_size_bytes b.*2 = Ok pages /\ length pages = length b /\ bucket_pages B = by_key (zip pages b.*1) /\
    balanced B = bool_decide (is_Some (singleton_of (length <$> (bucket_pages B).*2))).
Proof.
  unfold make_bucket, page_size_layers. intros H. repeat obind_in H. injection H as <-. apply oassert_Ok, bool_decide_eq_true in Hx0 as [g ->].
  obind_in Hx1. injection Hx1 as <-. simpl. split; [done|]. split.
  { intros ->. by simpl in Hx. }
  split; [eauto|]. exists x. split; [done|]. split; [|done].
  apply mapM_Ok, Forall2_length in Hx0. by rewrite length_fmap in Hx0.
Qed.

(** What the bucket's page sizes and the names by page size have in common *)
Lemma bucket_pages_spec b B pages :
  make_bucket b = Ok B -> mapM page_size_bytes b.*2 = Ok pages ->
  (forall p, p ∈ pages -> exists vs, (p, vs) ∈ bucket_pages B) /\
  (forall p vs, (p, vs) ∈ bucket_pages B -> length vs = length (filter (fun q => q = p) pages)) /\
  concat (bucket_pages B).*2 ≡ₚ b.*1.
Proof.
  intros H Hp. apply make_bucket_spec in H as (_ & _ & _ & pages' & Hp' & Hl & HB & _). rewrite Hp in Hp'. injection Hp' as <-.
  assert (length pages = length b.*1) as Hl' by by rewrite length_fmap.
  destruct (by_key_spec (zip pages b.*1)) as (H1 & H2 & H3 & H4). rewrite HB. split; [|split].
  - intros p Hin. rewrite fst_zip in H2 by lia. apply H2 in Hin. apply list_elem_of_fmap in Hin as ([p' vs] & -> & Hin). eauto.
  - intros p vs Hin. rewrite (H3 p vs Hin), length_fmap. by apply zip_filter_length.
  - rewrite H4, snd_zip by lia. done.
Qed.

Lemma balanced_columns b B : make_bucket b = Ok B -> balanced B = true ->
  exists L, columns_of B L /\ get_max_layers_per_page_size b = Ok (Z.of_nat L).
Proof.
  intros H Hb. pose proof (make_bucket_spec _ _ H) as (_ & Hne & _ & pages & Hp & Hl & _ & Hbal).
  destruct (bucket_pages_spec _ _ _ H Hp) as (H1 & H2 & _). rewrite Hb in Hbal. symmetry in Hbal.
  apply bool_decide_eq_true in Hbal as [L HL]. pose proof (singleton_dups _ _ HL) as Hall.
  assert (forall c, c ∈ (bucket_pages B).*2 -> length c = L) as Hc by (intros c Hc; by apply Hall, list_elem_of_fmap_2).
  destruct pages as [|p pages]; [by destruct b|].
  unfold get_max_layers_per_page_size. rewrite Hp. simpl.
  destruct (pymax ((fun p0 => zlen (filter (fun q => q = p0) (p :: pages))) <$> p :: pages)) as [m|] eqn:Hm; [|done].
  pose proof Hm as [Hin _]%pymax_spec. apply list_elem_of_fmap in Hin as (p0 & -> & Hp0).
  destruct (H1 _ Hp0) as [vs Hvs]. pose proof (H2 _ _ Hvs) as Hlen.
  assert (length vs = L) as HvL by (apply Hc; by apply (list_elem_of_fmap_2 snd) in Hvs).
  exists L. split; [|change (pymax ((fun p1 => zlen (filter (fun q => q = p1) (p :: pages))) <$> p :: pages) = Ok (Z.of_nat L)); rewrite Hm; unfold zlen; congruence].
  split; [|split; [by destruct (bucket_pages B)|by apply Forall_forall]].
  rewrite <- HvL, Hlen. assert (p0 ∈ filter (fun q => q = p0) (p :: pages)) as Hf by by apply list_elem_of_filter.
  destruct (filter _ _); [set_solver|simpl; lia].
Qed.

Lemma all_ok_true {A} (f : A -> outcome bool) l : all_ok f l = Ok true <-> Forall (fun x => f x = Ok true) l.
Proof.
  induction l as [|x l IH]; simpl; [done|]. rewrite Forall_cons. destruct (f x) as [[|]|]; naive_solver.
Qed.

Lemma from_specs_uniform specs g : from_specs specs = Ok (Some g) -> is_uniform_type specs = Ok true.
Proof. unfold from_specs. intros H. obind_in H. by destruct x. Qed.

(** The layers of a Mamba bucket have one page size. *)
Lemma mamba_pages b n m bs g p :
  from_specs ((n, MambaSpec bs m) :: b) = Ok (Some g) -> page_size_bytes (MambaSpec bs m) = Ok p ->
  Forall (fun s => page_size_bytes s = Ok p) ((n, MambaSpec bs m) :: b).*2.
Proof.
  intros H%from_specs_uniform Hp. unfold is_uniform_type in H. case_decide; [done|]. cbn [pyfirst fmap list_fmap snd] in H.
  obind_in H. injection Hx as <-. unfold is_uniform_with_collection in H. rewrite all_ok_true in H.
  eapply Forall_impl; [exact H|]. intros s Hs. cbv beta in Hs. destruct s as [|bs' m']; [done|]. destruct (_ && _); [|done].
  obinds Hs. rewrite Hp in Hx0. injection Hx0 as <-. destruct (Z.eqb_spec x p) as [->|]; [done|]. done.
Qed.

Lemma one_value {A} (l : list A) x : NoDup l -> l <> [] -> Forall (fun y => y = x) l -> l = [x].
Proof.
  intros Hd Hn Hl. destruct l as [|y [|z l]]; [done|by apply Forall_cons in Hl as [-> _]|]. exfalso.
  apply Forall_cons in Hl as [-> [-> _]%Forall_cons]. apply NoDup_cons in Hd as [Hd _]. set_solver.
Qed.

Lemma mamba_columns b B : make_bucket b = Ok B -> is_mamba_bucket B = true ->
  balanced B = true /\ columns_of B (length b).
Proof.
  intros H Hm. pose proof (make_bucket_spec _ _ H) as (HB & Hne & [g Hg] & pages & Hp & Hl & Hk & Hbal).
  destruct (bucket_pages_spec _ _ _ H Hp) as (H1 & _ & H3). unfold is_mamba_bucket in Hm. rewrite HB in Hm.
  destruct b as [|[n [|bs m]] b]; [done..|]. clear Hm.
  assert (exists p, page_size_bytes (MambaSpec bs m) = Ok p) as [p Hpm].
  { apply mapM_Ok in Hp. apply Forall2_cons_inv_l in Hp as (p & ? & Hp & _). eauto. }
  pose proof (mamba_pages _ _ _ _ _ _ Hg Hpm) as Hall.
  assert (bucket_pages B = [(p, concat (bucket_pages B).*2)]) as HBp.
  { destruct (by_key_spec (zip pages ((n, MambaSpec bs m) :: b).*1)) as (N1 & N2 & _ & _). rewrite <- Hk in N1, N2.
    assert ((bucket_pages B).*1 = [p]) as Hkeys.
    { apply one_value; [done| |].
      - destruct (H1 p) as [vs Hvs]; [|by destruct (bucket_pages B); [set_solver|]].
        apply mapM_Ok in Hp. apply Forall2_cons_inv_l in Hp as (q & ? & Hq & _ & ->). pose proof (eq_trans (eq_sym Hpm) Hq) as [= ->]. left.
      - apply Forall_forall. intros q Hq. apply N2 in Hq. rewrite fst_zip in Hq by (rewrite length_fmap; lia).
        apply mapM_Ok in Hp. rewrite Forall_forall in Hall. apply list_elem_of_lookup in Hq as [i Hi].
        destruct (Forall2_lookup_r _ _ _ _ _ Hp Hi) as (s & Hs & Hsq). rewrite (Hall s) in Hsq; [by injection Hsq|].
        by eapply list_elem_of_lookup_2. }
    destruct (bucket_pages B) as [|[q vs] [|]]; [done| |done]. injection Hkeys as ->. csimpl. by rewrite app_nil_r. }
  assert (length (concat (bucket_pages B).*2) = length ((n, MambaSpec bs m) :: b)) as Hlen by (rewrite H3; by rewrite length_fmap).
  split.
  - rewrite Hbal, HBp. csimpl. unfold singleton_of. done.
  - split; [simpl; lia|]. rewrite HBp. split; [done|]. apply Forall_singleton. exact Hlen.
Qed.

Lemma num_groups_for_range b B repeats n :
  make_bucket b = Ok B -> num_groups_for repeats B = Ok n -> (forall r, repeats = Some r -> 0 < r)%Z ->
  n = 1%Z \/ exists L, columns_of B L /\ (1 <= n <= Z.of_nat L)%Z.
Proof.
  intros H Hn Hr. unfold num_groups_for in Hn. destruct repeats as [r|]; [|injection Hn as <-; by left].
  destruct (balanced B) eqn:Hb; [|injection Hn as <-; by left]. right.
  destruct (balanced_columns _ _ H Hb) as (L & HL & Hmax). obinds Hn.
  apply make_bucket_spec in H as (HB & _). rewrite HB, Hmax in Hx. injection Hx as <-. exists L. split; [done|].
  apply cdiv_range; [destruct HL; lia|by apply Hr].
Qed.

Lemma columns_of_length B L L' : columns_of B L -> columns_of B L' -> L = L'.
Proof.
  intros (_ & H1 & H2) (_ & _ & H3). destruct (bucket_pages B) as [|[p c] ?]; [done|]. csimpl in *.
  apply Forall_cons in H2 as [<- _]. by apply Forall_cons in H3 as [<- _].
Qed.

Lemma bucket_num_groups_range b B repeats anchor n :
  make_bucket b = Ok B -> bucket_num_groups repeats anchor B = Ok n -> (forall r, repeats = Some r -> 0 < r)%Z ->
  n = 1%Z \/ exists L, columns_of B L /\ (1 <= n <= Z.of_nat L)%Z.
Proof.
  intros H Hn Hr. unfold bucket_num_groups in Hn. obind_in Hn. rename x into n0.
  pose proof (num_groups_for_range _ _ _ _ H Hx Hr) as H0.
  destruct (negb _ && is_mamba_bucket B) eqn:Hc; [|by injection Hn as <-].
  apply andb_true_iff in Hc as [_ Hm]. obinds Hn. right. destruct (mamba_columns _ _ H Hm) as [_ HL].
  exists (length b). split; [done|]. apply make_bucket_spec in H as (HB & Hne & _). rewrite HB.
  pose proof (cdiv_range (zlen b) (Z.max (anchor / x0) 1) (zlen_pos b Hne) ltac:(lia)) as Hd. unfold zlen in *.
  destruct H0 as [->|(L' & HL' & HLn)]; [lia|]. rewrite (columns_of_length _ _ _ HL' HL) in HLn. lia.
Qed.

Lemma zip_columns_rows {A} (cols : list (list A)) L :
  cols <> [] -> 0 < L -> Forall (fun c => length c = L) cols -> Forall (fun r => r <> []) (zip_columns cols).
Proof.
  intros Hne HL Hc. destruct cols as [|c cols]; [done|]. pose proof (zip_columns_perm (c :: cols) L Hne Hc) as [_ Hlen].
  apply Forall_cons in Hc as [Hc _]. unfold zip_columns in *. rewrite length_fmap, length_seq in Hlen. rewrite Hlen.
  apply Forall_fmap, Forall_forall. intros i [_ Hi]%elem_of_seq. simpl.
  destruct (lookup_lt_is_Some_2 c i) as [x ->]; [lia|]. done.
Qed.

Lemma concat_not_nil {A} (l : list (list A)) : l <> [] -> Forall (fun r => r <> []) l -> concat l <> [].
Proof. destruct l as [|x l]; [done|]. intros _ [Hx _]%Forall_cons. by destruct x. Qed.

Lemma strided_forall {A} (P : A -> Prop) i n l : Forall P l -> Forall P (strided i n l).
Proof.
  intros H. unfold strided. apply Forall_concat, Forall_forall. intros y (j & x & -> & Hx)%elem_of_lookup_imap.
  case_decide; constructor; [|done]. eapply Forall_lookup_1; eauto.
Qed.

Lemma split_bucket_grouping b B repeats anchor gs :
  make_bucket b = Ok B -> split_bucket repeats anchor B = Ok gs -> (forall r, repeats = Some r -> 0 < r)%Z ->
  grouping b.*1 gs.
Proof.
  intros H Hs Hr. unfold split_bucket in Hs. obind_in Hs. pose proof (make_bucket_spec _ _ H) as (HB & _ & [g Hg] & pages & Hp & _).
  destruct (Z.eqb_spec x 1) as [->|Hne].
  - rewrite HB, Hg in Hs. injection Hs as <-. by apply from_specs_grouping in Hg as [].
  - destruct (bucket_num_groups_range _ _ _ _ _ H Hx Hr) as [|(L & (HL & Hnil & Hcols) & Hn)]; [done|].
    destruct (bucket_pages_spec _ _ _ H Hp) as (_ & _ & Hperm).
    assert ((bucket_pages B).*2 <> []) as Hnil2 by by destruct (bucket_pages B).
    destruct (zip_columns_perm _ _ Hnil2 Hcols) as [Hz HzL]. pose proof (zip_columns_rows _ _ Hnil2 HL Hcols) as Hrow.
    set (rows := zip_columns _) in *.
    eapply grouping_perm.
    { etransitivity; [|exact Hperm]. rewrite <- Hz.
      rewrite <- (concat_perm _ _ (strided_perm (Z.to_nat x) rows ltac:(lia))). rewrite concat_fmap_concat, <- list_fmap_compose. done. }
    apply mapM_Ok_in in Hs. cut (Forall2 (fun i g => grouping (concat (strided i (Z.to_nat x) rows)) [g]) (seq 0 (Z.to_nat x)) gs).
    { clear. generalize (seq 0 (Z.to_nat x)). intros l. induction 1; [by split|]. csimpl. by apply (grouping_app _ _ [_]). }
    eapply Forall2_impl; [exact Hs|]. intros i gi [[_ Hi]%elem_of_seq Hgi]. obind_in Hgi. obind_in Hgi.
    destruct x1 as [g'|]; [|done]. injection Hgi as <-. pose proof (select_specs_names _ _ _ Hx0) as <-.
    by apply from_specs_grouping in Hx1 as [].
Qed.

Lemma add_uniform_spec ns bs bs' : add_uniform ns bs = Ok bs' -> concat bs' ≡ₚ ns :: concat bs.
Proof.
  revert bs'. induction bs as [|b bs IH]; simpl; intros bs' H; [by injection H as <-|]. obind_in H. destruct x; simpl in H.
  - injection H as <-. simpl. solve_Permutation.
  - obinds H. simpl. rewrite (IH _ Hx0). solve_Permutation.
Qed.

Lemma uniform_buckets_spec specs bs bs' : uniform_buckets specs bs = Ok bs' -> concat bs' ≡ₚ specs ++ concat bs.
Proof.
  revert bs. induction specs as [|ns specs IH]; simpl; intros bs H; [by injection H as <-|]. obind_in H.
  rewrite (IH _ H), (add_uniform_spec _ _ _ Hx). solve_Permutation.
Qed.

Lemma repeats_pos bs repeats : repeats_per_group bs = Ok repeats -> forall r, repeats = Some r -> (0 < r)%Z.
Proof.
  unfold repeats_per_group. intros H r ->. obind_in H. destruct (_ =? 0)%Z; [done|]. obinds H.
  apply approximate_gcd_spec in Hx1 as [Hlo _]. lia.
Qed.

Lemma packed_grouping cfg specs gs : get_packed_kv_cache_groups cfg specs = Ok (Some gs) -> grouping specs.*1 gs.
Proof.
  unfold get_packed_kv_cache_groups. intros H. do 2 obind_in H. destruct (_ || _); [done|]. repeat obind_in H. injection H as <-.
  eapply same_layers_grouping; [by eapply annotate_same|].
  apply uniform_buckets_spec in Hx1. simpl in Hx1. rewrite app_nil_r in Hx1.
  eapply grouping_perm; [apply (fmap_Permutation fst), Hx1|]. clear Hx1. pose proof (repeats_pos _ _ Hx3) as Hr.
  assert (forall l, (concat l).*1 = concat ((fun b : Specs => b.*1) <$> l)) as Hc.
  { induction l as [|b l IH]; [done|]. csimpl. by rewrite fmap_app, IH. }
  rewrite Hc. apply grouping_concat. apply mapM_Ok in Hx2, Hx5. clear -Hx2 Hx5 Hr. revert x5 Hx5.
  induction Hx2 as [|b B bs Bs Hb _ IH]; intros gss H; [apply Forall2_nil_inv_l in H as ->; constructor|].
  apply Forall2_cons_inv_l in H as (gs & gss' & Hg & H & ->). constructor; [|by apply IH].
  by eapply split_bucket_grouping.
Qed.

(** ** GLM-5.3-Flash *)

Lemma where_spec_perm P specs : (where_spec P specs).*1 ++ (where_spec (fun s => negb (P s)) specs).*1 ≡ₚ specs.*1.
Proof.
  unfold where_spec, Specs in *. induction specs as [|[n s] specs IH]; [done|]. rewrite !filter_cons. simpl.
  destruct (P s); simpl; rewrite <- IH; solve_Permutation.
Qed.

Lemma draft_grouping cfg draft : grouping draft.*1 (draft_groups_of cfg draft).
Proof.
  unfold draft_groups_of. set (draft' := if _ : bool then _ else _).
  assert (draft'.*1 = draft.*1) as <-.
  { unfold draft'. destruct (_ && _); [|done]. rewrite <- list_fmap_compose. done. }
  rewrite <- (names_by_perm id draft'). pose proof (names_by_forall id draft') as Hf. induction Hf as [|[s names] l [Hn _] _ IH]; [by split|].
  csimpl. apply (grouping_app names _ [_]); [|done]. split; [by csimpl; rewrite app_nil_r|]. by apply Forall_singleton.
Qed.

Lemma tail_grouping idx_page tail gs : tail_groups_of idx_page tail = Ok gs -> grouping tail.*1 gs.
Proof.
  unfold tail_groups_of. destruct tail as [|t tail]; [intros [= <-]; by split|]. intros H. repeat obind_in H. destruct x0 as [g|]; [|done].
  injection H as <-. apply mapM_values in Hx as [<- _]. by apply from_specs_grouping in Hx0 as [].
Qed.

Lemma count_between_le a b l : (0 <= count_between a b l <= zlen l)%Z.
Proof. unfold count_between, zlen. pose proof (length_filter (fun i => a <= i < b)%Z l). lia. Qed.

Lemma pp_count_range cfg mamba mla n :
  pp_balanced_mamba_group_count cfg mamba mla = Ok (Some n) -> mamba <> [] -> mla <> [] -> (1 <= n <= zlen mamba)%Z.
Proof.
  intros H Hm Hl. pose proof (cdiv_range _ _ (zlen_pos _ Hm) (zlen_pos _ Hl)) as H0. unfold pp_balanced_mamba_group_count in H.
  destruct (_ =? 1)%Z; [by injection H as <-|]. obind_in H. obind_in H. apply mapM_Ok, Forall2_length in Hx. apply mapM_Ok, Forall2_length in Hx0.
  assert (forall a b, 0 <= count_between a b x <= zlen mamba)%Z as Hc by (intros; unfold zlen; rewrite Hx; apply count_between_le).
  revert H H0. generalize (cdiv (zlen mamba) (zlen mla)). clear -Hc. induction (zrange _ _) as [|r rs IH]; intros k H Hk; [by injection H as <-|].
  obind_in H. destruct x1 as [a b]. specialize (Hc a b). destruct (Z.eqb_spec (count_between a b x) 0); [by apply (IH _ H)|].
  destruct (Z.eqb_spec (count_between a b x0) 0); [done|]. apply (IH _ H).
  pose proof (count_between_le a b x0). pose proof (cdiv_range (count_between a b x) (count_between a b x0)). lia.
Qed.

Lemma mamba_grouping cfg p mamba mla gs :
  mamba_groups_of cfg p mamba mla = Ok gs -> mla <> [] -> grouping mamba.*1 gs.
Proof.
  unfold mamba_groups_of. intros H Hl. obind_in H. obind_in H. destruct x as [|bs m]; [done|]. destruct (_ <? _)%Z; [done|].
  obind_in H. obind_in H. destruct x1 as [n|]; [|done]. assert (mamba.*1 <> []) as Hm by (by destruct mamba).
  pose proof (pp_count_range _ _ _ _ Hx2 Hm Hl) as Hn. unfold zlen in Hn. rewrite round_robin_strided in H by lia.
  eapply grouping_perm; [apply (strided_perm (Z.to_nat n)); lia|]. eapply create_groups_names; [exact H|].
  apply Forall_fmap, Forall_forall. intros i [_ Hi]%elem_of_seq. apply elem_of_strided; lia.
Qed.

Lemma glm5_grouping cfg specs gs : get_kv_cache_groups_glm5_next cfg specs = Ok (Some gs) -> grouping specs.*1 gs.
Proof.
  unfold get_kv_cache_groups_glm5_next. set (attn_all := where_spec (fun s => negb (is_mamba_spec s || is_tail_spec s)) specs).
  set (attn := where_spec (fun s => negb (is_draft_class s)) attn_all). intros H. destruct (_ && _); [done|]. destruct (_ || _); [done|].
  obind_in H. destruct x as [|p0 ps]; [done|]. repeat obind_in H. destruct x3 as [g|]; [|done]. repeat obind_in H. injection H as <-.
  apply from_specs_grouping in Hx4 as [Ha _]. apply tail_grouping in Hx5. apply mamba_grouping in Hx6.
  2: { intros Hn%fmap_nil_inv. rewrite Hn in Hx2. simpl in Hx2. injection Hx2 as <-. by unfold get_uniform_page_size in Hx3. }
  eapply grouping_perm; [|exact (grouping_app _ _ _ _ Ha (grouping_app _ _ _ _ Hx5 (grouping_app _ _ _ _ Hx6 (draft_grouping cfg (where_spec is_draft_class attn_all)))))].
  rewrite <- (where_spec_perm is_mamba_spec specs), <- (where_spec_perm is_tail_spec (where_spec (fun s => negb (is_mamba_spec s)) specs)).
  assert (where_spec is_tail_spec (where_spec (fun s => negb (is_mamba_spec s)) specs) = where_spec is_tail_spec specs) as ->.
  { unfold where_spec, Specs. rewrite list_filter_filter. apply list_filter_iff. intros [n [bs a c|bs m]]; simpl; naive_solver. }
  assert (where_spec (fun s => negb (is_tail_spec s)) (where_spec (fun s => negb (is_mamba_spec s)) specs) = attn_all) as ->.
  { unfold attn_all, where_spec, Specs. rewrite list_filter_filter. apply list_filter_iff. intros [n s]. simpl. destruct (is_mamba_spec s), (is_tail_spec s); naive_solver. }
  rewrite <- (where_spec_perm is_draft_class attn_all). fold attn. solve_Permutation.
Qed.

(** ** All paths *)

Lemma hidden_singletons (f : string * LayerSpec -> GroupSpec) hidden :
  (forall ns, match f ns with LayerKVCacheSpec _ => True | _ => False end) ->
  grouping hidden.*1 ((fun ns => new_group [ns.1] (f ns)) <$> hidden).
Proof.
  intros Hf. induction hidden as [|ns hidden IH]; [by split|]. csimpl. apply (grouping_app [ns.1] _ [_]); [|done].
  split; [done|]. apply Forall_singleton. split; [done|]. simpl. specialize (Hf ns). by destruct (f ns).
Qed.

Lemma add_hidden_grouping names hidden gs gs' :
  add_hidden_groups hidden gs = Ok gs' -> grouping names gs -> grouping (names ++ hidden.*1) gs'.
Proof.
  unfold add_hidden_groups. destruct hidden as [|h hidden]; [intros [= <-]; by rewrite app_nil_r|]. intros H Hg. repeat obind_in H.
  injection H as <-. apply grouping_app; [done|]. apply mapM_Ok in Hx1. clear -Hx1.
  induction Hx1 as [|ns g hs gs1 Hn _ IH]; [by split|]. cbv beta in Hn. obinds Hn. csimpl. apply (grouping_app [ns.1] _ [_]); [|done].
  split; [done|]. by apply Forall_singleton.
Qed.

Lemma hybrid_grouping cfg specs gs : get_hybrid_groups cfg specs = Ok gs -> grouping specs.*1 gs.
Proof.
  unfold get_hybrid_groups. intros H. obind_in H. rewrite <- (where_spec_perm is_hidden_spec specs).
  set (hidden := where_spec is_hidden_spec specs) in *. set (filtered := where_spec _ specs) in *.
  assert (forall r, match unify_kv_cache_spec_page_size filtered with
          | Raise NotImplementedError => fb ← try_get_full_allocation_fallback_groups specs;
              match fb with Some gs => Ok gs | None => Raise NotImplementedError end
          | Raise e => Raise e
          | Ok unified => gs ← get_kv_cache_groups_uniform_page_size unified; gs' ← add_hidden_groups hidden gs;
              annotate_eagle_groups cfg specs gs' false end = Ok r -> grouping (hidden.*1 ++ filtered.*1) r) as Hu.
  { clear H. intros r H. destruct (unify_kv_cache_spec_page_size filtered) as [un|e] eqn:Hun.
    - repeat obind_in H. eapply same_layers_grouping; [by eapply annotate_same|]. rewrite Permutation_app_comm.
      eapply add_hidden_grouping; [exact Hx1|]. rewrite <- (unify_names _ _ Hun). by apply uniform_page_size_grouping.
    - destruct e; try done. obind_in H. destruct x0 as [fb|]; [|done]. injection H as <-.
      unfold hidden, filtered. rewrite (where_spec_perm is_hidden_spec specs). by apply fallback_grouping. }
  destruct x as [[|g gs0]|]; [by apply Hu| |by apply Hu]. injection H as <-. rewrite Permutation_app_comm.
  apply (grouping_app _ _ (g :: gs0)); [by eapply packed_grouping|]. by apply hidden_singletons.
Qed.

Lemma get_kv_cache_groups_grouping cfg specs gs : get_kv_cache_groups cfg specs = Ok gs -> grouping specs.*1 gs.
Proof.
  unfold get_kv_cache_groups. intros H. obind_in H.
  assert (x.*1 = specs.*1) as <-.
  { destruct (disable_hybrid_kv_cache_manager cfg); [by apply unify_hybrid_names|by injection Hx as ->]. }
  clear Hx. destruct x as [|ns x]; [injection H as <-; by split|]. set (sp := ns :: x) in *. obind_in H. destruct x0; simpl in H.
  - eapply grouping_perm; [|eapply create_groups_names; [exact H|by apply Forall_singleton]]. csimpl. by rewrite app_nil_r.
  - obind_in H. destruct x0 as [g|]; [injection H as <-; by apply uniform_type_groups|]. obind_in H.
    destruct x0 as [[|g gs0]|]; [by eapply hybrid_grouping| |by eapply hybrid_grouping]. injection H as <-.
    by eapply glm5_grouping.
Qed.
