(* ===== verification/KVGroupsTotal.v ===== *)
(** Grouping never fails for models of full, sliding-window and chunked attention and Mamba
    layers without explicit page padding, and then it partitions the layers. *)
From S2P Require Import Prelude KVBlock FreeQueue Request BlockHash BlockPool BlockPoolInv BlockPoolSpec BlockPoolCache CacheHit KVSpec KVGroups KVPlan KVModels KVGroupsThms.

(** ** Plain layers *)








(** ** Merging: the specs must agree up to [non_causal] *)











(** ** Layers of one type: their keys agree *)

Inductive UKey :=
  | UFull | UWindow (w : Z) | UChunk (n : Z)
  | UMamba (spec_blocks checkpoint_blocks : Z) (align : option Z) (page : Z) (replicated : bool) | UOther.
#[export] Instance UKey_eq_dec : EqDecision UKey.
Proof. solve_decision. Defined.












(** ** One page size *)




(** ** Groups of equal size *)









(** ** Packing *)


















(** ** The other paths *)







(** ** Grouping is total and a partition *)


