(* ===== verification/KVLayout.v ===== *)
(** Where the pages of the layers lie: no byte of a block belongs to another block, whichever
    groups they are in, and within a group no byte belongs to two cells. *)
From S2P Require Import Prelude KVBlock FreeQueue Request BlockHash BlockPool BlockPoolInv BlockPoolSpec BlockPoolCache CacheHit KVSpec KVGroups KVPlan KVGroupsThms.

Local Open Scope Z_scope.

(** ** Mixed radix *)

(** Axes as (stride, bound), outermost first; each stride covers the axis inside it. *)
Definition span (l : list (Z * Z)) : Z := match l with [] => 1 | (s, n) :: _ => s * n end.
Fixpoint nested (l : list (Z * Z)) : Prop :=
  match l with [] => True | (s, n) :: l' => span l' <= s /\ nested l' end.
Fixpoint position (l : list (Z * Z)) (idx : list Z) : Z :=
  match l, idx with (s, _) :: l', i :: idx' => i * s + position l' idx' | _, _ => 0 end.
Definition in_bounds (l : list (Z * Z)) (idx : list Z) : Prop := Forall2 (fun sn i => 0 <= i < sn.2) l idx.

Lemma position_bound l idx : nested l -> in_bounds l idx -> 0 <= position l idx < span l.
Proof.
  intros Hn Hb. induction Hb as [|[s n] i l idx Hi _ IH]; simpl in *; [lia|]. destruct Hn as [Hs Hn]. specialize (IH Hn). nia.
Qed.

Lemma position_inj l i j : nested l -> in_bounds l i -> in_bounds l j -> position l i = position l j -> i = j.
Proof.
  intros Hn Hi. revert j. induction Hi as [|[s n] x l i Hx Hi IH]; intros j Hj He.
  - by apply Forall2_nil_inv_l in Hj as ->.
  - apply Forall2_cons_inv_l in Hj as (y & j' & Hy & Hj & ->). simpl in *. destruct Hn as [Hs Hn].
    pose proof (position_bound _ _ Hn Hi). pose proof (position_bound _ _ Hn Hj).
    assert (x = y) as -> by nia. f_equal. apply IH; [done..|lia].
Qed.

(** ** Strides *)

(** A spec whose page is its heads, states and bytes *)
Definition shaped (s : LayerSpec) : Prop := unpadded_of s = layer_num_heads s * layer_num_states s * layer_content_bytes s.

Lemma attention_shaped bs a c : shaped (AttentionSpec bs a c).
Proof. unfold shaped. simpl. unfold unpadded_page_size_bytes. lia. Qed.

Lemma page_cases s p : page_size_bytes s = Ok p ->
  (spec_padded s = None /\ p = unpadded_of s) \/ (spec_padded s = Some p /\ unpadded_of s <= p).
Proof.
  destruct s as [bs a c|bs m]; simpl; unfold padded_page.
  - destruct (page_size_padded a) as [q|]; [|intros [= <-]; by left]. intros H. obinds H. apply oassert_Ok in Hx. right. split; [done|lia].
  - destruct (mamba_page_size_padded m) as [q|]; [|intros [= <-]; by left]. intros H. obinds H. apply oassert_Ok in Hx. right. split; [done|lia].
Qed.

(** The byte strides [L, B, H, N, C] of every layout *)
Definition layout_strides (layout : KVCacheLayout) (h n c page num_blocks num_layers block : Z) : list Z :=
  match layout with
  | LBHNC => [page * num_blocks; page; n * c; c; 1]
  | LBNHC => [page * num_blocks; page; c; h * c; 1]
  | LHBNC => [page * num_blocks; page / h; page / h * num_blocks; c; 1]
  | BLHNC => [page; block; n * c; c; 1]
  | BLNHC => [page; block; c; h * c; 1]
  | BHLNC => [page / h; block; page / h * num_layers; c; 1]
  end.

(** The two calls of [compute_layout_strides]: the planner fixes the block stride of
    block-outermost layouts, the worker fixes the strides of the planned tensor. *)
Definition fixed_strides (layout : KVCacheLayout) (block : Z) (e : list Z) (fixed : list (option Z)) : Prop :=
  fixed = [None; (if is_block_outermost layout then Some block else None); None; None; None] \/
  fixed = [Some (axis e 0); Some (axis e 1); None; None; None].

Ltac strides_step H p :=
  repeat match type of H with
  | context [Z.max ?x p] => replace (Z.max x p) with p in H by nia
  | context [(p mod p)%Z] => rewrite (Z.mod_same p) in H by lia; cbn [Z.eqb] in H
  | context [(?f =? 0)%Z] => destruct (Z.eqb_spec f 0); [exfalso; nia|]
  end.

Ltac list_nia := repeat lazymatch goal with |- _ :: _ = _ :: _ => apply (f_equal2 cons) end; [nia..|reflexivity].

Lemma strides_unpadded layout s nb nl block fixed p st :
  compute_layout_strides s nb nl layout fixed = Ok st -> spec_padded s = None ->
  p = layer_num_heads s * layer_num_states s * layer_content_bytes s ->
  0 < nb -> 0 < nl -> 0 < layer_num_heads s -> 0 < layer_num_states s -> 0 < layer_content_bytes s -> 0 < block ->
  let e := layout_strides layout (layer_num_heads s) (layer_num_states s) (layer_content_bytes s) p nb nl block in
  fixed_strides layout block e fixed -> st = e.
Proof.
  intros H Hpad Hp Hnb Hnl Hh Hn Hc Hb e Hf. unfold compute_layout_strides in H. obind_in H. clear Hx x. obind_in H. clear Hx x.
  rewrite Hpad in H. unfold layout_shape in H. subst e.
  set (h := layer_num_heads s) in *. set (n := layer_num_states s) in *. set (c := layer_content_bytes s) in *. clearbody h n c.
  assert (p / h = n * c) as Hdiv by (subst p; rewrite <- Z.mul_assoc, Z.mul_comm; apply Z.div_mul; lia).
  destruct Hf as [->| ->]; destruct layout; cbn -[Z.mul Z.div] in H; rewrite ?Hdiv in H; unfold axis in H; cbn -[Z.mul Z.div] in H;
    strides_step H p; injection H as <-; unfold layout_strides; rewrite ?Hdiv; list_nia.
Qed.

Lemma strides_padded layout s nb nl block fixed p st :
  compute_layout_strides s nb nl layout fixed = Ok st -> spec_padded s = Some p ->
  layer_num_heads s * layer_num_states s * layer_content_bytes s <= p ->
  0 < nb -> 0 < nl -> 0 < layer_num_heads s -> 0 < layer_num_states s -> 0 < layer_content_bytes s -> 0 < block ->
  let e := layout_strides layout (layer_num_heads s) (layer_num_states s) (layer_content_bytes s) p nb nl block in
  fixed_strides layout block e fixed ->
  st = e /\ (is_block_compact layout = true \/ layer_num_heads s = 1).
Proof.
  intros H Hpad Hp Hnb Hnl Hh Hn Hc Hb e Hf. unfold compute_layout_strides in H. obind_in H. clear Hx x. obind_in H.
  rewrite Hpad in H, Hx. unfold layout_shape in H, Hx. subst e. apply oassert_Ok in Hx.
  set (h := layer_num_heads s) in *. set (n := layer_num_states s) in *. set (c := layer_content_bytes s) in *. clearbody h n c.
  assert (0 < p) as Hpos by nia.
  assert (is_block_compact layout = true \/ h = 1) as Hcompact.
  { destruct layout; try (by left); right; unfold prod_list, axis in Hx; simpl in Hx; apply Z.eqb_eq in Hx; apply (Z.mul_cancel_l _ _ (nl * nb)); nia. }
  split; [|done]. clear Hx. destruct Hf as [->| ->]; destruct layout; simpl in H; unfold axis in H; simpl in H; (destruct Hcompact as [Hk|Hk]; [try discriminate Hk|subst h; rewrite ?Z.div_1_r in H]);
    strides_step H p; simpl in H; strides_step H p; injection H as <-; unfold layout_strides; rewrite ?Z.div_1_r; list_nia.
Qed.

(** The bytes from one block of a head to the next, where heads lie outside blocks *)
Definition head_unit (s : LayerSpec) (page : Z) : Z := page / layer_num_heads s.

Lemma strides_eq layout s nb nl block fixed p st :
  compute_layout_strides s nb nl layout fixed = Ok st -> page_size_bytes s = Ok p -> shaped s ->
  0 < nb -> 0 < nl -> 0 < layer_num_heads s -> 0 < layer_num_states s -> 0 < layer_content_bytes s -> 0 < block ->
  let e := layout_strides layout (layer_num_heads s) (layer_num_states s) (layer_content_bytes s) p nb nl block in
  fixed_strides layout block e fixed ->
  st = e /\ layer_num_heads s * layer_num_states s * layer_content_bytes s <= p /\
  (is_block_compact layout = true \/ layer_num_heads s * head_unit s p = p) /\
  (spec_padded s = None \/ is_block_compact layout = true \/ layer_num_heads s = 1).
Proof.
  intros H Hp Hs Hnb Hnl Hh Hn Hc Hb e Hf. unfold shaped in Hs. destruct (page_cases _ _ Hp) as [[Hpad Hu]|[Hpad Hle]].
  - rewrite Hs in Hu. split; [by eapply strides_unpadded|]. split; [lia|]. split; [right|by left].
    unfold head_unit. rewrite Hu, <- Z.mul_assoc at 1. rewrite (Z.mul_comm _ (_ * _)), Z.div_mul by lia. lia.
  - rewrite Hs in Hle. destruct (strides_padded _ _ _ _ _ _ _ _ H Hpad Hle Hnb Hnl Hh Hn Hc Hb Hf) as [H1 H2]. split; [done|]. split; [lia|].
    split; [|by right]. destruct H2 as [H2|H2]; [by left|right]. unfold head_unit. rewrite H2, Z.div_1_r. lia.
Qed.

(** ** Cells *)

(** A byte of a planned tensor: layer, block, head, state and byte *)
Record CellIndex := { ci_layer : Z; ci_block : Z; ci_head : Z; ci_state : Z; ci_byte : Z }.

Definition index_list (i : CellIndex) : list Z := [ci_layer i; ci_block i; ci_head i; ci_state i; ci_byte i].

Definition index_ok (s : LayerSpec) (nb nl : Z) (i : CellIndex) : Prop := Forall2 (fun n x => 0 <= x < n) (layout_shape s nb nl) (index_list i).

(** [sum(index * stride)] *)
Definition cell_offset (strides : list Z) (i : CellIndex) : Z :=
  ci_layer i * axis strides 0 + ci_block i * axis strides 1 + ci_head i * axis strides 2 + ci_state i * axis strides 3 +
  ci_byte i * axis strides 4.

(** The axes in physical order *)
Definition physical_axes (layout : KVCacheLayout) (strides shape : list Z) : list (Z * Z) :=
  (fun d => (axis strides d, axis shape d)) <$> stride_order layout.
Definition physical_index (layout : KVCacheLayout) (i : CellIndex) : list Z := axis (index_list i) <$> stride_order layout.

Lemma physical_index_inj layout i j : physical_index layout i = physical_index layout j -> i = j.
Proof. destruct i, j, layout; unfold physical_index, axis; simpl; intros [= -> -> -> -> ->]; done. Qed.

Lemma position_cell layout strides shape i :
  position (physical_axes layout strides shape) (physical_index layout i) = cell_offset strides i.
Proof. destruct layout; unfold physical_index, physical_axes, cell_offset; simpl; unfold axis; simpl; lia. Qed.

Lemma index_ok_inv s nb nl i : index_ok s nb nl i ->
  0 <= ci_layer i < nl /\ 0 <= ci_block i < nb /\ 0 <= ci_head i < layer_num_heads s /\
  0 <= ci_state i < layer_num_states s /\ 0 <= ci_byte i < layer_content_bytes s.
Proof.
  unfold index_ok, layout_shape, index_list. intros H.
  repeat (apply Forall2_cons_1 in H as [? H]). done.
Qed.

Lemma physical_bounds layout strides s nb nl i : index_ok s nb nl i ->
  in_bounds (physical_axes layout strides (layout_shape s nb nl)) (physical_index layout i).
Proof.
  intros (H1 & H2 & H3 & H4 & H5)%index_ok_inv. unfold in_bounds, physical_axes, physical_index, axis, layout_shape, index_list.
  destruct layout; simpl; repeat constructor; simpl; lia.
Qed.

(** What is known of a placed spec: its page holds its cells. *)
Record part_ok (layout : KVCacheLayout) (s : LayerSpec) (p nb nl block : Z) : Prop := {
  po_fits : layer_num_heads s * layer_num_states s * layer_content_bytes s <= p;
  po_unit : is_block_compact layout = true \/ layer_num_heads s * head_unit s p = p;
  po_block : is_block_outermost layout = true -> p * nl <= block;
  po_pos : 0 < nb /\ 0 < nl /\ 0 < layer_num_heads s /\ 0 < layer_num_states s /\ 0 < layer_content_bytes s;
}.

Definition strides_of (layout : KVCacheLayout) (s : LayerSpec) (p nb nl block : Z) : list Z :=
  layout_strides layout (layer_num_heads s) (layer_num_states s) (layer_content_bytes s) p nb nl block.

Lemma axes_nested layout s p nb nl block : part_ok layout s p nb nl block ->
  nested (physical_axes layout (strides_of layout s p nb nl block) (layout_shape s nb nl)).
Proof.
  intros [H1 H2 H3 (H4 & H5 & H6 & H7 & H8)]. unfold physical_axes, strides_of, layout_shape, head_unit in *.
  set (h := layer_num_heads s) in *. set (n := layer_num_states s) in *. set (c := layer_content_bytes s) in *. clearbody h n c.
  destruct layout; simpl in *; unfold axis; simpl; try specialize (H3 eq_refl).
  1, 2, 4, 5: repeat split; nia.
  all: destruct H2 as [H2|H2]; [done|]; assert (n * c <= p / h) by nia; repeat split; nia.
Qed.

(** Within one tensor, a byte belongs to one cell. *)
Lemma cell_inj layout s p nb nl block i j : part_ok layout s p nb nl block -> index_ok s nb nl i -> index_ok s nb nl j ->
  cell_offset (strides_of layout s p nb nl block) i = cell_offset (strides_of layout s p nb nl block) j -> i = j.
Proof.
  intros Hp Hi Hj He. apply (physical_index_inj layout). eapply position_inj; [by apply axes_nested|by apply physical_bounds..|].
  by rewrite !(position_cell layout _ (layout_shape s nb nl)).
Qed.

(** Block-outermost: the cells of a block lie in its [page * num_layers] bytes. *)
Lemma cell_in_block layout s p nb nl block i : is_block_outermost layout = true ->
  part_ok layout s p nb nl block -> index_ok s nb nl i ->
  exists x, cell_offset (strides_of layout s p nb nl block) i = ci_block i * block + x /\ 0 <= x < p * nl.
Proof.
  intros Hl Hp (H1 & H2 & H3 & H4 & H5)%index_ok_inv. pose proof (axes_nested _ _ _ _ _ _ Hp) as Hn.
  assert (in_bounds (drop 1 (physical_axes layout (strides_of layout s p nb nl block) (layout_shape s nb nl))) (drop 1 (physical_index layout i))) as Hb.
  { unfold in_bounds, physical_axes, physical_index, axis, layout_shape, index_list. destruct layout; simpl; try done; repeat constructor; simpl; lia. }
  destruct (physical_axes layout (strides_of layout s p nb nl block) (layout_shape s nb nl)) as [|[st bd] ax] eqn:Ea; [by destruct layout|].
  destruct Hn as [_ Hn]. simpl in Hb. pose proof (position_bound _ _ Hn Hb) as Hpos.
  exists (position ax (drop 1 (physical_index layout i))).
  destruct Hp as [Hf Hu _ (P1 & P2 & P3 & P4 & P5)]. unfold physical_axes, strides_of, layout_shape, head_unit in *.
  set (h := layer_num_heads s) in *. set (n := layer_num_states s) in *. set (c := layer_content_bytes s) in *. clearbody h n c.
  destruct layout; try done; simpl in *; unfold axis in *; simpl in *; injection Ea as <- <- <-; simpl in *;
    unfold cell_offset, axis; simpl; (split; [lia|]); [lia..|].
  destruct Hu as [Hu|Hu]; [done|]. nia.
Qed.

Lemma radix3 a b d h n c : 0 <= a < h -> 0 <= b < n -> 0 <= d < c -> 0 <= a * (n * c) + b * c + d < h * n * c.
Proof.
  intros Ha Hb Hd. assert (0 <= b * c + d < n * c) by nia. replace (h * n * c) with (h * (n * c)) by ring. nia.
Qed.

(** Layer-outermost: blocks repeat at a fixed distance within each layer (and head). *)
Definition block_unit (layout : KVCacheLayout) (s : LayerSpec) (p : Z) : Z :=
  match layout with LHBNC => head_unit s p | _ => p end.

Lemma cell_in_layer layout s p nb nl block i : is_block_outermost layout = false ->
  part_ok layout s p nb nl block -> index_ok s nb nl i ->
  let u := block_unit layout s p in
  exists a y, cell_offset (strides_of layout s p nb nl block) i = (a * nb + ci_block i) * u + y /\ 0 <= y < u /\
    0 <= cell_offset (strides_of layout s p nb nl block) i < p * nl * nb.
Proof.
  intros Hl Hp Hi u. pose proof (position_bound _ _ (axes_nested _ _ _ _ _ _ Hp) (physical_bounds layout _ _ _ _ _ Hi)) as Hb.
  rewrite position_cell in Hb. apply index_ok_inv in Hi as (H1 & H2 & H3 & H4 & H5).
  destruct Hp as [Hf Hu _ (P1 & P2 & P3 & P4 & P5)]. unfold u, block_unit, physical_axes, strides_of, layout_shape, head_unit, cell_offset in *.
  set (h := layer_num_heads s) in *. set (n := layer_num_states s) in *. set (c := layer_content_bytes s) in *. clearbody h n c.
  destruct layout; try done; unfold axis in *; simpl in *.
  - pose proof (radix3 _ _ _ _ _ _ H3 H4 H5). exists (ci_layer i), (ci_head i * (n * c) + ci_state i * c + ci_byte i).
    repeat split; [lia..|nia].
  - pose proof (radix3 _ _ _ _ _ _ H4 H3 H5). exists (ci_layer i), (ci_head i * c + ci_state i * (h * c) + ci_byte i).
    repeat split; [lia..|nia].
  - destruct Hu as [Hu|Hu]; [done|]. assert (n * c <= p / h) by nia.
    exists (ci_layer i * h + ci_head i), (ci_state i * c + ci_byte i). repeat split; [|nia|nia|lia|nia].
    rewrite <- Hu at 1. ring.
Qed.

(** ** Placing the specs of a group *)

(** Cells of positive extent that fill the page *)
Definition placeable (s : LayerSpec) : Prop :=
  shaped s /\ 0 < layer_num_heads s /\ 0 < layer_num_states s /\ 0 < layer_content_bytes s.

Lemma placeable_page s p : placeable s -> page_size_bytes s = Ok p -> 0 < p.
Proof. intros (Hs & Hh & Hn & Hc) Hp. unfold shaped in Hs. destruct (page_cases _ _ Hp) as [[_ ->]|[_ ?]]; nia. Qed.

(** The tensor of spec [s] for [names], [o] page bytes into its group *)
Record placed_at (layout : KVCacheLayout) (bpb nb o p : Z) (s : LayerSpec) (names : list string) (t : KVCacheTensor) : Prop := {
  pa_page : page_size_bytes s = Ok p;
  pa_placeable : placeable s;
  pa_pad : spec_padded s = None \/ is_block_compact layout = true \/ layer_num_heads s = 1;
  pa_block : 0 < bpb;
  pa_ok : part_ok layout s p nb (zlen names) bpb;
  pa_layers : tensor_layers t = names;
  pa_size : tensor_size t = bpb * nb;
  pa_layer_stride : layer_stride t = axis (strides_of layout s p nb (zlen names) bpb) 0;
  pa_block_stride : block_stride t = axis (strides_of layout s p nb (zlen names) bpb) 1;
  pa_offset : tensor_offset t = if is_block_outermost layout then o else o * nb;
  pa_num_blocks : tensor_num_blocks t = None;
}.

(** The tensors of a group's specs, one after the other *)
Inductive placed (layout : KVCacheLayout) (bpb nb : Z) : Z -> list (LayerSpec * list string) -> list KVCacheTensor -> Prop :=
  | placed_nil o : placed layout bpb nb o [] []
  | placed_cons o p s names t parts ts :
      placed_at layout bpb nb o p s names t -> placed layout bpb nb (o + zlen names * p) parts ts ->
      placed layout bpb nb o ((s, names) :: parts) (t :: ts).

Definition part_bytes (part : LayerSpec * list string) : Z :=
  zlen part.2 * match page_size_bytes part.1 with Ok p => p | Raise _ => 0 end.

Lemma placed_offset layout p h n c nb nl block o :
  0 < p -> 0 < nb -> 0 < h -> 0 <= o -> (is_block_compact layout = true \/ h * (p / h) = p) ->
  o * Z.max (axis (layout_strides layout h n c p nb nl block) 0) p / p = if is_block_outermost layout then o else o * nb.
Proof.
  intros Hp Hnb Hh Ho Hu. assert (p / h <= p) by (apply Z.div_le_upper_bound; nia).
  destruct layout; unfold axis; simpl; try (rewrite Z.max_l by nia; rewrite (Z.mul_comm p nb), Z.mul_assoc, Z.div_mul by lia; done);
    (rewrite Z.max_r by lia; by rewrite Z.div_mul by lia).
Qed.

Lemma parts_nonneg parts : Forall (fun sn : LayerSpec * list string => placeable sn.1 /\ sn.2 <> []) parts ->
  0 <= sum_list (part_bytes <$> parts).
Proof.
  induction 1 as [|[s names] parts [Hs _] _ IH]; csimpl; [lia|]. unfold part_bytes at 1. simpl in *.
  destruct (page_size_bytes s) as [p|] eqn:Hp; [pose proof (placeable_page _ _ Hs Hp)|]; unfold zlen; nia.
Qed.

Lemma place_specs_placed layout bpb nb size parts o ts :
  place_specs layout bpb nb size parts o = Ok ts -> Forall (fun sn => placeable sn.1 /\ sn.2 <> []) parts ->
  0 < nb -> 0 < bpb -> 0 <= o -> size = bpb * nb -> o + sum_list (part_bytes <$> parts) <= bpb ->
  placed layout bpb nb o parts ts.
Proof.
  intros H Hw Hnb Hbpb Ho ->. revert o ts H Ho. induction Hw as [|[s names] parts [Hs Hne] Hw IH]; intros o ts H Ho Htot; simpl in H.
  - injection H as <-. constructor.
  - obind_in H. obind_in H. rename x0 into p. obind_in H. injection H as <-. simpl in Hs, Hne. pose proof (placeable_page _ _ Hs Hx0) as Hp.
    pose proof (zlen_pos _ Hne) as Hlen. csimpl in Htot. unfold part_bytes at 1 in Htot. cbn [fst snd] in Htot. rewrite Hx0 in Htot.
    pose proof (parts_nonneg _ Hw) as Hrest. pose proof Hs as (Hsh & Hh & Hn & Hc).
    destruct (strides_eq layout s nb (zlen names) bpb _ p x Hx Hx0 Hsh Hnb Hlen Hh Hn Hc Hbpb ltac:(by left)) as (He & Hfit & Hu & Hpd).
    apply (placed_cons _ _ _ o p); [|apply IH; [exact Hx1|nia|lia]]. subst x. split; simpl; try done.
    + split; try done. intros _. nia.
    + by apply placed_offset.
Qed.

Lemma view_strides_total layout s nb nl a b p :
  page_size_bytes s = Ok p -> shaped s -> 0 < nb -> 0 < nl -> 0 < layer_num_heads s -> 0 < layer_num_states s -> 0 < layer_content_bytes s ->
  0 < a -> 0 < b -> (layout = LHBNC -> b = head_unit s p) -> (layout = BHLNC -> a = head_unit s p) ->
  (spec_padded s = None \/ is_block_compact layout = true \/ layer_num_heads s = 1) ->
  exists st, compute_layout_strides s nb nl layout [Some a; Some b; None; None; None] = Ok st.
Proof.
  intros Hp Hs Hnb Hnl Hh Hn Hc Ha Hb HbL HaL Hpad. unfold compute_layout_strides.
  assert (forallb (fun f => match f with Some z => (0 <? z)%Z | None => true end) [Some a; Some b; None; None; None] = true) as ->.
  { simpl. rewrite !andb_true_iff. lia. }
  unfold layout_shape, shaped, head_unit in *. cbn [oassert mbind outcome_bind].
  destruct (page_cases _ _ Hp) as [[E Hu]|[E Hle]]; rewrite E in *; [destruct layout; simpl; eauto|]. rewrite Hs in Hle.
  set (h := layer_num_heads s) in *. set (n := layer_num_states s) in *. set (c := layer_content_bytes s) in *. clearbody h n c.
  destruct Hpad as [|Hpad]; [done|]. assert (0 < p) by nia.
  assert (forall x y, 0 <= x <= p -> y = p -> (Z.max x y mod p =? 0)%Z = true) as Hmod.
  { intros x y Hx ->. rewrite Z.max_r, Z.mod_same by lia. done. }
  destruct layout; unfold prod_list; simpl; unfold axis; simpl; destruct Hpad as [Hpad|Hpad]; try done; try subst h; rewrite ?Z.div_1_r in *.
  all: rewrite ?Hmod by nia; simpl; match goal with |- context [oassert (?x =? ?y)%Z] => replace (x =? y)%Z with true by lia end; simpl; eauto.
Qed.

Lemma view_strides_placed layout bpb nb o p s names t : placed_at layout bpb nb o p s names t ->
  view_strides layout nb s t = Ok (strides_of layout s p nb (zlen names) bpb).
Proof.
  intros [Hp (Hsh & Hh & Hn & Hc) Hpd Hb Hok Hl _ Hls Hbs _ _]. unfold view_strides. rewrite Hl, Hls, Hbs.
  destruct Hok as [Hf Hu _ (P1 & P2 & _)]. pose proof (placeable_page s p ltac:(by repeat split) Hp) as Hpos.
  set (e := strides_of layout s p nb (zlen names) bpb).
  assert (is_block_compact layout = true \/ 0 < p / layer_num_heads s) as Hunit.
  { destruct Hu as [Hu|Hu]; [by left|right]. unfold head_unit in Hu. nia. }
  destruct (view_strides_total layout s nb (zlen names) (axis e 0) (axis e 1) p) as [st Hst]; try done.
  1, 2: unfold e, strides_of, axis; destruct layout; simpl in *; destruct Hunit; try done; nia.
  1, 2: by intros ->.
  rewrite Hst. f_equal. by eapply (strides_eq layout s nb (zlen names) bpb _ p st Hst Hp Hsh); [done..|right].
Qed.

(** ** Regions *)

Definition cell_address (t : KVCacheTensor) (strides : list Z) (i : CellIndex) : Z := tensor_offset t + cell_offset strides i.

Lemma region_block layout bpb nb o p s names t i : is_block_outermost layout = true ->
  placed_at layout bpb nb o p s names t -> index_ok s nb (zlen names) i ->
  exists y, cell_address t (strides_of layout s p nb (zlen names) bpb) i = ci_block i * bpb + y /\ o <= y < o + zlen names * p.
Proof.
  intros Hl Ht Hi. destruct (cell_in_block _ _ _ _ _ _ _ Hl (pa_ok _ _ _ _ _ _ _ _ Ht) Hi) as (x & Hx & Hr).
  exists (o + x). unfold cell_address. rewrite Hx, (pa_offset _ _ _ _ _ _ _ _ Ht), Hl. lia.
Qed.

Lemma region_layer layout bpb nb o p s names t i : is_block_outermost layout = false ->
  placed_at layout bpb nb o p s names t -> index_ok s nb (zlen names) i ->
  let addr := cell_address t (strides_of layout s p nb (zlen names) bpb) i in
  o * nb <= addr < (o + zlen names * p) * nb /\
  exists a y, addr = o * nb + (a * nb + ci_block i) * block_unit layout s p + y /\ 0 <= y < block_unit layout s p.
Proof.
  intros Hl Ht Hi addr. destruct (cell_in_layer _ _ _ _ _ _ _ Hl (pa_ok _ _ _ _ _ _ _ _ Ht) Hi) as (a & y & Hx & Hy & Hr).
  unfold addr, cell_address. rewrite (pa_offset _ _ _ _ _ _ _ _ Ht), Hl. split; [lia|]. exists a, y. rewrite Hx. split; [lia|done].
Qed.

Lemma placed_page layout bpb nb o p s names t : placed_at layout bpb nb o p s names t -> 0 < p /\ 0 < nb /\ 0 < zlen names.
Proof.
  intros H. split; [eapply placeable_page; [apply (pa_placeable _ _ _ _ _ _ _ _ H)|apply (pa_page _ _ _ _ _ _ _ _ H)]|].
  destruct (po_pos _ _ _ _ _ _ (pa_ok _ _ _ _ _ _ _ _ H)) as (? & ? & _). done.
Qed.

Lemma part_bytes_placed layout bpb nb o p s names t : placed_at layout bpb nb o p s names t -> part_bytes (s, names) = zlen names * p.
Proof. intros H. unfold part_bytes. simpl. by rewrite (pa_page _ _ _ _ _ _ _ _ H). Qed.

Lemma placed_sum_nonneg layout bpb nb o parts ts : placed layout bpb nb o parts ts -> 0 <= sum_list (part_bytes <$> parts).
Proof.
  induction 1 as [|o p s names t parts ts Ht _ IH]; csimpl; [lia|]. rewrite (part_bytes_placed _ _ _ _ _ _ _ _ Ht).
  destruct (placed_page _ _ _ _ _ _ _ _ Ht) as (? & ? & ?). nia.
Qed.

(** Every tensor has its place between the start and the end of the group. *)
Lemma placed_lookup layout bpb nb o parts ts k t : placed layout bpb nb o parts ts -> ts !! k = Some t ->
  exists o' p s names, parts !! k = Some (s, names) /\ placed_at layout bpb nb o' p s names t /\
    o <= o' /\ o' + zlen names * p <= o + sum_list (part_bytes <$> parts).
Proof.
  intros H. revert k. induction H as [|o p s names t' parts ts Ht Hts IH]; intros k Hk; [done|].
  pose proof (placed_sum_nonneg _ _ _ _ _ _ Hts). destruct (placed_page _ _ _ _ _ _ _ _ Ht) as (? & ? & ?).
  csimpl. rewrite (part_bytes_placed _ _ _ _ _ _ _ _ Ht). destruct k as [|k]; simpl in *.
  - injection Hk as ->. exists o, p, s, names. split_and!; [done|done|lia|lia].
  - destruct (IH _ Hk) as (o' & p' & s' & names' & K1 & K2 & K3 & K4). exists o', p', s', names'. split_and!; [done|done|nia|lia].
Qed.

(** Two tensors of a group lie one after the other. *)
Lemma placed_order layout bpb nb o parts ts j k t1 t2 : placed layout bpb nb o parts ts -> (j < k)%nat ->
  ts !! j = Some t1 -> ts !! k = Some t2 ->
  exists o1 p1 s1 n1 o2 p2 s2 n2, parts !! j = Some (s1, n1) /\ parts !! k = Some (s2, n2) /\
    placed_at layout bpb nb o1 p1 s1 n1 t1 /\ placed_at layout bpb nb o2 p2 s2 n2 t2 /\
    o <= o1 /\ o1 + zlen n1 * p1 <= o2 /\ o2 + zlen n2 * p2 <= o + sum_list (part_bytes <$> parts).
Proof.
  intros H. revert j k. induction H as [|o p s names t' parts ts Ht Hts IH]; intros j k Hjk Hj Hk; [done|].
  destruct (placed_page _ _ _ _ _ _ _ _ Ht) as (? & ? & ?). csimpl. rewrite (part_bytes_placed _ _ _ _ _ _ _ _ Ht).
  destruct j as [|j], k as [|k]; simpl in *; try lia.
  - injection Hj as ->. destruct (placed_lookup _ _ _ _ _ _ _ _ Hts Hk) as (o' & p' & s' & names' & H1' & H2' & H3' & H4').
    exists o, p, s, names, o', p', s', names'. split_and!; try done; lia.
  - destruct (IH j k) as (o1 & p1 & s1 & n1 & o2 & p2 & s2 & n2 & A1 & A2 & A3 & A4 & A5 & A6 & A7); [lia|done..|].
    exists o1, p1, s1, n1, o2, p2, s2, n2. split_and!; try done; nia.
Qed.

(** A cell of the [k]-th tensor of a placed group *)
Definition cell_at (layout : KVCacheLayout) (bpb nb : Z) (parts : list (LayerSpec * list string)) (ts : list KVCacheTensor)
    (k : nat) (i : CellIndex) (addr : Z) : Prop :=
  exists t s names p, ts !! k = Some t /\ parts !! k = Some (s, names) /\ page_size_bytes s = Ok p /\
    index_ok s nb (zlen names) i /\ addr = cell_address t (strides_of layout s p nb (zlen names) bpb) i.

(** Within a group, a byte belongs to one cell of one tensor. *)
Lemma group_cells_inj layout bpb nb parts ts j k i i' addr :
  placed layout bpb nb 0 parts ts -> sum_list (part_bytes <$> parts) <= bpb ->
  cell_at layout bpb nb parts ts j i addr -> cell_at layout bpb nb parts ts k i' addr -> j = k /\ i = i'.
Proof.
  intros Hpl Htot.
  assert (forall j k i i', (j < k)%nat -> cell_at layout bpb nb parts ts j i addr -> cell_at layout bpb nb parts ts k i' addr -> False) as Hlt.
  { clear j k i i'. intros j k i i' Hjk (t1 & s1 & n1 & q1 & T1 & P1 & G1 & I1 & E1) (t2 & s2 & n2 & q2 & T2 & P2 & G2 & I2 & E2).
    destruct (placed_order _ _ _ _ _ _ _ _ _ _ Hpl Hjk T1 T2) as (o1 & p1 & s1' & n1' & o2 & p2 & s2' & n2' & A1 & A2 & A3 & A4 & A5 & A6 & A7).
    rewrite P1 in A1. rewrite P2 in A2. injection A1 as <- <-. injection A2 as <- <-.
    rewrite (pa_page _ _ _ _ _ _ _ _ A3) in G1. injection G1 as <-. rewrite (pa_page _ _ _ _ _ _ _ _ A4) in G2. injection G2 as <-.
    destruct (placed_page _ _ _ _ _ _ _ _ A3) as (? & ? & ?). destruct (placed_page _ _ _ _ _ _ _ _ A4) as (? & ? & ?).
    destruct (is_block_outermost layout) eqn:Hl.
    - destruct (region_block _ _ _ _ _ _ _ _ _ Hl A3 I1) as (y1 & B1 & R1). destruct (region_block _ _ _ _ _ _ _ _ _ Hl A4 I2) as (y2 & B2 & R2).
      assert (ci_block i = ci_block i') by nia. nia.
    - destruct (region_layer _ _ _ _ _ _ _ _ _ Hl A3 I1) as [R1 _]. destruct (region_layer _ _ _ _ _ _ _ _ _ Hl A4 I2) as [R2 _]. nia. }
  intros C1 C2. destruct (decide (j < k)%nat); [exfalso; eauto|]. destruct (decide (k < j)%nat); [exfalso; eauto|].
  assert (j = k) as -> by lia. split; [done|].
  destruct C1 as (t1 & s1 & n1 & q1 & T1 & P1 & G1 & I1 & E1), C2 as (t2 & s2 & n2 & q2 & T2 & P2 & G2 & I2 & E2).
  rewrite T1 in T2. injection T2 as <-. rewrite P1 in P2. injection P2 as <- <-. rewrite G1 in G2. injection G2 as <-.
  destruct (placed_lookup _ _ _ _ _ _ _ _ Hpl T1) as (o & p & s & names & A1 & A2 & _). rewrite P1 in A1. injection A1 as <- <-.
  rewrite (pa_page _ _ _ _ _ _ _ _ A2) in G1. injection G1 as <-.
  apply (cell_inj layout s1 p nb (zlen n1) bpb); [apply (pa_ok _ _ _ _ _ _ _ _ A2)|done..|]. unfold cell_address in *. lia.
Qed.

(** The bounds of the allocation *)
Lemma group_cells_bound layout bpb nb parts ts k i addr :
  placed layout bpb nb 0 parts ts -> sum_list (part_bytes <$> parts) <= bpb -> cell_at layout bpb nb parts ts k i addr -> 0 <= addr < bpb * nb.
Proof.
  intros Hpl Htot (t & s & names & q & T & P & G & I & ->).
  destruct (placed_lookup _ _ _ _ _ _ _ _ Hpl T) as (o & p & s' & names' & A1 & A2 & A3 & A4). rewrite P in A1. injection A1 as <- <-.
  rewrite (pa_page _ _ _ _ _ _ _ _ A2) in G. injection G as <-. destruct (placed_page _ _ _ _ _ _ _ _ A2) as (? & ? & ?).
  pose proof (index_ok_inv _ _ _ _ I) as (_ & ? & _). destruct (is_block_outermost layout) eqn:Hl.
  - destruct (region_block _ _ _ _ _ _ _ _ _ Hl A2 I) as (y & -> & R). nia.
  - destruct (region_layer _ _ _ _ _ _ _ _ _ Hl A2 I) as [R _]. nia.
Qed.
