(* ===== verification/KVDisjoint.v ===== *)
(** The planned tensors as the workers view them: every cell lies in the allocation, bytes
    are shared only by cells of the same block, and never within a group. *)
From S2P Require Import Prelude KVBlock FreeQueue Request BlockHash BlockPool BlockPoolInv BlockPoolSpec BlockPoolCache CacheHit KVSpec KVGroups KVPlan KVModels KVGroupsThms KVLayout.

Local Open Scope Z_scope.

(** ** The specs of a group *)

(** A group whose layers have cells; a uniform group has a spec for each of its layers. *)
Definition placeable_group (g : KVCacheGroup) : Prop :=
  match kv_cache_spec g with
  | UniformTypeKVCacheSpecs _ specs => specs.*1 = layer_names g /\ Forall placeable specs.*2
  | LayerKVCacheSpec s => placeable s
  end.

Lemma sum_list_app l k : sum_list (l ++ k) = sum_list l + sum_list k.
Proof. induction l as [|x l IH]; simpl; [done|]. rewrite IH. lia. Qed.

Lemma sum_list_perm l k : l ≡ₚ k -> sum_list l = sum_list k.
Proof. induction 1; simpl; lia. Qed.

Definition page_or_zero (s : LayerSpec) : Z := match page_size_bytes s with Ok p => p | Raise _ => 0 end.

Lemma dict_append_sum s n d :
  sum_list (part_bytes <$> dict_append s n d) = sum_list (part_bytes <$> d) + page_or_zero s.
Proof.
  induction d as [|[s' l] d IH]; csimpl.
  - unfold part_bytes, page_or_zero, zlen. simpl. lia.
  - case_decide as Hd; csimpl.
    + subst s'. unfold part_bytes at 1 3, page_or_zero, zlen. cbn [fst snd]. rewrite length_app. simpl length. destruct (page_size_bytes s); lia.
    + rewrite IH. lia.
Qed.

Lemma names_by_sum specs : sum_list (part_bytes <$> names_by id specs) = sum_list (page_or_zero <$> specs.*2).
Proof.
  unfold names_by. induction specs as [|[n s] specs IH] using rev_ind; [done|].
  rewrite foldl_app, !fmap_app, sum_list_app, <- IH. cbn [foldl]. rewrite dict_append_sum. simpl. unfold id. lia.
Qed.

Lemma per_layer_uniform g bs specs n s : kv_cache_spec g = UniformTypeKVCacheSpecs bs specs -> NoDup specs.*1 -> (n, s) ∈ specs ->
  get_per_layer_spec g n = Ok s.
Proof. intros Hg Hnd Hn. unfold get_per_layer_spec. rewrite Hg. by rewrite (odict_get_nodup _ _ _ Hnd Hn). Qed.

(** The layers of each part are layers of the group with that spec. *)
Lemma layers_by_spec_parts g : placeable_group g -> NoDup (layer_names g) ->
  Forall (fun sn => placeable sn.1 /\ sn.2 <> [] /\
    Forall (fun n => n ∈ layer_names g /\ get_per_layer_spec g n = Ok sn.1) sn.2) (layers_by_spec g).
Proof.
  unfold placeable_group, layers_by_spec. destruct (kv_cache_spec g) as [s|bs specs] eqn:Hg.
  - intros Hp _. destruct (layer_names g) as [|n names] eqn:E; [constructor|]. apply Forall_singleton. split_and!; [done|done|].
    apply Forall_forall. intros m Hm. split; [done|]. unfold get_per_layer_spec. by rewrite Hg.
  - intros [Hn Hp] Hnd. eapply Forall_impl; [apply (names_by_forall id)|]. intros [s names] [Hne Hall]. simpl in *. unfold id in Hall.
    split_and!; [|done|].
    + destruct names as [|n names]; [done|]. apply Forall_cons in Hall as [(s' & Hs & ->) _]. rewrite Forall_forall in Hp.
      apply Hp. apply list_elem_of_fmap. by exists (n, s).
    + eapply Forall_impl; [exact Hall|]. intros n (s' & Hs & ->). split.
      * rewrite <- Hn. apply list_elem_of_fmap. by exists (n, s).
      * eapply per_layer_uniform; [done|by rewrite Hn|done].
Qed.

Lemma group_layer_pages_sum g pages : placeable_group g -> NoDup (layer_names g) -> group_layer_pages g = Ok pages ->
  sum_list (part_bytes <$> layers_by_spec g) = sum_list pages.
Proof.
  unfold placeable_group, layers_by_spec, group_layer_pages. destruct (kv_cache_spec g) as [s|bs specs] eqn:Hg.
  - intros _ _ H%mapM_Ok. assert (Forall (fun p => p = page_or_zero s) pages) as Hp.
    { clear -H Hg. induction H as [|n p names pages Hn _ IH]; constructor; [|done]. unfold get_per_layer_spec in Hn. rewrite Hg in Hn.
      simpl in Hn. unfold page_or_zero. by rewrite Hn. }
    assert (sum_list pages = zlen (layer_names g) * page_or_zero s) as ->.
    { apply Forall2_length in H. unfold zlen. rewrite H. clear -Hp. induction Hp as [|p l -> _ IH]; simpl; [done|]. rewrite IH. lia. }
    destruct (layer_names g); [done|]. csimpl. unfold part_bytes, page_or_zero. simpl. lia.
  - intros [Hn _] Hnd H%mapM_Ok. rewrite names_by_sum. f_equal.
    rewrite <- Hn in H, Hnd. assert (forall ns, ns ∈ specs -> get_per_layer_spec g ns.1 = Ok ns.2) as Hget.
    { intros [n s] Hs. by eapply per_layer_uniform. }
    clear Hn Hg. revert Hget H. clear. generalize specs. clear specs. revert pages.
    induction pages as [|p pages IH]; intros [|[n s] specs] Hget H; csimpl; try (by inversion H).
    csimpl in H. apply Forall2_cons in H as [H1 H2]. pose proof (Hget (n, s) ltac:(left)) as Hs. simpl in Hs. rewrite Hs in H1. simpl in H1. f_equal.
    + unfold page_or_zero. by rewrite H1.
    + apply IH; [|done]. intros ns Hns. apply Hget. by right.
Qed.

(** ** The tensors of a configuration *)

Lemma mapM_lookup {A B} (f : A -> outcome B) l k i x : mapM f l = Ok k -> l !! i = Some x -> exists y, k !! i = Some y /\ f x = Ok y.
Proof. intros H%mapM_Ok Hi. by apply (Forall2_lookup_l _ _ _ _ _ H Hi). Qed.

Lemma mapM_lookup_r {A B} (f : A -> outcome B) l k i y : mapM f l = Ok k -> k !! i = Some y -> exists x, l !! i = Some x /\ f x = Ok y.
Proof. intros H%mapM_Ok Hi. by apply (Forall2_lookup_r _ _ _ _ _ H Hi). Qed.

Lemma nodup_concat_lookup {A} (ls : list (list A)) l i : NoDup (concat ls) -> ls !! i = Some l -> NoDup l.
Proof.
  revert i. induction ls as [|l' ls IH]; intros i Hnd Hi; [done|]. simpl in Hnd. apply NoDup_app in Hnd as (H1 & _ & H3).
  destruct i; simpl in Hi; [by injection Hi as <-|by eapply IH].
Qed.

(** A layer is in one group only. *)
Lemma nodup_concat_inj {A} (ls : list (list A)) i j l k x : NoDup (concat ls) -> ls !! i = Some l -> ls !! j = Some k ->
  x ∈ l -> x ∈ k -> i = j.
Proof.
  revert i j. induction ls as [|l' ls IH]; intros i j Hnd Hi Hj Hx Hx'; [done|]. simpl in Hnd. apply NoDup_app in Hnd as (H1 & H2 & H3).
  assert (forall i m, ls !! i = Some m -> x ∈ m -> x ∈ concat ls) as Hin.
  { intros i' m Hm Hxm. apply list_elem_of_In, in_concat. exists m. split; apply list_elem_of_In; [by eapply list_elem_of_lookup_2|done]. }
  destruct i, j; simpl in *; simplify_eq; [done|exfalso; by eapply H2, Hin|exfalso; by eapply H2, Hin|]. f_equal. by eapply IH.
Qed.

Section Config.
  Context (cfg : PlanConfig) (gs : list KVCacheGroup) (available : Z) (layout : KVCacheLayout) (c : PlannedConfig).
  Context (Hplan : get_kv_cache_config_from_groups cfg gs available = Ok c).
  Context (Hglm : glm5_next_tensor_layout gs = Ok None).
  Context (Hlayout : kv_cache_layout cfg = Some layout).
  Context (Hgroups : Forall placeable_group gs) (Hnd : NoDup (concat (layer_names <$> gs))) (Hnb : 0 < planned_num_blocks c).

(** The tensors come group by group; a group's tensors follow each other within a block. *)
Lemma config_groups : gs <> [] -> exists bpb ts,
  validate_kv_cache_layout layout gs = Ok tt /\ planned_groups c = gs /\ kv_cache_tensors c = concat ts /\ 0 < bpb /\ length ts = length gs /\
  planned_num_blocks c = may_override_num_blocks cfg (available / bpb) /\ pool_bytes_per_block cfg gs = Ok bpb /\
  forall k g, gs !! k = Some g -> exists tg, ts !! k = Some tg /\
    placed layout bpb (planned_num_blocks c) 0 (layers_by_spec g) tg /\ sum_list (part_bytes <$> layers_by_spec g) <= bpb.
Proof.
  intros Hne. unfold get_kv_cache_config_from_groups in Hplan. destruct gs as [|g0 gs0]; [done|]. clear Hne.
  remember (g0 :: gs0) as gs' eqn:Eg. clear Eg. rewrite Hglm in Hplan. cbn [mbind outcome_bind] in Hplan. unfold get_resolved_kv_cache_layout in Hplan. rewrite Hlayout in Hplan.
  cbn [mbind outcome_bind] in Hplan. obind_in Hplan. destruct x. obind_in Hplan. rename x into bpb. obind_in Hplan. rename x into ts.
  injection Hplan as <-. simpl in *. exists bpb, ts. pose proof Hx0 as Hpool. unfold pool_bytes_per_block in Hpool. rewrite Hglm in Hpool. cbn [mbind outcome_bind] in Hpool.
  obind_in Hpool. rename x into sums. obind_in Hpool. obind_in Hpool. injection Hpool as ->. apply oassert_Ok in Hx4. apply pymax_spec in Hx3 as [_ Hmax].
  split_and!; try done; [lia|apply mapM_Ok in Hx1; symmetry; by apply Forall2_length in Hx1|].
  intros k g Hk. destruct (mapM_lookup _ _ _ _ _ Hx1 Hk) as (tg & Htg & Hpl). exists tg. split; [done|].
  assert (NoDup (layer_names g)) as Hndg. { eapply nodup_concat_lookup; [exact Hnd|]. by rewrite list_lookup_fmap, Hk. }
  assert (placeable_group g) as Hpg. { eapply (Forall_lookup_1 _ _ _ _ Hgroups Hk). }
  assert (sum_list (part_bytes <$> layers_by_spec g) <= bpb) as Hsum.
  { destruct (mapM_lookup _ _ _ _ _ Hx2 Hk) as (sm & Hsm & Hpg'). cbv beta in Hpg'. obind_in Hpg'. injection Hpg' as <-.
    rewrite (group_layer_pages_sum g _ Hpg Hndg Hx3). apply Hmax. by eapply list_elem_of_lookup_2. }
  split; [|done]. eapply place_specs_placed; [exact Hpl| |done|lia|lia|done|lia].
  eapply Forall_impl; [apply (layers_by_spec_parts g Hpg Hndg)|]. naive_solver.
Qed.
End Config.

(** Byte [addr] of the allocation is cell [i] of tensor [t] as the worker views it. *)
Definition views (layout : KVCacheLayout) (c : PlannedConfig) (t : KVCacheTensor) (i : CellIndex) (addr : Z) : Prop :=
  exists s st, t ∈ kv_cache_tensors c /\ tensor_spec (planned_groups c) t = Ok s /\
    view_strides layout (planned_num_blocks c) s t = Ok st /\
    index_ok s (planned_num_blocks c) (zlen (tensor_layers t)) i /\ addr = cell_address t st i.

(** The group of a tensor *)
Definition tensor_of (t : KVCacheTensor) (g : KVCacheGroup) : Prop := exists n, head (tensor_layers t) = Some n /\ n ∈ layer_names g.

Lemma first_group gs k g n : NoDup (concat (layer_names <$> gs)) -> gs !! k = Some g -> n ∈ layer_names g ->
  pyfirst (filter (fun g => n ∈ layer_names g) gs) = Ok g.
Proof.
  intros Hnd. revert k. induction gs as [|g' gs IH]; intros k Hk Hn; [done|]. csimpl in Hnd. apply NoDup_app in Hnd as (H1 & H2 & H3).
  rewrite filter_cons. destruct k as [|k]; simpl in Hk; [injection Hk as ->; by rewrite decide_True|].
  rewrite decide_False; [by eapply IH|]. intros Hn'. apply (H2 n Hn'), list_elem_of_In, in_concat.
  exists (layer_names g). split; [|by apply list_elem_of_In]. apply list_elem_of_In, list_elem_of_fmap. exists g. split; [done|]. by eapply list_elem_of_lookup_2.
Qed.

Section Views.
  Context (layout : KVCacheLayout) (bpb nb : Z) (gs : list KVCacheGroup) (ts : list (list KVCacheTensor)).
  Context (Hgroups : Forall placeable_group gs) (Hnd : NoDup (concat (layer_names <$> gs))) (Hlen : length ts = length gs).
  Context (Hts : forall k g, gs !! k = Some g -> exists tg, ts !! k = Some tg /\
    placed layout bpb nb 0 (layers_by_spec g) tg /\ sum_list (part_bytes <$> layers_by_spec g) <= bpb).

(** Tensor [t] is the [j]-th of the [k]-th group. *)
Definition located (k j : nat) (g : KVCacheGroup) (tg : list KVCacheTensor) (t : KVCacheTensor) (s : LayerSpec) (names : list string) (o p : Z) : Prop :=
  gs !! k = Some g /\ ts !! k = Some tg /\ tg !! j = Some t /\ layers_by_spec g !! j = Some (s, names) /\
  placed_at layout bpb nb o p s names t /\ tensor_spec gs t = Ok s /\ tensor_of t g /\ 0 <= o /\ o + zlen names * p <= bpb.

Lemma tensor_located t : t ∈ concat ts -> exists k j g tg s names o p, located k j g tg t s names o p.
Proof.
  intros (tg & Htg & Ht)%list_elem_of_In%in_concat. apply list_elem_of_In, list_elem_of_lookup in Htg as [k Hk]. apply list_elem_of_In, list_elem_of_lookup in Ht as [j Hj].
  destruct (lookup_lt_is_Some_2 gs k) as [g Hg]; [rewrite <- Hlen; by eapply lookup_lt_Some|].
  destruct (Hts k g Hg) as (tg' & Hk' & Hpl & Hsum). rewrite Hk in Hk'. injection Hk' as <-.
  destruct (placed_lookup _ _ _ _ _ _ _ _ Hpl Hj) as (o & p & s & names & Hp & Hat & Ho & Hend).
  assert (placeable_group g) as Hpg by (by eapply (Forall_lookup_1 _ _ _ _ Hgroups)).
  assert (NoDup (layer_names g)) as Hndg by (eapply nodup_concat_lookup; [exact Hnd|by rewrite list_lookup_fmap, Hg]).
  destruct (Forall_lookup_1 _ _ _ _ (layers_by_spec_parts g Hpg Hndg) Hp) as (_ & Hne & Hall). simpl in Hne, Hall.
  destruct names as [|n names]; [done|]. apply Forall_cons in Hall as [[Hn Hs] _].
  exists k, j, g, tg, s, (n :: names), o, p. split_and!; try done.
  - unfold tensor_spec. rewrite (pa_layers _ _ _ _ _ _ _ _ Hat). rewrite (first_group gs k g n Hnd Hg Hn). done.
  - exists n. by rewrite (pa_layers _ _ _ _ _ _ _ _ Hat).
  - lia.
Qed.

Lemma located_same k k' j j' g g' tg tg' t t' s s' n n' o o' p p' : located k j g tg t s n o p -> located k' j' g' tg' t' s' n' o' p' ->
  (exists h, h ∈ gs /\ tensor_of t h /\ tensor_of t' h) -> k = k'.
Proof.
  intros (K1 & _ & _ & _ & _ & _ & (x & X1 & X2) & _) (K1' & _ & _ & _ & _ & _ & (x' & X1' & X2') & _) (h & Hh & (y & Y1 & Y2) & (y' & Y1' & Y2')).
  rewrite X1 in Y1. injection Y1 as <-. rewrite X1' in Y1'. injection Y1' as <-. apply list_elem_of_lookup in Hh as [m Hm].
  assert (forall i gg, gs !! i = Some gg -> (layer_names <$> gs) !! i = Some (layer_names gg)) as Hf by (intros i gg E; by rewrite list_lookup_fmap, E).
  pose proof (nodup_concat_inj _ _ _ _ _ _ Hnd (Hf _ _ K1) (Hf _ _ Hm) X2 Y2). pose proof (nodup_concat_inj _ _ _ _ _ _ Hnd (Hf _ _ K1') (Hf _ _ Hm) X2' Y2'). lia.
Qed.

(** Block-outermost: the block of a byte is its position in bytes per block. *)
Lemma outermost_block k j g tg t s names o p i : is_block_outermost layout = true -> located k j g tg t s names o p ->
  index_ok s nb (zlen names) i -> ci_block i = cell_address t (strides_of layout s p nb (zlen names) bpb) i / bpb.
Proof.
  intros Hl (_ & _ & _ & _ & Hat & _ & _ & Ho & He) Hi. destruct (region_block _ _ _ _ _ _ _ _ _ Hl Hat Hi) as (y & -> & Hy).
  pose proof (pa_block _ _ _ _ _ _ _ _ Hat). rewrite Z.div_add_l by lia. rewrite (Z.div_small y); lia.
Qed.

(** Layer-outermost with one page size: the block of a byte repeats with the block count. *)
Context (P : Z) (HP : forall g s names, g ∈ gs -> (s, names) ∈ layers_by_spec g -> page_size_bytes s = Ok P).

Lemma placed_multiple o parts tg j t s names : placed layout bpb nb o parts tg -> Forall (fun sn => page_size_bytes sn.1 = Ok P) parts ->
  tg !! j = Some t -> parts !! j = Some (s, names) -> exists m, placed_at layout bpb nb (o + m * P) P s names t.
Proof.
  intros H. revert j. induction H as [|o p s' names' t' parts ts' Hat _ IH]; intros j HPs Hj Hpj; [done|]. apply Forall_cons in HPs as [Hp HPs].
  simpl in Hp. rewrite (pa_page _ _ _ _ _ _ _ _ Hat) in Hp. injection Hp as ->. destruct j as [|j]; simpl in *.
  - injection Hj as ->. injection Hpj as -> ->. exists 0. by replace (o + 0 * P) with o by lia.
  - destruct (IH j HPs Hj Hpj) as [m Hm]. exists (zlen names' + m). by replace (o + (zlen names' + m) * P) with (o + zlen names' * P + m * P) by lia.
Qed.

Lemma layered_block k j g tg t s names o p i : is_block_outermost layout = false -> located k j g tg t s names o p ->
  index_ok s nb (zlen names) i ->
  ci_block i = cell_address t (strides_of layout s p nb (zlen names) bpb) i / block_unit layout s P mod nb /\ 0 < block_unit layout s P.
Proof.
  intros Hl (Hg & Ht & Hj & Hp & Hat & _ & _) Hi. destruct (Hts k g Hg) as (tg' & Ht' & Hpl & _). rewrite Ht in Ht'. injection Ht' as <-.
  assert (Forall (fun sn => page_size_bytes sn.1 = Ok P) (layers_by_spec g)) as HPg.
  { apply Forall_forall. intros [s' n'] Hs'. apply (HP g s' n'); [by eapply list_elem_of_lookup_2|done]. }
  destruct (placed_multiple 0 _ _ _ _ _ _ Hpl HPg Hj Hp) as [m Hm].
  assert (p = P) as -> by (pose proof (pa_page _ _ _ _ _ _ _ _ Hat); pose proof (pa_page _ _ _ _ _ _ _ _ Hm); congruence).
  destruct (region_layer _ _ _ _ _ _ _ _ _ Hl Hm Hi) as (_ & a & y & Ha & Hy). set (u := block_unit layout s P) in *.
  assert (exists h, P = h * u) as [h Hh].
  { unfold u, block_unit. destruct (po_unit _ _ _ _ _ _ (pa_ok _ _ _ _ _ _ _ _ Hm)) as [Hu|Hu]; [exists 1; destruct layout; try done; lia|].
    destruct layout; try (exists 1; lia). by exists (layer_num_heads s). }
  rewrite Ha. replace ((0 + m * P) * nb + (a * nb + ci_block i) * u + y) with ((ci_block i + (m * h + a) * nb) * u + y) by (rewrite Hh; ring).
  pose proof (index_ok_inv _ _ _ _ Hi) as (_ & Hb & _). rewrite Z.div_add_l, (Z.div_small y), Z.add_0_r, Z.mod_add, Z.mod_small by lia. split; lia.
Qed.
End Views.

(** ** Pages that all layers share *)

Lemma validated_pages layout gs : validate_kv_cache_layout layout gs = Ok tt -> Forall placeable_group gs -> NoDup (concat (layer_names <$> gs)) ->
  is_block_outermost layout = false -> (1 < length gs)%nat \/ is_block_compact layout = false ->
  exists P, forall g s names, g ∈ gs -> (s, names) ∈ layers_by_spec g -> page_size_bytes s = Ok P.
Proof.
  unfold validate_kv_cache_layout. intros H Hpg Hnd Hl Hmany. obind_in H. rename x into pages.
  case_bool_decide as Hone.
  - destruct (remove_dups (concat pages)) as [|P [|]] eqn:E; simpl in Hone; try lia. exists P. intros g s names Hg Hs.
    apply list_elem_of_lookup in Hg as [k Hk]. destruct (mapM_lookup _ _ _ _ _ Hx Hk) as (pg & Hpk & Hpages).
    assert (NoDup (layer_names g)) as Hndg by (eapply nodup_concat_lookup; [exact Hnd|by rewrite list_lookup_fmap, Hk]).
    pose proof (Forall_lookup_1 _ _ _ _ Hpg Hk) as Hg. pose proof (layers_by_spec_parts g Hg Hndg) as Hparts. rewrite Forall_forall in Hparts.
    destruct (Hparts _ Hs) as (_ & Hne & Hall). simpl in *. destruct names as [|n names]; [done|]. apply Forall_cons in Hall as [[Hn Hget] _].
    apply list_elem_of_lookup in Hn as [m Hm]. destruct (mapM_lookup _ _ _ _ _ Hpages Hm) as (q & Hq & Hpage). cbv beta in Hpage.
    rewrite Hget in Hpage. simpl in Hpage. rewrite Hpage. f_equal. apply list_elem_of_singleton. rewrite <- E.
    apply elem_of_remove_dups, list_elem_of_In, in_concat. exists pg. split; apply list_elem_of_In; by eapply list_elem_of_lookup_2.
  - exfalso. destruct Hmany as [Hmany|Hmany].
    + destruct layout; try done; simpl in H; rewrite bool_decide_true in H by done; done.
    + rewrite Hmany in H. done.
Qed.

(** Heads outermost, all layers have the same number of heads ([resolve_kv_cache_layout]
    picks such a layout for these models only). *)
Definition heads_agree (layout : KVCacheLayout) (gs : list KVCacheGroup) : Prop :=
  layout = LHBNC -> exists h, Forall (fun g => Forall (fun s => layer_num_heads s = h) (iter_layer_specs (kv_cache_spec g))) gs.

Lemma heads_agree_unit layout gs g g' s s' n n' P : heads_agree layout gs -> g ∈ gs -> g' ∈ gs -> (s, n) ∈ layers_by_spec g -> (s', n') ∈ layers_by_spec g' ->
  block_unit layout s P = block_unit layout s' P.
Proof.
  intros Hh Hg Hg' Hs Hs'. unfold block_unit. destruct layout; try done. destruct (Hh eq_refl) as [h Hall]. rewrite Forall_forall in Hall.
  assert (forall g s n, g ∈ gs -> (s, n) ∈ layers_by_spec g -> layer_num_heads s = h) as Hq.
  { clear -Hall. intros g s n Hg Hs. specialize (Hall g Hg). unfold layers_by_spec in Hs. rewrite Forall_forall in Hall. apply Hall.
    destruct (kv_cache_spec g) as [s'|bs specs]; simpl.
    - destruct (layer_names g); [by apply elem_of_nil in Hs|]. apply list_elem_of_singleton in Hs. injection Hs as -> ->. by left.
    - pose proof (names_by_forall id specs) as Hf. rewrite Forall_forall in Hf. destruct (Hf _ Hs) as [Hne Hn]. simpl in *.
      destruct n as [|m n]; [done|]. apply Forall_cons in Hn as [(t & Ht & Hid) _]. unfold id in Hid. subst t. apply list_elem_of_fmap. by exists (m, s). }
  unfold head_unit. by rewrite (Hq g s n), (Hq g' s' n').
Qed.

(** ** The theorem *)

(** The tensors of a configuration are usable: the views of the workers exist and their cells
    lie in the one allocation, a byte belongs to one block, and within a group to one cell of
    one layer. *)
Record cells_disjoint (layout : KVCacheLayout) (c : PlannedConfig) : Prop := {
  cd_views : forall t, t ∈ kv_cache_tensors c -> exists s st,
    tensor_spec (planned_groups c) t = Ok s /\ view_strides layout (planned_num_blocks c) s t = Ok st;
  cd_one_size : forall t t', t ∈ kv_cache_tensors c -> t' ∈ kv_cache_tensors c -> tensor_size t = tensor_size t';
  cd_bounds : forall t i addr, views layout c t i addr -> 0 <= addr < tensor_size t;
  cd_block : forall t t' i i' addr, views layout c t i addr -> views layout c t' i' addr -> ci_block i = ci_block i';
  cd_group : forall g t t' i i' addr, g ∈ planned_groups c -> tensor_of t g -> tensor_of t' g ->
    views layout c t i addr -> views layout c t' i' addr -> t = t' /\ i = i';
}.

Section Disjoint.
  Context (layout : KVCacheLayout) (bpb : Z) (c : PlannedConfig) (ts : list (list KVCacheTensor)).
  Context (Hgroups : Forall placeable_group (planned_groups c)) (Hnd : NoDup (concat (layer_names <$> planned_groups c))).
  Context (Hlen : length ts = length (planned_groups c)) (Htensors : kv_cache_tensors c = concat ts).
  Context (Hvalid : validate_kv_cache_layout layout (planned_groups c) = Ok tt) (Hheads : heads_agree layout (planned_groups c)).
  Context (Hts : forall k g, planned_groups c !! k = Some g -> exists tg, ts !! k = Some tg /\
    placed layout bpb (planned_num_blocks c) 0 (layers_by_spec g) tg /\ sum_list (part_bytes <$> layers_by_spec g) <= bpb).

#[local] Abbreviation loc := (located layout bpb (planned_num_blocks c) (planned_groups c) ts).

Lemma views_located t i addr : views layout c t i addr -> exists k j g tg s names o p, loc k j g tg t s names o p /\
  index_ok s (planned_num_blocks c) (zlen names) i /\ addr = cell_address t (strides_of layout s p (planned_num_blocks c) (zlen names) bpb) i.
Proof.
  intros (s' & st & Ht & Hs & Hst & Hi & ->). rewrite Htensors in Ht.
  destruct (tensor_located layout bpb _ _ ts Hgroups Hnd Hlen Hts t Ht) as (k & j & g & tg & s & names & o & p & Hl).
  exists k, j, g, tg, s, names, o, p. pose proof Hl as (_ & _ & _ & _ & Hat & Hspec & _). rewrite Hs in Hspec. injection Hspec as ->.
  rewrite (view_strides_placed _ _ _ _ _ _ _ _ Hat) in Hst. injection Hst as <-. by rewrite (pa_layers _ _ _ _ _ _ _ _ Hat) in Hi.
Qed.

Lemma located_cell k j g tg t s names o p i : loc k j g tg t s names o p -> index_ok s (planned_num_blocks c) (zlen names) i ->
  cell_at layout bpb (planned_num_blocks c) (layers_by_spec g) tg j i (cell_address t (strides_of layout s p (planned_num_blocks c) (zlen names) bpb) i).
Proof. intros (_ & _ & Hj & Hp & Hat & _) Hi. exists t, s, names, p. split_and!; try done. apply (pa_page _ _ _ _ _ _ _ _ Hat). Qed.

Lemma same_group_cells k j j' g g' tg tg' t t' s s' n n' o o' p p' i i' addr :
  loc k j g tg t s n o p -> loc k j' g' tg' t' s' n' o' p' -> index_ok s (planned_num_blocks c) (zlen n) i -> index_ok s' (planned_num_blocks c) (zlen n') i' ->
  addr = cell_address t (strides_of layout s p (planned_num_blocks c) (zlen n) bpb) i ->
  addr = cell_address t' (strides_of layout s' p' (planned_num_blocks c) (zlen n') bpb) i' -> t = t' /\ i = i'.
Proof.
  intros Hl Hl' Hi Hi' Ha Ha'. pose proof (located_cell _ _ _ _ _ _ _ _ _ _ Hl Hi) as C. pose proof (located_cell _ _ _ _ _ _ _ _ _ _ Hl' Hi') as C'.
  destruct Hl as (K1 & K2 & K3 & _), Hl' as (K1' & K2' & K3' & _). rewrite K1 in K1'. injection K1' as <-. rewrite K2 in K2'. injection K2' as <-.
  destruct (Hts k g K1) as (tg' & K & Hpl & Hsum). rewrite K2 in K. injection K as <-. rewrite <- Ha in C. rewrite <- Ha' in C'.
  destruct (group_cells_inj _ _ _ _ _ _ _ _ _ _ Hpl Hsum C C') as [-> ->]. rewrite K3 in K3'. by injection K3' as ->.
Qed.

Lemma same_block t t' i i' addr : views layout c t i addr -> views layout c t' i' addr -> ci_block i = ci_block i'.
Proof.
  intros (k & j & g & tg & s & n & o & p & Hl & Hi & Ha)%views_located (k' & j' & g' & tg' & s' & n' & o' & p' & Hl' & Hi' & Ha')%views_located.
  destruct (decide (k = k')) as [->|Hk].
  { f_equal. eapply same_group_cells; [exact Hl|exact Hl'|done..]. }
  destruct (is_block_outermost layout) eqn:Ho.
  - rewrite (outermost_block _ _ _ _ _ Hlen _ _ _ _ _ _ _ _ _ _ Ho Hl Hi), (outermost_block _ _ _ _ _ Hlen _ _ _ _ _ _ _ _ _ _ Ho Hl' Hi'). congruence.
  - pose proof Hl as (K & _ & _ & Kp & _). pose proof Hl' as (K' & _ & _ & Kp' & _).
    destruct (validated_pages layout (planned_groups c) Hvalid Hgroups Hnd Ho) as [P HP].
    { left. apply lookup_lt_Some in K, K'. lia. }
    destruct (layered_block layout bpb (planned_num_blocks c) (planned_groups c) ts Hlen Hts P HP _ _ _ _ _ _ _ _ _ _ Ho Hl Hi) as [B _]. destruct (layered_block layout bpb (planned_num_blocks c) (planned_groups c) ts Hlen Hts P HP _ _ _ _ _ _ _ _ _ _ Ho Hl' Hi') as [B' _].
    rewrite B, B', <- Ha, <- Ha'. f_equal. f_equal.
    apply (heads_agree_unit layout (planned_groups c) g g' s s' n n'); [exact Hheads|eapply list_elem_of_lookup_2; eassumption..].
Qed.

Lemma views_disjoint : cells_disjoint layout c.
Proof.
  split.
  - intros t Ht. rewrite Htensors in Ht. destruct (tensor_located layout bpb _ _ ts Hgroups Hnd Hlen Hts t Ht) as (k & j & g & tg & s & names & o & p & Hl).
    destruct Hl as (_ & _ & _ & _ & Hat & Hs & _). eexists _, _. split; [exact Hs|]. by eapply view_strides_placed.
  - assert (forall t, t ∈ kv_cache_tensors c -> tensor_size t = bpb * planned_num_blocks c) as Hsz; [|intros; by rewrite !Hsz].
    intros t Ht. rewrite Htensors in Ht. destruct (tensor_located layout bpb _ _ ts Hgroups Hnd Hlen Hts t Ht) as (k & j & g & tg & s & names & o & p & Hl).
    destruct Hl as (_ & _ & _ & _ & Hat & _). apply (pa_size _ _ _ _ _ _ _ _ Hat).
  - intros t i addr (k & j & g & tg & s & n & o & p & Hl & Hi & ->)%views_located. pose proof (located_cell _ _ _ _ _ _ _ _ _ _ Hl Hi) as C.
    destruct Hl as (K & K2 & _ & _ & Hat & _). destruct (Hts k g K) as (tg' & K' & Hpl & Hsum). rewrite K2 in K'. injection K' as <-.
    rewrite (pa_size _ _ _ _ _ _ _ _ Hat). by eapply group_cells_bound.
  - apply same_block.
  - intros g t t' i i' addr Hg Tg Tg' (k & j & g1 & tg & s & n & o & p & Hl & Hi & Ha)%views_located (k' & j' & g2 & tg' & s' & n' & o' & p' & Hl' & Hi' & Ha')%views_located.
    assert (k = k') as <- by (eapply (located_same _ _ _ _ _ Hnd Hlen); [exact Hl|exact Hl'|by exists g]). by eapply same_group_cells.
Qed.
End Disjoint.

(** C10. The KV-cache tensors [get_kv_cache_config_from_groups] plans, viewed as the workers
    view them, never let one block's data overwrite another's: the views exist, all cells
    lie within the one allocation, a byte that two cells share, even of layers in different
    groups, is a byte of the same block, and within a group no two cells share a byte.  This
    is for groups without the GLM-5.3-Flash layout (for that one, see [KVGlm5]), a resolved
    layout, which if it is LHBNC needs layers with equally many heads ([heads_agree]), layers
    that are each in one group and have cells of positive size, groups with per-layer
    specs that have them for exactly their layers ([placeable_group], which the projection
    breaks on a worker without layers of a group, see [KVWorkers]), and a positive number
    of blocks. *)
Theorem planned_cells_disjoint cfg gs available layout c :
  get_kv_cache_config_from_groups cfg gs available = Ok c -> glm5_next_tensor_layout gs = Ok None ->
  kv_cache_layout cfg = Some layout -> heads_agree layout gs -> Forall placeable_group gs -> NoDup (concat (layer_names <$> gs)) ->
  0 < planned_num_blocks c -> cells_disjoint layout c.
Proof.
  intros Hplan Hglm Hlay Hheads Hpg Hnd Hnb. destruct gs as [|g0 gs0] eqn:Eg.
  - injection Hplan as <-. split; simpl; intros *; rewrite ?elem_of_nil; try done; by intros (s & st & ?%elem_of_nil & _).
  - rewrite <- Eg in *. destruct (config_groups _ _ _ _ _ Hplan Hglm Hlay Hpg Hnd Hnb) as (bpb & ts & Hval & Hgs & Htens & _ & Hlen & _ & _ & Hts); [by subst|].
    eapply views_disjoint; by rewrite ?Hgs.
Qed.

Lemma planned_cells_disjoint_witness : exists c,
  get_kv_cache_config_from_groups (small_config LBNHC 64 64) small_groups 20000 = Ok c /\ planned_num_blocks c = 19 /\
  length (kv_cache_tensors c) = 3%nat /\ cells_disjoint LBNHC c.
Proof.
  eexists. split; [vm_compute; reflexivity|]. split; [reflexivity|]. split; [reflexivity|].
  apply (planned_cells_disjoint (small_config LBNHC 64 64) small_groups 20000 LBNHC); try (vm_compute; reflexivity).
  - done.
  - vm_compute. repeat constructor.
  - by apply (bool_decide_unpack _); vm_compute.
Defined.
