(* ===== verification/KVFit.v ===== *)
(** How long a request can be: the search for the maximum length returns the largest length
    whose cache fits, because the memory grows with the length. *)
From S2P Require Import Prelude KVBlock FreeQueue Request BlockHash BlockPool BlockPoolInv BlockPoolSpec BlockPoolCache CacheHit KVSpec KVGroups KVPlan KVModels KVGroupsThms.

Local Open Scope Z_scope.

(** ** The search *)

(** [r] is the largest of 1 .. [mx] with [P], or 0 *)
Definition largest (P : Z -> bool) (mx r : Z) : Prop := 0 <= r <= mx /\ forall x, 1 <= x <= mx -> (P x = true <-> x <= r).

Lemma length_search_spec fits (P : Z -> bool) mx : (forall x, 1 <= x <= mx -> fits x = Ok (P x)) ->
  (forall x y, 1 <= x <= y -> y <= mx -> P y = true -> P x = true) ->
  forall fuel left right result, 1 <= left <= right + 1 -> right <= mx -> 1 <= mx -> P 1 = true -> result = Z.max 1 (left - 1) ->
  (forall x, 1 <= x < left -> P x = true) -> (forall x, right < x <= mx -> P x = false) ->
  right - left + 1 < 2 ^ Z.of_nat fuel -> exists r, length_search fuel fits left right result = Ok r /\ largest P mx r.
Proof.
  intros Hf Hmono fuel. induction fuel as [|fuel IH]; intros left right result Hl Hr Hmx H1 Hres Hlow Hhigh Hfuel.
  - simpl in *. destruct (Z.leb_spec left right); [lia|]. exists result. split; [done|]. split; [lia|]. intros x Hx. split.
    + intros HP. destruct (decide (x <= right)); [lia|]. rewrite Hhigh in HP by lia. done.
    + intros. destruct (decide (x = 1)) as [->|]; [done|]. apply Hlow. lia.
  - rewrite Nat2Z.inj_succ, Z.pow_succ_r in Hfuel by lia. cbn [length_search]. destruct (Z.leb_spec left right) as [Hle|Hgt].
    + set (mid := (left + right) / 2). assert (2 * mid <= left + right < 2 * mid + 2) as Hmid by (unfold mid; lia). clearbody mid. rewrite (Hf mid) by lia. cbn [mbind outcome_bind].
      destruct (P mid) eqn:Hp; cbn [negb].
      * apply IH; try lia; try done. intros x Hx. apply (Hmono x mid); [lia|lia|done].
      * apply IH; try lia; try done. intros x Hx. destruct (P x) eqn:E; [|done].
        rewrite (Hmono mid x) in Hp; [done|lia..|done].
    + exists result. split; [done|]. split; [lia|]. intros x Hx. split.
      * intros HP. destruct (decide (x <= right)); [lia|]. rewrite Hhigh in HP by lia. done.
      * intros. destruct (decide (x = 1)) as [->|]; [done|]. apply Hlow. lia.
Qed.

Lemma search_largest fits (P : Z -> bool) mx : 1 <= mx -> (forall x, 1 <= x <= mx -> fits x = Ok (P x)) ->
  (forall x y, 1 <= x <= y -> y <= mx -> P y = true -> P x = true) ->
  exists r, search_max_model_len fits mx = Ok r /\ largest P mx r.
Proof.
  intros Hmx Hf Hmono. unfold search_max_model_len. rewrite (Hf 1) by lia. cbn [mbind outcome_bind]. destruct (P 1) eqn:H1; cbn [negb].
  - eapply length_search_spec; try done; try lia. pose proof (Z.log2_nonneg mx). rewrite Z2Nat.id by lia.
    pose proof (Z.log2_spec mx ltac:(lia)) as [_ H2]. rewrite <- Z.add_1_r in H2. lia.
  - exists 0. split; [done|]. split; [lia|]. intros x Hx. split; [|lia]. intros HP. rewrite (Hmono 1 x) in H1; [done|lia..|done].
Qed.

(** ** Results that grow *)

(** Both raise the same, or the first result is at most the second. *)
Definition ole (x y : outcome Z) : Prop :=
  match x, y with Ok a, Ok b => a <= b | Raise e, Raise e' => e = e' | _, _ => False end.

Lemma ole_refl x : ole x x.
Proof. destruct x; simpl; [lia|done]. Qed.

Lemma ole_bind x y (f g : Z -> outcome Z) : ole x y -> (forall a b, a <= b -> ole (f a) (g b)) -> ole (x ≫= f) (y ≫= g).
Proof. destruct x, y; simpl; intros H Hk; try done; by apply Hk. Qed.

Lemma ole_same {A} (x : outcome A) (f g : A -> outcome Z) : (forall a, x = Ok a -> ole (f a) (g a)) -> ole (x ≫= f) (x ≫= g).
Proof. destruct x; simpl; [|done]. intros H. by apply H. Qed.

(** The same for lists of results *)
Definition oles (x y : outcome (list Z)) : Prop :=
  match x, y with Ok a, Ok b => Forall2 Z.le a b | Raise e, Raise e' => e = e' | _, _ => False end.

Lemma mapM_ole {A} (f g : A -> outcome Z) l : Forall (fun x => ole (f x) (g x)) l -> oles (mapM f l) (mapM g l).
Proof.
  induction 1 as [|x l Hx _ IH]; simpl; [constructor|]. destruct (f x), (g x); simpl in *; try done.
  destruct (mapM f l), (mapM g l); simpl in *; try done. by constructor.
Qed.

Lemma oles_bind x y (f g : list Z -> outcome Z) : oles x y -> (forall a b, Forall2 Z.le a b -> ole (f a) (g b)) -> ole (x ≫= f) (y ≫= g).
Proof. destruct x, y; simpl; intros H Hk; try done; by apply Hk. Qed.

Lemma sum_list_le l k : Forall2 Z.le l k -> sum_list l <= sum_list k.
Proof. induction 1; simpl; lia. Qed.

Lemma pymax_le l k : Forall2 Z.le l k -> ole (pymax l) (pymax k).
Proof.
  destruct 1 as [|x y l k Hxy H]; [done|]. simpl. induction H; simpl; lia.
Qed.

(** ** The memory of a request grows with its length *)

Lemma cdiv_grows a b n : 0 < n -> a <= b -> cdiv a n <= cdiv b n.
Proof. intros Hn Hab. pose proof (cdiv_spec a n Hn). pose proof (cdiv_spec b n Hn). nia. Qed.

(** Blocks and pages of positive size, windows that are not negative *)
Definition sized (s : LayerSpec) : Prop :=
  0 < layer_block_size s /\ (forall p, page_size_bytes s = Ok p -> 0 < p) /\
  match s with AttentionSpec _ _ c => forall w x, window_of_class c = Some (w, x) -> 0 <= w /\ 0 <= x | MambaSpec _ _ => True end.
Definition sized_group (g : KVCacheGroup) : Prop := Forall sized (iter_layer_specs (kv_cache_spec g)).

(** The same as a test *)
Definition sizedb (s : LayerSpec) : bool :=
  (0 <? layer_block_size s) && match page_size_bytes s with Ok p => 0 <? p | Raise _ => true end &&
  match s with
  | AttentionSpec _ _ c => match window_of_class c with Some (w, x) => (0 <=? w) && (0 <=? x) | None => true end
  | MambaSpec _ _ => true
  end.
Lemma sizedb_sized s : sizedb s = true -> sized s.
Proof.
  unfold sizedb, sized. rewrite !andb_true_iff. intros [[H1 H2] H3]. split; [lia|]. split; [intros p Hp; rewrite Hp in H2; lia|].
  destruct s; [|done]. intros w x Hw. rewrite Hw in H3. lia.
Qed.
Lemma sized_groups gs : forallb (fun g => forallb sizedb (iter_layer_specs (kv_cache_spec g))) gs = true -> Forall sized_group gs.
Proof.
  rewrite forallb_forall. intros H. apply Forall_forall. intros g Hg. apply list_elem_of_In, H in Hg. rewrite forallb_forall in Hg.
  apply Forall_forall. intros s Hs. by apply sizedb_sized, Hg, list_elem_of_In.
Qed.

Section Grows.
  Context (cfg : PlanConfig) (a b : Z) (Hab : a <= b).
  Context (Ha : 1 <= a) (Hdcp : 0 < decode_context_parallel_size cfg) (Hseqs : 0 <= max_num_seqs cfg).
  Context (Hflight : 0 < max_in_flight_tokens cfg).

#[local] Abbreviation at_len n := (cfg <| max_model_len := n |>).

Lemma admission_grows bs c : 0 < bs -> max_admission_blocks (at_len a) bs c <= max_admission_blocks (at_len b) bs c.
Proof.
  intros Hbs. assert (forall w, cdiv (Z.min w a) bs <= cdiv (Z.min w b) bs) as Hc by (intros w; apply cdiv_grows; lia).
  unfold max_admission_blocks, max_in_flight_tokens. destruct c; simpl; try apply Hc; try apply Z.add_le_mono_r, Hc; lia.
Qed.

Lemma ole_scaled x y p : 0 < p -> x <= y -> ole (Ok (x * p)) (Ok (y * p)).
Proof. simpl. nia. Qed.

Lemma memory_grows s : sized s -> ole (max_memory_usage_bytes (at_len a) s) (max_memory_usage_bytes (at_len b) s).
Proof.
  intros (Hbs & Hp & _). destruct s as [bs f c|bs m]; simpl in Hbs.
  - assert (forall x y, x <= y -> ole (page ← page_size_bytes (AttentionSpec bs f c); Ok (x * page)) (page ← page_size_bytes (AttentionSpec bs f c); Ok (y * page))) as Hscale.
    { intros x y Hxy. apply ole_same. intros p Hpe. apply ole_scaled; [by apply Hp|done]. }
    unfold max_memory_usage_bytes. destruct c; try apply ole_refl; cbn [max_model_len decode_context_parallel_size];
      try (apply Hscale; simpl; case_match; repeat apply cdiv_grows; lia).
    all: try (apply Hscale, admission_grows; lia).
    all: apply ole_same; intros _ _; apply Hscale, admission_grows; lia.
  - unfold max_memory_usage_bytes. apply ole_same. intros p Hpe. simpl. case_bool_decide; [|case_bool_decide; simpl; lia].
    apply ole_scaled; [by apply Hp|]. apply Z.add_le_mono_r, cdiv_grows; lia.
Qed.

Lemma pages_grow s : sized s -> ole (max_memory_pages (at_len a) s) (max_memory_pages (at_len b) s).
Proof.
  intros Hs. unfold max_memory_pages. apply ole_bind; [by apply memory_grows|]. intros x y Hxy. apply ole_same. intros p Hp. simpl.
  apply cdiv_grows; [by apply Hs|done].
Qed.

Lemma uniform_pages_grow specs : Forall sized specs.*2 -> ole (uniform_pages (at_len a) specs) (uniform_pages (at_len b) specs).
Proof.
  intros Hs. unfold uniform_pages. apply oles_bind; [|apply pymax_le]. apply mapM_ole. eapply Forall_impl; [exact Hs|apply pages_grow].
Qed.

Lemma group_pages_grow g : sized_group g -> ole (group_pages (at_len a) g) (group_pages (at_len b) g).
Proof.
  unfold sized_group, group_pages. destruct (kv_cache_spec g); simpl; intros Hs; [|by apply uniform_pages_grow].
  apply pages_grow. inversion Hs; by subst.
Qed.

Lemma admission_nonneg n g : 1 <= n -> sized_group g -> on_layer_group is_private_ring g = true -> 0 <= group_admission (at_len n) g.
Proof.
  unfold sized_group, on_layer_group, group_admission. intros Hn. destruct (kv_cache_spec g) as [[bs f c|]|]; try done. intros Hs Hr.
  inversion Hs as [|? ? (Hbs & _ & Hw) _]; subst. destruct c as [| | | | | | |w x r| | | | |]; try done. destruct (Hw w x eq_refl). simpl in *.
  apply Z.add_nonneg_nonneg; [|lia]. unfold max_in_flight_tokens in *. simpl. apply cdiv_nonneg; lia.
Qed.

(** The ring of the draft layers grows too; whether there is one does not depend on the length. *)
Lemma ring_grows draft : Forall sized_group draft ->
  (dflash_ring_pages (at_len a) draft = Ok None /\ dflash_ring_pages (at_len b) draft = Ok None) \/
  exists p q, dflash_ring_pages (at_len a) draft = Ok (Some p) /\ dflash_ring_pages (at_len b) draft = Ok (Some q) /\ 1 <= p <= q.
Proof.
  intros Hs. unfold dflash_ring_pages. destruct draft as [|g draft]; [by left|]. simpl (has_kv_transfer_config _).
  destruct (has_kv_transfer_config cfg); [by left|]. destruct (forallb _ _) eqn:Hr; [|by left]. right. cbn [negb].
  assert (Forall (fun g => 0 <= group_admission (at_len a) g <= group_admission (at_len b) g) (g :: draft)) as Hadm.
  { apply Forall_forall. intros h Hh. rewrite Forall_forall in Hs. split.
    - apply admission_nonneg; [done|by apply Hs|]. rewrite forallb_forall in Hr. by apply Hr, list_elem_of_In.
    - specialize (Hs h Hh). unfold sized_group, group_admission in *. destruct (kv_cache_spec h) as [[bs f c|]|]; try lia.
      inversion Hs as [|? ? (? & _) _]; subst. by apply admission_grows. }
  pose proof (pymax_le (group_admission (at_len a) <$> g :: draft) (group_admission (at_len b) <$> g :: draft)) as Hle.
  destruct (pymax (group_admission (at_len a) <$> g :: draft)) as [x|] eqn:Ex; [|done].
  destruct (pymax (group_admission (at_len b) <$> g :: draft)) as [y|] eqn:Ey; [|done].
  simpl. eexists _, _. split_and!; [done..| |].
  - apply pymax_spec in Ex as [Hin _]. apply list_elem_of_fmap in Hin as (h & -> & Hh). rewrite Forall_forall in Hadm. specialize (Hadm h Hh). nia.
  - assert (x <= y) by (apply Hle, Forall2_fmap, Forall_Forall2_diag; eapply Forall_impl; [exact Hadm|]; simpl; lia). nia.
Qed.
End Grows.

(** ** All groups *)

Lemma Forall_sub_filter {A} (P Q : A -> Prop) `{!forall x, Decision (Q x)} l : Forall P l -> Forall P (filter Q l).
Proof. rewrite !Forall_forall. intros Hall x Hx. apply list_elem_of_filter in Hx as [_ Hx]. by apply Hall. Qed.

Lemma where_spec_sub P (specs : Specs) : Forall sized specs.*2 -> Forall sized (where_spec P specs).*2.
Proof.
  unfold where_spec, Specs in *. intros H. rewrite Forall_fmap in H. apply Forall_fmap. by apply Forall_sub_filter.
Qed.

Lemma singleton_in {A} `{EqDecision A} (l : list A) x : singleton_of l = Some x -> x ∈ l.
Proof.
  unfold singleton_of. destruct (remove_dups l) as [|y [|]] eqn:E; try done. intros [= ->]. apply elem_of_remove_dups. rewrite E. by left.
Qed.

Lemma sized_pages specs pages : mapM page_size_bytes specs = Ok pages -> Forall sized specs -> Forall (fun p => 0 < p) pages.
Proof.
  intros H%mapM_Ok. induction H as [|s p specs pages Hp _ IH]; constructor.
  - apply Forall_cons in H as [(_ & Hs & _) _]. by apply Hs.
  - apply Forall_cons in H as [_ Hs]. by apply IH.
Qed.

Lemma select_sub specs names (ls : Specs) : select_specs specs names = Ok ls -> Forall sized specs.*2 -> Forall sized ls.*2.
Proof.
  intros H Hs. apply select_specs_elem in H. apply Forall_fmap. eapply Forall_impl; [exact H|]. intros [n s] Hin. simpl.
  rewrite Forall_forall in Hs. apply Hs, list_elem_of_fmap. by exists (n, s).
Qed.

Record glm5_sized (l : Glm5Layout) : Prop := {
  gz_attn : Forall sized (attn_specs l).*2;
  gz_mamba : Forall sized_group (mamba_groups l);
  gz_draft : Forall sized_group (draft_groups l);
  gz_mla_page : 0 < mla_page l;
  gz_idx_page : 0 < idx_page l;
}.

Lemma glm5_layout_sized gs l : glm5_next_tensor_layout gs = Ok (Some l) -> Forall sized_group gs -> glm5_sized l.
Proof.
  unfold glm5_next_tensor_layout. intros H Hs. destruct (attn_group_of _) as [ag|] eqn:Ea; [|done].
  assert (forall P, Forall sized_group (filter (fun g => on_layer_group P g = true) gs)) as Hf by (intros P; by apply Forall_sub_filter).
  destruct (filter (fun g => on_layer_group is_mamba_spec g = true) gs) as [|m0 ms] eqn:Em; [done|]. rewrite <- Em in *.
  destruct (negb _); [done|]. destruct (negb _); [done|]. obind_in H. rename x into ls. obind_in H. rename x into mp. obind_in H. rename x into ip.
  destruct (singleton_of mp) as [p1|] eqn:E1; [|done]. destruct (singleton_of ip) as [p2|] eqn:E2; [|done]. obind_in H. destruct (negb _); [done|].
  assert (Forall sized (inner_specs ag).*2) as Hag.
  { unfold attn_group_of in Ea. apply last_Some_elem_of, list_elem_of_filter in Ea as [_ Ea]. apply list_elem_of_filter in Ea as [_ Ea].
    rewrite Forall_forall in Hs. specialize (Hs ag Ea). unfold sized_group, inner_specs in *. destruct (kv_cache_spec ag); [constructor|done]. }
  pose proof (select_sub _ _ _ Hx Hag) as Hls. apply sized_pages in Hx0; [|by apply where_spec_sub]. apply sized_pages in Hx1; [|by apply where_spec_sub].
  rewrite Forall_forall in Hx0. rewrite Forall_forall in Hx1. apply singleton_in, Hx0 in E1. apply singleton_in, Hx1 in E2.
  assert (forall tn tp, glm5_sized {| attn_specs := inner_specs ag; mamba_groups := filter (fun g => on_layer_group is_mamba_spec g = true) gs;
    mla_names := (where_spec per_token_spec ls).*1; idx_names := (where_spec compressed_spec ls).*1; mla_page := p1; idx_page := p2; tail_names := tn; tail_page := tp;
    draft_groups := filter (fun g => on_layer_group is_draft_class g = true) gs |}) as Hok by (intros; split; simpl; auto).
  destruct (tail_group_of _) as [tg|]; [|by injection H as <-]. destruct (singleton_of _); [|done]. destruct (negb _); [done|]. destruct (_ <? _); [done|]. by injection H as <-.
Qed.

Lemma groups_bytes_nonneg gs z : groups_bytes gs = Ok z -> Forall sized_group gs -> 0 <= z.
Proof.
  unfold groups_bytes. intros H Hs. obind_in H. injection H as <-. apply mapM_Ok in Hx.
  induction Hx as [|g y gs ys Hy _ IH]; simpl; [lia|]. apply Forall_cons in Hs as [Hg Hs]. cbv beta in Hy. obind_in Hy. injection Hy as <-.
  assert (0 <= x); [|specialize (IH Hs); unfold zlen; nia]. unfold sized_group, group_page_size_bytes in *.
  destruct (kv_cache_spec g) as [s|bs specs]; simpl in *.
  - inversion Hg as [|? ? (_ & Hp & _) _]; subst. specialize (Hp _ Hx). lia.
  - obind_in Hx. injection Hx as <-. apply sized_pages in Hx0; [|done]. clear -Hx0. induction Hx0; simpl; lia.
Qed.

Lemma glm5_memory_grows cfg a b gs l : a <= b -> 1 <= a -> 0 < decode_context_parallel_size cfg -> 0 <= max_num_seqs cfg -> 0 < max_in_flight_tokens cfg ->
  glm5_next_tensor_layout gs = Ok (Some l) -> Forall sized_group gs -> gs <> [] ->
  ole (max_memory_usage_bytes_from_groups (cfg <| max_model_len := a |>) gs) (max_memory_usage_bytes_from_groups (cfg <| max_model_len := b |>) gs).
Proof.
  intros Hab Ha Hdcp Hseqs Hfl Hglm Hs Hne. pose proof (glm5_layout_sized _ _ Hglm Hs) as [Z1 Z2 Z3 Z4 Z5].
  unfold max_memory_usage_bytes_from_groups, dflash_ring_bytes. destruct gs as [|g0 gs0]; [done|]. rewrite Hglm. cbn [mbind outcome_bind].
  assert (0 <= glm5_base_bytes l) as Hbase by (unfold glm5_base_bytes, zlen; nia).
  apply ole_bind; [by apply uniform_pages_grow|]. intros x y Hxy.
  apply oles_bind; [apply mapM_ole; eapply Forall_impl; [exact Z2|]; intros g; by apply group_pages_grow|]. intros ms ms' Hms%sum_list_le.
  set (tail := match tail_names l with [] => 0 | _ => 1 end).
  destruct (ring_grows cfg a b Hab Ha Hseqs Hfl _ Z3) as [[-> ->]|(p & q & -> & -> & Hpq)]; cbn [mbind outcome_bind].
  - cbn [Z.eqb negb]. apply ole_same. intros z Hz. pose proof (groups_bytes_nonneg _ _ Hz Z3). simpl. nia.
  - destruct (groups_bytes (draft_groups l)) as [z|] eqn:Hz; [|done]. pose proof (groups_bytes_nonneg _ _ Hz Z3). cbn [mbind outcome_bind].
    destruct (decide (z = 0)) as [->|Hz0]; [rewrite !Z.mul_0_r; simpl; nia|].
    destruct (Z.eqb_spec (p * z) 0); [nia|]. destruct (Z.eqb_spec (q * z) 0); [nia|]. simpl. nia.
Qed.

Lemma group_memory_grows cfg a b gs : a <= b -> 1 <= a -> 0 < decode_context_parallel_size cfg -> 0 <= max_num_seqs cfg -> 0 < max_in_flight_tokens cfg ->
  Forall sized_group gs ->
  ole (max_memory_usage_bytes_from_groups (cfg <| max_model_len := a |>) gs) (max_memory_usage_bytes_from_groups (cfg <| max_model_len := b |>) gs).
Proof.
  intros Hab Ha Hdcp Hseqs Hfl Hs. destruct gs as [|g0 gs0] eqn:Eg; [simpl; lia|]. rewrite <- Eg in *.
  destruct (glm5_next_tensor_layout gs) as [[l|]|e] eqn:Hglm.
  - apply (glm5_memory_grows _ _ _ _ l); try done. by subst.
  - unfold max_memory_usage_bytes_from_groups, pool_bytes_per_block. rewrite Eg. rewrite <- Eg, Hglm. cbn [mbind outcome_bind].
    apply ole_same. intros m Hm. repeat obind_in Hm. injection Hm as ->. apply oassert_Ok in Hx1.
    apply oles_bind; [apply mapM_ole; eapply Forall_impl; [exact Hs|]; intros g; by apply group_pages_grow|]. intros ps qs Hpq%sum_list_le. simpl. nia.
  - unfold max_memory_usage_bytes_from_groups. rewrite Eg, <- Eg, Hglm. done.
Qed.

Lemma same_length cfg : cfg <| max_model_len := max_model_len cfg |> = cfg.
Proof. by destruct cfg. Qed.

(** ** The estimate and auto-fit *)

(** The cache of a request of length [len] fits. *)
Definition fits_groups (cfg : PlanConfig) (gs : list KVCacheGroup) (available len : Z) : Prop :=
  exists n, max_memory_usage_bytes_from_groups (cfg <| max_model_len := len |>) gs = Ok n /\ n <= available.

(** A configuration and the groups of a worker as planning has them *)
Record plan_sane (cfg : PlanConfig) : Prop := {
  ps_len : 1 <= max_model_len cfg;
  ps_dcp : 0 < decode_context_parallel_size cfg;
  ps_seqs : 0 <= max_num_seqs cfg;
  ps_flight : 0 < max_in_flight_tokens cfg;
}.
Definition estimable (cfg : PlanConfig) (gs : list KVCacheGroup) : Prop :=
  Forall sized_group gs /\ exists m, max_memory_usage_bytes_from_groups cfg gs = Ok m.

Lemma estimate_largest cfg gs available : plan_sane cfg -> estimable cfg gs ->
  exists r, estimate_max_model_len_from_groups cfg gs available = Ok r /\ 0 <= r <= max_model_len cfg /\
    forall len, 1 <= len <= max_model_len cfg -> (fits_groups cfg gs available len <-> len <= r).
Proof.
  intros [Hl Hd Hq Hf] [Hs [m Hm]]. set (mem := fun len => max_memory_usage_bytes_from_groups (cfg <| max_model_len := len |>) gs).
  assert (forall x y, 1 <= x <= y -> ole (mem x) (mem y)) as Hg by (intros x y Hxy; apply group_memory_grows; lia || done).
  assert (forall x, 1 <= x <= max_model_len cfg -> exists n, mem x = Ok n) as Hok.
  { intros x Hx. specialize (Hg x _ Hx). unfold mem in Hg at 2. rewrite same_length, Hm in Hg. destruct (mem x); [eauto|done]. }
  destruct (search_largest (fun len => m ← mem len; Ok (m <=? available)) (fun len => match mem len with Ok n => n <=? available | _ => false end) (max_model_len cfg))
    as (r & Hr & Hr0 & Hr1); [done| | |].
  - intros x Hx. by destruct (Hok x Hx) as [n ->].
  - intros x y Hxy Hy. specialize (Hg x y Hxy). destruct (mem x), (mem y); simpl in *; try done. lia.
  - exists r. split; [exact Hr|]. split; [done|]. intros len Hlen. rewrite <- Hr1 by done. unfold fits_groups. fold (mem len). destruct (Hok len Hlen) as [n ->].
    split; [intros (n' & [= <-] & ?); lia|]. intros. exists n. split; [done|lia].
Qed.

(** All workers with groups can hold a request of length [len]. *)
Definition fits_all (cfg : PlanConfig) (workers : list (list KVCacheGroup * Z)) (len : Z) : Prop :=
  Forall (fun w => w.1 <> [] -> fits_groups cfg w.1 w.2 len) workers.

Lemma fit_workers_spec cfg workers fit : plan_sane cfg -> Forall (fun w => estimable cfg w.1) workers -> 0 <= fit <= max_model_len cfg ->
  exists r, fit_workers cfg workers fit = Ok r /\ 0 <= r <= fit /\
    forall len, 1 <= len <= max_model_len cfg -> (len <= r <-> len <= fit /\ fits_all cfg workers len).
Proof.
  intros Hc Hw. revert fit. induction Hw as [|[gs avail] ws Hg _ IH]; intros fit Hfit; simpl.
  - exists fit. split; [done|]. split; [lia|]. intros len Hlen. split; [|tauto]. intros. split; [done|]. constructor.
  - destruct gs as [|g gs'] eqn:Eg.
    + destruct (IH fit Hfit) as (r & -> & H1 & H2). exists r. split; [done|]. split; [done|]. intros len Hlen. rewrite H2 by done. unfold fits_all. rewrite Forall_cons. naive_solver.
    + rewrite <- Eg in *. destruct (estimate_largest cfg gs avail Hc Hg) as (m & -> & Hm & Hiff). cbn [mbind outcome_bind].
      destruct (IH (if m <? fit then m else fit)) as (r & -> & H1 & H2); [destruct (Z.ltb_spec m fit); lia|].
      exists r. split; [done|]. split; [destruct (Z.ltb_spec m fit); lia|]. intros len Hlen. rewrite H2 by done. unfold fits_all. rewrite Forall_cons. simpl.
      rewrite (Hiff len Hlen). assert (gs <> []) by by subst. destruct (Z.ltb_spec m fit); intuition lia.
Qed.

(** C20. Auto-fit ([max_model_len = -1]) picks the largest context length: with the length it
    leaves in the configuration, a request of that length fits on every worker, no longer one
    up to the model's own limit does, and nothing else of the configuration changes; it raises
    [ValueError] exactly when not even one token fits.  The binary search always ends. *)
Theorem auto_fit_largest cfg workers :
  plan_sane cfg -> Forall (fun w => estimable cfg w.1) workers ->
  match auto_fit_max_model_len cfg workers with
  | Ok cfg' => exists len, cfg' = cfg <| max_model_len := len |> /\ 1 <= len <= max_model_len cfg /\
      forall n, 1 <= n <= max_model_len cfg -> (fits_all cfg workers n <-> n <= len)
  | Raise e => e = ValueError /\ forall n, 1 <= n <= max_model_len cfg -> ~ fits_all cfg workers n
  end.
Proof.
  intros Hc Hw. pose proof (ps_len _ Hc) as Hlen. unfold auto_fit_max_model_len. destruct (forallb _ _) eqn:Hall.
  - exists (max_model_len cfg). rewrite same_length. split; [done|]. split; [lia|]. intros n Hn. split; [lia|]. intros _.
    apply Forall_forall. intros w Hwi. rewrite forallb_forall in Hall. apply list_elem_of_In, Hall, bool_decide_eq_true in Hwi. intros Hne. by destruct (w.1).
  - destruct (fit_workers_spec cfg workers (max_model_len cfg) Hc Hw ltac:(lia)) as (r & -> & Hr & Hiff). cbn [mbind outcome_bind].
    assert (forall n, 1 <= n <= max_model_len cfg -> (fits_all cfg workers n <-> n <= r)) as Hiff' by (intros n Hn; rewrite (Hiff n Hn); intuition lia).
    destruct (Z.leb_spec r 0); [split; [done|]; intros n Hn; rewrite Hiff' by done; lia|].
    destruct (Z.leb_spec (max_model_len cfg) r); [exists (max_model_len cfg); rewrite same_length|exists r]; (split; [done|split; [lia|]]).
    + intros n Hn. rewrite Hiff' by done. lia.
    + done.
Qed.

Lemma auto_fit_largest_witness :
  auto_fit_max_model_len (small_config LBNHC 1000 (-1)) [(small_groups, 20000)] = Ok (small_config LBNHC 144 (-1)) /\
  (exists len, small_config LBNHC 144 (-1) = small_config LBNHC 1000 (-1) <| max_model_len := len |> /\ 1 <= len <= 1000 /\
    forall n, 1 <= n <= 1000 -> (fits_all (small_config LBNHC 1000 (-1)) [(small_groups, 20000)] n <-> n <= len)).
Proof.
  assert (auto_fit_max_model_len (small_config LBNHC 1000 (-1)) [(small_groups, 20000)] = Ok (small_config LBNHC 144 (-1))) as E by (vm_compute; reflexivity).
  split; [exact E|]. pose proof (auto_fit_largest (small_config LBNHC 1000 (-1)) [(small_groups, 20000)]) as H. rewrite E in H. apply H.
  - split; vm_compute; done.
  - constructor; [|constructor]. split; [|eexists; vm_compute; reflexivity]. apply sized_groups. vm_compute. reflexivity.
Defined.
