(* ===== verification/KVWorkers.v ===== *)
(** The configurations of all workers: the same number of blocks everywhere, within the
    memory of every worker, and enough for one request of the maximum length. *)
From S2P Require Import Prelude KVBlock FreeQueue Request BlockHash BlockPool BlockPoolInv BlockPoolSpec BlockPoolCache CacheHit KVSpec KVGroups KVPlan KVModels KVGroupsThms KVLayout KVDisjoint KVFit.

Local Open Scope Z_scope.

(** ** One worker *)

Lemma place_specs_size layout bpb nb size parts o ts : place_specs layout bpb nb size parts o = Ok ts ->
  Forall (fun t => tensor_size t = size) ts.
Proof.
  revert o ts. induction parts as [|[s names] parts IH]; intros o ts H; simpl in H; [injection H as <-; constructor|].
  obind_in H. obind_in H. obind_in H. injection H as <-. constructor; [done|by eapply IH].
Qed.

(** A configuration outside the GLM-5.3-Flash layout *)
Record config_of (cfg : PlanConfig) (gs : list KVCacheGroup) (avail bpb : Z) (c : PlannedConfig) : Prop := {
  co_bytes : pool_bytes_per_block cfg gs = Ok bpb;
  co_pos : 0 < bpb;
  co_groups : planned_groups c = gs;
  co_blocks : planned_num_blocks c = may_override_num_blocks cfg (avail / bpb);
  co_sizes : Forall (fun t => tensor_size t = bpb * planned_num_blocks c) (kv_cache_tensors c);
}.

Lemma pool_bytes_pos cfg gs bpb : glm5_next_tensor_layout gs = Ok None -> pool_bytes_per_block cfg gs = Ok bpb -> 0 < bpb.
Proof. unfold pool_bytes_per_block. intros -> H. cbn [mbind outcome_bind] in H. repeat obind_in H. injection H as <-. apply oassert_Ok in Hx1. lia. Qed.

Lemma pool_bytes_len cfg gs n : glm5_next_tensor_layout gs = Ok None ->
  pool_bytes_per_block (cfg <| max_model_len := n |>) gs = pool_bytes_per_block cfg gs.
Proof. unfold pool_bytes_per_block. by intros ->. Qed.

Lemma config_is cfg gs avail c : gs <> [] -> glm5_next_tensor_layout gs = Ok None ->
  get_kv_cache_config_from_groups cfg gs avail = Ok c -> exists bpb, config_of cfg gs avail bpb c.
Proof.
  intros Hne Hglm H. unfold get_kv_cache_config_from_groups in H. destruct gs as [|g gs0]; [done|]. remember (g :: gs0) as gs eqn:Eg. clear Eg Hne.
  rewrite Hglm in H. cbn [mbind outcome_bind] in H. obind_in H. rename x into layout. obind_in H. obind_in H. rename x0 into bpb. obind_in H. rename x0 into ts. injection H as <-.
  exists bpb. split; simpl; try done; [by eapply pool_bytes_pos|]. apply Forall_concat. apply mapM_Ok in Hx2. clear -Hx2.
  induction Hx2 as [|g t gs ts Ht _ IH]; constructor; [by eapply place_specs_size|done].
Qed.

(** The check leaves room for a request of the maximum length and the null block. *)
Lemma check_room cfg gs avail check bpb pages : gs <> [] -> glm5_next_tensor_layout gs = Ok None -> pool_bytes_per_block cfg gs = Ok bpb ->
  usable_memory cfg gs avail = Ok check -> check_worker cfg gs check = Ok tt -> mapM (group_pages cfg) gs = Ok pages ->
  sum_list pages + 1 <= avail / bpb.
Proof.
  intros Hne Hglm Hb Hu Hc Hp. pose proof (pool_bytes_pos _ _ _ Hglm Hb) as Hpos. destruct gs as [|g gs0]; [done|]. remember (g :: gs0) as gs eqn:Eg.
  unfold usable_memory in Hu. rewrite Eg, <- Eg, Hb in Hu. injection Hu as <-. unfold check_worker in Hc. rewrite Eg, <- Eg in Hc.
  unfold check_enough_memory in Hc. destruct (_ <=? 0); [done|]. unfold max_memory_usage_bytes_from_groups in Hc at 1. rewrite Eg, <- Eg, Hglm in Hc. cbn [mbind outcome_bind] in Hc.
  rewrite Hb in Hc. cbn [mbind outcome_bind] in Hc. rewrite Hp in Hc. cbn [mbind outcome_bind] in Hc.
  destruct (Z.ltb_spec (avail - bpb) (bpb * sum_list pages)); [by obind_in Hc|]. apply Z.div_le_lower_bound; lia.
Qed.

(** ** Projection *)

(** All layers of a group need the same number of pages. *)
Definition even_group (cfg : PlanConfig) (g : KVCacheGroup) : Prop :=
  exists b, Forall (fun s => max_memory_pages cfg s = Ok b) (iter_layer_specs (kv_cache_spec g)).

Lemma pymax_const l b m : Forall (fun x => x = b) l -> pymax l = Ok m -> m = b.
Proof. intros Hl Hm. apply pymax_spec in Hm as [Hm _]. rewrite Forall_forall in Hl. by apply Hl. Qed.

Lemma group_pages_const cfg g b m : Forall (fun s => max_memory_pages cfg s = Ok b) (iter_layer_specs (kv_cache_spec g)) ->
  group_pages cfg g = Ok m -> m = b.
Proof.
  unfold group_pages. destruct (kv_cache_spec g) as [s|bs specs]; simpl; intros Hs H.
  - inversion Hs; subst. congruence.
  - unfold uniform_pages in H. obind_in H. eapply pymax_const; [|exact H]. apply mapM_Ok in Hx. clear -Hs Hx. revert Hs.
    induction Hx; intros Hs; constructor; apply Forall_cons in Hs as [? ?]; [congruence|auto].
Qed.

Lemma project_even cfg worker g g' : project_group worker g = Ok g' ->
  forall b, Forall (fun s => max_memory_pages cfg s = Ok b) (iter_layer_specs (kv_cache_spec g)) ->
  Forall (fun s => max_memory_pages cfg s = Ok b) (iter_layer_specs (kv_cache_spec g')).
Proof.
  unfold project_group. intros H b Hb. obind_in H. injection H as <-. simpl. destruct (filter _ _) as [|n names0]; [by injection Hx as <-|]. remember (n :: names0) as names eqn:En. clear En.
  destruct (kv_cache_spec g) as [s|bs specs]; [by injection Hx as <-|]. obind_in Hx. injection Hx as <-. simpl in *.
  apply select_specs_elem in Hx0. apply Forall_fmap. eapply Forall_impl; [exact Hx0|]. intros [m s] Hin. simpl. rewrite Forall_forall in Hb.
  apply Hb, list_elem_of_fmap. by exists (m, s).
Qed.

(** So every worker counts the same pages. *)
Lemma projected_pages cfg groups w w' gs gs' ps ps' : Forall (even_group cfg) groups ->
  project_kv_cache_groups_to_worker groups w = Ok gs -> project_kv_cache_groups_to_worker groups w' = Ok gs' ->
  mapM (group_pages cfg) gs = Ok ps -> mapM (group_pages cfg) gs' = Ok ps' -> ps = ps'.
Proof.
  unfold project_kv_cache_groups_to_worker. intros He H1%mapM_Ok H2%mapM_Ok H3%mapM_Ok H4%mapM_Ok.
  revert gs' ps ps' H2 H3 H4. induction H1 as [|g g1 groups gs Hg _ IH]; intros gs' ps ps' H2 H3 H4.
  - inversion H2; subst. inversion H3; subst. by inversion H4.
  - apply Forall_cons in He as [[b Hb] He]. apply Forall2_cons_inv_l in H2 as (g2 & gs2 & Hg2 & H2 & ->). apply Forall2_cons_inv_l in H3 as (p & ps0 & Hp & H3 & ->).
    apply Forall2_cons_inv_l in H4 as (q & qs0 & Hq & H4 & ->). f_equal; [|by eapply IH].
    rewrite (group_pages_const _ _ b _ (project_even _ _ _ _ Hg b Hb) Hp). by rewrite (group_pages_const _ _ b _ (project_even _ _ _ _ Hg2 b Hb) Hq).
Qed.

(** ** All workers *)

Lemma zip_lookup {A B} (l : list A) (k : list B) i x y : l !! i = Some x -> k !! i = Some y -> zip l k !! i = Some (x, y).
Proof. intros Hx Hy. apply lookup_zip_with_Some. by exists x, y. Qed.

Lemma auto_fit_only_len cfg ws cfg' : auto_fit_max_model_len cfg ws = Ok cfg' -> exists len, cfg' = cfg <| max_model_len := len |>.
Proof.
  unfold auto_fit_max_model_len. destruct (forallb _ _); [intros [= <-]; exists (max_model_len cfg); by rewrite same_length|].
  intros H. obind_in H. destruct (_ <=? 0); [done|]. injection H as <-. destruct (_ <=? _); [exists (max_model_len cfg); by rewrite same_length|by exists x].
Qed.

(** What planning does for the [k]-th worker *)
Record worker_plan (cfg cfg' : PlanConfig) (groups : list KVCacheGroup) (n : Z) (w : Specs * Z) (c0 c : PlannedConfig) (gs : list KVCacheGroup) (av ch : Z) : Prop := {
  wp_project : project_kv_cache_groups_to_worker groups w.1 = Ok gs;
  wp_avail : effective_memory cfg gs w.2 = Ok av;
  wp_usable : usable_memory cfg gs av = Ok ch;
  wp_check : check_worker cfg' gs ch = Ok tt;
  wp_config : get_kv_cache_config_from_groups cfg' gs av = Ok c0;
  wp_shrink : shrink_config cfg' n c0 = Ok c;
}.

Lemma plan_workers_inv cfg groups workers cfg' final : plan_workers cfg groups workers = Ok (cfg', final) ->
  (exists len, cfg' = cfg <| max_model_len := len |>) /\ length final = length workers /\
  exists n configs, pymin (planned_num_blocks <$> configs) = Ok n /\ length configs = length workers /\
    forall k w, workers !! k = Some w -> exists c0 c gs av ch, configs !! k = Some c0 /\ final !! k = Some c /\
      worker_plan cfg cfg' groups n w c0 c gs av ch.
Proof.
  unfold plan_workers. intros H. obind_in H. rename x into projected, Hx into Hproj. obind_in H. rename x into avail, Hx into Hav.
  obind_in H. rename x into check, Hx into Hch. obind_in H. rename x into cfg1, Hx into Hfit. obind_in H. rename Hx into Hck. obind_in H. rename x0 into configs, Hx into Hcf.
  obind_in H. rename x0 into n, Hx into Hmin. obind_in H. rename Hx into Hsh. injection H as <- <-. rename x0 into final.
  assert (length final = length workers /\ length configs = length workers) as [Hl1 Hl2].
  { apply mapM_Ok, Forall2_length in Hproj. apply mapM_Ok, Forall2_length in Hav. apply mapM_Ok, Forall2_length in Hcf. apply mapM_Ok, Forall2_length in Hsh.
    rewrite !length_zip_with in *. lia. }
  split; [|split; [done|]].
  - destruct (_ =? _); [by eapply auto_fit_only_len|]. injection Hfit as <-. exists (max_model_len cfg). by rewrite same_length.
  - exists n, configs. split; [done|]. split; [done|]. intros k w Hw.
    destruct (mapM_lookup _ _ _ _ _ Hproj Hw) as (gs & Hgs & P). destruct (mapM_lookup _ _ _ _ _ Hav (zip_lookup _ _ _ _ _ Hgs Hw)) as (av & Hk & A).
    destruct (mapM_lookup _ _ _ _ _ Hch (zip_lookup _ _ _ _ _ Hgs Hk)) as (ch & Hkc & C). destruct (mapM_lookup _ _ _ _ _ Hck (zip_lookup _ _ _ _ _ Hgs Hkc)) as ([] & _ & K).
    destruct (mapM_lookup _ _ _ _ _ Hcf (zip_lookup _ _ _ _ _ (zip_lookup _ _ _ _ _ Hgs Hw) Hk)) as (c0 & Hc0 & F). cbv beta in F. unfold worker_config in F. obind_in F.
    destruct (mapM_lookup _ _ _ _ _ Hsh Hc0) as (c & Hc & S). exists c0, c, gs, av, ch. done.
Qed.

(** A worker that can hold [m] pages per request gets more blocks than that. *)
Lemma worker_blocks cfg cfg' groups n w c0 c gs av ch : worker_plan cfg cfg' groups n w c0 c gs av ch ->
  gs <> [] -> glm5_next_tensor_layout gs = Ok None -> (exists len, cfg' = cfg <| max_model_len := len |>) -> (forall o, num_gpu_blocks_override cfg = Some o -> n = o) ->
  exists bpb, config_of cfg' gs av bpb c0 /\ planned_num_blocks c0 = av / bpb /\
    (num_gpu_blocks_override cfg = None -> av = w.2) /\
    (exists pages, mapM (group_pages cfg') gs = Ok pages /\ sum_list pages + 1 <= planned_num_blocks c0) /\
    planned_num_blocks c = n /\ planned_groups c = gs /\ Forall (fun t => tensor_size t = bpb * n) (kv_cache_tensors c).
Proof.
  intros [P A U K F S] Hne Hglm [len Hlen] Hn. destruct (config_is _ _ _ _ Hne Hglm F) as [bpb C]. exists bpb. pose proof C as [B Bpos Bg Bn Bs].
  assert (pool_bytes_per_block cfg gs = Ok bpb) as B' by (rewrite Hlen, pool_bytes_len in B; done).
  assert (num_gpu_blocks_override cfg' = num_gpu_blocks_override cfg) as Hov by by rewrite Hlen.
  assert (planned_num_blocks c0 = av / bpb) as Hnb.
  { rewrite Bn. unfold may_override_num_blocks. rewrite Hov. unfold effective_memory in A. destruct (num_gpu_blocks_override cfg) as [o|]; [|done].
    destruct gs as [|g gs0]; [done|]. rewrite B' in A. cbn [mbind outcome_bind] in A. unfold dflash_ring_bytes in A. rewrite Hglm in A. injection A as <-. simpl.
    rewrite Z.add_0_r, Z.div_mul by lia. done. }
  split; [done|]. split; [done|]. split; [intros Ho; unfold effective_memory in A; rewrite Ho in A; by injection A as <-|]. split.
  - assert (usable_memory cfg' gs av = Ok ch) as U'. { unfold usable_memory in *. destruct gs; [done|]. by rewrite B' in U; rewrite B. }
    assert (exists pages, mapM (group_pages cfg') gs = Ok pages) as [pages Hpages].
    { unfold check_worker in K. destruct gs as [|g gs0] eqn:Eg; [done|]. rewrite <- Eg in *. unfold check_enough_memory in K. destruct (_ <=? 0); [done|].
      unfold max_memory_usage_bytes_from_groups in K at 1. rewrite Eg, <- Eg, Hglm in K. cbn [mbind outcome_bind] in K. rewrite B in K. cbn [mbind outcome_bind] in K.
      destruct (mapM (group_pages cfg') gs); [eauto|done]. }
    exists pages. split; [done|]. rewrite Hnb. apply (check_room cfg' gs av ch bpb); done.
  - unfold shrink_config in S. destruct (Z.eqb_spec (planned_num_blocks c0) n) as [He|He]; [injection S as <-; split; [done|]; split; [done|by rewrite He in Bs]|].
    rewrite Bg, B in S. cbn [mbind outcome_bind] in S. unfold dflash_ring_bytes in S. rewrite Hglm in S. cbn [mbind outcome_bind] in S. rewrite Z.add_0_r in S.
    destruct (config_is _ _ _ _ Hne Hglm S) as [b2 [E1 E2 E3 E4 E5]]. rewrite B in E1. injection E1 as <-.
    assert (planned_num_blocks c = n) as Hcn; [|split; [done|]; split; [done|by rewrite Hcn in E5]].
    rewrite E4. unfold may_override_num_blocks. rewrite Z.div_mul by lia. destruct (num_gpu_blocks_override cfg') as [o|] eqn:Eo; [|done]. simpl.
    destruct He. rewrite Bn. unfold may_override_num_blocks. rewrite Eo. symmetry. apply Hn. by rewrite <- Hov.
Qed.

Lemma config_nil cfg avail c : get_kv_cache_config_from_groups cfg [] avail = Ok c ->
  c = {| planned_num_blocks := 1; kv_cache_tensors := []; planned_groups := [] |}.
Proof. by intros [= <-]. Qed.

(** No group: every worker has one block and nothing in it. *)
Lemma no_groups cfg workers cfg' final : plan_workers cfg [] workers = Ok (cfg', final) ->
  Forall (fun c => c = {| planned_num_blocks := 1; kv_cache_tensors := []; planned_groups := [] |}) final.
Proof.
  intros (_ & Hl & n & configs & Hmin & Hl' & Hall)%plan_workers_inv. set (c1 := {| planned_num_blocks := 1; kv_cache_tensors := []; planned_groups := [] |}).
  assert (forall k w, workers !! k = Some w -> configs !! k = Some c1 /\ exists c, final !! k = Some c /\ shrink_config cfg' n c1 = Ok c) as Hc.
  { intros k w Hw. destruct (Hall k w Hw) as (c0 & c & gs & av & ch & Hc0 & Hc & [P _ _ _ F S]). unfold project_kv_cache_groups_to_worker in P. simpl in P. injection P as <-.
    apply config_nil in F as ->. eauto. }
  assert (n = 1) as ->.
  { apply pymin_spec in Hmin as [Hin _]. apply list_elem_of_fmap in Hin as (c0 & -> & Hin). apply list_elem_of_lookup in Hin as [k Hk].
    destruct (lookup_lt_is_Some_2 workers k) as [w Hw]; [apply lookup_lt_Some in Hk; lia|]. destruct (Hc k w Hw) as [Hk' _]. rewrite Hk in Hk'. by injection Hk' as ->. }
  apply Forall_lookup. intros k c Hk. destruct (lookup_lt_is_Some_2 workers k) as [w Hw]; [apply lookup_lt_Some in Hk; lia|].
  destruct (Hc k w Hw) as [_ (c' & Hk' & S)]. rewrite Hk in Hk'. injection Hk' as <-. by injection S as <-.
Qed.

(** The promise of planning to the workers *)
Record workers_planned (cfg cfg' : PlanConfig) (groups : list KVCacheGroup) (workers : list (Specs * Z)) (final : list PlannedConfig) : Prop := {
  wk_length : length final = length workers;
  wk_same : exists n, Forall (fun c => planned_num_blocks c = n) final;
  wk_groups : forall k w c, workers !! k = Some w -> final !! k = Some c -> project_kv_cache_groups_to_worker groups w.1 = Ok (planned_groups c);
  wk_memory : num_gpu_blocks_override cfg = None -> forall k w c t, workers !! k = Some w -> final !! k = Some c -> t ∈ kv_cache_tensors c -> tensor_size t <= w.2;
  wk_room : groups <> [] -> forall c, c ∈ final -> exists pages, mapM (group_pages cfg') (planned_groups c) = Ok pages /\ sum_list pages + 1 <= planned_num_blocks c;
}.

Lemma projected_nonempty groups w gs : project_kv_cache_groups_to_worker groups w = Ok gs -> groups <> [] -> gs <> [].
Proof. intros H%mapM_Ok%Forall2_length Hne ->. by destruct groups. Qed.

Section Workers.
  Context (cfg cfg' : PlanConfig) (groups : list KVCacheGroup) (workers : list (Specs * Z)) (final : list PlannedConfig).
  Context (Hplan : plan_workers cfg groups workers = Ok (cfg', final)) (Hne : groups <> []).
  Context (Hglm : forall w gs, w ∈ workers -> project_kv_cache_groups_to_worker groups w.1 = Ok gs -> glm5_next_tensor_layout gs = Ok None).
  Context (Heven : Forall (even_group cfg') groups).

(** Every worker, planned alone, has at least [n] blocks, and one has exactly [n]. *)
Lemma planned_worker : exists n, forall k w c, workers !! k = Some w -> final !! k = Some c ->
  exists gs bpb av pages, project_kv_cache_groups_to_worker groups w.1 = Ok gs /\ 0 < bpb /\ n <= av / bpb /\
    (num_gpu_blocks_override cfg = None -> av = w.2) /\ mapM (group_pages cfg') gs = Ok pages /\ sum_list pages + 1 <= n /\
    planned_num_blocks c = n /\ planned_groups c = gs /\ Forall (fun t => tensor_size t = bpb * n) (kv_cache_tensors c).
Proof.
  destruct (plan_workers_inv _ _ _ _ _ Hplan) as (Hlen & Hl & n & configs & Hmin & Hl' & Hall). exists n. apply pymin_spec in Hmin as [Hin Hle].
  assert (forall k w, workers !! k = Some w -> exists c0 c gs av ch, configs !! k = Some c0 /\ final !! k = Some c /\ worker_plan cfg cfg' groups n w c0 c gs av ch /\
    gs <> [] /\ glm5_next_tensor_layout gs = Ok None) as Hw.
  { intros k w Hk. destruct (Hall k w Hk) as (c0 & c & gs & av & ch & H1 & H2 & H3). exists c0, c, gs, av, ch. split_and!; try done.
    - eapply projected_nonempty; [apply (wp_project _ _ _ _ _ _ _ _ _ _ H3)|done].
    - apply (Hglm w); [by eapply list_elem_of_lookup_2|apply (wp_project _ _ _ _ _ _ _ _ _ _ H3)]. }
  apply list_elem_of_fmap in Hin as (cm & Hcm & Hin). apply list_elem_of_lookup in Hin as [m Hm].
  destruct (lookup_lt_is_Some_2 workers m) as [wm Hwm]; [apply lookup_lt_Some in Hm; lia|].
  destruct (Hw m wm Hwm) as (c0 & c' & gsm & avm & chm & M1 & _ & M3 & M4 & M5). rewrite Hm in M1. injection M1 as <-.
  assert (forall o, num_gpu_blocks_override cfg = Some o -> n = o) as Hov.
  { intros o Ho. destruct (config_is _ _ _ _ M4 M5 (wp_config _ _ _ _ _ _ _ _ _ _ M3)) as [b [_ _ _ Hb _]]. rewrite Hcm, Hb. unfold may_override_num_blocks.
    destruct Hlen as [len ->]. simpl. by rewrite Ho. }
  destruct (worker_blocks _ _ _ _ _ _ _ _ _ _ M3 M4 M5 Hlen Hov) as (bm & _ & _ & _ & (pm & Hpm & Hroom) & _).
  intros k w c Hk Hc. destruct (Hw k w Hk) as (c0 & c1 & gs & av & ch & W1 & W2 & W3 & W4 & W5). rewrite Hc in W2. injection W2 as <-.
  destruct (worker_blocks _ _ _ _ _ _ _ _ _ _ W3 W4 W5 Hlen Hov) as (bpb & C & Hnb & Hav & (ps & Hps & _) & R1 & R2 & R3).
  exists gs, bpb, av, ps. split_and!; try done.
  - apply (wp_project _ _ _ _ _ _ _ _ _ _ W3).
  - apply (co_pos _ _ _ _ _ C).
  - rewrite <- Hnb. apply Hle, list_elem_of_fmap. exists c0. split; [done|]. by eapply list_elem_of_lookup_2.
  - rewrite (projected_pages cfg' groups w.1 wm.1 gs gsm ps pm Heven); try done; [lia|apply (wp_project _ _ _ _ _ _ _ _ _ _ W3)|apply (wp_project _ _ _ _ _ _ _ _ _ _ M3)].
Qed.
End Workers.

(** C11. When planning succeeds on workers without the GLM-5.3-Flash layout, and the layers of a
    group need equally many pages for a request ([even_group]), every worker gets its
    part of the groups with the same number of blocks, in tensors no larger than the worker's
    memory (unless the number of blocks is overridden), and the blocks suffice for one request
    of the maximum length, the one auto-fit chose included, besides the null block.  (With the
    GLM-5.3-Flash layout they need not suffice, see [KVGlm5].) *)
Theorem plan_workers_sound cfg groups workers cfg' final :
  plan_workers cfg groups workers = Ok (cfg', final) ->
  (forall w gs, w ∈ workers -> project_kv_cache_groups_to_worker groups w.1 = Ok gs -> glm5_next_tensor_layout gs = Ok None) ->
  Forall (even_group cfg') groups -> workers_planned cfg cfg' groups workers final.
Proof.
  intros Hplan Hglm Heven. pose proof (plan_workers_inv _ _ _ _ _ Hplan) as (_ & Hlen & _).
  assert (forall k c, final !! k = Some c -> exists w, workers !! k = Some w) as Hw.
  { intros k c Hk. apply lookup_lt_is_Some_2. apply lookup_lt_Some in Hk. lia. }
  destruct (decide (length groups = 0%nat)) as [E|E].
  - destruct groups; [|done]. pose proof (no_groups _ _ _ _ Hplan) as Hno. split; try done.
    + exists 1. eapply Forall_impl; [exact Hno|]. by intros c ->.
    + intros k w c Hk Hc. by rewrite (Forall_lookup_1 _ _ _ _ Hno Hc).
    + intros _ k w c t Hk Hc. rewrite (Forall_lookup_1 _ _ _ _ Hno Hc). by intros ?%elem_of_nil.
  - destruct (planned_worker _ _ _ _ _ Hplan) as [n Hn]; [by intros ->|done|done|]. split; [done|..].
    + exists n. apply Forall_lookup. intros k c Hc. destruct (Hw k c Hc) as [w Hk]. destruct (Hn k w c Hk Hc) as (gs & bpb & av & ps & _ & _ & _ & _ & _ & _ & ? & _). done.
    + intros k w c Hk Hc. destruct (Hn k w c Hk Hc) as (gs & bpb & av & ps & ? & _ & _ & _ & _ & _ & _ & -> & _). done.
    + intros Ho k w c t Hk Hc Ht. destruct (Hn k w c Hk Hc) as (gs & bpb & av & ps & _ & Hpos & Hle & Hav & _ & _ & _ & _ & Hs).
      rewrite Forall_forall in Hs. rewrite (Hs t Ht), <- (Hav Ho). pose proof (Z.mul_div_le av bpb Hpos). nia.
    + intros _ c Hc. apply list_elem_of_lookup in Hc as [k Hc]. destruct (Hw k c Hc) as [w Hk].
      destruct (Hn k w c Hk Hc) as (gs & bpb & av & ps & _ & _ & _ & _ & Hps & Hsum & -> & -> & _). by exists ps.
Qed.

(** Two workers with different memory, the length chosen by auto-fit *)
Lemma plan_workers_sound_witness : exists cfg' final,
  plan_workers (small_config LBNHC 1000 (-1)) small_groups [(small_model, 20000); (small_model, 30000)] = Ok (cfg', final) /\ max_model_len cfg' = 128 /\
  workers_planned (small_config LBNHC 1000 (-1)) cfg' small_groups [(small_model, 20000); (small_model, 30000)] final.
Proof.
  eexists _, _. split; [vm_compute; reflexivity|]. split; [reflexivity|]. apply plan_workers_sound.
  - vm_compute. reflexivity.
  - assert (project_kv_cache_groups_to_worker small_groups small_model = Ok small_groups) as E by (vm_compute; reflexivity).
    intros w gs Hw Hp. assert (w.1 = small_model) as Hw1 by (apply elem_of_cons in Hw as [->|Hw]; [|apply list_elem_of_singleton in Hw as ->]; reflexivity).
    rewrite Hw1, E in Hp. injection Hp as <-. vm_compute. reflexivity.
  - repeat (constructor; [eexists; constructor; [vm_compute; reflexivity|constructor]|]). constructor.
Defined.

(** ** The layers of every worker *)

Lemma config_keeps_groups cfg gs avail c : get_kv_cache_config_from_groups cfg gs avail = Ok c -> planned_groups c = gs.
Proof.
  unfold get_kv_cache_config_from_groups. destruct gs as [|g gs0]; [by intros [= <-]|]. remember (g :: gs0) as gs eqn:Eg. clear Eg. intros H. obind_in H. destruct x as [l|].
  - unfold glm5_config in H. repeat obind_in H. destruct (draft_regions _ _ _ _) as [t3 e]. obind_in H. by injection H as <-.
  - repeat obind_in H. by injection H as <-.
Qed.

Lemma shrink_keeps_groups cfg n c c' : shrink_config cfg n c = Ok c' -> planned_groups c' = planned_groups c.
Proof. unfold shrink_config. destruct (_ =? _); [by intros [= <-]|]. intros H. obind_in H. obind_in H. by eapply config_keeps_groups. Qed.

Lemma filter_concat {A} (P : A -> Prop) `{!forall x, Decision (P x)} (ls : list (list A)) : concat (filter P <$> ls) = filter P (concat ls).
Proof. induction ls as [|l' ls IH]; [done|]. csimpl. by rewrite IH, filter_app. Qed.

Lemma projected_names groups worker gs : project_kv_cache_groups_to_worker groups worker = Ok gs ->
  concat (layer_names <$> gs) = filter (fun n => n ∈ worker.*1) (concat (layer_names <$> groups)).
Proof.
  intros H. rewrite <- filter_concat. f_equal. apply mapM_Ok in H. induction H as [|g g' groups gs Hg _ IH]; [done|]. csimpl. rewrite IH. f_equal.
  unfold project_group in Hg. obind_in Hg. by injection Hg as <-.
Qed.

Lemma merge_layers_names l merged merged' : merge_layers merged l = Ok merged' -> NoDup merged.*1 ->
  NoDup merged'.*1 /\ (forall n, n ∈ merged'.*1 <-> n ∈ merged.*1 \/ n ∈ l.*1).
Proof.
  revert merged. induction l as [|[n s] l IH]; intros merged H Hnd; simpl in H.
  - injection H as <-. split; [done|]. intros n. split; [by left|]. intros [?|?%elem_of_nil]; done.
  - obind_in H. unfold merge_layer in Hx. simpl in Hx. destruct (odict_get n merged) as [s'|] eqn:E.
    + obind_in Hx. injection Hx as <-. destruct (IH _ H Hnd) as [H1 H2]. split; [done|]. intros m. rewrite H2. csimpl. rewrite elem_of_cons.
      assert (n ∈ merged.*1) by (apply odict_get_elem in E; apply list_elem_of_fmap; by exists (n, s')). naive_solver.
    + injection Hx as <-. apply odict_get_None in E. destruct (IH _ H) as [H1 H2].
      { rewrite fmap_app. apply NoDup_app. split; [done|]. split; [|apply NoDup_singleton]. simpl. intros m Hm ->%list_elem_of_singleton. done. }
      split; [done|]. intros m. rewrite H2, fmap_app. csimpl. rewrite elem_of_app, list_elem_of_singleton, elem_of_cons. tauto.
Qed.

(** C21. [get_kv_cache_configs] plans every layer of every worker once: the groups a worker
    gets hold exactly the worker's own layers, each in one group, for every model on which
    planning succeeds. *)
Theorem workers_get_their_layers cfg workers cfg' final :
  get_kv_cache_configs cfg workers = Ok (cfg', final) -> Forall (fun w => NoDup w.1.*1) workers ->
  length final = length workers /\
  forall k w c, workers !! k = Some w -> final !! k = Some c -> concat (layer_names <$> planned_groups c) ≡ₚ w.1.*1.
Proof.
  unfold get_kv_cache_configs. intros H Hw. obind_in H. rename x into merged. destruct (negb _); [done|]. obind_in H. rename x into specs. obind_in H. rename x into groups.
  destruct (merge_layers_names _ _ _ Hx ltac:(constructor)) as [Hnd Hin].
  assert (specs.*1 = merged.*1) as Hnames by (by eapply mapM_values).
  destruct (get_kv_cache_groups_grouping _ _ _ Hx1) as [Hperm _]. rewrite Hnames in Hperm.
  destruct (plan_workers_inv _ _ _ _ _ H) as (_ & Hlen & n & configs & _ & _ & Hall). split; [done|]. intros k w c Hk Hc.
  destruct (Hall k w Hk) as (c0 & c' & gs & av & ch & _ & Hc' & [P _ _ _ F S]). rewrite Hc in Hc'. injection Hc' as <-.
  rewrite (shrink_keeps_groups _ _ _ _ S), (config_keeps_groups _ _ _ _ F), (projected_names _ _ _ P), Hperm.
  apply NoDup_Permutation; [by apply NoDup_filter|exact (Forall_lookup_1 _ _ _ _ Hw Hk)|]. intros m. rewrite list_elem_of_filter, Hin. split; [tauto|].
  intros Hm. split; [done|]. right. apply list_elem_of_fmap in Hm as ([m' s] & -> & Hm). apply list_elem_of_fmap. exists (m', s). split; [done|].
  apply list_elem_of_In, in_concat. exists w.1. split; [|by apply list_elem_of_In]. apply list_elem_of_In, list_elem_of_fmap. exists w. split; [done|]. by eapply list_elem_of_lookup_2.
Qed.

Lemma workers_get_their_layers_witness : exists cfg' final,
  get_kv_cache_configs (small_config LBNHC 1000 (-1)) [(take 3 small_model, 20000); (drop 3 small_model, 30000)] = Ok (cfg', final) /\
  length final = 2%nat /\ forall k w c, [(take 3 small_model, 20000); (drop 3 small_model, 30000)] !! k = Some w -> final !! k = Some c ->
    concat (layer_names <$> planned_groups c) ≡ₚ w.1.*1.
Proof.
  eexists _, _. split; [vm_compute; reflexivity|]. apply (workers_get_their_layers (small_config LBNHC 1000 (-1)) [(take 3 small_model, 20000); (drop 3 small_model, 30000)] (small_config LBNHC 448 (-1))).
  - vm_compute. reflexivity.
  - repeat (constructor; [by apply (bool_decide_unpack _); vm_compute|]). constructor.
Defined.

(** ** A worker without layers of a group *)

(** The projection keeps the specs of a group of which the worker has no layer. *)
Lemma project_absent worker g : (forall n, n ∈ layer_names g -> n ∉ worker.*1) ->
  exists g', project_group worker g = Ok g' /\ layer_names g' = [] /\ kv_cache_spec g' = kv_cache_spec g.
Proof.
  intros Habs. unfold project_group.
  assert (filter (fun n => n ∈ worker.*1) (layer_names g) = []) as ->; [|eexists; done].
  destruct (filter _ _) as [|n l] eqn:E; [done|]. assert (n ∈ n :: l) as Hn by left. rewrite <- E in Hn.
  apply list_elem_of_filter in Hn as [H1 H2]. by destruct (Habs n H2).
Qed.

(** Planning emits a tensor for every part of the specs of a group. *)
Lemma parts_get_tensors layout bpb nb size parts off ts s names : place_specs layout bpb nb size parts off = Ok ts -> (s, names) ∈ parts ->
  exists t, t ∈ ts /\ tensor_layers t = names.
Proof.
  revert off ts. induction parts as [|[s' names'] parts IH]; intros off ts H Hin; [by apply elem_of_nil in Hin|]. simpl in H.
  obind_in H. obind_in H. obind_in H. injection H as <-. apply elem_of_cons in Hin as [[= <- <-]|Hin].
  - eexists. split; [left|done].
  - destruct (IH _ _ Hx1 Hin) as (t & Ht & <-). exists t. split; [by right|done].
Qed.

(** C39. A worker that has no layer of a group with per-layer specs (of its own layers, at least
    one) cannot allocate its cache.
    The projection keeps the other workers' specs in the group; when planning then succeeds
    (and the groups do not have the GLM-5.3-Flash layout), its configuration has a
    tensor all of whose layers belong to that group and none to the worker, and
    [allocate_kv_cache] fails on that tensor with [StopIteration], since it finds no group
    of the worker with the tensor's layer. *)
Theorem absent_layers_get_tensors cfg groups worker gs avail c g bs specs :
  project_kv_cache_groups_to_worker groups worker = Ok gs -> glm5_next_tensor_layout gs = Ok None ->
  get_kv_cache_config_from_groups cfg gs avail = Ok c ->
  g ∈ groups -> kv_cache_spec g = UniformTypeKVCacheSpecs bs specs -> specs <> [] -> specs.*1 ⊆ layer_names g ->
  (forall n, n ∈ layer_names g -> n ∉ worker.*1) ->
  exists t, t ∈ kv_cache_tensors c /\ tensor_layers t <> [] /\
    (forall n, n ∈ tensor_layers t -> n ∈ layer_names g /\ (n ∉ worker.*1)) /\
    tensor_spec (planned_groups c) t = Raise StopIteration.
Proof.
  intros Hproj Hglm Hcfg Hg Hspec Hne Hsub Habs. rewrite (config_keeps_groups _ _ _ _ Hcfg).
  destruct (project_absent worker g Habs) as (g' & Hg' & _ & Hsp).
  apply list_elem_of_lookup in Hg as [i Hi]. destruct (mapM_lookup _ _ _ _ _ Hproj Hi) as (g2 & Hi2 & Hg2). rewrite Hg' in Hg2. injection Hg2 as <-.
  assert (exists s names, (s, names) ∈ names_by id specs) as (s & names & Hin).
  { destruct (names_by id specs) as [|[s names] parts] eqn:E; [|exists s, names; left]. pose proof (names_by_perm id specs) as Hp. rewrite E in Hp.
    simpl in Hp. apply Permutation_nil_l in Hp. by destruct specs. }
  pose proof (names_by_forall id specs) as Hf. rewrite Forall_forall in Hf. destruct (Hf _ Hin) as [Hnn Hall]. simpl in Hnn, Hall. rewrite Forall_forall in Hall.
  unfold get_kv_cache_config_from_groups in Hcfg. destruct gs as [|g0 gs0]; [done|]. remember (g0 :: gs0) as gs eqn:Eg. rewrite Hglm in Hcfg. cbn [mbind outcome_bind] in Hcfg.
  obind_in Hcfg. obind_in Hcfg. obind_in Hcfg. obind_in Hcfg. injection Hcfg as <-. simpl.
  destruct (mapM_lookup _ _ _ _ _ Hx2 Hi2) as (ts & Hts & Hpl). unfold layers_by_spec in Hpl. rewrite Hsp, Hspec in Hpl.
  destruct (parts_get_tensors _ _ _ _ _ _ _ _ _ Hpl Hin) as (t & Ht & Hlay). exists t.
  assert (Habsent : forall n, n ∈ names -> n ∈ layer_names g /\ (n ∉ worker.*1)).
  { intros n Hn. destruct (Hall n Hn) as (s' & Hs' & _). assert (n ∈ layer_names g) as Hl by (apply Hsub, list_elem_of_fmap; by exists (n, s')). split; [done|by apply Habs]. }
  rewrite Hlay. split_and!; [|done|done|].
  - apply list_elem_of_In, in_concat. exists ts. split; apply list_elem_of_In; [by eapply list_elem_of_lookup_2|done].
  - unfold tensor_spec. rewrite Hlay. destruct names as [|n names]; [done|]. destruct (filter _ gs) as [|g3 l] eqn:E; [done|].
    assert (g3 ∈ g3 :: l) as H3 by left. rewrite <- E in H3. apply list_elem_of_filter in H3 as [H3 H4].
    destruct (Habsent n) as [_ Hno]; [left|]. destruct Hno.
    assert (n ∈ concat (layer_names <$> gs)) as Hn.
    { apply list_elem_of_In, in_concat. exists (layer_names g3). split; apply list_elem_of_In; [apply list_elem_of_fmap; by exists g3|done]. }
    rewrite (projected_names _ _ _ Hproj) in Hn. by apply list_elem_of_filter in Hn as [].
Qed.

(** Two pipeline stages: the second has none of the full-attention layers. *)
Definition stage_one : Specs := [("layers.0", full_layer 1); ("layers.1", full_layer 2); ("layers.2", window_layer 2)]%string.
Definition stage_two : Specs := [("layers.3", window_layer 2); ("layers.4", window_layer 2)]%string.
Definition stage_groups : list KVCacheGroup :=
  match get_kv_cache_groups (small_config BLNHC 64 64) (stage_one ++ stage_two) with Ok gs => gs | Raise _ => [] end.

Lemma absent_layers_get_tensors_witness : exists gs c t,
  project_kv_cache_groups_to_worker stage_groups stage_two = Ok gs /\
  get_kv_cache_config_from_groups (small_config BLNHC 64 64) gs 100000 = Ok c /\ t ∈ kv_cache_tensors c /\
  tensor_spec (planned_groups c) t = Raise StopIteration.
Proof.
  destruct (project_kv_cache_groups_to_worker stage_groups stage_two) as [gs|] eqn:E1; [|vm_compute in E1; discriminate E1].
  destruct (get_kv_cache_config_from_groups (small_config BLNHC 64 64) gs 100000) as [c|] eqn:E2;
    [|exfalso; vm_compute in E1; injection E1 as <-; vm_compute in E2; discriminate E2].
  destruct (stage_groups !! 0%nat) as [g|] eqn:E3; [|vm_compute in E3; discriminate E3].
  destruct (absent_layers_get_tensors (small_config BLNHC 64 64) stage_groups stage_two gs 100000 c g 16
    (inner_specs g) E1) as (t & H1 & _ & _ & H4).
  - vm_compute in E1. injection E1 as <-. vm_compute. reflexivity.
  - exact E2.
  - by eapply list_elem_of_lookup_2.
  - vm_compute in E3. injection E3 as <-. vm_compute. reflexivity.
  - vm_compute in E3. injection E3 as <-. vm_compute. discriminate.
  - assert ((inner_specs g).*1 = layer_names g) as -> by (vm_compute in E3; injection E3 as <-; reflexivity). done.
  - assert (layer_names g = ["layers.0"; "layers.1"]%string) as -> by (vm_compute in E3; injection E3 as <-; reflexivity).
    intros n Hn%list_elem_of_In Hw%list_elem_of_In. simpl in Hn, Hw. destruct Hn as [<-|[<-|[]]]; destruct Hw as [Hw|[Hw|[]]]; discriminate Hw.
  - exists gs, c, t. split; [reflexivity|]. split; [exact E2|]. split; [exact H1|exact H4].
Defined.
