(* ===== verification/KVGlm5.v ===== *)
(** The GLM-5.3-Flash layout: where MLA, Mamba, indexer, tail and draft layers share memory
    and that no block's data overwrites another's. *)
From S2P Require Import Prelude KVBlock FreeQueue Request BlockHash BlockPool BlockPoolInv BlockPoolSpec BlockPoolCache CacheHit KVSpec KVGroups KVPlan KVModels KVGroupsThms KVLayout KVDisjoint KVFit.

Local Open Scope Z_scope.

(** ** What the recognized layout says of the groups *)

Record glm5_layout_of (gs : list KVCacheGroup) (ag : KVCacheGroup) (l : Glm5Layout) : Prop := {
  gl_attn : ag ∈ gs /\ is_uniform_group ag = true /\ attn_specs l = inner_specs ag /\ forallb is_exact_mla (inner_specs ag).*2 = true;
  gl_mamba : Forall (fun g => g ∈ gs /\ on_layer_group is_mamba_spec g = true /\ group_page_size_bytes (kv_cache_spec g) = Ok (mla_page l)) (mamba_groups l);
  gl_draft : draft_groups l = filter (fun g => on_layer_group is_draft_class g = true) gs;
  gl_mla : Forall (fun n => n ∈ layer_names ag /\ forall s p, spec_of (attn_specs l) n = Ok s -> page_size_bytes s = Ok p -> p = mla_page l) (mla_names l);
  gl_idx : Forall (fun n => n ∈ layer_names ag /\ forall s p, spec_of (attn_specs l) n = Ok s -> page_size_bytes s = Ok p -> p = idx_page l) (idx_names l);
  gl_split : forall n, n ∈ mla_names l -> n ∈ idx_names l -> False;
  gl_tail : tail_names l = [] \/ exists tg, tg ∈ gs /\ tail_names l = layer_names tg /\ is_uniform_group tg = true /\
    forallb is_exact_mla (inner_specs tg).*2 = false;
}.

Lemma names_pages (specs ls : Specs) names P pages p : select_specs specs names = Ok ls -> mapM page_size_bytes (where_spec P ls).*2 = Ok pages ->
  singleton_of pages = Some p ->
  Forall (fun n => n ∈ names /\ (exists s, spec_of specs n = Ok s /\ P s = true) /\
    forall s q, spec_of specs n = Ok s -> page_size_bytes s = Ok q -> q = p) (where_spec P ls).*1.
Proof.
  intros Hsel Hpages Hone. apply Forall_forall. intros n Hn. unfold where_spec, Specs in *. apply list_elem_of_fmap in Hn as ([n' s] & -> & Hin). simpl.
  pose proof Hin as [HP Hls]%list_elem_of_filter. simpl in HP.
  assert (n' ∈ names /\ odict_get n' specs = Some s) as [Hnm Hget].
  { split; [rewrite <- (select_specs_names _ _ _ Hsel); apply list_elem_of_fmap; by exists (n', s)|].
    unfold select_specs in Hsel. apply list_elem_of_lookup in Hls as [j Hj]. destruct (mapM_lookup_r _ _ _ _ _ Hsel Hj) as (m & Hm & Hget). cbv beta in Hget. destruct (odict_get m specs) eqn:E; [|done]. injection Hget as <- <-. done. }
  split; [done|]. unfold spec_of. rewrite Hget. split; [by exists s|]. intros s' q [= <-] Hq. apply (singleton_dups _ _ Hone).
  apply mapM_Ok in Hpages. apply list_elem_of_lookup in Hin as [i Hi].
  destruct (Forall2_lookup_l _ _ _ i s Hpages) as (q' & Hq' & Hp); [by rewrite list_lookup_fmap, Hi|]. rewrite Hq in Hp. injection Hp as ->. by eapply list_elem_of_lookup_2.
Qed.

Lemma last_filter_in {A} (P : A -> Prop) `{!forall x, Decision (P x)} l x : last (filter P l) = Some x -> x ∈ l /\ P x.
Proof. intros Hl%last_Some_elem_of. apply list_elem_of_filter in Hl. tauto. Qed.

Lemma glm5_layout_inv gs l : glm5_next_tensor_layout gs = Ok (Some l) -> exists ag, glm5_layout_of gs ag l.
Proof.
  unfold glm5_next_tensor_layout. intros H. destruct (attn_group_of _) as [ag|] eqn:Ea; [|done]. apply last_filter_in in Ea as [[Hu Hag]%list_elem_of_filter Hmla].
  destruct (filter (fun g => on_layer_group is_mamba_spec g = true) gs) as [|m0 ms] eqn:Em; [done|]. rewrite <- Em in *.
  destruct (negb _); [done|]. destruct (negb _); [done|]. obind_in H. rename x into ls. obind_in H. rename x into mp. obind_in H. rename x into ip.
  destruct (singleton_of mp) as [p1|] eqn:E1; [|done]. destruct (singleton_of ip) as [p2|] eqn:E2; [|done]. obind_in H. rename x into pages. destruct (forallb _ pages) eqn:Hp; [|done]. cbn [negb] in H.
  pose proof (names_pages _ _ _ _ _ _ Hx Hx0 E1) as N1. pose proof (names_pages _ _ _ _ _ _ Hx Hx1 E2) as N2. exists ag.
  assert (forall tn tp, (tn = [] \/ exists tg, tg ∈ gs /\ tn = layer_names tg /\ is_uniform_group tg = true /\ forallb is_exact_mla (inner_specs tg).*2 = false) ->
    glm5_layout_of gs ag {| attn_specs := inner_specs ag; mamba_groups := filter (fun g => on_layer_group is_mamba_spec g = true) gs;
    mla_names := (where_spec per_token_spec ls).*1; idx_names := (where_spec compressed_spec ls).*1; mla_page := p1; idx_page := p2; tail_names := tn; tail_page := tp;
    draft_groups := filter (fun g => on_layer_group is_draft_class g = true) gs |}) as Hok.
  { intros tn tp Ht. split; simpl; try done.
    - apply Forall_forall. intros g Hg. pose proof Hg as [Hm Hin]%list_elem_of_filter. split_and!; [done|done|].
      apply list_elem_of_lookup in Hg as [i Hi]. destruct (mapM_lookup _ _ _ _ _ Hx2 Hi) as (q & Hq & ->). rewrite forallb_forall in Hp.
      f_equal. apply Z.eqb_eq, Hp, list_elem_of_In. by eapply list_elem_of_lookup_2.
    - eapply Forall_impl; [exact N1|]. naive_solver.
    - eapply Forall_impl; [exact N2|]. naive_solver.
    - intros n H1 H2. rewrite Forall_forall in N1. rewrite Forall_forall in N2. destruct (N1 n H1) as (_ & (s & Hs & P1) & _), (N2 n H2) as (_ & (s' & Hs' & P2) & _).
      rewrite Hs in Hs'. injection Hs' as <-. unfold per_token_spec, compressed_spec in *. destruct (attention_fields s) as [[bs a]|]; [|done]. apply bool_decide_eq_true in P1. rewrite P1 in P2. done. }
  destruct (tail_group_of _) as [tg|] eqn:Et; [|injection H as <-; apply Hok; by left]. destruct (singleton_of (_ <$> _)); [|done]. destruct (negb _); [done|]. destruct (_ <? _); [done|].
  injection H as <-. apply Hok. right. apply last_filter_in in Et as [[Hu' Hin]%list_elem_of_filter [Hne _]]. by exists tg.
Qed.

(** ** The tensors *)

Lemma imap_pair_lookup {A} (l : list A) k ix : imap pair l !! k = Some ix -> exists x, l !! k = Some x /\ ix = (k, x).
Proof. rewrite list_lookup_imap. intros (x & -> & Hx)%fmap_Some. eauto. Qed.

Lemma in_regions {A B} (f : nat * A -> outcome (list B)) l ts t : mapM f (imap pair l) = Ok ts -> t ∈ concat ts ->
  exists k x chunk, l !! k = Some x /\ f (k, x) = Ok chunk /\ t ∈ chunk.
Proof.
  intros Hm (chunk & Hc & Ht)%list_elem_of_In%in_concat. apply list_elem_of_In, list_elem_of_lookup in Hc as [k Hk]. apply list_elem_of_In in Ht.
  destruct (mapM_lookup_r _ _ _ _ _ Hm Hk) as (ix & Hix & Hf). apply imap_pair_lookup in Hix as (x & Hx & ->). by exists k, x, chunk.
Qed.

Section Glm5.
  Context (gs : list KVCacheGroup) (ag : KVCacheGroup) (l : Glm5Layout) (size nb : Z).
  Context (Hl : glm5_layout_of gs ag l) (Hnd : NoDup (concat (layer_names <$> gs))).
  (* [tail_groups_of] pads the tail to the indexer's page *)
  Context (Htail : forall tg n s, tg ∈ gs -> n ∈ layer_names tg -> n ∈ tail_names l -> spec_of (inner_specs tg) n = Ok s -> page_size_bytes s = Ok (idx_page l)).

Lemma group_unique g h n : g ∈ gs -> h ∈ gs -> n ∈ layer_names g -> n ∈ layer_names h -> g = h.
Proof.
  intros Hg Hh Hn Hn'. apply list_elem_of_lookup in Hg as [i Hi]. apply list_elem_of_lookup in Hh as [j Hj].
  assert (i = j) as ->; [|congruence]. eapply nodup_concat_inj; [exact Hnd| | |exact Hn|exact Hn']; by rewrite list_lookup_fmap; rewrite ?Hi, ?Hj.
Qed.

(** The layers that use the [i]-th MLA region, and the [i]-th indexer region, of a group [h] *)
Definition mla_user (i : nat) (n : string) (h : KVCacheGroup) : Prop :=
  h ∈ gs /\ n ∈ layer_names h /\
  (h = ag /\ mla_names l !! i = Some n \/ on_layer_group is_mamba_spec h = true /\ layer_names h !! i = Some n).
Definition idx_user (i : nat) (n : string) (h : KVCacheGroup) : Prop :=
  h ∈ gs /\ n ∈ layer_names h /\
  (h = ag /\ idx_names l !! i = Some n \/ forallb is_exact_mla (inner_specs h).*2 = false /\ tail_names l !! i = Some n).

Lemma mla_user_unique i n n' h : mla_user i n h -> mla_user i n' h -> n = n'.
Proof.
  destruct (gl_attn _ _ _ Hl) as (_ & Hu & _ & _).
  intros (_ & _ & [[-> H1]|[M1 H1]]) (_ & _ & [[E H2]|[M2 H2]]); try congruence.
  - unfold is_uniform_group, on_layer_group in *. by destruct (kv_cache_spec ag).
  - subst h. unfold is_uniform_group, on_layer_group in *. by destruct (kv_cache_spec ag).
Qed.

Lemma idx_user_unique i n n' h : idx_user i n h -> idx_user i n' h -> n = n'.
Proof.
  destruct (gl_attn _ _ _ Hl) as (_ & _ & _ & Hm).
  intros (_ & _ & [[-> H1]|[M1 H1]]) (_ & _ & [[E H2]|[M2 H2]]); try congruence.
Qed.

Lemma mla_region_tensor i name chunk t : mla_names l !! i = Some name -> mla_region l size nb i name = Ok chunk -> t ∈ chunk ->
  exists n h, mla_user i n h /\ t = single_tensor size n (mla_page l) (Z.of_nat i * mla_page l * nb) nb.
Proof.
  intros Hi H Ht. unfold mla_region in H. obind_in H. obind_in H. obind_in H. injection H as <-. rename x into s, x0 into p, x1 into ms.
  apply elem_of_cons in Ht as [->|Ht].
  - destruct (Forall_lookup_1 _ _ _ _ (gl_mla _ _ _ Hl) Hi) as [Hn Hp]. rewrite (Hp _ _ Hx Hx0). exists name, ag. split; [|done].
    destruct (gl_attn _ _ _ Hl) as (? & _). split; [done|]. split; [done|]. by left.
  - apply list_elem_of_In, in_concat in Ht as (c & Hc & Ht). apply list_elem_of_In in Ht. apply list_elem_of_In, list_elem_of_lookup in Hc as [k Hk].
    destruct (mapM_lookup_r _ _ _ _ _ Hx1 Hk) as (g & Hg & Hc). cbv beta in Hc. destruct (Forall_lookup_1 _ _ _ _ (gl_mamba _ _ _ Hl) Hg) as (Hin & Hmb & Hpg).
    destruct (layer_names g !! i) as [n|] eqn:En; [|injection Hc as <-; by apply elem_of_nil in Ht]. rewrite Hpg in Hc. injection Hc as <-.
    apply list_elem_of_singleton in Ht as ->. exists n, g. split; [|done]. split; [done|]. split; [by eapply list_elem_of_lookup_2|]. by right.
Qed.

Definition idx_base : Z := zlen (mla_names l) * mla_page l * nb.

Lemma idx_region_tensor i name chunk t : idx_names l !! i = Some name -> idx_region gs l size nb i name = Ok chunk -> t ∈ chunk ->
  exists n h, idx_user i n h /\ t = single_tensor size n (idx_page l) (idx_base + Z.of_nat i * idx_page l * nb) nb.
Proof.
  intros Hi H Ht. unfold idx_region in H. obind_in H. obind_in H. rename x into s, x0 into p. fold idx_base in H.
  destruct (Forall_lookup_1 _ _ _ _ (gl_idx _ _ _ Hl) Hi) as [Hn Hp]. pose proof (Hp _ _ Hx Hx0) as ->.
  assert (exists n h, idx_user i n h /\ single_tensor size name (idx_page l) (idx_base + Z.of_nat i * idx_page l * nb) nb = single_tensor size n (idx_page l) (idx_base + Z.of_nat i * idx_page l * nb) nb) as Hfirst.
  { exists name, ag. destruct (gl_attn _ _ _ Hl) as (? & _). split; [|done]. split; [done|]. split; [done|]. by left. }
  destruct (tail_names l) as [|tn0 tns] eqn:Et; [injection H as <-; by apply list_elem_of_singleton in Ht as ->|]. rewrite <- Et in *.
  destruct (tail_names l !! i) as [tn|] eqn:Etn; [|done]. obind_in H. obind_in H. obind_in H. injection H as <-. rename x into tg, x0 into ts.
  apply elem_of_cons in Ht as [->|Ht%list_elem_of_singleton]; [done|]. subst t.
  assert (tg ∈ gs /\ tn ∈ layer_names tg) as [Htg Htn].
  { unfold pyfirst in Hx1. destruct (filter _ gs) as [|g0 rest] eqn:Ef; [done|]. injection Hx1 as ->. assert (tg ∈ filter (fun g => tn ∈ layer_names g) gs) as Hin by (rewrite Ef; left).
    apply list_elem_of_filter in Hin. tauto. }
  assert (tn ∈ tail_names l) as Htl by by eapply list_elem_of_lookup_2.
  rewrite (Htail tg tn ts Htg Htn Htl Hx2) in Hx3. injection Hx3 as <-. exists tn, tg. split; [|done]. split; [done|]. split; [done|]. right. split; [|done].
  destruct (gl_tail _ _ _ Hl) as [He|(tg' & Hin & He & _ & Hf)]; [rewrite He in Htl; by apply elem_of_nil in Htl|]. by rewrite (group_unique tg tg' tn) by (done || by rewrite <- He).
Qed.
End Glm5.

(** Byte [addr] lies in block [b] of a tensor with one layer. *)
Definition in_block (t : KVCacheTensor) (b addr : Z) : Prop :=
  exists blocks, tensor_num_blocks t = Some blocks /\ 0 <= b < blocks /\
    tensor_offset t + b * block_stride t <= addr < tensor_offset t + (b + 1) * block_stride t.

Lemma in_block_single size n p o blocks b addr : 0 < p -> in_block (single_tensor size n p o blocks) b addr ->
  o <= addr < o + p * blocks /\ b = (addr - o) / p /\ 0 < blocks.
Proof.
  intros Hp (bl & [= <-] & Hb & Ha). simpl in Ha. split; [nia|]. split; [|lia]. apply (Z.div_unique _ _ _ (addr - o - p * b)); lia.
Qed.

(** Regions of equal size in a row *)
Lemma row_index base i p nb addr : 0 < p -> 0 < nb -> base + Z.of_nat i * p * nb <= addr < base + Z.of_nat i * p * nb + p * nb ->
  Z.of_nat i = (addr - base) / (p * nb).
Proof. intros Hp Hnb Ha. apply (Z.div_unique _ _ _ (addr - base - p * nb * Z.of_nat i)); nia. Qed.

Lemma draft_regions_spec size blocks layers o ts e : draft_regions size blocks layers o = (ts, e) -> 0 <= blocks -> Forall (fun np => 0 < np.2) layers ->
  o <= e /\ (forall k t, ts !! k = Some t -> exists n p o', t = single_tensor size n p o' blocks /\ 0 < p /\ o <= o' /\ o' + p * blocks <= e) /\
  (forall t t' b b' addr, t ∈ ts -> t' ∈ ts -> in_block t b addr -> in_block t' b' addr -> t = t').
Proof.
  intros H Hb Hp. revert o ts e H. induction Hp as [|[n p] layers Hp _ IH]; intros o ts e H; simpl in H.
  - injection H as <- <-. split; [lia|]. split; [done|]. intros ? ? ? ? ? ?%elem_of_nil. done.
  - destruct (draft_regions size blocks layers (o + p * blocks)) as [ts' e'] eqn:E. injection H as <- <-. simpl in Hp. destruct (IH _ _ _ E) as (I1 & I2 & I3).
    split; [nia|]. assert (forall t b addr, t ∈ ts' -> in_block t b addr -> o + p * blocks <= addr) as Hafter.
    { intros t b addr Ht Hin. apply list_elem_of_lookup in Ht as [k Hk]. destruct (I2 k t Hk) as (n' & p' & o' & -> & Hp' & Ho' & _). apply in_block_single in Hin; [lia|done]. }
    split.
    + intros [|k] t Hk; simpl in Hk; [injection Hk as <-; exists n, p, o; split_and!; try done; lia|].
      destruct (I2 k t Hk) as (n' & p' & o' & -> & ? & ? & ?). exists n', p', o'. split_and!; try done. nia.
    + intros t t' b b' addr [->|Ht]%elem_of_cons [->|Ht']%elem_of_cons Hin Hin'; [done| | |by eapply I3].
      * pose proof (Hafter _ _ _ Ht' Hin'). apply in_block_single in Hin; [lia|done].
      * pose proof (Hafter _ _ _ Ht Hin). apply in_block_single in Hin'; [lia|done].
Qed.

Lemma draft_layers_pos gs layers : draft_layers gs = Ok layers -> Forall sized_group gs -> Forall (fun g => is_uniform_group g = false) gs -> Forall (fun np => 0 < np.2) layers.
Proof.
  unfold draft_layers. intros H Hs Hu. obind_in H. injection H as <-. apply mapM_Ok in Hx. apply Forall_concat. induction Hx as [|g y gs ys Hy _ IH]; constructor.
  - apply Forall_cons in Hs as [Hg _]. apply Forall_cons in Hu as [Hu _]. cbv beta in Hy. obind_in Hy. injection Hy as <-. apply Forall_fmap, Forall_true. intros n. simpl.
    unfold sized_group, is_uniform_group, group_page_size_bytes in *. destruct (kv_cache_spec g); [|done]. simpl in *. inversion Hg as [|? ? (_ & Hp & _) _]; subst. by apply Hp.
  - apply Forall_cons in Hs as [_ ?]. apply Forall_cons in Hu as [_ ?]. auto.
Qed.

(** The tail's pages are padded to the indexer's, as [get_kv_cache_groups] pads them. *)
Definition tail_padded (gs : list KVCacheGroup) (l : Glm5Layout) : Prop :=
  forall tg n s, tg ∈ gs -> n ∈ layer_names tg -> n ∈ tail_names l -> spec_of (inner_specs tg) n = Ok s -> page_size_bytes s = Ok (idx_page l).

Lemma tail_padded_test gs l :
  forallb (fun tg => forallb (fun n => negb (bool_decide (n ∈ tail_names l)) ||
    match spec_of (inner_specs tg) n with Ok s => bool_decide (page_size_bytes s = Ok (idx_page l)) | Raise _ => true end) (layer_names tg)) gs = true ->
  tail_padded gs l.
Proof.
  rewrite forallb_forall. intros H tg n s Htg Hn Ht Hs. apply list_elem_of_In, H in Htg. rewrite forallb_forall in Htg. apply list_elem_of_In, Htg in Hn.
  rewrite bool_decide_true, Hs in Hn by done. by apply bool_decide_eq_true in Hn.
Qed.

(** The three lanes of the allocation *)
Inductive lane (gs : list KVCacheGroup) (ag : KVCacheGroup) (l : Glm5Layout) (size nb e : Z) (drafts : list KVCacheTensor) (t : KVCacheTensor) : Prop :=
  | lane_mla i n h : (i < length (mla_names l))%nat -> mla_user gs ag l i n h ->
      t = single_tensor size n (mla_page l) (Z.of_nat i * mla_page l * nb) nb -> lane gs ag l size nb e drafts t
  | lane_idx i n h : (i < length (idx_names l))%nat -> idx_user gs ag l i n h ->
      t = single_tensor size n (idx_page l) (idx_base l nb + Z.of_nat i * idx_page l * nb) nb -> lane gs ag l size nb e drafts t
  | lane_draft n p o blocks : t ∈ drafts -> t = single_tensor size n p o blocks -> 0 < p ->
      idx_base l nb + zlen (idx_names l) * idx_page l * nb <= o -> o + p * blocks <= e -> lane gs ag l size nb e drafts t.

Lemma ring_nonneg cfg draft ring nb : plan_sane cfg -> Forall sized_group draft -> dflash_ring_pages cfg draft = Ok ring -> 0 <= nb -> 0 <= default nb ring.
Proof.
  intros [Hl _ Hq Hf] Hs Hr Hnb. destruct (ring_grows cfg (max_model_len cfg) (max_model_len cfg) ltac:(lia) Hl Hq Hf draft Hs) as [[E _]|(p & q & E & _ & Hp)];
    rewrite same_length in E; rewrite E in Hr; injection Hr as <-; simpl; lia.
Qed.

Section Config.
  Context (cfg : PlanConfig) (gs : list KVCacheGroup) (l : Glm5Layout) (available : Z) (c : PlannedConfig).
  Context (Hplan : plan_sane cfg) (Hlay : glm5_next_tensor_layout gs = Ok (Some l)) (Hs : Forall sized_group gs).
  Context (Hnd : NoDup (concat (layer_names <$> gs))) (Htail : tail_padded gs l).
  Context (Hc : glm5_config cfg gs l available = Ok c) (Hnb : 0 <= planned_num_blocks c).

Lemma glm5_lanes : exists ag size drafts, glm5_layout_of gs ag l /\ idx_base l (planned_num_blocks c) + zlen (idx_names l) * idx_page l * planned_num_blocks c <= size /\
  (forall t t' b b' addr, t ∈ drafts -> t' ∈ drafts -> in_block t b addr -> in_block t' b' addr -> t = t') /\
  forall t, t ∈ kv_cache_tensors c -> lane gs ag l size (planned_num_blocks c) size drafts t.
Proof.
  destruct (glm5_layout_inv _ _ Hlay) as [ag Hl]. pose proof (glm5_layout_sized _ _ Hlay Hs) as [_ _ Zd _ _]. exists ag. unfold glm5_config in Hc.
  obind_in Hc. rename x into db. obind_in Hc. rename x into ring. set (nb := may_override_num_blocks cfg _) in Hc. set (size := (_ + _)) in Hc at 1.
  obind_in Hc. rename x into t1. obind_in Hc. rename x into t2. obind_in Hc. rename x into layers.
  destruct (draft_regions _ _ layers _) as [t3 e] eqn:E in Hc. obind_in Hc. apply oassert_Ok, Z.eqb_eq in Hx4. subst e. injection Hc as <-. simpl in *. exists size, t3.
  fold nb in Hx1, Hx2, E. fold size in Hx1, Hx2, E. clearbody nb size.
  destruct (draft_regions_spec _ _ _ _ _ _ E) as (D1 & D2 & D3); [by eapply ring_nonneg| |].
  { eapply draft_layers_pos; [exact Hx3|done|]. rewrite (gl_draft _ _ _ Hl). apply Forall_forall. intros g [Hg _]%list_elem_of_filter.
    unfold on_layer_group, is_uniform_group in *. by destruct (kv_cache_spec g). }
  split_and!; [done|done|done|]. intros t [Ht|[Ht|Ht]%elem_of_app]%elem_of_app.
  - destruct (in_regions _ _ _ _ Hx1 Ht) as (k & nm & chunk & Hk & Hf & Hin). destruct (mla_region_tensor _ _ _ _ _ Hl _ _ _ _ Hk Hf Hin) as (n & h & Hu & ->).
    eapply lane_mla; [by eapply lookup_lt_Some|done|done].
  - destruct (in_regions _ _ _ _ Hx2 Ht) as (k & nm & chunk & Hk & Hf & Hin). destruct (idx_region_tensor _ _ _ _ _ Hl Hnd Htail _ _ _ _ Hk Hf Hin) as (n & h & Hu & ->).
    eapply lane_idx; [by eapply lookup_lt_Some|done|done].
  - apply list_elem_of_lookup in Ht as [k Hk]. destruct (D2 k t Hk) as (n & p & o & -> & ? & ? & ?). eapply lane_draft; [by eapply list_elem_of_lookup_2|done|done|done|done].
Qed.
End Config.

Section Lanes.
  Context (gs : list KVCacheGroup) (ag : KVCacheGroup) (l : Glm5Layout) (size nb : Z) (drafts : list KVCacheTensor).
  Context (Hl : glm5_layout_of gs ag l) (Hnd : NoDup (concat (layer_names <$> gs))) (Hm : 0 < mla_page l) (Hi : 0 < idx_page l).
  Context (Hend : idx_base l nb + zlen (idx_names l) * idx_page l * nb <= size).
  Context (Hdrafts : forall t t' b b' addr, t ∈ drafts -> t' ∈ drafts -> in_block t b addr -> in_block t' b' addr -> t = t').

Lemma draft_mla_user g i n : g ∈ draft_groups l -> ~ mla_user gs ag l i n g.
Proof.
  rewrite (gl_draft _ _ _ Hl). intros [Hg _]%list_elem_of_filter (_ & _ & [[-> _]|[Hb _]]).
  - destruct (gl_attn _ _ _ Hl) as (_ & Hu & _). unfold is_uniform_group, on_layer_group in *. by destruct (kv_cache_spec ag).
  - unfold on_layer_group in *. by destruct (kv_cache_spec g) as [[]|].
Qed.

Lemma draft_idx_user g i n : g ∈ draft_groups l -> ~ idx_user gs ag l i n g.
Proof.
  rewrite (gl_draft _ _ _ Hl). intros [Hg _]%list_elem_of_filter (_ & _ & [[-> _]|[Hb _]]).
  - destruct (gl_attn _ _ _ Hl) as (_ & Hu & _). unfold is_uniform_group, on_layer_group in *. by destruct (kv_cache_spec ag).
  - unfold inner_specs, on_layer_group in *. by destruct (kv_cache_spec g).
Qed.

(** A byte is in one lane, in one region of it and in one block. *)
Inductive found (t : KVCacheTensor) (b addr : Z) : Prop :=
  | found_mla i n h : mla_user gs ag l i n h -> t = single_tensor size n (mla_page l) (Z.of_nat i * mla_page l * nb) nb ->
      0 <= addr < idx_base l nb -> Z.of_nat i = addr / (mla_page l * nb) -> b = (addr - Z.of_nat i * mla_page l * nb) / mla_page l -> found t b addr
  | found_idx i n h : idx_user gs ag l i n h -> t = single_tensor size n (idx_page l) (idx_base l nb + Z.of_nat i * idx_page l * nb) nb ->
      idx_base l nb <= addr < idx_base l nb + zlen (idx_names l) * idx_page l * nb -> Z.of_nat i = (addr - idx_base l nb) / (idx_page l * nb) ->
      b = (addr - (idx_base l nb + Z.of_nat i * idx_page l * nb)) / idx_page l -> found t b addr
  | found_draft n p o blocks : t ∈ drafts -> t = single_tensor size n p o blocks -> 0 < p -> in_block t b addr ->
      idx_base l nb + zlen (idx_names l) * idx_page l * nb <= addr < size -> found t b addr.

Lemma lane_found t b addr : lane gs ag l size nb size drafts t -> in_block t b addr -> found t b addr.
Proof.
  intros [i n h Hlt Hu ->|i n h Hlt Hu ->|n p o blocks Hd -> Hp Ho He] Hin.
  - destruct (in_block_single _ _ _ _ _ _ _ Hm Hin) as (Ha & Hb & Hpos). eapply found_mla; [done|done| | |done].
    + unfold idx_base, zlen. assert (Z.of_nat i + 1 <= Z.of_nat (length (mla_names l))) by lia. assert (0 < mla_page l * nb) by nia. nia.
    + pose proof (row_index 0 i (mla_page l) nb addr Hm Hpos) as Hr. rewrite Z.sub_0_r in Hr. apply Hr. lia.
  - destruct (in_block_single _ _ _ _ _ _ _ Hi Hin) as (Ha & Hb & Hpos). eapply found_idx; [done|done| | |done].
    + unfold zlen. assert (Z.of_nat i + 1 <= Z.of_nat (length (idx_names l))) by lia. assert (0 < idx_page l * nb) by nia. nia.
    + by apply row_index.
  - pose proof (in_block_single _ _ _ _ _ _ _ Hp Hin) as (Ha & _). eapply found_draft; [done|done|done|done|lia].
Qed.

Lemma found_same t t' b b' addr : 0 <= idx_base l nb -> 0 <= zlen (idx_names l) * idx_page l * nb -> found t b addr -> found t' b' addr ->
  0 <= addr < size /\ b = b' /\ forall g, g ∈ gs -> tensor_of t g -> tensor_of t' g \/ g ∈ draft_groups l -> t = t'.
Proof.
  intros H0 H0' F F'. assert (forall n h p o bl g, g ∈ gs -> h ∈ gs -> n ∈ layer_names h -> tensor_of (single_tensor size n p o bl) g -> h = g) as Hof.
  { intros n h p o bl g Hg Hh Hn (x & [= <-] & Hx). by eapply group_unique. }
  destruct F as [i n h Hu -> Ha Hidx ->|i n h Hu -> Ha Hidx ->|n p o bl Hd -> Hp Hin Ha],
    F' as [i' n' h' Hu' -> Ha' Hidx' ->|i' n' h' Hu' -> Ha' Hidx' ->|n' p' o' bl' Hd' -> Hp' Hin' Ha']; try lia.
  - split; [lia|]. assert (i = i') as <- by lia. split; [done|]. intros g Hg Tg Tg'. pose proof Hu as (U1 & U2 & _). pose proof Hu' as (U1' & U2' & _).
    pose proof (Hof _ _ _ _ _ _ Hg U1 U2 Tg) as ->. destruct Tg' as [Tg'|Tg']; [|by destruct (draft_mla_user g i n Tg' Hu)].
    pose proof (Hof _ _ _ _ _ _ Hg U1' U2' Tg') as ->. by rewrite (mla_user_unique _ _ _ Hl _ _ _ _ Hu Hu').
  - split; [lia|]. assert (i = i') as <- by lia. split; [done|]. intros g Hg Tg Tg'. pose proof Hu as (U1 & U2 & _). pose proof Hu' as (U1' & U2' & _).
    pose proof (Hof _ _ _ _ _ _ Hg U1 U2 Tg) as ->. destruct Tg' as [Tg'|Tg']; [|by destruct (draft_idx_user g i n Tg' Hu)].
    pose proof (Hof _ _ _ _ _ _ Hg U1' U2' Tg') as ->. by rewrite (idx_user_unique _ _ _ Hl _ _ _ _ Hu Hu').
  - split; [lia|]. pose proof (Hdrafts _ _ _ _ _ Hd Hd' Hin Hin') as E. split; [|done]. rewrite <- E in Hin'.
    apply in_block_single in Hin as (_ & -> & _), Hin' as (_ & -> & _); done.
Qed.
End Lanes.

(** C12. In the memory layout of GLM-5.3-Flash, where Mamba layers share the regions of the
    MLA layers and the tails those of the indexer layers, a byte of the allocation belongs to
    one block number only, whichever layers share it, to one layer of each group, and lies
    within the allocation; the draft model's layers, in a private ring or in the pool, share
    memory with no other layer. *)
Theorem glm5_blocks_disjoint cfg gs l available c :
  glm5_next_tensor_layout gs = Ok (Some l) -> get_kv_cache_config_from_groups cfg gs available = Ok c ->
  plan_sane cfg -> Forall sized_group gs -> NoDup (concat (layer_names <$> gs)) -> tail_padded gs l -> 0 <= planned_num_blocks c ->
  forall t t' b b' addr, t ∈ kv_cache_tensors c -> t' ∈ kv_cache_tensors c -> in_block t b addr -> in_block t' b' addr ->
    0 <= addr < tensor_size t /\ b = b' /\ forall g, g ∈ gs -> tensor_of t g -> tensor_of t' g \/ g ∈ draft_groups l -> t = t'.
Proof.
  intros Hlay Hc Hp Hs Hnd Ht Hnb t t' b b' addr Hin Hin' Hb Hb'. pose proof (glm5_layout_sized _ _ Hlay Hs) as [_ _ _ Zm Zi].
  assert (glm5_config cfg gs l available = Ok c) as Hc'. { unfold get_kv_cache_config_from_groups in Hc. destruct gs; [done|]. by rewrite Hlay in Hc. }
  destruct (glm5_lanes _ _ _ _ _ Hp Hlay Hs Hnd Ht Hc' Hnb) as (ag & size & drafts & Hl & Hend & Hd & Hlanes).
  assert (tensor_size t = size) as -> by (by destruct (Hlanes t Hin); subst).
  eapply found_same; try done; [unfold idx_base, zlen; nia|unfold zlen; nia|apply lane_found; auto..].
Qed.

Definition glm_plan (ring : bool) : outcome PlannedConfig := get_kv_cache_config_from_groups (glm_config ring) (glm_groups ring) 100000.

(** Layer 0 (Mamba) and layer 2 (MLA) share the bytes of block 3. *)
Lemma glm5_blocks_disjoint_witness : exists l c t t',
  glm5_next_tensor_layout (glm_groups true) = Ok (Some l) /\ glm_plan true = Ok c /\ kv_cache_tensors c !! 0%nat = Some t /\ kv_cache_tensors c !! 1%nat = Some t' /\
  in_block t 3 800 /\ in_block t' 3 800 /\ 0 <= 800 < tensor_size t.
Proof.
  eexists _, _, _, _. split; [vm_compute; reflexivity|]. split; [vm_compute; reflexivity|]. split; [reflexivity|]. split; [reflexivity|].
  assert (forall t, tensor_num_blocks t = Some 136 -> tensor_offset t = 0 -> block_stride t = 256 -> in_block t 3 800) as Hin.
  { intros t H1 H2 H3. exists 136. rewrite H1, H2, H3. split; [done|lia]. }
  split; [by apply Hin|]. split; [by apply Hin|].
  eapply (glm5_blocks_disjoint (glm_config true) (glm_groups true) _ 100000 _ ltac:(vm_compute; reflexivity) ltac:(vm_compute; reflexivity)).
  - split; vm_compute; done.
  - apply sized_groups. vm_compute. reflexivity.
  - by apply (bool_decide_unpack _); vm_compute.
  - apply tail_padded_test. vm_compute. reflexivity.
  - done.
  - apply list_elem_of_lookup. exists 0%nat. reflexivity.
  - apply list_elem_of_lookup. exists 1%nat. reflexivity.
  - by apply Hin.
  - by apply Hin.
Defined.

(** ** The blocks of a request *)

Definition pages_of (cfg : PlanConfig) (g : KVCacheGroup) : Z := match group_pages cfg g with Ok p => p | Raise _ => 0 end.

Lemma group_pages_all cfg gs pages : mapM (group_pages cfg) gs = Ok pages ->
  pages = pages_of cfg <$> gs /\ forall g, g ∈ gs -> group_pages cfg g = Ok (pages_of cfg g).
Proof.
  intros H%mapM_Ok. unfold pages_of. induction H as [|g p gs pages Hg _ [-> IH]]; [split; [done|]; by intros g Hg%elem_of_nil|]. csimpl. rewrite Hg. split; [done|].
  intros g' [->|Hin]%elem_of_cons; [by rewrite Hg|by apply IH].
Qed.

(** The groups of three classes that exclude each other need no more than all groups. *)
Lemma sum_classes {A} (f : A -> Z) (P Q R : A -> bool) l :
  (forall x, P x = true -> Q x = false /\ R x = false) -> (forall x, Q x = true -> R x = false) -> (forall x, x ∈ l -> 0 <= f x) ->
  sum_list (f <$> filter (fun x => P x = true) l) + sum_list (f <$> filter (fun x => Q x = true) l) + sum_list (f <$> filter (fun x => R x = true) l)
    <= sum_list (f <$> l).
Proof.
  intros HP HQ Hf. induction l as [|x l IH]; [done|]. assert (0 <= f x) by (apply Hf; left). specialize (IH ltac:(intros y Hy; apply Hf; by right)).
  rewrite !filter_cons. specialize (HP x). specialize (HQ x).
  destruct (P x), (Q x), (R x); repeat (rewrite decide_True by done || rewrite decide_False by done); csimpl; unfold sum_list in *; simpl; naive_solver lia.
Qed.
Lemma sum_nonneg {A} (f : A -> Z) l : (forall x, x ∈ l -> 0 <= f x) -> 0 <= sum_list (f <$> l).
Proof.
  intros Hf. change 0 with (sum_list ((fun _ => 0) <$> ([] : list A))). induction l as [|x l IH]; [done|]. csimpl. unfold sum_list in *. simpl in *.
  pose proof (Hf x ltac:(left)). specialize (IH ltac:(intros y Hy; apply Hf; by right)). lia.
Qed.

Lemma sum_member {A} (f : A -> Z) x l : x ∈ l -> (forall y, y ∈ l -> 0 <= f y) -> f x <= sum_list (f <$> l).
Proof.
  intros [l1 [l2 ->]]%list_elem_of_split Hf. rewrite fmap_app, sum_list_app. csimpl. unfold sum_list at 2. simpl. fold (sum_list (f <$> l2)).
  pose proof (sum_nonneg f l1 ltac:(set_solver)). pose proof (sum_nonneg f l2 ltac:(set_solver)). lia.
Qed.

Lemma glm5_mamba_groups gs l : glm5_next_tensor_layout gs = Ok (Some l) -> mamba_groups l = filter (fun g => on_layer_group is_mamba_spec g = true) gs.
Proof.
  unfold glm5_next_tensor_layout. intros H. destruct (attn_group_of _); [|done]. destruct (filter (fun g => on_layer_group is_mamba_spec g = true) gs) as [|m0 ms]; [done|].
  destruct (negb _); [done|]. destruct (negb _); [done|]. do 3 obind_in H. destruct (singleton_of _); [|done]. destruct (singleton_of _); [|done]. obind_in H.
  destruct (negb _); [done|]. destruct (tail_group_of _); [|by injection H as <-]. destruct (singleton_of _); [|done]. destruct (negb _); [done|]. destruct (_ <? _); [done|]. by injection H as <-.
Qed.

(** The MLA layers, the Mamba groups, one block for the tails and the draft groups need no
    more than all groups together. *)
Lemma glm5_pages cfg gs l pages : glm5_next_tensor_layout gs = Ok (Some l) -> mapM (group_pages cfg) gs = Ok pages -> Forall (fun p => 1 <= p) pages ->
  exists attn, uniform_pages cfg (attn_specs l) = Ok attn /\
    attn + sum_list (pages_of cfg <$> mamba_groups l) + match tail_names l with [] => 0 | _ => 1 end + sum_list (pages_of cfg <$> draft_groups l) <= sum_list pages.
Proof.
  intros Hlay Hp H1. destruct (group_pages_all _ _ _ Hp) as [-> Hg]. destruct (glm5_layout_inv _ _ Hlay) as [ag Hl].
  rewrite (gl_draft _ _ _ Hl), (glm5_mamba_groups _ _ Hlay). destruct (gl_attn _ _ _ Hl) as (Hin & Hu & Ha & Hex).
  exists (pages_of cfg ag). split. { rewrite <- (Hg ag Hin), Ha. unfold is_uniform_group, group_pages, inner_specs in *. by destruct (kv_cache_spec ag). }
  assert (Hf : forall g, g ∈ gs -> 1 <= pages_of cfg g). { intros g Hin'. rewrite Forall_forall in H1. apply H1, list_elem_of_fmap. by exists g. }
  pose proof (sum_classes (pages_of cfg) is_uniform_group (on_layer_group is_mamba_spec) (on_layer_group is_draft_class) gs) as Hs.
  set (uni := filter (fun g => is_uniform_group g = true) gs) in *.
  assert (Hsub : forall g, g ∈ uni -> 1 <= pages_of cfg g) by (intros g [_ Hin']%list_elem_of_filter; by apply Hf).
  assert (pages_of cfg ag + match tail_names l with [] => 0 | _ => 1 end <= sum_list (pages_of cfg <$> uni)) as Ht.
  { pose proof (sum_classes (pages_of cfg) (fun g => forallb is_exact_mla (inner_specs g).*2) (fun g => negb (forallb is_exact_mla (inner_specs g).*2)) (fun _ => false) uni) as Hc.
    assert (pages_of cfg ag <= sum_list (pages_of cfg <$> filter (fun g => forallb is_exact_mla (inner_specs g).*2 = true) uni)).
    { apply sum_member; [by repeat (apply list_elem_of_filter; split; [done|])|]. intros g [_ Hg']%list_elem_of_filter. apply Hsub in Hg'. lia. }
    assert (match tail_names l with [] => 0 | _ => 1 end <= sum_list (pages_of cfg <$> filter (fun g => negb (forallb is_exact_mla (inner_specs g).*2) = true) uni)).
    { destruct (gl_tail _ _ _ Hl) as [->|(tg & Htg & _ & Hut & Hnt)]; [apply sum_nonneg; intros g [_ Hg']%list_elem_of_filter; apply Hsub in Hg'; lia|].
      transitivity (pages_of cfg tg); [pose proof (Hf tg Htg); case_match; lia|]. apply sum_member; [|intros g [_ Hg']%list_elem_of_filter; apply Hsub in Hg'; lia].
      apply list_elem_of_filter. rewrite Hnt. split; [done|]. by apply list_elem_of_filter. }
    assert (sum_list (pages_of cfg <$> filter (fun _ => false = true) uni) = 0) as Hz by (clear; induction uni as [|g uni IH]; [done|]; by rewrite filter_cons_False).
    specialize (Hc ltac:(intros y Hy; simpl in *; by rewrite Hy) ltac:(done) ltac:(intros g Hg'; apply Hsub in Hg'; lia)). cbv beta in Hc. lia. }
  specialize (Hs ltac:(intros g; unfold is_uniform_group, on_layer_group; by destruct (kv_cache_spec g))).
  assert (forall g, on_layer_group is_mamba_spec g = true -> on_layer_group is_draft_class g = false) as Hmd.
  { intros g. unfold on_layer_group. destruct (kv_cache_spec g) as [s|]; [|done]. by destruct s. }
  specialize (Hs Hmd ltac:(intros g Hg'; apply Hf in Hg'; lia)). lia.
Qed.

(** C38. Planning for GLM-5.3-Flash with a draft model whose layers live in the pool (no
    private ring) underestimates a request by the blocks of the draft's groups: if every group
    needs at least one block for a request of the maximum length, the memory estimate of
    [_max_memory_usage_bytes_from_groups] is at least the draft groups' blocks below the
    memory of the blocks the request takes from the pool, and the check of a worker
    accepts any memory from that estimate on. *)
Theorem glm5_draft_blocks_not_counted cfg gs l bpb pages drafts :
  glm5_next_tensor_layout gs = Ok (Some l) -> dflash_ring_pages cfg (draft_groups l) = Ok None ->
  pool_bytes_per_block cfg gs = Ok bpb -> 0 <= bpb ->
  mapM (group_pages cfg) gs = Ok pages -> Forall (fun p => 1 <= p) pages -> mapM (group_pages cfg) (draft_groups l) = Ok drafts ->
  exists mem, max_memory_usage_bytes_from_groups cfg gs = Ok mem /\ mem + bpb * sum_list drafts <= bpb * sum_list pages /\
    forall check, 0 < check -> mem <= check -> check_worker cfg gs check = Ok tt.
Proof.
  intros Hlay Hring Hpool Hpos Hpages H1 Hd. destruct (glm5_pages _ _ _ _ Hlay Hpages H1) as (attn & Hattn & Hle). destruct (group_pages_all _ _ _ Hd) as [-> _].
  assert (exists mamba, mapM (group_pages cfg) (mamba_groups l) = Ok mamba /\ mamba = pages_of cfg <$> mamba_groups l) as (mamba & Hm & ->).
  { eexists. split; [|reflexivity]. apply mapM_Ok. rewrite (glm5_mamba_groups _ _ Hlay). destruct (group_pages_all _ _ _ Hpages) as [_ Hg].
    apply Forall2_fmap_r, Forall_Forall2_diag, Forall_forall. intros g [_ Hin]%list_elem_of_filter. by apply Hg. }
  unfold pool_bytes_per_block in Hpool. rewrite Hlay in Hpool. cbn [mbind outcome_bind] in Hpool. rewrite Hring in Hpool. cbn [mbind outcome_bind] in Hpool. obind_in Hpool. injection Hpool as <-.
  assert (exists mem, max_memory_usage_bytes_from_groups cfg gs = Ok mem /\ mem = (attn + sum_list (pages_of cfg <$> mamba_groups l) + match tail_names l with [] => 0 | _ => 1 end) * (glm5_base_bytes l + x))
    as (mem & Hmem & ->).
  { eexists. split; [|reflexivity]. unfold max_memory_usage_bytes_from_groups, dflash_ring_bytes. destruct gs as [|g0 gs0]; [done|]. remember (g0 :: gs0) as gs eqn:Eg. rewrite Hlay. cbn [mbind outcome_bind].
    rewrite Hattn. cbn [mbind outcome_bind]. rewrite Hm. cbn [mbind outcome_bind]. rewrite Hring. cbn [mbind outcome_bind]. simpl. rewrite Hx. done. }
  eexists. split; [exact Hmem|]. split; [nia|]. intros check H0 Hc. unfold check_worker. destruct gs as [|g0 gs0]; [done|]. rewrite Hmem. unfold check_enough_memory.
  destruct (Z.leb_spec check 0); [lia|]. cbn [mbind outcome_bind]. rewrite (proj2 (Z.ltb_ge _ _) Hc). done.
Qed.

(** A request needs 4 + 1 + 1 + 1 blocks and 5 of the draft's group: the estimate is that of
    7 blocks, not of 12. *)
Lemma glm5_draft_blocks_not_counted_witness : exists mem bpb,
  pool_bytes_per_block (glm_config false) (glm_groups false) = Ok bpb /\ mapM (group_pages (glm_config false)) (glm_groups false) = Ok [4; 1; 1; 1; 5] /\
  max_memory_usage_bytes_from_groups (glm_config false) (glm_groups false) = Ok mem /\ mem + bpb * 5 <= bpb * 12 /\
  check_worker (glm_config false) (glm_groups false) mem = Ok tt.
Proof.
  destruct (glm5_next_tensor_layout (glm_groups false)) as [[l|]|] eqn:Hl; [|vm_compute in Hl; discriminate Hl..].
  destruct (pool_bytes_per_block (glm_config false) (glm_groups false)) as [bpb|] eqn:Hb; [|vm_compute in Hb; discriminate Hb].
  assert (Hp : mapM (group_pages (glm_config false)) (glm_groups false) = Ok [4; 1; 1; 1; 5]) by (vm_compute; reflexivity).
  destruct (glm5_draft_blocks_not_counted (glm_config false) (glm_groups false) l bpb [4; 1; 1; 1; 5] [5] Hl) as (mem & H1 & H2 & H3).
  - vm_compute in Hl. injection Hl as <-. vm_compute. reflexivity.
  - exact Hb.
  - vm_compute in Hb. injection Hb as <-. lia.
  - exact Hp.
  - repeat constructor; lia.
  - vm_compute in Hl. injection Hl as <-. vm_compute. reflexivity.
  - exists mem, bpb. split; [reflexivity|]. split; [exact Hp|]. split; [exact H1|]. split; [exact H2|]. apply H3; [|reflexivity].
    vm_compute in H1. injection H1 as <-. reflexivity.
Defined.
