(* ===== verification/Offload.v ===== *)
(** Offloading KV blocks to CPU memory (vllm/v1/kv_offload/): the interface of cache policies,
    the LRU and the ARC policy (cpu/policies/), and the manager that uses one of them
    (cpu/manager.py). *)
From S2P Require Import Prelude.
From Stdlib Require Import Floats.SpecFloat.

(** ** Keys and blocks *)

(** [OffloadKey]: a block hash with a group index *)
Definition OffloadKey : Type := bytes.

(** [make_offload_key(block_hash, group_idx)]: [to_bytes(4, "big")] raises OverflowError for a
    value that does not fit. *)
Definition make_offload_key (block_hash : bytes) (group_idx : Z) : outcome OffloadKey :=
  if (group_idx <? 0)%Z || (2 ^ 32 <=? group_idx)%Z then Raise OverflowError else Ok (block_hash ++ to_bytes_big 4 group_idx).
(** [key[:-4]] and [int.from_bytes(key[-4:], "big")] *)
Definition get_offload_block_hash (key : OffloadKey) : bytes := take (length key - 4) key.
Definition get_offload_group_idx (key : OffloadKey) : Z := from_bytes_big (drop (length key - 4) key).

(** [ctypes.c_int32] and [ctypes.c_int64] keep the low bits. *)
Definition int32 (z : Z) : Z := ((z + 2 ^ 31) mod 2 ^ 32 - 2 ^ 31)%Z.
Definition int64 (z : Z) : Z := ((z + 2 ^ 63) mod 2 ^ 64 - 2 ^ 63)%Z.

(** [BlockStatus]; a count of -1 says that the block is not yet ready. *)
Record BlockStatus := { status_ref_cnt : Z; status_block_id : Z }.
#[export] Instance BlockStatus_eq_dec : EqDecision BlockStatus.
Proof. solve_decision. Defined.
#[export] Instance BlockStatus_eta : Eta BlockStatus := fun b => Build_BlockStatus (status_ref_cnt b) (status_block_id b).

Definition BlockStatus_init (block_id : Z) : BlockStatus := {| status_ref_cnt := (-1)%Z; status_block_id := int64 block_id |}.
Definition is_ready (b : BlockStatus) : bool := (0 <=? status_ref_cnt b)%Z.

(** ** The interface of a policy *)

(** [CachePolicy].  The blocks a policy holds are objects whose count the manager writes
    ([policy_set_ref_cnt]). *)
Class CachePolicy (P : Type) := {
  policy_init : Z -> P;
  policy_get : OffloadKey -> P -> option BlockStatus;
  policy_set_ref_cnt : OffloadKey -> Z -> P -> P;
  policy_insert : OffloadKey -> BlockStatus -> P -> P;
  policy_remove : OffloadKey -> M P unit;
  policy_touch : list OffloadKey -> P -> P;
  policy_evict : Z -> list OffloadKey -> M P (option (list (OffloadKey * BlockStatus)));
  policy_clear : P -> P;
  policy_mark_evictable : OffloadKey -> P -> P;
  policy_mark_non_evictable : OffloadKey -> M P unit;
}.

(** [OrderedDict] operations: [move_to_end] of a present key, [d[k] = None] and [d.pop(k, None)]
    of a dict used as an ordered set *)
Definition odict_move_to_end {V} (k : OffloadKey) (d : list (OffloadKey * V)) : list (OffloadKey * V) :=
  match odict_get k d with Some v => odict_del k d ++ [(k, v)] | None => d end.
Definition oset_add (k : OffloadKey) (l : list OffloadKey) : list OffloadKey := if decide (k ∈ l) then l else l ++ [k].
Definition oset_del (k : OffloadKey) (l : list OffloadKey) : list OffloadKey := filter (fun x => x <> k) l.

(** The object under a key has its count written. *)
Definition write_ref_cnt (k : OffloadKey) (n : Z) (d : list (OffloadKey * BlockStatus)) : list (OffloadKey * BlockStatus) :=
  match odict_get k d with Some b => odict_set k (b <| status_ref_cnt := n |>) d | None => d end.

(** ** LRU *)

Record LRUCachePolicy := { evictable_blocks : list OffloadKey; lru_blocks : list (OffloadKey * BlockStatus) }.
#[export] Instance LRUCachePolicy_eta : Eta LRUCachePolicy := fun p => Build_LRUCachePolicy (evictable_blocks p) (lru_blocks p).

Definition lru_init (cache_capacity : Z) : LRUCachePolicy := {| evictable_blocks := []; lru_blocks := [] |}.
Definition lru_get (k : OffloadKey) (p : LRUCachePolicy) : option BlockStatus := odict_get k (lru_blocks p).

Definition lru_insert (k : OffloadKey) (b : BlockStatus) (p : LRUCachePolicy) : LRUCachePolicy :=
  let p' := p <| lru_blocks := odict_set k b (lru_blocks p) |> in
  if (status_ref_cnt b =? 0)%Z then p' <| evictable_blocks := oset_add k (evictable_blocks p') |> else p'.

(** [del self.blocks[key]]; [self.evictable_blocks.pop(key, None)] *)
Definition lru_remove (k : OffloadKey) : M LRUCachePolicy unit :=
  p ← gets id;
  _ ← of_option KeyError (odict_get k (lru_blocks p));
  modify (fun p => {| evictable_blocks := oset_del k (evictable_blocks p); lru_blocks := odict_del k (lru_blocks p) |}).

Definition lru_touch (keys : list OffloadKey) (p : LRUCachePolicy) : LRUCachePolicy :=
  foldl (fun p k => if decide (k ∈ evictable_blocks p)
                    then p <| evictable_blocks := oset_del k (evictable_blocks p) ++ [k] |> else p) p (reverse keys).

(** The loop of [evict] over the idle blocks, [n] to go; [n] is not negative. *)
Fixpoint lru_candidates (n : nat) (protected : list OffloadKey) (blocks : list (OffloadKey * BlockStatus)) (keys : list OffloadKey)
    : outcome (list (OffloadKey * BlockStatus)) :=
  match n, keys with
  | 0, _ | _, [] => Ok []
  | S n', k :: keys' =>
      if decide (k ∈ protected) then lru_candidates n protected blocks keys'
      else
        match odict_get k blocks with
        | None => Raise KeyError
        | Some b =>
            if (status_ref_cnt b =? 0)%Z then
              match lru_candidates n' protected blocks keys' with Ok l => Ok ((k, b) :: l) | Raise e => Raise e end
            else Raise AssertionError
        end
  end.

Definition lru_drop (p : LRUCachePolicy) (kb : OffloadKey * BlockStatus) : LRUCachePolicy :=
  {| evictable_blocks := oset_del kb.1 (evictable_blocks p); lru_blocks := odict_del kb.1 (lru_blocks p) |}.

Definition lru_evict (n : Z) (protected : list OffloadKey) : M LRUCachePolicy (option (list (OffloadKey * BlockStatus))) :=
  p ← gets id;
  if (n =? 0)%Z then mret (Some [])
  else
    match lru_candidates (Z.to_nat n) protected (lru_blocks p) (evictable_blocks p) with
    | Raise e => raise e
    | Ok l =>
        if (zlen l <? n)%Z then mret None
        else modify (fun p => foldl lru_drop p l) ;; mret (Some l)
    end.

Definition lru_clear (p : LRUCachePolicy) : LRUCachePolicy := {| evictable_blocks := []; lru_blocks := [] |}.

Definition lru_mark_evictable (k : OffloadKey) (p : LRUCachePolicy) : LRUCachePolicy := p <| evictable_blocks := oset_add k (evictable_blocks p) |>.

Definition lru_mark_non_evictable (k : OffloadKey) : M LRUCachePolicy unit :=
  p ← gets id;
  if decide (k ∈ evictable_blocks p) then modify (fun p => p <| evictable_blocks := oset_del k (evictable_blocks p) |>)
  else raise KeyError.

#[export] Instance LRU_policy : CachePolicy LRUCachePolicy := {|
  policy_init := lru_init;
  policy_get := lru_get;
  policy_set_ref_cnt k n p := p <| lru_blocks := write_ref_cnt k n (lru_blocks p) |>;
  policy_insert := lru_insert;
  policy_remove := lru_remove;
  policy_touch := lru_touch;
  policy_evict := lru_evict;
  policy_clear := lru_clear;
  policy_mark_evictable := lru_mark_evictable;
  policy_mark_non_evictable := lru_mark_non_evictable;
|}.

(** ** ARC *)

(** Python floats are IEEE 754 binary64. *)
Definition float_of_int (z : Z) : spec_float := binary_normalize 53 1024 z 0 false.
Definition float_add : spec_float -> spec_float -> spec_float := SFadd 53 1024.
Definition float_sub : spec_float -> spec_float -> spec_float := SFsub 53 1024.
Definition float_div (a b : Z) : spec_float := SFdiv 53 1024 (float_of_int a) (float_of_int b).
(** [max(a, b)] and [min(a, b)] return the first argument unless the second is beyond it. *)
Definition float_max (a b : spec_float) : spec_float := if SFltb a b then b else a.
Definition float_min (a b : spec_float) : spec_float := if SFltb b a then b else a.
(** [int(x)] of a finite float; the target size lies between 0 and the capacity. *)
Definition float_int (x : spec_float) : Z :=
  match x with
  | S754_finite s m e =>
      let v := if (0 <=? e)%Z then (Z.pos m * 2 ^ e)%Z else (Z.pos m / 2 ^ (- e))%Z in
      if s then (- v)%Z else v
  | _ => 0%Z
  end.

Record ARCCachePolicy := {
  cache_capacity : Z;
  target_t1_size : spec_float;
  arc_t1 : list (OffloadKey * BlockStatus);
  arc_t2 : list (OffloadKey * BlockStatus);
  arc_b1 : list OffloadKey;
  arc_b2 : list OffloadKey;
}.
#[export] Instance ARCCachePolicy_eta : Eta ARCCachePolicy := fun p =>
  Build_ARCCachePolicy (cache_capacity p) (target_t1_size p) (arc_t1 p) (arc_t2 p) (arc_b1 p) (arc_b2 p).

Definition arc_get (k : OffloadKey) (p : ARCCachePolicy) : option BlockStatus :=
  match odict_get k (arc_t1 p) with Some b => Some b | None => odict_get k (arc_t2 p) end.

Definition arc_insert (k : OffloadKey) (b : BlockStatus) (p : ARCCachePolicy) : ARCCachePolicy :=
  p <| arc_t1 := odict_set k b (arc_t1 p) |> <| arc_b1 := oset_del k (arc_b1 p) |> <| arc_b2 := oset_del k (arc_b2 p) |>.

Definition arc_remove (k : OffloadKey) : M ARCCachePolicy unit :=
  modify (fun p => match odict_get k (arc_t1 p) with
                   | Some _ => p <| arc_t1 := odict_del k (arc_t1 p) |>
                   | None => p <| arc_t2 := odict_del k (arc_t2 p) |>
                   end).

(** One key of [touch] *)
Definition arc_touch_key (p : ARCCachePolicy) (k : OffloadKey) : ARCCachePolicy :=
  match odict_get k (arc_t1 p) with
  | Some b =>
      let p' := p <| arc_t1 := odict_del k (arc_t1 p) |> in
      if negb (is_ready b) then p' <| arc_t1 := odict_set k b (arc_t1 p') |>
      else p' <| arc_t2 := odict_set k b (arc_t2 p') |>
  | None =>
      match odict_get k (arc_t2 p) with
      | Some _ => p <| arc_t2 := odict_move_to_end k (arc_t2 p) |>
      | None =>
          if decide (k ∈ arc_b1 p) then
            let delta := float_max (float_of_int 1) (float_div (zlen (arc_b2 p)) (zlen (arc_b1 p))) in
            p <| target_t1_size := float_min (float_add (target_t1_size p) delta) (float_of_int (cache_capacity p)) |>
              <| arc_b1 := oset_del k (arc_b1 p) ++ [k] |>
          else if decide (k ∈ arc_b2 p) then
            let delta := float_max (float_of_int 1) (float_div (zlen (arc_b1 p)) (zlen (arc_b2 p))) in
            p <| target_t1_size := float_max (float_sub (target_t1_size p) delta) (float_of_int 0) |>
              <| arc_b2 := oset_del k (arc_b2 p) ++ [k] |>
          else p
      end
  end.
Definition arc_touch (keys : list OffloadKey) (p : ARCCachePolicy) : ARCCachePolicy := foldl arc_touch_key p (reverse keys).

(** [next_candidate(entries)]: the entry, and what is left of the iterator *)
Fixpoint next_candidate (protected : list OffloadKey) (entries : list (OffloadKey * BlockStatus))
    : option (OffloadKey * BlockStatus) * list (OffloadKey * BlockStatus) :=
  match entries with
  | [] => (None, [])
  | kb :: rest =>
      if (status_ref_cnt kb.2 =? 0)%Z && negb (bool_decide (kb.1 ∈ protected)) then (Some kb, rest)
      else next_candidate protected rest
  end.

(** The selection loop: keys with their block and whether they come from T1 *)
Fixpoint arc_candidates (n : nat) (protected : list OffloadKey) (target virtual_t1_size : Z) (t1 t2 : list (OffloadKey * BlockStatus))
    : option (list (OffloadKey * BlockStatus * bool)) :=
  match n with
  | 0 => Some []
  | S n' =>
      let '(from_t1, t1') := if (target <=? virtual_t1_size)%Z then next_candidate protected t1 else (None, t1) in
      match from_t1 with
      | Some kb => cons (kb, true) <$> arc_candidates n' protected target (virtual_t1_size - 1) t1' t2
      | None =>
          let '(from_t2, t2') := next_candidate protected t2 in
          match from_t2 with
          | Some kb => cons (kb, false) <$> arc_candidates n' protected target virtual_t1_size t1' t2'
          | None => None
          end
      end
  end.

Definition arc_apply (p : ARCCachePolicy) (c : OffloadKey * BlockStatus * bool) : ARCCachePolicy :=
  let k := c.1.1 in
  if c.2 then p <| arc_t1 := odict_del k (arc_t1 p) |> <| arc_b1 := oset_add k (arc_b1 p) |>
  else p <| arc_t2 := odict_del k (arc_t2 p) |> <| arc_b2 := oset_add k (arc_b2 p) |>.

(** The ghost lists keep their newest [cache_capacity] entries. *)
Definition trim_ghosts (p : ARCCachePolicy) : ARCCachePolicy :=
  let trim l := drop (Z.to_nat (zlen l - cache_capacity p)) l in
  p <| arc_b1 := trim (arc_b1 p) |> <| arc_b2 := trim (arc_b2 p) |>.

Definition arc_evict (n : Z) (protected : list OffloadKey) : M ARCCachePolicy (option (list (OffloadKey * BlockStatus))) :=
  p ← gets id;
  if (n =? 0)%Z then mret (Some [])
  else
    match arc_candidates (Z.to_nat n) protected (float_int (target_t1_size p)) (zlen (arc_t1 p)) (arc_t1 p) (arc_t2 p) with
    | None => mret None
    | Some l => modify (fun p => trim_ghosts (foldl arc_apply p l)) ;; mret (Some l.*1)
    end.

Definition arc_empty (capacity : Z) : ARCCachePolicy :=
  {| cache_capacity := capacity; target_t1_size := float_of_int 0; arc_t1 := []; arc_t2 := []; arc_b1 := []; arc_b2 := [] |}.

Definition arc_clear (p : ARCCachePolicy) : ARCCachePolicy := arc_empty (cache_capacity p).

#[export] Instance ARC_policy : CachePolicy ARCCachePolicy := {|
  policy_init := arc_empty;
  policy_get := arc_get;
  policy_set_ref_cnt k n p := match odict_get k (arc_t1 p) with
                              | Some _ => p <| arc_t1 := write_ref_cnt k n (arc_t1 p) |>
                              | None => p <| arc_t2 := write_ref_cnt k n (arc_t2 p) |>
                              end;
  policy_insert := arc_insert;
  policy_remove := arc_remove;
  policy_touch := arc_touch;
  policy_evict := arc_evict;
  policy_clear := arc_clear;
  policy_mark_evictable _ p := p;
  policy_mark_non_evictable _ := mret tt;
|}.

(** ** The manager *)

Record OffloadingEvent := { event_keys : list OffloadKey; event_removed : bool }.

Record CPUOffloadingManager (P : Type) := {
  om_num_blocks : Z;
  num_allocated_blocks : Z;
  free_list : list Z;
  om_events : option (list OffloadingEvent);
  om_policy : P;
  num_evictable_cache_blocks : Z;
  num_write_pending_blocks : Z;
  store_threshold : Z;
  max_tracker_size : Z;
  stores_skipped_in_current_batch : Z;
  allocation_sizes_in_current_batch : list Z;
  om_counts : option (list (OffloadKey * Z));
}.
Arguments om_num_blocks {P} _.
Arguments num_allocated_blocks {P} _.
Arguments free_list {P} _.
Arguments om_events {P} _.
Arguments om_policy {P} _.
Arguments num_evictable_cache_blocks {P} _.
Arguments num_write_pending_blocks {P} _.
Arguments store_threshold {P} _.
Arguments max_tracker_size {P} _.
Arguments stores_skipped_in_current_batch {P} _.
Arguments allocation_sizes_in_current_batch {P} _.
Arguments om_counts {P} _.
#[export] Instance CPUOffloadingManager_eta P : Eta (CPUOffloadingManager P) := fun m =>
  Build_CPUOffloadingManager P (om_num_blocks m) (num_allocated_blocks m) (free_list m) (om_events m) (om_policy m)
    (num_evictable_cache_blocks m) (num_write_pending_blocks m) (store_threshold m) (max_tracker_size m)
    (stores_skipped_in_current_batch m) (allocation_sizes_in_current_batch m) (om_counts m).

Inductive LookupResult := MISS | HIT | HIT_PENDING | RETRY.
Record PrepareStoreOutput := { keys_to_store : list OffloadKey; store_block_ids : list Z; evicted_keys : list OffloadKey }.

(** What [get_stats] reports *)
Record OffloadStats := {
  cache_usage : spec_float;
  allocation_sizes : list Z;
  cache_write_usage : spec_float;
  cache_read_usage : spec_float;
  stores_skipped : option Z;
}.

Section Manager.
  Context {P : Type} `{CachePolicy P}.

#[local] Abbreviation Mgr := (CPUOffloadingManager P).

(** [__init__] with the policy the factory found *)
Definition CPUOffloadingManager_init (num_blocks : Z) (enable_events : bool) (threshold tracker_size : Z) : Mgr :=
  {| om_num_blocks := num_blocks; num_allocated_blocks := 0; free_list := [];
     om_events := if enable_events then Some [] else None; om_policy := policy_init num_blocks;
     num_evictable_cache_blocks := 0; num_write_pending_blocks := 0; store_threshold := threshold; max_tracker_size := tracker_size;
     stores_skipped_in_current_batch := 0; allocation_sizes_in_current_batch := [];
     om_counts := if (2 <=? threshold)%Z then Some [] else None |}.

Definition on_policy {A} : M P A -> M Mgr A := zoom om_policy (fun p m => m <| om_policy := p |>).
Definition get_block (k : OffloadKey) : M Mgr (option BlockStatus) := gets (fun m => policy_get k (om_policy m)).
(** [block.ref_cnt = n] *)
Definition set_ref_cnt (k : OffloadKey) (n : Z) : M Mgr unit := on_policy (modify (policy_set_ref_cnt k (int32 n))).

Definition offload_num_free_blocks (m : Mgr) : Z := (zlen (free_list m) + om_num_blocks m - num_allocated_blocks m)%Z.

Definition fresh_block : M Mgr BlockStatus :=
  n ← gets num_allocated_blocks;
  modify (fun m => m <| num_allocated_blocks := (n + 1)%Z |>) ;; mret (BlockStatus_init n).
(** [self._free_list.pop()] *)
Definition reused_block : M Mgr BlockStatus :=
  l ← gets free_list;
  id ← of_option IndexError (last l);
  modify (fun m => m <| free_list := take (length l - 1) l |>) ;; mret (BlockStatus_init id).

(** [_allocate_blocks(keys)] *)
Definition offload_allocate_blocks (keys : list OffloadKey) : M Mgr (list BlockStatus) :=
  m ← gets id;
  let num_fresh := Z.min (zlen keys) (om_num_blocks m - num_allocated_blocks m) in
  let num_reused := (zlen keys - num_fresh)%Z in
  massert (num_reused <=? zlen (free_list m))%Z ;;
  fresh ← mfold (fun bs _ => b ← fresh_block; mret (bs ++ [b])) [] (zrange 0 num_fresh);
  mfold (fun bs _ => b ← reused_block; mret (bs ++ [b])) fresh (zrange 0 num_reused).

(** [_free_block(block)] *)
Definition free_block (b : BlockStatus) : M Mgr unit := modify (fun m => m <| free_list := free_list m ++ [status_block_id b] |>).

(** [_record_access(key)] on the tracker; [popitem] of an empty one raises. *)
Definition record_access (tracker_size : Z) (k : OffloadKey) : M (list (OffloadKey * Z)) unit :=
  counts ← gets id;
  match odict_get k counts with
  | Some n => modify (fun c => odict_set k (n + 1)%Z (odict_move_to_end k c))
  | None =>
      mwhen (tracker_size <=? zlen counts)%Z
        (match counts with [] => raise KeyError | _ :: c => modify (fun _ => c) end) ;;
      modify (odict_set k 1%Z)
  end.

(** [lookup(key)] *)
Definition offload_lookup (k : OffloadKey) : M Mgr LookupResult :=
  o ← get_block k;
  mret (match o with None => MISS | Some b => if negb (is_ready b) then HIT_PENDING else HIT end).

(** One key of [prepare_load] *)
Definition load_key (ids : list Z) (k : OffloadKey) : M Mgr (list Z) :=
  o ← get_block k;
  b ← of_option AssertionError o;
  massert (is_ready b) ;;
  mwhen (status_ref_cnt b =? 0)%Z
    (on_policy (policy_mark_non_evictable k) ;;
     modify (fun m => m <| num_evictable_cache_blocks := (num_evictable_cache_blocks m - 1)%Z |>) ;;
     n ← gets num_evictable_cache_blocks;
     massert (0 <=? n)%Z) ;;
  set_ref_cnt k (status_ref_cnt b + 1) ;;
  mret (ids ++ [status_block_id b]).
Definition prepare_load (keys : list OffloadKey) : M Mgr (list Z) := mfold load_key [] keys.

Definition offload_touch (keys : list OffloadKey) : M Mgr unit := on_policy (modify (policy_touch keys)).

(** One key of [complete_load] *)
Definition complete_load_key (k : OffloadKey) : M Mgr unit :=
  o ← get_block k;
  b ← of_option AssertionError o;
  massert (0 <? status_ref_cnt b)%Z ;;
  set_ref_cnt k (status_ref_cnt b - 1) ;;
  mwhen (int32 (status_ref_cnt b - 1) =? 0)%Z
    (modify (fun m => m <| num_evictable_cache_blocks := (num_evictable_cache_blocks m + 1)%Z |>) ;;
     on_policy (modify (policy_mark_evictable k))).
Definition complete_load (keys : list OffloadKey) : M Mgr unit := mfor keys complete_load_key.

Definition on_counts {A} (c : list (OffloadKey * Z)) : M (list (OffloadKey * Z)) A -> M Mgr A :=
  zoom (fun m => default c (om_counts m)) (fun c m => m <| om_counts := Some c |>).

(** The keys that were seen often enough, with the tracker updated *)
Definition admit_keys (keys : list OffloadKey) : M Mgr (list OffloadKey) :=
  m ← gets id;
  match om_counts m with
  | None => mret keys
  | Some c =>
      on_counts c (mfor keys (record_access (max_tracker_size m))) ;;
      c' ← gets (fun m => default [] (om_counts m));
      let admitted := filter (fun k => (store_threshold m <=? default 0 (odict_get k c'))%Z = true) keys in
      modify (fun m => m <| stores_skipped_in_current_batch := (stores_skipped_in_current_batch m + (zlen keys - zlen admitted))%Z |>) ;;
      mret admitted
  end.

Definition emit (keys : list OffloadKey) (removed : bool) : M Mgr unit :=
  modify (fun m => match keys, om_events m with
                   | _ :: _, Some l => m <| om_events := Some (l ++ [{| event_keys := keys; event_removed := removed |}]) |>
                   | _, _ => m
                   end).

(** The eviction in [prepare_store]: the evicted keys, or [None] when it fails *)
Definition make_room (keys to_store : list OffloadKey) : M Mgr (option (list OffloadKey)) :=
  m ← gets id;
  let n := (zlen to_store - offload_num_free_blocks m)%Z in
  if (0 <? n)%Z then
    if (num_evictable_cache_blocks m <? n)%Z then mret None
    else
      o ← on_policy (policy_evict n keys);
      match o with
      | None => mret None
      | Some evicted =>
          modify (fun m => m <| num_evictable_cache_blocks := (num_evictable_cache_blocks m - zlen evicted)%Z |>) ;;
          left ← gets num_evictable_cache_blocks;
          massert (0 <=? left)%Z ;;
          mfor evicted.*2 free_block ;;
          mret (Some evicted.*1)
      end
  else mret (Some []).

(** The allocation and the insertions in [prepare_store] *)
Definition store_blocks (to_store : list OffloadKey) : M Mgr (list BlockStatus) :=
  blocks ← offload_allocate_blocks to_store;
  massert (bool_decide (length blocks = length to_store)) ;;
  mfor (zip to_store blocks) (fun kb => on_policy (modify (policy_insert kb.1 kb.2))) ;;
  modify (fun m => m <| num_write_pending_blocks := (num_write_pending_blocks m + zlen to_store)%Z |>) ;;
  mret blocks.

(** [prepare_store(keys)] *)
Definition prepare_store (keys0 : list OffloadKey) : M Mgr (option PrepareStoreOutput) :=
  keys ← admit_keys keys0;
  m ← gets id;
  let to_store := filter (fun k => policy_get k (om_policy m) = None) keys in
  match to_store with
  | [] => mret (Some {| keys_to_store := []; store_block_ids := []; evicted_keys := [] |})
  | _ =>
      modify (fun m => m <| allocation_sizes_in_current_batch := allocation_sizes_in_current_batch m ++ [zlen to_store] |>) ;;
      room ← make_room keys to_store;
      match room with
      | None => mret None
      | Some evicted =>
          emit evicted true ;;
          blocks ← store_blocks to_store;
          mret (Some {| keys_to_store := to_store; store_block_ids := status_block_id <$> blocks; evicted_keys := evicted |})
      end
  end.

(** One key of [complete_store]; also the keys stored so far *)
Definition complete_store_key (success : bool) (stored : list OffloadKey) (k : OffloadKey) : M Mgr (list OffloadKey) :=
  o ← get_block k;
  match o with
  | Some b =>
      if negb (is_ready b) then
        if success then
          set_ref_cnt k 0 ;;
          modify (fun m => m <| num_write_pending_blocks := (num_write_pending_blocks m - 1)%Z |>
                             <| num_evictable_cache_blocks := (num_evictable_cache_blocks m + 1)%Z |>) ;;
          on_policy (modify (policy_mark_evictable k)) ;;
          mret (stored ++ [k])
        else
          modify (fun m => m <| num_write_pending_blocks := (num_write_pending_blocks m - 1)%Z |>) ;;
          on_policy (policy_remove k) ;;
          free_block b ;;
          mret stored
      else mret stored
  | None => mret stored
  end.
Definition complete_store (keys : list OffloadKey) (success : bool) : M Mgr unit :=
  stored ← mfold (complete_store_key success) [] keys;
  emit stored false.

(** [reset_cache()] *)
Definition offload_reset : M Mgr unit :=
  modify (fun m => m <| om_policy := policy_clear (om_policy m) |> <| num_evictable_cache_blocks := 0%Z |> <| num_write_pending_blocks := 0%Z |>
                     <| free_list := [] |> <| num_allocated_blocks := 0%Z |>).

(** [take_events()], consumed to the end *)
Definition offload_take_events : M Mgr (list OffloadingEvent) :=
  o ← gets om_events;
  match o with
  | None => mret []
  | Some l => modify (fun m => m <| om_events := Some [] |>) ;; mret l
  end.

(** [get_stats()]: the gauges it sets, the sizes it observes and the counter it increases *)
Definition offload_get_stats : M Mgr OffloadStats :=
  m ← gets id;
  let num_used := (num_allocated_blocks m - zlen (free_list m) - num_evictable_cache_blocks m)%Z in
  let share n := if (0 <? om_num_blocks m)%Z then float_div n (om_num_blocks m) else float_of_int 0 in
  let usage := share num_used in
  let write_usage := share (num_write_pending_blocks m) in
  modify (fun m => m <| allocation_sizes_in_current_batch := [] |>) ;;
  mwhen (2 <=? store_threshold m)%Z (modify (fun m => m <| stores_skipped_in_current_batch := 0%Z |>)) ;;
  mret {| cache_usage := usage; allocation_sizes := allocation_sizes_in_current_batch m; cache_write_usage := write_usage;
          cache_read_usage := float_max (float_sub usage write_usage) (float_of_int 0);
          stores_skipped := if (2 <=? store_threshold m)%Z then Some (stores_skipped_in_current_batch m) else None |}.
End Manager.
