(* ===== verification/OffloadPolicy.v ===== *)
(** What the offloading manager relies on of a cache policy, and that LRU and ARC provide it;
    which blocks LRU evicts. *)
From S2P Require Import Prelude Offload.

(** ** The laws of a policy *)

Abbreviation item := (OffloadKey * BlockStatus)%type.
Definition with_ref (n : Z) (b : BlockStatus) : BlockStatus := b <| status_ref_cnt := n |>.

(** [policy_items p] are the blocks the policy holds, in some order.  The manager keeps a
    policy informed of the blocks that become idle (count 0) and that stop being idle; only
    idle blocks may be evicted. *)
Class PolicyLaws (P : Type) `{CachePolicy P} := {
  policy_ok : P -> Prop;
  policy_items : P -> list item;
  law_nodup p : policy_ok p -> NoDup (policy_items p).*1;
  law_init c : policy_ok (policy_init c) /\ policy_items (policy_init c) = [];
  law_get p k b : policy_ok p -> (policy_get k p = Some b <-> (k, b) ∈ policy_items p);
  law_acquire p k b rest : policy_ok p -> policy_items p ≡ₚ (k, b) :: rest -> status_ref_cnt b = 0%Z ->
    exists p', policy_mark_non_evictable k p = (Ok tt, p') /\
      policy_ok (policy_set_ref_cnt k 1 p') /\ policy_items (policy_set_ref_cnt k 1 p') ≡ₚ (k, with_ref 1 b) :: rest;
  law_count p k b rest n : policy_ok p -> policy_items p ≡ₚ (k, b) :: rest -> status_ref_cnt b <> 0%Z -> n <> 0%Z ->
    policy_ok (policy_set_ref_cnt k n p) /\ policy_items (policy_set_ref_cnt k n p) ≡ₚ (k, with_ref n b) :: rest;
  law_release p k b rest : policy_ok p -> policy_items p ≡ₚ (k, b) :: rest -> status_ref_cnt b <> 0%Z ->
    policy_ok (policy_mark_evictable k (policy_set_ref_cnt k 0 p)) /\
    policy_items (policy_mark_evictable k (policy_set_ref_cnt k 0 p)) ≡ₚ (k, with_ref 0 b) :: rest;
  law_insert p k b : policy_ok p -> k ∉ (policy_items p).*1 -> status_ref_cnt b <> 0%Z ->
    policy_ok (policy_insert k b p) /\ policy_items (policy_insert k b p) ≡ₚ (k, b) :: policy_items p;
  law_remove p k b rest : policy_ok p -> policy_items p ≡ₚ (k, b) :: rest -> status_ref_cnt b <> 0%Z ->
    wp (policy_remove k) (fun _ p' => policy_ok p' /\ policy_items p' ≡ₚ rest) p;
  law_touch p keys : policy_ok p -> policy_ok (policy_touch keys p) /\ policy_items (policy_touch keys p) ≡ₚ policy_items p;
  law_evict p n protected : policy_ok p -> (0 <= n)%Z ->
    wp (policy_evict n protected) (fun r p' => policy_ok p' /\
      match r with
      | None => p' = p
      | Some l => zlen l = n /\ policy_items p ≡ₚ l ++ policy_items p' /\
          Forall (fun kb => status_ref_cnt kb.2 = 0%Z /\ kb.1 ∉ protected) l
      end) p;
  law_clear p : policy_ok p -> policy_ok (policy_clear p) /\ policy_items (policy_clear p) = [];
}.

(** ** Ordered dictionaries up to order *)

Lemma perm_head_get (d : list item) k b rest : NoDup d.*1 -> d ≡ₚ (k, b) :: rest -> odict_get k d = Some b.
Proof. intros Hnd Hp. apply odict_get_nodup; [done|]. rewrite Hp. by left. Qed.

Lemma nodup_perm (d d' : list item) : d ≡ₚ d' -> NoDup d.*1 -> NoDup d'.*1.
Proof. intros Hp Hnd. by rewrite <- Hp. Qed.

Lemma odict_del_perm (d : list item) k b : NoDup d.*1 -> (k, b) ∈ d -> d ≡ₚ (k, b) :: odict_del k d.
Proof.
  induction d as [|[k' b'] d IH]; intros Hnd Hin; [by apply elem_of_nil in Hin|]. csimpl in Hnd. apply NoDup_cons in Hnd as [Hk Hnd].
  unfold odict_del in *. rewrite filter_cons. apply elem_of_cons in Hin as [[= <- <-]|Hin]; simpl.
  - rewrite decide_False by (intros Hne; by apply Hne). f_equiv. rewrite list_filter_all; [done|]. intros [k2 b2] H2 E. simpl in E. subst k2.
    apply Hk, list_elem_of_fmap. by exists (k, b2).
  - rewrite decide_True; [|intros ->; apply Hk, list_elem_of_fmap; by exists (k, b)]. rewrite (IH Hnd Hin) at 1. apply Permutation_swap.
Qed.

Lemma odict_set_perm (d : list item) k b b' rest : NoDup d.*1 -> d ≡ₚ (k, b) :: rest -> odict_set k b' d ≡ₚ (k, b') :: rest.
Proof.
  intros Hnd Hp. assert ((k, b) ∈ d) as Hin by (rewrite Hp; left). assert (rest ≡ₚ odict_del k d) as ->.
  { apply (Permutation_cons_inv (a := (k, b))). rewrite <- Hp. by apply odict_del_perm. }
  clear Hp rest. induction d as [|[k1 b1] d IH]; [by apply elem_of_nil in Hin|]. csimpl in Hnd. apply NoDup_cons in Hnd as [Hk Hnd]. simpl. unfold odict_del in *. rewrite filter_cons.
  apply elem_of_cons in Hin as [[= <- <-]|Hin]; simpl.
  - rewrite (decide_True (P := k = k)) by done. rewrite decide_False by (intros Hne; by apply Hne). f_equiv. rewrite list_filter_all; [done|].
    intros [k2 b2] H2 E. simpl in E. subst k2. apply Hk, list_elem_of_fmap. by exists (k, b2).
  - assert (k1 <> k) by (intros ->; apply Hk, list_elem_of_fmap; by exists (k, b)). rewrite (decide_False (P := k1 = k)) by done.
    rewrite (decide_True (P := k1 <> k)) by done. rewrite (IH Hnd Hin). apply Permutation_swap.
Qed.

Lemma write_ref_perm (d : list item) k b rest n : NoDup d.*1 -> d ≡ₚ (k, b) :: rest -> write_ref_cnt k n d ≡ₚ (k, with_ref n b) :: rest.
Proof. intros Hnd Hp. unfold write_ref_cnt. rewrite (perm_head_get _ _ _ _ Hnd Hp). by eapply odict_set_perm. Qed.

Lemma odict_get_in (d : list item) k b : NoDup d.*1 -> (odict_get k d = Some b <-> (k, b) ∈ d).
Proof. intros Hnd. split; [apply odict_get_elem|by apply odict_get_nodup]. Qed.

Lemma elem_of_oset_add k x l : x ∈ oset_add k l <-> x = k \/ x ∈ l.
Proof. unfold oset_add. case_decide; rewrite ?elem_of_app, ?list_elem_of_singleton; naive_solver. Qed.

Lemma elem_of_oset_del k x l : x ∈ oset_del k l <-> x <> k /\ x ∈ l.
Proof. unfold oset_del. by rewrite list_elem_of_filter. Qed.

Lemma nodup_oset_add k l : NoDup l -> NoDup (oset_add k l).
Proof.
  intros Hl. unfold oset_add. case_decide; [done|]. apply NoDup_app. split; [done|]. split; [|apply NoDup_singleton]. intros x Hx ->%list_elem_of_singleton. done.
Qed.

Lemma oset_move_perm k (l : list OffloadKey) : NoDup l -> k ∈ l -> oset_del k l ++ [k] ≡ₚ l.
Proof.
  intros Hnd Hk. rewrite Permutation_app_comm. simpl. unfold oset_del. induction l as [|x l IH]; [by apply elem_of_nil in Hk|]. apply NoDup_cons in Hnd as [Hx Hnd].
  rewrite filter_cons. apply elem_of_cons in Hk as [<-|Hk].
  - rewrite decide_False by (intros Hne; by apply Hne). f_equiv. rewrite list_filter_all; [done|]. by intros y Hy ->.
  - rewrite decide_True by (by intros ->). by rewrite Permutation_swap, (IH Hnd Hk).
Qed.

(** ** LRU *)

Definition idle_key (d : list item) (k : OffloadKey) : Prop := exists b, (k, b) ∈ d /\ status_ref_cnt b = 0%Z.

Record lru_ok (p : LRUCachePolicy) : Prop := {
  lo_blocks : NoDup (lru_blocks p).*1;
  lo_nodup : NoDup (evictable_blocks p);
  lo_idle : forall k, k ∈ evictable_blocks p <-> idle_key (lru_blocks p) k;
}.

Lemma idle_perm d d' k : d ≡ₚ d' -> idle_key d k <-> idle_key d' k.
Proof. intros Hp. unfold idle_key. by setoid_rewrite Hp. Qed.

Lemma idle_cons k b rest x : idle_key ((k, b) :: rest) x <-> (x = k /\ status_ref_cnt b = 0%Z) \/ idle_key rest x.
Proof. unfold idle_key. setoid_rewrite elem_of_cons. naive_solver. Qed.

Lemma head_not_idle k b (rest : list item) : NoDup ((k, b) :: rest).*1 -> ~ idle_key rest k.
Proof. csimpl. intros [Hk _]%NoDup_cons (b' & Hin & _). apply Hk, list_elem_of_fmap. by exists (k, b'). Qed.

(** Changing the block under [k] and whether it is listed as idle *)
Lemma lru_change p k b b' rest ev : lru_ok p -> lru_blocks p ≡ₚ (k, b) :: rest -> NoDup ev ->
  (forall x, x ∈ ev <-> (x = k /\ status_ref_cnt b' = 0%Z) \/ (x <> k /\ x ∈ evictable_blocks p)) ->
  forall d', d' ≡ₚ (k, b') :: rest -> lru_ok {| evictable_blocks := ev; lru_blocks := d' |}.
Proof.
  intros [H1 H2 H3] Hp Hev Hx d' Hd. pose proof (nodup_perm _ _ Hp H1) as Hnd. split; simpl; [|done|].
  - apply (nodup_perm ((k, b') :: rest)); [by symmetry|]. done.
  - intros x. rewrite Hx, (idle_perm _ _ _ Hd), idle_cons, H3, (idle_perm _ _ _ Hp), idle_cons. pose proof (head_not_idle _ _ _ Hnd).
    destruct (decide (x = k)) as [->|]; naive_solver.
Qed.

Lemma lru_candidates_spec n protected d keys : NoDup d.*1 -> Forall (idle_key d) keys -> NoDup keys ->
  exists l, lru_candidates n protected d keys = Ok l /\ l.*1 = take n (filter (fun k => k ∉ protected) keys) /\
    Forall (fun kb => kb ∈ d /\ status_ref_cnt kb.2 = 0%Z) l.
Proof.
  intros Hd Hi Hnd. revert n. induction keys as [|k keys IH]; intros n; [exists []; destruct n; by split_and!|].
  apply Forall_cons in Hi as [(b & Hb & Hr) Hi]. apply NoDup_cons in Hnd as [_ Hnd]. destruct n as [|n]; [exists []; by split_and!|].
  simpl. rewrite filter_cons. destruct (decide (k ∈ protected)) as [Hp|Hp].
  - rewrite decide_False by naive_solver. exact (IH Hi Hnd (S n)).
  - rewrite decide_True by done. rewrite (odict_get_nodup _ _ _ Hd Hb), (proj2 (Z.eqb_eq _ _) Hr). destruct (IH Hi Hnd n) as (l & -> & H1 & H2).
    exists ((k, b) :: l). split_and!; [done|by csimpl; rewrite H1|by constructor].
Qed.

Lemma lru_drop_ok p k b : lru_ok p -> (k, b) ∈ lru_blocks p -> lru_ok (lru_drop p (k, b)) /\ lru_blocks p ≡ₚ (k, b) :: lru_blocks (lru_drop p (k, b)).
Proof.
  intros [H1 H2 H3] Hin. pose proof (odict_del_perm _ _ _ H1 Hin) as Hp. split; [|done]. pose proof (nodup_perm _ _ Hp H1) as Hnd. split; simpl.
  - csimpl in Hnd. by apply NoDup_cons in Hnd as [_ ?].
  - by apply NoDup_filter.
  - intros x. rewrite elem_of_oset_del, H3, (idle_perm _ _ _ Hp), idle_cons. pose proof (head_not_idle _ _ _ Hnd). naive_solver.
Qed.

Lemma lru_drop_all l p : lru_ok p -> NoDup l.*1 -> Forall (fun kb => kb ∈ lru_blocks p) l ->
  lru_ok (foldl lru_drop p l) /\ lru_blocks p ≡ₚ l ++ lru_blocks (foldl lru_drop p l).
Proof.
  revert p. induction l as [|[k b] l IH]; intros p Hp Hnd Hin; [done|]. csimpl in Hnd. apply NoDup_cons in Hnd as [Hk Hnd]. apply Forall_cons in Hin as [Hb Hin].
  destruct (lru_drop_ok p k b Hp Hb) as [H1 H2]. simpl. destruct (IH (lru_drop p (k, b)) H1 Hnd) as [H3 H4].
  - apply Forall_forall. intros [k' b'] Hkb. rewrite Forall_forall in Hin. specialize (Hin _ Hkb). rewrite H2 in Hin. apply elem_of_cons in Hin as [[= -> ->]|]; [|done].
    destruct Hk. apply list_elem_of_fmap. by exists (k, b).
  - split; [done|]. by rewrite H2, H4.
Qed.

(** [lru_evict]: the first [n] idle blocks in LRU order that are not protected, or nothing *)
Lemma lru_evict_spec p n protected : lru_ok p -> (0 <= n)%Z ->
  let chosen := filter (fun k => k ∉ protected) (evictable_blocks p) in
  wp (lru_evict n protected) (fun r p' => lru_ok p' /\
    match r with
    | None => p' = p /\ (zlen chosen < n)%Z
    | Some l => l.*1 = take (Z.to_nat n) chosen /\ zlen l = n /\ lru_blocks p ≡ₚ l ++ lru_blocks p' /\ Forall (fun kb => status_ref_cnt kb.2 = 0%Z /\ kb.1 ∉ protected) l
    end) p.
Proof.
  intros Hp Hn chosen. unfold lru_evict. wp_steps. destruct (Z.eqb_spec n 0) as [->|Hn0]; [wp_steps; split_and!; done|].
  destruct (lru_candidates_spec (Z.to_nat n) protected (lru_blocks p) (evictable_blocks p)) as (l & -> & Hl & Hin);
    [apply (lo_blocks _ Hp)|apply Forall_forall; intros k; apply (lo_idle _ Hp)|apply (lo_nodup _ Hp)|].
  assert (length l = Z.to_nat n `min` length chosen) as Hlen by (rewrite <- (length_fmap fst), Hl; apply length_take).
  destruct (Z.ltb_spec (zlen l) n) as [Hlt|Hge]; wp_steps.
  - split; [done|]. split; [done|]. unfold zlen in *. lia.
  - assert (NoDup l.*1) as Hnd. { rewrite Hl. assert (NoDup chosen) as Hc by apply NoDup_filter, (lo_nodup _ Hp). rewrite <- (take_drop (Z.to_nat n) chosen) in Hc. by apply NoDup_app in Hc as [? _]. }
    destruct (lru_drop_all l p Hp Hnd) as [H1 H2]; [eapply Forall_impl; [exact Hin|]; naive_solver|].
    split; [done|]. split_and!; [done|unfold zlen in *; lia|done|]. rewrite Forall_forall in Hin. apply Forall_forall. intros kb Hkb. split; [by apply Hin|].
    assert (kb.1 ∈ chosen) as Hc. { apply (subseteq_take (Z.to_nat n) chosen). unfold chosen. rewrite <- Hl. by apply list_elem_of_fmap_2. }
    by apply list_elem_of_filter in Hc as [? _].
Qed.

Lemma lru_touch_key_ok p k : lru_ok p ->
  lru_ok (if decide (k ∈ evictable_blocks p) then p <| evictable_blocks := oset_del k (evictable_blocks p) ++ [k] |> else p).
Proof.
  intros Hp. case_decide as Hk; [|done]. destruct Hp as [H1 H2 H3]. split; simpl; [done| |].
  - apply NoDup_app. split; [by apply NoDup_filter|]. split; [|apply NoDup_singleton]. intros x [Hx _]%elem_of_oset_del ->%list_elem_of_singleton. done.
  - intros x. rewrite elem_of_app, list_elem_of_singleton, elem_of_oset_del, <- H3. destruct (decide (x = k)) as [->|]; naive_solver.
Qed.

Lemma lru_touch_ok keys p : lru_ok p -> lru_ok (lru_touch keys p) /\ lru_blocks (lru_touch keys p) = lru_blocks p.
Proof.
  unfold lru_touch. generalize (reverse keys). intros l. revert p. induction l as [|k l IH]; intros p Hp; [done|]. simpl.
  destruct (IH _ (lru_touch_key_ok p k Hp)) as [H1 H2]. split; [done|]. rewrite H2. by case_decide.
Qed.

#[export] Program Instance LRU_laws : PolicyLaws LRUCachePolicy := {| policy_ok := lru_ok; policy_items := lru_blocks |}.
Next Obligation. intros p Hp. apply (lo_blocks _ Hp). Qed.
Next Obligation. intros c. split; [|done]. split; simpl; [constructor|constructor|]. intros k. split; [by intros ?%elem_of_nil|by intros (b & ?%elem_of_nil & _)]. Qed.
Next Obligation. intros p k b Hp. apply odict_get_in, (lo_blocks _ Hp). Qed.
Next Obligation.
  intros p k b rest Hp Hit Hr. pose proof (lo_blocks _ Hp) as Hnd.
  assert (k ∈ evictable_blocks p) as Hk. { apply (lo_idle _ Hp). rewrite (idle_perm _ _ _ Hit), idle_cons. by left. }
  exists (p <| evictable_blocks := oset_del k (evictable_blocks p) |>). split; [|split].
  - simpl. unfold lru_mark_non_evictable, mbind, M_bind, gets. simpl. unfold id. by destruct (decide (k ∈ evictable_blocks p)).
  - simpl. eapply (lru_change p k b (with_ref 1 b) rest (oset_del k (evictable_blocks p))); [done|done|by apply NoDup_filter, (lo_nodup _ Hp)| |by apply write_ref_perm]. intros x. rewrite elem_of_oset_del. simpl. naive_solver lia.
  - simpl. by apply write_ref_perm.
Qed.
Next Obligation.
  intros p k b rest n Hp Hit Hr Hn. pose proof (lo_blocks _ Hp) as Hnd. split; [|by apply write_ref_perm].
  assert (k ∉ evictable_blocks p) as Hk. { rewrite (lo_idle _ Hp), (idle_perm _ _ _ Hit), idle_cons. intros [[_ ?]|Hi]; [done|]. by eapply head_not_idle; [apply (nodup_perm _ _ Hit Hnd)|]. }
  eapply (lru_change p k b (with_ref n b) rest); [done|done|by apply (lo_nodup _ Hp)| |by apply write_ref_perm]. intros x. simpl. destruct (decide (x = k)) as [->|]; naive_solver.
Qed.
Next Obligation.
  intros p k b rest Hp Hit Hr. pose proof (lo_blocks _ Hp) as Hnd. split; [|by apply write_ref_perm].
  eapply (lru_change p k b (with_ref 0 b) rest); [done|done|by apply nodup_oset_add, (lo_nodup _ Hp)| |by apply write_ref_perm]. intros x. simpl. rewrite elem_of_oset_add.
  destruct (decide (x = k)) as [->|]; naive_solver.
Qed.
Next Obligation.
  intros p k b Hp Hk Hr. destruct Hp as [H1 H2 H3]. simpl. unfold lru_insert. rewrite (proj2 (Z.eqb_neq _ _) Hr). simpl.
  assert (odict_set k b (lru_blocks p) ≡ₚ (k, b) :: lru_blocks p) as Hp by (rewrite odict_set_new by done; by rewrite Permutation_app_comm).
  split; [|done]. split; simpl; [|done|].
  - apply (nodup_perm ((k, b) :: lru_blocks p)); [by symmetry|]. by apply NoDup_cons.
  - intros x. rewrite H3, (idle_perm _ _ _ Hp), idle_cons. naive_solver.
Qed.
Next Obligation.
  intros p k b rest Hp Hit Hr. pose proof (lo_blocks _ Hp) as Hnd. simpl. unfold lru_remove. wp_steps. rewrite (perm_head_get _ _ _ _ Hnd Hit). exists b. split; [done|]. wp_steps.
  assert ((k, b) ∈ lru_blocks p) as Hin by (simpl in Hit; rewrite Hit; apply list_elem_of_here). destruct (lru_drop_ok p k b Hp Hin) as [H1 H2]. split; [exact H1|].
  apply (Permutation_cons_inv (a := (k, b))). rewrite <- Hit. symmetry. exact H2.
Qed.
Next Obligation. intros p keys Hp. destruct (lru_touch_ok keys p Hp) as [H1 H2]. split; [done|]. simpl. by rewrite H2. Qed.
Next Obligation.
  intros p n protected Hp Hn. eapply wp_mono; [exact (lru_evict_spec p n protected Hp Hn)|]. intros [l|] p' (H1 & H2); [|naive_solver]. split; [done|]. naive_solver.
Qed.
Next Obligation. intros p _. split; [|done]. split; simpl; [constructor|constructor|]. intros k. split; [by intros ?%elem_of_nil|by intros (b & ?%elem_of_nil & _)]. Qed.
