(* ===== verification/OffloadArc.v ===== *)
(** The ARC policy: its four lists never share a key and the ghost lists stay bounded; which
    blocks it evicts, in closed form; it satisfies the laws of a policy. *)
From S2P Require Import Prelude Offload OffloadPolicy.

Definition arc_items (p : ARCCachePolicy) : list item := arc_t1 p ++ arc_t2 p.
Definition arc_all_keys (p : ARCCachePolicy) : list OffloadKey := (arc_items p).*1 ++ arc_b1 p ++ arc_b2 p.
Definition arc_disjoint (p : ARCCachePolicy) : Prop := NoDup (arc_all_keys p).
Definition ghosts_bounded (p : ARCCachePolicy) : Prop :=
  (zlen (arc_b1 p) <= Z.max 0 (cache_capacity p))%Z /\ (zlen (arc_b2 p) <= Z.max 0 (cache_capacity p))%Z.
Definition arc_ok (p : ARCCachePolicy) : Prop := arc_disjoint p /\ ghosts_bounded p.

(** ** Steps that only reorder *)

Definition arc_same (p p' : ARCCachePolicy) : Prop :=
  arc_items p' ≡ₚ arc_items p /\ arc_b1 p' ≡ₚ arc_b1 p /\ arc_b2 p' ≡ₚ arc_b2 p /\ cache_capacity p' = cache_capacity p.

Lemma arc_same_refl p : arc_same p p.
Proof. by split_and!. Qed.

Lemma arc_same_trans p q r : arc_same p q -> arc_same q r -> arc_same p r.
Proof. intros (H1 & H2 & H3 & H4) (G1 & G2 & G3 & G4). split_and!; by etrans. Qed.

Lemma ghosts_bounded_perm p p' : arc_b1 p' ≡ₚ arc_b1 p -> arc_b2 p' ≡ₚ arc_b2 p -> cache_capacity p' = cache_capacity p ->
  ghosts_bounded p -> ghosts_bounded p'.
Proof. unfold ghosts_bounded, zlen. by intros -> -> ->. Qed.

Lemma arc_same_ok p p' : arc_same p p' -> arc_ok p -> arc_ok p'.
Proof.
  intros (H1 & H2 & H3 & H4) [Hd Hb]. split; [|by eapply ghosts_bounded_perm]. unfold arc_disjoint, arc_all_keys in *. by rewrite H1, H2, H3.
Qed.

Lemma arc_nodup p : arc_disjoint p -> NoDup (arc_items p).*1.
Proof. by intros [? _]%NoDup_app. Qed.

Lemma arc_nodup_parts p : arc_disjoint p -> NoDup (arc_t1 p).*1 /\ NoDup (arc_t2 p).*1 /\ forall k, k ∈ (arc_t1 p).*1 -> k ∉ (arc_t2 p).*1.
Proof. intros Hd%arc_nodup. unfold arc_items in Hd. rewrite fmap_app in Hd. apply NoDup_app in Hd as (? & ? & ?). by split_and!. Qed.

Lemma odict_get_absent (d : list item) k : k ∉ d.*1 -> odict_get k d = None.
Proof. intros Hk. destruct (odict_get k d) as [b|] eqn:E; [|done]. apply odict_get_elem in E. destruct Hk. apply list_elem_of_fmap. by exists (k, b). Qed.

Lemma elem_key (d : list item) k b : (k, b) ∈ d -> k ∈ d.*1.
Proof. intros Hin. apply list_elem_of_fmap. by exists (k, b). Qed.

Lemma absent_key (d : list item) k : odict_get k d = None -> NoDup d.*1 -> k ∉ d.*1.
Proof. intros E Hnd ([k' b] & -> & Hin)%list_elem_of_fmap. apply (odict_get_nodup _ _ _ Hnd) in Hin. simpl in E. congruence. Qed.

Lemma odict_del_gone (d : list item) k : k ∉ (odict_del k d).*1.
Proof. intros ([k' b] & -> & [Hne _]%list_elem_of_filter)%list_elem_of_fmap. by apply Hne. Qed.

(** One touched key *)
Lemma arc_touch_key_same p k : arc_disjoint p -> arc_same p (arc_touch_key p k).
Proof.
  intros Hd. destruct (arc_nodup_parts p Hd) as (N1 & N2 & Hdis). pose proof Hd as Hg. unfold arc_disjoint, arc_all_keys in Hg. apply NoDup_app in Hg as (_ & _ & (G1 & _ & G2)%NoDup_app).
  unfold arc_touch_key. destruct (odict_get k (arc_t1 p)) as [b|] eqn:E1; simpl.
  - apply odict_get_elem in E1. pose proof (odict_del_perm _ _ _ N1 E1) as Hp. pose proof (odict_del_gone (arc_t1 p) k) as Hk. pose proof (Hdis _ (elem_key _ _ _ E1)) as Hk2.
    destruct (negb (is_ready b)); split_and!; simpl; try done; unfold arc_items; simpl; rewrite odict_set_new by done; rewrite Hp at 2; simpl.
    + rewrite <- app_assoc. symmetry. apply Permutation_middle.
    + rewrite app_assoc. rewrite (Permutation_app_comm _ [(k, b)]). done.
  - destruct (odict_get k (arc_t2 p)) as [b|] eqn:E2.
    { split_and!; simpl; try done. unfold arc_items, odict_move_to_end. simpl. rewrite E2. apply odict_get_elem in E2. f_equiv. rewrite (odict_del_perm _ _ _ N2 E2) at 2.
      by rewrite Permutation_app_comm. }
    case_decide; [|case_decide; [|done]]; split_and!; simpl; try done; by apply oset_move_perm.
Qed.

Lemma arc_touch_same keys p : arc_ok p -> arc_same p (arc_touch keys p).
Proof.
  unfold arc_touch. generalize (reverse keys). intros l. revert p. induction l as [|k l IH]; intros p Hp; [apply arc_same_refl|]. simpl.
  pose proof (arc_touch_key_same p k (proj1 Hp)) as Hs. eapply arc_same_trans; [exact Hs|]. apply IH. by eapply arc_same_ok.
Qed.

(** ** The count of a block *)

Lemma arc_get_in p k b : arc_disjoint p -> (arc_get k p = Some b <-> (k, b) ∈ arc_items p).
Proof.
  intros Hd. destruct (arc_nodup_parts p Hd) as (N1 & N2 & Hdis). unfold arc_get, arc_items. rewrite elem_of_app, <- (odict_get_in (arc_t1 p)), <- (odict_get_in (arc_t2 p)) by done.
  destruct (odict_get k (arc_t1 p)) as [b1|] eqn:E1; [|naive_solver]. split; [by left|]. intros [?|E2]; [done|]. exfalso.
  apply (Hdis k); eapply elem_key, odict_get_elem; eassumption.
Qed.

Lemma arc_set_ref p k b rest n : arc_disjoint p -> arc_items p ≡ₚ (k, b) :: rest ->
  let p' := policy_set_ref_cnt k n p in
  arc_items p' ≡ₚ (k, with_ref n b) :: rest /\ arc_b1 p' = arc_b1 p /\ arc_b2 p' = arc_b2 p /\ cache_capacity p' = cache_capacity p.
Proof.
  intros Hd Hp. destruct (arc_nodup_parts p Hd) as (N1 & N2 & Hdis). simpl. assert ((k, b) ∈ arc_items p) as Hin by (rewrite Hp; apply list_elem_of_here).
  unfold arc_items in *. apply elem_of_app in Hin as [Hin|Hin].
  - rewrite (odict_get_nodup _ _ _ N1 Hin). simpl. split_and!; try done. pose proof (odict_del_perm _ _ _ N1 Hin) as Hp1.
    rewrite (write_ref_perm _ _ _ _ n N1 Hp1). simpl. f_equiv. apply (Permutation_cons_inv (a := (k, b))). rewrite <- Hp. by rewrite Hp1 at 2.
  - rewrite odict_get_absent by (intros Hk; by apply (Hdis _ Hk), (elem_key _ _ b)). simpl. split_and!; try done. pose proof (odict_del_perm _ _ _ N2 Hin) as Hp2.
    rewrite (write_ref_perm _ _ _ _ n N2 Hp2), <- Permutation_middle. f_equiv. apply (Permutation_cons_inv (a := (k, b))). rewrite <- Hp, Permutation_middle. by rewrite Hp2 at 2.
Qed.

Lemma arc_keys_ok p p' : (arc_items p').*1 ≡ₚ (arc_items p).*1 -> arc_b1 p' = arc_b1 p -> arc_b2 p' = arc_b2 p -> cache_capacity p' = cache_capacity p ->
  arc_ok p -> arc_ok p'.
Proof. intros H1 H2 H3 H4 [Hd Hb]. unfold arc_ok, arc_disjoint, arc_all_keys, ghosts_bounded in *. by rewrite H1, H2, H3, H4. Qed.

Lemma arc_set_ref_ok p k b rest n : arc_ok p -> arc_items p ≡ₚ (k, b) :: rest ->
  arc_ok (policy_set_ref_cnt k n p) /\ arc_items (policy_set_ref_cnt k n p) ≡ₚ (k, with_ref n b) :: rest.
Proof.
  intros Hok Hp. destruct (arc_set_ref p k b rest n (proj1 Hok) Hp) as (H1 & H2 & H3 & H4). split; [|done]. apply (arc_keys_ok p); try done. by rewrite H1, Hp.
Qed.

(** ** Eviction *)

Definition arc_candidate (protected : list OffloadKey) (kb : item) : Prop :=
  (status_ref_cnt kb.2 =? 0)%Z && negb (bool_decide (kb.1 ∈ protected)) = true.
#[export] Instance arc_candidate_dec protected kb : Decision (arc_candidate protected kb).
Proof. unfold arc_candidate. apply _. Defined.

Lemma arc_candidate_spec protected kb : arc_candidate protected kb <-> status_ref_cnt kb.2 = 0%Z /\ kb.1 ∉ protected.
Proof. unfold arc_candidate. rewrite andb_true_iff, negb_true_iff, bool_decide_eq_false, Z.eqb_eq. done. Qed.

Lemma next_candidate_spec protected l :
  (next_candidate protected l).1 = head (filter (arc_candidate protected) l) /\
  filter (arc_candidate protected) (next_candidate protected l).2 = tail (filter (arc_candidate protected) l).
Proof.
  induction l as [|kb l [IH1 IH2]]; [done|]. simpl. rewrite filter_cons. destruct ((status_ref_cnt kb.2 =? 0)%Z && _) eqn:E.
  - by rewrite decide_True by exact E.
  - by rewrite decide_False by (unfold arc_candidate; rewrite E; done).
Qed.

(** Blocks are taken from T1, oldest first, as long as T1 is not below its target and has
    candidates, and all the others from T2. *)
Definition arc_choice (n : nat) (protected : list OffloadKey) (target virtual_t1_size : Z) (t1 t2 : list item) : option (list (item * bool)) :=
  let c1 := filter (arc_candidate protected) t1 in
  let c2 := filter (arc_candidate protected) t2 in
  let a := (n `min` (length c1 `min` Z.to_nat (virtual_t1_size - target + 1)))%nat in
  if decide (n - a <= length c2)%nat then Some (((., true) <$> take a c1) ++ ((., false) <$> take (n - a) c2)) else None.

Lemma arc_candidates_choice n protected target v t1 t2 : arc_candidates n protected target v t1 t2 = arc_choice n protected target v t1 t2.
Proof.
  revert v t1 t2. induction n as [|n IH]; intros v t1 t2; [done|]. simpl. unfold arc_choice.
  pose proof (next_candidate_spec protected t1) as [A1 A2]. pose proof (next_candidate_spec protected t2) as [B1 B2].
  destruct (Z.leb_spec target v) as [Hle|Hgt].
  - destruct (next_candidate protected t1) as [o1 t1']. destruct (filter (arc_candidate protected) t1) as [|x c1]; simpl in A1, A2; subst o1; simpl.
    + destruct (next_candidate protected t2) as [o2 t2']. destruct (filter (arc_candidate protected) t2) as [|y c2]; simpl in B1, B2; subst o2.
      { case_decide as HH; [simpl in HH; lia|done]. }
      rewrite IH. unfold arc_choice. rewrite A2, B2. simpl. rewrite Nat.min_0_r, Nat.sub_0_r. repeat case_decide; simpl in *; done || lia.
    + rewrite IH. unfold arc_choice. rewrite A2. replace (Z.to_nat (v - target + 1)) with (S (Z.to_nat (v - 1 - target + 1))) by lia. simpl.
      repeat case_decide; simpl in *; done || lia.
  - replace (Z.to_nat (v - target + 1)) with 0 by lia. rewrite !Nat.min_0_r, Nat.sub_0_r. simpl.
    destruct (next_candidate protected t2) as [o2 t2']. destruct (filter (arc_candidate protected) t2) as [|y c2]; simpl in B1, B2; subst o2.
      { case_decide as HH; [simpl in HH; lia|done]. }
    rewrite IH. unfold arc_choice. rewrite B2. replace (Z.to_nat (v - target + 1)) with 0 by lia. rewrite !Nat.min_0_r, Nat.sub_0_r. simpl.
    repeat case_decide; simpl in *; done || lia.
Qed.

Lemma fst_tag (l : list item) (t : bool) : ((fun kb => (kb, t)) <$> l).*1 = l.
Proof. induction l as [|kb l IH]; [done|]. csimpl. by rewrite IH. Qed.

Lemma arc_choice_spec n protected target v t1 t2 l : NoDup (t1 ++ t2).*1 -> arc_choice n protected target v t1 t2 = Some l ->
  length l = n /\ NoDup (l.*1).*1 /\ Forall (fun c : item * bool => c.1 ∈ (if c.2 then t1 else t2) /\ arc_candidate protected c.1) l.
Proof.
  intros Hnd. unfold arc_choice. set (a := (_ `min` _)%nat). case_decide as Hn; [|done]. intros [= <-].
  assert (a <= length (filter (arc_candidate protected) t1))%nat by (subst a; lia). assert (a <= n)%nat by (subst a; lia). clearbody a.
  rewrite length_app, !length_fmap, !length_take. split; [lia|]. split.
  - rewrite fmap_app, !fst_tag. eapply sublist_NoDup; [exact Hnd|]. apply fmap_sublist, sublist_app; (etrans; [apply sublist_take|apply sublist_filter]).
  - apply Forall_app. split; apply Forall_forall; intros c ([kb] & -> & Hc%subseteq_take)%list_elem_of_fmap; apply list_elem_of_filter in Hc as [Hc ?]; by split.
Qed.

Lemma arc_apply_step p (kb : item) (from_t1 : bool) : arc_disjoint p -> kb ∈ (if from_t1 then arc_t1 p else arc_t2 p) ->
  arc_disjoint (arc_apply p (kb, from_t1)) /\ arc_items p ≡ₚ kb :: arc_items (arc_apply p (kb, from_t1)) /\
  cache_capacity (arc_apply p (kb, from_t1)) = cache_capacity p /\
  (forall (kb' : item) t, kb'.1 <> kb.1 -> kb' ∈ (if t : bool then arc_t1 p else arc_t2 p) ->
    kb' ∈ (if t then arc_t1 (arc_apply p (kb, from_t1)) else arc_t2 (arc_apply p (kb, from_t1)))).
Proof.
  intros Hd Hin. destruct kb as [k b]. destruct (arc_nodup_parts p Hd) as (N1 & N2 & Hdis). pose proof Hd as Hg. unfold arc_disjoint, arc_all_keys in Hg. apply NoDup_app in Hg as (_ & Hg & _).
  assert (k ∈ (arc_items p).*1) as Hk by (apply (elem_key _ _ b), elem_of_app; destruct from_t1; [by left|by right]).
  specialize (Hg k Hk). apply not_elem_of_app in Hg as [Hg1 Hg2]. set (p' := arc_apply p (k, b, from_t1)).
  assert (arc_items p ≡ₚ (k, b) :: arc_items p') as Hp.
  { unfold p', arc_items, arc_apply. destruct from_t1; simpl; [by rewrite (odict_del_perm _ _ _ N1 Hin) at 1|]. rewrite (odict_del_perm _ _ _ N2 Hin) at 1. by rewrite <- Permutation_middle. }
  assert (arc_b1 p' ++ arc_b2 p' ≡ₚ k :: arc_b1 p ++ arc_b2 p) as Hb.
  { unfold p', arc_apply, oset_add. destruct from_t1; simpl; rewrite decide_False by done; [by rewrite (Permutation_app_comm (arc_b1 p))|]. by rewrite app_assoc, Permutation_app_comm. }
  split_and!; [|done|by destruct from_t1|].
  - unfold arc_disjoint, arc_all_keys in *. rewrite Hp in Hd. rewrite Hb, <- Permutation_middle. exact Hd.
  - unfold p', arc_apply. intros kb' [|] Hne Hkb; destruct from_t1; simpl; try done; by apply list_elem_of_filter.
Qed.

Lemma arc_apply_all l p : arc_disjoint p -> NoDup (l.*1).*1 -> Forall (fun c : item * bool => c.1 ∈ (if c.2 then arc_t1 p else arc_t2 p)) l ->
  arc_disjoint (foldl arc_apply p l) /\ arc_items p ≡ₚ l.*1 ++ arc_items (foldl arc_apply p l) /\ cache_capacity (foldl arc_apply p l) = cache_capacity p.
Proof.
  revert p. induction l as [|[kb t] l IH]; intros p Hd Hnd Hin; [done|]. csimpl in Hnd. apply NoDup_cons in Hnd as [Hk Hnd]. apply Forall_cons in Hin as [Hkb Hin].
  destruct (arc_apply_step p kb t Hd Hkb) as (H1 & H2 & H3 & H4). csimpl. destruct (IH (arc_apply p (kb, t)) H1 Hnd) as (H5 & H6 & H7).
  - rewrite Forall_forall in Hin. apply Forall_forall. intros c Hc. apply H4; [|by apply Hin]. intros E. apply Hk. rewrite <- E. by apply list_elem_of_fmap_2, list_elem_of_fmap_2.
  - split_and!; [done|by rewrite H2, H6|congruence].
Qed.

Lemma trim_ghosts_ok p : arc_disjoint p -> arc_ok (trim_ghosts p).
Proof.
  intros Hd. split.
  - unfold arc_disjoint, arc_all_keys, arc_items in *. eapply sublist_NoDup; [exact Hd|]. simpl. apply sublist_app; [done|]. apply sublist_app; apply sublist_drop.
  - unfold ghosts_bounded, trim_ghosts, zlen. simpl. rewrite !length_drop. lia.
Qed.

(** [arc_evict]: the choice in closed form; the state is unchanged when there are too few *)
Lemma arc_evict_spec p n protected : arc_ok p -> (0 <= n)%Z ->
  let choice := arc_choice (Z.to_nat n) protected (float_int (target_t1_size p)) (zlen (arc_t1 p)) (arc_t1 p) (arc_t2 p) in
  wp (arc_evict n protected) (fun r p' => arc_ok p' /\
    match r with
    | None => p' = p /\ choice = None
    | Some l => (exists cs, choice = Some cs /\ l = cs.*1) /\ zlen l = n /\ arc_items p ≡ₚ l ++ arc_items p' /\ Forall (fun kb => status_ref_cnt kb.2 = 0%Z /\ kb.1 ∉ protected) l
    end) p.
Proof.
  intros Hok Hn choice. unfold arc_evict. wp_steps. unfold id. destruct (Z.eqb_spec n 0) as [->|Hn0].
  { wp_steps. split_and!; try done. exists []. split; [|done]. unfold choice, arc_choice. case_decide; simpl in *; [done|lia]. }
  rewrite arc_candidates_choice. fold choice. destruct choice as [l|] eqn:E; [|by wp_steps].
  apply arc_choice_spec in E as (Hlen & Hnd & Hin); [|apply arc_nodup, Hok]. wp_steps.
  destruct (arc_apply_all l p (proj1 Hok) Hnd) as (H1 & H2 & H3); [eapply Forall_impl; [exact Hin|]; naive_solver|].
  split; [by apply trim_ghosts_ok|]. split_and!; [by exists l|unfold zlen; rewrite length_fmap; lia|exact H2|].
  apply Forall_fmap. eapply Forall_impl; [exact Hin|]. intros c [_ Hc]. by apply arc_candidate_spec.
Qed.

(** ** The laws *)

#[export] Program Instance ARC_laws : PolicyLaws ARCCachePolicy := {| policy_ok := arc_ok; policy_items := arc_items |}.
Next Obligation. intros p Hp. apply arc_nodup, Hp. Qed.
Next Obligation. intros c. split; [|done]. split; [constructor|]. unfold ghosts_bounded, zlen. simpl. lia. Qed.
Next Obligation. intros p k b Hp. apply arc_get_in, Hp. Qed.
Next Obligation. intros p k b rest Hp Hit _. exists p. split; [done|]. by apply (arc_set_ref_ok p k b rest 1). Qed.
Next Obligation. intros p k b rest n Hp Hit _ _. by apply (arc_set_ref_ok p k b rest n). Qed.
Next Obligation. intros p k b rest Hp Hit _. by apply (arc_set_ref_ok p k b rest 0). Qed.
Next Obligation.
  intros p k b Hp Hk _. assert (arc_items (arc_insert k b p) ≡ₚ (k, b) :: arc_items p) as Hit.
  { unfold arc_items, arc_insert in *. simpl in *. rewrite fmap_app, not_elem_of_app in Hk. rewrite odict_set_new by apply Hk. rewrite <- app_assoc. simpl. by rewrite <- Permutation_middle. }
  split; [|done]. destruct Hp as [Hd Hb]. split.
  - unfold arc_disjoint, arc_all_keys in *. simpl. rewrite Hit. csimpl. apply NoDup_cons. split.
    + rewrite !not_elem_of_app, !elem_of_oset_del. split_and!; [done|by intros [? _]..].
    + eapply sublist_NoDup; [exact Hd|]. apply sublist_app; [done|]. apply sublist_app; apply sublist_filter.
  - unfold ghosts_bounded, zlen in *. simpl. unfold oset_del. pose proof (length_filter (fun x => x <> k) (arc_b1 p)). pose proof (length_filter (fun x => x <> k) (arc_b2 p)). lia.
Qed.
Next Obligation.
  intros p k b rest Hp Hit _. simpl. unfold arc_remove. wp_steps. destruct (arc_nodup_parts p (proj1 Hp)) as (N1 & N2 & Hdis).
  assert ((k, b) ∈ arc_items p) as Hin by (rewrite Hit; apply list_elem_of_here). unfold arc_items in Hin. apply elem_of_app in Hin.
  assert (forall p', arc_items p ≡ₚ (k, b) :: arc_items p' -> arc_b1 p' = arc_b1 p -> arc_b2 p' = arc_b2 p -> cache_capacity p' = cache_capacity p ->
    arc_ok p' /\ arc_items p' ≡ₚ rest) as Hgo.
  { intros p' H1 H2 H3 H4. split; [|apply (Permutation_cons_inv (a := (k, b))); by rewrite <- H1]. destruct Hp as [Hd Hb]. unfold arc_ok, arc_disjoint, arc_all_keys, ghosts_bounded in *.
    rewrite H2, H3, H4. split; [|done]. rewrite H1 in Hd. by apply NoDup_cons in Hd as [_ ?]. }
  destruct Hin as [Hin|Hin].
  - rewrite (odict_get_nodup _ _ _ N1 Hin). apply Hgo; try done. unfold arc_items. simpl. by rewrite (odict_del_perm _ _ _ N1 Hin) at 1.
  - rewrite odict_get_absent by (intros Hk; by apply (Hdis _ Hk), (elem_key _ _ b)). apply Hgo; try done. unfold arc_items. simpl. rewrite (odict_del_perm _ _ _ N2 Hin) at 1. by rewrite <- Permutation_middle.
Qed.
Next Obligation. intros p keys Hp. pose proof (arc_touch_same keys p Hp) as Hs. split; [by eapply arc_same_ok|apply Hs]. Qed.
Next Obligation.
  intros p n protected Hp Hn. eapply wp_mono; [exact (arc_evict_spec p n protected Hp Hn)|]. intros [l|] p' (H1 & H2); [|naive_solver]. split; [done|]. naive_solver.
Qed.
Next Obligation. intros p _. split; [|done]. split; [constructor|]. unfold ghosts_bounded, zlen. simpl. lia. Qed.
