(* ===== verification/OffloadManager.v ===== *)
(** The offloading manager over any policy with the laws: the invariant of its block pool and
    of its counters, and what each call does.  [loads] are the keys of the loads in flight. *)
From S2P Require Import Prelude Offload OffloadPolicy.

(** ** Counting *)

Definition occurrences (k : OffloadKey) (l : list OffloadKey) : Z := zlen (filter (eq k) l).
Definition num_refs (v : Z) (d : list item) : Z := zlen (filter (fun kb => status_ref_cnt kb.2 = v) d).
Definition item_ids (d : list item) : list Z := (fun kb => status_block_id kb.2) <$> d.

Lemma occurrences_cons k x l : occurrences k (x :: l) = ((if decide (k = x) then 1 else 0) + occurrences k l)%Z.
Proof. unfold occurrences, zlen. rewrite filter_cons. repeat case_decide; simpl; done || lia. Qed.

Lemma occurrences_nonneg k l : (0 <= occurrences k l <= zlen l)%Z.
Proof. unfold occurrences, zlen. pose proof (length_filter (eq k) l). lia. Qed.

Lemma occurrences_0 k l : k ∉ l -> occurrences k l = 0%Z.
Proof. induction l as [|x l IH]; [done|]. rewrite not_elem_of_cons, occurrences_cons. intros [Hne Hl]. rewrite decide_False by done. rewrite (IH Hl). done. Qed.

Lemma occurrences_pos k l : k ∈ l -> (0 < occurrences k l)%Z.
Proof.
  intros Hin. induction l as [|x l IH]; [by apply elem_of_nil in Hin|]. rewrite occurrences_cons. pose proof (occurrences_nonneg k l).
  apply elem_of_cons in Hin as [->|Hin]; [rewrite decide_True by done; lia|]. specialize (IH Hin). case_decide; lia.
Qed.

#[export] Instance occurrences_perm k : Proper ((≡ₚ) ==> eq) (occurrences k).
Proof. intros l l' Hp. unfold occurrences, zlen. by rewrite Hp. Qed.
#[export] Instance num_refs_perm v : Proper ((≡ₚ) ==> eq) (num_refs v).
Proof. intros l l' Hp. unfold num_refs, zlen. by rewrite Hp. Qed.
#[export] Instance item_ids_perm : Proper ((≡ₚ) ==> (≡ₚ)) item_ids.
Proof. intros l l' Hp. unfold item_ids. by rewrite Hp. Qed.

Lemma num_refs_cons v k b d : num_refs v ((k, b) :: d) = ((if decide (status_ref_cnt b = v) then 1 else 0) + num_refs v d)%Z.
Proof. unfold num_refs, zlen. rewrite filter_cons. simpl. repeat case_decide; simpl; done || lia. Qed.

Lemma num_refs_app v d d' : num_refs v (d ++ d') = (num_refs v d + num_refs v d')%Z.
Proof. unfold num_refs, zlen. rewrite filter_app, length_app. lia. Qed.

Lemma num_refs_nonneg v d : (0 <= num_refs v d)%Z.
Proof. unfold num_refs, zlen. lia. Qed.

Lemma num_refs_all v d : Forall (fun kb => status_ref_cnt kb.2 = v) d -> num_refs v d = zlen d.
Proof. intros Hd. unfold num_refs, zlen. rewrite list_filter_all; [done|]. by apply Forall_forall. Qed.

Lemma num_refs_none v w d : Forall (fun kb => status_ref_cnt kb.2 = w) d -> v <> w -> num_refs v d = 0%Z.
Proof. intros Hd Hv. induction Hd as [|[k b] d Hb Hd IH]; [done|]. rewrite num_refs_cons, IH. simpl in Hb. rewrite decide_False; [done|congruence]. Qed.

Lemma int32_id z : (- 2 ^ 31 <= z < 2 ^ 31)%Z -> int32 z = z.
Proof. intros. unfold int32. rewrite Z.mod_small; lia. Qed.
Lemma int64_id z : (- 2 ^ 63 <= z < 2 ^ 63)%Z -> int64 z = z.
Proof. intros. unfold int64. rewrite Z.mod_small; lia. Qed.

Lemma zrange_snoc n : (0 <= n)%Z -> zrange 0 (n + 1) = zrange 0 n ++ [n].
Proof.
  intros Hn. unfold zrange. rewrite !Z.sub_0_r. replace (Z.to_nat (n + 1)) with (S (Z.to_nat n)) by lia. rewrite seq_S, fmap_app. csimpl. do 2 f_equal. lia.
Qed.

(** ** The invariant *)

Section Inv.
  Context {P : Type} `{PolicyLaws P}.

#[local] Abbreviation Mgr := (CPUOffloadingManager P).
Definition om_items (m : Mgr) : list item := policy_items (om_policy m).

Definition tracker_ok (m : Mgr) : Prop :=
  (0 < max_tracker_size m)%Z /\ match om_counts m with None => True | Some c => NoDup c.*1 /\ (zlen c <= max_tracker_size m)%Z end.

(** The pool: each of the first [num_allocated_blocks] ids is the block of one key, is free or
    is in [extra] (handed out, not yet in the policy).  A block is being stored (count -1) or
    its count is the number of its loads in flight. *)
Record om_core (extra : list Z) (loads : list OffloadKey) (m : Mgr) : Prop := {
  oc_policy : policy_ok (om_policy m);
  oc_ids : item_ids (om_items m) ++ extra ++ free_list m ≡ₚ zrange 0 (num_allocated_blocks m);
  oc_alloc : (0 <= num_allocated_blocks m <= om_num_blocks m)%Z /\ (om_num_blocks m < 2 ^ 63)%Z;
  oc_refs : forall k b, (k, b) ∈ om_items m -> (status_ref_cnt b = (-1)%Z /\ k ∉ loads) \/ status_ref_cnt b = occurrences k loads;
  oc_loads : forall k, k ∈ loads -> k ∈ (om_items m).*1;
  oc_width : (zlen loads < 2 ^ 31)%Z;
  oc_tracker : tracker_ok m;
}.

Record om_ok (loads : list OffloadKey) (m : Mgr) : Prop := {
  oo_core : om_core [] loads m;
  oo_evictable : num_evictable_cache_blocks m = num_refs 0 (om_items m);
  oo_pending : num_write_pending_blocks m = num_refs (-1) (om_items m);
}.

Lemma om_core_loads_perm extra l l' m : l ≡ₚ l' -> om_core extra l m -> om_core extra l' m.
Proof.
  intros Hp [C1 C2 C3 C4 C5 C6 C7]. split; try done.
  - intros k b Hkb. rewrite <- Hp. by apply C4.
  - intros k Hk. apply C5. by rewrite Hp.
  - unfold zlen. by rewrite <- Hp.
Qed.

Lemma om_ok_loads_perm l l' m : l ≡ₚ l' -> om_ok l m -> om_ok l' m.
Proof. intros Hp [H1 H2 H3]. split; [by eapply om_core_loads_perm|done|done]. Qed.

Lemma oc_nodup extra loads m : om_core extra loads m -> NoDup (om_items m).*1.
Proof. intros Hc. apply law_nodup, Hc. Qed.

Lemma item_split extra loads m k b : om_core extra loads m -> (k, b) ∈ om_items m -> exists rest, om_items m ≡ₚ (k, b) :: rest.
Proof. intros _ Hin. by apply elem_of_Permutation in Hin. Qed.

Lemma om_get extra loads m k b : om_core extra loads m -> (policy_get k (om_policy m) = Some b <-> (k, b) ∈ om_items m).
Proof. intros Hc. apply law_get, Hc. Qed.

Lemma om_get_none extra loads m k : om_core extra loads m -> (policy_get k (om_policy m) = None <-> k ∉ (om_items m).*1).
Proof.
  intros Hc. split.
  - intros E ([k' b] & -> & Hin)%list_elem_of_fmap. apply (om_get _ _ _ _ _ Hc) in Hin. simpl in E. congruence.
  - intros Hk. destruct (policy_get k (om_policy m)) as [b|] eqn:E; [|done]. apply (om_get _ _ _ _ _ Hc) in E. destruct Hk. apply list_elem_of_fmap. by exists (k, b).
Qed.

(** ** One block changes its count *)

Lemma om_core_change extra loads loads' m k b rest n p' :
  om_core extra loads m -> om_items m ≡ₚ (k, b) :: rest -> policy_ok p' -> policy_items p' ≡ₚ (k, with_ref n b) :: rest ->
  ((n = -1 /\ k ∉ loads')%Z \/ n = occurrences k loads') ->
  (forall k', k' <> k -> occurrences k' loads' = occurrences k' loads) -> (zlen loads' < 2 ^ 31)%Z ->
  om_core extra loads' (m <| om_policy := p' |>).
Proof.
  intros Hc Hit Hok Hit' Hn Hocc Hw. pose proof (oc_nodup _ _ _ Hc) as Hnd. destruct Hc as [C1 C2 C3 C4 C5 C6 C7].
  assert (forall k', k' <> k -> k' ∈ loads' <-> k' ∈ loads) as Hmem.
  { intros k' Hne. specialize (Hocc k' Hne). split; intros Hin; apply dec_stable; intros Hno; apply occurrences_pos in Hin; rewrite (occurrences_0 _ _ Hno) in Hocc; lia. }
  split; try done; unfold om_items in *; simpl.
  - rewrite Hit'. rewrite Hit in C2. exact C2.
  - intros k' b' Hin. rewrite Hit' in Hin. apply elem_of_cons in Hin as [[= -> ->]|Hin]; [done|].
    assert (k' <> k) as Hne. { intros ->. rewrite Hit in Hnd. csimpl in Hnd. apply NoDup_cons in Hnd as [Hk _]. apply Hk, list_elem_of_fmap. by exists (k, b'). }
    rewrite (Hmem k' Hne), (Hocc k' Hne). apply C4. rewrite Hit. by right.
  - intros k' Hk'. rewrite Hit'. csimpl. destruct (decide (k' = k)) as [->|Hne]; [by left|]. apply Hmem, C5 in Hk'; [|done]. rewrite Hit in Hk'. csimpl in Hk'. done.
Qed.

Lemma om_core_ext extra loads m m' : om_policy m' = om_policy m -> num_allocated_blocks m' = num_allocated_blocks m -> free_list m' = free_list m ->
  om_num_blocks m' = om_num_blocks m -> max_tracker_size m' = max_tracker_size m -> om_counts m' = om_counts m ->
  om_core extra loads m -> om_core extra loads m'.
Proof. intros E1 E2 E3 E4 E5 E6 [C1 C2 C3 C4 C5 C6 C7]. unfold om_items, tracker_ok in *. split; unfold om_items, tracker_ok; by rewrite ?E1, ?E2, ?E3, ?E4, ?E5, ?E6. Qed.

(** ** Loads *)

(** The key has block [i], which is ready or not. *)
Definition has_block (m : Mgr) (k : OffloadKey) (i : Z) (ready : bool) : Prop :=
  exists b, (k, b) ∈ om_items m /\ status_block_id b = i /\ is_ready b = ready.

(** Loads change neither the blocks of the keys nor the pool. *)
Definition same_blocks (m m' : Mgr) : Prop :=
  (forall k i r, has_block m' k i r <-> has_block m k i r) /\
  free_list m' = free_list m /\ num_allocated_blocks m' = num_allocated_blocks m /\ om_num_blocks m' = om_num_blocks m /\ om_events m' = om_events m.

Lemma same_blocks_refl m : same_blocks m m.
Proof. by split_and!. Qed.

Lemma same_blocks_trans m1 m2 m3 : same_blocks m1 m2 -> same_blocks m2 m3 -> same_blocks m1 m3.
Proof. intros (H1 & H2 & H3 & H4 & H5) (G1 & G2 & G3 & G4 & G5). split_and!; try congruence. intros k i r. by rewrite G1, H1. Qed.

Lemma same_items m m' k b rest n : om_items m ≡ₚ (k, b) :: rest -> om_items m' ≡ₚ (k, with_ref n b) :: rest -> (0 <= n)%Z -> (0 <= status_ref_cnt b)%Z ->
  forall k' i r, has_block m' k' i r <-> has_block m k' i r.
Proof.
  intros E E' Hn Hb k' i r. unfold has_block, is_ready. setoid_rewrite E. setoid_rewrite E'. setoid_rewrite elem_of_cons. apply Z.leb_le in Hn, Hb.
  split; (intros (b' & [[= -> ->]|Hin] & Hi & Hr); [eexists; split_and!; [by left|done|simpl in *; congruence]|by eauto]).
Qed.

Lemma load_key_ok loads m ids k b : om_ok loads m -> (k, b) ∈ om_items m -> (0 <= status_ref_cnt b)%Z -> (zlen loads + 1 < 2 ^ 31)%Z ->
  wp (load_key ids k) (fun r m' => r = ids ++ [status_block_id b] /\ om_ok (k :: loads) m' /\ same_blocks m m') m.
Proof.
  intros [Hc Hev Hpe] Hin Hr Hw. pose proof (item_split _ _ _ _ _ Hc Hin) as [rest Hit]. pose proof (oc_refs _ _ _ Hc k b Hin) as Href.
  assert (status_ref_cnt b = occurrences k loads) as Ho by (destruct Href as [[? _]|]; [lia|done]). pose proof (occurrences_nonneg k loads) as Hocc.
  assert (forall k', k' <> k -> occurrences k' (k :: loads) = occurrences k' loads) as Hother by (intros k' Hne; rewrite occurrences_cons, decide_False by done; done).
  assert (occurrences k (k :: loads) = occurrences k loads + 1)%Z as Hself by (rewrite occurrences_cons, decide_True by done; lia).
  assert (zlen (k :: loads) < 2 ^ 31)%Z by (unfold zlen in *; simpl; lia).
  unfold load_key, get_block, set_ref_cnt, on_policy. wp_steps. rewrite (proj2 (om_get _ _ _ _ _ Hc) Hin). eexists. split; [done|]. wp_steps. split; [by apply Z.leb_le|].
  destruct (Z.eqb_spec (status_ref_cnt b) 0) as [E0|E0]; simpl; wp_steps.
  - destruct (law_acquire _ _ _ _ (oc_policy _ _ _ Hc) Hit E0) as (p' & Hm & Hok & Hit'). unfold wp at 1. rewrite Hm. wp_steps.
    assert (num_refs 0 (om_items m) = 1 + num_refs 0 rest)%Z as Hn by (rewrite Hit, num_refs_cons, decide_True by done; done). pose proof (num_refs_nonneg 0 rest).
    split; [apply Z.leb_le; lia|]. rewrite E0. change (int32 (0 + 1)) with 1%Z. split; [done|]. split; [split|].
    + eapply om_core_ext; [..|eapply (om_core_change [] loads (k :: loads) m k b rest 1); try done]; try done. right. lia.
    + unfold om_items. simpl. rewrite Hit', num_refs_cons, decide_False by done. lia.
    + unfold om_items at 1. simpl. rewrite Hit', num_refs_cons, decide_False by done. rewrite Hpe, Hit, num_refs_cons, decide_False by lia. done.
    + split_and!; try done. eapply same_items; [exact Hit|exact Hit'|lia|lia].
  - rewrite int32_id by lia. destruct (law_count _ k b rest (status_ref_cnt b + 1) (oc_policy _ _ _ Hc) Hit E0) as [Hok Hit']; [lia|]. split; [done|]. split; [split|].
    + eapply om_core_change; try done. right. lia.
    + unfold om_items at 1. simpl. rewrite Hit', Hev, Hit, !num_refs_cons. simpl. rewrite !decide_False by lia. done.
    + unfold om_items at 1. simpl. rewrite Hit', Hpe, Hit, !num_refs_cons. simpl. rewrite !decide_False by lia. done.
    + split_and!; try done. eapply same_items; [exact Hit|exact Hit'|lia|lia].
Qed.

Lemma has_block_get loads m k i r : om_ok loads m -> (has_block m k i r <-> exists b, policy_get k (om_policy m) = Some b /\ status_block_id b = i /\ is_ready b = r).
Proof. intros [Hc _ _]. unfold has_block. by setoid_rewrite (om_get _ _ _ _ _ Hc). Qed.

Definition block_id_of (m : Mgr) (k : OffloadKey) : option Z := status_block_id <$> policy_get k (om_policy m).

Lemma prepare_load_ok loads m keys : om_ok loads m -> Forall (fun k => exists i, has_block m k i true) keys -> (zlen keys + zlen loads < 2 ^ 31)%Z ->
  wp (prepare_load keys) (fun ids m' => Some <$> ids = block_id_of m <$> keys /\ om_ok (keys ++ loads) m' /\ same_blocks m m') m.
Proof.
  intros Hok Hk Hw. unfold prepare_load.
  apply (wp_fold (fun l ids m' => exists done, keys = done ++ l /\ Some <$> ids = block_id_of m <$> done /\ om_ok (done ++ loads) m' /\ same_blocks m m')).
  - by exists [].
  - intros k l ids m' (done & Ek & Hids & Hok' & Hs). assert (exists i, has_block m k i true) as (i & Hh).
    { rewrite Forall_forall in Hk. apply Hk. rewrite Ek. apply elem_of_app. right. by left. }
    pose proof (proj2 (proj1 Hs k i true) Hh) as (b & Hb & Hi & Hr). pose proof (proj1 (has_block_get _ _ _ _ _ Hok) Hh) as (b0 & Hb0 & Hi0 & _).
    eapply wp_mono; [apply (load_key_ok (done ++ loads) m' ids k b Hok' Hb); [by apply Z.leb_le|]|].
    { rewrite Ek in Hw. unfold zlen in *. rewrite !length_app in *. simpl in Hw. lia. }
    intros ids' m2 (-> & Hok2 & Hs2). exists (done ++ [k]). split_and!.
    + by rewrite <- app_assoc.
    + assert (block_id_of m k = Some i) as Hbk by (unfold block_id_of; rewrite Hb0; by csimpl; rewrite Hi0). rewrite !fmap_app, Hids. csimpl. by rewrite Hbk, Hi.
    + eapply om_ok_loads_perm; [|exact Hok2]. rewrite <- app_assoc. simpl. apply Permutation_middle.
    + by eapply same_blocks_trans.
  - intros ids m' (done & -> & Hids & Hok' & Hs). by rewrite !app_nil_r in *.
Qed.

Lemma complete_load_key_ok loads m k : om_ok (k :: loads) m -> wp (complete_load_key k) (fun _ m' => om_ok loads m' /\ same_blocks m m') m.
Proof.
  intros [Hc Hev Hpe]. assert (k ∈ (om_items m).*1) as Hk by (apply (oc_loads _ _ _ Hc); left). apply list_elem_of_fmap in Hk as ([k' b] & Ek & Hin). simpl in Ek. subst k'.
  pose proof (item_split _ _ _ _ _ Hc Hin) as [rest Hit]. pose proof (oc_refs _ _ _ Hc k b Hin) as Href.
  assert (status_ref_cnt b = occurrences k loads + 1)%Z as Ho. { destruct Href as [[_ Hno]|Href]; [destruct Hno; left|]. rewrite Href, occurrences_cons, decide_True by done. lia. }
  pose proof (occurrences_nonneg k loads) as Hocc. pose proof (oc_width _ _ _ Hc) as Hw. unfold zlen in Hw. simpl in Hw. unfold zlen in Hocc.
  assert (forall k', k' <> k -> occurrences k' loads = occurrences k' (k :: loads)) as Hother by (intros k' Hne; rewrite occurrences_cons, decide_False by done; done).
  unfold complete_load_key, get_block, set_ref_cnt, on_policy. wp_steps. rewrite (proj2 (om_get _ _ _ _ _ Hc) Hin). eexists. split; [done|]. wp_steps.
  split; [apply Z.ltb_lt; lia|]. rewrite int32_id by lia. destruct (Z.eqb_spec (status_ref_cnt b - 1) 0) as [E0|E0]; simpl; wp_steps.
  - rewrite E0. destruct (law_release _ k b rest (oc_policy _ _ _ Hc) Hit) as [Hok Hit']; [lia|]. split; [split|].
    + eapply om_core_ext; [..|eapply (om_core_change [] (k :: loads) loads m k b rest 0); try done]; try done; [right; lia|unfold zlen; lia].
    + unfold om_items. simpl. rewrite Hit', num_refs_cons, decide_True by done. rewrite Hev, Hit, num_refs_cons, decide_False by lia. lia.
    + unfold om_items. simpl. rewrite Hit', num_refs_cons, decide_False by done. rewrite Hpe, Hit, num_refs_cons, decide_False by lia. done.
    + split_and!; try done. eapply same_items; [exact Hit|exact Hit'|lia|lia].
  - destruct (law_count _ k b rest (status_ref_cnt b - 1) (oc_policy _ _ _ Hc) Hit) as [Hok Hit']; [lia|lia|]. split; [split|].
    + eapply om_core_change; try done; [right; lia|unfold zlen; lia].
    + unfold om_items at 1. simpl. rewrite Hit', Hev, Hit, !num_refs_cons. simpl. rewrite !decide_False by lia. done.
    + unfold om_items at 1. simpl. rewrite Hit', Hpe, Hit, !num_refs_cons. simpl. rewrite !decide_False by lia. done.
    + split_and!; try done. eapply same_items; [exact Hit|exact Hit'|lia|lia].
Qed.

Lemma complete_load_ok loads m keys : om_ok (keys ++ loads) m -> wp (complete_load keys) (fun _ m' => om_ok loads m' /\ same_blocks m m') m.
Proof.
  intros Hok. unfold complete_load. apply (wp_for (fun l m' => om_ok (l ++ loads) m' /\ same_blocks m m')).
  - split; [done|apply same_blocks_refl].
  - intros k l m' [Hok' Hs]. eapply wp_mono; [by apply (complete_load_key_ok (l ++ loads))|]. intros _ m2 [Hok2 Hs2]. split; [done|]. by eapply same_blocks_trans.
  - done.
Qed.
End Inv.
