(* ===== verification/OffloadStore.v ===== *)
(** Stores of the offloading manager: admission, eviction, allocation and completion, over any
    policy with the laws. *)
From S2P Require Import Prelude Offload OffloadPolicy OffloadManager.

(** ** The tracker *)

Lemma odict_set_keys {V} k (v : V) (d : list (OffloadKey * V)) : k ∈ d.*1 -> (odict_set k v d).*1 = d.*1.
Proof.
  induction d as [|[k' v'] d IH]; intros Hk; [by apply elem_of_nil in Hk|]. csimpl in *. case_decide as E; csimpl; [done|]. f_equal. apply IH.
  apply elem_of_cons in Hk as [->|]; [by destruct E|done].
Qed.

Definition counts_ok (size : Z) (c : list (OffloadKey * Z)) : Prop := NoDup c.*1 /\ (zlen c <= size)%Z.

Lemma record_access_ok size k c : (0 < size)%Z -> counts_ok size c -> wp (record_access size k) (fun _ c' => counts_ok size c') c.
Proof.
  intros Hs [Hnd Hlen]. unfold record_access. wp_steps. unfold id. destruct (odict_get k c) as [n|] eqn:E.
  - wp_steps. assert (k ∈ c.*1) as Hk by (apply odict_get_elem in E; apply list_elem_of_fmap; by exists (k, n)).
    assert ((odict_move_to_end k c).*1 ≡ₚ c.*1) as Hp. { unfold odict_move_to_end. rewrite E, fmap_app, odict_keys_del. csimpl. by apply oset_move_perm. }
    assert ((odict_set k (n + 1)%Z (odict_move_to_end k c)).*1 ≡ₚ c.*1) as Hp' by (rewrite odict_set_keys; rewrite Hp; done).
    split; [by rewrite Hp'|]. unfold zlen in *. rewrite <- (length_fmap fst), Hp', length_fmap. done.
  - apply odict_get_None in E. assert (forall c', c'.*1 `sublist_of` c.*1 -> (zlen c' < size)%Z -> counts_ok size (odict_set k 1%Z c')) as Hgo.
    { intros c' Hsub Hlt. assert (k ∉ c'.*1) as Hk by (intros Hin; apply E; eapply elem_of_submseteq; [exact Hin|by apply sublist_submseteq]).
      rewrite odict_set_new by done. split; [|unfold zlen in *; rewrite length_app; simpl; lia]. rewrite fmap_app. csimpl. apply NoDup_app.
      split_and!; [by eapply sublist_NoDup|by intros x Hx ->%list_elem_of_singleton|apply NoDup_singleton]. }
    destruct (Z.leb_spec size (zlen c)) as [Hle|Hlt]; simpl; [|wp_steps; by apply Hgo].
    destruct c as [|kv c]; [unfold zlen in Hle; simpl in Hle; lia|]. wp_steps. apply Hgo; [by apply sublist_cons|unfold zlen in *; simpl in *; lia].
Qed.

Section Store.
  Context {P : Type} `{PolicyLaws P}.

#[local] Abbreviation Mgr := (CPUOffloadingManager P).

(** The fields about blocks are unchanged. *)
Definition same_pool (m m' : Mgr) : Prop :=
  om_policy m' = om_policy m /\ free_list m' = free_list m /\ num_allocated_blocks m' = num_allocated_blocks m /\ om_num_blocks m' = om_num_blocks m /\
  num_evictable_cache_blocks m' = num_evictable_cache_blocks m /\ num_write_pending_blocks m' = num_write_pending_blocks m /\ om_events m' = om_events m.

Lemma om_ok_same_pool loads m m' : om_ok loads m -> same_pool m m' -> tracker_ok m' -> om_ok loads m'.
Proof.
  intros [[C1 C2 C3 C4 C5 C6 C7] H2 H3] (E1 & E2 & E3 & E4 & E5 & E6 & _) Ht. unfold om_items in *. split; [split|..]; unfold om_items; rewrite ?E1, ?E2, ?E3, ?E4, ?E5, ?E6; done.
Qed.

Lemma admit_keys_ok loads m keys : om_ok loads m ->
  wp (admit_keys keys) (fun ks m' => ks `sublist_of` keys /\ (om_counts m = None -> ks = keys) /\ om_ok loads m' /\ same_pool m m') m.
Proof.
  intros Hok. unfold admit_keys, on_counts. wp_steps. unfold id. pose proof (oc_tracker _ _ _ (oo_core _ _ Hok)) as [Hs Hc].
  destruct (om_counts m) as [c|] eqn:E; [|wp_steps; by split_and!]. wp_steps. rewrite E. simpl.
  apply (wp_for (fun _ c' => counts_ok (max_tracker_size m) c')); [done|intros k l c' Hc'; by apply record_access_ok|].
  intros c' Hc'. wp_steps. split_and!; [apply sublist_filter|done| |by split_and!]. eapply om_ok_same_pool; [exact Hok|by split_and!|]. split; done.
Qed.

(** ** Eviction *)

(** Blocks leave the policy: their ids are with the caller. *)
Lemma om_core_evict extra loads m l p' : om_core extra loads m -> policy_ok p' -> om_items m ≡ₚ l ++ policy_items p' ->
  Forall (fun kb => kb.1 ∉ loads) l -> om_core (item_ids l ++ extra) loads (m <| om_policy := p' |>).
Proof.
  intros [C1 C2 C3 C4 C5 C6 C7] Hok Hit Hl. unfold om_items in *. split; try done; unfold om_items; simpl.
  - rewrite <- C2, Hit. unfold item_ids. rewrite fmap_app. rewrite <- !app_assoc. rewrite !app_assoc. do 2 f_equiv. apply Permutation_app_comm.
  - intros k b Hin. apply C4. rewrite Hit. apply elem_of_app. by right.
  - intros k Hk. specialize (C5 k Hk). rewrite Hit, fmap_app in C5. apply elem_of_app in C5 as [([k' b] & -> & Hin)%list_elem_of_fmap|]; [|done].
    rewrite Forall_forall in Hl. by destruct (Hl _ Hin).
Qed.

Lemma idle_not_loading extra loads m k b : om_core extra loads m -> (k, b) ∈ om_items m -> status_ref_cnt b = 0%Z -> k ∉ loads.
Proof. intros Hc Hin E0 Hk. destruct (oc_refs _ _ _ Hc k b Hin) as [[? _]|Ho]; [lia|]. apply occurrences_pos in Hk. lia. Qed.

Lemma free_block_ok extra loads m b : om_core (status_block_id b :: extra) loads m -> wp (free_block b) (fun _ m' => om_core extra loads m' /\ om_policy m' = om_policy m) m.
Proof.
  intros [C1 C2 C3 C4 C5 C6 C7]. unfold free_block. wp_steps. split; [|done]. split; try done. unfold om_items in *. simpl. rewrite <- C2. simpl. f_equiv.
  rewrite app_assoc, Permutation_app_comm. done.
Qed.

(** What [make_room] leaves for the allocation *)
Definition made_room (loads keys to_store : list OffloadKey) (ev : list item) (m m' : Mgr) : Prop :=
  om_ok loads m' /\ om_items m ≡ₚ ev ++ om_items m' /\ Forall (fun kb => status_ref_cnt kb.2 = 0%Z /\ kb.1 ∉ keys) ev /\
  (zlen to_store <= offload_num_free_blocks m')%Z /\ free_list m' = free_list m ++ item_ids ev /\
  num_allocated_blocks m' = num_allocated_blocks m /\ om_num_blocks m' = om_num_blocks m /\ om_events m' = om_events m /\ om_counts m' = om_counts m.

Lemma free_blocks_ok loads ev m : om_core (item_ids ev) loads m ->
  wp (mfor ev.*2 free_block) (fun _ m' => om_core [] loads m' /\ m' = m <| free_list := free_list m ++ item_ids ev |>) m.
Proof.
  revert m. induction ev as [|[k b] ev IH]; intros m Hc; csimpl.
  - wp_steps. split; [done|]. rewrite app_nil_r. by destruct m.
  - rewrite wp_bind. pose proof (free_block_ok _ _ _ _ Hc) as Hf. unfold free_block in *. rewrite wp_modify in Hf. wp_steps. destruct Hf as [Hf _].
    eapply wp_mono; [apply (IH _ Hf)|]. intros _ m' [H1 ->]. split; [done|]. simpl. by rewrite <- app_assoc.
Qed.

Lemma make_room_ok loads m keys to_store : om_ok loads m ->
  wp (make_room keys to_store) (fun r m' => match r with None => m' = m /\ (offload_num_free_blocks m < zlen to_store)%Z | Some ks => exists ev, ks = ev.*1 /\ made_room loads keys to_store ev m m' end) m.
Proof.
  intros Hok. pose proof Hok as [Hc Hev Hpe]. unfold make_room. wp_steps. unfold id. set (n := (zlen to_store - offload_num_free_blocks m)%Z).
  destruct (Z.ltb_spec 0 n) as [Hn|Hn]; [|wp_steps; exists []; unfold made_room; simpl; rewrite app_nil_r; split_and!; done || lia].
  destruct (Z.ltb_spec (num_evictable_cache_blocks m) n) as [Hlt|Hge]; [wp_steps; split; [done|lia]|]. unfold on_policy. wp_steps.
  eapply wp_mono; [apply (law_evict _ n keys (oc_policy _ _ _ Hc)); lia|]. intros [ev|] p' [Hp Hr]; [|wp_steps; subst p'; split; [by destruct m|lia]].
  destruct Hr as (Hlen & Hit & Hidle). wp_steps. pose proof (num_refs_nonneg 0 (policy_items p')).
  assert (num_refs 0 (om_items m) = zlen ev + num_refs 0 (policy_items p'))%Z as HZ.
  { unfold om_items. rewrite Hit, num_refs_app, (num_refs_all 0 ev); [done|]. eapply Forall_impl; [exact Hidle|]. naive_solver. }
  assert (num_refs (-1) (om_items m) = num_refs (-1) (policy_items p'))%Z as HP.
  { unfold om_items. rewrite Hit, num_refs_app, (num_refs_none (-1) 0 ev); [done| |done]. eapply Forall_impl; [exact Hidle|]. naive_solver. }
  split; [apply Z.leb_le; lia|]. eapply wp_mono; [apply (free_blocks_ok loads)|].
  - eapply om_core_ext; [..|rewrite <- (app_nil_r (item_ids ev)); apply (om_core_evict [] loads m ev p'); try done]; try done.
    apply Forall_forall. intros [k b] Hin. rewrite Forall_forall in Hidle. apply (idle_not_loading [] loads m k b); [done|unfold om_items; rewrite Hit; apply elem_of_app; by left|by apply (Hidle _ Hin)].
  - intros _ m' [Hc' ->]. wp_steps. exists ev. split; [done|]. unfold made_room. simpl. split_and!; try done.
    + split; [done|unfold om_items; simpl; lia|unfold om_items; simpl; lia].
    + unfold offload_num_free_blocks in *. simpl. unfold item_ids, zlen in *. rewrite length_app, length_fmap. lia.
Qed.

(** ** Allocation *)

Definition pool_frame (m m' : Mgr) : Prop := exists a f, m' = m <| num_allocated_blocks := a |> <| free_list := f |>.

Lemma pool_frame_trans m1 m2 m3 : pool_frame m1 m2 -> pool_frame m2 m3 -> pool_frame m1 m3.
Proof. intros (a & f & ->) (a' & f' & ->). by exists a', f'. Qed.

Definition block_ids (bs : list BlockStatus) : list Z := status_block_id <$> bs.

(** [bs] are handed out in [m']. *)
Definition handed_out (loads : list OffloadKey) (m : Mgr) (bs : list BlockStatus) (m' : Mgr) : Prop :=
  om_core (block_ids bs) loads m' /\ Forall (fun b => status_ref_cnt b = (-1)%Z) bs /\ pool_frame m m'.

Lemma handed_snoc loads m m' m2 bs i : handed_out loads m bs m' -> (0 <= i < 2 ^ 63)%Z -> pool_frame m' m2 ->
  (0 <= num_allocated_blocks m2 <= om_num_blocks m2)%Z ->
  item_ids (om_items m2) ++ (block_ids bs ++ [i]) ++ free_list m2 ≡ₚ zrange 0 (num_allocated_blocks m2) ->
  handed_out loads m (bs ++ [BlockStatus_init i]) m2.
Proof.
  intros ([C1 C2 C3 C4 C5 C6 C7] & Hr & Hf) Hi Hf2 Ha Hp. split_and!; [|apply Forall_app; split; [done|by apply Forall_singleton]|by eapply pool_frame_trans].
  destruct Hf2 as (a & f & ->). unfold om_items in *. simpl in *. split; try done; unfold om_items; simpl; [|lia].
  unfold block_ids in *. rewrite fmap_app. csimpl. rewrite int64_id by lia. exact Hp.
Qed.

Lemma fresh_block_ok loads m bs m' : handed_out loads m bs m' -> (num_allocated_blocks m' < om_num_blocks m')%Z ->
  wp fresh_block (fun b m2 => handed_out loads m (bs ++ [b]) m2 /\ num_allocated_blocks m2 = (num_allocated_blocks m' + 1)%Z /\ free_list m2 = free_list m') m'.
Proof.
  intros Hh Hlt. pose proof Hh as (Hc & _ & _). destruct (oc_alloc _ _ _ Hc) as [Ha Hb]. unfold fresh_block. wp_steps. split_and!; [|done|done].
  eapply handed_snoc; [exact Hh|lia|by eexists _, _|simpl; lia|]. simpl. rewrite zrange_snoc by lia. rewrite <- (oc_ids _ _ _ Hc). unfold om_items. simpl.
  rewrite <- !app_assoc. do 2 f_equiv. simpl. by rewrite Permutation_app_comm.
Qed.

Lemma reused_block_ok loads m bs m' : handed_out loads m bs m' -> (0 < zlen (free_list m'))%Z ->
  wp reused_block (fun b m2 => handed_out loads m (bs ++ [b]) m2 /\ num_allocated_blocks m2 = num_allocated_blocks m' /\ (zlen (free_list m2) = zlen (free_list m') - 1)%Z) m'.
Proof.
  intros Hh Hlt. pose proof Hh as (Hc & _ & _). destruct (oc_alloc _ _ _ Hc) as [Ha Hb]. unfold reused_block. wp_steps.
  destruct (free_list m') as [|y l _] eqn:E using rev_ind; [unfold zlen in Hlt; simpl in Hlt; lia|]. rewrite last_snoc. exists y. split; [done|]. wp_steps.
  rewrite length_app, Nat.add_sub, take_app_length. split_and!; [|done|unfold zlen; rewrite length_app; simpl; lia].
  assert (y ∈ zrange 0 (num_allocated_blocks m')) as Hy. { rewrite <- (oc_ids _ _ _ Hc), E, !elem_of_app. right. right. right. by left. }
  apply elem_of_zrange in Hy. eapply handed_snoc; [exact Hh|lia|by eexists _, _|simpl; lia|]. simpl. rewrite <- (oc_ids _ _ _ Hc), E. unfold om_items. simpl.
  rewrite <- !app_assoc. do 2 f_equiv. simpl. by rewrite Permutation_app_comm.
Qed.

Lemma offload_allocate_blocks_ok loads m keys : om_core [] loads m -> (zlen keys <= offload_num_free_blocks m)%Z ->
  wp (offload_allocate_blocks keys) (fun bs m' => length bs = length keys /\ handed_out loads m bs m') m.
Proof.
  intros Hc Hfree. destruct (oc_alloc _ _ _ Hc) as [Ha Hb]. unfold offload_allocate_blocks, offload_num_free_blocks in *. wp_steps. unfold id.
  set (nf := Z.min _ _). set (nr := (zlen keys - nf)%Z). split; [apply Z.leb_le; subst nr nf; unfold zlen in *; lia|].
  apply (wp_fold (fun l bs m' => handed_out loads m bs m' /\ (zlen bs + zlen l = nf)%Z /\ (num_allocated_blocks m' + zlen l = num_allocated_blocks m + nf)%Z /\ free_list m' = free_list m)).
  - split_and!; try done; [split_and!; [done|constructor|]|unfold zlen; rewrite length_zrange; simpl; subst nf; unfold zlen in *; lia..].
    exists (num_allocated_blocks m), (free_list m). by destruct m.
  - intros x l bs m' (Hh & H1 & H2 & H3). wp_steps. assert (om_num_blocks m' = om_num_blocks m) as Enb by (destruct Hh as (_ & _ & a & f & ->); done).
    eapply wp_mono; [apply (fresh_block_ok loads m bs m' Hh)|]. { rewrite Enb. unfold zlen in *. simpl in H2. subst nf. lia. }
    intros b m2 (Hh2 & H4 & H5). wp_steps. split_and!; [done|..]; unfold zlen in *; rewrite ?length_app; simpl in *; lia || congruence.
  - intros fresh m1 (Hh1 & F1 & _ & F2). unfold zlen in F1. simpl in F1.
    apply (wp_fold (fun l bs m' => handed_out loads m bs m' /\ (zlen bs + zlen l = zlen keys)%Z /\ (zlen l <= zlen (free_list m'))%Z)).
    + split_and!; [done|..]; rewrite ?F2; unfold zlen in *; rewrite length_zrange; subst nr; lia.
    + intros x l bs m' (Hh & H1 & H2). wp_steps. eapply wp_mono; [apply (reused_block_ok loads m bs m' Hh); unfold zlen in *; simpl in *; lia|].
      intros b m2 (Hh2 & H4 & H5). wp_steps. split_and!; [done|..]; unfold zlen in *; rewrite ?length_app; simpl in *; lia.
    + intros bs m' (Hh & H1 & _). split; [|done]. unfold zlen in *. simpl in *. lia.
Qed.

(** ** Insertion *)

Lemma om_core_insert extra loads m k b p' : om_core (status_block_id b :: extra) loads m -> k ∉ (om_items m).*1 -> status_ref_cnt b = (-1)%Z ->
  p' = policy_insert k b (om_policy m) -> om_core extra loads (m <| om_policy := p' |>) /\ policy_items p' ≡ₚ (k, b) :: om_items m.
Proof.
  intros [C1 C2 C3 C4 C5 C6 C7] Hk Hr ->. destruct (law_insert (om_policy m) k b C1 Hk) as [Hok Hit]; [lia|]. split; [|done]. unfold om_items in *.
  split; try done; unfold om_items; simpl.
  - rewrite Hit, <- C2. unfold item_ids. csimpl. by rewrite <- Permutation_middle.
  - intros k' b' Hin. rewrite Hit in Hin. apply elem_of_cons in Hin as [[= -> ->]|Hin]; [|by apply C4]. left. split; [done|]. intros Hl. by apply Hk, C5.
  - intros k' Hl. rewrite Hit. csimpl. right. by apply C5.
Qed.

Lemma insert_all_ok loads kbs m : om_core (item_ids kbs) loads m -> NoDup kbs.*1 -> Forall (fun kb => (kb.1 ∉ (om_items m).*1) /\ status_ref_cnt kb.2 = (-1)%Z) kbs ->
  wp (mfor kbs (fun kb => on_policy (modify (policy_insert kb.1 kb.2))))
     (fun _ m' => om_core [] loads m' /\ om_items m' ≡ₚ kbs ++ om_items m /\ exists p', m' = m <| om_policy := p' |>) m.
Proof.
  revert m. induction kbs as [|[k b] kbs IH]; intros m Hc Hnd Hall; simpl.
  - wp_steps. split_and!; [done|done|]. exists (om_policy m). by destruct m.
  - csimpl in Hnd. apply NoDup_cons in Hnd as [Hk Hnd]. apply Forall_cons in Hall as [[Hn Hr] Hall]. unfold on_policy. wp_steps.
    destruct (om_core_insert _ _ _ _ _ _ Hc Hn Hr eq_refl) as [Hc' Hit]. eapply wp_mono; [apply (IH _ Hc' Hnd)|].
    + rewrite Forall_forall in Hall. apply Forall_forall. intros [k' b'] Hin. destruct (Hall _ Hin) as [H1 H2]. split; [|done]. unfold om_items at 1. simpl. rewrite Hit. csimpl.
      apply not_elem_of_cons. split; [|done]. intros ->. apply Hk, list_elem_of_fmap. by exists (k, b').
    + intros _ m' (H1 & H2 & p2 & ->). split_and!; [done| |by exists p2]. rewrite H2. unfold om_items at 1. simpl. rewrite Hit. symmetry. apply Permutation_middle.
Qed.

(** ** prepare_store *)

(** The keys the tracker admits that are not in the cache *)
Definition missing_keys (m : Mgr) (ks : list OffloadKey) : list OffloadKey := filter (fun k => k ∉ (om_items m).*1) ks.

Definition event_added (keys : list OffloadKey) (removed : bool) (ev ev' : option (list OffloadingEvent)) : Prop :=
  ev' = match keys with [] => ev | _ => (fun l => l ++ [{| event_keys := keys; event_removed := removed |}]) <$> ev end.

(** A store that is granted: the missing keys get the blocks [store_block_ids]; [ev] are the
    blocks evicted for it. *)
Definition store_granted (admitted : list OffloadKey) (m : Mgr) (out : PrepareStoreOutput) (ev : list item) (m' : Mgr) : Prop :=
  keys_to_store out = missing_keys m admitted /\ evicted_keys out = ev.*1 /\ length (store_block_ids out) = length (keys_to_store out) /\
  Forall (fun kb => status_ref_cnt kb.2 = 0%Z /\ kb.1 ∉ admitted) ev /\
  zip (keys_to_store out) ((fun i => {| status_ref_cnt := (-1)%Z; status_block_id := i |}) <$> store_block_ids out) ++ om_items m ≡ₚ ev ++ om_items m' /\
  event_added ev.*1 true (om_events m) (om_events m').

Lemma emit_ok keys removed (m : Mgr) : wp (emit keys removed) (fun _ m' => exists e, m' = m <| om_events := e |> /\ event_added keys removed (om_events m) e) m.
Proof.
  unfold emit, event_added. wp_steps. destruct keys as [|k keys]; [exists (om_events m); split; [by destruct m|done]|].
  destruct (om_events m) as [l|] eqn:E; [by eexists|]. exists None. split; [|done]. rewrite <- E. by destruct m.
Qed.

Lemma rebuild_blocks bs : Forall (fun b => status_ref_cnt b = (-1)%Z) bs -> (fun i => {| status_ref_cnt := (-1)%Z; status_block_id := i |}) <$> block_ids bs = bs.
Proof. induction 1 as [|[r i] bs Hr Hbs IH]; [done|]. unfold block_ids in *. csimpl. simpl in Hr. by rewrite IH, <- Hr. Qed.

Lemma item_ids_zip (ks : list OffloadKey) bs : length ks = length bs -> item_ids (zip ks bs) = block_ids bs.
Proof. revert bs. induction ks as [|k ks IH]; intros [|b bs] Hl; try done. unfold item_ids, block_ids in *. csimpl. f_equal. apply IH. simpl in Hl. lia. Qed.

Lemma store_blocks_ok loads m to_store : om_ok loads m -> NoDup to_store -> Forall (fun k => k ∉ (om_items m).*1) to_store -> (zlen to_store <= offload_num_free_blocks m)%Z ->
  wp (store_blocks to_store) (fun bs m' => om_ok loads m' /\ length bs = length to_store /\ Forall (fun b => status_ref_cnt b = (-1)%Z) bs /\
    om_items m' ≡ₚ zip to_store bs ++ om_items m /\ om_events m' = om_events m) m.
Proof.
  intros [Hc Hev Hpe] Hnd Hmiss Hfree. unfold store_blocks. wp_steps. eapply wp_mono; [apply (offload_allocate_blocks_ok loads m to_store Hc Hfree)|].
  intros bs m1 (Hlen & Hc1 & Href & a & f & ->). wp_steps. split; [by apply bool_decide_eq_true|].
  assert (Forall (fun kb => kb.2 ∈ bs /\ kb.1 ∈ to_store) (zip to_store bs)) as Hzip.
  { apply Forall_forall. intros kb Hin. split; [rewrite <- (snd_zip to_store bs)|rewrite <- (fst_zip to_store bs)]; [by apply list_elem_of_fmap_2|lia|by apply list_elem_of_fmap_2|lia]. }
  assert (Forall (fun kb : item => status_ref_cnt kb.2 = (-1)%Z) (zip to_store bs)) as Hzr by (eapply Forall_impl; [exact Hzip|]; intros kb [Hb _]; rewrite Forall_forall in Href; by apply Href).
  eapply wp_mono; [apply (insert_all_ok loads (zip to_store bs))|].
  - by rewrite item_ids_zip.
  - by rewrite fst_zip by lia.
  - rewrite Forall_forall in Hzip. rewrite Forall_forall in Hmiss. rewrite Forall_forall in Hzr. apply Forall_forall. intros kb Hin. split; [by apply Hmiss, Hzip|by apply Hzr].
  - intros _ m2 (Hc2 & Hit2 & p' & ->). wp_steps. unfold om_items in *. simpl in *. split_and!; try done. split; [by eapply om_core_ext; [..|exact Hc2]|..]; unfold om_items; simpl; rewrite Hit2, num_refs_app.
    + rewrite (num_refs_none 0 (-1)); [lia|done|done].
    + rewrite (num_refs_all (-1)) by done. unfold zlen in *. rewrite length_zip. lia.
Qed.

Lemma made_room_missing loads keys to_store ev m m' : made_room loads keys to_store ev m m' ->
  Forall (fun k => k ∉ (om_items m).*1) to_store -> Forall (fun k => k ∉ (om_items m').*1) to_store.
Proof.
  intros (_ & Hit & _) Hm. eapply Forall_impl; [exact Hm|]. intros k Hk Hin. apply Hk. rewrite Hit, fmap_app. apply elem_of_app. by right.
Qed.

Lemma prepare_store_ok loads m keys : om_ok loads m -> NoDup keys ->
  wp (prepare_store keys) (fun r m' => om_ok loads m' /\ exists admitted, admitted `sublist_of` keys /\ (om_counts m = None -> admitted = keys) /\
    match r with None => same_pool m m' /\ (offload_num_free_blocks m < zlen (missing_keys m admitted))%Z | Some out => exists ev, store_granted admitted m out ev m' end) m.
Proof.
  intros Hok Hnd. unfold prepare_store. wp_steps. eapply wp_mono; [apply (admit_keys_ok loads m keys Hok)|]. intros ks m1 (Hsub & Hall & Hok1 & Hs1). wp_steps. unfold id.
  pose proof Hs1 as (P1 & P2 & P3 & P4 & P5 & P6 & P7). pose proof Hok1 as [Hc1 Hev1 Hpe1].
  assert (filter (fun k => policy_get k (om_policy m1) = None) ks = missing_keys m1 ks) as -> by (apply list_filter_iff; intros k; by apply (om_get_none [] loads m1)).
  assert (missing_keys m ks = missing_keys m1 ks) as EM by (unfold missing_keys, om_items; by rewrite P1).
  assert (NoDup (missing_keys m1 ks)) as Hndm by (apply NoDup_filter; by eapply sublist_NoDup).
  assert (Forall (fun k => k ∉ (om_items m1).*1) (missing_keys m1 ks)) as Hmiss by (apply Forall_forall; intros k Hk; by apply list_elem_of_filter in Hk as [? _]).
  destruct (missing_keys m1 ks) as [|k0 ks0].
  { wp_steps. split; [done|]. exists ks. split_and!; [done|done|]. exists []. unfold store_granted, event_added, om_items. simpl. rewrite EM, P1, P7. by split_and!. }
  set (to_store := k0 :: ks0) in *. clearbody to_store. wp_steps. set (m2 := m1 <| allocation_sizes_in_current_batch := _ |>).
  assert (om_ok loads m2) as Hok2. { apply (om_ok_same_pool loads m1); [done|by split_and!|]. apply Hc1. }
  eapply wp_mono; [apply (make_room_ok loads m2 ks to_store Hok2)|]. intros [evk|] m3 Hr; [|wp_steps; destruct Hr as [-> Hfull]; split; [done|]; exists ks; split_and!; try done; rewrite EM; unfold offload_num_free_blocks in *; simpl in *; by rewrite <- P2, <- P3, <- P4].
  destruct Hr as (ev & -> & Hroom). pose proof (made_room_missing _ _ _ _ _ _ Hroom Hmiss) as Hmiss3. destruct Hroom as (Hok3 & Hit3 & Hidle & Hfree & R1 & R2 & R3 & R4 & R5).
  wp_steps. eapply wp_mono; [apply emit_ok|]. intros _ m4 (e & -> & Hem). wp_steps.
  assert (om_ok loads (m3 <| om_events := e |>)) as Hok4 by (destruct Hok3 as [Hc3 ? ?]; split; [by eapply om_core_ext; [..|exact Hc3]|done|done]).
  eapply wp_mono; [apply (store_blocks_ok loads _ to_store Hok4 Hndm Hmiss3 Hfree)|]. intros bs m5 (Hok5 & Hlen & Href & Hit5 & Ee). wp_steps.
  split; [done|]. exists ks. split_and!; [done|done|]. exists ev. unfold store_granted. simpl. split_and!; try done.
  - by rewrite length_fmap.
  - fold (block_ids bs). rewrite (rebuild_blocks _ Href), Hit5. unfold om_items in *. simpl in *. rewrite <- P1, Hit3, !app_assoc. f_equiv. apply Permutation_app_comm.
  - unfold m2 in R4. simpl in R4. rewrite Ee. simpl. rewrite <- P7, <- R4. done.
Qed.

(** ** complete_store *)

(** What a completed store leaves: on success the blocks being stored are ready, on failure
    their keys are gone; all else is as before. *)
Definition store_completed (success : bool) (keys : list OffloadKey) (m m' : Mgr) : Prop :=
  forall k i r, has_block m' k i r <->
    (if r : bool then has_block m k i true \/ (success = true /\ k ∈ keys /\ has_block m k i false) else has_block m k i false /\ k ∉ keys).

Lemma completed_nil success m : store_completed success [] m m.
Proof. intros k i [|]; simpl; rewrite elem_of_nil; naive_solver. Qed.

Lemma completed_cons success k keys m1 m2 m3 : store_completed success [k] m1 m2 -> store_completed success keys m2 m3 -> store_completed success (k :: keys) m1 m3.
Proof.
  intros C1 C2 k' i r. pose proof (C1 k' i true) as Ct. pose proof (C1 k' i false) as Cf. simpl in Ct, Cf. rewrite list_elem_of_singleton in Ct, Cf.
  destruct r; [specialize (C2 k' i true)|specialize (C2 k' i false)]; simpl in *; rewrite elem_of_cons; destruct (decide (k' = k)); naive_solver.
Qed.

Lemma has_block_split m k b rest : NoDup (om_items m).*1 -> om_items m ≡ₚ (k, b) :: rest ->
  forall k' i r, has_block m k' i r <->
    (k' = k /\ status_block_id b = i /\ is_ready b = r) \/ (k' <> k /\ exists b', (k', b') ∈ rest /\ status_block_id b' = i /\ is_ready b' = r).
Proof.
  intros Hnd Hit k' i r. rewrite Hit in Hnd. csimpl in Hnd. apply NoDup_cons in Hnd as [Hk _]. unfold has_block. setoid_rewrite Hit. setoid_rewrite elem_of_cons.
  split; [intros (b' & [[= -> ->]|Hin] & Hb)|intros [(-> & Hb)|(Hne & b' & Hin & Hb)]]; [by left| |by eauto|by eauto].
  right. split; [|by eauto]. intros ->. apply Hk, list_elem_of_fmap. by exists (k, b').
Qed.

Lemma not_pending_completed success k m : (forall i, ~ has_block m k i false) -> store_completed success [k] m m.
Proof. intros Hn k' i [|]; simpl; rewrite list_elem_of_singleton; destruct (decide (k' = k)) as [->|]; naive_solver. Qed.

Definition storing (m : Mgr) (k : OffloadKey) : Prop := exists i, has_block m k i false.

(** The block under [k] was being stored; [R] says what the other keys hold. *)
Lemma completed_one success k (i0 : Z) (R : OffloadKey -> Z -> bool -> Prop) m m' :
  (forall k' i r, has_block m k' i r <-> (k' = k /\ i0 = i /\ false = r) \/ (k' <> k /\ R k' i r)) ->
  (forall k' i r, has_block m' k' i r <-> (k' = k /\ success = true /\ i0 = i /\ true = r) \/ (k' <> k /\ R k' i r)) ->
  store_completed success [k] m m'.
Proof.
  intros Hm Hm' k' i r. rewrite Hm'. destruct (decide (k' = k)) as [->|Hne]; destruct r; simpl; rewrite !Hm, list_elem_of_singleton; clear Hm Hm'; naive_solver.
Qed.

Lemma store_succeeds loads m k b rest : om_ok loads m -> om_items m ≡ₚ (k, b) :: rest -> is_ready b = false -> status_ref_cnt b = (-1)%Z -> k ∉ loads ->
  let m' := m <| om_policy := policy_mark_evictable k (policy_set_ref_cnt k 0 (om_policy m)) |>
              <| num_write_pending_blocks := (num_write_pending_blocks m - 1)%Z |> <| num_evictable_cache_blocks := (num_evictable_cache_blocks m + 1)%Z |> in
  om_ok loads m' /\ store_completed true [k] m m'.
Proof.
  intros [Hc Hev Hpe] Hit Er Hr Hl m'. destruct (law_release _ k b rest (oc_policy _ _ _ Hc) Hit) as [Hp' Hit']; [lia|].
  assert (om_core [] loads m') as Hc'.
  { eapply om_core_ext; [..|eapply (om_core_change [] loads loads m k b rest 0); try done]; try done; [right; by rewrite occurrences_0|apply Hc]. }
  split; [split; [done|..]|].
  - unfold om_items, m'. simpl. rewrite Hit', Hev, Hit, !num_refs_cons. simpl. repeat case_decide; lia.
  - unfold om_items, m'. simpl. rewrite Hit', Hpe, Hit, !num_refs_cons. simpl. repeat case_decide; lia.
  - apply (completed_one true k (status_block_id b) (fun k' i r => exists b', (k', b') ∈ rest /\ status_block_id b' = i /\ is_ready b' = r)); intros k' i r.
    + rewrite (has_block_split m k b rest (oc_nodup _ _ _ Hc) Hit), Er. done.
    + rewrite (has_block_split m' k (with_ref 0 b) rest (oc_nodup _ _ _ Hc') Hit'). unfold is_ready at 1. simpl. naive_solver.
Qed.

Lemma store_fails loads m k b rest : om_ok loads m -> om_items m ≡ₚ (k, b) :: rest -> is_ready b = false -> status_ref_cnt b = (-1)%Z -> k ∉ loads ->
  wp (modify (fun m => m <| num_write_pending_blocks := (num_write_pending_blocks m - 1)%Z |>) ;; on_policy (policy_remove k) ;; free_block b)
    (fun _ m' => om_ok loads m' /\ store_completed false [k] m m' /\ om_events m' = om_events m) m.
Proof.
  intros [Hc Hev Hpe] Hit Er Hr Hl. unfold on_policy. wp_steps. eapply wp_mono; [apply (law_remove _ k b rest (oc_policy _ _ _ Hc) Hit); lia|]. intros _ p' [Hp' Hit'].
  assert (om_core [status_block_id b] loads (m <| num_write_pending_blocks := (num_write_pending_blocks m - 1)%Z |> <| om_policy := p' |>)) as Hc1.
  { eapply om_core_ext; [..|apply (om_core_evict [] loads m [(k, b)] p'); try done]; try done; [by rewrite Hit, Hit'|by apply Forall_singleton]. }
  pose proof (free_block_ok [] loads _ b Hc1) as Hf. unfold free_block in *. rewrite wp_modify in Hf. wp_steps. destruct Hf as [Hc2 _]. split_and!; [split; [done|..]| |done].
  - unfold om_items. simpl. rewrite Hit', Hev, Hit, !num_refs_cons, decide_False by lia. done.
  - unfold om_items. simpl. rewrite Hit', Hpe, Hit, !num_refs_cons, decide_True by lia. lia.
  - apply (completed_one false k (status_block_id b) (fun k' i r => exists b', (k', b') ∈ rest /\ status_block_id b' = i /\ is_ready b' = r)); intros k' i r.
    + rewrite (has_block_split m k b rest (oc_nodup _ _ _ Hc) Hit), Er. done.
    + unfold has_block, om_items. simpl. setoid_rewrite Hit'. pose proof (oc_nodup _ _ _ Hc) as Hnd. rewrite Hit in Hnd. csimpl in Hnd. apply NoDup_cons in Hnd as [Hk _].
      split; [|naive_solver]. intros (b' & Hin & Hb). right. split; [|by eauto]. intros ->. apply Hk, list_elem_of_fmap. by exists (k, b').
Qed.

Lemma complete_store_key_ok loads m success stored k : om_ok loads m ->
  wp (complete_store_key success stored k) (fun st m' => om_ok loads m' /\ store_completed success [k] m m' /\ om_events m' = om_events m /\
    exists st', st = stored ++ st' /\ forall x, x ∈ st' <-> success = true /\ x = k /\ storing m k) m.
Proof.
  intros Hok. pose proof Hok as [Hc Hev Hpe]. pose proof (oc_nodup _ _ _ Hc) as Hnd.
  assert (~ storing m k -> wp (mret stored) (fun st m' => om_ok loads m' /\ store_completed success [k] m m' /\ om_events m' = om_events m /\
    exists st', st = stored ++ st' /\ forall x, x ∈ st' <-> success = true /\ x = k /\ storing m k) m) as Hskip.
  { intros Hn. wp_steps. split_and!; [done|apply not_pending_completed; intros i Hi; apply Hn; by exists i|done|]. exists []. rewrite app_nil_r. split; [done|].
    intros x. rewrite elem_of_nil. naive_solver. }
  unfold complete_store_key, get_block, set_ref_cnt. wp_steps. destruct (policy_get k (om_policy m)) as [b|] eqn:E.
  2:{ apply Hskip. intros (i & b & Hin & _). apply (om_get _ _ _ _ _ Hc) in Hin. congruence. }
  apply (om_get _ _ _ _ _ Hc) in E as Hin. pose proof (item_split _ _ _ _ _ Hc Hin) as [rest Hit]. pose proof (has_block_split m k b rest Hnd Hit) as Hh.
  destruct (is_ready b) eqn:Er; simpl. { apply Hskip. intros [i Hp%Hh]. naive_solver. }
  assert (storing m k) as Hpend by (exists (status_block_id b); apply Hh; by left).
  assert (status_ref_cnt b = (-1)%Z /\ k ∉ loads) as [Hr Hl].
  { destruct (oc_refs _ _ _ Hc k b Hin) as [?|Ho]; [done|]. pose proof (occurrences_nonneg k loads). unfold is_ready in Er. apply Z.leb_gt in Er. lia. }
  destruct success.
  - unfold on_policy. wp_steps. change (int32 0) with 0%Z. destruct (store_succeeds loads m k b rest Hok Hit Er Hr Hl) as [H1 H2]. split_and!; [exact H1|exact H2|done|].
    exists [k]. split; [done|]. intros x. rewrite list_elem_of_singleton. naive_solver.
  - pose proof (store_fails loads m k b rest Hok Hit Er Hr Hl) as Hf. rewrite !wp_bind in *. eapply wp_mono; [exact Hf|]. intros [] m1 Hf1. rewrite wp_bind in Hf1. rewrite wp_bind. eapply wp_mono; [exact Hf1|].
    intros [] m2 Hf2. rewrite wp_bind. eapply wp_mono; [exact Hf2|]. intros _ m3 (H1 & H2 & H3). wp_steps. split_and!; [done..|]. exists []. rewrite app_nil_r. split; [done|].
    intros x. rewrite elem_of_nil. naive_solver.
Qed.

Lemma completed_pending success k m m' x : store_completed success [k] m m' -> storing m' x <-> storing m x /\ x <> k.
Proof.
  intros Hc. unfold storing. split.
  - intros (i & Hi). apply (Hc x i false) in Hi as [Hi Hx]. rewrite list_elem_of_singleton in Hx. naive_solver.
  - intros [(i & Hi) Hx]. exists i. apply (Hc x i false). rewrite list_elem_of_singleton. done.
Qed.

Lemma complete_store_ok loads m keys success : om_ok loads m ->
  wp (complete_store keys success) (fun _ m' => om_ok loads m' /\ store_completed success keys m m' /\
    exists stored, (forall k, k ∈ stored <-> success = true /\ k ∈ keys /\ storing m k) /\ event_added stored false (om_events m) (om_events m')) m.
Proof.
  intros Hok. unfold complete_store. wp_steps.
  assert (forall l st m, om_ok loads m -> wp (mfold (complete_store_key success) st l) (fun st2 m' => om_ok loads m' /\ store_completed success l m m' /\ om_events m' = om_events m /\
    exists st', st2 = st ++ st' /\ forall k, k ∈ st' <-> success = true /\ k ∈ l /\ storing m k) m) as Hfold.
  { clear m Hok. induction l as [|k l IH]; intros st m Hok; simpl.
    - wp_steps. split_and!; [done|apply completed_nil|done|]. exists []. rewrite app_nil_r. split; [done|]. intros k. rewrite !elem_of_nil. naive_solver.
    - wp_steps. eapply wp_mono; [by apply complete_store_key_ok|]. intros st1 m1 (Hok1 & Hc1 & He1 & s1 & -> & Hs1). eapply wp_mono; [by apply IH|].
      intros st2 m2 (Hok2 & Hc2 & He2 & s2 & -> & Hs2). split_and!; [done|by eapply completed_cons|congruence|]. exists (s1 ++ s2). split; [by rewrite app_assoc|].
      intros x. rewrite elem_of_app, Hs1, Hs2, elem_of_cons, (completed_pending _ _ _ _ x Hc1). destruct (decide (x = k)) as [->|]; tauto. }
  eapply wp_mono; [apply (Hfold keys [] m Hok)|]. intros st m1 (Hok1 & Hc1 & He1 & stored & -> & Hst). simpl. eapply wp_mono; [apply emit_ok|]. intros _ m2 (e & -> & Hem).
  split_and!; [|exact Hc1|]. - destruct Hok1 as [Hc ? ?]. split; [by eapply om_core_ext; [..|exact Hc]|done|done].
  - exists stored. split; [done|]. simpl. by rewrite <- He1.
Qed.

(** ** The other calls *)

Lemma offload_init_ok num_blocks events threshold size : (0 <= num_blocks < 2 ^ 63)%Z -> (0 < size)%Z -> om_ok [] (CPUOffloadingManager_init (P := P) num_blocks events threshold size).
Proof.
  intros Hn Hs. destruct (law_init num_blocks) as [Hok Hit]. split; [split|..]; unfold om_items; simpl; rewrite ?Hit; try done; try lia.
  - by intros k b ?%elem_of_nil.
  - split; simpl; [lia|]. destruct (2 <=? threshold)%Z; [|done]. split; [constructor|unfold zlen; simpl; lia].
Qed.

Lemma offload_touch_ok loads m keys : om_ok loads m -> wp (offload_touch keys) (fun _ m' => om_ok loads m' /\ same_blocks m m' /\ om_items m' ≡ₚ om_items m) m.
Proof.
  intros [Hc Hev Hpe]. unfold offload_touch, on_policy. wp_steps. destruct (law_touch _ keys (oc_policy _ _ _ Hc)) as [Hok Hit].
  assert (om_items (m <| om_policy := policy_touch keys (om_policy m) |>) ≡ₚ om_items m) as Hit' by exact Hit. destruct Hc as [C1 C2 C3 C4 C5 C6 C7].
  split_and!; try done; [split; [split|..]; rewrite ?Hit'; try done|].
  - intros k b Hin. apply C4. by rewrite <- Hit'.
  - intros k Hk. rewrite Hit'. by apply C5.
  - split_and!; try done. intros k i r. unfold has_block. by setoid_rewrite Hit'.
Qed.

Lemma offload_reset_ok loads m : om_ok loads m -> wp offload_reset (fun _ m' => om_ok [] m' /\ om_items m' = []) m.
Proof.
  intros [[C1 C2 C3 C4 C5 C6 C7] Hev Hpe]. unfold offload_reset. wp_steps. destruct (law_clear _ C1) as [Hok Hit]. split; [|done].
  split; [split|..]; unfold om_items; simpl; rewrite ?Hit; try done; [lia|by intros k b ?%elem_of_nil].
Qed.

Lemma same_pool_call loads (m m' : Mgr) : om_ok loads m -> same_pool m m' -> om_counts m' = om_counts m -> max_tracker_size m' = max_tracker_size m -> om_ok loads m'.
Proof.
  intros Hok Hs E1 E2. apply (om_ok_same_pool loads m); [done|done|]. destruct Hok as [Hc _ _]. pose proof (oc_tracker _ _ _ Hc) as Ht. unfold tracker_ok in *. by rewrite E1, E2.
Qed.

Lemma om_ok_events loads (m : Mgr) e : om_ok loads m -> om_ok loads (m <| om_events := e |>).
Proof. intros [Hc H1 H2]. split; [by eapply om_core_ext; [..|exact Hc]|done|done]. Qed.

Lemma offload_take_events_ok loads m : om_ok loads m ->
  wp offload_take_events (fun l m' => om_ok loads m' /\ l = default [] (om_events m) /\ m' = m <| om_events := (fun _ => []) <$> om_events m |>) m.
Proof.
  intros Hok. unfold offload_take_events. wp_steps. destruct (om_events m) as [l|] eqn:E; wp_steps.
  - split_and!; [by apply om_ok_events|done|done].
  - split_and!; [done|done|]. simpl. rewrite <- E. by destruct m.
Qed.

Lemma offload_get_stats_ok loads m : om_ok loads m -> wp offload_get_stats (fun _ m' => om_ok loads m' /\ same_pool m m') m.
Proof.
  intros Hok. unfold offload_get_stats. wp_steps. unfold id. destruct (2 <=? store_threshold m)%Z; simpl; wp_steps; (split; [|by split_and!]); by eapply same_pool_call; [exact Hok|by split_and!|done|done].
Qed.
End Store.
