(* ===== verification/OffloadThms.v ===== *)
(** What the offloading manager guarantees: the calls of its protocol never fail and keep the
    block pool sound; which blocks a store gets and which it evicts; what LRU and ARC evict. *)
From S2P Require Import Prelude BlockHash Offload OffloadPolicy OffloadArc OffloadManager OffloadStore.

(** ** Keys *)

(** A key determines its block hash and its group. *)
Lemma offload_key_roundtrip h g k : make_offload_key h g = Ok k -> get_offload_block_hash k = h /\ get_offload_group_idx k = g.
Proof.
  unfold make_offload_key. destruct ((g <? 0)%Z || (2 ^ 32 <=? g)%Z) eqn:E; [done|]. apply orb_false_iff in E as [E1%Z.ltb_ge E2%Z.leb_gt]. intros [= <-].
  split; [apply get_block_hash_pack|by apply get_group_id_pack].
Qed.

(** ** The number of blocks is fixed *)

Definition fixed_by {S T A} (f : S -> T) (c : M S A) : Prop := forall s, f (c s).2 = f s.

Section Keeps.
  Context {S T : Type} (f : S -> T).
Lemma fixed_ret {A} (a : A) : fixed_by f (mret a).
Proof. done. Qed.
Lemma fixed_raise {A} e : fixed_by f (raise (A := A) e).
Proof. done. Qed.
Lemma fixed_gets {A} (g : S -> A) : fixed_by f (gets g).
Proof. done. Qed.
Lemma fixed_modify g : (forall s, f (g s) = f s) -> fixed_by f (modify g).
Proof. intros Hg s. apply Hg. Qed.
Lemma fixed_assert b : fixed_by f (massert b).
Proof. by destruct b. Qed.
Lemma fixed_of_option {A} e (o : option A) : fixed_by f (of_option e o).
Proof. by destruct o. Qed.
Lemma fixed_bind {A B} (c : M S A) (k : A -> M S B) : fixed_by f c -> (forall a, fixed_by f (k a)) -> fixed_by f (mbind k c).
Proof. intros Hc Hk s. unfold mbind, M_bind. specialize (Hc s). destruct (c s) as [[a|e] s1]; simpl in *; [by rewrite Hk|done]. Qed.
Lemma fixed_when b (c : M S unit) : fixed_by f c -> fixed_by f (mwhen b c).
Proof. by destruct b. Qed.
Lemma fixed_for {A} (l : list A) (g : A -> M S unit) : (forall x, fixed_by f (g x)) -> fixed_by f (mfor l g).
Proof. intros Hg. induction l as [|x l IH]; [done|]. by apply fixed_bind. Qed.
Lemma fixed_fold {A B} (g : B -> A -> M S B) b l : (forall b x, fixed_by f (g b x)) -> fixed_by f (mfold g b l).
Proof. intros Hg. revert b. induction l as [|x l IH]; intros b; [done|]. by apply fixed_bind. Qed.
Lemma fixed_zoom {R A} (get : S -> R) put (c : M R A) : (forall r s, f (put r s) = f s) -> fixed_by f (zoom get put c).
Proof. intros Hp s. unfold zoom. destruct (c (get s)) as [o r]. apply Hp. Qed.
End Keeps.

Create HintDb fixed_by.
#[export] Hint Resolve fixed_ret fixed_raise fixed_gets fixed_assert fixed_of_option : fixed_by.
Ltac fixed_tac :=
  repeat (lazymatch goal with
          | |- forall _, _ => intro
          | |- fixed_by _ (mbind _ _) => apply fixed_bind
          | |- fixed_by _ (modify _) => apply fixed_modify
          | |- fixed_by _ (mwhen _ _) => apply fixed_when
          | |- fixed_by _ (mfor _ _) => apply fixed_for
          | |- fixed_by _ (mfold _ _ _) => apply fixed_fold
          | |- fixed_by _ (zoom _ _ _) => apply fixed_zoom
          | |- fixed_by _ _ => first [ solve [auto with fixed_by] | case_match ]
          | |- _ => first [ done | case_match ]
          end).

Lemma filter_same_on {A} (P Q : A -> Prop) `{!forall x, Decision (P x)} `{!forall x, Decision (Q x)} (l : list A) :
  Forall (fun x => P x <-> Q x) l -> filter P l = filter Q l.
Proof. induction 1 as [|x l Hx Hl IH]; [done|]. rewrite !filter_cons, IH. repeat case_decide; tauto. Qed.

Lemma wp_result {S} (c : M S unit) (Q : S -> Prop) s s' : c s = (Ok tt, s') -> wp c (fun _ s' => Q s') s -> Q s'.
Proof. intros E. unfold wp. by rewrite E. Qed.

(** ** The protocol *)

Section Protocol.
  Context {P : Type} `{PolicyLaws P}.
#[local] Abbreviation Mgr := (CPUOffloadingManager P).

Inductive offload_call :=
  | CallPrepareLoad (keys : list OffloadKey) | CallCompleteLoad (keys : list OffloadKey) | CallTouch (keys : list OffloadKey)
  | CallPrepareStore (keys : list OffloadKey) | CallCompleteStore (keys : list OffloadKey) (success : bool) | CallReset | CallTakeEvents | CallGetStats.

Definition run_offload (c : offload_call) : M Mgr unit :=
  match c with
  | CallPrepareLoad keys => _ ← prepare_load keys; mret tt
  | CallCompleteLoad keys => complete_load keys
  | CallTouch keys => offload_touch keys
  | CallPrepareStore keys => _ ← prepare_store keys; mret tt
  | CallCompleteStore keys success => complete_store keys success
  | CallReset => offload_reset
  | CallTakeEvents => _ ← offload_take_events; mret tt
  | CallGetStats => _ ← offload_get_stats; mret tt
  end.

(** Which calls the scheduler may make while the keys [loads] are being loaded, and the keys
    being loaded afterwards: only keys that [lookup] finds are loaded, and only loads that were
    prepared are completed. *)
Inductive offload_allowed (loads : list OffloadKey) (m : Mgr) : offload_call -> list OffloadKey -> Prop :=
  | allow_load keys : Forall (fun k => offload_lookup k m = (Ok HIT, m)) keys -> (zlen keys + zlen loads < 2 ^ 31)%Z ->
      offload_allowed loads m (CallPrepareLoad keys) (keys ++ loads)
  | allow_load_done keys loads' : loads ≡ₚ keys ++ loads' -> offload_allowed loads m (CallCompleteLoad keys) loads'
  | allow_touch keys : offload_allowed loads m (CallTouch keys) loads
  | allow_store keys : NoDup keys -> offload_allowed loads m (CallPrepareStore keys) loads
  | allow_store_done keys success : offload_allowed loads m (CallCompleteStore keys success) loads
  | allow_reset : offload_allowed loads m CallReset []
  | allow_events : offload_allowed loads m CallTakeEvents loads
  | allow_stats : offload_allowed loads m CallGetStats loads.

Inductive offload_reachable (num_blocks : Z) : list OffloadKey -> Mgr -> Prop :=
  | reach_init events threshold size : (0 <= num_blocks < 2 ^ 63)%Z -> (0 < size)%Z ->
      offload_reachable num_blocks [] (CPUOffloadingManager_init num_blocks events threshold size)
  | reach_call loads m c loads' m' : offload_reachable num_blocks loads m -> offload_allowed loads m c loads' -> run_offload c m = (Ok tt, m') ->
      offload_reachable num_blocks loads' m'.

Lemma run_call_num_blocks c : fixed_by om_num_blocks (run_offload c).
Proof.
  destruct c; simpl;
    unfold prepare_load, load_key, complete_load, complete_load_key, offload_touch, prepare_store, admit_keys, on_counts, make_room, store_blocks, offload_allocate_blocks,
      fresh_block, reused_block, complete_store, complete_store_key, free_block, emit, offload_reset, offload_take_events, offload_get_stats, set_ref_cnt, get_block, on_policy;
    fixed_tac.
Qed.

Lemma lookup_hit loads m k : om_ok loads m -> offload_lookup k m = (Ok HIT, m) <-> exists i, has_block m k i true.
Proof.
  intros Hok. setoid_rewrite (has_block_get loads m k _ _ Hok). unfold offload_lookup, get_block, mbind, M_bind, gets. simpl.
  destruct (policy_get k (om_policy m)) as [b|]; [|split; [done|by intros (i & b & ? & _)]]. destruct (is_ready b) eqn:E; simpl; (split; [intros Hl|intros (i & b' & [= <-] & _ & E')]); try done.
  - by exists (status_block_id b), b.
  - congruence.
Qed.

Lemma offload_allowed_ok loads m c loads' : om_ok loads m -> offload_allowed loads m c loads' -> wp (run_offload c) (fun _ m' => om_ok loads' m') m.
Proof.
  intros Hok Ha. inversion Ha; subst; simpl; wp_steps.
  - eapply wp_mono; [apply (prepare_load_ok loads); [done| |done]|intros ids m' Hr; wp_steps; apply Hr].
    eapply Forall_impl; [eassumption|]. intros k. apply (lookup_hit loads); done.
  - eapply wp_mono; [apply (complete_load_ok loads'); by eapply om_ok_loads_perm|]. naive_solver.
  - eapply wp_mono; [by apply (offload_touch_ok loads')|]. naive_solver.
  - eapply wp_mono; [by apply (prepare_store_ok loads')|]. intros r m' Hr. wp_steps. apply Hr.
  - eapply wp_mono; [by apply (complete_store_ok loads')|]. naive_solver.
  - eapply wp_mono; [by apply (offload_reset_ok loads)|]. naive_solver.
  - eapply wp_mono; [by apply (offload_take_events_ok loads')|]. intros r m' Hr. wp_steps. apply Hr.
  - eapply wp_mono; [by apply (offload_get_stats_ok loads')|]. intros r m' Hr. wp_steps. apply Hr.
Qed.

Lemma reachable_ok n loads m : offload_reachable n loads m -> om_ok loads m /\ om_num_blocks m = n.
Proof.
  induction 1 as [ev th size Hn Hs|loads m c loads' m' Hr [IH1 IH2] Ha Hrun].
  - split; [by apply offload_init_ok|done].
  - pose proof (offload_allowed_ok _ _ _ _ IH1 Ha) as Hok. unfold wp in Hok. rewrite Hrun in Hok. split; [done|]. pose proof (run_call_num_blocks c m) as Hk. rewrite Hrun in Hk. simpl in Hk. congruence.
Qed.

(** ** The pool *)

Lemma nodup_fmap_inj {A B} (f : A -> B) (l : list A) x y : NoDup (f <$> l) -> x ∈ l -> y ∈ l -> f x = f y -> x = y.
Proof.
  intros Hnd [i Hi]%list_elem_of_lookup [j Hj]%list_elem_of_lookup E. assert (i = j) as ->; [|congruence].
  apply (NoDup_lookup _ _ _ (f x) Hnd); rewrite list_lookup_fmap; [by rewrite Hi|rewrite Hj; csimpl; by rewrite E].
Qed.

Lemma offload_pool_nodup loads m : om_ok loads m -> NoDup (item_ids (om_items m) ++ free_list m).
Proof.
  intros [Hc _ _]. pose proof (oc_ids _ _ _ Hc) as Hp. simpl in Hp. rewrite Hp. unfold zrange. apply NoDup_fmap_2; [|apply NoDup_seq]. intros x y E. lia.
Qed.

Lemma has_block_id m k i r : has_block m k i r -> i ∈ item_ids (om_items m).
Proof. intros (b & Hin & <- & _). unfold item_ids. apply list_elem_of_fmap. by exists (k, b). Qed.

Lemma has_block_fun loads m k i i' r r' : om_ok loads m -> has_block m k i r -> has_block m k i' r' -> i = i' /\ r = r'.
Proof.
  intros [Hc _ _] (b & Hb & <- & <-) (b' & Hb' & <- & <-). apply (om_get _ _ _ _ _ Hc) in Hb, Hb'. rewrite Hb in Hb'. by injection Hb' as ->.
Qed.

Lemma has_block_inj loads m k k' i r r' : om_ok loads m -> has_block m k i r -> has_block m k' i r' -> k = k'.
Proof.
  intros Hok (b & Hb & Hi & _) (b' & Hb' & Hi' & _). pose proof (offload_pool_nodup _ _ Hok) as Hnd. apply NoDup_app in Hnd as [Hnd _].
  pose proof (nodup_fmap_inj (fun kb : item => status_block_id kb.2) (om_items m) (k, b) (k', b') Hnd Hb Hb' (eq_trans Hi (eq_sym Hi'))) as E. congruence.
Qed.

Lemma loading_held loads m k : om_ok loads m -> k ∈ loads -> exists i, has_block m k i true.
Proof.
  intros [Hc _ _] Hk. pose proof (oc_loads _ _ _ Hc k Hk) as ([k' b] & Ek & Hin)%list_elem_of_fmap. simpl in Ek. subst k'. exists (status_block_id b), b. split_and!; [done|done|].
  unfold is_ready. apply Z.leb_le. destruct (oc_refs _ _ _ Hc k b Hin) as [[_ ?]|Ho]; [done|]. pose proof (occurrences_nonneg k loads). lia.
Qed.

(** A block is idle when it is ready and not being loaded. *)
Lemma idle_iff loads m k b : om_ok loads m -> (k, b) ∈ om_items m -> status_ref_cnt b = 0%Z <-> is_ready b = true /\ k ∉ loads.
Proof.
  intros [Hc _ _] Hin. unfold is_ready. rewrite Z.leb_le. pose proof (oc_refs _ _ _ Hc k b Hin) as Hr. split.
  - intros E. split; [lia|]. by apply (idle_not_loading [] loads m k b).
  - intros [Hge Hk]. destruct Hr as [[? _]|Ho]; [lia|]. rewrite Ho. by apply occurrences_0.
Qed.

Lemma pending_iff loads m k b : om_ok loads m -> (k, b) ∈ om_items m -> status_ref_cnt b = (-1)%Z <-> is_ready b = false.
Proof.
  intros [Hc _ _] Hin. unfold is_ready. rewrite Z.leb_gt. pose proof (oc_refs _ _ _ Hc k b Hin) as Hr. pose proof (occurrences_nonneg k loads). split; [lia|]. intros. destruct Hr as [[? _]|?]; lia.
Qed.

Lemma offload_pool_size loads m : om_ok loads m -> (zlen (om_items m) + offload_num_free_blocks m = om_num_blocks m)%Z.
Proof.
  intros [Hc _ _]. pose proof (oc_ids _ _ _ Hc) as Hp%Permutation_length. pose proof (oc_alloc _ _ _ Hc). unfold offload_num_free_blocks, zlen. simpl in Hp.
  rewrite length_app, length_zrange in Hp. unfold item_ids in Hp. rewrite length_fmap in Hp. lia.
Qed.

(** C16. Offloading, safety: in every state the allowed calls reach from a new manager, over
    any policy with the laws, no allowed call raises (no assertion fails, no key is missing);
    no two keys share a CPU block; a cached block lies in the pool and is not on the free
    list; every key being loaded is cached and ready; the cached and the free blocks make up
    the pool; and the two counters count the idle blocks and the blocks being stored. *)
Theorem offload_protocol_safe n loads m : offload_reachable n loads m ->
  (forall c loads', offload_allowed loads m c loads' -> exists m', run_offload c m = (Ok tt, m')) /\
  (forall k k' i r r', has_block m k i r -> has_block m k' i r' -> k = k') /\
  (forall k i r, has_block m k i r -> (0 <= i < n)%Z /\ i ∉ free_list m) /\
  (forall k, k ∈ loads -> exists i, has_block m k i true) /\
  (zlen (om_items m) + offload_num_free_blocks m = n)%Z /\
  num_evictable_cache_blocks m = zlen (filter (fun kb => is_ready kb.2 = true /\ kb.1 ∉ loads) (om_items m)) /\
  num_write_pending_blocks m = zlen (filter (fun kb => is_ready kb.2 = false) (om_items m)).
Proof.
  intros [Hok Hn]%reachable_ok. pose proof Hok as [Hc Hev Hpe]. split_and!.
  - intros c loads' Ha. pose proof (offload_allowed_ok _ _ _ _ Hok Ha) as Hr. apply wp_run in Hr as ([] & m' & Hr & _). by exists m'.
  - intros k k' i r r'. by apply (has_block_inj loads).
  - intros k i r Hi%has_block_id. split.
    + pose proof (oc_ids _ _ _ Hc) as Hp. assert (i ∈ zrange 0 (num_allocated_blocks m)) as Hz by (rewrite <- Hp; apply elem_of_app; by left). apply elem_of_zrange in Hz.
      pose proof (oc_alloc _ _ _ Hc). lia.
    + pose proof (offload_pool_nodup _ _ Hok) as (_ & Hd & _)%NoDup_app. by apply Hd.
  - intros k. by apply loading_held.
  - rewrite <- Hn. by apply (offload_pool_size loads).
  - rewrite Hev. unfold num_refs, zlen. do 2 f_equal. apply filter_same_on. apply Forall_forall. intros [k b] Hin. by apply (idle_iff loads m).
  - rewrite Hpe. unfold num_refs, zlen. do 2 f_equal. apply filter_same_on. apply Forall_forall. intros [k b] Hin. by apply (pending_iff loads m k).
Qed.

(** ** Stores *)

Lemma new_item_zip (ks : list OffloadKey) ids k b : (k, b) ∈ zip ks ((fun i => {| status_ref_cnt := (-1)%Z; status_block_id := i |}) <$> ids) <->
  (k, status_block_id b) ∈ zip ks ids /\ status_ref_cnt b = (-1)%Z.
Proof.
  revert ids. induction ks as [|k0 ks IH]; intros [|i ids]; csimpl; rewrite ?elem_of_nil; [tauto..|]. rewrite !elem_of_cons, IH. destruct b as [r j]. simpl. naive_solver.
Qed.

Lemma zip_keys (ks : list OffloadKey) (ids : list Z) k i : (k, i) ∈ zip ks ids -> k ∈ ks.
Proof. revert ids. induction ks as [|k0 ks IH]; intros [|j ids]; csimpl; rewrite ?elem_of_nil, ?elem_of_cons; naive_solver. Qed.

Lemma granted_blocks loads m m' admitted out ev : om_ok loads m -> NoDup admitted -> store_granted admitted m out ev m' ->
  (forall k, k ∈ ev.*1 -> exists i, has_block m k i true /\ k ∉ loads) /\
  (forall k i r, has_block m' k i r <-> (r = false /\ (k, i) ∈ zip (keys_to_store out) (store_block_ids out)) \/ (has_block m k i r /\ k ∉ ev.*1)).
Proof.
  intros Hok Hna (Hk & He & Hlen & Hidle & Hit & _). set (new := zip _ _) in Hit.
  assert (forall k b, (k, b) ∈ new -> k ∉ (om_items m).*1) as Hmiss.
  { intros k b [Hz _]%new_item_zip. apply zip_keys in Hz. rewrite Hk in Hz. by apply list_elem_of_filter in Hz as [? _]. }
  assert (forall k b, (k, b) ∈ ev -> (k, b) ∈ om_items m /\ status_ref_cnt b = 0%Z) as Hev.
  { intros k b Hin. rewrite Forall_forall in Hidle. pose proof (Hidle _ Hin) as [Hb _]. simpl in Hb. split; [|done].
    assert ((k, b) ∈ new ++ om_items m) as Hx by (rewrite Hit; apply elem_of_app; by left). apply elem_of_app in Hx as [[_ ?]%new_item_zip|]; [lia|done]. }
  assert (forall k b, (k, b) ∈ om_items m' -> k ∉ ev.*1) as Hnd.
  { assert (NoDup (ev ++ om_items m').*1) as Hnd.
    { rewrite <- Hit, fmap_app. apply NoDup_app. split_and!; [|intros k ([k' b] & -> & Hin)%list_elem_of_fmap; by apply (Hmiss _ b)|apply (oc_nodup _ _ _ (oo_core _ _ Hok))].
      unfold new. rewrite fst_zip by (rewrite length_fmap; lia). rewrite Hk. by apply NoDup_filter. }
    rewrite fmap_app in Hnd. apply NoDup_app in Hnd as (_ & Hd & _). intros k b Hin Hk'. apply (Hd k Hk'), list_elem_of_fmap. by exists (k, b). }
  split.
  - intros k ([k' b] & -> & Hin)%list_elem_of_fmap. destruct (Hev _ _ Hin) as [Hm H0']. exists (status_block_id b). destruct (proj1 (idle_iff loads m _ _ Hok Hm) H0') as [? ?]. split; [by exists b|done].
  - intros k i r. split.
    + intros (b & Hin & Hi & Hr). assert ((k, b) ∈ new ++ om_items m) as Hx by (rewrite Hit; apply elem_of_app; by right). apply elem_of_app in Hx as [[Hz Hb]%new_item_zip|Hx].
      * left. unfold is_ready in Hr. rewrite Hb in Hr. subst i. by split.
      * right. split; [by exists b|by apply (Hnd k b)].
    + intros [(-> & Hz)|[(b & Hin & Hi & Hr) Hk']].
      * exists {| status_ref_cnt := -1; status_block_id := i |}. split_and!; [|done|done].
        assert ((k, {| status_ref_cnt := (-1)%Z; status_block_id := i |}) ∈ ev ++ om_items m') as Hx by (rewrite <- Hit; apply elem_of_app; left; by apply new_item_zip).
        apply elem_of_app in Hx as [[_ Hb]%Hev|]; [done|done].
      * exists b. split_and!; [|done|done]. assert ((k, b) ∈ ev ++ om_items m') as Hx by (rewrite <- Hit; apply elem_of_app; by right). apply elem_of_app in Hx as [Hx|]; [|done].
        destruct Hk'. apply list_elem_of_fmap. by exists (k, b).
Qed.

Lemma zip_functional (ks : list OffloadKey) (ids : list Z) : NoDup ks -> length ids = length ks ->
  (forall k k' i, (k, i) ∈ zip ks ids -> (k', i) ∈ zip ks ids -> k = k') -> NoDup ids.
Proof.
  revert ids. induction ks as [|k ks IH]; intros [|i ids] Hnd Hl Hz; try done; [constructor|]. apply NoDup_cons in Hnd as [Hk Hnd]. apply NoDup_cons. split.
  - intros [j Hj]%list_elem_of_lookup. destruct (lookup_lt_is_Some_2 ks j) as [k' Hk']; [apply lookup_lt_Some in Hj; simpl in Hl; lia|].
    assert (k = k') as ->; [|by apply Hk, list_elem_of_lookup; exists j]. apply (Hz k k' i); csimpl; [by left|]. right. apply list_elem_of_lookup. exists j. by apply lookup_zip_with_Some; exists k', i.
  - apply IH; [done|simpl in Hl; lia|]. intros k1 k2 i' H1 H2. apply (Hz k1 k2 i'); by right.
Qed.

(** C17. Offloading, stores: [prepare_store] returns in every reachable state.  Refused, it
    has changed no block and emitted no event, and the free blocks were too few.  Granted, it
    takes the admitted keys that are not cached, gives each its own block, evicts only ready
    blocks that are neither being loaded nor among the admitted keys, and the cache then holds
    the new keys (not yet ready) and the old ones that were not evicted, in the blocks they
    had; so a new block was free, unused or evicted. *)
Theorem offload_store_correct n loads m keys : offload_reachable n loads m -> NoDup keys ->
  exists r m' admitted, prepare_store keys m = (Ok r, m') /\ admitted `sublist_of` keys /\ (om_counts m = None -> admitted = keys) /\
  match r with
  | None => (forall k i r, has_block m' k i r <-> has_block m k i r) /\ free_list m' = free_list m /\ om_events m' = om_events m /\
      (offload_num_free_blocks m < zlen (missing_keys m admitted))%Z
  | Some out =>
      keys_to_store out = missing_keys m admitted /\ length (store_block_ids out) = length (keys_to_store out) /\ NoDup (store_block_ids out) /\
      (forall k, k ∈ evicted_keys out -> exists i, has_block m k i true /\ (k ∉ loads) /\ k ∉ admitted) /\
      (forall k i r, has_block m' k i r <-> (r = false /\ (k, i) ∈ zip (keys_to_store out) (store_block_ids out)) \/ (has_block m k i r /\ k ∉ evicted_keys out)) /\
      (forall k i r, i ∈ store_block_ids out -> has_block m k i r -> k ∈ evicted_keys out) /\
      event_added (evicted_keys out) true (om_events m) (om_events m')
  end.
Proof.
  intros [Hok Hn]%reachable_ok Hnd. pose proof (prepare_store_ok loads m keys Hok Hnd) as Hs. apply wp_run in Hs as (r & m' & Hrun & Hok' & admitted & Hsub & Hall & Hr).
  exists r, m', admitted. split_and!; [done..|]. destruct r as [out|]; [destruct Hr as [ev Hg]|destruct Hr as [(P1 & P2 & P3 & P4 & P5 & P6 & P7) Hfull]; unfold has_block, om_items; by rewrite P1].
  assert (NoDup admitted) as Hna by (by eapply sublist_NoDup). destruct (granted_blocks loads m m' admitted out ev Hok Hna Hg) as [Hev Hh].
  destruct Hg as (G1 & G2 & G3 & G4 & _ & G6). rewrite G2. assert (NoDup (keys_to_store out)) as Hnk by (rewrite G1; by apply NoDup_filter).
  assert (forall k i, (k, i) ∈ zip (keys_to_store out) (store_block_ids out) -> has_block m' k i false) as Hnew by (intros k i Hz; apply Hh; by left).
  split_and!; try done.
  - apply (zip_functional (keys_to_store out)); [done|done|]. intros k k' i H1%Hnew H2%Hnew. by apply (has_block_inj loads m' k k' i false false).
  - intros k Hk. destruct (Hev k Hk) as (i & Hi & Hl). exists i. split_and!; [done|done|]. apply list_elem_of_fmap in Hk as ([k' b] & -> & Hin). rewrite Forall_forall in G4. by apply (G4 _ Hin).
  - intros k i r [j Hj]%list_elem_of_lookup Hm. destruct (lookup_lt_is_Some_2 (keys_to_store out) j) as [k' Hk']; [apply lookup_lt_Some in Hj; lia|].
    assert (has_block m' k' i false) as Hn' by (apply Hnew, list_elem_of_lookup; exists j; by apply lookup_zip_with_Some; exists k', i).
    apply dec_stable. intros Hne. assert (has_block m' k i r) as Hm' by (apply Hh; by right). assert (k = k') as -> by (by apply (has_block_inj loads m' k k' i r false)).
    assert (k' ∈ missing_keys m admitted) as Hms by (rewrite <- G1; apply list_elem_of_lookup; by exists j). apply list_elem_of_filter in Hms as [Hms _].
    destruct Hm as (b & Hin & _). apply Hms, list_elem_of_fmap. by exists (k', b).
Qed.

(** C33. Offloading, completion: [complete_store] returns in every reachable state; a successful
    one makes ready the keys of the call that were being stored, a failed one removes them,
    and every other key keeps its block and state; the keys that became ready are announced. *)
Theorem offload_complete_correct n loads m keys success : offload_reachable n loads m ->
  exists m' stored, complete_store keys success m = (Ok tt, m') /\ om_ok loads m' /\
    (forall k i, has_block m' k i true <-> has_block m k i true \/ (success = true /\ k ∈ keys /\ has_block m k i false)) /\
    (forall k i, has_block m' k i false <-> has_block m k i false /\ k ∉ keys) /\
    (forall k, k ∈ stored <-> success = true /\ k ∈ keys /\ storing m k) /\ event_added stored false (om_events m) (om_events m').
Proof.
  intros [Hok Hn]%reachable_ok. pose proof (complete_store_ok loads m keys success Hok) as Hs. apply wp_run in Hs as ([] & m' & Hrun & Hok' & Hc & stored & Hst & He).
  exists m', stored. pose proof (fun k i => Hc k i true). pose proof (fun k i => Hc k i false). by split_and!.
Qed.

(** ** Blocks in use *)

Lemma same_items_blocks (m m' : Mgr) k i r : om_policy m' = om_policy m -> has_block m' k i r <-> has_block m k i r.
Proof. unfold has_block, om_items. by intros ->. Qed.

(** C27. Offloading, transfers in flight: whatever allowed call other than [reset_cache] is
    made, a key that is still being loaded keeps its block and stays ready, and a key that is
    being stored keeps its block until a completion names it. *)
Theorem offload_blocks_pinned n loads m c loads' m' : offload_reachable n loads m -> offload_allowed loads m c loads' -> run_offload c m = (Ok tt, m') -> c <> CallReset ->
  (forall k i, k ∈ loads -> k ∈ loads' -> has_block m k i true -> has_block m' k i true) /\
  (forall k i, (forall keys success, c = CallCompleteStore keys success -> k ∉ keys) -> has_block m k i false -> has_block m' k i false).
Proof.
  intros [Hok Hn]%reachable_ok Ha Hrun Hne. pose proof (fun Q => wp_result (run_offload c) Q m m' Hrun) as Hget.
  assert ((forall k i r, has_block m' k i r <-> has_block m k i r) -> (forall k i, k ∈ loads -> k ∈ loads' -> has_block m k i true -> has_block m' k i true) /\
    (forall k i, (forall keys success, c = CallCompleteStore keys success -> k ∉ keys) -> has_block m k i false -> has_block m' k i false)) as Hsame.
  { intros Hs. split; intros; by apply Hs. }
  inversion Ha; subst; simpl in *; [apply Hsame, Hget|apply Hsame, Hget|apply Hsame, Hget| | |done|apply Hsame, Hget|apply Hsame, Hget]; wp_steps.
  - eapply wp_mono; [apply (prepare_load_ok loads); [done| |done]|intros ids m2 Hr; wp_steps; apply Hr].
    eapply Forall_impl; [eassumption|]. intros k. by apply (lookup_hit loads).
  - eapply wp_mono; [apply (complete_load_ok loads'); by eapply om_ok_loads_perm|]. intros _ m2 [_ Hr]. apply Hr.
  - eapply wp_mono; [by apply (offload_touch_ok loads')|]. intros _ m2 (_ & Hr & _). apply Hr.
  - apply (Hget (fun m' => _)). wp_steps. eapply wp_mono; [by apply (prepare_store_ok loads')|]. intros r m2 (Hok2 & admitted & Hsub & _ & Hr). wp_steps. destruct r as [out|].
    + destruct Hr as [ev Hg]. apply (granted_blocks loads') in Hg as [Hev Hh]; [|done|by eapply sublist_NoDup]. split; intros k i; rewrite Hh.
      * intros Hk _ Hi. right. split; [done|]. intros Hin. by destruct (Hev k Hin) as (_ & _ & ?).
      * intros _ Hi. right. split; [done|]. intros Hin. destruct (Hev k Hin) as (i' & Hi' & _). by destruct (has_block_fun loads' m k i i' false true Hok Hi Hi') as [_ ?].
    + destruct Hr as [Hr _]. assert (forall k i r, has_block m2 k i r <-> has_block m k i r) as Hs by (intros; apply same_items_blocks, Hr). split; intros; by apply Hs.
  - apply (Hget (fun m' => _)). eapply wp_mono; [by apply (complete_store_ok loads')|]. intros _ m2 (_ & Hc & _). split; intros k i.
    + intros _ _ Hi. apply (Hc k i true). by left.
    + intros Hk Hi. apply (Hc k i false). split; [done|]. by eapply Hk.
  - eapply wp_mono; [by apply (offload_take_events_ok loads')|]. intros r m2 (_ & _ & ->). wp_steps. done.
  - eapply wp_mono; [by apply (offload_get_stats_ok loads')|]. intros r m2 [_ Hr]. wp_steps. intros. apply same_items_blocks, Hr.
Qed.
End Protocol.

(** ** What the policies evict *)

(** C34. LRU: [evict] takes the [n] least recently used idle blocks that are not protected,
    all of which it drops; it declines, with nothing changed, exactly when there are fewer. *)
Theorem lru_evicts_least_recent p n protected : lru_ok p -> (0 <= n)%Z ->
  let candidates := filter (fun k => k ∉ protected) (evictable_blocks p) in
  exists r p', lru_evict n protected p = (Ok r, p') /\ lru_ok p' /\
  match r with
  | None => p' = p /\ (zlen candidates < n)%Z
  | Some l => l.*1 = take (Z.to_nat n) candidates /\ zlen l = n /\ lru_blocks p ≡ₚ l ++ lru_blocks p' /\ Forall (fun kb => status_ref_cnt kb.2 = 0%Z) l
  end.
Proof.
  intros Hp Hn candidates. pose proof (lru_evict_spec p n protected Hp Hn) as Hs. apply wp_run in Hs as (r & p' & Hrun & Hok & Hr). exists r, p'. split_and!; [done|done|].
  destruct r as [l|]; [|done]. destruct Hr as (H1 & H2 & H3 & H4). split_and!; try done. eapply Forall_impl; [exact H4|]. by intros kb [? _].
Qed.

(** C28. ARC: the interleaved selection loop of [evict] is the closed form [arc_choice]: idle
    unprotected blocks of T1, oldest first, while T1 is not below its target, and for the rest
    those of T2; it declines, with nothing changed, when T2 has too few for the rest.  The four
    lists stay disjoint and the ghost lists within the capacity. *)
Theorem arc_evict_correct p n protected : arc_ok p -> (0 <= n)%Z ->
  exists r p', arc_evict n protected p = (Ok r, p') /\ arc_ok p' /\
  match r, arc_choice (Z.to_nat n) protected (float_int (target_t1_size p)) (zlen (arc_t1 p)) (arc_t1 p) (arc_t2 p) with
  | None, None => p' = p
  | Some l, Some chosen => l = chosen.*1 /\ zlen l = n /\ arc_items p ≡ₚ l ++ arc_items p' /\ Forall (fun kb => status_ref_cnt kb.2 = 0%Z /\ kb.1 ∉ protected) l
  | _, _ => False
  end.
Proof.
  intros Hp Hn. pose proof (arc_evict_spec p n protected Hp Hn) as Hs. apply wp_run in Hs as (r & p' & Hrun & Hok & Hr). exists r, p'. split_and!; [done|done|].
  destruct r as [l|]; [destruct Hr as ((cs & -> & ->) & Hr); by split|]. by destruct Hr as [-> ->].
Qed.







(** ** Examples *)

Module OffloadDemo.
Definition ka : OffloadKey := [byte_of_val 97].
Definition kb : OffloadKey := [byte_of_val 98].
Definition kc : OffloadKey := [byte_of_val 99].
Definition kd : OffloadKey := [byte_of_val 100].
Definition store_of (k : OffloadKey) : list offload_call := [CallPrepareStore [k]; CallCompleteStore [k] true].

Fixpoint run_offloads {P} `{CachePolicy P} (cs : list offload_call) (m : CPUOffloadingManager P) : CPUOffloadingManager P :=
  match cs with [] => m | c :: cs' => run_offloads cs' (run_offload c m).2 end.

Fixpoint offloads_allowed {P} `{PolicyLaws P} (cs : list offload_call) (loads : list OffloadKey) (m : CPUOffloadingManager P) (loads' : list OffloadKey) : Prop :=
  match cs with
  | [] => loads = loads'
  | c :: cs' => exists l, offload_allowed loads m c l /\ offloads_allowed cs' l (run_offload c m).2 loads'
  end.

Lemma reach_calls {P} `{PolicyLaws P} n cs loads (m : CPUOffloadingManager P) loads' :
  offload_reachable n loads m -> offloads_allowed cs loads m loads' -> offload_reachable n loads' (run_offloads cs m).
Proof.
  revert loads m. induction cs as [|c cs IH]; intros loads m Hr Ha; simpl in *; [by subst|]. destruct Ha as (l & Ha & Has). apply (IH l); [|done].
  destruct (reachable_ok _ _ _ Hr) as [Hok _]. pose proof (offload_allowed_ok _ _ _ _ Hok Ha) as Hw. apply wp_run in Hw as ([] & m' & Hrun & _).
  eapply reach_call; [exact Hr|exact Ha|]. by rewrite Hrun.
Qed.

(** Two blocks, LRU: [ka] is stored and being loaded. *)
Definition lru0 : CPUOffloadingManager LRUCachePolicy := CPUOffloadingManager_init 2 true 1 64000.
Definition lru1 : CPUOffloadingManager LRUCachePolicy := run_offloads (store_of ka ++ [CallPrepareLoad [ka]]) lru0.

(** Two blocks, ARC: [ka] was evicted from T1 and asked for twice, so that T1 should hold two
    blocks; [kb] was promoted to T2 and is being loaded; [kc] is idle in T1. *)
Definition arc_calls : list offload_call := store_of ka ++ store_of kb ++ store_of kc ++ [CallTouch [ka]; CallTouch [ka]; CallTouch [kb]; CallPrepareLoad [kb]].
Definition arc0 : CPUOffloadingManager ARCCachePolicy := CPUOffloadingManager_init 2 false 1 64000.
Definition arc1 : CPUOffloadingManager ARCCachePolicy := run_offloads arc_calls arc0.

Ltac allow_calls :=
  cbn [offloads_allowed arc_calls store_of app];
  repeat (eexists; split;
    [first [ apply allow_store; apply NoDup_singleton | apply allow_store_done | apply allow_touch
           | apply allow_load; [apply Forall_singleton; vm_compute; reflexivity|vm_compute; reflexivity] ]|]);
  reflexivity.

Lemma lru1_reachable : offload_reachable 2 [ka] lru1.
Proof. apply (reach_calls 2 _ []); [constructor; vm_compute; split; done|]. allow_calls. Qed.

Lemma arc1_reachable : offload_reachable 2 [kb] arc1.
Proof. apply (reach_calls 2 _ []); [constructor; vm_compute; split; done|]. allow_calls. Qed.
End OffloadDemo.
Import OffloadDemo.

(** The state of the demo: one block is needed and [kc] is idle and not protected, but T1 is
    below its target and T2 has no idle block, so [evict] declines and [prepare_store] returns
    None; LRU after the same calls evicts [kc]. *)
Example arc_refuses_idle_block :
  offload_reachable 2 [kb] arc1 /\ offload_lookup kc arc1 = (Ok HIT, arc1) /\ num_evictable_cache_blocks arc1 = 1%Z /\
  (arc_evict 1 [kd] (om_policy arc1)).1 = Ok None /\ (prepare_store [kd] arc1).1 = Ok None /\
  evicted_keys <$> (match (prepare_store [kd] (run_offloads arc_calls lru0)).1 with Ok o => o | Raise _ => None end) = Some [kc].
Proof. split; [apply arc1_reachable|]. split_and!; vm_compute; reflexivity. Qed.


Lemma offload_protocol_safe_witness : offload_reachable 2 [ka] lru1 /\ (zlen (om_items lru1) + offload_num_free_blocks lru1 = 2)%Z /\ exists i, has_block lru1 ka i true.
Proof.
  pose proof (offload_protocol_safe 2 [ka] lru1 lru1_reachable) as (_ & _ & _ & Hl & Hn & _). split; [apply lru1_reachable|]. split; [exact Hn|]. apply Hl, list_elem_of_singleton. reflexivity.
Defined.

Lemma offload_store_correct_witness : exists r m' admitted, prepare_store [kb; kc] lru1 = (Ok r, m') /\ admitted `sublist_of` [kb; kc] /\
  match r with None => (offload_num_free_blocks lru1 < zlen (missing_keys lru1 admitted))%Z | Some out => keys_to_store out = missing_keys lru1 admitted end.
Proof.
  assert (NoDup [kb; kc]) as Hnd by (apply (bool_decide_unpack (NoDup [kb; kc])); vm_compute; exact I).
  destruct (offload_store_correct 2 [ka] lru1 [kb; kc] lru1_reachable Hnd) as (r & m' & adm & Hrun & Hsub & _ & Hr). exists r, m', adm. split; [exact Hrun|]. split; [exact Hsub|].
  destruct r; apply Hr.
Defined.

Lemma offload_complete_correct_witness : exists m', complete_store [ka] true lru1 = (Ok tt, m') /\ om_ok [ka] m'.
Proof. destruct (offload_complete_correct 2 [ka] lru1 [ka] true lru1_reachable) as (m' & st & Hrun & Hok & _). exists m'. split; [exact Hrun|exact Hok]. Defined.

Lemma offload_blocks_pinned_witness : has_block (run_offload (CallPrepareStore [kb]) lru1).2 ka 0 true.
Proof.
  assert (NoDup [kb]) as Hnd by apply NoDup_singleton.
  destruct (offload_blocks_pinned 2 [ka] lru1 (CallPrepareStore [kb]) [ka] (run_offload (CallPrepareStore [kb]) lru1).2 lru1_reachable (allow_store _ _ _ Hnd)) as [Hp _];
    [vm_compute; reflexivity|discriminate|].
  apply Hp; [by apply list_elem_of_singleton..|]. exists {| status_ref_cnt := 1; status_block_id := 0 |}. split_and!; [vm_compute; left|reflexivity|reflexivity].
Defined.

Definition lru2 : CPUOffloadingManager LRUCachePolicy := run_offloads (store_of ka ++ store_of kb) lru0.
Definition lru_two : LRUCachePolicy := om_policy lru2.

Lemma lru2_reachable : offload_reachable 2 [] lru2.
Proof. apply (reach_calls 2 _ []); [constructor; vm_compute; split; done|]. allow_calls. Qed.

(** A reachable manager has a well-formed policy. *)
Lemma reachable_policy {P} `{PolicyLaws P} n loads (m : CPUOffloadingManager P) : offload_reachable n loads m -> policy_ok (om_policy m).
Proof. intros [[Hc _ _] _]%reachable_ok. apply Hc. Qed.

Lemma lru_evicts_least_recent_witness : exists r p', lru_evict 1 [ka] lru_two = (Ok r, p') /\ match r with None => p' = lru_two | Some l => l.*1 = [kb] end.
Proof.
  assert (lru_ok lru_two) as Hp by exact (reachable_policy 2 [] lru2 lru2_reachable).
  destruct (lru_evicts_least_recent lru_two 1 [ka] Hp ltac:(lia)) as (r & p' & Hrun & _ & Hr). exists r, p'. split; [exact Hrun|]. destruct r as [l|]; [|apply Hr].
  destruct Hr as [-> _]. vm_compute. reflexivity.
Defined.

Lemma arc_evict_correct_witness : exists r p', arc_evict 1 [kd] (om_policy arc1) = (Ok r, p') /\ match r with None => p' = om_policy arc1 | Some l => zlen l = 1%Z end.
Proof.
  assert (arc_ok (om_policy arc1)) as Hp by exact (reachable_policy 2 [kb] arc1 arc1_reachable).
  destruct (arc_evict_correct (om_policy arc1) 1 [kd] Hp ltac:(lia)) as (r & p' & Hrun & _ & Hr). exists r, p'. split; [exact Hrun|].
  destruct r as [l|], (arc_choice _ _ _ _ _ _); destruct Hr; try reflexivity. apply H0.
Defined.
